(* ===== verification/_CoqProject ===== *)
-Q . S2P
Prelude.v
Monad.v
Ring.v
Mem.v
Path.v
FsUtil.v
Buf.v
Ata.v
Rtl8139.v
Printf.v
CString.v
NetUtil.v
Malloc.v
Paging.v
PageTable.v
BootTables.v
Pci.v
KState.v
Elfload.v
Exec.v
Stdio.v
StdioSpec.v
Builtins.v
Esem.v
UserFs.v
Ext2fs.v
Socks.v
Dirent.v
Iochk.v
Tmpfs.v
Wrap.v
Cwd.v
Tar.v
Shell.v
Commands.v
Draw.v
Vterm.v
Mouse.v
Termcook.v
Keyboard.v
Posix.v
Demos.v
NetState.v
NetSend.v
NetFrame.v
NetConn.v
NetRecv.v
NetReasm.v
NetFs.v
NetSafe.v
NetTcp.v
NetInv.v
Pcpy.v
Copy.v
Proc.v
Pipe.v
Timer.v
TimerLive.v
Handle.v
Mount.v
ProcLife.v
Drivers.v
Pata.v
Setup.v
Request.v
Syscalls.v
Fate.v
Kernel.v
Scenario.v
Fuel.v
