(* ===== verification/Prelude.v ===== *)
(** * Camellia

    A verification library for the camellia operating system: the kernel
    ([src/src/kernel]), the library it shares with user programs
    ([src/src/libk]), the parts of the C library ([src/src/libc]) on which its
    programs rest, and some of these programs: file servers, above all
    the network stack ([src/src/cmd/netstack]), and what a user sees and types
    through, the terminal, the keyboard and the mouse.  The C code is modelled by executable functions in
    a state monad; this file holds the vocabulary they share.

    ** The system

    Camellia is a small kernel whose system calls are almost all about file
    systems.  A process opens a path, the kernel finds the mount that covers
    it, and turns every operation on the handle into a request to the backend
    of the mount.  A backend is a function of the kernel (the root directory,
    the serial line, the keyboard, the frame buffer, the network card, procfs) or a queue from
    which a user process takes requests ([_sys_fs_wait]) and answers them
    ([_sys_fs_respond]).  A process waits for its request in a state of its own;
    the kernel switches to another one and never returns through the stack of
    the system call.  User file systems get the requests as a [ufs_request] and
    a buffer; the network stack and tmpfs are two of them.

    ** The files

    Foundations.
    - [Prelude]: machine integers as [Z] with the wrap-around written out
      ([u8] to [s64]), the results [res] of functions without state, bounded
      loops, settable records.
    - [Monad]: the monad [ST] of the stateful code.  A computation ends
      normally ([Val]), leaves through a [_Noreturn] function ([Exit]), or
      fails ([Fault]: a failed assertion, a panic, an undefined access, or fuel
      that ran out).  [runs] is the total correctness triple of the
      development.

    The shared library ([src/src/libk]).
    - [Ring] ([ring.c]), [Mem] ([mem.c]), [Path] ([path.c]), [FsUtil]
      ([fsutil.c]), [Printf] ([printf.c]).

    The kernel ([src/src/kernel]).
    - [Malloc] ([malloc.c]): the page bitmap, the heap and its headers.
    - [Paging] ([arch/amd64/pagedir.c]) operates on page tables in the byte
      memory; [PageTable] gives them their meaning, a finite map.
    - [BootTables] ([arch/amd64/32/paging.c], [32/gdt.c], [interrupts/idt.c],
      [interrupts/irq.c]): the tables that are built once, bit by bit, and what the
      processor and the interrupt controllers do with them.
    - [Pci] ([arch/amd64/pci.c], [acpi.c], the start of [driver/rtl8139.c]): the
      scan of the bus over ports as the class [PciPorts], whose laws for the
      configuration space are the class [PciBus]; the firmware's tables.
    - [KState]: the structures of [proc.h], [handle.h], [vfs/request.h] and
      [vfs/mount.h] in typed stores, the globals, the kernel's monad.
    - [Pcpy] ([pcpy.c]) copies between address spaces; [Copy] says what.
    - [Proc], [ProcLife] ([proc.c]), [Pipe] ([pipe.c]), [Handle] ([handle.c] and
      the handle functions of [proc.c]), [Mount] ([vfs/mount.c]), [Timer]
      ([arch/amd64/time.c]) with [TimerLive], [Drivers]
      ([arch/amd64/driver/*.c], [vfs/procfs.c]), [Request] ([vfs/request.c]),
      [Syscalls] ([syscalls.c], [execbuf.c]).  Closing a handle can finish a
      request, which can run a driver, which can kill a process, which closes
      handles; the files reach what comes later through the class [KFwd],
      which plays the part of the C prototypes.
    - [Ata] ([arch/amd64/ata.c]) drives disks over the class [Ports], whose laws
      for the drives are the class [Drives]; [Pata] ([driver/pata.c]) puts it
      behind requests.  [Rtl8139] ([driver/rtl8139.c]): the network card's ring, its
      registers and the driver, whose interrupt handler is in steps between which
      frames arrive; [Drivers] has the same driver as the rest of the kernel sees it,
      on the frames that are in the ring.
    - [Setup] ([driver/serial.c], [driver/ps2.c], [time.c], [boot.c]): how the
      serial port, the keyboard controller and the timer are programmed at the
      start, over ports as the class [BytePorts], and the tags of the boot loader.
    - [Kernel] ties that knot and defines the machine: system calls with any
      arguments, faults and the interrupts of the keyboard, the mouse, the serial
      port, the timer and the network card as steps.  [Fate] is the invariant
      behind the theorem on dead processes, with the timer's list in it; [Fuel]
      shows that the nesting bound of the knot has no influence, [Scenario] models the boot and runs scripts
      of events.

    The C library ([src/src/libc]).
    - [CString] ([ctype.c], [string/*.c], [stdlib/stdlib.c]).
    - [Stdio] ([stdio/*.c]) on the interface [Sys] of the system calls, with
      [StdioSpec] for a kernel that serves plain files.
    - [Elfload] ([elfload.c], [elf.h]): loading a program into the address space
      of the process that runs it; [Exec] ([elfload.c], [_start2.c],
      [elfreloc.c]): its stack, its start and its relocations.
    - [UserFs] ([fs/dir.c]): the requests and the directory listings of user
      file systems.
    - [Dirent] ([dirent.c]): reading directories, with two programs that do,
      [find.c] and [httpd.c].
    - [Wrap] ([fs/misc.c], [fs/whitelist.c], [fs/dirinject.c]): file systems
      that forward to another one.
    - [Cwd] ([unistd/cwd.c], [camellia.c]): the working directory and opening.
    - [Posix] ([spawn.c], [compat.c], [signal.c], [mman.c], [sysstat.c],
      [unistd/simple.c], [fcntl.c], [time.c]): spawning, and what there is of
      POSIX besides.
    - [Draw] ([draw/draw.c], [draw/flush.c]): frame buffers and the flushing of
      what has changed; [Buf] holds what buffers of bytes need.

    Programs a user sees ([src/src/cmd]).
    - [Shell] ([shell/parser.c]): the words and redirections of a command;
      [Builtins] ([shell/builtins.c], [err.c]): the commands of the shell itself;
      [Commands] ([shell/shell.c], [unistd/unistd.c], [syswait.c]): how a line is
      run, with redirection, fork, wait and the loading of programs, on the
      interface [Procs] of what the kernel does about processes.
    - [Vterm] ([vterm/*.c]), the terminal; [Mouse] ([drawmouse.c]), the pointer;
      [Keyboard] ([init/driver/ps2.c]), from scan codes to characters;
      [Termcook] ([init/driver/termcook.c]), the editing of lines between the
      keyboard and a program, on the interface [Tty] of its system calls.
    - [Iochk] ([iochk.c]): the checker of file servers; [Demos] ([dvd.c], [ps.c],
      [netdog.c], [iostress.c]): small programs.

    File servers ([src/src/cmd]).
    - [Tmpfs] ([tmpfs.c]), [Tar] ([bootstrap/tar.c]).
    - [Ext2fs] ([ext2fs/main.c]), on the interface [Ext2] of the library that knows
      the format of the disk; [Socks] ([socksfs.c]), on the system calls [Sys].
    - [NetUtil] ([netstack/util.c], [util.h]), [NetState] ([proto.h], the data),
      [NetSend] ([ether.c], [arp.c], [icmp.c], sending), [NetConn] ([udp.c],
      [tcp.c]), [NetRecv] (receiving, [ipv4.c]), [NetFs] ([fs.c],
      [netstack.c]).  The connections call back into [fs.c] through the class
      [NetUser].  [NetFrame] and [NetReasm] are about fragmentation, [NetTcp]
      about what TCP promises a reader, [NetSafe] and [NetInv] about the stack
      as a whole.

    ** How the code is modelled

    A C object that others point to is an entry of a typed store under an
    abstract pointer, so that aliasing is kept and an access to a freed object
    is [Fault Undefined].  User memory, page tables and the kernel's heap are
    one byte memory.  Sizes and offsets are [Z] with the wrap-around of their
    C types where the code can reach it.  Asserts and panics are outcomes, not
    assumptions: a theorem that says [runs] has shown that none happens.

    Devices are given by what they answer: the disk controller by the laws of
    [Drives], of which [Ata.Simulated] is an instance, the bus by the laws of
    [PciBus] with a board as its instance, the network card by an executable model
    of its ring; the serial port, the keyboard controller and the timer by models
    of the registers that the code uses.

    Fuel occurs in few places.  Loops over linked structures get the number
    of objects in the store plus one, which a loop over an acyclic structure
    cannot exhaust; loops over a counter get its range.  Polling a controller
    has the bound [patience], of which the laws say that no drive is busy for
    longer, and so have the reset of the network card and the waits of [Setup];
    loops over terminated data have a bound [fuel], and the theorems say how large
    it must be.  A command of the shell that runs another one does so with fewer
    words, so that their number bounds the nesting.  The recursion
    between requests, handles and processes has the bound [depth]; [Fuel]
    shows that a larger one never changes a result.  In all of them running out
    is the fault [OutOfFuel], which the theorems exclude or name.

    ** What the theorems show

    - The kernel as a whole: a process that has died never runs again
      ([Kernel.no_return_from_death]), for all sequences of system calls, faults
      and interrupts, from the boot on ([Scenario.boot_timer_ok]); user programs
      can make the kernel panic ([Kernel.provider_exit_panics],
      [Syscalls.respond_to_killed_reader_panics], [Rtl8139.short_read_panics]), one
      can make it write past a buffer ([Syscalls.open_negative_length_overflows]).
    - Memory: mapping a page inserts into the finite map that translation reads
      ([PageTable]); copies between address spaces copy the longest accessible
      prefix and nothing else ([Copy]); the page allocator is a first fit whose
      release undoes an allocation ([Malloc]).
    - Time: the list of sleepers is sorted and stable ([Timer]), and whoever
      sleeps is woken once its time has come, whatever the others do
      ([TimerLive]).
    - Starting up: the first page tables map the first 4 GiB, each address to
      itself ([BootTables.boot_maps_identity]); whatever interrupt is delivered, the
      tables lead to its stub, on the interrupt stack
      ([BootTables.interrupt_reaches_stub]); the scan of the bus reports what can be
      reached and starts the card that the driver knows, and nothing else is written to
      a port ([Pci.pci_scan_finds]); a serial port
      that answers is found and set up ([Setup.serial_found]), the keyboard
      controller keeps its configuration but for the mouse ([Setup.ps2_ready]), and
      the timer rings when the counter reaches what was programmed
      ([Setup.hpet_rings]).
    - Devices: reading the disk gives its contents, and sectors that were written
      are read back ([Ata.ata_read_reads], [Ata.ata_write_read_back]); frames
      reach readers that have room for them, once and in order
      ([Rtl8139.nic_delivers_frames]).
    - Programs are loaded as their files describe ([Elfload.elf_loadmem_loads])
      and find the arguments they were given
      ([Exec.freejmp_passes_arguments]).
    - Names and handles: path simplification computes a canonical form
      ([Path]), mounts resolve to the most recent one that covers the path
      ([Mount]), duplicating a handle on every branch ([Handle]).
    - The shared library: rings are FIFOs ([Ring]), formatted output is the
      rendering of its format, and what is written to a buffer of which size
      ([Printf]), slices of
      files are what the comments say ([FsUtil]), moving memory ([Mem]).
    - The C library: numerals are read back ([CString.strtol_reads_numeral]),
      tokens are cut ([CString.strtok_r_cuts]); reading a stream delivers the
      next bytes whatever is buffered or pushed back, and gives back what was
      written ([StdioSpec]); listings are the requested part of the names
      ([UserFs]), and [readdir] reads the names back
      ([Dirent.readdir_lists]); a spawned process has its files set up in the order
      of the actions ([Posix.spawned_child]), and the kernel gets one answer for
      each request ([Posix.c0_answers_in_turn]); the semaphores are semaphores and forget nobody
      ([Esem.esem_is_semaphore]).
    - File servers: tmpfs keeps files as sequences of bytes
      ([Tmpfs.tmpfs_file_refines]), an archive is served as its members
      ([Tar.tar_serves_archive]), a white list confines its clients
      ([Wrap.whitelist_confines]), the ext2 server answers every request once and
      keeps no block ([Ext2fs.ext2fs_settles]), a proxy is asked for the name and
      the port that were opened ([Socks.socks_connects]), an open resolves the name against the working
      directory ([Cwd.camellia_open_resolves]).
    - Programs: the shell reads the words of a command back
      ([Shell.parse_reads_words]), and runs it: [cat] with a redirection copies
      files ([Commands.shell_copies_files]); a constant file passes the checker
      ([Iochk.check_accepts]); the terminal shows the text it is sent
      ([Vterm.vterm_shows_text]), the pointer leaves no trace
      ([Mouse.mouse_leaves_no_trace]), what is flushed is what was marked, but
      for a row ([Draw.dirty_flush_rows]); typed characters reach the readers in
      order ([Keyboard.keyboard_delivers]) and are handed on by lines
      ([Termcook.line_editor_cooks]); the moving rectangle stays on the screen
      ([Demos.dvd_stays_on_screen]).
    - The network stack: its invariant holds in every state it can reach, no
      assertion fails and no loop runs on, every frame is well formed
      ([NetInv]); fragments in any order are put together again ([NetReasm]);
      a TCP connection delivers the peer's bytes once and in order ([NetTcp]);
      checksums and the CRC are what the standards define, addresses are read
      back ([NetUtil]).

    Lemmas that show a fault of the code are next to the code they are about
    and say so.

    ** Not modelled

    Assembly (the entry points, the context switch, the stubs of the system
    calls) and the console have no algorithm a functional model would say
    something about.  The library behind ext2fs is not part of the repository, so
    its format of the disk is not known here; the fonts and the vendored C
    functions ([malloc], [qsort_r], [getopt]) are data or third-party code.  Of the
    programs only those named above are modelled: [init] starts the others once,
    and [logfs] and the port of doom show what the system can do.  Functions of the
    C library that only panic have no definition.  The compiler, the hardware page
    walk's caches and the interrupts inside the kernel (it runs with interrupts off)
    are abstracted. *)

From stdpp Require Export base list gmap option numbers sets.
From Stdlib Require Export ZArith Lia.

#[global] Open Scope Z_scope.
#[global] Set Default Goal Selector "!".

(** ** Machine integers

    A C integer is a [Z]; the wrap-around of a conversion is written out. *)

Definition u8  (z : Z) : Z := z mod 2 ^ 8.
Definition u16 (z : Z) : Z := z mod 2 ^ 16.
Definition u32 (z : Z) : Z := z mod 2 ^ 32.
Definition u64 (z : Z) : Z := z mod 2 ^ 64.
Definition s32 (z : Z) : Z := (z + 2 ^ 31) mod 2 ^ 32 - 2 ^ 31.
Definition s64 (z : Z) : Z := (z + 2 ^ 63) mod 2 ^ 64 - 2 ^ 63.

Definition LONG_MAX : Z := 2 ^ 63 - 1.

Abbreviation byte := Z (only parsing).
Abbreviation bytes := (list Z) (only parsing).

Definition is_byte (b : Z) : Prop := 0 <= b < 256.
Definition is_size (z : Z) : Prop := 0 <= z < 2 ^ 64.

#[export] Instance is_byte_dec b : Decision (is_byte b).
Proof. unfold is_byte; apply _. Defined.
#[export] Instance is_size_dec z : Decision (is_size z).
Proof. unfold is_size; apply _. Defined.

Ltac unfold_words := unfold u8, u16, u32, u64, s32, s64, is_byte, is_size, LONG_MAX in *.

(** [word_lia]: linear arithmetic with the word conversions spelled out. *)
Ltac word_lia := unfold_words; Z.div_mod_to_equations; lia.

Lemma u64_small z : is_size z -> u64 z = z.
Proof. unfold u64, is_size. intros. apply Z.mod_small. lia. Qed.

Lemma u32_small z : 0 <= z < 2 ^ 32 -> u32 z = z.
Proof. unfold u32. intros. apply Z.mod_small. lia. Qed.

Lemma u64_range z : is_size (u64 z).
Proof. unfold u64, is_size. apply Z.mod_pos_bound. lia. Qed.

Lemma s64_small z : - 2 ^ 63 <= z < 2 ^ 63 -> s64 z = z.
Proof. unfold s64. intros. rewrite Z.mod_small; lia. Qed.

Lemma s32_small z : - 2 ^ 31 <= z < 2 ^ 31 -> s32 z = z.
Proof. unfold s32. intros. rewrite Z.mod_small; lia. Qed.

Lemma s64_u64 z : s64 (u64 z) = s64 z.
Proof. word_lia. Qed.

Create HintDb words.
Create Rewrite HintDb words.
#[export] Hint Rewrite u64_small s64_small s32_small u32_small using (unfold_words; lia) : words.
#[export] Hint Resolve u64_range : words.

(** ** Results of C code

    [Panic] is a failed [assert] or a call of [_panic]; [Undefined] a behaviour
    the C standard leaves undefined (here: reading through a bad pointer);
    [OutOfFuel] is the model's own: a loop did not end within its bound. *)

Inductive fault := Panic | Undefined | OutOfFuel.

#[export] Instance fault_eq_dec : EqDecision fault.
Proof. solve_decision. Defined.

Inductive res (A : Type) :=
| Ok (a : A)
| Err (f : fault).
Arguments Ok {A} a.
Arguments Err {A} f.

#[export] Instance res_eq_dec {A} `{EqDecision A} : EqDecision (res A).
Proof. solve_decision. Defined.

#[export] Instance res_ret : MRet res := @Ok.
#[export] Instance res_bind : MBind res := fun A B f m =>
  match m with Ok a => f a | Err e => Err e end.
#[export] Instance res_fmap : FMap res := fun A B f m =>
  match m with Ok a => Ok (f a) | Err e => Err e end.

Lemma bind_ok {A B} (m : res A) (f : A -> res B) b :
  (m ≫= f) = Ok b <-> exists a, m = Ok a /\ f a = Ok b.
Proof.
  split.
  - destruct m as [a|]; [by exists a|done].
  - by intros (a&->&?).
Qed.

(** C's [assert]. *)
Definition assert_ (b : bool) : res () := if b then Ok () else Err Panic.

(** Arithmetic on [int]: the signed overflow is undefined. *)
Definition int_ (z : Z) : res Z :=
  if (- 2 ^ 31 <=? z) && (z <? 2 ^ 31) then Ok z else Err Undefined.

Lemma int_ok z : - 2 ^ 31 <= z < 2 ^ 31 -> int_ z = Ok z.
Proof. intros H. unfold int_. by rewrite (proj2 (Z.leb_le _ _)), (proj2 (Z.ltb_lt _ _)) by lia. Qed.

(** ** Loops

    [loop n f a] runs [f] at most [n] times, from [a], until it answers [inr].
    The bound is a binary number, so that a loop over a 64-bit range has a
    bound without a unary numeral of that size. *)

Section loop.
Context {A B : Type} (f : A -> A + B).

Fixpoint loop (n : positive) (a : A) : A + B :=
  match n with
  | xH => f a
  | xO m =>
      match loop m a with inl a' => loop m a' | inr b => inr b end
  | xI m =>
      match f a with
      | inl a0 =>
          match loop m a0 with inl a' => loop m a' | inr b => inr b end
      | inr b => inr b
      end
  end.

(** The same loop with a unary bound: what the lemmas are proved on. *)
Fixpoint loop_nat (n : nat) (a : A) : A + B :=
  match n with
  | O => inl a
  | S m => match f a with inl a' => loop_nat m a' | inr b => inr b end
  end.

Lemma loop_nat_add n m a :
  loop_nat (n + m) a =
  match loop_nat n a with inl a' => loop_nat m a' | inr b => inr b end.
Proof.
  revert a; induction n as [|n IH]; intros a; simpl; [done|].
  destruct (f a); [apply IH | done].
Qed.

Lemma loop_spec n a : loop n a = loop_nat (Pos.to_nat n) a.
Proof.
  revert a; induction n as [m IH|m IH|]; intros a; cbn [loop].
  - replace (Pos.to_nat m~1) with (S (Pos.to_nat m + Pos.to_nat m)) by lia.
    cbn [loop_nat]. destruct (f a) as [a0|]; [|done].
    rewrite loop_nat_add, <- IH. destruct (loop m a0); [apply IH|done].
  - replace (Pos.to_nat m~0) with (Pos.to_nat m + Pos.to_nat m)%nat by lia.
    rewrite loop_nat_add, <- IH. destruct (loop m a); [apply IH|done].
  - change (Pos.to_nat 1) with 1%nat. cbn [loop_nat]. by destruct (f a).
Qed.

(** Hoare rule for a loop with a decreasing measure: the bound is enough,
    and the exit value satisfies [Q]. *)
Lemma loop_rule (I : A -> Prop) (Q : B -> Prop) (mu : A -> Z) n a :
  I a ->
  (forall x, I x ->
     match f x with
     | inl x' => I x' /\ 0 <= mu x' < mu x
     | inr b => Q b
     end) ->
  0 <= mu a < Z.pos n ->
  exists b, loop n a = inr b /\ Q b.
Proof.
  intros HI Hstep Hn. rewrite loop_spec.
  assert (Hm : 0 <= mu a < Z.of_nat (Pos.to_nat n)) by lia.
  clear Hn. revert a HI Hm.
  induction (Pos.to_nat n) as [|k IH]; intros a HI Hm; [lia|].
  simpl. specialize (Hstep a HI). destruct (f a) as [a'|b]; [|eauto].
  destruct Hstep as [HI' Hmu]. apply IH; [done|lia].
Qed.
End loop.

(** ** Lists *)

Section lists.
Context {A : Type}.
Implicit Types l k : list A.

(** [l] overwritten with [k] from index [i] on (within [l]). *)
Definition splice (i : nat) k l : list A :=
  take i l ++ k ++ drop (i + length k) l.

Lemma length_splice i k l :
  (i + length k <= length l)%nat -> length (splice i k l) = length l.
Proof. intros. unfold splice. rewrite !length_app, length_take, length_drop. lia. Qed.

Lemma splice_lookup_out i k l j :
  (i + length k <= length l)%nat ->
  (j < i \/ i + length k <= j)%nat -> splice i k l !! j = l !! j.
Proof.
  intros Hl Hj. unfold splice.
  destruct (decide (j < i)%nat).
  - rewrite lookup_app_l by (rewrite length_take; lia).
    apply lookup_take_lt; lia.
  - rewrite lookup_app_r by (rewrite length_take; lia).
    rewrite length_take, lookup_app_r by lia.
    rewrite lookup_drop. f_equal. lia.
Qed.

Lemma splice_lookup_in i k l j :
  (i + length k <= length l)%nat ->
  (i <= j < i + length k)%nat -> splice i k l !! j = k !! (j - i)%nat.
Proof.
  intros Hl Hj. unfold splice.
  rewrite lookup_app_r by (rewrite length_take; lia).
  rewrite length_take, lookup_app_l by lia. f_equal. lia.
Qed.

Lemma take_take_app n l k : take n (take n l ++ k) = take n (l ++ k).
Proof.
  apply list_eq; intros i.
  destruct (decide (i < n)%nat);
    [|rewrite !(proj2 (lookup_ge_None _ _)); [done|rewrite length_take; lia..]].
  rewrite !lookup_take_lt by done.
  destruct (decide (i < length l)%nat).
  - rewrite !lookup_app_l by (rewrite ?length_take; lia). by apply lookup_take_lt.
  - rewrite !lookup_app_r by (rewrite ?length_take; lia).
    f_equal. rewrite length_take. lia.
Qed.
End lists.

(** ** Record update

    [r <| f := v |>] is [r] with field [f] set to [v].  A record type declares
    [Settable]: its constructor applied to its projections; the setter of a
    projection is found from it by abstracting that projection. *)

Class Settable (R : Type) := eta_of : R -> R.
#[export] Typeclasses Opaque Settable.
Class Setter {R A : Type} (proj : R -> A) := set : (A -> A) -> R -> R.
#[global] Arguments set {R A} proj {_} f r.

Ltac find_setter proj :=
  match type of proj with
  | ?R -> _ =>
      let e := eval hnf in (_ : Settable R) in
      match eval pattern proj in e with
      | ?g _ => let t := eval cbv beta in (fun f (r : R) => g (fun x => f (proj x)) r) in exact t
      end
  end.

#[export] Hint Extern 0 (Setter ?proj) => find_setter proj : typeclass_instances.

Notation "r <| f := v |>" := (set f (fun _ => v) r)
  (at level 40, left associativity, format "r  <| f  :=  v |>").
Notation "r <| f ::= g |>" := (set f g r)
  (at level 40, left associativity, format "r  <| f  ::=  g |>").

(** ** Tactics *)

(** A closed decidable proposition, by evaluation. *)
Ltac decide_now := apply (bool_decide_unpack _); vm_compute; exact I.

(** Case analysis on the tests of a C condition. *)
Ltac cases :=
  repeat match goal with
  | |- context [if ?b then _ else _] => destruct b eqn:?
  | H : context [if ?b then _ else _] |- _ => destruct b eqn:?
  end.

(** Componentwise equality of tuples, by [lia]. *)
Ltac pair_lia := repeat (apply pair_equal_spec; split); first [done|lia].

(** Turn boolean comparisons of [Z] in the context into inequalities. *)
Ltac zbool :=
  repeat match goal with
  | H : (_ <? _) = true |- _ => apply Z.ltb_lt in H
  | H : (_ <? _) = false |- _ => apply Z.ltb_ge in H
  | H : (_ <=? _) = true |- _ => apply Z.leb_le in H
  | H : (_ <=? _) = false |- _ => apply Z.leb_gt in H
  | H : (_ =? _) = true |- _ => apply Z.eqb_eq in H
  | H : (_ =? _) = false |- _ => apply Z.eqb_neq in H
  | H : (_ && _)%bool = true |- _ => apply andb_true_iff in H as [? ?]
  | H : (_ || _)%bool = false |- _ => apply orb_false_iff in H as [? ?]
  | H : negb _ = true |- _ => apply negb_true_iff in H
  | H : negb _ = false |- _ => apply negb_false_iff in H
  end.
