(* ===== verification/Monad.v ===== *)
(** * Monad

    The monad in which the stateful code is written: a state, three ways to
    end.  [Val] is a normal return, [Exit] a [_Noreturn] way out of the kernel
    (back to user mode, idling, shutting down), [Fault] a failed assertion, a
    panic or an undefined access.  The file also holds the two ways of stating
    what a computation does that the components share: [runs] (a total
    correctness triple) and [steps] (a relation kept by every normal or
    [_Noreturn] outcome), with the rules that drive the proofs. *)

From S2P Require Import Prelude.

Section monad.
Context {S E : Type}.

Inductive outcome (A : Type) :=
| Val (a : A) (s : S)
| Exit (e : E) (s : S)
| Fault (f : fault).
#[global] Arguments Val {A} a s.
#[global] Arguments Exit {A} e s.
#[global] Arguments Fault {A} f.

Definition ST (A : Type) : Type := S -> outcome A.

#[export] Instance st_ret : MRet ST := fun A a s => Val a s.
#[export] Instance st_bind : MBind ST := fun A B f m s =>
  match m s with
  | Val a s' => f a s'
  | Exit e s' => Exit e s'
  | Fault x => Fault x
  end.
#[export] Instance st_fmap : FMap ST := fun A B f m => m ≫= (fun a => mret (f a)).

Definition get_ : ST S := fun s => Val s s.
Definition put_ (s : S) : ST () := fun _ => Val () s.
Definition gets {A} (f : S -> A) : ST A := fun s => Val (f s) s.
Definition modify (f : S -> S) : ST () := fun s => Val () (f s).
Definition fail {A} (x : fault) : ST A := fun _ => Fault x.
Definition exit_ {A} (e : E) : ST A := fun s => Exit e s.

(** C's [assert], a panic, and the use of a pointer that must not be null. *)
Definition assert (b : bool) : ST () := if b then mret () else fail Panic.
Definition panic {A} : ST A := fail Panic.
Definition deref {A} (p : option A) : ST A :=
  match p with Some a => mret a | None => fail Undefined end.
Definition lift {A} (r : res A) : ST A :=
  match r with Ok a => mret a | Err x => fail x end.
Definition when (b : bool) (m : ST ()) : ST () := if b then m else mret ().
Definition unless (b : bool) (m : ST ()) : ST () := if b then mret () else m.

Fixpoint forM {A} (l : list A) (f : A -> ST ()) : ST () :=
  match l with [] => mret () | a :: l => f a;; forM l f end.

(** [for (i = lo; i < lo + n; i++)], with the loop's other variables. *)
Fixpoint forZ {A} (lo : Z) (n : nat) (f : Z -> A -> ST A) (a : A) : ST A :=
  match n with
  | O => mret a
  | Datatypes.S n => a ← f lo a; forZ (lo + 1) n f a
  end.

(** [for (; p; ...)] and [while] loops over linked structures: [body] says
    whether to go on ([inl]) or stop ([inr]); at most [n] turns. *)
Fixpoint iter {A B} (n : nat) (body : A -> ST (A + B)) (a : A) : ST B :=
  match n with
  | O => fail OutOfFuel
  | Datatypes.S n => x ← body a; match x with inl a => iter n body a | inr b => mret b end
  end.

(** [for (;;)] loops over ranges of machine words: the bound is binary, so that
    it can be as large as the range. *)
Fixpoint iterp {A B} (n : positive) (body : A -> ST (A + B)) (a : A) : ST (A + B) :=
  match n with
  | xH => body a
  | xO n =>
      x ← iterp n body a;
      match x with inl a => iterp n body a | inr b => mret (inr b) end
  | xI n =>
      x ← body a;
      match x with
      | inr b => mret (inr b)
      | inl a =>
          x ← iterp n body a;
          match x with inl a => iterp n body a | inr b => mret (inr b) end
      end
  end.

Definition while_ {A B} (n : positive) (body : A -> ST (A + B)) (a : A) : ST B :=
  x ← iterp n body a;
  match x with inl _ => fail OutOfFuel | inr b => mret b end.

(** A computation's outcome, read off by evaluation. *)
Definition is_val {A} (o : outcome A) : bool :=
  match o with Val _ _ => true | _ => false end.

Lemma is_val_true {A} (o : outcome A) : is_val o = true -> exists a s, o = Val a s.
Proof. destruct o; [eauto|done..]. Qed.

(** ** Total correctness *)

Definition runs {A} (m : ST A) (s : S) (Q : A -> S -> Prop) : Prop :=
  match m s with Val a s' => Q a s' | _ => False end.

Lemma runs_ret {A} (a : A) s Q : Q a s -> runs (mret a) s Q.
Proof. done. Qed.

Lemma runs_bind {A B} (m : ST A) (f : A -> ST B) s Q :
  runs m s (fun a s' => runs (f a) s' Q) -> runs (m ≫= f) s Q.
Proof. unfold runs, mbind, st_bind. by destruct (m s). Qed.

Lemma runs_lift {A} (r : res A) a s (Q : A -> S -> Prop) : r = Ok a -> Q a s -> runs (lift r) s Q.
Proof. by intros -> HQ. Qed.

Lemma runs_mono {A} (m : ST A) s (Q Q' : A -> S -> Prop) :
  runs m s Q -> (forall a s', Q a s' -> Q' a s') -> runs m s Q'.
Proof. unfold runs. destruct (m s); naive_solver. Qed.

Lemma runs_val {A} (m : ST A) s a s' (Q : A -> S -> Prop) :
  runs m s Q -> m s = Val a s' -> Q a s'.
Proof. unfold runs. by intros H E0; rewrite E0 in H. Qed.

Lemma runs_inv {A} (m : ST A) s (Q : A -> S -> Prop) :
  runs m s Q -> exists a s', m s = Val a s' /\ Q a s'.
Proof. unfold runs. destruct (m s); naive_solver. Qed.

Lemma after_val {A B} (m : ST A) (f : A -> ST B) s a s' : m s = Val a s' -> (m ≫= f) s = f a s'.
Proof. unfold mbind, st_bind. by intros ->. Qed.

Lemma bind_val {A B} (m : ST A) (f : A -> ST B) s b s' :
  (m ≫= f) s = Val b s' <-> exists a s1, m s = Val a s1 /\ f a s1 = Val b s'.
Proof.
  unfold mbind, st_bind. destruct (m s) as [a s1| |]; [|naive_solver..].
  split; [by eauto|]. by intros (?&?&[= <- <-]&?).
Qed.

Lemma forZ_rule {A} (f : Z -> A -> ST A) (I : Z -> A -> S -> Prop) n lo a s :
  (forall i a s, lo <= i < lo + Z.of_nat n -> I i a s -> runs (f i a) s (I (i + 1))) ->
  I lo a s -> runs (forZ lo n f a) s (I (lo + Z.of_nat n)).
Proof.
  revert lo a s; induction n as [|n IH]; intros lo a s Hf Ha.
  { apply runs_ret. by rewrite Z.add_0_r. }
  cbn [forZ]. apply runs_bind. eapply runs_mono; [apply Hf; [lia|done]|].
  intros a1 s1 H1. replace (lo + Z.of_nat (Datatypes.S n)) with (lo + 1 + Z.of_nat n) by lia.
  apply IH; [|done]. intros i a2 s2 Hi. apply Hf. lia.
Qed.

Lemma runs_assert b s (Q : () -> S -> Prop) :
  b = true -> Q () s -> runs (assert b) s Q.
Proof. intros -> H. exact H. Qed.

Lemma runs_get s (Q : S -> S -> Prop) : Q s s -> runs get_ s Q.
Proof. done. Qed.

Lemma runs_gets {A} (f : S -> A) s (Q : A -> S -> Prop) : Q (f s) s -> runs (gets f) s Q.
Proof. done. Qed.

Lemma runs_modify f s (Q : () -> S -> Prop) : Q () (f s) -> runs (modify f) s Q.
Proof. done. Qed.

(** ** Relations kept by a computation *)

Section steps.
Context (R : S -> S -> Prop) `{!PreOrder R}.

Definition steps {A} (m : ST A) : Prop :=
  forall s, match m s with Val _ s' => R s s' | Exit _ s' => R s s' | Fault _ => True end.

Ltac steps_triv := intros s; hnf; first [exact I|change (R s s); reflexivity].

Lemma steps_ret {A} (a : A) : steps (mret a).
Proof. steps_triv. Qed.

Lemma steps_bind {A B} (m : ST A) (f : A -> ST B) :
  steps m -> (forall a, steps (f a)) -> steps (m ≫= f).
Proof.
  intros Hm Hf s. unfold mbind, st_bind. specialize (Hm s).
  destruct (m s) as [a s'|e s'|x]; [|done|done].
  specialize (Hf a s'). destruct (f a s'); [by etrans|by etrans|done].
Qed.

Lemma steps_fail {A} x : steps (@fail A x).
Proof. steps_triv. Qed.

Lemma steps_exit {A} e : steps (@exit_ A e).
Proof. steps_triv. Qed.

Lemma steps_gets {A} (f : S -> A) : steps (gets f).
Proof. steps_triv. Qed.

Lemma steps_get : steps get_.
Proof. steps_triv. Qed.

Lemma steps_modify f : (forall s, R s (f s)) -> steps (modify f).
Proof. intros H s. apply H. Qed.

Lemma steps_assert b : steps (assert b).
Proof. destruct b; steps_triv. Qed.

Lemma steps_deref {A} (p : option A) : steps (deref p).
Proof. destruct p; steps_triv. Qed.

Lemma steps_lift {A} (r : res A) : steps (lift r).
Proof. destruct r; steps_triv. Qed.

Lemma steps_if {A} (b : bool) (m1 m2 : ST A) : steps m1 -> steps m2 -> steps (if b then m1 else m2).
Proof. by destruct b. Qed.

Lemma steps_when b m : steps m -> steps (when b m).
Proof. intros H. destruct b; [done|apply steps_ret]. Qed.

Lemma steps_unless b m : steps m -> steps (unless b m).
Proof. intros H. destruct b; [apply steps_ret|done]. Qed.

Lemma steps_forM {A} (l : list A) f : (forall a, steps (f a)) -> steps (forM l f).
Proof.
  intros H. induction l; cbn; [apply steps_ret|]. apply steps_bind; auto.
Qed.

Lemma steps_iter {A B} n (body : A -> ST (A + B)) a :
  (forall a, steps (body a)) -> steps (iter n body a).
Proof.
  intros H. revert a; induction n as [|n IH]; intros a; cbn; [apply steps_fail|].
  apply steps_bind; [done|]. intros [a'|b]; [apply IH|apply steps_ret].
Qed.

Lemma steps_iterp {A B} n (body : A -> ST (A + B)) a :
  (forall a, steps (body a)) -> steps (iterp n body a).
Proof.
  intros H. revert a; induction n as [n IH|n IH|]; intros a; cbn; [..|apply H];
    repeat (apply steps_bind; [done|]; intros [?|?]; try apply steps_ret); done.
Qed.

Lemma steps_while {A B} n (body : A -> ST (A + B)) a :
  (forall a, steps (body a)) -> steps (while_ n body a).
Proof.
  intros H. apply steps_bind; [by apply steps_iterp|].
  intros [?|?]; [apply steps_fail|apply steps_ret].
Qed.

Lemma steps_match_option {A B} (o : option A) (f : A -> ST B) (g : ST B) :
  (forall a, steps (f a)) -> steps g -> steps (match o with Some a => f a | None => g end).
Proof. destruct o; auto. Qed.

(** The same from the states that satisfy [P]. *)
Definition steps_from (P : S -> Prop) {A} (m : ST A) : Prop :=
  forall s, P s ->
  match m s with Val _ s' => R s s' | Exit _ s' => R s s' | Fault _ => True end.

Lemma steps_from_steps P {A} (m : ST A) : steps m -> steps_from P m.
Proof. intros H s _. apply H. Qed.

Lemma steps_from_weaken (P P' : S -> Prop) {A} (m : ST A) :
  steps_from P' m -> (forall s, P s -> P' s) -> steps_from P m.
Proof. intros H HP s Hs. by apply H, HP. Qed.

(** What the first step's outcome tells about the next state. *)
Lemma steps_from_bind (P : S -> Prop) {A B} (Q : A -> S -> Prop) (m : ST A) (f : A -> ST B) :
  steps m ->
  (forall s a s', P s -> m s = Val a s' -> Q a s') ->
  (forall a, steps_from (Q a) (f a)) -> steps_from P (m ≫= f).
Proof.
  intros Hm HQ Hf s Hs. unfold mbind, st_bind. specialize (Hm s).
  destruct (m s) as [a s'|e s'|x] eqn:E0; [|done|done].
  specialize (Hf a s' (HQ _ _ _ Hs E0)). destruct (f a s'); [by etrans|by etrans|done].
Qed.

Lemma steps_from_then (P : S -> Prop) {A B} (m : ST A) (f : A -> ST B) :
  steps_from P m -> (forall a, steps (f a)) -> steps_from P (m ≫= f).
Proof.
  intros Hm Hf s Hs. unfold mbind, st_bind. specialize (Hm s Hs).
  destruct (m s) as [a s'|e s'|x]; [|done|done].
  specialize (Hf a s'). destruct (f a s'); [by etrans|by etrans|done].
Qed.

Lemma steps_from_if P {A} (b : bool) (m1 m2 : ST A) :
  steps_from P m1 -> steps_from P m2 -> steps_from P (if b then m1 else m2).
Proof. by destruct b. Qed.
End steps.

Lemma steps_mono (R R' : S -> S -> Prop) {A} (m : ST A) :
  (forall s s', R s s' -> R' s s') -> steps R m -> steps R' m.
Proof. intros HR Hm s. specialize (Hm s). destruct (m s); auto. Qed.

(** A condition kept by [R'] is still there after a step that keeps [R']. *)
Lemma steps_from_frame (R R' : S -> S -> Prop) `{!PreOrder R} (P : S -> Prop) {A B}
    (m : ST A) (f : A -> ST B) :
  (forall s s', R' s s' -> R s s') -> (forall s s', P s -> R' s s' -> P s') ->
  steps R' m -> (forall a, steps_from R P (f a)) -> steps_from R P (m ≫= f).
Proof.
  intros Hsub HP Hm Hf. apply (steps_from_bind R P (fun _ => P)); [|intros s a s' Hs E0|done].
  - by eapply steps_mono.
  - specialize (Hm s). rewrite E0 in Hm. by eapply HP.
Qed.

(** Total correctness of such a loop: an invariant and a measure below the
    bound. *)
Lemma iterp_rule {A B} (body : A -> ST (A + B)) (I : A -> S -> Prop)
    (Q : B -> S -> Prop) (mu : A -> Z) :
  (forall x s, I x s -> runs (body x) s (fun r s' =>
     match r with inl x' => I x' s' /\ 0 <= mu x' < mu x | inr b => Q b s' end)) ->
  forall n a s, I a s ->
  runs (iterp n body a) s (fun r s' =>
    match r with inl x' => I x' s' /\ 0 <= mu x' <= mu a - Z.pos n | inr b => Q b s' end).
Proof.
  intros Hb n; induction n as [n IH|n IH|]; intros a s Ha; cbn [iterp].
  - apply runs_bind. eapply runs_mono; [by apply Hb|]. intros [x|b] s1 H1; [|exact H1].
    destruct H1 as [H1 Hm1].
    apply runs_bind. eapply runs_mono; [by apply IH|]. intros [y|b] s2 H2; [|exact H2].
    destruct H2 as [H2 Hm2].
    eapply runs_mono; [by apply IH|]. intros [z|b] s3 H3; [|done].
    destruct H3 as [H3 Hm3]. split; [done|lia].
  - apply runs_bind. eapply runs_mono; [by apply IH|]. intros [y|b] s2 H2; [|exact H2].
    destruct H2 as [H2 Hm2].
    eapply runs_mono; [by apply IH|]. intros [z|b] s3 H3; [|done].
    destruct H3 as [H3 Hm3]. split; [done|lia].
  - eapply runs_mono; [by apply Hb|]. intros [z|b] s3 H3; [|done].
    destruct H3 as [H3 Hm3]. split; [done|lia].
Qed.

Lemma while_rule {A B} (body : A -> ST (A + B)) (I : A -> S -> Prop)
    (Q : B -> S -> Prop) (mu : A -> Z) n a s :
  (forall x s, I x s -> runs (body x) s (fun r s' =>
     match r with inl x' => I x' s' /\ 0 <= mu x' < mu x | inr b => Q b s' end)) ->
  I a s -> mu a < Z.pos n -> runs (while_ n body a) s Q.
Proof.
  intros Hb Ha Hm. apply runs_bind. eapply runs_mono; [by eapply iterp_rule|].
  intros [x|b] s'; [|done]. intros [_ H]. lia.
Qed.
End monad.

Arguments outcome : clear implicits.
Arguments ST : clear implicits.

(** Running a computation of a component inside a larger state. *)
Definition zoom {S T E A} (get : S -> T) (set : T -> S -> S) (m : ST T E A) : ST S E A :=
  fun s => match m (get s) with
           | Val a t => Val a (set t s)
           | Exit e t => Exit e (set t s)
           | Fault x => Fault x
           end.

Create HintDb steps.
#[export] Hint Resolve steps_ret steps_fail steps_exit steps_gets steps_get
  steps_assert steps_deref steps_lift : steps.
