(* ===== verification/Ring.v ===== *)
(** * Ring

    The byte ring buffer of libk ([src/src/libk/ring.c],
    [src/src/libk/include/shared/ring.h]), used by the serial, PS/2 and TCP
    code.  The state is [ring_t]; the specification is a bounded FIFO of
    bytes ([Spec]), to which [ring_abs] maps a ring. *)

From S2P Require Import Prelude.

(** [typedef struct { char *buf; size_t capacity; size_t _head, _tail; } ring_t] *)
Record ring_t := mkRing {
  rbuf : list Z;
  rcapacity : Z;
  rhead : Z;
  rtail : Z;
}.

Definition at_end (r : ring_t) : bool :=
  (rhead r + 1 =? rtail r)
  || ((rhead r + 1 =? rcapacity r) && (rtail r =? 0)).

Definition ring_used (r : ring_t) : Z :=
  if rtail r <=? rhead r then rhead r - rtail r
  else rhead r + rcapacity r - rtail r.

Definition ring_avail (r : ring_t) : Z := rcapacity r - ring_used r.

Definition ring_put1b (r : ring_t) (b : Z) : ring_t :=
  if at_end r then r
  else
    let head := rhead r + 1 in
    mkRing (<[Z.to_nat (rhead r) := u8 b]> (rbuf r)) (rcapacity r)
           (if rcapacity r <=? head then 0 else head) (rtail r).

(** The loop of [ring_put] over the [len] bytes of its buffer. *)
Definition ring_put (r : ring_t) (buf : list Z) : ring_t :=
  foldl ring_put1b r buf.

(** [ring_contig r len] answers the new ring, the index in [rbuf] the returned
    pointer designates and the length actually consumed ([*len] on exit). *)
Definition ring_contig (r : ring_t) (len : Z) : ring_t * Z * Z :=
  let ret := rtail r in
  let avail :=
    if rtail r <=? rhead r then rhead r - rtail r
    else rcapacity r - rtail r in
  let len := if avail <? len then avail else len in
  let tail := rtail r + len in
  (mkRing (rbuf r) (rcapacity r) (rhead r)
          (if rcapacity r <=? tail then 0 else tail), ret, len).

(** [len] bytes of [l] from index [off] on: what [memcpy] reads. *)
Definition slice (off len : Z) (l : list Z) : list Z :=
  take (Z.to_nat len) (drop (Z.to_nat off) l).

(** [ring_get r buf len]: the new ring and the bytes copied out; the value the
    function returns is their number.  The C loop runs exactly twice. *)
Definition ring_get (r : ring_t) (len : Z) : ring_t * list Z :=
  let '(r1, p1, n1) := ring_contig r len in
  let out1 := slice p1 n1 (rbuf r) in
  let '(r2, p2, n2) := ring_contig r1 (len - n1) in
  (r2, out1 ++ slice p2 n2 (rbuf r1)).

(** ** Specification: a FIFO that holds at most [cap - 1] bytes and drops the
    newest bytes when full. *)
Module Spec.
Definition put (cap : Z) (q bs : list Z) : list Z :=
  take (Z.to_nat (cap - 1)) (q ++ bs).
Definition get (len : Z) (q : list Z) : list Z * list Z :=
  (drop (Z.to_nat len) q, take (Z.to_nat len) q).
End Spec.

Definition ring_wf (r : ring_t) : Prop :=
  Z.of_nat (length (rbuf r)) = rcapacity r /\
  0 <= rhead r < rcapacity r /\
  0 <= rtail r < rcapacity r /\
  Forall is_byte (rbuf r).

#[export] Instance ring_wf_dec r : Decision (ring_wf r).
Proof. unfold ring_wf; apply _. Defined.

(** The bytes in the ring, oldest first. *)
Definition ring_abs (r : ring_t) : list Z :=
  let t := Z.to_nat (rtail r) in
  take (Z.to_nat (ring_used r)) (drop t (rbuf r) ++ take t (rbuf r)).

(** ** Lemmas *)

Definition wrap (r : ring_t) (i : Z) : Z :=
  if rcapacity r <=? i then i - rcapacity r else i.

Lemma ring_used_range r : ring_wf r -> 0 <= ring_used r < rcapacity r.
Proof. intros (?&?&?&_). unfold ring_used. cases; zbool; lia. Qed.

Lemma ring_abs_lookup r (i : nat) :
  ring_wf r ->
  ring_abs r !! i =
  if decide (Z.of_nat i < ring_used r)
  then rbuf r !! Z.to_nat (wrap r (rtail r + Z.of_nat i)) else None.
Proof.
  intros Hwf. pose proof (ring_used_range r Hwf). destruct Hwf as (Hl&Hh&Ht&_).
  unfold ring_abs. case_decide.
  - rewrite lookup_take_lt by lia. unfold wrap. cases; zbool.
    + rewrite lookup_app_r by (rewrite length_drop; lia).
      rewrite length_drop, lookup_take_lt by lia. f_equal. lia.
    + rewrite lookup_app_l by (rewrite length_drop; lia).
      rewrite lookup_drop. f_equal. lia.
  - apply lookup_ge_None. rewrite length_take. lia.
Qed.

Lemma length_ring_abs r : ring_wf r -> Z.of_nat (length (ring_abs r)) = ring_used r.
Proof.
  intros Hwf. pose proof (ring_used_range r Hwf). destruct Hwf as (Hl&_).
  unfold ring_abs. rewrite length_take, length_app, length_drop, length_take. lia.
Qed.

Lemma slice_lookup off len (l : list Z) (i : nat) :
  0 <= off -> 0 <= len ->
  slice off len l !! i =
  if decide (Z.of_nat i < len) then l !! Z.to_nat (off + Z.of_nat i) else None.
Proof.
  intros. unfold slice. case_decide.
  - rewrite lookup_take_lt, lookup_drop by lia. f_equal. lia.
  - apply lookup_ge_None. rewrite length_take. lia.
Qed.

Lemma length_slice off len (l : list Z) :
  0 <= off -> 0 <= len -> off + len <= Z.of_nat (length l) ->
  Z.of_nat (length (slice off len l)) = len.
Proof. intros. unfold slice. rewrite length_take, length_drop. lia. Qed.

Lemma ring_put1b_wf r b : ring_wf r -> ring_wf (ring_put1b r b).
Proof.
  intros (Hl&Hh&Ht&Hb). unfold ring_put1b, at_end. cases; [done| |]; zbool;
    (split_and!; cbn; [by rewrite length_insert|lia|lia|lia|lia|
      apply Forall_insert; [done|word_lia]]).
Qed.

Lemma ring_put1b_full r :
  ring_wf r -> at_end r = true -> ring_used r = rcapacity r - 1.
Proof.
  intros (Hl&Hh&Ht&_). unfold at_end, ring_used. intros H.
  apply orb_true_iff in H as [H|H]; zbool; cases; zbool; lia.
Qed.

Lemma ring_put1b_notfull r :
  ring_wf r -> at_end r = false -> ring_used r < rcapacity r - 1.
Proof.
  intros (Hl&Hh&Ht&_). unfold at_end, ring_used. intros H.
  apply orb_false_iff in H as [H1 H2]. apply andb_false_iff in H2.
  cases; zbool; destruct H2; zbool; lia.
Qed.

Lemma ring_put1b_used r b :
  ring_wf r -> at_end r = false -> ring_used (ring_put1b r b) = ring_used r + 1.
Proof.
  intros Hwf He. pose proof (ring_put1b_notfull r Hwf He).
  destruct Hwf as (Hl&Hh&Ht&_). unfold ring_put1b. rewrite He.
  unfold ring_used in *; cbn in *. cases; zbool; lia.
Qed.

Lemma ring_put1b_abs r b :
  ring_wf r -> is_byte b ->
  ring_abs (ring_put1b r b) = Spec.put (rcapacity r) (ring_abs r) [b].
Proof.
  intros Hwf Hb. unfold Spec.put. destruct (at_end r) eqn:He.
  - assert (ring_put1b r b = r) as -> by (unfold ring_put1b; by rewrite He).
    pose proof (ring_put1b_full r Hwf He).
    pose proof (length_ring_abs r Hwf).
    rewrite take_app_length' by lia. done.
  - pose proof (ring_put1b_used r b Hwf He) as Hu.
    pose proof (ring_put1b_notfull r Hwf He).
    pose proof (length_ring_abs r Hwf).
    pose proof (ring_put1b_wf r b Hwf) as Hwf'.
    rewrite take_ge by (rewrite length_app; cbn; lia).
    apply list_eq; intros i. rewrite ring_abs_lookup by done. rewrite Hu.
    assert (Hi : (i < length (ring_abs r) \/ i = length (ring_abs r)
                  \/ i > length (ring_abs r))%nat) by lia.
    destruct Hwf as (Hl&Hh&Ht&Hbs). unfold ring_put1b. rewrite He. cbn.
    destruct Hi as [Hi|[->|Hi]].
    + rewrite lookup_app_l by done. rewrite ring_abs_lookup by done.
      rewrite !decide_True by lia. unfold wrap; cbn.
      apply list_lookup_insert_ne.
      unfold ring_used in *; cases; zbool; lia.
    + rewrite lookup_app_r by lia. rewrite Nat.sub_diag. cbn.
      rewrite decide_True by lia.
      replace (Z.to_nat _) with (Z.to_nat (rhead r))
        by (unfold ring_used, wrap in *; cbn; cases; zbool; lia).
      rewrite list_lookup_insert_eq by lia. f_equal. word_lia.
    + rewrite lookup_app_r by lia. rewrite decide_False by lia.
      symmetry. apply lookup_ge_None. cbn. lia.
Qed.

Lemma ring_put1b_capacity r b : rcapacity (ring_put1b r b) = rcapacity r.
Proof. unfold ring_put1b. by case_match. Qed.

Lemma ring_put_wf r bs : ring_wf r -> ring_wf (ring_put r bs).
Proof.
  revert r. induction bs as [|b bs IH]; intros r Hr; cbn; [done|].
  by apply IH, ring_put1b_wf.
Qed.

Lemma ring_put_capacity r bs : rcapacity (ring_put r bs) = rcapacity r.
Proof.
  revert r. induction bs as [|b bs IH]; intros r; cbn; [done|].
  etrans; [apply IH|apply ring_put1b_capacity].
Qed.

Lemma ring_put_abs r bs :
  ring_wf r -> Forall is_byte bs ->
  ring_abs (ring_put r bs) = Spec.put (rcapacity r) (ring_abs r) bs.
Proof.
  intros Hwf Hbs. revert r Hwf. induction Hbs as [|b bs Hb Hbs IH]; intros r Hwf.
  - unfold Spec.put. rewrite app_nil_r, take_ge; [done|].
    pose proof (length_ring_abs r Hwf). pose proof (ring_used_range r Hwf). lia.
  - cbn. fold (ring_put (ring_put1b r b) bs).
    rewrite IH by by apply ring_put1b_wf.
    rewrite ring_put1b_capacity, ring_put1b_abs by done. unfold Spec.put.
    set (n := Z.to_nat _). set (q := ring_abs r).
    replace (q ++ b :: bs) with ((q ++ [b]) ++ bs) by by rewrite <- app_assoc.
    apply take_take_app.
Qed.

(** One [ring_contig]: it consumes a prefix of the contents, as long as the
    bytes are contiguous in the buffer. *)
Lemma ring_contig_spec r len r' p n :
  ring_wf r -> 0 <= len -> ring_contig r len = (r', p, n) ->
  ring_wf r' /\ 0 <= n <= len /\
  ring_abs r = slice p n (rbuf r) ++ ring_abs r' /\
  Z.of_nat (length (slice p n (rbuf r))) = n /\
  ring_used r' = ring_used r - n /\
  (rtail r <= rhead r -> n = len \/ ring_used r' = 0) /\
  (rhead r < rtail r -> n = len \/ rtail r' = 0 /\ rhead r' = rhead r).
Proof.
  intros Hwf Hlen Hc. unfold ring_contig in Hc. simplify_eq.
  pose proof Hwf as (Hl&Hh&Ht&Hb).
  set (n := if _ <? len then _ else len) in *.
  assert (Hn : 0 <= n <= len /\ n <= ring_used r /\ rtail r + n <= rcapacity r)
    by (subst n; unfold ring_used; cases; zbool; lia).
  set (r' := mkRing _ _ _ _).
  assert (Hwf' : ring_wf r').
  { split_and!; cbn; try done; try lia; cases; zbool; lia. }
  assert (Hu : ring_used r' = ring_used r - n).
  { subst n r'; unfold ring_used in *; cbn in *. cases; zbool; lia. }
  assert (Hsl : Z.of_nat (length (slice (rtail r) n (rbuf r))) = n)
    by (apply length_slice; lia).
  split_and!; try done; try lia.
  - apply list_eq; intros i. rewrite ring_abs_lookup by done.
    destruct (decide (Z.of_nat i < n)).
    + rewrite lookup_app_l by lia. rewrite slice_lookup, !decide_True by lia.
      unfold wrap. cases; zbool; [lia|done].
    + rewrite lookup_app_r by lia. rewrite ring_abs_lookup, Hu by done.
      destruct (decide (Z.of_nat i < ring_used r)).
      * rewrite !decide_True by lia. cbn. f_equal.
        unfold wrap, r', ring_used in *; cbn in *. clearbody n. cases; zbool; lia.
      * by rewrite !decide_False by lia.
  - intros Hle. unfold ring_used in *. subst n. cases; zbool; lia.
  - intros Hlt. subst n r'; cbn. cases; zbool; lia.
Qed.

Lemma ring_get_spec r len :
  ring_wf r -> 0 <= len ->
  let '(r', out) := ring_get r len in
  ring_wf r' /\ (ring_abs r', out) = Spec.get len (ring_abs r).
Proof.
  intros Hwf Hlen. unfold ring_get, Spec.get.
  destruct (ring_contig r len) as [[r1 p1] n1] eqn:H1.
  destruct (ring_contig r1 (len - n1)) as [[r2 p2] n2] eqn:H2.
  apply ring_contig_spec in H1 as (W1&N1&A1&S1&U1&G1&L1); [|done..].
  apply ring_contig_spec in H2 as (W2&N2&A2&S2&U2&G2&L2); [|done|lia].
  split; [done|].
  pose proof (length_ring_abs _ Hwf) as La. pose proof (length_ring_abs _ W2) as Lb.
  rewrite A1, A2, app_assoc in *.
  set (out := slice p1 n1 (rbuf r) ++ slice p2 n2 (rbuf r1)) in *.
  assert (Lo : Z.of_nat (length out) = n1 + n2)
    by (unfold out; rewrite length_app; lia).
  assert (Hfull : n1 + n2 = len \/ ring_used r2 = 0).
  { pose proof (ring_used_range _ W1). pose proof (ring_used_range _ W2).
    destruct W1 as (_&?&?&_). lia. }
  destruct Hfull as [Hf|Hf].
  - rewrite drop_app_length', take_app_length' by lia. done.
  - destruct (ring_abs r2) eqn:E; [|cbn in Lb; lia].
    rewrite app_nil_r. rewrite drop_ge, take_ge by lia. done.
Qed.

(** ** Properties *)

(** C9: the ring buffer implements a bounded FIFO.  On a well-formed ring,
    [ring_put] appends its bytes to the contents and keeps the first
    [capacity - 1] of the result (what does not fit is dropped, newest first),
    and [ring_get] removes and returns the [len] oldest bytes (all of them when
    fewer are stored); both keep the ring well formed, so that the indices stay
    inside the buffer. *)
Theorem ring_refines_fifo r bs len :
  ring_wf r -> Forall is_byte bs -> 0 <= len ->
  ring_wf (ring_put r bs) /\
  ring_abs (ring_put r bs) = Spec.put (rcapacity r) (ring_abs r) bs /\
  ring_wf (ring_get r len).1 /\
  (ring_abs (ring_get r len).1, (ring_get r len).2) = Spec.get len (ring_abs r).
Proof.
  intros Hwf Hbs Hlen. split; [by apply ring_put_wf|]. split; [by apply ring_put_abs|].
  pose proof (ring_get_spec r len Hwf Hlen) as H. by destruct (ring_get r len).
Qed.

Definition ring_example : ring_t := mkRing [7; 0; 5; 6] 4 1 2.

Lemma ring_refines_fifo_witness :
  ring_abs (ring_put ring_example [9; 10]) = [5; 6; 7] /\
  ring_abs (ring_get ring_example 2).1 = [7].
Proof.
  destruct (ring_refines_fifo ring_example [9; 10] 2) as (_ & Hput & _ & Hget);
    [by vm_compute; repeat constructor|by repeat constructor|done|].
  split; [rewrite Hput; reflexivity|]. exact (f_equal fst Hget).
Defined.

(** [ring_avail] overstates the free space by one.  A writer that puts
    exactly [ring_avail] bytes into the ring loses the last one: the contents
    grow by [ring_avail r - 1] only. *)
Theorem ring_avail_overstates r bs :
  ring_wf r -> Forall is_byte bs -> Z.of_nat (length bs) = ring_avail r ->
  ring_used (ring_put r bs) = ring_used r + ring_avail r - 1 /\
  exists lost, ring_abs r ++ bs = ring_abs (ring_put r bs) ++ [lost].
Proof.
  intros Hwf Hbs Hlen.
  pose proof (ring_used_range r Hwf) as Hu. pose proof (length_ring_abs r Hwf) as La.
  pose proof (length_ring_abs _ (ring_put_wf r bs Hwf)) as Lp.
  rewrite ring_put_abs in * by done. unfold Spec.put, ring_avail in *.
  rewrite length_take, length_app in Lp. split; [lia|].
  set (q := ring_abs r ++ bs).
  assert (Lq : Z.of_nat (length q) = rcapacity r) by (unfold q; rewrite length_app; lia).
  destruct (drop (Z.to_nat (rcapacity r - 1)) q) as [|x [|y l]] eqn:E;
    apply (f_equal length) in E as E'; rewrite length_drop in E'; cbn in E'; try lia.
  exists x. by rewrite <- E, take_drop.
Qed.

Lemma ring_avail_overstates_witness :
  ring_avail ring_example = 1 /\
  ring_used (ring_put ring_example [9]) = ring_used ring_example.
Proof.
  split; [reflexivity|].
  destruct (ring_avail_overstates ring_example [9]) as [-> _];
    [by vm_compute; repeat constructor|by repeat constructor|done|reflexivity].
Defined.
