(* ===== verification/Mem.v ===== *)
(** * Mem

    Byte-addressed memory and the memory and string primitives of libk
    ([src/src/libk/mem.c]).  Addresses are integers, a cell never written
    reads as 0, and no object wraps around the address space.  [memcpy] copies
    word by word as the code does, so its behaviour on overlapping objects is
    the code's. *)

From S2P Require Import Prelude.

Abbreviation mem := (gmap Z Z).

Definition ld (m : mem) (a : Z) : Z := default 0 (m !! a).
Definition st (m : mem) (a v : Z) : mem := <[a := v]> m.

Fixpoint bytes_at (m : mem) (a : Z) (n : nat) : list Z :=
  match n with
  | O => []
  | S k => ld m a :: bytes_at m (a + 1) k
  end.

Fixpoint write_bytes (m : mem) (a : Z) (l : list Z) : mem :=
  match l with
  | [] => m
  | b :: l => write_bytes (st m a b) (a + 1) l
  end.

(** ** The primitives *)

(** [memcpy], first loop: bytes until the destination is word aligned. *)
Fixpoint memcpy_align (m : mem) (d s : Z) (n : nat) : mem * Z * Z * nat :=
  match n with
  | O => (m, d, s, O)
  | S k =>
      if Z.land d 7 =? 0 then (m, d, s, n)
      else memcpy_align (st m d (ld m s)) (d + 1) (s + 1) k
  end.

(** Second loop: one 8-byte word at a time. *)
Fixpoint memcpy_words (m : mem) (d s : Z) (n : nat) : mem * Z * Z * nat :=
  match n with
  | S (S (S (S (S (S (S (S k))))))) =>
      memcpy_words (write_bytes m d (bytes_at m s 8)) (d + 8) (s + 8) k
  | _ => (m, d, s, n)
  end.

(** Third loop: the remaining bytes. *)
Fixpoint memcpy_bytes (m : mem) (d s : Z) (n : nat) : mem :=
  match n with
  | O => m
  | S k => memcpy_bytes (st m d (ld m s)) (d + 1) (s + 1) k
  end.

Definition memcpy (m : mem) (dest src : Z) (n : nat) : mem :=
  if dest =? src then m
  else
    let '(m, d, s, n) := memcpy_align m dest src n in
    let '(m, d, s, n) := memcpy_words m d s n in
    memcpy_bytes m d s n.

(** The naive reverse copy of [memmove]. *)
Fixpoint memmove_rev (m : mem) (dest src : Z) (n : nat) : mem :=
  match n with
  | O => m
  | S k => memmove_rev (st m (dest + Z.of_nat k) (ld m (src + Z.of_nat k))) dest src k
  end.

Definition memmove (m : mem) (dest src : Z) (n : nat) : mem :=
  if (dest <=? src) || (src + Z.of_nat n <? dest) then memcpy m dest src n
  else memmove_rev m dest src n.

(** The 8 bytes of [fill = (c & 0xff) * 0x0101010101010101], little endian. *)
Definition le_bytes (n : nat) (z : Z) : list Z :=
  (fun i => Z.land (Z.shiftr z (8 * Z.of_nat i)) 255) <$> seq 0 n.

Fixpoint memset_words (m : mem) (d fill : Z) (n : nat) : mem * Z * nat :=
  match n with
  | S (S (S (S (S (S (S (S k))))))) =>
      memset_words (write_bytes m d (le_bytes 8 fill)) (d + 8) fill k
  | _ => (m, d, n)
  end.

Fixpoint memset_bytes (m : mem) (d c : Z) (n : nat) : mem :=
  match n with
  | O => m
  | S k => memset_bytes (st m d (u8 c)) (d + 1) c k
  end.

Definition memset (m : mem) (s c : Z) (n : nat) : mem :=
  let fill := u64 (Z.land c 255 * 0x0101010101010101) in
  let '(m, d, n) := memset_words m s fill n in
  memset_bytes m d c n.

(** [memchr]: the address of the first byte equal to [c], [None] for [NULL]. *)
Fixpoint memchr (m : mem) (s c : Z) (n : nat) : option Z :=
  match n with
  | O => None
  | S k => if ld m s =? u8 c then Some s else memchr m (s + 1) c k
  end.

Fixpoint memcmp (m : mem) (s1 s2 : Z) (n : nat) : Z :=
  match n with
  | O => 0
  | S k =>
      if negb (ld m s1 =? ld m s2) then (if ld m s1 <? ld m s2 then -1 else 1)
      else memcmp m (s1 + 1) (s2 + 1) k
  end.

(** A [char] is signed on this target. *)
Definition schar (b : Z) : Z := (b + 128) mod 256 - 128.

(** [strcmp] and [strlen] on the characters of their arguments: the lists hold
    the bytes from the pointer on; running off the end of one is undefined. *)
Fixpoint strcmp (s1 s2 : list Z) : res Z :=
  match s1, s2 with
  | c1 :: t1, c2 :: t2 =>
      if negb (c1 =? 0) && (c1 =? c2) then strcmp t1 t2
      else if c1 =? c2 then Ok 0
      else if schar c1 <? schar c2 then Ok (-1) else Ok 1
  | _, _ => Err Undefined
  end.

Fixpoint strlen (s : list Z) : res Z :=
  match s with
  | [] => Err Undefined
  | c :: t => if c =? 0 then Ok 0 else n ← strlen t; Ok (n + 1)
  end.

(** [memcmp] and [memchr] on byte strings, for the callers that hold their
    buffers as lists. *)
Fixpoint bytes_cmp (l1 l2 : list Z) : Z :=
  match l1, l2 with
  | b1 :: l1, b2 :: l2 =>
      if negb (b1 =? b2) then (if b1 <? b2 then -1 else 1) else bytes_cmp l1 l2
  | _, _ => 0
  end.

(** ** Reading back *)

Lemma ld_st_eq m a v : ld (st m a v) a = v.
Proof. unfold ld, st. by rewrite lookup_insert_eq. Qed.

Lemma ld_st_ne m a b v : a <> b -> ld (st m a v) b = ld m b.
Proof. intros. unfold ld, st. by rewrite lookup_insert_ne. Qed.

Lemma ld_st m a b v : ld (st m a v) b = if decide (a = b) then v else ld m b.
Proof. case_decide; subst; [apply ld_st_eq|by apply ld_st_ne]. Qed.

Lemma length_bytes_at m a n : length (bytes_at m a n) = n.
Proof. revert a; induction n; intros; cbn; auto. Qed.

Lemma bytes_at_lookup m a n (i : nat) :
  (i < n)%nat -> bytes_at m a n !! i = Some (ld m (a + Z.of_nat i)).
Proof.
  revert a i; induction n as [|n IH]; intros a i Hi; [lia|].
  destruct i as [|i]; cbn; [by rewrite Z.add_0_r|].
  rewrite IH by lia. do 2 f_equal. lia.
Qed.

Lemma bytes_at_ext m m' a a' n :
  (forall i, 0 <= i < Z.of_nat n -> ld m (a + i) = ld m' (a' + i)) ->
  bytes_at m a n = bytes_at m' a' n.
Proof.
  intros H. apply list_eq; intros i. destruct (decide (i < n)%nat).
  - rewrite !bytes_at_lookup by done. f_equal. apply H. lia.
  - rewrite !lookup_ge_None_2; rewrite ?length_bytes_at; done || lia.
Qed.

Lemma bytes_at_app m a n k :
  bytes_at m a (n + k) = bytes_at m a n ++ bytes_at m (a + Z.of_nat n) k.
Proof.
  revert a; induction n as [|n IH]; intros a; cbn.
  - by rewrite Z.add_0_r.
  - rewrite IH. do 3 f_equal. lia.
Qed.

Lemma ld_write_bytes m a l b :
  ld (write_bytes m a l) b =
  if decide (a <= b < a + Z.of_nat (length l))
  then default 0 (l !! Z.to_nat (b - a)) else ld m b.
Proof.
  revert m a; induction l as [|x l IH]; intros m a; cbn [write_bytes length].
  - by rewrite decide_False by lia.
  - rewrite IH, ld_st. destruct (decide (a = b)) as [->|].
    + rewrite decide_False, decide_True, Z.sub_diag by lia. done.
    + destruct (decide (a <= b < a + Z.of_nat (S (length l))));
        [rewrite decide_True by lia|by rewrite decide_False by lia].
      replace (Z.to_nat (b - a)) with (S (Z.to_nat (b - (a + 1)))) by lia. done.
Qed.

Lemma bytes_at_write_bytes m a l :
  bytes_at (write_bytes m a l) a (length l) = l.
Proof.
  apply list_eq; intros i. destruct (decide (i < length l)%nat) as [Hi|].
  - rewrite bytes_at_lookup by done. rewrite ld_write_bytes, decide_True by lia.
    replace (Z.to_nat _) with i by lia.
    by apply lookup_lt_is_Some in Hi as [x ->].
  - rewrite !lookup_ge_None_2; rewrite ?length_bytes_at; done || lia.
Qed.

(** ** Copying *)

(** [m'] is [m] with the [k] bytes at [s] copied to [d]. *)
Definition copied (m m' : mem) (d s k : Z) : Prop :=
  forall a, ld m' a = if decide (d <= a < d + k) then ld m (s + (a - d)) else ld m a.

(** The overlaps on which a forward copy is a move. *)
Definition forward_ok (d s n : Z) : Prop := d <= s \/ s + n <= d.

Lemma copied_0 m d s : copied m m d s 0.
Proof. intros a. by rewrite decide_False by lia. Qed.

Lemma copied_self m d k : copied m m d d k.
Proof. intros a. case_decide; [f_equal; lia|done]. Qed.

Lemma copied_step m m1 m2 d s k j :
  0 <= k -> 0 <= j -> forward_ok d s (k + j) ->
  copied m m1 d s k -> copied m1 m2 (d + k) (s + k) j -> copied m m2 d s (k + j).
Proof.
  intros Hk Hj Hf H1 H2 a. rewrite H2. unfold forward_ok in Hf.
  destruct (decide (d + k <= a < d + k + j)).
  - rewrite H1. rewrite decide_False by lia. rewrite decide_True by lia.
    f_equal. lia.
  - rewrite H1. repeat case_decide; try lia; done.
Qed.

Lemma copied_byte m d s : copied m (st m d (ld m s)) d s 1.
Proof.
  intros a. rewrite ld_st. repeat case_decide; try lia. f_equal. lia.
Qed.

Lemma copied_block m d s n :
  copied m (write_bytes m d (bytes_at m s n)) d s (Z.of_nat n).
Proof.
  intros a. rewrite ld_write_bytes, length_bytes_at. case_decide; [|done].
  rewrite bytes_at_lookup by lia. cbn. f_equal. lia.
Qed.

Lemma memcpy_bytes_copied m d s n :
  forward_ok d s (Z.of_nat n) -> copied m (memcpy_bytes m d s n) d s (Z.of_nat n).
Proof.
  revert m d s; induction n as [|n IH]; intros m d s Hf; cbn [memcpy_bytes].
  - apply copied_0.
  - rewrite Nat2Z.inj_succ, <- Z.add_1_l in *.
    eapply copied_step; [lia|lia|done|apply copied_byte|].
    apply IH. unfold forward_ok in *. lia.
Qed.

Lemma memcpy_align_copied m d s n :
  forward_ok d s (Z.of_nat n) ->
  exists m' k, memcpy_align m d s n =
    (m', d + Z.of_nat k, s + Z.of_nat k, (n - k)%nat) /\
    (k <= n)%nat /\ copied m m' d s (Z.of_nat k).
Proof.
  revert m d s; induction n as [|n IH]; intros m d s Hf; cbn [memcpy_align].
  - exists m, 0%nat. rewrite !Z.add_0_r. eauto using copied_0.
  - destruct (_ =? 0).
    + exists m, 0%nat. rewrite !Z.add_0_r. split_and!; [done|lia|apply copied_0].
    + destruct (IH (st m d (ld m s)) (d + 1) (s + 1)) as (m'&k&E&Hk&Hc);
        [unfold forward_ok in *; lia|].
      exists m', (S k). split_and!; [|lia|].
      * rewrite E. pair_lia.
      * rewrite Nat2Z.inj_succ, <- Z.add_1_l.
        eapply copied_step; [lia|lia| |apply copied_byte|done].
        unfold forward_ok in *. lia.
Qed.

Lemma memcpy_words_copied m d s n :
  forward_ok d s (Z.of_nat n) ->
  exists m' k, memcpy_words m d s n =
    (m', d + Z.of_nat k, s + Z.of_nat k, (n - k)%nat) /\
    (k <= n)%nat /\ copied m m' d s (Z.of_nat k).
Proof.
  revert m d s; induction (lt_wf n) as [n _ IH]; intros m d s Hf.
  destruct (decide (n < 8)%nat) as [Hn|Hn].
  - exists m, 0%nat. rewrite !Z.add_0_r, Nat.sub_0_r.
    split_and!; [|lia|apply copied_0].
    do 8 (destruct n as [|n]; [done|]). lia.
  - do 8 (destruct n as [|n]; [lia|]). cbn [memcpy_words].
    destruct (IH n ltac:(lia) (write_bytes m d (bytes_at m s 8)) (d + 8) (s + 8))
      as (m'&k&E&Hk&Hc); [unfold forward_ok in *; lia|].
    exists m', (8 + k)%nat. split_and!; [|lia|].
    + rewrite E. pair_lia.
    + rewrite Nat2Z.inj_add. eapply copied_step;
        [lia|lia|unfold forward_ok in *; lia|apply (copied_block _ _ _ 8)|done].
Qed.

Lemma memcpy_copied m d s n :
  forward_ok d s (Z.of_nat n) -> copied m (memcpy m d s n) d s (Z.of_nat n).
Proof.
  intros Hf. unfold memcpy. destruct (d =? s) eqn:E; zbool; [subst; apply copied_self|].
  destruct (memcpy_align_copied m d s n) as (m1&k1&->&Hk1&H1); [done|].
  destruct (memcpy_words_copied m1 (d + Z.of_nat k1) (s + Z.of_nat k1) (n - k1))
    as (m2&k2&->&Hk2&H2); [unfold forward_ok in *; lia|].
  replace (Z.of_nat n) with
    (Z.of_nat k1 + (Z.of_nat k2 + Z.of_nat (n - k1 - k2))) by lia.
  eapply copied_step; [lia|lia|unfold forward_ok in *; lia|done|].
  eapply copied_step; [lia|lia|unfold forward_ok in *; lia|done|].
  apply memcpy_bytes_copied. unfold forward_ok in *. lia.
Qed.

Lemma memmove_rev_copied m d s n :
  s <= d -> copied m (memmove_rev m d s n) d s (Z.of_nat n).
Proof.
  intros Hle. revert m; induction n as [|n IH]; intros m; cbn [memmove_rev].
  - apply copied_0.
  - intros a. rewrite IH, !ld_st. repeat case_decide; try lia; try done; f_equal; lia.
Qed.

Lemma memmove_copied m d s n : copied m (memmove m d s n) d s (Z.of_nat n).
Proof.
  unfold memmove. destruct (_ || _) eqn:E.
  - apply memcpy_copied. apply orb_true_iff in E as [E|E]; zbool; unfold forward_ok; lia.
  - zbool. apply memmove_rev_copied. lia.
Qed.

(** What a move means for the byte strings. *)
Lemma copied_bytes_at m m' d s n :
  copied m m' d s (Z.of_nat n) -> bytes_at m' d n = bytes_at m s n.
Proof. intros H. apply bytes_at_ext. intros i Hi. rewrite H, decide_True by lia. f_equal. lia. Qed.

Lemma copied_frame m m' d s k a n :
  copied m m' d s k -> (a + Z.of_nat n <= d \/ d + k <= a) ->
  bytes_at m' a n = bytes_at m a n.
Proof. intros H Ha. apply bytes_at_ext. intros i Hi. by rewrite H, decide_False by lia. Qed.

(** ** Filling *)

Definition filled (m m' : mem) (d k c : Z) : Prop :=
  forall a, ld m' a = if decide (d <= a < d + k) then c else ld m a.

Lemma fill_byte c i :
  (i < 8)%nat ->
  Z.land (Z.shiftr (u64 (Z.land c 255 * 0x0101010101010101)) (8 * Z.of_nat i)) 255 = u8 c.
Proof.
  intros Hi. change 255 with (Z.ones 8). rewrite !Z.land_ones by lia.
  fold (u8 c). assert (Hb : 0 <= u8 c < 256) by word_lia.
  revert Hb. generalize (u8 c) as b. intros b Hb.
  unfold u64. rewrite (Z.mod_small (b * _)) by lia.
  rewrite Z.shiftr_div_pow2 by lia.
  do 8 (destruct i as [|i];
    [match goal with |- context [2 ^ (8 * ?x)] =>
       let v := eval vm_compute in (2 ^ (8 * x)) in change (2 ^ (8 * x)) with v end;
     Z.div_mod_to_equations; lia|]). lia.
Qed.

Lemma le_bytes_fill c :
  le_bytes 8 (u64 (Z.land c 255 * 0x0101010101010101)) = replicate 8 (u8 c).
Proof.
  apply list_eq; intros i. unfold le_bytes. rewrite list_lookup_fmap.
  destruct (decide (i < 8)%nat).
  - rewrite lookup_seq_lt, lookup_replicate_2 by done. cbn -[Z.mul Z.land].
    f_equal. by apply fill_byte.
  - rewrite lookup_seq_ge by lia. symmetry. apply lookup_ge_None_2.
    rewrite length_replicate. lia.
Qed.

Lemma memset_bytes_filled m d c n :
  filled m (memset_bytes m d c n) d (Z.of_nat n) (u8 c).
Proof.
  revert m d; induction n as [|n IH]; intros m d a; cbn [memset_bytes].
  - by rewrite decide_False by lia.
  - rewrite IH, ld_st. repeat case_decide; done || lia.
Qed.

Lemma memset_words_filled m d c n :
  exists m' k,
    memset_words m d (u64 (Z.land c 255 * 0x0101010101010101)) n =
      (m', d + Z.of_nat k, (n - k)%nat) /\
    (k <= n)%nat /\ filled m m' d (Z.of_nat k) (u8 c).
Proof.
  revert m d; induction (lt_wf n) as [n _ IH]; intros m d.
  destruct (decide (n < 8)%nat) as [Hn|Hn].
  - exists m, 0%nat. rewrite !Z.add_0_r, Nat.sub_0_r. split_and!; [|lia|].
    + do 8 (destruct n as [|n]; [done|]). lia.
    + intros a. by rewrite decide_False by lia.
  - do 8 (destruct n as [|n]; [lia|]). cbn [memset_words].
    rewrite le_bytes_fill.
    destruct (IH n ltac:(lia) (write_bytes m d (replicate 8 (u8 c))) (d + 8))
      as (m'&k&E&Hk&Hc).
    exists m', (8 + k)%nat. split_and!; [|lia|].
    + rewrite E. pair_lia.
    + intros a. rewrite Hc, ld_write_bytes, length_replicate.
      repeat case_decide; try lia; try done.
      by rewrite lookup_replicate_2 by lia.
Qed.

Lemma memset_filled m d c n : filled m (memset m d c n) d (Z.of_nat n) (u8 c).
Proof.
  unfold memset. destruct (memset_words_filled m d c n) as (m'&k&->&Hk&H).
  intros a. rewrite memset_bytes_filled, H. repeat case_decide; done || lia.
Qed.

(** ** Comparing *)

Lemma memcmp_bytes m s1 s2 n :
  memcmp m s1 s2 n = bytes_cmp (bytes_at m s1 n) (bytes_at m s2 n).
Proof.
  revert s1 s2; induction n as [|n IH]; intros; cbn; [done|]. by rewrite IH.
Qed.

Lemma bytes_cmp_eq l1 l2 :
  length l1 = length l2 -> bytes_cmp l1 l2 = 0 <-> l1 = l2.
Proof.
  revert l2; induction l1 as [|x l1 IH]; intros [|y l2] Hl; cbn in *; try done.
  destruct (x =? y) eqn:E; cbn; zbool; subst.
  - rewrite IH by lia. split; [by intros ->|by intros [= ->]].
  - split; [by destruct (_ <? _)|by intros [= -> _]].
Qed.

(** [strcmp] orders the characters of the upper half before all others. *)
Lemma strcmp_high_before_low c1 c2 t1 t2 :
  128 <= c1 < 256 -> 0 <= c2 < 128 -> strcmp (c1 :: t1) (c2 :: t2) = Ok (-1).
Proof.
  intros H1 H2. cbn [strcmp]. replace (c1 =? c2) with false by (symmetry; apply Z.eqb_neq; lia).
  rewrite andb_false_r. unfold schar.
  replace (_ <? _) with true; [done|]. symmetry. apply Z.ltb_lt.
  Z.div_mod_to_equations. lia.
Qed.

(** ** Properties *)

(** [memmove] is correct for every overlap of its objects: the [n] bytes
    that were at [src] are at [dest] afterwards and no other byte changed.
    [memcpy], word-wise and forward, has the same effect whenever the
    destination does not start inside the source, which covers the in-place
    moves to lower addresses that [path_simplify] and [fread] make. *)
Theorem memmove_moves m dest src n :
  let n' := Z.of_nat n in
  copied m (memmove m dest src n) dest src n' /\
  bytes_at (memmove m dest src n) dest n = bytes_at m src n /\
  (forward_ok dest src n' -> copied m (memcpy m dest src n) dest src n').
Proof.
  split_and!.
  - apply memmove_copied.
  - apply copied_bytes_at, memmove_copied.
  - apply memcpy_copied.
Qed.

Lemma memmove_moves_witness :
  let m := write_bytes ∅ 1 [1; 2; 3; 4; 5; 6; 7; 8; 9; 10; 11; 12] in
  bytes_at (memcpy m 1 3 10) 1 10 = [3; 4; 5; 6; 7; 8; 9; 10; 11; 12] /\
  bytes_at (memmove m 3 1 10) 3 10 = [1; 2; 3; 4; 5; 6; 7; 8; 9; 10].
Proof.
  intros m. split.
  - destruct (memmove_moves m 1 3 10) as (_ & _ & H).
    rewrite (copied_bytes_at m _ 1 3 10); [vm_compute; reflexivity|].
    apply H. left. lia.
  - destruct (memmove_moves m 3 1 10) as (_ & -> & _). vm_compute. reflexivity.
Defined.

(** [memset] writes the byte [c & 0xff] to exactly the [n] bytes of its
    object, although it fills whole words with a multiplied pattern first. *)
Theorem memset_fills m s c n : filled m (memset m s c n) s (Z.of_nat n) (u8 c).
Proof. apply memset_filled. Qed.
