(* ===== verification/Path.v ===== *)
(** * Path

    [path_simplify] of libk ([src/src/libk/path.c]), with the kernel's use of
    it in mind: [_sys_open] and [_sys_mount] simplify a path in place, so the
    model works on memory and the output buffer may be the input buffer.  The
    specification ([Spec]) works on lists of segments. *)

From S2P Require Import Prelude Mem.

Definition slash : Z := 47.
Definition dot : Z := 46.

(** ** The code *)

(** The inner loop: [seg_len] and [directory] when the next byte is at address
    [a], with [n] bytes of input left; [seg_len] is an [int]. *)
Fixpoint seg_scan (m : mem) (a : Z) (n : nat) (seg_len : Z) : res (Z * bool) :=
  match n with
  | O => Ok (seg_len, false)
  | S k =>
      if ld m a =? slash then Ok (seg_len, true)
      else seg_len ← int_ (seg_len + 1); seg_scan m (a + 1) k seg_len
  end.

(** [while (--out_pos >= 0 && out[out_pos] != '/');] *)
Fixpoint backtrack (m : mem) (out : Z) (out_pos : nat) : Z :=
  match out_pos with
  | O => -1
  | S k => if ld m (out + Z.of_nat k) =? slash then Z.of_nat k else backtrack m out k
  end.

(** The outer loop, from index [i].  The answer is the final memory and, unless
    the path went behind the root ([return 0]), [out_pos] and [directory].
    Every turn consumes at least one byte: [len] turns are enough.  [i] is a
    [size_t], but what is added to it, [seg_len + 1], an [int]. *)
Fixpoint simplify_loop (fuel : nat) (m : mem) (inp out len i out_pos : Z) (directory : bool)
  : res (mem * option (Z * bool)) :=
  if negb (i <? len) then Ok (m, Some (out_pos, directory))
  else
    match fuel with
    | O => Err OutOfFuel
    | S fuel =>
        _ ← assert_ (ld m (inp + i) =? slash);
        '(seg_len, dir) ← seg_scan m (inp + i + 1) (Z.to_nat (len - (i + 1))) 0;
        if (seg_len =? 0) || ((seg_len =? 1) && (ld m (inp + i + 1) =? dot)) then
          step ← int_ (seg_len + 1);
          simplify_loop fuel m inp out len (i + step) out_pos true
        else if (seg_len =? 2) && (ld m (inp + i + 1) =? dot)
                && (ld m (inp + i + 2) =? dot) then
          let out_pos := backtrack m out (Z.to_nat out_pos) in
          if out_pos <? 0 then Ok (m, None)
          else step ← int_ (seg_len + 1);
               simplify_loop fuel m inp out len (i + step) out_pos true
        else
          let m := st m (out + out_pos) slash in
          dst ← int_ (out_pos + 1);
          let m := memcpy m (out + dst) (inp + i + 1) (Z.to_nat seg_len) in
          step ← int_ (seg_len + 1);
          out_pos ← int_ (out_pos + step);
          simplify_loop fuel m inp out len (i + step) out_pos dir
    end.

Definition path_simplify (m : mem) (inp out len : Z) : res (mem * Z) :=
  if len =? 0 then Ok (m, 0)
  else if negb (ld m inp =? slash) then Ok (m, 0)
  else
    '(m, o) ← simplify_loop (Z.to_nat len) m inp out len 0 0 false;
    match o with
    | None => Ok (m, 0)
    | Some (out_pos, directory) =>
        '(m, out_pos) ←
          (if (directory : bool) then
             next ← int_ (out_pos + 1); Ok (st m (out + out_pos) slash, next)
           else Ok (m, out_pos));
        _ ← assert_ ((0 <? out_pos) && (out_pos <=? len));
        Ok (m, out_pos)
    end.

(** ** Specification *)
Module Spec.
(** The segments of a path: what follows each slash up to the next one. *)
Fixpoint split (l : list Z) : list (list Z) :=
  match l with
  | [] => [[]]
  | c :: l =>
      if c =? slash then [] :: split l
      else match split l with
           | [] => [[c]]
           | s :: ss => (c :: s) :: ss
           end
  end.

Definition special (s : list Z) : bool :=
  bool_decide (s = [] \/ s = [dot] \/ s = [dot; dot]).

(** One segment against the stack of the segments kept so far (newest
    first); [None] behind the root. *)
Definition step (stack : list (list Z)) (s : list Z) : option (list (list Z)) :=
  if bool_decide (s = [] \/ s = [dot]) then Some stack
  else if bool_decide (s = [dot; dot]) then
    match stack with [] => None | _ :: stack => Some stack end
  else Some (s :: stack).

Fixpoint norm (stack : list (list Z)) (ss : list (list Z)) : option (list (list Z)) :=
  match ss with
  | [] => Some stack
  | s :: ss => match step stack s with None => None | Some k => norm k ss end
  end.

(** The text of a stack. *)
Fixpoint render (stack : list (list Z)) : list Z :=
  match stack with [] => [] | s :: k => render k ++ slash :: s end.

(** Whether the text gets a trailing slash. *)
Definition extra (ss : list (list Z)) : Z :=
  if special (List.last ss []) then 1 else 0.

Definition simplify (p : list Z) : option (list Z) :=
  match p with
  | c :: p =>
      if c =? slash then
        let ss := split p in
        k ← norm [] ss;
        Some (render k ++ (if special (List.last ss []) then [slash] else []))
      else None
  | [] => None
  end.
End Spec.

(** ** Lemmas on the specification *)

Ltac notin :=
  repeat first [rewrite not_elem_of_cons in *|rewrite not_elem_of_app in *];
  first [apply not_elem_of_nil|naive_solver].

Lemma split_cases p :
  exists s, slash ∉ s /\
    ((p = s /\ Spec.split p = [s]) \/
     exists p', p = s ++ slash :: p' /\ Spec.split p = s :: Spec.split p').
Proof.
  induction p as [|c p (s&Hs&[[-> E]|(p'&->&E)])]; cbn [Spec.split].
  - exists []. split; [notin|by left].
  - destruct (c =? slash) eqn:Ec; zbool.
    + subst. exists []. split; [notin|]. right. by eexists.
    + exists (c :: s). split; [notin|]. left. by rewrite E.
  - destruct (c =? slash) eqn:Ec; zbool.
    + subst. exists []. split; [notin|]. right. by eexists.
    + exists (c :: s). split; [notin|]. right. exists p'. by rewrite E.
Qed.

Lemma split_cons_ne p : Spec.split p <> [].
Proof. by destruct (split_cases p) as (s&_&[[-> ->]|(p'&->&->)]). Qed.

Lemma length_render_cons s k :
  length (Spec.render (s :: k)) = (length (Spec.render k) + S (length s))%nat.
Proof. cbn. by rewrite length_app. Qed.

(** ** The two scans *)

Lemma seg_scan_spec m a s rest n :
  slash ∉ s ->
  bytes_at m a (length (s ++ rest)) = s ++ rest ->
  (rest = [] \/ exists p', rest = slash :: p') ->
  0 <= n -> n + Z.of_nat (length s) < 2 ^ 31 ->
  seg_scan m a (length (s ++ rest)) n = Ok (n + Z.of_nat (length s), bool_decide (rest <> [])).
Proof.
  intros Hs. revert a n; induction s as [|c s IH]; intros a n Hb Hr H0 Hn.
  - cbn [app length]. rewrite Z.add_0_r.
    destruct Hr as [->|[p' ->]]; [done|]. cbn in *. injection Hb as -> _. done.
  - cbn [app length bytes_at seg_scan] in *. injection Hb as -> Hb.
    replace (c =? slash) with false by (symmetry; apply Z.eqb_neq; notin).
    rewrite int_ok by lia. cbn [mbind res_bind].
    rewrite IH by (notin || done || lia). do 2 f_equal. lia.
Qed.

(** A segment of 2 GiB and more is too much for [seg_len]. *)
Lemma seg_scan_overflows m a k n :
  (forall j, (j < k)%nat -> ld m (a + Z.of_nat j) <> slash) ->
  0 <= n < 2 ^ 31 -> 2 ^ 31 <= n + Z.of_nat k ->
  seg_scan m a k n = Err Undefined.
Proof.
  revert a n. induction k as [|k IH]; intros a n Hs Hn Hk; [lia|].
  cbn [seg_scan]. rewrite (proj2 (Z.eqb_neq (ld m a) slash))
    by (rewrite <- (Z.add_0_r a); by apply (Hs 0%nat); lia).
  destruct (decide (n + 1 < 2 ^ 31)).
  - rewrite int_ok by lia. cbn [mbind res_bind]. apply IH; [|lia..].
    intros j Hj. replace (a + 1 + Z.of_nat j) with (a + Z.of_nat (S j)) by lia. apply Hs. lia.
  - unfold int_. by rewrite (proj2 (Z.ltb_ge (n + 1) _)), andb_false_r by lia.
Qed.

Lemma path_simplify_overflows m inp out n :
  ld m inp = slash -> (forall j, (0 < j < n)%nat -> ld m (inp + Z.of_nat j) <> slash) ->
  2 ^ 31 < Z.of_nat n -> path_simplify m inp out (Z.of_nat n) = Err Undefined.
Proof.
  intros Hi Hs Hn. unfold path_simplify. rewrite (proj2 (Z.eqb_neq _ 0)), Hi by lia. cbn [negb].
  rewrite Z.eqb_refl, Nat2Z.id. cbn [negb]. destruct n as [|n]; [lia|]. cbn [simplify_loop].
  rewrite (proj2 (Z.ltb_lt 0 _)), Z.add_0_r, Hi by lia. cbn [negb].
  rewrite Z.eqb_refl. cbn [assert_ mbind res_bind].
  rewrite seg_scan_overflows; [done| |lia|lia].
  intros j Hj. replace (inp + 1 + Z.of_nat j) with (inp + Z.of_nat (S j)) by lia. apply Hs. lia.
Qed.

Lemma backtrack_spec m out x s :
  slash ∉ s ->
  bytes_at m out (length (x ++ slash :: s)) = x ++ slash :: s ->
  backtrack m out (length (x ++ slash :: s)) = Z.of_nat (length x).
Proof.
  intros Hs. induction s as [|c s IH] using rev_ind; intros Hb.
  - replace (length (x ++ [slash])) with (S (length x)) in *
      by (rewrite length_app; cbn; lia).
    cbn [backtrack]. replace (ld m _) with slash; [done|].
    assert (H : bytes_at m out (S (length x)) !! length x = Some slash)
      by (rewrite Hb; by apply list_lookup_middle).
    rewrite bytes_at_lookup in H by lia. by injection H.
  - rewrite app_comm_cons, app_assoc in *.
    set (y := x ++ slash :: s) in *.
    replace (length (y ++ [c])) with (length y + 1)%nat in * by (by rewrite length_app).
    rewrite bytes_at_app in Hb.
    apply app_inj_1 in Hb as [Hb Hc]; [|by rewrite length_bytes_at].
    injection Hc as Hc. rewrite Nat.add_1_r. cbn [backtrack]. rewrite Hc.
    replace (c =? slash) with false; [apply IH; [notin|done]|].
    symmetry. apply Z.eqb_neq. notin.
Qed.

(** The tests of the code on a segment are the ones of the specification. *)
Lemma test_empty_or_dot m a s :
  (forall j, (j < length s)%nat -> s !! j = Some (ld m (a + Z.of_nat j))) ->
  ((Z.of_nat (length s) =? 0) || ((Z.of_nat (length s) =? 1) && (ld m a =? dot)))%bool
  = bool_decide (s = [] \/ s = [dot]).
Proof.
  intros H. destruct s as [|c [|c2 s]];
    [by rewrite bool_decide_eq_true_2 by (by left)| |].
  - specialize (H 0%nat). cbn in *. rewrite Z.add_0_r in H. injection H as ->; [|lia].
    destruct (ld m a =? dot) eqn:E; zbool.
    + rewrite E. symmetry. apply bool_decide_eq_true. by right.
    + symmetry. apply bool_decide_eq_false. intros [?|[= ?]]; done.
  - rewrite bool_decide_eq_false_2 by (by intros [?|?]). cbn [length].
    rewrite (proj2 (Z.eqb_neq _ 0)), (proj2 (Z.eqb_neq _ 1)) by lia. done.
Qed.

Lemma test_dotdot m a s :
  (forall j, (j < length s)%nat -> s !! j = Some (ld m (a + Z.of_nat j))) ->
  ((Z.of_nat (length s) =? 2) && (ld m a =? dot) && (ld m (a + 1) =? dot))%bool
  = bool_decide (s = [dot; dot]).
Proof.
  intros H. destruct s as [|c1 [|c2 [|c3 s]]];
    [by rewrite bool_decide_eq_false_2|by rewrite bool_decide_eq_false_2| |].
  - pose proof (H 0%nat ltac:(cbn; lia)) as H0. pose proof (H 1%nat ltac:(cbn; lia)) as H1.
    cbn in H0, H1. change (Z.of_nat 0) with 0 in H0. change (Z.of_nat 1) with 1 in H1.
    rewrite Z.add_0_r in H0. injection H0 as ->. injection H1 as ->.
    change (Z.of_nat _ =? 2) with true.
    destruct (ld m a =? dot) eqn:E, (ld m (a + 1) =? dot) eqn:E1; zbool; cbn; symmetry;
      [apply bool_decide_eq_true_2; by rewrite E, E1
      |apply bool_decide_eq_false_2; by intros [= ? ?]..].
  - rewrite bool_decide_eq_false_2 by done. cbn [length].
    by rewrite (proj2 (Z.eqb_neq _ 2)) by lia.
Qed.

(** ** The loop *)

(** The output buffer is the input buffer, or does not meet it. *)
Definition buffers_ok (inp out len : Z) : Prop :=
  inp = out \/ out + len <= inp \/ inp + len <= out.

Definition frame (m m' : mem) (out len : Z) : Prop :=
  forall a, ~ (out <= a < out + len) -> ld m' a = ld m a.

Lemma frame_refl m out len : frame m m out len.
Proof. by intros a _. Qed.

Lemma frame_trans m1 m2 m3 out len :
  frame m1 m2 out len -> frame m2 m3 out len -> frame m1 m3 out len.
Proof. intros H1 H2 a Ha. by rewrite H2, H1. Qed.

(** Writing one segment: [out[out_pos] = '/'; memcpy(...)]. *)
Lemma write_segment m inp out len i pos x s rest :
  buffers_ok inp out len ->
  Z.of_nat (length x) = pos -> 0 <= pos <= i ->
  i + 1 + Z.of_nat (length s) + Z.of_nat (length rest) = len ->
  bytes_at m out (length x) = x ->
  bytes_at m (inp + i + 1) (length (s ++ rest)) = s ++ rest ->
  let m' := memcpy (st m (out + pos) slash) (out + pos + 1) (inp + i + 1) (length s) in
  bytes_at m' out (length (x ++ slash :: s)) = x ++ slash :: s /\
  bytes_at m' (inp + (i + (Z.of_nat (length s) + 1))) (length rest) = rest /\
  frame m m' out len.
Proof.
  intros Hg Hx Hpos Hlen Hbx Hbs m'.
  rewrite length_app, bytes_at_app in Hbs.
  apply app_inj_1 in Hbs as [Hbs Hbr]; [|by rewrite length_bytes_at].
  set (m1 := st m (out + pos) slash) in *.
  assert (Hm1 : forall a, a <> out + pos -> ld m1 a = ld m a)
    by (intros; unfold m1; apply ld_st_ne; lia).
  assert (Hc : copied m1 m' (out + pos + 1) (inp + i + 1) (Z.of_nat (length s))).
  { apply memcpy_copied. unfold forward_ok, buffers_ok in *. lia. }
  split_and!.
  - rewrite length_app, bytes_at_app. cbn [length].
    replace (S (length s)) with (1 + length s)%nat by lia. rewrite bytes_at_app.
    rewrite (copied_frame _ _ _ _ _ _ _ Hc) by lia.
    rewrite (copied_frame _ _ _ _ _ _ 1 Hc) by lia.
    replace (out + Z.of_nat (length x) + Z.of_nat 1) with (out + pos + 1) by lia.
    rewrite (copied_bytes_at _ _ _ _ _ Hc).
    rewrite (bytes_at_ext m1 m out out) by (intros; apply Hm1; lia).
    rewrite (bytes_at_ext m1 m (inp + i + 1) (inp + i + 1))
      by (intros; apply Hm1; unfold buffers_ok in *; lia).
    rewrite Hbx, Hbs. cbn. unfold m1. replace (out + Z.of_nat (length x)) with (out + pos) by lia.
    by rewrite ld_st_eq.
  - replace (inp + (i + (Z.of_nat (length s) + 1)))
      with (inp + i + 1 + Z.of_nat (length s)) by lia.
    rewrite (copied_frame _ _ _ _ _ _ _ Hc) by (unfold buffers_ok in *; lia).
    rewrite <- Hbr at 2. apply bytes_at_ext. intros. apply Hm1.
    unfold buffers_ok in *. lia.
  - intros a Ha. rewrite Hc, decide_False by lia. apply Hm1. lia.
Qed.

(** What the loop establishes from a stack and the segments still to come. *)
Definition loop_post (m : mem) (out len : Z) (stack ss : list (list Z))
    (r : res (mem * option (Z * bool))) : Prop :=
  exists m' o, r = Ok (m', o) /\ frame m m' out len /\
    match Spec.norm stack ss with
    | None => o = None
    | Some k =>
        o = Some (Z.of_nat (length (Spec.render k)), Spec.special (List.last ss [])) /\
        bytes_at m' out (length (Spec.render k)) = Spec.render k /\
        Z.of_nat (length (Spec.render k)) + Spec.extra ss <= len
    end.

Lemma simplify_loop_done fuel m inp out len pos dir :
  simplify_loop fuel m inp out len len pos dir = Ok (m, Some (pos, dir)).
Proof. destruct fuel; cbn; by rewrite Z.ltb_irrefl. Qed.

(** The loop is right with [fuel] turns left. *)
Definition loop_ok (inp out len : Z) (fuel : nat) : Prop :=
  forall m i stack p dir,
  Z.of_nat (length (Spec.render stack)) <= i ->
  Forall (fun s => slash ∉ s) stack ->
  i + 1 + Z.of_nat (length p) = len -> Z.of_nat (length p) < Z.of_nat fuel ->
  bytes_at m out (length (Spec.render stack)) = Spec.render stack ->
  bytes_at m (inp + i) (S (length p)) = slash :: p ->
  loop_post m out len stack (Spec.split p)
    (simplify_loop fuel m inp out len i (Z.of_nat (length (Spec.render stack))) dir).

Lemma extra_special s :
  s = [] \/ s = [dot] \/ s = [dot; dot] -> Spec.extra [s] = 1.
Proof. intros H. unfold Spec.extra, Spec.special; cbn. by rewrite bool_decide_eq_true_2. Qed.

Lemma extra_normal s :
  ~ (s = [] \/ s = [dot] \/ s = [dot; dot]) -> Spec.extra [s] = 0.
Proof. intros H. unfold Spec.extra, Spec.special; cbn. by rewrite bool_decide_eq_false_2. Qed.

(** After the segment [s], the loop goes on with what remains of the input. *)
Lemma loop_continue inp out len fuel m m' i stack k s rest d :
  loop_ok inp out len fuel ->
  (rest = [] /\ Spec.split (s ++ rest) = [s] \/
   exists p', rest = slash :: p' /\ Spec.split (s ++ rest) = s :: Spec.split p') ->
  i + 1 + Z.of_nat (length s + length rest) = len ->
  Z.of_nat (length s + length rest) < Z.of_nat (S fuel) ->
  Z.of_nat (length (Spec.render k)) + Spec.extra [s] <= i + 1 + Z.of_nat (length s) ->
  Forall (fun s => slash ∉ s) k ->
  bytes_at m' out (length (Spec.render k)) = Spec.render k ->
  bytes_at m' (inp + (i + (Z.of_nat (length s) + 1))) (length rest) = rest ->
  frame m m' out len -> Spec.step stack s = Some k ->
  (rest = [] -> d = Spec.special s) ->
  loop_post m out len stack (Spec.split (s ++ rest))
    (simplify_loop fuel m' inp out len (i + (Z.of_nat (length s) + 1))
       (Z.of_nat (length (Spec.render k))) d).
Proof.
  intros IH Hrest Hlen Hf Hk Hkst Hb Hr Hfr Hstep Hd.
  destruct Hrest as [[-> E]|(p'&->&E)]; rewrite E; unfold loop_post;
    cbn [Spec.norm length] in *; rewrite Hstep.
  - replace (i + (Z.of_nat (length s) + 1)) with len by lia.
    rewrite simplify_loop_done, Hd by done. exists m'. eexists.
    split_and!; [done|done|done|done|cbn; lia].
  - destruct (IH m' (i + (Z.of_nat (length s) + 1)) k p' d)
      as (m2&o&Ho&Hf2&Hpost); try done; [unfold Spec.extra in *; cases; lia|lia|lia|].
    exists m2, o. rewrite Ho. split; [done|]. split; [by eapply frame_trans|].
    unfold Spec.extra.
    destruct (Spec.norm k (Spec.split p')) eqn:En; [|done].
    replace (List.last (s :: Spec.split p') []) with (List.last (Spec.split p') []); [done|].
    pose proof (split_cons_ne p'). by destruct (Spec.split p').
Qed.

Lemma simplify_loop_spec fuel inp out len :
  buffers_ok inp out len -> len < 2 ^ 31 -> loop_ok inp out len fuel.
Proof.
  intros Hg Hint. induction fuel as [|fuel IH];
    intros m i stack p dir Hpos Hst Hlen Hf Hbo Hbi; [lia|].
  injection Hbi as Hi Hbi. cbn [simplify_loop].
  rewrite (proj2 (Z.ltb_lt i len)) by lia. cbn [negb]. rewrite Hi. cbn.
  destruct (split_cases p) as (s&Hs&Hp).
  assert (exists rest, p = s ++ rest /\
    (rest = [] /\ Spec.split p = [s] \/
     exists p', rest = slash :: p' /\ Spec.split p = s :: Spec.split p'))
    as (rest&->&Hrest) by (destruct Hp as [[-> ?]|(p'&->&?)]; [exists []|exists (slash :: p')];
      rewrite ?app_nil_r in *; eauto).
  clear Hp. rewrite length_app in Hlen, Hf.
  replace (Z.to_nat (len - (i + 1))) with (length (s ++ rest)) by (rewrite length_app; lia).
  rewrite seg_scan_spec by (lia || naive_solver). rewrite Z.add_0_l. cbn [mbind res_bind].
  assert (Hr : bytes_at m (inp + (i + (Z.of_nat (length s) + 1))) (length rest) = rest).
  { rewrite length_app, bytes_at_app in Hbi.
    apply app_inj_1 in Hbi as [_ Hbi]; [|by rewrite length_bytes_at].
    etrans; [|exact Hbi]. f_equal. lia. }
  replace (inp + i + 2) with (inp + i + 1 + 1) by lia.
  assert (Hld : forall j, (j < length s)%nat ->
    s !! j = Some (ld m (inp + i + 1 + Z.of_nat j))).
  { intros j Hj. rewrite <- (lookup_app_l s rest), <- Hbi at 1 by done.
    apply bytes_at_lookup. rewrite length_app. lia. }
  rewrite test_empty_or_dot, test_dotdot by done.
  rewrite (int_ok (Z.of_nat (length s) + 1)) by lia. cbn [mbind res_bind].
  case_bool_decide as H1; [|case_bool_decide as H2].
  - eapply loop_continue; eauto using frame_refl; [rewrite extra_special by tauto; cbn in *; lia| |].
    + unfold Spec.step. by rewrite bool_decide_eq_true_2.
    + intros _. symmetry. apply bool_decide_eq_true_2. tauto.
  - rewrite Nat2Z.id. destruct stack as [|t k].
    + cbn [Spec.render length backtrack]. cbn [Z.ltb Z.compare].
      exists m, None. split; [done|]. split; [apply frame_refl|].
      assert (exists ss, Spec.split (s ++ rest) = s :: ss) as [ss ->] by naive_solver.
      cbn. unfold Spec.step. by rewrite bool_decide_eq_false_2, bool_decide_eq_true_2.
    + apply Forall_cons in Hst as [Ht Hst]. cbn [Spec.render] in *.
      rewrite backtrack_spec by done. rewrite (proj2 (Z.ltb_ge _ 0)) by lia.
      rewrite length_app in Hpos, Hbo. rewrite bytes_at_app in Hbo.
      apply app_inj_1 in Hbo as [Hbo _]; [|by rewrite length_bytes_at].
      eapply loop_continue; eauto using frame_refl; [rewrite extra_special by tauto; cbn in *; lia| |].
      * unfold Spec.step. by rewrite bool_decide_eq_false_2, bool_decide_eq_true_2.
      * intros _. symmetry. apply bool_decide_eq_true_2. tauto.
  - destruct (write_segment m inp out len i (Z.of_nat (length (Spec.render stack)))
      (Spec.render stack) s rest) as (Hw1&Hw2&Hw3); try done; try lia.
    rewrite Nat2Z.id, !int_ok by lia. cbn [mbind res_bind].
    rewrite Z.add_assoc.
    replace (Z.of_nat (length (Spec.render stack)) + (Z.of_nat (length s) + 1))
      with (Z.of_nat (length (Spec.render (s :: stack))))
      by (rewrite length_render_cons; lia).
    eapply loop_continue; eauto; [rewrite extra_normal, length_render_cons by tauto; lia| |].
    + unfold Spec.step. by rewrite !bool_decide_eq_false_2.
    + intros Hnil. rewrite bool_decide_eq_false_2 by naive_solver.
    symmetry. apply bool_decide_eq_false_2. tauto.
Qed.

(** ** The canonical form *)

(** A segment that the simplification keeps. *)
Definition normal (s : list Z) : Prop :=
  slash ∉ s /\ ~ (s = [] \/ s = [dot] \/ s = [dot; dot]).

Lemma split_no_slash p : Forall (fun s => slash ∉ s) (Spec.split p).
Proof.
  remember (length p) as n eqn:E. revert p E.
  induction (lt_wf n) as [n _ IH]; intros p ->.
  destruct (split_cases p) as (s&Hs&[[-> ->]|(p'&->&->)]).
  - by repeat constructor.
  - constructor; [done|]. eapply IH; [|done]. rewrite length_app. cbn. lia.
Qed.

Lemma step_normal stack s k :
  slash ∉ s -> Forall normal stack -> Spec.step stack s = Some k -> Forall normal k.
Proof.
  intros Hs Hst. unfold Spec.step. repeat case_bool_decide; intros.
  - by simplify_eq.
  - destruct stack; simplify_eq. by apply Forall_cons in Hst as [_ ?].
  - simplify_eq. constructor; [|done]. split; [done|tauto].
Qed.

Lemma norm_normal stack ss k :
  Forall (fun s => slash ∉ s) ss -> Forall normal stack ->
  Spec.norm stack ss = Some k -> Forall normal k.
Proof.
  intros Hss. revert stack; induction Hss as [|s ss Hs Hss IH]; intros stack Hst; cbn.
  - by intros [= <-].
  - destruct (Spec.step stack s) as [k'|] eqn:E; [|done].
    apply IH. by eapply step_normal.
Qed.

Lemma norm_app stack s1 s2 :
  Spec.norm stack (s1 ++ s2) =
  match Spec.norm stack s1 with Some k => Spec.norm k s2 | None => None end.
Proof.
  revert stack; induction s1 as [|s s1 IH]; intros stack; cbn; [done|].
  by destruct (Spec.step stack s).
Qed.

(** Normal segments are all pushed. *)
Lemma norm_rev stack k :
  Forall normal k -> Spec.norm stack (rev k) = Some (k ++ stack).
Proof.
  intros Hk. revert stack; induction Hk as [|s k [Hs Hn] Hk IH]; intros stack; cbn; [done|].
  rewrite norm_app, IH. cbn. unfold Spec.step.
  by rewrite !bool_decide_eq_false_2 by tauto.
Qed.

(** The stack is not empty unless the last segment was special. *)
Lemma norm_nonempty stack ss :
  ss <> [] -> Spec.norm stack ss = Some [] -> Spec.special (List.last ss []) = true.
Proof.
  intros Hne. destruct (exists_last Hne) as (ss'&s&->). rewrite norm_app, last_last.
  destruct (Spec.norm stack ss') as [k|]; [|done]. cbn. unfold Spec.step, Spec.special.
  repeat case_bool_decide; try done; naive_solver.
Qed.

Lemma split_app_slash s p :
  slash ∉ s -> Spec.split (s ++ slash :: p) = s :: Spec.split p.
Proof.
  induction s as [|c s IH]; intros Hs; cbn; [done|].
  replace (c =? slash) with false by (symmetry; apply Z.eqb_neq; notin).
  by rewrite IH by notin.
Qed.

Lemma split_single s : slash ∉ s -> Spec.split s = [s].
Proof.
  induction s as [|c s IH]; intros Hs; cbn; [done|].
  replace (c =? slash) with false by (symmetry; apply Z.eqb_neq; notin).
  by rewrite IH by notin.
Qed.

Lemma split_snoc q l s e :
  slash ∉ s -> slash ∉ e -> Spec.split q = l ++ [s] ->
  Spec.split (q ++ slash :: e) = l ++ [s; e].
Proof.
  intros Hs He. revert l. remember (length q) as n eqn:E. revert q E.
  induction (lt_wf n) as [n _ IHn]; intros q -> l Hq.
  destruct (split_cases q) as (t&Ht&[[-> E]|(q'&->&E)]); rewrite E in Hq.
  - destruct l as [|? [|]]; simplify_eq/=. by rewrite split_app_slash, split_single.
  - rewrite <- app_assoc. cbn. rewrite split_app_slash by done.
    destruct l as [|t' l]; cbn in Hq; injection Hq as -> Hq; [by apply split_cons_ne in Hq|].
    cbn. f_equal. eapply IHn; [|done|done]. rewrite length_app. cbn. lia.
Qed.

(** Splitting a rendered stack gives the stack back. *)
Lemma split_render k e :
  Forall normal k -> slash ∉ e ->
  exists p, Spec.render k ++ slash :: e = slash :: p /\ Spec.split p = rev k ++ [e].
Proof.
  intros Hk. revert e; induction Hk as [|s k [Hs _] Hk IH]; intros e He; cbn.
  - exists e. split; [done|by apply split_single].
  - destruct (IH s Hs) as (p&Hp&Hsp). exists (p ++ slash :: e).
    rewrite Hp. split; [done|]. rewrite <- app_assoc. by apply split_snoc.
Qed.

Lemma simplify_idempotent p q : Spec.simplify p = Some q -> Spec.simplify q = Some q.
Proof.
  destruct p as [|c p]; [done|]. cbn. destruct (c =? slash); [|done].
  destruct (Spec.norm [] (Spec.split p)) as [k|] eqn:En; [|done]. cbn. intros [= <-].
  assert (Hk : Forall normal k) by (eapply norm_normal; eauto using split_no_slash).
  destruct (Spec.special _) eqn:Es.
  - destruct (split_render k [] Hk) as (q&Hq&Hs); [notin|].
    rewrite Hq at 1. cbn. rewrite Hs, norm_app, norm_rev by done. cbn.
    by rewrite last_last, app_nil_r.
  - destruct k as [|s k].
    { apply norm_nonempty in En; [congruence|apply split_cons_ne]. }
    apply Forall_cons in Hk as [Hn Hk]. cbn. rewrite app_nil_r.
    destruct (split_render k s Hk) as (q&Hq&Hs); [apply Hn|].
    rewrite Hq at 1. cbn. rewrite Hs. change (rev k ++ [s]) with (rev (s :: k)).
    rewrite norm_rev by by constructor. cbn. rewrite last_last, app_nil_r.
    unfold Spec.special. rewrite bool_decide_eq_false_2 by apply Hn.
    by rewrite app_nil_r.
Qed.

Lemma length_simplify_pos p q : Spec.simplify p = Some q -> 0 < Z.of_nat (length q).
Proof.
  destruct p as [|c p]; [done|]. cbn. destruct (c =? slash); [|done].
  destruct (Spec.norm [] (Spec.split p)) as [k|] eqn:En; [|done]. cbn. intros [= <-].
  rewrite length_app. destruct k as [|s k]; [|cbn; rewrite length_app; cbn; lia].
  apply norm_nonempty in En as ->; [|apply split_cons_ne]. cbn. lia.
Qed.

Lemma path_simplify_spec m inp out n :
  buffers_ok inp out (Z.of_nat n) -> Z.of_nat n < 2 ^ 31 ->
  exists m' r, path_simplify m inp out (Z.of_nat n) = Ok (m', r) /\
    frame m m' out (Z.of_nat n) /\
    match Spec.simplify (bytes_at m inp n) with
    | None => r = 0
    | Some q =>
        r = Z.of_nat (length q) /\ 0 < r <= Z.of_nat n /\ bytes_at m' out (length q) = q
    end.
Proof.
  intros Hg Hint. unfold path_simplify. destruct n as [|n].
  { exists m, 0. cbn. eauto using frame_refl. }
  rewrite (proj2 (Z.eqb_neq _ 0)) by lia. cbn [bytes_at Spec.simplify].
  destruct (ld m inp =? slash) eqn:E; cbn; [|by exists m, 0; eauto using frame_refl].
  set (p := bytes_at m (inp + 1) n) in *.
  assert (Hp : length p = n) by apply length_bytes_at.
  destruct (simplify_loop_spec (Z.to_nat (Z.of_nat (S n))) inp out (Z.of_nat (S n)) Hg Hint
    m 0 [] p false) as (m'&o&Ho&Hfr&Hpost); try done; try lia.
  { cbn. rewrite !Z.add_0_r. zbool. by rewrite E, Hp. }
  cbn [Spec.render length] in Ho. change (Z.of_nat 0) with 0 in Ho. rewrite Ho. cbn.
  destruct (Spec.norm [] (Spec.split p)) as [k|] eqn:En; [|rewrite Hpost; by exists m', 0].
  destruct Hpost as (->&Hb&Hle). unfold Spec.extra in Hle.
  pose proof (length_simplify_pos (slash :: p)) as Hpos. cbn in Hpos. rewrite En in Hpos.
  specialize (Hpos _ eq_refl). cbn in Hpos. rewrite length_app in Hpos.
  cbn. destruct (Spec.special _); cbn in *.
  - eexists _, _. rewrite int_ok by lia. cbn.
    rewrite (proj2 (Z.ltb_lt _ _)), (proj2 (Z.leb_le _ _)) by lia. cbn.
    split; [done|]. rewrite length_app; cbn. split_and!; try lia.
    + eapply frame_trans; [done|]. intros a Ha. apply ld_st_ne. lia.
    + rewrite bytes_at_app. cbn. rewrite ld_st_eq. f_equal. etrans; [|exact Hb].
      apply bytes_at_ext. intros. apply ld_st_ne. lia.
  - eexists _, _. rewrite (proj2 (Z.ltb_lt _ _)), (proj2 (Z.leb_le _ _)) by lia. cbn.
    split; [done|]. rewrite app_nil_r. split_and!; try lia; done.
Qed.

(** ** Properties *)

(** C2: [path_simplify] computes the canonical form of a path, in place or into
    a separate buffer.  For every input of less than 2 GiB (the code counts in
    [int]s: [path_simplify_overflows] shows what a longer one does) it returns without failing an
    assertion and without writing outside [out[0 .. len)]; it answers 0 exactly
    for the paths the specification rejects (empty, relative, or behind the
    root), and otherwise the length of the canonical text, which is then in
    [out] and never longer than the input. *)
Theorem path_simplify_correct m inp out n :
  buffers_ok inp out (Z.of_nat n) -> Z.of_nat n < 2 ^ 31 ->
  exists m' r, path_simplify m inp out (Z.of_nat n) = Ok (m', r) /\
    frame m m' out (Z.of_nat n) /\
    match Spec.simplify (bytes_at m inp n) with
    | None => r = 0
    | Some q =>
        r = Z.of_nat (length q) /\ 0 < r <= Z.of_nat n /\ bytes_at m' out (length q) = q
    end.
Proof. intros Hg Hn. by apply path_simplify_spec. Qed.

(** "/a/./b//../c" simplified in place is "/a/c". *)
Lemma path_simplify_correct_witness :
  let p := [47; 97; 47; 46; 47; 98; 47; 47; 46; 46; 47; 99] in
  let m := write_bytes ∅ 100 p in
  exists m', path_simplify m 100 100 12 = Ok (m', 4) /\ bytes_at m' 100 4 = [47; 97; 47; 99].
Proof.
  intros p m.
  destruct (path_simplify_correct m 100 100 12) as (m'&r&E&_&H); [by left|done|].
  change (Z.of_nat 12) with 12 in *. exists m'.
  replace (Spec.simplify (bytes_at m 100 12)) with (Some [47; 97; 47; 99]) in H
    by (vm_compute; reflexivity).
  destruct H as (->&_&H). by split.
Defined.

(** Simplified paths are canonical: simplifying the result of a successful
    [path_simplify] again, in place, succeeds with the same length and leaves
    the text as it is. *)
Theorem path_simplify_idempotent m inp out n m' r :
  buffers_ok inp out (Z.of_nat n) -> Z.of_nat n < 2 ^ 31 ->
  path_simplify m inp out (Z.of_nat n) = Ok (m', r) -> 0 < r ->
  exists m'', path_simplify m' out out r = Ok (m'', r) /\
    bytes_at m'' out (Z.to_nat r) = bytes_at m' out (Z.to_nat r).
Proof.
  intros Hg Hn Hr Hpos.
  destruct (path_simplify_spec m inp out n Hg Hn) as (m1&r1&E1&_&H1).
  rewrite Hr in E1. simplify_eq.
  destruct (Spec.simplify (bytes_at m inp n)) as [q|] eqn:Eq; [|lia].
  destruct H1 as (->&Hle&Hb).
  destruct (path_simplify_spec m1 out out (length q)) as (m2&r2&E2&_&H2); [by left|lia|].
  rewrite Hb, (simplify_idempotent _ _ Eq) in H2. destruct H2 as (->&_&Hb2).
  exists m2. split; [done|]. rewrite Nat2Z.id. by rewrite Hb, Hb2.
Qed.

Lemma path_simplify_idempotent_witness :
  let m := write_bytes ∅ 0 [47; 47; 97; 47] in
  path_simplify m 0 0 4 = Ok (write_bytes ∅ 0 [47; 97; 47; 47], 3) /\
  exists m'', path_simplify (write_bytes ∅ 0 [47; 97; 47; 47]) 0 0 3 = Ok (m'', 3) /\
    bytes_at m'' 0 3 = [47; 97; 47].
Proof.
  intros m. assert (E : path_simplify m 0 0 4 = Ok (write_bytes ∅ 0 [47; 97; 47; 47], 3))
    by (vm_compute; reflexivity).
  split; [done|].
  destruct (path_simplify_idempotent m 0 0 4 _ 3 ltac:(by left) eq_refl E eq_refl) as (m2&E2&H).
  exists m2. split; [exact E2|]. etrans; [exact H|]. vm_compute. reflexivity.
Defined.
