(* ===== verification/FsUtil.v ===== *)
(** * FsUtil

    [fs_normslice] of libk ([src/src/libk/fsutil.c]): the offset and length of
    a read or write request, normalised against the size of the file.  Every
    filesystem of the system, in the kernel and in userland, trusts its result
    to index a buffer. *)

From S2P Require Import Prelude.

(** The code, conversions included: [*offset += max + 1] is computed in
    [size_t] and converted back to [long]. *)
Definition fs_normslice (offset length max : Z) (expand : bool) : res (Z * Z) :=
  _ ← assert_ (max <=? u64 LONG_MAX);
  let end_ (offset length : Z) :=
    _ ← assert_ (0 <=? offset);
    if expand then Ok (offset, length)
    else
      _ ← assert_ (u64 (u64 offset + length) <=? max);
      Ok (offset, length) in
  let slice_ (offset : Z) :=
    if expand then end_ offset length
    else if u64 offset <=? max then
      let maxlen := u64 (max - u64 offset) in
      end_ offset (if maxlen <? length then maxlen else length)
    else end_ (s64 max) 0 in
  if offset <? 0 then
    let offset := s64 (u64 (u64 offset + u64 (max + 1))) in
    if offset <? 0 then end_ (s64 max) 0 else slice_ offset
  else slice_ offset.

(** What a request means: negative offsets count from one past the end of the
    file. *)
Definition slice_spec (offset length max : Z) (expand : bool) : Z * Z :=
  let base := if offset <? 0 then offset + max + 1 else offset in
  if base <? 0 then (max, 0)
  else if expand then (base, length)
  else if base <=? max then (base, Z.min length (max - base))
  else (max, 0).

Lemma fs_normslice_spec offset length max expand :
  - 2 ^ 63 <= offset < 2 ^ 63 -> is_size length -> 0 <= max <= LONG_MAX ->
  fs_normslice offset length max expand = Ok (slice_spec offset length max expand) /\
  (expand = false ->
   let '(o, l) := slice_spec offset length max expand in
   0 <= o /\ 0 <= l <= length /\ o + l <= max).
Proof.
  intros Ho Hl Hm. split.
  - unfold fs_normslice, slice_spec.
    assert (E : s64 (u64 (u64 offset + u64 (max + 1))) =
                if offset <? 0 then offset + max + 1
                else s64 (u64 (u64 offset + u64 (max + 1))))
      by (destruct (_ <? _) eqn:?; zbool; word_lia).
    rewrite E. clear E.
    rewrite (s64_small max), (u64_small LONG_MAX) by (unfold_words; lia).
    rewrite (proj2 (Z.leb_le max LONG_MAX)) by lia. cbn.
    assert (H : forall o, 0 <= o < 2 ^ 63 -> u64 o = o) by (intros; word_lia).
    destruct (offset <? 0) eqn:E1; zbool.
    + destruct (offset + max + 1 <? 0) eqn:E2; zbool.
      * rewrite (proj2 (Z.leb_le 0 max)) by lia. cbn.
        rewrite (H max), Z.add_0_r, (H max), Z.leb_refl by (unfold_words; lia).
        by destruct expand.
      * unfold_words. rewrite !(H (offset + max + 1)) by lia.
        rewrite (proj2 (Z.leb_le 0 (offset + max + 1))) by lia. cbn.
        rewrite (proj2 (Z.leb_le (offset + max + 1) max)) by lia.
        destruct expand; [done|]. rewrite (H (max - _)) by lia.
        destruct (_ <? length) eqn:E3; zbool;
          rewrite H, (proj2 (Z.leb_le _ max)) by lia; cbn; do 2 f_equal; lia.
    + rewrite (proj2 (Z.ltb_ge offset 0)) by lia. rewrite !(H offset) by lia.
      rewrite (proj2 (Z.leb_le 0 offset)) by lia. cbn.
      destruct expand; [done|].
      destruct (offset <=? max) eqn:E3; zbool.
      * rewrite (H (max - offset)) by (unfold_words; lia).
        destruct (_ <? length) eqn:E4; zbool; unfold_words;
          rewrite H, (proj2 (Z.leb_le _ max)) by lia; cbn; do 2 f_equal; lia.
      * rewrite (proj2 (Z.leb_le 0 max)) by lia. cbn.
        by rewrite (H max), Z.add_0_r, (H max), Z.leb_refl by (unfold_words; lia).
  - intros ->. unfold slice_spec, is_size in *. cases; zbool; lia.
Qed.

(** C31: [fs_normslice] never fails its assertions for a file size that fits a
    [long], computes the slice the comments of the code describe for every
    64-bit offset and length in spite of the mixed signed and unsigned
    arithmetic, and for a request that cannot grow the file the slice lies
    inside the file. *)
Theorem fs_normslice_correct offset length max expand :
  - 2 ^ 63 <= offset < 2 ^ 63 -> is_size length -> 0 <= max <= LONG_MAX ->
  fs_normslice offset length max expand = Ok (slice_spec offset length max expand) /\
  (expand = false ->
   let '(o, l) := slice_spec offset length max expand in
   0 <= o /\ 0 <= l <= length /\ o + l <= max).
Proof. apply fs_normslice_spec. Qed.

(** [read(-4)] of the last 3 bytes of a 10-byte file. *)
Lemma fs_normslice_correct_witness : fs_normslice (-4) 100 10 false = Ok (7, 3).
Proof.
  destruct (fs_normslice_correct (-4) 100 10 false) as [-> _];
    [lia|unfold_words; lia|unfold_words; lia|reflexivity].
Defined.
