(* ===== verification/Buf.v ===== *)
(** * Buf

    Objects of a fixed size, as the list of their bytes, and loops over a
    counter, for the functions without other state. *)

From S2P Require Import Prelude.

(** ** Objects *)

(** [len] bytes read from offset [off] on, and [bs] written there; an access
    that is not inside the object is undefined. *)
Definition bload (b : list Z) (off len : Z) : res (list Z) :=
  if (0 <=? off) && (0 <=? len) && (off + len <=? Z.of_nat (length b))
  then Ok (take (Z.to_nat len) (drop (Z.to_nat off) b)) else Err Undefined.

Definition bstore (b : list Z) (off : Z) (bs : list Z) : res (list Z) :=
  if (0 <=? off) && (off + Z.of_nat (length bs) <=? Z.of_nat (length b))
  then Ok (splice (Z.to_nat off) bs b) else Err Undefined.

Definition bget (b : list Z) (off : Z) : res Z :=
  if 0 <=? off then match b !! Z.to_nat off with Some x => Ok x | None => Err Undefined end
  else Err Undefined.

Lemma bload_in b off len :
  0 <= off -> 0 <= len -> off + len <= Z.of_nat (length b) ->
  bload b off len = Ok (take (Z.to_nat len) (drop (Z.to_nat off) b)).
Proof. intros H0 H1 H2. unfold bload. by rewrite !(proj2 (Z.leb_le _ _)) by done. Qed.

Lemma bstore_in b off bs :
  0 <= off -> off + Z.of_nat (length bs) <= Z.of_nat (length b) ->
  bstore b off bs = Ok (splice (Z.to_nat off) bs b).
Proof. intros H0 H1. unfold bstore. by rewrite !(proj2 (Z.leb_le _ _)) by done. Qed.

Lemma bget_in b off :
  0 <= off < Z.of_nat (length b) -> exists x, bget b off = Ok x /\ b !! Z.to_nat off = Some x.
Proof.
  intros H. unfold bget. rewrite (proj2 (Z.leb_le _ _)) by lia.
  destruct (lookup_lt_is_Some_2 b (Z.to_nat off)) as [x ->]; [lia|eauto].
Qed.

(** A part of an object, and a store into it. *)
Lemma sub_lookup (b : list Z) off n i :
  take n (drop off b) !! i = if decide (i < n)%nat then b !! (off + i)%nat else None.
Proof.
  case_decide.
  - by rewrite lookup_take_lt, lookup_drop by done.
  - apply lookup_ge_None. rewrite length_take. lia.
Qed.

Lemma sub_splice_out (b : list Z) i bs off n :
  (i + length bs <= length b)%nat -> (off + n <= i \/ i + length bs <= off)%nat ->
  take n (drop off (splice i bs b)) = take n (drop off b).
Proof.
  intros Hl Ho. apply list_eq; intros j. rewrite !sub_lookup. case_decide; [|done].
  apply splice_lookup_out; lia.
Qed.

Lemma sub_splice_eq (b : list Z) i bs :
  (i + length bs <= length b)%nat -> take (length bs) (drop i (splice i bs b)) = bs.
Proof.
  intros Hl. apply list_eq; intros j. rewrite sub_lookup. case_decide.
  - rewrite splice_lookup_in by lia. f_equal. lia.
  - symmetry. apply lookup_ge_None. lia.
Qed.

(** ** Loops *)

(** [for (i = lo; i < lo + n; i++)] *)
Section for_.
Context {A : Type} (f : Z -> A -> res A).

Fixpoint for_from (lo : Z) (n : nat) (a : A) : res A :=
  match n with
  | O => Ok a
  | S n => a ← f lo a; for_from (lo + 1) n a
  end.

Lemma for_from_rule (I : Z -> A -> Prop) n lo a :
  (forall i a, lo <= i < lo + Z.of_nat n -> I i a -> exists a', f i a = Ok a' /\ I (i + 1) a') ->
  I lo a -> exists a', for_from lo n a = Ok a' /\ I (lo + Z.of_nat n) a'.
Proof.
  revert lo a; induction n as [|n IH]; intros lo a Hf Ha.
  { exists a. split; [done|]. by rewrite Z.add_0_r. }
  cbn [for_from]. destruct (Hf lo a) as (a1&->&Ha1); [lia|done|]. cbn [mbind res_bind].
  destruct (IH (lo + 1) a1) as (a'&E&Ha'); [intros i b Hi; apply Hf; lia|done|].
  exists a'. split; [done|]. by replace (lo + Z.of_nat (S n)) with (lo + 1 + Z.of_nat n) by lia.
Qed.
End for_.

(** A fallible step for each element of a list. *)
Fixpoint each {A B} (f : B -> A -> res A) (l : list B) (a : A) : res A :=
  match l with
  | [] => Ok a
  | x :: l => a ← f x a; each f l a
  end.
