(* ===== verification/Ata.v ===== *)
(** * Ata

    The disk driver ([src/src/kernel/arch/amd64/ata.c], [driver/pata.c]):
    programmed input and output to IDE drives.  The ports are an interface,
    [Ports]; [Drives] states what the documentation of ATA drives promises about
    them, and [Simulated] is a drive that keeps the promise. *)

From S2P Require Import Prelude Monad Mem Buf.

(** ** The ports *)

(** [patience] bounds the polls without a time-out; it is the model's, not the
    hardware's. *)
Class Ports (W : Type) := {
  in8 : Z -> W -> W * Z;
  in16 : Z -> W -> W * Z;
  out8 : Z -> Z -> W -> W;
  out16 : Z -> Z -> W -> W;
  patience : nat;
}.

(** ** The driver's state *)

Inductive dev_type := DEV_UNKNOWN | DEV_PATA | DEV_PATAPI.

#[export] Instance dev_type_eq_dec : EqDecision dev_type.
Proof. solve_decision. Defined.

Record drive := mkDrive { d_type : dev_type; d_sectors : Z }.

Record ata (W : Type) := mkAta { world : W; ata_drives : list drive }.
Arguments mkAta {W}.
Arguments world {W}.
Arguments ata_drives {W}.

#[export] Instance drive_settable : Settable drive := fun d => mkDrive (d_type d) (d_sectors d).
#[export] Instance ata_settable {W} : Settable (ata W) := fun a => mkAta (world a) (ata_drives a).

(** The registers, as offsets. *)
Definition DATA : Z := 0.
Definition FEAT : Z := 1.
Definition SCNT : Z := 2.
Definition LBAlo : Z := 3.
Definition LBAmid : Z := 4.
Definition LBAhi : Z := 5.
Definition DRV : Z := 6.
Definition CMD : Z := 7.
Definition STATUS : Z := 7.
Definition CTRL : Z := 0x206.

Section driver.
Context {W : Type} `{Ports W} {E : Type}.

Abbreviation A := (ST (ata W) E).

Definition port_in8 (port : Z) : A Z := fun s =>
  let '(w, v) := in8 port (world s) in Val v (s <| world := w |>).
Definition port_in16 (port : Z) : A Z := fun s =>
  let '(w, v) := in16 port (world s) in Val v (s <| world := w |>).
Definition port_out8 (port v : Z) : A () := modify (fun s => s <| world ::= out8 port (u8 v) |>).
Definition port_out16 (port v : Z) : A () := modify (fun s => s <| world ::= out16 port (u16 v) |>).

Definition get_drive (drive : Z) : A Ata.drive :=
  s ← get_; if 0 <=? drive then deref (ata_drives s !! Z.to_nat drive) else fail Undefined.

Definition set_drive (drive : Z) (f : Ata.drive -> Ata.drive) : A () :=
  _ ← get_drive drive; modify (fun s => s <| ata_drives ::= alter f (Z.to_nat drive) |>).

Definition ata_iobase (drive : Z) : Z := if Z.land drive 2 =? 0 then 0x1F0 else 0x170.

Definition ata_400ns : A () :=
  forM [0; 1; 2; 3] (fun _ => _ ← port_in8 (ata_iobase 0 + STATUS); mret ()).

Definition ata_driveselect (drive lba : Z) : A () :=
  let v := 0xE0 in
  let v := if Z.land drive 1 =? 0 then v else Z.lor v 0x10 in
  let v := Z.lor v (Z.land (Z.shiftr lba 24) 0xf) in
  port_out8 (ata_iobase drive + DRV) v.

(** [n] turns are left; when they are used up, a poll without a time-out is the
    model's failure, one with a time-out answers -1. *)
Fixpoint poll_loop (n : nat) (forever : bool) (iobase : Z) (pio : bool) : A Z :=
  match n with
  | O => if forever then fail OutOfFuel else mret (-1)
  | S n =>
      v ← port_in8 (iobase + STATUS);
      if negb (Z.land v 0x80 =? 0) then poll_loop n forever iobase pio
      else if negb (Z.land v 0x40 =? 0) then mret 0
      else if pio && negb (Z.land v 0x08 =? 0) then mret 0
      else poll_loop n forever iobase pio
  end.

Definition ata_poll (drive timeout : Z) (pio : bool) : A Z :=
  poll_loop (if timeout <? 0 then S patience else Z.to_nat timeout) (timeout <? 0)
    (ata_iobase drive) pio.

(** ** Finding the drives *)

Definition ata_softreset (drive : Z) : A () :=
  let iobase := ata_iobase drive in
  port_out8 (iobase + CTRL) 4;;
  port_out8 (iobase + CTRL) 0;;
  ata_400ns;;
  _ ← ata_poll drive 10000 false; mret ().

Definition ata_detecttype (drive : Z) : A () :=
  ata_softreset drive;;
  ata_driveselect drive 0;;
  ata_400ns;;
  v ← port_in8 (ata_iobase drive + LBAmid);
  set_drive drive (fun d => d <| d_type :=
    if v =? 0 then DEV_PATA else if v =? 0x14 then DEV_PATAPI else DEV_UNKNOWN |>).

(** Reads the status until [f] holds of it. *)
Fixpoint wait_status (n : nat) (iobase : Z) (f : Z -> bool) : A Z :=
  match n with
  | O => fail OutOfFuel
  | S n => v ← port_in8 (iobase + STATUS); if f v then mret v else wait_status n iobase f
  end.

Definition ata_identify (drive : Z) : A bool :=
  let iobase := ata_iobase drive in
  ata_driveselect drive 0;;
  forM [2; 3; 4; 5] (fun i => port_out8 (iobase + i) 0);;
  d ← get_drive drive;
  match d_type d with
  | DEV_PATA => port_out8 (iobase + CMD) 0xEC
  | DEV_PATAPI => port_out8 (iobase + CMD) 0xA1
  | DEV_UNKNOWN => panic
  end;;
  v ← port_in8 (iobase + STATUS);
  if v =? 0 then mret false
  else
    _ ← wait_status (S patience) iobase (fun v => Z.land v 0x80 =? 0);
    v ← wait_status (S patience) iobase (fun v => negb (Z.land v 0x9 =? 0));
    if negb (Z.land (Z.land v 0x9) 1 =? 0) then mret false
    else
      data ← forZ 0 256 (fun _ l => v ← port_in16 iobase; mret (l ++ [v])) [];
      set_drive drive (fun d => d <| d_sectors :=
        u32 (Z.lor (default 0 (data !! 60%nat)) (Z.shiftl (default 0 (data !! 61%nat)) 16)) |>);;
      mret true.

Definition ata_init : A () :=
  forM [0; 1; 2; 3] (fun i =>
    ata_detecttype i;;
    d ← get_drive i;
    when (bool_decide (d_type d = DEV_PATA)) (_ ← ata_identify i; mret ())).

Definition ata_available (drive : Z) : A bool :=
  d ← get_drive drive; mret (negb (bool_decide (d_type d = DEV_UNKNOWN))).

(** The product is one of 32-bit numbers. *)
Definition ata_size (drive : Z) : A Z := d ← get_drive drive; mret (u32 (d_sectors d * 512)).

(** ** Reading *)

Definition is_pata (drive : Z) : A () :=
  d ← get_drive drive; if bool_decide (d_type d = DEV_PATA) then mret () else panic.

(** [byte] counts the bytes of all sectors. *)
Definition store_byte (len skip : Z) (byte x : Z) (buf : list Z) : res (list Z) :=
  if byte <? skip then Ok buf
  else if byte - skip <? len then bstore buf (byte - skip) [x] else Ok buf.

Definition read_word (iobase len skip i j : Z) (buf : list Z) : A (list Z) :=
  v ← port_in16 iobase;
  buf ← lift (store_byte len skip (u32 (i * 512 + j * 2)) (Z.land v 0xff) buf);
  lift (store_byte len skip (u32 (i * 512 + j * 2 + 1)) (Z.shiftr v 8) buf).

Definition read_sector (drive len skip i : Z) (buf : list Z) : A (list Z) :=
  _ ← ata_poll drive (-1) true;
  forZ 0 256 (read_word (ata_iobase drive) len skip i) buf.

(** How many sectors are asked for. *)
Definition read_cnt (len skip : Z) : Z :=
  let cnt := u32 (u64 (len - skip + 511) / 512) in
  if skip =? 0 then cnt else u32 (cnt + 1).

(** The registers of a transfer, and the command. *)
Definition ata_command (drive cnt lba cmd : Z) : A () :=
  let iobase := ata_iobase drive in
  port_out8 (iobase + SCNT) cnt;;
  port_out8 (iobase + LBAlo) lba;;
  port_out8 (iobase + LBAmid) (Z.shiftr lba 8);;
  port_out8 (iobase + LBAhi) (Z.shiftr lba 16);;
  port_out8 (iobase + CMD) cmd.

(** The buffer and the result. *)
Definition ata_read (drive : Z) (buf : list Z) (len off : Z) : A (list Z * Z) :=
  is_pata drive;;
  let lba := u32 (off / 512) in
  let skip := off mod 512 in
  let cnt := read_cnt len skip in
  ata_driveselect drive (s32 lba);;
  ata_400ns;;
  _ ← ata_poll drive (-1) false;
  ata_command drive cnt lba 0x20;;
  buf ← forZ 0 (Z.to_nat cnt) (read_sector drive len skip) buf;
  mret (buf, s32 len).

(** ** Writing *)

Definition write_word (iobase : Z) (buf : list Z) (i j : Z) (x : ()) : A () :=
  w ← lift (bload buf (2 * u32 (i * 256 + j)) 2);
  port_out16 iobase (default 0 (w !! 0%nat) + 256 * default 0 (w !! 1%nat)).

Definition write_sector (drive : Z) (buf : list Z) (i : Z) (x : ()) : A () :=
  _ ← ata_poll drive (-1) true;
  forZ 0 256 (write_word (ata_iobase drive) buf i) ().

Definition ata_rawwrite (drive : Z) (buf : list Z) (lba cnt : Z) : A () :=
  ata_driveselect drive (s32 lba);;
  ata_400ns;;
  _ ← ata_poll drive (-1) false;
  port_out8 (ata_iobase drive + FEAT) 0;;
  ata_command drive cnt lba 0x30;;
  forZ 0 (Z.to_nat cnt) (write_sector drive buf) ();;
  _ ← ata_poll drive (-1) false;
  port_out8 (ata_iobase drive + CMD) 0xE7.

(** [sec] is the array on the stack. *)
Definition write_head (drive : Z) (sec buf : list Z) (len off : Z) : A (list Z * Z) :=
  let clen := Z.min len (512 - off mod 512) in
  '(sec, _) ← ata_read drive sec 512 (off / 512);
  data ← lift (bload buf 0 clen);
  sec ← lift (bstore sec (off mod 512) data);
  ata_rawwrite drive sec (u32 (off / 512)) 1;;
  mret (sec, clen).

Definition write_tail (drive : Z) (sec buf : list Z) (len off : Z) : A () :=
  '(sec, _) ← ata_read drive sec 512 (off / 512);
  data ← lift (bload buf 0 len);
  sec ← lift (bstore sec 0 data);
  ata_rawwrite drive sec (u32 (off / 512)) 1.

Definition ata_write (drive : Z) (sec buf : list Z) (len off : Z) : A Z :=
  is_pata drive;;
  '(sec, clen) ← (if Z.land off 511 =? 0 then mret (sec, 0) else write_head drive sec buf len off);
  let off := u64 (off + clen) in
  let buf := drop (Z.to_nat clen) buf in
  let len := len - clen in
  when (512 <=? len) (ata_rawwrite drive buf (u32 (off / 512)) (u32 (len / 512)));;
  let whole := Z.land len (Z.lnot 511) in
  when (negb (Z.land len 511 =? 0))
    (write_tail drive sec (drop (Z.to_nat whole) buf) (Z.land len 511) (u64 (off + whole)));;
  mret 0.
End driver.

(** ** What a drive promises

    A channel as its documentation describes it: two drives (the second one is
    the slave), the registers of a command, and the transfer in progress.  Data
    goes over the port word by word, in the order of the disk. *)

Inductive transfer :=
| Idle
| Reading (rest : list Z)                       (* what is still to be fetched *)
| Writing (lba cnt : Z) (acc : list Z).         (* of the sector [lba] *)

Record channel := mkChan {
  c_slave : bool;
  c_scnt : Z; c_lo : Z; c_mid : Z; c_hi : Z; c_top : Z;
  c_mode : transfer;
  c_disk0 : option (list Z); c_disk1 : option (list Z);
}.

#[export] Instance channel_settable : Settable channel := fun c =>
  mkChan (c_slave c) (c_scnt c) (c_lo c) (c_mid c) (c_hi c) (c_top c) (c_mode c) (c_disk0 c) (c_disk1 c).

(** The disk of the slave or the master, if there is one. *)
Definition c_disk (c : channel) (s : bool) : option (list Z) := if s then c_disk1 c else c_disk0 c.

(** The sector a command is about, of 28 bits; a count of 0 stands for 256. *)
Definition chan_lba (c : channel) : Z :=
  c_lo c + 2 ^ 8 * c_mid c + 2 ^ 16 * c_hi c + 2 ^ 24 * c_top c.
Definition chan_cnt (c : channel) : Z := if c_scnt c =? 0 then 256 else c_scnt c.

Definition selected (c : channel) : option (list Z) := c_disk c (c_slave c).

Definition sectors (disk : list Z) (lba n : Z) : list Z :=
  take (Z.to_nat (512 * n)) (drop (Z.to_nat (512 * lba)) disk).

Definition set_disk (c : channel) (disk : list Z) : channel :=
  if c_slave c then c <| c_disk1 := Some disk |> else c <| c_disk0 := Some disk |>.

(** Commands; [None] is what is not documented. *)
Definition chan_command (v : Z) (c : channel) : option channel :=
  disk ← selected c;
  if v =? 0xE7 then Some c
  else if 512 * (chan_lba c + chan_cnt c) <=? Z.of_nat (length disk) then
    if v =? 0x20 then Some (c <| c_mode := Reading (sectors disk (chan_lba c) (chan_cnt c)) |>)
    else if v =? 0x30 then Some (c <| c_mode := Writing (chan_lba c) (chan_cnt c) [] |>)
    else None
  else None.

(** A byte written to a register while no transfer is in progress. *)
Definition chan_out8 (r v : Z) (c : channel) : option channel :=
  match c_mode c with
  | Idle =>
      if r =? FEAT then Some c
      else if r =? SCNT then Some (c <| c_scnt := v |>)
      else if r =? LBAlo then Some (c <| c_lo := v |>)
      else if r =? LBAmid then Some (c <| c_mid := v |>)
      else if r =? LBAhi then Some (c <| c_hi := v |>)
      else if r =? DRV then
        if Z.testbit v 6 then Some (c <| c_slave := Z.testbit v 4 |> <| c_top := Z.land v 15 |>)
        else None
      else if r =? CMD then chan_command v c
      else None
  | _ => None
  end.

(** A word fetched, and one stored; a sector goes to the disk when it is
    complete. *)
Definition fetched (rest : list Z) : transfer :=
  match rest with [] => Idle | _ => Reading rest end.

Definition chan_in16 (c : channel) : option (Z * channel) :=
  match c_mode c with
  | Reading (a :: b :: rest) => Some (a + 256 * b, c <| c_mode := fetched rest |>)
  | _ => None
  end.

Definition chan_out16 (v : Z) (c : channel) : option channel :=
  match c_mode c, selected c with
  | Writing lba cnt acc, Some disk =>
      let acc := acc ++ [Z.land v 0xff; Z.shiftr v 8] in
      if Z.of_nat (length acc) <? 512 then Some (c <| c_mode := Writing lba cnt acc |>)
      else
        Some (set_disk c (splice (Z.to_nat (512 * lba)) acc disk)
                <| c_mode := if cnt =? 1 then Idle else Writing (lba + 1) (cnt - 1) [] |>)
  | _, _ => None
  end.

(** The device works for a while after a command and between sectors only: not
    in the middle of one, and not after the last sector of a read. *)
Definition stays_ready (m : transfer) : bool :=
  match m with
  | Idle => true
  | Reading rest => negb (Z.of_nat (length rest) mod 512 =? 0)
  | Writing _ _ acc => negb (bool_decide (acc = []))
  end.

Definition base (secondary : bool) : Z := if secondary then 0x170 else 0x1F0.

(** [busy]: how many more times the status will be read as busy. *)
Class Drives (W : Type) `{Ports W} := {
  chan : bool -> W -> channel;
  busy : bool -> W -> nat;
  busy_patience s w : (busy s w <= patience)%nat;
  in8_chan s w t : chan t (in8 (base s + STATUS) w).1 = chan t w;
  in8_busy s w : busy s (in8 (base s + STATUS) w).1 = pred (busy s w);
  in8_status s w : is_Some (selected (chan s w)) ->
    let v := (in8 (base s + STATUS) w).2 in
    if bool_decide (busy s w = 0%nat) then
      Z.land v 0x80 = 0 /\
      match c_mode (chan s w) with
      | Idle => Z.land v 0x40 <> 0
      | _ => Z.land v 0x08 <> 0
      end
    else Z.land v 0x80 <> 0;
  out8_chan s r v w c : busy s w = 0%nat -> chan_out8 r v (chan s w) = Some c ->
    let w' := out8 (base s + r) v w in
    chan s w' = c /\ chan (negb s) w' = chan (negb s) w /\ (r <> CMD -> busy s w' = 0%nat);
  in16_chan s w v c : busy s w = 0%nat -> chan_in16 (chan s w) = Some (v, c) ->
    let '(w', v') := in16 (base s) w in
    v' = v /\ chan s w' = c /\ chan (negb s) w' = chan (negb s) w /\
    (stays_ready (c_mode c) = true -> busy s w' = 0%nat);
  out16_chan s v w c : busy s w = 0%nat -> chan_out16 v (chan s w) = Some c ->
    let w' := out16 (base s) v w in
    chan s w' = c /\ chan (negb s) w' = chan (negb s) w /\
    (c_mode c <> Idle -> stays_ready (c_mode c) = true -> busy s w' = 0%nat);
}.

(** ** The driver on such a drive *)

Section drives.
Context {W : Type} `{Drives W} {E : Type}.
Implicit Types s : ata W.

Abbreviation A := (ST (ata W) E).

Definition secondary (drive : Z) : bool := negb (Z.land drive 2 =? 0).
Definition slave (drive : Z) : bool := negb (Z.land drive 1 =? 0).
Definition chan_of (drive : Z) (s : ata W) : channel := chan (secondary drive) (world s).
Definition busy_of (drive : Z) (s : ata W) : nat := busy (secondary drive) (world s).

Lemma iobase_base drive : ata_iobase drive = base (secondary drive).
Proof. unfold ata_iobase, base, secondary. by destruct (_ =? 0). Qed.

(** The state has changed in the channel of [drive] only, to [c] and at rest. *)
Record at_chan (drive : Z) (s0 : ata W) (c : channel) (s : ata W) : Prop := {
  at_c : chan_of drive s = c;
  at_other : chan (negb (secondary drive)) (world s) = chan (negb (secondary drive)) (world s0);
  at_drives : ata_drives s = ata_drives s0;
}.

Lemma out8_runs drive s0 r v c c' s (Q : () -> ata W -> Prop) :
  at_chan drive s0 c s -> busy_of drive s = 0%nat -> chan_out8 r (u8 v) c = Some c' ->
  (forall s', at_chan drive s0 c' s' -> (r <> CMD -> busy_of drive s' = 0%nat) -> Q () s') ->
  runs (port_out8 (E := E) (ata_iobase drive + r) v) s Q.
Proof.
  intros [Hc Ho Hd] Hb Hv HQ. rewrite iobase_base. apply runs_modify, HQ.
  - destruct (out8_chan (secondary drive) r (u8 v) (world s) c') as (E1&E2&_);
      [done|by unfold chan_of in Hc; rewrite Hc|].
    split; [exact E1|etrans; [exact E2|done]|done].
  - intros Hr. destruct (out8_chan (secondary drive) r (u8 v) (world s) c') as (_&_&E3);
      [done|by unfold chan_of in Hc; rewrite Hc|]. by apply E3.
Qed.

(** The end of a poll. *)
Lemma poll_runs drive s0 c pio s :
  at_chan drive s0 c s -> is_Some (selected c) -> (pio = true \/ c_mode c = Idle) ->
  runs (ata_poll (E := E) drive (-1) pio) s (fun r s' => at_chan drive s0 c s' /\ busy_of drive s' = 0%nat).
Proof.
  intros Hat Hsel Hm. unfold ata_poll. rewrite iobase_base. cbn -[poll_loop].
  pose proof (busy_patience (secondary drive) (world s)) as Hp.
  remember (busy (secondary drive) (world s)) as n eqn:En.
  assert (n < S patience)%nat as Hlt by lia. clear Hp. revert s Hat n En Hlt.
  induction (S patience) as [|k IH]; intros s [Hc Ho Hd] n En Hlt; [lia|].
  cbn [poll_loop]. apply runs_bind. unfold port_in8, runs.
  pose proof (in8_chan (secondary drive) (world s)) as Hch.
  pose proof (in8_busy (secondary drive) (world s)) as Hbu.
  pose proof (in8_status (secondary drive) (world s)) as Hst.
  destruct (in8 (base (secondary drive) + STATUS) (world s)) as [w v]. cbn in *.
  unfold chan_of in Hc. rewrite Hc in Hst. specialize (Hst Hsel).
  assert (at_chan drive s0 c (s <| world := w |>)) as Hat'.
  { split; [unfold chan_of; cbn; by rewrite Hch|cbn; by rewrite Hch|done]. }
  rewrite <- En in Hst, Hbu. case_bool_decide as Hn; subst n.
  - destruct Hst as [H80 Hst]. rewrite (proj2 (Z.eqb_eq _ _) H80). cbn [negb].
    assert (at_chan drive s0 c (s <| world := w |>) /\ busy_of drive (s <| world := w |>) = 0%nat) as Hend.
    { split; [done|]. unfold busy_of. cbn. by rewrite Hbu, Hn. }
    destruct (Z.land v 64 =? 0) eqn:H40; cbn [negb]; [|exact Hend].
    zbool. destruct Hm as [->|Hm]; [|rewrite Hm in Hst; done]. cbn [andb].
    destruct (c_mode c); [done| |]; by rewrite (proj2 (Z.eqb_neq _ _) Hst).
  - rewrite (proj2 (Z.eqb_neq _ _) Hst). cbn [negb].
    eapply (IH _ Hat' _ eq_refl). unfold busy_of. cbn. rewrite Hbu. lia.
Qed.

(** Reading the status of whichever channel is no more than time passing. *)
Lemma wait_runs drive s0 c s :
  at_chan drive s0 c s -> runs (ata_400ns (E := E)) s (fun _ s' => at_chan drive s0 c s').
Proof.
  intros Hat. unfold ata_400ns. change (ata_iobase 0) with (base false).
  generalize [0; 1; 2; 3] as l. intros l. revert s Hat. induction l as [|x l IH]; intros s Hat; cbn [forM].
  { by apply runs_ret. }
  apply runs_bind, runs_bind. unfold port_in8, runs.
  pose proof (in8_chan false (world s)) as Hch.
  destruct (in8 (base false + STATUS) (world s)) as [w v]. apply IH.
  destruct Hat as [Hc Ho Hd]. unfold chan_of in *. cbn in *. split; unfold chan_of; cbn; by rewrite ?Hch.
Qed.

Lemma in16_runs drive s0 a b rest c s (Q : Z -> ata W -> Prop) :
  at_chan drive s0 c s -> busy_of drive s = 0%nat -> c_mode c = Reading (a :: b :: rest) ->
  (forall s', at_chan drive s0 (c <| c_mode := fetched rest |>) s' ->
     (stays_ready (fetched rest) = true -> busy_of drive s' = 0%nat) -> Q (a + 256 * b) s') ->
  runs (port_in16 (E := E) (ata_iobase drive)) s Q.
Proof.
  intros [Hc Ho Hd] Hb Hm HQ. rewrite iobase_base. unfold port_in16, runs.
  pose proof (in16_chan (secondary drive) (world s) (a + 256 * b) (c <| c_mode := fetched rest |>)) as Hi.
  destruct (in16 (base (secondary drive)) (world s)) as [w v].
  destruct Hi as (->&E1&E2&E3); [done|unfold chan_of in Hc; rewrite Hc; unfold chan_in16; by rewrite Hm|].
  apply HQ; [|exact E3]. split; [exact E1|cbn; etrans; [exact E2|done]|done].
Qed.

Lemma out16_runs drive s0 v c c' s (Q : () -> ata W -> Prop) :
  at_chan drive s0 c s -> busy_of drive s = 0%nat -> chan_out16 (u16 v) c = Some c' ->
  (forall s', at_chan drive s0 c' s' ->
     (c_mode c' <> Idle -> stays_ready (c_mode c') = true -> busy_of drive s' = 0%nat) -> Q () s') ->
  runs (port_out16 (E := E) (ata_iobase drive) v) s Q.
Proof.
  intros [Hc Ho Hd] Hb Hv HQ. rewrite iobase_base. apply runs_modify, HQ.
  - destruct (out16_chan (secondary drive) (u16 v) (world s) c') as (E1&E2&_);
      [done|by unfold chan_of in Hc; rewrite Hc|].
    split; [exact E1|etrans; [exact E2|done]|done].
  - destruct (out16_chan (secondary drive) (u16 v) (world s) c') as (_&_&E3);
      [done|by unfold chan_of in Hc; rewrite Hc|]. exact E3.
Qed.

(** ** Addressing *)

Definition addressed (drive cnt lba : Z) (c : channel) : channel :=
  mkChan (slave drive) (u8 cnt) (u8 lba) (u8 (Z.shiftr lba 8)) (u8 (Z.shiftr lba 16))
    (Z.land (Z.shiftr lba 24) 15) (c_mode c) (c_disk0 c) (c_disk1 c).

Lemma addressed_lba drive cnt lba c : 0 <= lba < 2 ^ 28 -> chan_lba (addressed drive cnt lba c) = lba.
Proof.
  intros Hl. unfold chan_lba, addressed. cbn -[Z.mul Z.add Z.pow u8 Z.shiftr Z.land].
  change 15 with (Z.ones 4). rewrite Z.land_ones, !Z.shiftr_div_pow2 by lia.
  unfold u8. Z.div_mod_to_equations. lia.
Qed.

Lemma addressed_cnt drive cnt lba c : 1 <= cnt <= 256 -> chan_cnt (addressed drive cnt lba c) = cnt.
Proof. intros Hc. unfold chan_cnt. cbn. unfold u8. cases; zbool; Z.div_mod_to_equations; lia. Qed.

(** The bits of the device register. *)
Lemma device_register drive lba :
  let v := u8 (Z.lor (if Z.land drive 1 =? 0 then 0xE0 else Z.lor 0xE0 0x10)
                 (Z.land (Z.shiftr lba 24) 0xf)) in
  Z.testbit v 6 = true /\ Z.testbit v 4 = slave drive /\ Z.land v 15 = Z.land (Z.shiftr lba 24) 15.
Proof.
  unfold slave. assert (0 <= Z.land (Z.shiftr lba 24) 15 < 16) as Hx.
  { change 15 with (Z.ones 4). rewrite Z.land_ones by lia. apply Z.mod_pos_bound. lia. }
  remember (Z.land (Z.shiftr lba 24) 15) as x. clear Heqx.
  assert (x ∈ seqZ 0 16) as Hin by (apply elem_of_seqZ; lia). clear Hx. revert x Hin.
  apply Forall_forall.
  destruct (Z.land drive 1 =? 0); repeat (apply Forall_cons; split; [by vm_compute|]); apply Forall_nil, I.
Qed.

Lemma select_runs drive s0 c lba s (Q : () -> ata W -> Prop) :
  at_chan drive s0 c s -> busy_of drive s = 0%nat -> c_mode c = Idle -> 0 <= lba < 2 ^ 28 ->
  (forall s', at_chan drive s0 (c <| c_slave := slave drive |> <| c_top := Z.land (Z.shiftr lba 24) 15 |>) s' -> Q () s') ->
  runs (ata_driveselect (E := E) drive (s32 lba)) s Q.
Proof.
  intros Hat Hb Hm Hl HQ. unfold ata_driveselect. rewrite s32_small by lia.
  destruct (device_register drive lba) as (H6&H4&H15).
  eapply out8_runs; [exact Hat|exact Hb| |intros s' Hs' _; by apply HQ].
  unfold chan_out8. rewrite Hm. cbn -[u8 Z.lor Z.land Z.shiftr Z.testbit]. by rewrite H6, H4, H15.
Qed.

(** Up to the point where the registers can be written. *)
Lemma prepare_runs {B} drive s0 c disk lba s (Q : B -> ata W -> Prop) (k : ST (ata W) E B) :
  at_chan drive s0 c s -> busy_of drive s = 0%nat -> c_mode c = Idle -> 0 <= lba < 2 ^ 28 ->
  c_disk c (slave drive) = Some disk ->
  (forall s', at_chan drive s0 (c <| c_slave := slave drive |> <| c_top := Z.land (Z.shiftr lba 24) 15 |>) s' ->
     busy_of drive s' = 0%nat -> runs k s' Q) ->
  runs (ata_driveselect (E := E) drive (s32 lba);; ata_400ns;; _ ← ata_poll drive (-1) false; k) s Q.
Proof.
  intros Hat Hb Hm Hl Hd Hk. apply runs_bind, (select_runs drive s0 c); [done..|].
  intros s1 H1. apply runs_bind. eapply runs_mono; [by apply (wait_runs drive s0)|].
  intros [] s2 H2. apply runs_bind. eapply runs_mono; [apply (poll_runs drive s0)|].
  - exact H2.
  - exists disk. exact Hd.
  - by right.
  - intros r s3 [H3 Hb3]. by apply Hk.
Qed.

(** The registers, and the command. *)
Lemma command_runs drive s0 c cnt lba cmd c' s :
  at_chan drive s0 (c <| c_slave := slave drive |> <| c_top := Z.land (Z.shiftr lba 24) 15 |>) s ->
  busy_of drive s = 0%nat -> c_mode c = Idle ->
  chan_command (u8 cmd) (addressed drive cnt lba c) = Some c' ->
  runs (ata_command (E := E) drive cnt lba cmd) s (fun _ s' => at_chan drive s0 c' s').
Proof.
  intros Hat Hb Hm Hcmd. unfold ata_command.
  apply runs_bind. eapply out8_runs; [exact Hat|exact Hb|unfold chan_out8; cbn; by rewrite Hm|].
  intros s1 H1 B1. specialize (B1 ltac:(done)).
  apply runs_bind. eapply out8_runs; [exact H1|exact B1|unfold chan_out8; cbn; by rewrite Hm|].
  intros s2 H2 B2. specialize (B2 ltac:(done)).
  apply runs_bind. eapply out8_runs; [exact H2|exact B2|unfold chan_out8; cbn; by rewrite Hm|].
  intros s3 H3 B3. specialize (B3 ltac:(done)).
  apply runs_bind. eapply out8_runs; [exact H3|exact B3|unfold chan_out8; cbn; by rewrite Hm|].
  intros s4 H4 B4. specialize (B4 ltac:(done)).
  eapply out8_runs; [exact H4|exact B4| |intros s5 H5 _; exact H5].
  unfold chan_out8; cbn -[chan_command u8]. rewrite Hm. exact Hcmd.
Qed.

(** ** Reading *)

(** The buffer when the first [p] bytes of the sectors have come. *)
Definition filled (len skip : Z) (data : list Z) (p : Z) (buf : list Z) : list Z :=
  splice 0 (take (Z.to_nat (Z.min len (p - skip))) (drop (Z.to_nat skip) data)) buf.

Lemma store_byte_filled len skip data p x buf :
  0 <= skip -> 0 <= p -> len <= Z.of_nat (length buf) -> data !! Z.to_nat p = Some x ->
  store_byte len skip p x (filled len skip data p buf) = Ok (filled len skip data (p + 1) buf).
Proof.
  intros Hs Hp Hl Hx. pose proof (lookup_lt_Some _ _ _ Hx) as Hlt.
  unfold store_byte, filled. destruct (Z.ltb_spec p skip).
  { replace (Z.to_nat (Z.min len (p - skip))) with 0%nat by lia.
    by replace (Z.to_nat (Z.min len (p + 1 - skip))) with 0%nat by lia. }
  destruct (Z.ltb_spec (p - skip) len) as [Hi|Hi]; [|do 3 f_equal; lia].
  replace (Z.to_nat (Z.min len (p - skip))) with (Z.to_nat (p - skip)) by lia.
  replace (Z.to_nat (Z.min len (p + 1 - skip))) with (S (Z.to_nat (p - skip))) by lia.
  remember (Z.to_nat (p - skip)) as n. remember (drop (Z.to_nat skip) data) as l.
  assert (l !! n = Some x) as Hln by (subst; rewrite lookup_drop, <- Hx; f_equal; lia).
  pose proof (lookup_lt_Some _ _ _ Hln) as Hn.
  assert (length (take n l) = n) as Ht by (rewrite length_take; lia).
  rewrite bstore_in; [|lia|rewrite length_splice; cbn; lia].
  f_equal. rewrite <- Heqn, (take_S_r _ _ _ Hln). apply list_eq. intros i.
  assert (length (take n l ++ [x]) = S n) as Ht' by (rewrite length_app, Ht; cbn; lia).
  destruct (decide (i = n)) as [->|Hne].
  - rewrite splice_lookup_in by (rewrite ?length_splice; cbn; lia).
    rewrite splice_lookup_in by lia.
    rewrite Nat.sub_0_r, lookup_app_r, Ht, Nat.sub_diag by lia. done.
  - rewrite splice_lookup_out by (rewrite ?length_splice; cbn; lia).
    destruct (decide (i < n)%nat).
    + rewrite !splice_lookup_in by lia. rewrite lookup_app_l by lia. done.
    + rewrite !splice_lookup_out by lia. done.
Qed.

(** The words that are still to come, from the byte [p] on. *)
Definition reading_from (data : list Z) (p : Z) (c : channel) : channel :=
  c <| c_mode := fetched (drop (Z.to_nat p) data) |>.

Record reading (drive : Z) (s0 : ata W) (c : channel) (len skip : Z) (data buf0 : list Z)
    (p : Z) (buf : list Z) (s : ata W) : Prop := {
  rd_at : at_chan drive s0 (reading_from data p c) s;
  rd_busy : stays_ready (fetched (drop (Z.to_nat p) data)) = true -> busy_of drive s = 0%nat;
  rd_buf : buf = filled len skip data p buf0;
}.

Lemma words_of (data : list Z) p :
  0 <= p -> p + 1 < Z.of_nat (length data) ->
  exists a b, data !! Z.to_nat p = Some a /\ data !! Z.to_nat (p + 1) = Some b /\
    drop (Z.to_nat p) data = a :: b :: drop (Z.to_nat (p + 2)) data.
Proof.
  intros Hp Hp1.
  destruct (lookup_lt_is_Some_2 data (Z.to_nat p)) as [a Ha]; [lia|].
  destruct (lookup_lt_is_Some_2 data (Z.to_nat (p + 1))) as [b Hb]; [lia|].
  exists a, b. split; [done|]. split; [done|].
  rewrite (drop_S _ _ _ Ha). replace (S (Z.to_nat p)) with (Z.to_nat (p + 1)) by lia.
  rewrite (drop_S _ _ _ Hb). by replace (S (Z.to_nat (p + 1))) with (Z.to_nat (p + 2)) by lia.
Qed.

Lemma word_halves a b :
  is_byte a -> is_byte b -> Z.land (a + 256 * b) 0xff = a /\ Z.shiftr (a + 256 * b) 8 = b.
Proof.
  intros Ha Hb. change 0xff with (Z.ones 8). rewrite Z.land_ones, Z.shiftr_div_pow2 by lia.
  unfold is_byte in *. Z.div_mod_to_equations. lia.
Qed.

Lemma read_word_runs drive s0 c len skip data buf0 i j buf s :
  0 <= skip -> len <= Z.of_nat (length buf0) -> Forall is_byte data ->
  0 <= i -> 0 <= j -> 512 * i + 2 * j + 1 < Z.of_nat (length data) < 2 ^ 32 ->
  reading drive s0 c len skip data buf0 (512 * i + 2 * j) buf s -> busy_of drive s = 0%nat ->
  runs (read_word (E := E) (ata_iobase drive) len skip i j buf) s
    (reading drive s0 c len skip data buf0 (512 * i + 2 * (j + 1))).
Proof.
  intros Hs Hl Hby Hi Hj Hd [Hat _ ->] Hb.
  destruct (words_of data (512 * i + 2 * j)) as (a&b&Ha&Hb'&Hdr); [lia..|].
  destruct (word_halves a b) as [Elo Ehi]; [by eapply Forall_lookup_1..|].
  unfold read_word. apply runs_bind.
  eapply in16_runs; [exact Hat|exact Hb|unfold reading_from; cbn; by rewrite Hdr|].
  intros s1 H1 B1. rewrite Elo, Ehi.
  rewrite !u32_small by lia. replace (i * 512 + j * 2) with (512 * i + 2 * j) by lia.
  apply runs_bind. eapply runs_lift; [by apply store_byte_filled; lia || done|].
  eapply runs_lift; [apply store_byte_filled; lia || done|].
  replace (512 * i + 2 * (j + 1)) with (512 * i + 2 * j + 2) by lia.
  split; [exact H1|exact B1|]. f_equal. lia.
Qed.

Lemma ready_inside (data : list Z) cnt i j :
  Z.of_nat (length data) = 512 * cnt -> 0 <= i < cnt -> 0 <= j < 256 -> 0 < j ->
  stays_ready (fetched (drop (Z.to_nat (512 * i + 2 * j)) data)) = true.
Proof.
  intros Hl Hi Hj Hj0. destruct (drop _ data) as [|x l] eqn:Ed; [done|].
  apply (f_equal length) in Ed. rewrite length_drop in Ed. cbn [stays_ready fetched].
  rewrite negb_true_iff. apply Z.eqb_neq. rewrite <- Ed. Z.div_mod_to_equations. lia.
Qed.

Lemma read_sector_runs drive s0 c disk len skip data buf0 cnt i buf s :
  0 <= skip -> len <= Z.of_nat (length buf0) -> Forall is_byte data ->
  Z.of_nat (length data) = 512 * cnt -> 0 <= i < cnt -> cnt <= 256 -> selected c = Some disk ->
  reading drive s0 c len skip data buf0 (512 * i) buf s ->
  runs (read_sector (E := E) drive len skip i buf) s
    (reading drive s0 c len skip data buf0 (512 * (i + 1))).
Proof.
  intros Hs Hl Hby Hd Hi Hc Hsel [Hat _ Hbuf]. unfold read_sector.
  apply runs_bind. eapply runs_mono; [apply (poll_runs drive s0); [exact Hat|by exists disk|by left]|].
  intros _ s1 [H1 B1]. replace (512 * (i + 1)) with (512 * i + 2 * (0 + Z.of_nat 256)) by lia.
  eapply runs_mono; [apply (forZ_rule _ (fun j buf s =>
    reading drive s0 c len skip data buf0 (512 * i + 2 * j) buf s /\ (j < 256 -> busy_of drive s = 0%nat)))|].
  - intros j b s2 Hj [H2 B2]. assert (j < 256) as Hj' by (change (Z.of_nat 256) with 256 in Hj; lia).
    eapply runs_mono; [apply read_word_runs; try done; [lia..|by apply B2]|].
    intros b3 s3 H3. split; [done|]. intros Hlt. apply H3. eapply ready_inside; [done|lia..].
  - rewrite Z.mul_0_r, Z.add_0_r. split; [|done]. by split.
  - intros b s2 [H2 _]. exact H2.
Qed.

(** A drive that is at rest and holds [disk]. *)
Record disk_at (drive : Z) (disk : list Z) (s : ata W) : Prop := {
  da_drive : 0 <= drive;
  da_type : exists d, ata_drives s !! Z.to_nat drive = Some d /\ d_type d = DEV_PATA;
  da_mode : c_mode (chan_of drive s) = Idle;
  da_busy : busy_of drive s = 0%nat;
  da_disk : c_disk (chan_of drive s) (slave drive) = Some disk;
  da_bytes : Forall is_byte disk;
}.

Lemma is_pata_runs drive disk s : disk_at drive disk s -> runs (is_pata (E := E) drive) s (fun _ s' => s' = s).
Proof.
  intros [Hdr (d&Hd&Ht) _ _ _ _]. unfold is_pata, get_drive. apply runs_bind, runs_bind, runs_get.
  rewrite (proj2 (Z.leb_le _ _)), Hd by done. cbn. by rewrite bool_decide_true by done.
Qed.

Lemma read_cnt_eq len skip :
  0 <= len < 2 ^ 32 -> 0 <= skip < 512 ->
  read_cnt len skip = (len - skip + 511) / 512 + (if skip =? 0 then 0 else 1).
Proof. intros Hl Hs. unfold read_cnt. cases; zbool; unfold_words; Z.div_mod_to_equations; lia. Qed.

Lemma sectors_length (disk : list Z) lba n :
  0 <= lba -> 0 <= n -> 512 * (lba + n) <= Z.of_nat (length disk) ->
  Z.of_nat (length (sectors disk lba n)) = 512 * n.
Proof. intros Hl Hn Hd. unfold sectors. rewrite length_take, length_drop. lia. Qed.

Lemma filled_end len (disk buf : list Z) lba cnt skip :
  0 <= lba -> 0 <= skip -> 0 <= cnt ->
  filled len skip (sectors disk lba cnt) (512 * cnt) buf =
  splice 0 (take (Z.to_nat (Z.min len (512 * cnt - skip))) (drop (Z.to_nat (512 * lba + skip)) disk)) buf.
Proof.
  intros Hl Hs Hc. unfold filled, sectors. f_equal. apply list_eq; intros k.
  destruct (decide (k < Z.to_nat (Z.min len (512 * cnt - skip)))%nat).
  - rewrite !lookup_take_lt, !lookup_drop, lookup_take_lt, lookup_drop by lia. f_equal. lia.
  - by rewrite !lookup_take_ge by lia.
Qed.

(** The channel after a transfer: the registers are the transfer's, and the
    disks may differ. *)
Definition done_with (drive cnt lba : Z) (c : channel) : channel :=
  addressed drive cnt lba c <| c_mode := Idle |>.

Lemma transfer_command drive disk cnt lba c :
  c_disk c (slave drive) = Some disk -> 0 <= lba < 2 ^ 28 -> 1 <= cnt <= 256 ->
  512 * (lba + cnt) <= Z.of_nat (length disk) ->
  chan_command (u8 0x20) (addressed drive cnt lba c) =
    Some (addressed drive cnt lba c <| c_mode := Reading (sectors disk lba cnt) |>) /\
  chan_command (u8 0x30) (addressed drive cnt lba c) =
    Some (addressed drive cnt lba c <| c_mode := Writing lba cnt [] |>).
Proof.
  intros Hd Hl Hc Hin. unfold chan_command.
  assert (selected (addressed drive cnt lba c) = Some disk) as -> by exact Hd.
  change (u8 0x20) with 0x20. change (u8 0x30) with 0x30.
  rewrite addressed_lba, addressed_cnt by done. cbn [mbind option_bind].
  by rewrite (proj2 (Z.leb_le _ _)) by lia.
Qed.

Lemma fetched_sectors (disk : list Z) lba cnt :
  0 <= lba -> 1 <= cnt -> 512 * (lba + cnt) <= Z.of_nat (length disk) ->
  fetched (sectors disk lba cnt) = Reading (sectors disk lba cnt).
Proof.
  intros Hl Hc Hd. pose proof (sectors_length disk lba cnt Hl ltac:(lia) Hd) as H1.
  destruct (sectors disk lba cnt); [cbn in H1; lia|done].
Qed.

Lemma ata_read_at drive disk buf len off s :
  disk_at drive disk s -> 0 < len < 2 ^ 31 -> len <= Z.of_nat (length buf) -> 0 <= off < 2 ^ 37 ->
  let lba := off / 512 in
  let cnt := read_cnt len (off mod 512) in
  cnt <= 256 -> 512 * (lba + cnt) <= Z.of_nat (length disk) ->
  runs (ata_read (E := E) drive buf len off) s (fun r s' =>
    r = (splice 0 (take (Z.to_nat (Z.min len (512 * cnt - off mod 512))) (drop (Z.to_nat off) disk)) buf, len) /\
    at_chan drive s (done_with drive cnt lba (chan_of drive s)) s' /\ busy_of drive s' = 0%nat).
Proof.
  intros Hda Hlen Hbuf Hoff lba cnt Hc Hin.
  pose proof Hda as [Hdr _ Hm Hb Hdk Hby].
  pose proof (Z.mod_pos_bound off 512 ltac:(lia)) as Hsk.
  assert (0 <= lba < 2 ^ 28) as Hlba by (subst lba; Z.div_mod_to_equations; lia).
  assert (1 <= cnt) as Hc1.
  { subst cnt. rewrite read_cnt_eq by lia. cases; zbool; Z.div_mod_to_equations; lia. }
  unfold ata_read. fold lba. rewrite (u32_small lba) by lia. fold cnt.
  apply runs_bind. eapply runs_mono; [by eapply is_pata_runs|]. intros _ ? ->.
  pose proof (sectors_length disk lba cnt ltac:(lia) ltac:(lia) Hin) as Hsl.
  apply (prepare_runs drive s (chan_of drive s) disk); [by split|done..|].
  intros s1 H1 B1. apply runs_bind. eapply runs_mono.
  { apply (command_runs drive s (chan_of drive s)); [exact H1|exact B1|exact Hm|].
    apply (transfer_command drive disk); lia || done. }
  intros [] s2 H2. apply runs_bind. eapply runs_mono.
  { apply (forZ_rule _ (fun i => reading drive s (addressed drive cnt lba (chan_of drive s)) len
       (off mod 512) (sectors disk lba cnt) buf (512 * i))).
    - intros i b s3 Hi H3. eapply read_sector_runs; [lia|lia| |exact Hsl|lia|done|exact Hdk|done].
      unfold sectors. by apply Forall_take, Forall_drop.
    - rewrite Z.mul_0_r. split; [unfold reading_from| |]; change (Z.to_nat 0) with 0%nat; rewrite ?drop_0.
      + by rewrite fetched_sectors by lia.
      + rewrite fetched_sectors by lia. cbn [stays_ready].
        rewrite Hsl, Z.mul_comm, Z.mod_mul by lia. done.
      + unfold filled. by replace (Z.to_nat (Z.min len (0 - off mod 512))) with 0%nat by lia. }
  rewrite Z.add_0_l, Z2Nat.id by lia. intros b s3 [H3 B3 ->].
  assert (drop (Z.to_nat (512 * cnt)) (sectors disk lba cnt) = []) as Hend by (apply drop_ge; lia).
  unfold reading_from in H3. rewrite Hend in *.
  apply runs_ret. split; [|split; [exact H3|by apply B3]].
  rewrite filled_end, s32_small by lia. do 4 f_equal. subst lba. Z.div_mod_to_equations. lia.
Qed.

(** ** Writing *)

Lemma selected_set_disk c d : selected (set_disk c d) = Some d.
Proof. unfold selected, set_disk. by destruct (c_slave c) eqn:Es; cbn; rewrite Es. Qed.

Lemma set_disk_same c d : selected c = Some d -> set_disk c d = c.
Proof. destruct c as [[] ????????]; unfold selected, set_disk; cbn; by intros ->. Qed.

Lemma set_disk_twice c d d' m :
  set_disk (set_disk c d <| c_mode := m |>) d' = set_disk (c <| c_mode := m |>) d'.
Proof. by destruct c as [[] ????????]. Qed.

(** The transfer and the disk when [p] bytes have been sent. *)
Definition write_mode (lba cnt : Z) (buf : list Z) (p : Z) : transfer :=
  if p =? 512 * cnt then Idle
  else Writing (lba + p / 512) (cnt - p / 512)
         (take (Z.to_nat (p mod 512)) (drop (Z.to_nat (512 * (p / 512))) buf)).

Definition write_disk (lba : Z) (buf : list Z) (p : Z) (disk : list Z) : list Z :=
  splice (Z.to_nat (512 * lba)) (take (Z.to_nat (512 * (p / 512))) buf) disk.

Definition writing_at (lba cnt : Z) (buf : list Z) (p : Z) (disk : list Z) (c : channel) : channel :=
  set_disk (c <| c_mode := write_mode lba cnt buf p |>) (write_disk lba buf p disk).

Lemma write_disk_next lba (buf disk : list Z) i :
  0 <= lba -> 0 <= i -> 512 * (i + 1) <= Z.of_nat (length buf) ->
  512 * (lba + i + 1) <= Z.of_nat (length disk) ->
  splice (Z.to_nat (512 * (lba + i))) (take 512 (drop (Z.to_nat (512 * i)) buf))
    (write_disk lba buf (512 * i) disk) = write_disk lba buf (512 * (i + 1)) disk.
Proof.
  intros Hl Hi Hb Hd. unfold write_disk.
  replace (512 * i / 512) with i by (apply Z.div_unique with 0; lia).
  replace (512 * (i + 1) / 512) with (i + 1) by (apply Z.div_unique with 0; lia).
  assert (length (take 512 (drop (Z.to_nat (512 * i)) buf)) = 512%nat) as Ha
    by (rewrite length_take, length_drop; lia).
  assert (length (take (Z.to_nat (512 * i)) buf) = Z.to_nat (512 * i)) as Hb1 by (rewrite length_take; lia).
  assert (length (take (Z.to_nat (512 * (i + 1))) buf) = Z.to_nat (512 * (i + 1))) as Hb2
    by (rewrite length_take; lia).
  apply list_eq. intros k.
  destruct (decide (Z.to_nat (512 * (lba + i)) <= k < Z.to_nat (512 * (lba + i)) + 512)%nat).
  - rewrite splice_lookup_in by (rewrite ?length_splice; lia).
    rewrite splice_lookup_in by lia.
    rewrite !lookup_take_lt, lookup_drop by lia. f_equal. lia.
  - rewrite splice_lookup_out by (rewrite ?length_splice; lia).
    destruct (decide (Z.to_nat (512 * lba) <= k < Z.to_nat (512 * (lba + i)))%nat).
    + rewrite !splice_lookup_in by lia. by rewrite !lookup_take_lt by lia.
    + by rewrite !splice_lookup_out by lia.
Qed.

Lemma mode_set_disk c d m : c_mode (set_disk (c <| c_mode := m |>) d) = m.
Proof. by destruct c as [[] ????????]. Qed.

Lemma write_mode_at lba cnt buf i j :
  0 <= i < cnt -> 0 <= j < 256 ->
  write_mode lba cnt buf (512 * i + 2 * j) =
  Writing (lba + i) (cnt - i) (take (Z.to_nat (2 * j)) (drop (Z.to_nat (512 * i)) buf)).
Proof.
  intros Hi Hj. unfold write_mode. rewrite (proj2 (Z.eqb_neq _ _)) by lia.
  by rewrite <- (Z.div_unique (512 * i + 2 * j) 512 i (2 * j)), <- (Z.mod_unique (512 * i + 2 * j) 512 i (2 * j)) by lia.
Qed.

Lemma write_disk_at lba buf disk i j :
  0 <= j < 256 -> write_disk lba buf (512 * i + 2 * j) disk = write_disk lba buf (512 * i) disk.
Proof.
  intros Hj. unfold write_disk.
  rewrite <- (Z.div_unique (512 * i + 2 * j) 512 i (2 * j)) by lia.
  by rewrite <- (Z.div_unique (512 * i) 512 i 0) by lia.
Qed.

(** A word more. *)
Lemma write_word_data lba cnt (buf disk : list Z) i j a b c :
  0 <= lba -> 0 <= i < cnt -> 0 <= j < 256 -> 512 * cnt <= Z.of_nat (length buf) ->
  512 * (lba + cnt) <= Z.of_nat (length disk) ->
  buf !! Z.to_nat (512 * i + 2 * j) = Some a -> buf !! Z.to_nat (512 * i + 2 * j + 1) = Some b ->
  is_byte a -> is_byte b ->
  chan_out16 (u16 (a + 256 * b)) (writing_at lba cnt buf (512 * i + 2 * j) disk c) =
  Some (writing_at lba cnt buf (512 * i + 2 * (j + 1)) disk c).
Proof.
  intros Hl Hi Hj Hb Hd Ha Hbb Hab Hbyte.
  unfold u16. rewrite Z.mod_small by (unfold is_byte in *; lia).
  destruct (word_halves a b Hab Hbyte) as [Elo Ehi].
  unfold chan_out16, writing_at. rewrite mode_set_disk, write_mode_at, selected_set_disk, Elo, Ehi by done.
  assert (take (Z.to_nat (2 * j)) (drop (Z.to_nat (512 * i)) buf) ++ [a; b] =
          take (Z.to_nat (2 * (j + 1))) (drop (Z.to_nat (512 * i)) buf)) as ->.
  { replace (Z.to_nat (2 * (j + 1))) with (S (S (Z.to_nat (2 * j)))) by lia.
    rewrite (take_S_r _ _ b), (take_S_r _ _ a); rewrite ?lookup_drop; [by rewrite <- app_assoc|..].
    - rewrite <- Ha. f_equal. lia.
    - rewrite <- Hbb. f_equal. lia. }
  rewrite length_take, length_drop, write_disk_at by lia.
  destruct (Z.ltb_spec (Z.of_nat (Z.to_nat (2 * (j + 1)) `min` (length buf - Z.to_nat (512 * i)))) 512) as [Hlt|Hge].
  - rewrite write_mode_at, write_disk_at by lia. by destruct c as [[] ????????].
  - assert (j = 255) as -> by lia.
    replace (512 * i + 2 * (255 + 1)) with (512 * (i + 1)) by lia.
    rewrite <- write_disk_next by lia. change (Z.to_nat (2 * (255 + 1))) with 512%nat.
    assert (write_mode lba cnt buf (512 * (i + 1)) =
      if cnt - i =? 1 then Idle else Writing (lba + i + 1) (cnt - i - 1) []) as ->.
    { destruct (Z.eqb_spec (cnt - i) 1); [unfold write_mode; by rewrite (proj2 (Z.eqb_eq _ _)) by lia|].
      replace (512 * (i + 1)) with (512 * (i + 1) + 2 * 0) by lia.
      rewrite write_mode_at by lia. cbn [take]. f_equal; lia. }
    by destruct c as [[] ????????].
Qed.

Record writing (drive : Z) (s0 : ata W) (c : channel) (lba cnt : Z) (buf disk : list Z) (p : Z)
    (s : ata W) : Prop := {
  wr_at : at_chan drive s0 (writing_at lba cnt buf p disk c) s;
  wr_busy : p mod 512 <> 0 -> busy_of drive s = 0%nat;
}.

Lemma write_word_runs drive s0 c lba cnt buf disk i j s :
  0 <= lba -> 0 <= i < cnt -> 0 <= j < 256 -> cnt <= 256 -> 512 * cnt <= Z.of_nat (length buf) ->
  512 * (lba + cnt) <= Z.of_nat (length disk) -> Forall is_byte buf ->
  writing drive s0 c lba cnt buf disk (512 * i + 2 * j) s -> busy_of drive s = 0%nat ->
  runs (write_word (E := E) (ata_iobase drive) buf i j ()) s
    (fun _ => writing drive s0 c lba cnt buf disk (512 * i + 2 * (j + 1))).
Proof.
  intros Hl Hi Hj Hc Hb Hd Hby [Hat _] Hbu.
  destruct (words_of buf (512 * i + 2 * j)) as (a&b&Ha&Hb'&Hdr); [lia..|].
  unfold write_word. rewrite u32_small by lia.
  replace (2 * (i * 256 + j)) with (512 * i + 2 * j) by lia.
  apply runs_bind. eapply runs_lift; [apply bload_in; lia|]. rewrite Hdr.
  eapply out16_runs; [exact Hat|exact Hbu| |].
  - apply write_word_data; try done; by eapply Forall_lookup_1.
  - intros s1 H1 B1. split; [exact H1|]. intros Hp.
    assert (512 * i + 2 * (j + 1) <> 512 * cnt) as Hne.
    { intros E1. rewrite E1, Z.mul_comm, Z.mod_mul in Hp; lia. }
    apply B1; unfold writing_at; rewrite mode_set_disk; unfold write_mode;
      rewrite (proj2 (Z.eqb_neq _ _) Hne); [done|].
    cbn [stays_ready]. rewrite negb_true_iff. apply bool_decide_eq_false. intros Hnil.
    apply (f_equal length) in Hnil. rewrite length_take, length_drop in Hnil. cbn in Hnil.
    revert Hp Hnil. Z.div_mod_to_equations. lia.
Qed.

Lemma write_sector_runs drive s0 c lba cnt buf disk i s :
  0 <= lba -> 0 <= i < cnt -> cnt <= 256 -> 512 * cnt <= Z.of_nat (length buf) ->
  512 * (lba + cnt) <= Z.of_nat (length disk) -> Forall is_byte buf ->
  at_chan drive s0 (writing_at lba cnt buf (512 * i) disk c) s ->
  runs (write_sector (E := E) drive buf i ()) s
    (fun _ => at_chan drive s0 (writing_at lba cnt buf (512 * (i + 1)) disk c)).
Proof.
  intros Hl Hi Hc Hb Hd Hby Hat. unfold write_sector.
  apply runs_bind. eapply runs_mono.
  { apply (poll_runs drive s0); [exact Hat| |by left]. eexists. apply selected_set_disk. }
  intros _ s1 [H1 B1]. replace (512 * (i + 1)) with (512 * i + 2 * (0 + Z.of_nat 256)) by lia.
  eapply runs_mono; [apply (forZ_rule _ (fun j _ s =>
    writing drive s0 c lba cnt buf disk (512 * i + 2 * j) s /\ (j < 256 -> busy_of drive s = 0%nat)))|].
  - intros j [] s2 Hj [H2 B2]. assert (j < 256) as Hj' by (change (Z.of_nat 256) with 256 in Hj; lia).
    eapply runs_mono; [apply write_word_runs; try done; [lia..|by apply B2]|].
    intros [] s3 H3. split; [done|]. intros Hlt. apply H3. Z.div_mod_to_equations. lia.
  - rewrite Z.mul_0_r, Z.add_0_r. split; [|done]. by split.
  - intros b s2 [H2 _]. apply H2.
Qed.

Lemma ata_rawwrite_at drive disk buf lba cnt s :
  disk_at drive disk s -> 0 <= lba < 2 ^ 28 -> 1 <= cnt <= 256 ->
  512 * cnt <= Z.of_nat (length buf) -> 512 * (lba + cnt) <= Z.of_nat (length disk) ->
  Forall is_byte buf ->
  runs (ata_rawwrite (E := E) drive buf lba cnt) s (fun _ s' =>
    at_chan drive s (set_disk (done_with drive cnt lba (chan_of drive s))
      (splice (Z.to_nat (512 * lba)) (take (Z.to_nat (512 * cnt)) buf) disk)) s').
Proof.
  intros Hda Hl Hc Hb Hd Hby. pose proof Hda as [Hdr _ Hm Hbu Hdk Hdb].
  unfold ata_rawwrite. apply (prepare_runs drive s (chan_of drive s) disk); [by split|done..|].
  intros s1 H1 B1. apply runs_bind.
  eapply out8_runs; [exact H1|exact B1|unfold chan_out8; cbn; by rewrite Hm|].
  intros s2 H2 B2. specialize (B2 ltac:(done)). apply runs_bind. eapply runs_mono.
  { apply (command_runs drive s (chan_of drive s)); [exact H2|exact B2|exact Hm|].
    apply (transfer_command drive disk); lia || done. }
  set (c := addressed drive cnt lba (chan_of drive s)).
  intros [] s3 H3. apply runs_bind. eapply runs_mono.
  { apply (forZ_rule _ (fun i _ => at_chan drive s (writing_at lba cnt buf (512 * i) disk c))).
    - intros i [] s4 Hi H4. apply write_sector_runs; lia || done.
    - assert (writing_at lba cnt buf (512 * 0) disk c = c <| c_mode := Writing lba cnt [] |>) as ->; [|exact H3].
      replace (512 * 0) with (512 * 0 + 2 * 0) by lia. unfold writing_at.
      rewrite write_mode_at, Z.add_0_r, Z.sub_0_r by lia. unfold write_disk.
      apply set_disk_same. change (Z.to_nat (512 * ((512 * 0 + 2 * 0) / 512))) with 0%nat.
      unfold splice. rewrite take_0. cbn [length app]. by rewrite Nat.add_0_r, take_drop. }
  rewrite Z.add_0_l, Z2Nat.id by lia. intros [] s4 H4.
  assert (writing_at lba cnt buf (512 * cnt) disk c = set_disk (done_with drive cnt lba (chan_of drive s))
      (splice (Z.to_nat (512 * lba)) (take (Z.to_nat (512 * cnt)) buf) disk)) as Eend.
  { unfold writing_at, write_mode, write_disk. rewrite Z.eqb_refl.
    by rewrite <- (Z.div_unique (512 * cnt) 512 cnt 0) by lia. }
  rewrite Eend in H4. apply runs_bind. eapply runs_mono.
  { apply (poll_runs drive s); [exact H4|eexists; apply selected_set_disk|right; apply mode_set_disk]. }
  intros _ s5 [H5 B5]. eapply out8_runs; [exact H5|exact B5| |intros s6 H6 _; exact H6].
  unfold chan_out8, done_with. rewrite mode_set_disk. cbn -[chan_command u8 set_disk].
  unfold chan_command. by rewrite selected_set_disk.
Qed.

Lemma ata_write_at drive disk sec buf lba cnt s :
  disk_at drive disk s -> 0 <= lba < 2 ^ 28 -> 1 <= cnt <= 256 ->
  512 * cnt <= Z.of_nat (length buf) -> 512 * (lba + cnt) <= Z.of_nat (length disk) ->
  Forall is_byte buf ->
  runs (ata_write (E := E) drive sec buf (512 * cnt) (512 * lba)) s (fun r s' =>
    r = 0 /\ at_chan drive s (set_disk (done_with drive cnt lba (chan_of drive s))
      (splice (Z.to_nat (512 * lba)) (take (Z.to_nat (512 * cnt)) buf) disk)) s').
Proof.
  intros Hda Hl Hc Hb Hd Hby. unfold ata_write.
  apply runs_bind. eapply runs_mono; [by eapply is_pata_runs|]. intros _ ? ->.
  assert (forall n, Z.land (512 * n) 511 = 0) as Hland.
  { intros n. change 511 with (Z.ones 9). rewrite Z.land_ones by lia.
    change (2 ^ 9) with 512. rewrite Z.mul_comm. by apply Z.mod_mul. }
  rewrite Hland, Z.eqb_refl. apply runs_bind, runs_ret.
  rewrite Z.add_0_r, Z.sub_0_r, drop_0, !Hland, Z.eqb_refl. cbn [negb].
  rewrite (proj2 (Z.leb_le 512 (512 * cnt))) by lia. cbn [when].
  rewrite u64_small by word_lia.
  rewrite <- (Z.div_unique (512 * lba) 512 lba 0), <- (Z.div_unique (512 * cnt) 512 cnt 0) by lia.
  rewrite !u32_small by lia.
  apply runs_bind. eapply runs_mono; [by apply ata_rawwrite_at|].
  intros [] s' Hs'. apply runs_bind, runs_ret, runs_ret. by split.
Qed.
End drives.

(** ** A drive that keeps the promise

    Two channels of two drives each.  After a command and between sectors the
    status reads once as busy.  It also answers what [ata_init] asks. *)

Module Simulated.

Record sim := mkSim { primary : channel; second : channel; busy0 : bool; busy1 : bool }.

Definition get (s : bool) (w : sim) : channel := if s then second w else primary w.
Definition is_busy (s : bool) (w : sim) : bool := if s then busy1 w else busy0 w.
Definition put (s : bool) (c : channel) (b : bool) (w : sim) : sim :=
  if s then mkSim (primary w) c (busy0 w) b else mkSim c (second w) b (busy1 w).

(** The channel and the register of a port. *)
Definition decode (port : Z) : bool * Z :=
  if port =? 0x1F0 + CTRL then (false, CTRL)
  else if port =? 0x170 + CTRL then (true, CTRL)
  else if 0x1F0 <=? port then (false, port - 0x1F0) else (true, port - 0x170).

Definition status (b : bool) (c : channel) : Z :=
  if b then 0x80
  else match selected c with
       | None => 0
       | Some _ => match c_mode c with Idle => 0x40 | _ => 0x48 end
       end.

Definition sim_in8 (port : Z) (w : sim) : sim * Z :=
  let '(s, r) := decode port in
  let c := get s w in
  if r =? STATUS then (put s c false w, status (is_busy s w) c)
  else if r =? LBAmid then (w, if bool_decide (is_Some (selected c)) then c_mid c else 0xff)
  else (w, 0).

(** The answer to IDENTIFY: words 60 and 61 are the number of sectors. *)
Definition identity (disk : list Z) : list Z :=
  replicate 120 0 ++ le_bytes 4 (Z.of_nat (length disk) / 512) ++ replicate 388 0.

Definition sim_out8 (port v : Z) (w : sim) : sim :=
  let '(s, r) := decode port in
  let c := get s w in
  match chan_out8 r v c with
  | Some c => put s c (if r =? CMD then true else is_busy s w) w
  | None =>
      match selected c with
      | Some disk =>
          if r =? CTRL then put s (c <| c_mode := Idle |> <| c_mid := 0 |>) (is_busy s w) w
          else if (r =? CMD) && (v =? 0xEC) then put s (c <| c_mode := Reading (identity disk) |>) true w
          else w
      | None => w
      end
  end.

Definition sim_in16 (port : Z) (w : sim) : sim * Z :=
  let s := (decode port).1 in
  match chan_in16 (get s w) with
  | Some (v, c) => (put s c (if stays_ready (c_mode c) then is_busy s w else true) w, v)
  | None => (w, 0)
  end.

Definition sim_out16 (port v : Z) (w : sim) : sim :=
  let s := (decode port).1 in
  match chan_out16 v (get s w) with
  | Some c => put s c (if stays_ready (c_mode c) then is_busy s w else true) w
  | None => w
  end.

#[export] Instance sim_ports : Ports sim := {|
  in8 := sim_in8; in16 := sim_in16; out8 := sim_out8; out16 := sim_out16; patience := 1;
|}.

Lemma decode_base s r : 0 <= r < 8 -> decode (base s + r) = (s, r).
Proof.
  intros Hr. unfold decode, base, CTRL. destruct s.
  - rewrite !(proj2 (Z.eqb_neq _ _)), (proj2 (Z.leb_gt _ _)) by lia. f_equal. lia.
  - rewrite !(proj2 (Z.eqb_neq _ _)), (proj2 (Z.leb_le _ _)) by lia. f_equal. lia.
Qed.

Lemma get_put s t c b w : get t (put s c b w) = if bool_decide (s = t) then c else get t w.
Proof. by destruct s, t. Qed.

Lemma busy_put s c b w : is_busy s (put s c b w) = b.
Proof. by destruct s. Qed.

Lemma sim_status_port s w :
  sim_in8 (base s + STATUS) w = (put s (get s w) false w, status (is_busy s w) (get s w)).
Proof. unfold sim_in8. by rewrite decode_base by (unfold STATUS; lia). Qed.

Lemma chan_out8_reg r v c c' : chan_out8 r v c = Some c' -> 0 <= r < 8.
Proof.
  unfold chan_out8, FEAT, SCNT, LBAlo, LBAmid, LBAhi, DRV, CMD.
  destruct (c_mode c); [|done..]. cases; zbool; naive_solver lia.
Qed.

#[export] Program Instance sim_drives : Drives sim := {|
  chan := get; busy s w := if is_busy s w then 1%nat else 0%nat;
|}.
Next Obligation. intros s w. cbn. destruct (is_busy s w); lia. Qed.
Next Obligation.
  intros s w t. cbn. rewrite sim_status_port. cbn. rewrite get_put. by case_bool_decide; subst.
Qed.
Next Obligation. intros s w. cbn. rewrite sim_status_port. cbn. rewrite busy_put. by destruct (is_busy s w). Qed.
Next Obligation.
  intros s w [d Hd]. cbn. rewrite sim_status_port. cbn. unfold status.
  destruct (is_busy s w); cbn; [done|]. rewrite Hd. by destruct (c_mode (get s w)).
Qed.
Next Obligation.
  intros s r v w c Hb Hc. cbn in Hb. destruct (is_busy s w) eqn:Eb; [done|].
  pose proof (chan_out8_reg _ _ _ _ Hc) as Hr. cbn. unfold sim_out8. rewrite decode_base by done.
  rewrite Hc, !get_put, busy_put, bool_decide_true, bool_decide_false by (done || by destruct s).
  split_and!; [done|done|]. intros Hne. by rewrite (proj2 (Z.eqb_neq _ _) Hne), Eb.
Qed.
Next Obligation.
  intros s w v c Hb Hc. cbn in *. destruct (is_busy s w) eqn:Eb; [done|].
  unfold sim_in16. replace (base s) with (base s + 0) by lia. rewrite decode_base by lia. cbn [fst].
  rewrite Hc, !get_put, busy_put, bool_decide_true, bool_decide_false by (done || by destruct s).
  split_and!; [done..|]. intros ->. by rewrite Eb.
Qed.
Next Obligation.
  intros s v w c Hb Hc. cbn in *. destruct (is_busy s w) eqn:Eb; [done|].
  unfold sim_out16. replace (base s) with (base s + 0) by lia. rewrite decode_base by lia. cbn [fst].
  rewrite Hc, !get_put, busy_put, bool_decide_true, bool_decide_false by (done || by destruct s).
  split_and!; [done..|]. intros _ ->. by rewrite Eb.
Qed.
End Simulated.

(** ** What is read and written *)

Section theorems.
Context {W : Type} `{Drives W} {E : Type}.
Implicit Types s : ata W.

(** All disks are as they were, except that of [drive], which holds [disk]. *)
Definition only_disk (drive : Z) (disk : list Z) (s s' : ata W) : Prop :=
  forall t x, c_disk (chan t (world s')) x =
    if bool_decide (t = secondary drive /\ x = slave drive) then Some disk
    else c_disk (chan t (world s)) x.

Lemma at_chan_disks drive cnt lba disk disk' s s' :
  disk_at drive disk s ->
  at_chan drive s (set_disk (done_with drive cnt lba (chan_of drive s)) disk') s' ->
  only_disk drive disk' s s' /\ c_mode (chan_of drive s') = Idle.
Proof.
  intros Hda [Hc Ho Hd]. split; [|by rewrite Hc; unfold done_with; rewrite mode_set_disk].
  intros t x. case_bool_decide as Hx.
  - destruct Hx as [-> ->]. unfold chan_of in Hc. rewrite Hc.
    unfold set_disk, done_with, addressed. cbn. by destruct (slave drive).
  - destruct (decide (t = secondary drive)) as [->|Ht].
    + unfold chan_of in Hc. rewrite Hc. unfold set_disk, done_with, addressed. cbn.
      destruct (slave drive), x; cbn; naive_solver.
    + assert (t = negb (secondary drive)) as -> by (destruct t, (secondary drive); done).
      by rewrite Ho.
Qed.

Lemma at_rest_again drive cnt lba disk s s' :
  disk_at drive disk s -> at_chan drive s (done_with drive cnt lba (chan_of drive s)) s' ->
  busy_of drive s' = 0%nat -> disk_at drive disk s'.
Proof.
  intros [Hdr Ht Hm Hb Hdk Hby] [Hc Ho Hd] Hb'. split; try done.
  - by rewrite Hd.
  - by rewrite Hc.
  - by rewrite Hc.
Qed.

(** Reading the disk.  A drive at rest is asked for the sectors that
    [ata_read] counts; if they are on the disk and not more than 256, the read
    ends, leaves the disk as it was and the drive at rest, and the buffer holds
    the bytes of the disk from the offset on.  All of them, if the offset is a
    multiple of the sector size; otherwise only as many as the sectors that were
    asked for hold, which can be less than the length that is answered: the end
    of the buffer is what it was. *)
Theorem ata_read_reads drive disk buf len off s :
  disk_at drive disk s -> 0 < len < 2 ^ 31 -> len <= Z.of_nat (length buf) -> 0 <= off < 2 ^ 37 ->
  let cnt := read_cnt len (off mod 512) in
  let n := Z.min len (512 * cnt - off mod 512) in
  cnt <= 256 -> 512 * (off / 512 + cnt) <= Z.of_nat (length disk) ->
  (off mod 512 = 0 -> n = len) /\
  runs (ata_read (E := E) drive buf len off) s (fun r s' =>
    r = (splice 0 (take (Z.to_nat n) (drop (Z.to_nat off) disk)) buf, len) /\
    disk_at drive disk s' /\ only_disk drive disk s s').
Proof.
  intros Hda Hl Hb Ho cnt n Hc Hin.
  pose proof (Z.mod_pos_bound off 512 ltac:(lia)) as Hsk. split.
  { intros Hz. subst n cnt. rewrite read_cnt_eq, Hz by lia. cbn [Z.eqb]. Z.div_mod_to_equations. lia. }
  eapply runs_mono; [by apply ata_read_at|]. intros r s' (->&Hat&Hbu).
  split; [done|]. split; [by eapply at_rest_again|].
  eapply at_chan_disks; [done|]. rewrite set_disk_same; [exact Hat|]. apply Hda.
Qed.

(** C16: what is written to the disk is read back.  Whole sectors are written to
    a drive at rest: the write ends without a failure, and of all disks only
    that of the drive changes, by exactly the bytes written.  As soon as the
    drive is at rest again, reading whole sectors from any place gives the bytes
    of the changed disk. *)
Theorem ata_write_read_back drive disk sec buf lba cnt s :
  disk_at drive disk s -> 0 <= lba < 2 ^ 28 -> 1 <= cnt <= 256 ->
  512 * cnt <= Z.of_nat (length buf) -> 512 * (lba + cnt) <= Z.of_nat (length disk) ->
  Forall is_byte buf ->
  let disk' := splice (Z.to_nat (512 * lba)) (take (Z.to_nat (512 * cnt)) buf) disk in
  runs (ata_write (E := E) drive sec buf (512 * cnt) (512 * lba)) s (fun r s1 =>
    r = 0 /\ only_disk drive disk' s s1 /\
    forall s2 lba2 cnt2 buf2,
      chan_of drive s2 = chan_of drive s1 -> ata_drives s2 = ata_drives s1 ->
      busy_of drive s2 = 0%nat -> 0 <= lba2 < 2 ^ 28 -> 1 <= cnt2 <= 256 ->
      512 * cnt2 = Z.of_nat (length buf2) -> 512 * (lba2 + cnt2) <= Z.of_nat (length disk) ->
      runs (ata_read (E := E) drive buf2 (512 * cnt2) (512 * lba2)) s2 (fun r2 _ =>
        r2 = (take (Z.to_nat (512 * cnt2)) (drop (Z.to_nat (512 * lba2)) disk'), 512 * cnt2))).
Proof.
  intros Hda Hl Hc Hb Hd Hby disk'. eapply runs_mono; [by apply ata_write_at|].
  intros r s1 [-> Hat]. split; [done|].
  destruct (at_chan_disks drive cnt lba disk disk' s s1 Hda Hat) as [Hdisks Hm]. split; [done|].
  intros s2 lba2 cnt2 buf2 Hc2 Hd2 Hb2 Hl2 Hcnt2 Hlen2 Hin2.
  assert (length disk' = length disk) as Hlen by (apply length_splice; rewrite length_take; lia).
  assert (disk_at drive disk' s2) as Hda2.
  { pose proof Hda as [H1 H2 _ _ _ H6]. destruct Hat as [Hcc _ Hdr]. split; try done.
    - by rewrite Hd2, Hdr.
    - by rewrite Hc2.
    - rewrite Hc2. unfold chan_of. rewrite Hdisks. by rewrite bool_decide_true.
    - unfold disk', splice. apply Forall_app_2; [by apply Forall_take|].
      apply Forall_app_2; [by apply Forall_take|by apply Forall_drop]. }
  assert (512 * lba2 mod 512 = 0) as Hmod by (rewrite Z.mul_comm; by apply Z.mod_mul).
  assert (512 * lba2 / 512 = lba2) as Hdiv by (symmetry; apply Z.div_unique with 0; lia).
  assert (read_cnt (512 * cnt2) 0 = cnt2) as Hcnt.
  { rewrite read_cnt_eq by lia. cbn [Z.eqb]. Z.div_mod_to_equations. lia. }
  eapply runs_mono; [apply (ata_read_at drive disk'); [done|lia..| |]; rewrite ?Hmod, ?Hdiv, ?Hcnt; lia|].
  intros r2 s3 [-> _]. rewrite Hmod, Hcnt, Z.sub_0_r, Z.min_id. f_equal.
  unfold splice. rewrite take_0, (drop_ge buf2), app_nil_r; [done|].
  rewrite length_take, length_drop, Hlen. lia.
Qed.
End theorems.

(** ** Examples *)

Module Examples.
Import Simulated.

(** A disk of three sectors, the master of the primary channel. *)
Definition some_disk : list Z :=
  replicate 512 1 ++ replicate 512 2 ++ replicate 512 3.

Definition no_disks : channel := mkChan false 0 0 0 0 0 Idle None None.
Definition some_world : sim :=
  mkSim (mkChan false 0 0 0 0 0 Idle (Some some_disk) None) no_disks false false.
Definition unknown : ata sim := mkAta some_world (replicate 4 (mkDrive DEV_UNKNOWN 0)).
Definition some_ata : ata sim := mkAta some_world (mkDrive DEV_PATA 3 :: replicate 3 (mkDrive DEV_UNKNOWN 0)).

(** [ata_init] finds it. *)
Lemma init_finds_disk :
  match ata_init (E := ()) unknown with
  | Val _ s => ata_drives s = mkDrive DEV_PATA 3 :: replicate 3 (mkDrive DEV_UNKNOWN 0) /\
      disk_at 0 some_disk s
  | _ => False
  end.
Proof.
  vm_compute (ata_init unknown). split; [reflexivity|]. split; try done.
  - by eexists.
  - repeat (apply Forall_cons; split; [done|]). apply Forall_nil, I.
Qed.

Lemma some_ata_rests : disk_at 0 some_disk some_ata.
Proof.
  split; try done.
  - by eexists.
  - unfold some_disk. rewrite !Forall_app. split_and!; by apply Forall_replicate.
Qed.

Lemma ata_read_reads_witness :
  runs (ata_read (E := ()) 0 (replicate 8 9) 8 1020) some_ata (fun r _ =>
    r = ([2; 2; 2; 2; 9; 9; 9; 9], 8)).
Proof.
  destruct (ata_read_reads (E := ()) 0 some_disk (replicate 8 9) 8 1020 some_ata some_ata_rests)
    as [_ Hr]; [decide_now..|].
  eapply runs_mono; [exact Hr|]. intros r s' [-> _]. vm_compute. reflexivity.
Defined.

Lemma ata_write_read_back_witness :
  runs (ata_write (E := ()) 0 [] (replicate 512 7) 512 512) some_ata (fun r s1 =>
    r = 0 /\
    c_disk (chan false (world s1)) false = Some (replicate 512 1 ++ replicate 512 7 ++ replicate 512 3) /\
    forall s2, chan_of 0 s2 = chan_of 0 s1 -> ata_drives s2 = ata_drives s1 -> busy_of 0 s2 = 0%nat ->
      runs (ata_read (E := ()) 0 (replicate 512 0) 512 512) s2 (fun r2 _ => r2 = (replicate 512 7, 512))).
Proof.
  pose proof (ata_write_read_back (E := ()) 0 some_disk [] (replicate 512 7) 1 1 some_ata some_ata_rests
    ltac:(lia) ltac:(lia) ltac:(decide_now) ltac:(decide_now) ltac:(by apply Forall_replicate)) as Hw.
  cbv zeta in Hw. change (512 * 1) with 512 in Hw.
  eapply runs_mono; [exact Hw|]. intros r s1 (->&Hd&Hr). split; [done|]. split.
  - specialize (Hd false false).
    rewrite (bool_decide_true (false = secondary 0 /\ false = slave 0)) in Hd by (split; reflexivity).
    etrans; [exact Hd|]. apply (f_equal Some). vm_compute. reflexivity.
  - intros s2 Hc Ha Hb. specialize (Hr s2 1 1 (replicate 512 0) Hc Ha Hb ltac:(lia) ltac:(lia)).
    specialize (Hr ltac:(decide_now) ltac:(decide_now)). change (512 * 1) with 512 in Hr.
    eapply runs_mono; [exact Hr|]. intros r2 s3 ->. vm_compute. reflexivity.
Defined.

(** Sectors are missing when a read crosses a border: of eight bytes, four on
    each side, the last four are not stored, and eight is the answer. *)
Lemma unaligned_read_short len off :
  off mod 512 = 508 -> len = 8 -> 512 * read_cnt len (off mod 512) - off mod 512 = 4.
Proof. by intros -> ->. Qed.

(** A write that does not begin at a sector replaces the rest of the sector by
    bytes from elsewhere: here the second sector gets a copy of the first. *)
Lemma unaligned_write_corrupts :
  match ata_write (E := ()) 0 (replicate 512 0) [9] 1 600 some_ata with
  | Val _ s => selected (chan false (world s)) =
      Some (replicate 512 1 ++ (replicate 88 1 ++ [9] ++ replicate 422 1 ++ [2]) ++ replicate 512 3)
  | _ => False
  end.
Proof. vm_compute. reflexivity. Qed.

(** A read of nothing asks for no sectors, which the drive takes for 256: at best
    it refuses; here it still answers what was asked before. *)
Lemma empty_read_asks_for_all : read_cnt 0 0 = 0 /\ chan_cnt (addressed 0 0 0 no_disks) = 256.
Proof. by vm_compute. Qed.
End Examples.
