(* ===== verification/Rtl8139.v ===== *)
(** * Rtl8139

    The network card ([src/src/kernel/arch/amd64/driver/rtl8139.c]).  The card
    writes the frames it receives into a ring in memory, each behind a header
    with its length; the driver takes them out for whoever reads, and readers
    wait while there are none.  What the card does is its data sheet's; what the
    driver does is the code's; both share the ring and a few registers.  The card
    works on while the interrupt handler runs: the handler is in pieces, and
    frames come between them. *)

From S2P Require Import Prelude Buf.

(** ** The ring and the registers *)

Definition rxbuf_baselen : Z := 8 * 1024 * 2 ^ 3.

(** Requests are identified by a number.  Of a write, [data] is what [pcpy_from]
    gives of the [slen] bytes, and [own] bit 13 of the status of the next buffer:
    the card is done with it. *)
Inductive nic_op :=
| NOpen (input_len : Z)
| NRead (dlen : Z)
| NWrite (kern : bool) (slen : Z) (data : list Z) (own : bool)
| NOther.

Record nic_req := mkReq { rq_id : Z; rq_op : nic_op }.

(** The sending side: [desc] is the next of the four buffers. *)
Record tx := mkTx { desc : Z; sent : list (Z * list Z) }.

(** [answers] are the requests that were finished, with the number returned and
    the bytes copied; [dead] are the requests whose [caller] has been cleared. *)
Record nic := mkNic {
  rxbuf : list Z;
  rxpos : Z;                            (* the driver's *)
  cbr : Z;                              (* where the card writes next *)
  capr : Z;                             (* what the driver has told it *)
  intrmask : bool; intrstatus : bool;   (* bit 0: a frame was received *)
  blocked_on : list nic_req;
  answers : list (nic_req * Z * list Z);
  dead : list Z;
  txs : tx;
}.

#[export] Instance nic_settable : Settable nic := fun n =>
  mkNic (rxbuf n) (rxpos n) (cbr n) (capr n) (intrmask n) (intrstatus n) (blocked_on n) (answers n)
    (dead n) (txs n).

(** ** The card *)

(** It keeps 16 between [CAPR] and what has been read. *)
Definition read_to (n : nic) : Z := (capr n + 16) mod rxbuf_baselen.

(** Bit 0 of [CMD]. *)
Definition rx_empty (n : nic) : bool := cbr n =? read_to n.

(** A byte of the ring; positions go on behind its end. *)
Definition ring_set (p x : Z) (buf : list Z) : list Z := <[Z.to_nat (p mod rxbuf_baselen) := x]> buf.

Fixpoint ring_write (p : Z) (l : list Z) (buf : list Z) : list Z :=
  match l with [] => buf | x :: l => ring_write (p + 1) l (ring_set p x buf) end.

Definition align4 (z : Z) : Z := (z + 3) / 4 * 4.

(** What a frame takes: a header of four bytes, the frame with its checksum, and
    what is left of a multiple of four. *)
Definition need (f : list Z) : Z := align4 (4 + Z.of_nat (length f)).

Definition header (flags : Z) (f : list Z) : list Z :=
  [flags mod 256; flags / 256 mod 256;
   Z.of_nat (length f) mod 256; Z.of_nat (length f) / 256].

(** A frame arrives, its checksum included; it is dropped if there is no room. *)
Definition nic_receive (flags : Z) (f : list Z) (n : nic) : nic :=
  if need f <? rxbuf_baselen - (cbr n - read_to n) mod rxbuf_baselen then
    n <| rxbuf := ring_write (cbr n) (header flags f ++ f) (rxbuf n) |>
      <| cbr := (cbr n + need f) mod rxbuf_baselen |>
      <| intrstatus := true |>
  else n.

(** ** The driver *)

Definition rx_irq_enable (v : bool) (n : nic) : nic := n <| intrmask := v |>.

(** Sixteen bits of the ring. *)
Definition get16 (buf : list Z) (p : Z) : res Z :=
  lo ← bget buf p; hi ← bget buf (p + 1); Ok (lo + 256 * hi).

(** What is copied to the reader, in one or two parts. *)
Definition copy_out (buf : list Z) (pos dlen : Z) : res (list Z) :=
  if pos + dlen <=? rxbuf_baselen then bload buf pos dlen
  else
    let chunk := rxbuf_baselen - pos in
    a ← bload buf pos chunk;
    b ← bload buf 0 (dlen - chunk);
    Ok (a ++ b).

(** [while (rxpos >= rxbuf_baselen) rxpos -= rxbuf_baselen;] *)
Fixpoint wrap_pos (fuel : nat) (pos : Z) : res Z :=
  if rxbuf_baselen <=? pos then
    match fuel with O => Err OutOfFuel | S k => wrap_pos k (pos - rxbuf_baselen) end
  else Ok pos.

(** [None] is [WAIT]. *)
Definition try_rx (dlen : Z) (n : nic) : res (option (Z * list Z) * nic) :=
  if rx_empty n then Ok (None, n)
  else
    _ ← get16 (rxbuf n) (rxpos n);
    size ← get16 (rxbuf n) (rxpos n + 2);
    if size =? 0 then Err Panic
    else
      let pos := rxpos n + 4 in
      let dlen := if size <? dlen then size else dlen in
      data ← copy_out (rxbuf n) pos dlen;
      pos ← wrap_pos 2 (Z.land (pos + size + 3) (Z.lnot 3));
      Ok (Some (size, data), n <| rxpos := pos |> <| capr := u16 (pos - 0x10) |>).

(** Sending; [own] is about the buffer [desc]. *)
Definition txbuf_len : Z := 2048.

Definition try_tx (own : bool) (slen : Z) (data : list Z) (t : tx) : res (Z * tx) :=
  if 0xFFF <? slen then Ok (-1, t)
  else if txbuf_len <? slen then Ok (-1, t)
  else if negb own then Err Panic
  else if Z.of_nat (length data) <? slen then Ok (-1, t)
  else Ok (slen, mkTx (Z.land (desc t + 1) 3) (sent t ++ [(desc t, data)])).

(** [vfsreq_finish_short]: a read must not return more than was asked for. *)
Definition finish (r : nic_req) (ret : Z) (data : list Z) (n : nic) : res nic :=
  _ ← assert_ (match rq_op r with NRead dlen => (ret <? 0) || (ret <=? dlen) | _ => true end);
  Ok (n <| answers ::= fun l => l ++ [(r, ret, data)] |>).

Definition accept (r : nic_req) (n : nic) : res nic :=
  if bool_decide (rq_id r ∈ dead n) then finish r (-1) [] n
  else
    match rq_op r with
    | NOpen input_len => finish r (if input_len =? 0 then 0 else -1) [] n
    | NRead dlen =>
        '(ret, n) ← try_rx dlen n;
        match ret with
        | None => Ok (rx_irq_enable true (n <| blocked_on ::= fun l => l ++ [r] |>))
        | Some (size, data) => finish r size data n
        end
    | NWrite kern slen data own =>
        _ ← assert_ (negb kern);
        '(ret, t) ← try_tx own slen data (txs n);
        finish r ret [] (n <| txs := t |>)
    | NOther => finish r (-1) [] n
    end.

(** The interrupt handler, in the pieces between which the card may write
    another frame: the test of the status, ... *)
Definition irq_enter (n : nic) : res nic := if intrstatus n then Ok n else Err Panic.

(** ... one turn of the loop (a frame that comes during a turn makes no
    difference to it: the turn looks at the first frame only), which says
    whether the loop goes on, ... *)
Definition irq_turn (n : nic) : res (bool * nic) :=
  if rx_empty n then Ok (false, n)
  else
    match blocked_on n with
    | [] => Ok (false, rx_irq_enable false n)
    | r :: rest => n ← accept r (n <| blocked_on := rest |>); Ok (true, n)
    end.

(** ... and the acknowledgement. *)
Definition irq_ack (n : nic) : nic := n <| intrstatus := false |>.

(** ** Runs

    Frames arrive at any time.  The code of the kernel is not interrupted: no
    request is made, and no caller dies, while the handler runs.  The handler is
    entered when the interrupt is enabled and has been raised; [Handler] is its
    next piece. *)

Inductive phase := Idle | Draining | Leaving.

Inductive event :=
| Arrives (flags : Z) (f : list Z)
| Requests (r : nic_req)
| Dies (id : Z)
| Interrupt
| Handler.

(** [late] is a history variable: the last frame came after the handler had last
    looked at the ring, and before its acknowledgement. *)
Record machine := mkMachine { card : nic; pc : phase; late : bool }.

Definition fits (f : list Z) (n : nic) : bool :=
  need f <? rxbuf_baselen - (cbr n - read_to n) mod rxbuf_baselen.

Definition idle (m : machine) : bool := match pc m with Idle => true | _ => false end.

(** What an event does, and whether it is possible. *)
Definition nic_step (e : event) (m : machine) : res (machine * bool) :=
  let n := card m in
  match e with
  | Arrives flags f =>
      Ok (mkMachine (nic_receive flags f n) (pc m)
            (if fits f n then match pc m with Leaving => true | _ => false end else late m), fits f n)
  | Requests r =>
      if idle m then n ← accept r n; Ok (mkMachine n Idle (late m), true) else Ok (m, false)
  | Dies id =>
      if idle m then Ok (mkMachine (n <| dead ::= fun l => id :: l |>) Idle (late m), true)
      else Ok (m, false)
  | Interrupt =>
      if idle m && intrmask n && intrstatus n then
        n ← irq_enter n; Ok (mkMachine n Draining (late m), true)
      else Ok (m, false)
  | Handler =>
      match pc m with
      | Idle => Ok (m, false)
      | Draining =>
          '(go, n) ← irq_turn n;
          Ok (mkMachine n (if (go : bool) then Draining else Leaving) (late m), true)
      | Leaving => Ok (mkMachine (irq_ack n) Idle (late m), true)
      end
  end.

(** A run gives the events that took place: frames that the card drops and
    events that are not possible do not. *)
Fixpoint nic_run (evs : list event) (m : machine) : res (machine * list event) :=
  match evs with
  | [] => Ok (m, [])
  | e :: evs =>
      '(m, took) ← nic_step e m;
      '(m, l) ← nic_run evs m;
      Ok (m, (if (took : bool) then [e] else []) ++ l)
  end.

Definition requests (evs : list event) : list nic_req :=
  omap (fun e => match e with Requests r => Some r | _ => None end) evs.

Definition frames (evs : list event) : list (list Z) :=
  omap (fun e => match e with Arrives _ f => Some f | _ => None end) evs.

(** A card that was just set up. *)
Definition nic0 (buf : list Z) : nic := mkNic buf 0 0 0xFFF0 false false [] [] [] (mkTx 0 []).
Definition machine0 (buf : list Z) : machine := mkMachine (nic0 buf) Idle false.

(** Frames have a length of 16 bits, and at most [mtu], for which every reader
    has room; what is written comes from a process, and the card is done with
    the buffer that is next. *)
Definition req_ok (mtu : Z) (r : nic_req) : Prop :=
  match rq_op r with
  | NRead dlen => mtu <= dlen
  | NWrite kern _ _ own => kern = false /\ own = true
  | _ => True
  end.

Definition event_ok (mtu : Z) (e : event) : Prop :=
  match e with
  | Arrives _ f => 0 < Z.of_nat (length f) < 2 ^ 16 /\ Z.of_nat (length f) <= mtu
  | Requests r => req_ok mtu r
  | _ => True
  end.

(** ** The ring *)

Lemma baselen : rxbuf_baselen = 65536.
Proof. reflexivity. Qed.

Lemma need_range f : 4 + Z.of_nat (length f) <= need f /\ need f mod 4 = 0 /\ need f <= 7 + Z.of_nat (length f).
Proof. unfold need, align4. split_and!; Z.div_mod_to_equations; lia. Qed.

Lemma length_ring_write p l buf : length (ring_write p l buf) = length buf.
Proof.
  revert p buf; induction l as [|x l IH]; intros p buf; cbn; [done|].
  by rewrite IH; unfold ring_set; rewrite length_insert.
Qed.

Lemma ring_write_out p l buf j :
  0 <= j -> (forall k, 0 <= k < Z.of_nat (length l) -> (p + k) mod rxbuf_baselen <> j) ->
  ring_write p l buf !! Z.to_nat j = buf !! Z.to_nat j.
Proof.
  intros Hj. revert p buf; induction l as [|x l IH]; intros p buf Hk; cbn [ring_write]; [done|].
  rewrite IH.
  - unfold ring_set. apply list_lookup_insert_ne. pose proof (Hk 0 ltac:(cbn; lia)) as H0.
    rewrite Z.add_0_r in H0. pose proof (Z.mod_pos_bound p rxbuf_baselen ltac:(done)). lia.
  - intros k Hkk. replace (p + 1 + k) with (p + (k + 1)) by lia. apply Hk. cbn. lia.
Qed.

(** Positions less than a ring apart are different places. *)
Lemma apart_mod p q : 0 < q - p < rxbuf_baselen -> p mod rxbuf_baselen <> q mod rxbuf_baselen.
Proof. rewrite baselen. intros Hq. Z.div_mod_to_equations. lia. Qed.

Lemma ring_write_in p l buf k x :
  Z.of_nat (length l) <= rxbuf_baselen -> rxbuf_baselen <= Z.of_nat (length buf) ->
  l !! k = Some x -> ring_write p l buf !! Z.to_nat ((p + Z.of_nat k) mod rxbuf_baselen) = Some x.
Proof.
  revert p buf k; induction l as [|y l IH]; intros p buf k Hl Hb Hk; [done|]. cbn [ring_write].
  pose proof (Z.mod_pos_bound p rxbuf_baselen ltac:(done)) as Hp.
  destruct k as [|k].
  - injection Hk as ->. rewrite Z.add_0_r, ring_write_out; [|lia|].
    + unfold ring_set. apply list_lookup_insert_eq. lia.
    + intros k Hk E0. symmetry in E0. revert E0. apply apart_mod. cbn in Hl. lia.
  - replace (p + Z.of_nat (S k)) with (p + 1 + Z.of_nat k) by lia.
    apply IH; [cbn in Hl; lia|unfold ring_set; by rewrite length_insert|done].
Qed.

(** ** Frames in the ring *)

Definition frame_at (buf : list Z) (p : Z) (f : list Z) : Prop :=
  exists flags, forall k x, (header flags f ++ f) !! k = Some x ->
    buf !! Z.to_nat ((p + Z.of_nat k) mod rxbuf_baselen) = Some x.

Fixpoint stored (buf : list Z) (p : Z) (fs : list (list Z)) : Prop :=
  match fs with
  | [] => True
  | f :: fs => frame_at buf p f /\ 0 < Z.of_nat (length f) < 2 ^ 16 /\ stored buf (p + need f) fs
  end.

Definition used (fs : list (list Z)) : Z := foldr (fun f z => need f + z) 0 fs.

Lemma used_snoc fs f : used (fs ++ [f]) = used fs + need f.
Proof. unfold used. induction fs as [|g fs IH]; cbn [app foldr]; [lia|]. rewrite IH. lia. Qed.

Lemma used_pos fs : 0 <= used fs /\ used fs mod 4 = 0.
Proof.
  unfold used. induction fs as [|f fs IH]; cbn [foldr]; [done|].
  destruct (need_range f) as (?&?&_). split; [lia|]. Z.div_mod_to_equations. lia.
Qed.

Lemma header_size flags f : length (header flags f) = 4%nat.
Proof. done. Qed.

Lemma stored_write buf p fs q l :
  stored buf p fs -> rxbuf_baselen <= Z.of_nat (length buf) ->
  p + used fs <= q -> q + Z.of_nat (length l) <= p + rxbuf_baselen -> stored (ring_write q l buf) p fs.
Proof.
  revert p; induction fs as [|f fs IH]; intros p Hs Hb Hq Hl; [done|].
  destruct Hs as ([flags Hf]&Hlen&Hs). unfold used in *. cbn [foldr] in Hq.
  pose proof (proj1 (used_pos fs)) as Hu. unfold used in Hu. destruct (need_range f) as (Hn&_&_).
  split; [|split; [done|]].
  - exists flags. intros k x Hk. rewrite ring_write_out; [by apply Hf|apply Z.mod_pos_bound; done|].
    intros j Hj E0. symmetry in E0. revert E0. apply apart_mod.
    apply lookup_lt_Some in Hk. rewrite length_app, header_size in Hk. lia.
  - apply IH; [done|done|lia|lia].
Qed.

Lemma stored_snoc buf p fs f flags :
  stored buf p fs -> rxbuf_baselen <= Z.of_nat (length buf) -> 0 < Z.of_nat (length f) < 2 ^ 16 ->
  used fs + need f <= rxbuf_baselen ->
  stored (ring_write (p + used fs) (header flags f ++ f) buf) p (fs ++ [f]).
Proof.
  intros Hs Hb Hf Hu. destruct (need_range f) as (Hn&_&_).
  assert (stored (ring_write (p + used fs) (header flags f ++ f) buf) p fs) as Hs'.
  { apply stored_write; [done|done|lia|]. rewrite length_app, header_size. lia. }
  assert (frame_at (ring_write (p + used fs) (header flags f ++ f) buf) (p + used fs) f) as Hfr.
  { exists flags. intros k x Hk. apply ring_write_in; [|done|done].
    rewrite length_app, header_size. pose proof (proj1 (used_pos fs)). lia. }
  revert Hs' Hfr. generalize (ring_write (p + used fs) (header flags f ++ f) buf). clear Hs Hb Hu.
  revert p; induction fs as [|g fs IH]; intros p b Hs Hfr.
  - cbn. unfold used in Hfr. cbn [foldr] in Hfr. rewrite Z.add_0_r in Hfr. done.
  - destruct Hs as (Hg&Hgl&Hs). split; [done|]. split; [done|]. apply IH; [done|].
    unfold used in *. cbn [foldr] in Hfr. by rewrite <- Z.add_assoc.
Qed.

Lemma stored_mod buf p p' fs : p mod rxbuf_baselen = p' mod rxbuf_baselen -> stored buf p fs -> stored buf p' fs.
Proof.
  revert p p'; induction fs as [|f fs IH]; intros p p' Hp Hs; [done|].
  assert (forall k, (p' + k) mod rxbuf_baselen = (p + k) mod rxbuf_baselen) as Hk.
  { intros k. rewrite <- (Z.add_mod_idemp_l p'), <- (Z.add_mod_idemp_l p), Hp by done. done. }
  destruct Hs as ([flags Hf]&Hl&Hs). split; [|split; [done|]].
  - exists flags. intros k x Hx. rewrite Hk. by apply Hf.
  - eapply IH; [|exact Hs]. by rewrite Hk.
Qed.

(** ** The invariant *)

(** [fs] are the frames in the ring. *)
Record nic_ok (fs : list (list Z)) (n : nic) : Prop := {
  ok_len : Z.of_nat (length (rxbuf n)) = rxbuf_baselen + 16;
  ok_pos : 0 <= rxpos n < rxbuf_baselen /\ rxpos n mod 4 = 0;
  ok_read : read_to n = rxpos n;
  ok_used : used fs < rxbuf_baselen;
  ok_cbr : cbr n = (rxpos n + used fs) mod rxbuf_baselen;
  ok_stored : stored (rxbuf n) (rxpos n) fs;
}.

Lemma ok_distance fs n : nic_ok fs n -> (cbr n - read_to n) mod rxbuf_baselen = used fs.
Proof.
  intros [_ [Hp _] Hr Hu Hc _]. rewrite Hr, Hc. pose proof (proj1 (used_pos fs)) as H0.
  rewrite Zminus_mod_idemp_l. replace (rxpos n + used fs - rxpos n) with (used fs) by lia.
  by apply Z.mod_small.
Qed.

Lemma ok_empty fs n : nic_ok fs n -> rx_empty n = bool_decide (fs = []).
Proof.
  intros Hok. pose proof (ok_distance _ _ Hok) as Hd. unfold rx_empty.
  destruct fs as [|f fs].
  - rewrite bool_decide_true by done. apply Z.eqb_eq. destruct Hok as [_ [Hp _] Hr _ Hc _].
    rewrite Hr, Hc. unfold used. cbn [foldr]. rewrite Z.add_0_r. by apply Z.mod_small.
  - rewrite bool_decide_false by done. apply Z.eqb_neq. intros E0. rewrite E0, Z.sub_diag in Hd.
    change (0 mod rxbuf_baselen) with 0 in Hd. unfold used in Hd. cbn [foldr] in Hd.
    destruct (need_range f) as (Hn&_). pose proof (proj1 (used_pos fs)) as Hu. unfold used in Hu. lia.
Qed.

Lemma receive_ok flags f fs n :
  nic_ok fs n -> 0 < Z.of_nat (length f) < 2 ^ 16 ->
  let n' := nic_receive flags f n in
  (if fits f n then nic_ok (fs ++ [f]) n' /\ intrstatus n' = true else n' = n) /\
  intrmask n' = intrmask n /\ blocked_on n' = blocked_on n /\ answers n' = answers n /\
  dead n' = dead n.
Proof.
  intros Hok Hf. pose proof (ok_distance _ _ Hok) as Hd. unfold nic_receive. fold (fits f n).
  destruct (fits f n) eqn:Hfit; [|done]. split; [|done]. split; [|done].
  unfold fits in Hfit. rewrite Hd in Hfit. zbool.
  destruct Hok as [Hl [Hp Hp4] Hr Hu Hc Hs]. split; cbn -[ring_write header].
  - by rewrite length_ring_write.
  - done.
  - exact Hr.
  - rewrite used_snoc. lia.
  - rewrite Hc, Zplus_mod_idemp_l, used_snoc. f_equal. lia.
  - assert (forall l b, Z.of_nat (length l) <= rxbuf_baselen -> rxbuf_baselen <= Z.of_nat (length b) ->
      ring_write (cbr n) l b = ring_write (rxpos n + used fs) l b) as ->.
    { rewrite Hc. intros l. generalize (rxpos n + used fs). intros p b _ _. revert p b.
      assert (forall k p b, ring_write (p mod rxbuf_baselen + k) l b = ring_write (p + k) l b) as Hk.
      { induction l as [|x l IH]; intros k p b; cbn; [done|].
        replace (p mod rxbuf_baselen + k + 1) with (p mod rxbuf_baselen + (k + 1)) by lia.
        replace (p + k + 1) with (p + (k + 1)) by lia. rewrite IH. f_equal. unfold ring_set.
        by rewrite Zplus_mod_idemp_l. }
      intros p b. specialize (Hk 0 p b). by rewrite !Z.add_0_r in Hk. }
    + apply stored_snoc; [done|lia|done|lia].
    + rewrite length_app, header_size. destruct (need_range f) as (Hn&_).
      pose proof (proj1 (used_pos fs)). lia.
    + lia.
Qed.

(** ** Taking a frame *)

Lemma bget_ring buf p x : 0 <= p -> buf !! Z.to_nat p = Some x -> bget buf p = Ok x.
Proof. intros Hp Hx. unfold bget. by rewrite (proj2 (Z.leb_le _ _)), Hx by done. Qed.

Lemma frame_byte buf p f k x :
  frame_at buf p f -> f !! k = Some x -> buf !! Z.to_nat ((p + 4 + Z.of_nat k) mod rxbuf_baselen) = Some x.
Proof.
  intros [flags Hf] Hk. replace (p + 4 + Z.of_nat k) with (p + Z.of_nat (4 + k)) by lia. apply Hf.
  exact Hk.
Qed.

Lemma frame_header buf p f :
  frame_at buf p f -> 0 <= p < rxbuf_baselen -> p mod 4 = 0 -> 0 < Z.of_nat (length f) < 2 ^ 16 ->
  (exists flags, get16 buf p = Ok flags) /\ get16 buf (p + 2) = Ok (Z.of_nat (length f)).
Proof.
  intros [flags Hf] Hp H4 Hl.
  assert (forall k : nat, (k < 4)%nat -> (p + Z.of_nat k) mod rxbuf_baselen = p + Z.of_nat k) as Hm.
  { intros k Hk. apply Z.mod_small. rewrite baselen in *. Z.div_mod_to_equations. lia. }
  assert (forall (k : nat) x, (k < 4)%nat -> header flags f !! k = Some x -> bget buf (p + Z.of_nat k) = Ok x) as Hb.
  { intros k x Hk Hx. apply bget_ring; [lia|]. rewrite <- (Hm k Hk). apply Hf. by rewrite lookup_app_l. }
  pose proof (Hb 0%nat _ ltac:(lia) eq_refl) as B0. pose proof (Hb 1%nat _ ltac:(lia) eq_refl) as B1.
  pose proof (Hb 2%nat _ ltac:(lia) eq_refl) as B2. pose proof (Hb 3%nat _ ltac:(lia) eq_refl) as B3.
  change (Z.of_nat 0) with 0 in B0. change (Z.of_nat 1) with 1 in B1.
  change (Z.of_nat 2) with 2 in B2. change (Z.of_nat 3) with 3 in B3. rewrite Z.add_0_r in B0. unfold get16.
  replace (p + 2 + 1) with (p + 3) by lia. rewrite B0, B1, B2, B3. cbn. split; [eauto|].
  f_equal. Z.div_mod_to_equations. lia.
Qed.

Lemma copy_out_frame buf p f d :
  Z.of_nat (length buf) = rxbuf_baselen + 16 -> frame_at buf p f -> 0 <= p < rxbuf_baselen -> p mod 4 = 0 ->
  0 <= d <= Z.of_nat (length f) -> Z.of_nat (length f) < rxbuf_baselen ->
  copy_out buf (p + 4) d = Ok (take (Z.to_nat d) f).
Proof.
  intros Hb Hf Hp H4 Hd Hl. assert (p + 4 <= rxbuf_baselen) as Hp4 by (rewrite baselen in *; Z.div_mod_to_equations; lia).
  unfold copy_out. destruct (Z.leb_spec (p + 4 + d) rxbuf_baselen) as [Hle|Hgt].
  - rewrite bload_in by lia. f_equal. apply list_eq. intros k. rewrite sub_lookup. case_decide as Hk.
    + rewrite lookup_take_lt by done.
      destruct (lookup_lt_is_Some_2 f k) as [x Hx]; [lia|]. rewrite Hx.
      rewrite <- (frame_byte _ _ _ _ _ Hf Hx). rewrite Z.mod_small by lia. f_equal. lia.
    + symmetry. apply lookup_take_ge. lia.
  - rewrite bload_in by lia. cbn [mbind res_bind]. rewrite bload_in by lia. cbn [mbind res_bind].
    f_equal. apply list_eq. intros k. set (chunk := Z.to_nat (rxbuf_baselen - (p + 4))).
    assert (length (take chunk (drop (Z.to_nat (p + 4)) buf)) = chunk) as Hc
      by (rewrite length_take, length_drop; unfold chunk; lia).
    destruct (decide (k < Z.to_nat d)%nat) as [Hk|Hk].
    + rewrite (lookup_take_lt f) by done.
      destruct (lookup_lt_is_Some_2 f k) as [x Hx]; [lia|]. rewrite Hx.
      rewrite <- (frame_byte _ _ _ _ _ Hf Hx).
      destruct (decide (k < chunk)%nat) as [Hkc|Hkc].
      * rewrite lookup_app_l, lookup_take_lt, lookup_drop by lia. rewrite Z.mod_small by lia. f_equal. lia.
      * rewrite lookup_app_r, Hc, lookup_take_lt, lookup_drop by lia.
        rewrite <- (Z.mod_unique (p + 4 + Z.of_nat k) rxbuf_baselen 1 (p + 4 + Z.of_nat k - rxbuf_baselen)) by lia.
        f_equal. lia.
    + rewrite (lookup_take_ge f) by lia. apply lookup_ge_None_2.
      rewrite length_app, Hc, length_take, length_drop. lia.
Qed.

Lemma wrap_pos_mod fuel pos :
  0 <= pos < rxbuf_baselen * (Z.of_nat fuel + 1) -> wrap_pos fuel pos = Ok (pos mod rxbuf_baselen).
Proof.
  revert pos; induction fuel as [|k IH]; intros pos Hp; cbn [wrap_pos].
  - rewrite (proj2 (Z.leb_gt _ _)), Z.mod_small by lia. done.
  - destruct (Z.leb_spec rxbuf_baselen pos); [|by rewrite Z.mod_small by lia].
    rewrite IH by lia. f_equal. rewrite <- (Z.mod_add (pos - rxbuf_baselen) 1) by done. f_equal. lia.
Qed.

Lemma align_pos p f :
  p mod 4 = 0 -> Z.land (p + 4 + Z.of_nat (length f) + 3) (Z.lnot 3) = p + need f.
Proof.
  intros Hp. change (Z.lnot 3) with (Z.lnot (Z.ones 2)).
  rewrite <- Z.ldiff_land, Z.ldiff_ones_r, Z.shiftl_mul_pow2, Z.shiftr_div_pow2 by lia.
  unfold need, align4. change (2 ^ 2) with 4. Z.div_mod_to_equations. lia.
Qed.

Lemma try_rx_takes f fs n dlen :
  nic_ok (f :: fs) n -> 0 <= dlen ->
  exists n', try_rx dlen n = Ok (Some (Z.of_nat (length f), take (Z.to_nat dlen) f), n') /\
    nic_ok fs n' /\ intrmask n' = intrmask n /\ intrstatus n' = intrstatus n /\
    blocked_on n' = blocked_on n /\ answers n' = answers n /\ dead n' = dead n.
Proof.
  intros Hok Hd. unfold try_rx. rewrite (ok_empty _ _ Hok), bool_decide_false by done.
  destruct Hok as [Hl [Hp H4] Hr Hu Hc (Hf&Hfl&Hs)].
  unfold used in Hu, Hc. cbn [foldr] in Hu, Hc. fold (used fs) in Hu, Hc.
  pose proof (used_pos fs) as [Hu0 _]. destruct (need_range f) as (Hn&Hn4&_).
  destruct (frame_header _ _ _ Hf Hp H4 Hfl) as [[flags ->] ->]. cbn [mbind res_bind].
  rewrite (proj2 (Z.eqb_neq _ 0)) by lia.
  set (d := if Z.of_nat (length f) <? dlen then Z.of_nat (length f) else dlen).
  assert (0 <= d <= Z.of_nat (length f) /\ take (Z.to_nat d) f = take (Z.to_nat dlen) f) as [Hdr Htk].
  { unfold d. destruct (Z.ltb_spec (Z.of_nat (length f)) dlen); [|split; [lia|done]].
    split; [lia|]. by rewrite !take_ge by lia. }
  rewrite (copy_out_frame _ _ f d) by (done || lia). cbn [mbind res_bind].
  rewrite align_pos by done. rewrite wrap_pos_mod by lia. cbn [mbind res_bind]. rewrite Htk.
  eexists. split; [reflexivity|]. split; [|done].
  set (pos := (rxpos n + need f) mod rxbuf_baselen).
  assert (0 <= pos < rxbuf_baselen /\ pos mod 4 = 0) as [Hpos Hpos4].
  { unfold pos. split; [by apply Z.mod_pos_bound|]. rewrite baselen. Z.div_mod_to_equations. lia. }
  split; cbn; try done.
  - unfold read_to. cbn. unfold u16. rewrite baselen in *. Z.div_mod_to_equations. lia.
  - lia.
  - rewrite Hc. unfold pos. rewrite Zplus_mod_idemp_l. f_equal. lia.
  - eapply stored_mod; [|exact Hs]. unfold pos. by rewrite Zmod_mod.
Qed.

(** ** Readers and frames *)

Definition is_read (r : nic_req) : bool := match rq_op r with NRead _ => true | _ => false end.

(** The answer to a reader that gets a frame. *)
Definition answer (r : nic_req) (f : list Z) : nic_req * Z * list Z := (r, Z.of_nat (length f), f).

Definition gets_frame (a : nic_req * Z * list Z) : bool := is_read a.1.1 && (0 <? a.1.2).

(** A reader that gets no frame is told so, and has lost its caller. *)
Definition excused (gone : list Z) (a : nic_req * Z * list Z) : Prop :=
  is_read a.1.1 = true -> gets_frame a = false -> a.1.2 = -1 /\ rq_id a.1.1 ∈ gone.

Section delivery.
Context (mtu : Z).

Definition waits (r : nic_req) : Prop := is_read r = true /\ req_ok mtu r.

(** Of the frames received, the first have been delivered, one to a reader, and
    [fs] are in the ring; of the requests, those without an answer wait. *)
Record delivering (recv : list (list Z)) (reqs : list nic_req) (fs : list (list Z)) (n : nic) : Prop := {
  de_ok : nic_ok fs n;
  de_frames : exists qs ds, recv = ds ++ fs /\ length qs = length ds /\
    List.filter gets_frame (answers n) = zip_with answer qs ds;
  de_all : (fst ∘ fst <$> answers n) ++ blocked_on n ≡ₚ reqs;
  de_dead : Forall (excused (dead n)) (answers n);
  de_reads : Forall waits (blocked_on n);
  de_mtu : Forall (fun f => Z.of_nat (length f) <= mtu) fs;
}.

Lemma zip_answer_snoc qs ds q f :
  length qs = length ds -> zip_with answer (qs ++ [q]) (ds ++ [f]) = zip_with answer qs ds ++ [answer q f].
Proof. intros Hl. by rewrite zip_with_app. Qed.

(** A request that is finished without a frame. *)
Lemma finish_delivers recv reqs fs n n' r ret :
  delivering recv reqs fs n -> nic_ok fs n' -> answers n' = answers n -> blocked_on n' = blocked_on n ->
  dead n' = dead n -> (is_read r = true -> ret = -1 /\ rq_id r ∈ dead n) ->
  exists n2, finish r ret [] n' = Ok n2 /\ delivering recv (reqs ++ [r]) fs n2 /\
    intrstatus n2 = intrstatus n' /\ intrmask n2 = intrmask n' /\ blocked_on n2 = blocked_on n'.
Proof.
  intros [_ (qs&ds&H1&H2&H3) Hall Hd Hr Hmt] Hok Ha Hb Hdd Hret. unfold finish.
  assert (match rq_op r with NRead dlen => (ret <? 0) || (ret <=? dlen) | _ => true end = true) as ->.
  { unfold is_read in Hret. destruct (rq_op r); [done| |done..]. by destruct Hret as [-> _]. }
  cbn [assert_ mbind res_bind]. eexists. split; [reflexivity|]. split; [|done].
  assert (gets_frame (r, ret, []) = false) as Hg.
  { unfold gets_frame. cbn. destruct (is_read r); [|done]. destruct Hret as [-> _]; done. }
  split; cbn; rewrite ?Ha, ?Hb, ?Hdd.
  - destruct Hok; by split.
  - exists qs, ds. rewrite List.filter_app, H3. cbn. by rewrite Hg, app_nil_r.
  - rewrite fmap_app. cbn. rewrite <- Hall, <- !app_assoc. apply Permutation_app_head, Permutation_app_comm.
  - apply Forall_app_2; [done|]. apply Forall_singleton. intros H _. by apply Hret.
  - done.
  - done.
Qed.

(** What [accept] does to the readers and the frames. *)
Definition accepted (r : nic_req) (fs fs' : list (list Z)) (n n' : nic) : Prop :=
  intrstatus n' = intrstatus n /\
  ((blocked_on n' = blocked_on n /\ intrmask n' = intrmask n /\ (fs = [] -> fs' = [])) \/
   (fs = [] /\ fs' = [] /\ intrmask n' = true /\ blocked_on n' = blocked_on n ++ [r])).

Lemma accept_delivers recv reqs fs n r :
  delivering recv reqs fs n -> req_ok mtu r ->
  exists n' fs', accept r n = Ok n' /\ delivering recv (reqs ++ [r]) fs' n' /\ accepted r fs fs' n n'.
Proof.
  intros Hde Hr. unfold accept.
  assert (Hfin : forall ret, (is_read r = true -> ret = -1 /\ rq_id r ∈ dead n) ->
    exists n' fs', finish r ret [] n = Ok n' /\
      delivering recv (reqs ++ [r]) fs' n' /\ accepted r fs fs' n n').
  { intros ret Hret.
    destruct (finish_delivers recv reqs fs n n r ret Hde (de_ok _ _ _ _ Hde) eq_refl eq_refl eq_refl Hret)
      as (n2&->&H2&Hs&Hm&Hb).
    exists n2, fs. split; [done|]. split; [done|]. split; [done|by left]. }
  case_bool_decide as Hd; [by apply Hfin|].
  unfold req_ok in Hr. destruct (rq_op r) as [len|dlen|kern slen data own|] eqn:Ho.
  - apply Hfin. unfold is_read. by rewrite Ho.
  - pose proof Hde as [Hok (qs&ds&Hrecv&Hlen&Hfil) Hall Hdead Hreads Hmtu].
    destruct fs as [|f fs].
    + unfold try_rx. rewrite (ok_empty _ _ Hok), bool_decide_true by done. cbn [mbind res_bind].
      eexists _, []. split; [done|]. split; [|split; [done|by right]].
      split; cbn; [destruct Hok; by split|by exists qs, ds|by rewrite app_assoc, Hall|done| |done].
      apply Forall_app_2; [done|]. apply Forall_singleton. split; unfold is_read, req_ok; by rewrite Ho.
    + apply Forall_cons in Hmtu as [Hfm Hmtu].
      destruct (try_rx_takes f fs n dlen Hok ltac:(lia)) as (n1&->&Hok1&Hm&Hs&Hb&Ha&Hdd). cbn [mbind res_bind].
      unfold finish. rewrite Ho, (proj2 (Z.leb_le (Z.of_nat (length f)) dlen)), orb_true_r by lia.
      rewrite take_ge by lia. cbn [assert_ mbind res_bind].
      eexists _, fs. split; [done|]. split; [|split; [done|left; by split_and!]].
      change (r, Z.of_nat (length f), f) with (answer r f).
      split; cbn; rewrite ?Ha, ?Hb, ?Hdd.
      * destruct Hok1; by split.
      * exists (qs ++ [r]), (ds ++ [f]). split; [by rewrite <- app_assoc|].
        split; [rewrite !length_app; cbn; lia|]. rewrite List.filter_app, Hfil, zip_answer_snoc by done.
        f_equal. cbn. destruct Hok as [_ _ _ _ _ (_&Hfl&_)].
        replace (gets_frame (answer r f)) with true; [done|].
        unfold gets_frame, is_read; cbn. rewrite Ho. symmetry. apply Z.ltb_lt. lia.
      * rewrite fmap_app. cbn. rewrite <- Hall, <- !app_assoc. apply Permutation_app_head, Permutation_app_comm.
      * apply Forall_app_2; [done|]. apply Forall_singleton. intros _ Hg. exfalso.
        destruct Hok as [_ _ _ _ _ (_&Hfl&_)]. unfold gets_frame, is_read in Hg; cbn in Hg. rewrite Ho in Hg.
        zbool. lia.
      * done.
      * done.
  - destruct Hr as [-> ->]. cbn [negb assert_ mbind res_bind].
    assert (exists ret t, try_tx true slen data (txs n) = Ok (ret, t)) as (ret&t&->).
    { unfold try_tx. destruct (_ <? slen); [eauto|]. destruct (_ <? slen); [eauto|]. cbn [negb].
      destruct (_ <? slen); eauto. }
    cbn [mbind res_bind].
    destruct (finish_delivers recv reqs fs n (n <| txs := t |>) r ret Hde) as (n2&->&H2&Hs&Hm&Hb);
      [destruct (de_ok _ _ _ _ Hde); by split|done..|unfold is_read; by rewrite Ho|].
    exists n2, fs. split; [done|]. split; [done|]. split; [done|by left].
  - apply Hfin. unfold is_read. by rewrite Ho.
Qed.

(** Nothing of the ring and the readers changes. *)
Lemma delivering_same recv reqs fs n n' :
  delivering recv reqs fs n -> rxbuf n' = rxbuf n -> rxpos n' = rxpos n -> cbr n' = cbr n ->
  capr n' = capr n -> blocked_on n' = blocked_on n -> answers n' = answers n ->
  (forall id, id ∈ dead n -> id ∈ dead n') -> delivering recv reqs fs n'.
Proof.
  intros [[] (qs&ds&?) Hall Hd Hr Hmt] H1 H2 H3 H4 H5 H6 H7. split.
  - split; unfold read_to in *; rewrite ?H1, ?H2, ?H3, ?H4; done.
  - exists qs, ds. by rewrite H6.
  - by rewrite H5, H6.
  - rewrite H6. eapply Forall_impl; [exact Hd|]. intros a Ha Hra Hg. destruct (Ha Hra Hg). auto.
  - by rewrite H5.
  - done.
Qed.

(** A turn of the handler's loop.  It ends when the ring is empty or nobody
    waits. *)
Lemma turn_delivers recv reqs fs n :
  delivering recv reqs fs n -> intrmask n = true ->
  exists go n' fs', irq_turn n = Ok (go, n') /\ delivering recv reqs fs' n' /\
    (blocked_on n' <> [] -> intrmask n' = true) /\
    (if (go : bool) then intrmask n' = true /\ intrstatus n' = intrstatus n /\
       (length (blocked_on n') < length (blocked_on n))%nat
     else fs' = [] \/ blocked_on n' = []).
Proof.
  intros Hde Hm. unfold irq_turn. rewrite (ok_empty _ _ (de_ok _ _ _ _ Hde)). case_bool_decide as Hfs.
  { exists false, n, fs. split; [done|]. split; [done|]. split; [done|by left]. }
  destruct (blocked_on n) as [|r rest] eqn:Hb.
  { exists false, (rx_irq_enable false n), fs. split; [done|].
    split; [by eapply delivering_same|]. split; [cbn; by rewrite Hb|by right]. }
  pose proof Hde as [Hok (qs&ds&Hf) Hall Hd Hr Hmt]. rewrite Hb in Hall, Hr. apply Forall_cons in Hr as [[_ Hr] Hrest].
  assert (delivering recv ((fst ∘ fst <$> answers n) ++ rest) fs (n <| blocked_on := rest |>)) as Hde1.
  { split; cbn; [destruct Hok; by split|by exists qs, ds|done..]. }
  destruct (accept_delivers _ _ _ _ r Hde1 Hr) as (n'&fs'&->&Hde2&Hs&Hacc). cbn [mbind res_bind].
  assert (blocked_on n' = rest /\ intrmask n' = true) as [Hb' Hm'].
  { destruct Hacc as [(?&E&_)|(?&_)]; [|done]. split; [done|]. rewrite E. exact Hm. }
  exists true, n', fs'. split; [done|]. split; [|split; [done|split; [done|rewrite Hb'; cbn; split; [done|lia]]]].
  destruct Hde2 as [? ? Hall2 ? ? ?]. split; try done.
  rewrite Hall2, <- Hall, <- app_assoc. apply Permutation_app_head. symmetry. apply Permutation_cons_append.
Qed.

(** A reader that waits is woken: the interrupt is enabled, and has been raised
    if there is a frame, unless the last one came too late. *)
Definition woken (fs : list (list Z)) (m : machine) : Prop :=
  (blocked_on (card m) <> [] -> intrmask (card m) = true) /\
  match pc m with
  | Idle => late m = false -> blocked_on (card m) <> [] -> fs <> [] -> intrstatus (card m) = true
  | Draining => intrmask (card m) = true
  | Leaving => late m = false -> fs = [] \/ blocked_on (card m) = []
  end.

Lemma nic_step_delivers e recv reqs fs m :
  event_ok mtu e -> delivering recv reqs fs (card m) -> woken fs m ->
  exists m' (took : bool) fs', nic_step e m = Ok (m', took) /\
    let l := if took then [e] else [] in
    delivering (recv ++ frames l) (reqs ++ requests l) fs' (card m') /\ woken fs' m'.
Proof.
  intros He Hde Hw. destruct m as [n p lt]. unfold woken in *; cbn [card pc late] in *.
  assert (Hno : exists m' (took : bool) fs', Ok (mkMachine n p lt, false) = Ok (m', took) /\
    delivering (recv ++ frames (if took then [e] else [])) (reqs ++ requests (if took then [e] else []))
      fs' (card m') /\ (blocked_on (card m') <> [] -> intrmask (card m') = true) /\
    match pc m' with
    | Idle => late m' = false -> blocked_on (card m') <> [] -> fs' <> [] -> intrstatus (card m') = true
    | Draining => intrmask (card m') = true
    | Leaving => late m' = false -> fs' = [] \/ blocked_on (card m') = []
    end).
  { eexists _, false, fs. split; [done|]. cbn [frames requests omap list_omap]. by rewrite !app_nil_r. }
  destruct e as [flags f|r|id| |]; unfold nic_step; cbn [card pc late idle].
  - destruct He as [He Hem]. destruct (receive_ok flags f fs n (de_ok _ _ _ _ Hde) He) as (Hr&Hm&Hb&Ha&Hd).
    destruct (fits f n) eqn:Hfit; [|rewrite Hr; exact Hno].
    destruct Hr as [Hok' Hst]. eexists _, true, (fs ++ [f]). split; [reflexivity|].
    cbn [frames requests omap list_omap card pc late]. rewrite app_nil_r, Hb, Hm, Hst. split.
    + destruct Hde as [_ (qs&ds&->&H2&H3) Hall Hdd Hrd Hmt].
      split; rewrite ?Ha, ?Hb, ?Hd; [done| |done..|by apply Forall_app_2; [|apply Forall_singleton]].
      exists qs, ds. by rewrite <- app_assoc.
    + destruct Hw as [Hw1 Hw2]. split; [exact Hw1|]. by destruct p.
  - unfold idle; cbn [pc]. destruct p; [|exact Hno..].
    destruct (accept_delivers _ _ _ _ r Hde He) as (n'&fs'&->&Hde'&Hs&Hacc). cbn [mbind res_bind].
    eexists _, true, fs'. split; [reflexivity|]. cbn [frames requests omap list_omap card pc late].
    rewrite app_nil_r, Hs. split; [done|].
    destruct Hw as [Hw1 Hw2]. destruct Hacc as [(->&->&Hfs)|(->&->&Hm'&_)].
    + split; [done|]. intros H1 H2 H3. apply Hw2; try done. intros ->. by apply H3, Hfs.
    + split; [done|]. by intros _ _ [].
  - unfold idle; cbn [pc]. destruct p; [|exact Hno..].
    eexists _, true, fs. split; [reflexivity|]. cbn [frames requests omap list_omap card pc late].
    rewrite !app_nil_r. split; [|exact Hw]. eapply delivering_same; try done. intros x Hx. by apply list_elem_of_further.
  - unfold idle; cbn [pc]. destruct p; [|exact Hno..]. cbn [andb].
    destruct (intrmask n) eqn:Em; [|exact Hno]. destruct (intrstatus n) eqn:Es; [|exact Hno].
    cbn [andb]. unfold irq_enter. rewrite Es. cbn [mbind res_bind].
    eexists _, true, fs. split; [reflexivity|]. cbn [frames requests omap list_omap card pc late].
    by rewrite !app_nil_r, Em.
  - destruct p; [exact Hno| |].
    + destruct (turn_delivers _ _ _ _ Hde (proj2 Hw)) as (go&n'&fs'&->&Hde'&Hb'&Hgo). cbn [mbind res_bind].
      eexists _, true, fs'. split; [reflexivity|]. cbn [frames requests omap list_omap card pc late].
      rewrite !app_nil_r. split; [done|]. split; [done|]. destruct go; [by destruct Hgo|done].
    + eexists _, true, fs. split; [reflexivity|]. cbn [frames requests omap list_omap card pc late].
      rewrite !app_nil_r. split; [by eapply delivering_same|]. split; [apply Hw|].
      intros H1 H2 H3. exfalso. by destruct (proj2 Hw H1).
Qed.

Lemma nic_run_delivers evs recv reqs fs m :
  Forall (event_ok mtu) evs -> delivering recv reqs fs (card m) -> woken fs m ->
  exists m' l fs', nic_run evs m = Ok (m', l) /\
    delivering (recv ++ frames l) (reqs ++ requests l) fs' (card m') /\ woken fs' m'.
Proof.
  intros Hev. revert recv reqs fs m. induction Hev as [|e evs He Hev IH]; intros recv reqs fs m Hde Hw; cbn [nic_run].
  { exists m, [], fs. by rewrite !app_nil_r. }
  destruct (nic_step_delivers e recv reqs fs m He Hde Hw) as (m1&took&fs1&->&Hde1&Hw1). cbn [mbind res_bind].
  destruct (IH _ _ _ _ Hde1 Hw1) as (m2&l2&fs2&->&Hde2&Hw2). cbn [mbind res_bind].
  eexists m2, _, fs2. split; [reflexivity|]. split; [|done].
  unfold frames, requests in *. by rewrite !omap_app, !app_assoc.
Qed.

(** The handler ends, whatever arrives while it runs: it takes a reader in every
    turn but the last. *)
Lemma handler_ends recv reqs fs m :
  delivering recv reqs fs (card m) -> woken fs m -> pc m = Draining ->
  exists m', nic_step Handler m = Ok (m', true) /\
    (pc m' = Leaving \/ pc m' = Draining /\
     (length (blocked_on (card m')) < length (blocked_on (card m)))%nat).
Proof.
  intros Hde Hw Hp. unfold woken in Hw. unfold nic_step. rewrite Hp in *.
  destruct (turn_delivers _ _ _ _ Hde (proj2 Hw)) as (go&n'&fs'&->&_&_&Hgo). cbn [mbind res_bind].
  eexists. split; [reflexivity|]. destruct go; [right; by destruct Hgo as (_&_&?)|by left].
Qed.

End delivery.

(** A reader gets the first frame; of three that wait, one dies, one gets the
    second frame, and one a frame that comes while the handler runs. *)
Definition reader (id dlen : Z) : nic_req := mkReq id (NRead dlen).

Definition some_events : list event :=
  [Arrives 1 [1; 2; 3; 4; 5]; Requests (reader 1 100); Requests (reader 2 9); Requests (reader 3 9); Dies 2;
   Requests (reader 4 5); Arrives 1 [9; 8; 7; 6]; Interrupt; Handler; Handler;
   Arrives 1 [1]; Handler; Handler; Handler].

Definition some_ring : list Z := replicate (Z.to_nat 65552) 0.

Definition outcome (r : res (machine * list event)) :
    option (list (Z * Z * list Z) * list (list Z) * bool * bool) :=
  match r with
  | Ok (m, took) =>
      Some ((fun a => (rq_id a.1.1, a.1.2, a.2)) <$> answers (card m), frames took,
        bool_decide (blocked_on (card m) = [] ), intrstatus (card m))
  | Err _ => None
  end.

Lemma some_ring_length : Z.of_nat (length some_ring) = rxbuf_baselen + 16.
Proof. vm_compute. reflexivity. Qed.

Lemma some_outcome :
  outcome (nic_run some_events (machine0 some_ring)) =
    Some ([(1, 5, [1; 2; 3; 4; 5]); (2, -1, []); (3, 4, [9; 8; 7; 6]); (4, 1, [1])],
      [[1; 2; 3; 4; 5]; [9; 8; 7; 6]; [1]], true, false).
Proof. vm_compute. reflexivity. Qed.

Lemma some_events_ok : Forall (event_ok 5) some_events.
Proof. unfold some_events. repeat (apply Forall_cons; split; [cbn; lia|]). by apply Forall_nil. Qed.

#[global] Opaque some_ring.


#[global] Transparent some_ring.

(** A frame that is longer than a reader's buffer: what fits is copied, but the
    length of the frame is returned, and the assertion in [vfsreq_finish] fails.
    Whoever may read the card's file can bring the kernel down. *)
Lemma short_read_panics f fs n r dlen :
  nic_ok (f :: fs) n -> rq_op r = NRead dlen -> rq_id r ∉ dead n ->
  0 <= dlen < Z.of_nat (length f) -> accept r n = Err Panic.
Proof.
  intros Hok Ho Hd Hl. unfold accept. rewrite bool_decide_false, Ho by done.
  destruct (try_rx_takes f fs n dlen Hok ltac:(lia)) as (n1&->&_). cbn [mbind res_bind].
  unfold finish. rewrite Ho, (proj2 (Z.ltb_ge _ _)), (proj2 (Z.leb_gt _ _)) by lia. done.
Qed.

(** The interrupt is acknowledged after the ring was found empty: a frame that
    arrives in between is not announced, and the reader that waits is not woken. *)
Lemma late_frame_sleeps :
  match
    nic_run [Requests (reader 1 100); Requests (reader 2 100); Arrives 1 [9; 8; 7]; Interrupt;
      Handler; Handler; Arrives 1 [1; 2; 3; 4; 5]; Handler; Interrupt] (machine0 some_ring)
  with
  | Ok (m, took) =>
      rx_empty (card m) = false /\ rq_id <$> blocked_on (card m) = [2] /\ pc m = Idle /\
      intrstatus (card m) = false /\ late m = true
  | Err _ => False
  end.
Proof. vm_compute. done. Qed.

(** A frame that goes over the end of the ring is delivered whole. *)
Lemma wrapped_frame :
  match nic_run [Arrives 1 [1; 2; 3; 4; 5; 6; 7; 8; 9]; Requests (reader 1 100)]
    (mkMachine (nic0 some_ring <| rxpos := 65528 |> <| cbr := 65528 |> <| capr := 65512 |>) Idle false) with
  | Ok (m, _) => (fun a => a.2) <$> answers (card m) = [[1; 2; 3; 4; 5; 6; 7; 8; 9]] /\ rxpos (card m) = 8
  | Err _ => False
  end.
Proof. vm_compute. done. Qed.
