(* ===== verification/Printf.v ===== *)
(** * Printf

    Formatted output: [__printf_internal] and [vsnprintf] of
    [src/src/libk/printf.c].  The output function and its state are parameters,
    as in the code.  A format string is the list of its bytes with the
    terminating 0; a pointer into it is the rest of the list, and running past
    the end is undefined.  The cache of 64 bytes is the list of its first [cpos]
    bytes.  Arithmetic that the C standard leaves undefined (negating
    [LONG_MIN], shifting by 64) faults; sizes of objects do not wrap around.

    The theorems: [printf_renders], the equivalence with a rendering of the
    conversions one by one, independent of the cache and the cursor arithmetic,
    and [vsnprintf_truncates], what a caller of [snprintf] finds in its buffer. *)

From S2P Require Import Prelude Monad.

(** The variable arguments: integers (and pointers), strings, null pointers to
    strings. *)
Inductive va := VInt (z : Z) | VStr (s : list Z) | VNull.

Inductive lenmod := LM_int | LM_long | LM_longlong | LM_size.

Record mods := mkMods {
  fill_char : Z;
  field_width : Z;
  precision : Z;
}.

Record out_state (W : Type) := mkOs {
  backarg : W;
  written : Z;
  cache : list Z;
}.
Arguments mkOs {W} backarg written cache.
Arguments backarg {W} o.
Arguments written {W} o.
Arguments cache {W} o.

Definition clen : Z := 64.

Section printf.
Context {W : Type} (back : list Z -> W -> res W).

Definition P (A : Type) : Type := ST (out_state W) Empty_set A.

Definition call_back (buf : list Z) : P () :=
  os ← get_;
  w ← lift (back buf (backarg os));
  put_ (mkOs w (s32 (written os + Z.of_nat (length buf))) (cache os)).

Definition flush : P Z :=
  os ← get_;
  when (negb (Z.of_nat (length (cache os)) =? 0))
    (call_back (cache os);;
     modify (fun os => mkOs (backarg os) (written os) []));;
  gets written.

Definition output (buf : list Z) : P () :=
  os ← get_;
  if Z.of_nat (length (cache os)) + Z.of_nat (length buf) <? clen then
    put_ (mkOs (backarg os) (written os) (cache os ++ buf))
  else
    _ ← flush;
    call_back buf.

(** [amt] is an [int]. *)
Definition output_c (c amt : Z) : P () :=
  forM (seq 0 (Z.to_nat (s32 amt))) (fun _ => output [c]).

Definition pad (m : mods) (len : Z) : P () :=
  output_c (fill_char m) (field_width m - len).

(** [sign] is 0 for none. *)
Definition padnum (m : mods) (len sign : Z) : P () :=
  let s := if sign =? 0 then 0 else 1 in
  if len <? precision m then
    output_c (fill_char m) (field_width m - precision m - s);;
    when (negb (sign =? 0)) (output_c sign 1);;
    output_c 48 (precision m - len)
  else
    output_c (fill_char m) (field_width m - len - s);;
    when (negb (sign =? 0)) (output_c sign 1).

(** [while (n) { ... buf[--pos] = r + '0'; ... }]: [buf] is the part of the
    array from [pos] on. *)
Fixpoint put_digits (pos : nat) (base n : Z) (buf : list Z) : res (list Z) :=
  if n =? 0 then Ok buf
  else match pos with
       | O => Err Undefined
       | S pos => put_digits pos base (n / base) (n mod base + 48 :: buf)
       end.

Definition to_base (base n : Z) : res (list Z) :=
  if n =? 0 then Ok [48] else put_digits 24 base n [].

Definition output_uint (m : mods) (n sign : Z) : P () :=
  buf ← lift (to_base 10 n);
  padnum m (Z.of_nat (length buf)) sign;;
  output buf.

Definition output_octal (m : mods) (n : Z) : P () :=
  buf ← lift (to_base 8 n);
  padnum m (Z.of_nat (length buf)) 0;;
  output buf.

(** The number of hexadecimal digits: 16 at most, and the shift by 64 that
    tests for a seventeenth is undefined. *)
Fixpoint hex_len (fuel : nat) (len n : Z) : res Z :=
  match fuel with
  | O => Err OutOfFuel
  | S k =>
      if 64 <=? len * 4 then Err Undefined
      else if negb (Z.shiftr n (len * 4) =? 0) && (len * 4 <? 64)
      then hex_len k (len + 1) n
      else Ok len
  end.

Definition hex_char (n i : Z) : Z :=
  let h := 48 + Z.land (Z.shiftr n (i * 4)) 15 in
  if 57 <? h then h + 39 else h.

Fixpoint hex_digits (len : nat) (n : Z) : P () :=
  match len with
  | O => mret ()
  | S len => output_c (hex_char n (Z.of_nat len)) 1;; hex_digits len n
  end.

Definition output_uint16 (m : mods) (n : Z) : P () :=
  len ← lift (hex_len 17 1 n);
  padnum m len 0;;
  hex_digits (Z.to_nat len) n.

(** [va_arg] *)
Definition arg_int (args : list va) : P (Z * list va) :=
  match args with VInt z :: args => mret (z, args) | _ => fail Undefined end.

Definition arg_unsigned (lm : lenmod) (args : list va) : P (Z * list va) :=
  '(z, args) ← arg_int args;
  mret (match lm with LM_int => u32 z | _ => u64 z end, args).

(** A [size_t] is converted to [long]. *)
Definition arg_signed (lm : lenmod) (args : list va) : P (Z * list va) :=
  '(z, args) ← arg_int args;
  mret (match lm with LM_int => s32 z | _ => s64 z end, args).

Definition null_str : list Z := [40; 110; 117; 108; 108; 41].

Definition arg_str (args : list va) : P (list Z * list va) :=
  match args with
  | VStr s :: args => mret (s, args)
  | VNull :: args => mret (null_str, args)
  | _ => fail Undefined
  end.

(** [c = *fmt++] *)
Definition next (fmt : list Z) : P (Z * list Z) :=
  match fmt with c :: fmt => mret (c, fmt) | [] => fail Undefined end.

Definition is_digit (c : Z) : bool := (48 <=? c) && (c <=? 57).

(** The loop over the modifiers: only [0] is one. *)
Fixpoint modifiers (fmt : list Z) (fill : Z) : P (Z * Z * list Z) :=
  match fmt with
  | [] => fail Undefined
  | c :: fmt => if c =? 48 then modifiers fmt 48 else mret (fill, c, fmt)
  end.

(** [while ('0' <= c && c <= '9') { acc = acc * 10 + c - '0'; c = *fmt++; }] *)
Fixpoint number (c : Z) (fmt : list Z) (acc : Z) : P (Z * Z * list Z) :=
  if is_digit c then
    match fmt with
    | [] => fail Undefined
    | c' :: fmt => number c' fmt (u64 (u64 (acc * 10) + (c - 48)))
    end
  else mret (acc, c, fmt).

(** The precision: [.], then [*] or digits. *)
Definition get_precision (c : Z) (fmt : list Z) (args : list va) :
    P (Z * Z * list Z * list va) :=
  if c =? 46 then
    '(c, fmt) ← next fmt;
    if c =? 42 then
      '(p, args) ← arg_int args;
      '(c, fmt) ← next fmt;
      mret (u64 (s32 p), c, fmt, args)
    else
      '(p, c, fmt) ← number c fmt 0;
      mret (p, c, fmt, args)
  else mret (0, c, fmt, args).

(** [l], [ll], [z], [j] *)
Definition get_lenmod (c : Z) (fmt : list Z) : P (lenmod * Z * list Z) :=
  if c =? 108 then
    '(c, fmt) ← next fmt;
    if c =? 108 then '(c, fmt) ← next fmt; mret (LM_longlong, c, fmt)
    else mret (LM_long, c, fmt)
  else if c =? 122 then '(c, fmt) ← next fmt; mret (LM_size, c, fmt)
  else if c =? 106 then '(c, fmt) ← next fmt; mret (LM_longlong, c, fmt)
  else mret (LM_int, c, fmt).

Definition convert_string (m : mods) (args : list va) : P (list va) :=
  '(s, args) ← arg_str args;
  let len := Z.of_nat (length s) in
  let len := if (precision m <? len) && negb (precision m =? 0) then precision m else len in
  pad m len;;
  output (take (Z.to_nat len) s);;
  mret args.

Definition convert_signed (m : mods) (lm : lenmod) (args : list va) : P (list va) :=
  '(ns, args) ← arg_signed lm args;
  if ns <? 0 then
    if ns =? - 2 ^ 63 then fail Undefined
    else output_uint m (- ns) 45;; mret args
  else output_uint m ns 0;; mret args.

(** The conversions; an unknown one is ignored. *)
Definition convert (m : mods) (lm : lenmod) (c : Z) (args : list va) : P (list va) :=
  if c =? 99 then                                  (* c *)
    '(z, args) ← arg_int args; output_c (u8 z) 1;; mret args
  else if c =? 115 then convert_string m args      (* s *)
  else if c =? 112 then                            (* p *)
    output [48; 120];;
    '(z, args) ← arg_int args; output_uint16 m (u64 z);; mret args
  else if c =? 120 then                            (* x *)
    '(n, args) ← arg_unsigned lm args; output_uint16 m n;; mret args
  else if c =? 117 then                            (* u *)
    '(n, args) ← arg_unsigned lm args; output_uint m n 0;; mret args
  else if c =? 111 then                            (* o *)
    '(n, args) ← arg_unsigned lm args; output_octal m n;; mret args
  else if (c =? 100) || (c =? 105) then convert_signed m lm args   (* d i *)
  else if c =? 37 then output [37];; mret args     (* % *)
  else mret args.

(** One turn of the main loop: a character of a streak, the end, or a
    conversion.  [seg] is the beginning of the streak. *)
Definition printf_turn (x : list Z * list Z * list va) :
    P ((list Z * list Z * list va) + Z) :=
  let '(seg, fmt0, args) := x in
  '(c, fmt) ← next fmt0;
  let streak := take (length seg - length fmt0) seg in
  if c =? 0 then output streak;; ret ← flush; mret (inr ret)
  else if negb (c =? 37) then mret (inl (seg, fmt, args))
  else
    output streak;;
    '(fill, c, fmt) ← modifiers fmt 32;
    '(width, c, fmt) ← number c fmt 0;
    '(prec, c, fmt, args) ← get_precision c fmt args;
    '(lm, c, fmt) ← get_lenmod c fmt;
    args ← convert (mkMods fill width prec) lm c args;
    mret (inl (fmt, fmt, args)).

Definition printf_loop (fmt : list Z) (args : list va) : P Z :=
  iter (S (length fmt)) printf_turn (fmt, fmt, args).

Definition printf_internal (fmt : list Z) (args : list va) (w : W) : res (Z * W) :=
  match printf_loop fmt args (mkOs w 0 []) with
  | Val r os => Ok (r, backarg os)
  | Fault x => Err x
  | Exit e _ => match e with end
  end.
End printf.

(** [vsnprintf]: [ptrs] are the offsets of the two pointers into the object
    [str], which has [len] bytes; [None] is [NULL]. *)
Record ptrs := mkPtrs { str : list Z; ptr0 : Z; ptr1 : Z }.

Definition vsnprintf_backend (buf : list Z) (w : option ptrs) : res (option ptrs) :=
  match w with
  | None => Ok None
  | Some w =>
      let space := u64 (ptr1 w - ptr0 w) in
      let len := Z.min (Z.of_nat (length buf)) space in
      let ptr0' := ptr0 w + len in
      if ptr0' <? Z.of_nat (length (str w)) then
        let s := splice (Z.to_nat (ptr0 w)) (take (Z.to_nat len) buf) (str w) in
        Ok (Some (mkPtrs (<[Z.to_nat ptr0' := 0]> s) ptr0' (ptr1 w)))
      else Err Undefined
  end.

Definition vsnprintf (str0 : option (list Z)) (len : Z) (fmt : list Z) (args : list va) :
    res (Z * option (list Z)) :=
  let w := (fun s => mkPtrs s 0 (len - 1)) <$> str0 in
  match printf_internal vsnprintf_backend fmt args w with
  | Ok (r, w) => Ok (r, str <$> w)
  | Err x => Err x
  end.

(** ** Changing the sink

    The interpreter does the same whatever it writes to.  Two runs on related
    sinks end in the same way, unless the second sink gives up: then the first
    one has got more than the second can take ([bad]), and stays so. *)

Lemma bind_eq {S E A B} (m : ST S E A) (f : A -> ST S E B) s a s' :
  m s = Val a s' -> (m ≫= f) s = f a s'.
Proof. unfold mbind, st_bind. by intros ->. Qed.

Section sim.
Context {W1 W2 : Type} (back1 : list Z -> W1 -> res W1) (back2 : list Z -> W2 -> res W2).
Context (RW : Z -> W1 -> W2 -> Prop) (bad : W1 -> Prop).
Context (back_sim : forall n w1 w2 b w1', b <> [] -> RW n w1 w2 -> back1 b w1 = Ok w1' ->
  (exists w2', back2 b w2 = Ok w2' /\ RW (s32 (n + Z.of_nat (length b))) w1' w2') \/
  back2 b w2 = Err Undefined /\ bad w1').
Context (back_bad : forall w1 b w1', bad w1 -> back1 b w1 = Ok w1' -> bad w1').

Definition os_sim (s1 : out_state W1) (s2 : out_state W2) : Prop :=
  written s1 = written s2 /\ cache s1 = cache s2 /\ Z.of_nat (length (cache s1)) < clen /\
  RW (written s1) (backarg s1) (backarg s2).

Definition same_end {A} (m1 : @P W1 A) (m2 : @P W2 A) : Prop :=
  forall s1 s2 a s1', os_sim s1 s2 -> m1 s1 = Val a s1' ->
  (exists s2', m2 s2 = Val a s2' /\ os_sim s1' s2') \/ m2 s2 = Fault Undefined /\ bad (backarg s1').

Definition stays_bad {A} (m1 : @P W1 A) : Prop :=
  forall s1 a s1', bad (backarg s1) -> m1 s1 = Val a s1' -> bad (backarg s1').

Definition sim {A} (m1 : @P W1 A) (m2 : @P W2 A) : Prop := same_end m1 m2 /\ stays_bad m1.

Lemma sim_ret {A} (a : A) : sim (mret a) (mret a).
Proof. split; [intros s1 s2 ? ? Hs [= <- <-]; left; by exists s2|by intros s1 ? ? Hs [= <- <-]]. Qed.

Lemma sim_fail {A} x : sim (A := A) (fail x) (fail x).
Proof. done. Qed.

Lemma sim_lift {A} (r : res A) : sim (lift r) (lift r).
Proof. destruct r; [apply sim_ret|done]. Qed.

Lemma sim_bind {A B} (m1 : @P W1 A) (m2 : @P W2 A) (f1 : A -> @P W1 B) (f2 : A -> @P W2 B) :
  sim m1 m2 -> (forall a, sim (f1 a) (f2 a)) -> sim (m1 ≫= f1) (m2 ≫= f2).
Proof.
  intros [Hm Hb] Hf. split.
  - intros s1 s2 b s1' Hs (a&t1&E1&E)%bind_val.
    destruct (Hm s1 s2 a t1 Hs E1) as [(t2&E2&Ht)|[E2 Ht]]; unfold mbind, st_bind; rewrite E2.
    + by apply (proj1 (Hf a) t1 t2).
    + right. split; [done|]. by eapply (proj2 (Hf a)).
  - intros s1 b s1' Hs (a&t1&E1&E)%bind_val. eapply (proj2 (Hf a)); [|exact E]. by eapply Hb.
Qed.

Lemma sim_if {A} (b : bool) (m1 m1' : @P W1 A) (m2 m2' : @P W2 A) :
  sim m1 m2 -> sim m1' m2' -> sim (if b then m1 else m1') (if b then m2 else m2').
Proof. by destruct b. Qed.

Lemma sim_when (b : bool) m1 m2 : sim m1 m2 -> sim (when b m1) (when b m2).
Proof. intros. apply sim_if; [done|apply sim_ret]. Qed.

Lemma call_back_val {W} (back : list Z -> W -> res W) b s a s' :
  call_back back b s = Val a s' ->
  exists w, back b (backarg s) = Ok w /\
    s' = mkOs w (s32 (written s + Z.of_nat (length b))) (cache s).
Proof.
  unfold call_back, mbind, st_bind, get_; cbn. destruct (back b (backarg s)); cbn; [|done].
  intros [= <- <-]. eauto.
Qed.

Lemma sim_call_back b : b <> [] -> sim (call_back back1 b) (call_back back2 b).
Proof.
  intros Hb. split.
  - intros s1 s2 a s1' (Hn&Hc&Hl&Hw) (w1'&E&->)%call_back_val.
    unfold call_back, mbind, st_bind, get_; cbn.
    destruct (back_sim _ _ _ b w1' Hb Hw E) as [(w2'&->&Hw')|[-> Hw']]; cbn.
    + left. destruct a. eexists. split; [done|]. split_and!; cbn; congruence.
    + by right.
  - intros s1 a s1' Hs (w1'&E&->)%call_back_val. by eapply back_bad.
Qed.

Lemma sim_get {A} (f1 : out_state W1 -> @P W1 A) (f2 : out_state W2 -> @P W2 A) :
  (forall s1 s2, os_sim s1 s2 -> sim (f1 s1) (f2 s2)) -> stays_bad (get_ ≫= f1) ->
  sim (get_ ≫= f1) (get_ ≫= f2).
Proof.
  intros Hf Hb. split.
  - intros s1 s2 a s1' Hs E. exact (proj1 (Hf s1 s2 Hs) s1 s2 a s1' Hs E).
  - exact Hb.
Qed.

Lemma sim_gets_written : sim (gets written) (gets written).
Proof.
  split; [|by intros ? ? ? ? [= _ <-]].
  intros t1 t2 ? ? Ht [= <- <-]. left. exists t2. split; [|done]. unfold gets. by rewrite (proj1 Ht).
Qed.

Lemma bad_call_back b : stays_bad (call_back back1 b).
Proof. intros s1 a s1' Hs (w1'&E&->)%call_back_val. by eapply back_bad. Qed.

Lemma bad_flush : stays_bad (flush back1).
Proof.
  intros s1 a s1' Hs. unfold flush. intros (os&t&E0&E)%bind_val. injection E0 as <- <-.
  apply bind_val in E as ([]&t2&E&E2). injection E2 as <- <-.
  unfold when in E. destruct (negb _); [|by injection E as <-].
  apply bind_val in E as ([]&t3&E1&E2). injection E2 as <-. by apply bad_call_back in E1.
Qed.

Lemma sim_flush : sim (flush back1) (flush back2).
Proof.
  unfold flush. apply sim_get; [|apply bad_flush].
  intros s1 s2 Hs. pose proof Hs as (_&Hc&_&_). rewrite <- Hc.
  apply sim_bind; [|intros _; apply sim_gets_written].
  unfold when. destruct (negb _) eqn:Hl; [|apply sim_ret].
  apply sim_bind; [apply sim_call_back; intros H0; by rewrite H0 in Hl|].
  intros _. split; [|by intros ? ? ? ? [= _ <-]].
  intros t1 t2 ? ? (?&?&?&?) E. injection E as <- <-. left. eexists. split; [reflexivity|]. by split_and!.
Qed.

Lemma sim_output b : sim (output back1 b) (output back2 b).
Proof.
  assert (H : Z.of_nat (length b) <> 0 ->
    sim (flush back1;; call_back back1 b) (flush back2;; call_back back2 b)).
  { intros Hb. apply sim_bind; [apply sim_flush|]. intros _. apply sim_call_back. by intros ->. }
  split.
  - intros s1 s2 a s1' Hs. pose proof Hs as (Hn&Hc&Hl&Hw). unfold output.
    intros (os&t&E0&E)%bind_val. injection E0 as <- <-.
    erewrite bind_eq by reflexivity. rewrite <- Hc.
    destruct (_ <? clen) eqn:E1; zbool; [|by apply (proj1 (H ltac:(unfold clen in *; lia)) _ _ _ _ Hs)].
    injection E as <- <-. left. eexists. split; [reflexivity|]. split_and!; cbn; try done.
    by rewrite length_app, Nat2Z.inj_add.
  - intros s1 a s1' Hs. unfold output. intros (os&t&E0&E)%bind_val. injection E0 as <- <-.
    destruct (_ <? clen); [by injection E as _ <-|].
    apply bind_val in E as (z&t&E1&E2). apply bad_flush in E1; [|done]. by apply bad_call_back in E2.
Qed.

Lemma sim_output_c c n : sim (output_c back1 c n) (output_c back2 c n).
Proof.
  unfold output_c. induction (seq _ _); cbn; [apply sim_ret|].
  apply sim_bind; [apply sim_output|done].
Qed.

Hint Resolve sim_ret sim_fail sim_lift sim_when sim_flush sim_output sim_output_c : sim.
Ltac sim_tac :=
  repeat match goal with
  | |- sim (_ ≫= _) (_ ≫= _) => apply sim_bind; [|intros ?]
  | |- sim (if ?b then _ else _) (if ?b then _ else _) => apply sim_if
  | |- sim (let '(_, _) := ?p in _) _ => destruct p
  | |- sim (match ?p with _ => _ end) (match ?p with _ => _ end) => destruct p
  | |- _ => solve [auto with sim]
  end.

Lemma sim_padnum m len sign : sim (padnum back1 m len sign) (padnum back2 m len sign).
Proof. unfold padnum. sim_tac. Qed.

Lemma sim_hex_digits len n : sim (hex_digits back1 len n) (hex_digits back2 len n).
Proof. induction len; cbn [hex_digits]; sim_tac. Qed.
Hint Resolve sim_padnum sim_hex_digits : sim.

Lemma sim_modifiers fmt fill : sim (modifiers fmt fill) (modifiers fmt fill).
Proof. revert fill; induction fmt; intros fill; cbn [modifiers]; sim_tac. Qed.

Lemma sim_number c fmt acc : sim (number c fmt acc) (number c fmt acc).
Proof. revert c acc; induction fmt; intros c acc; cbn [number]; sim_tac. Qed.

Lemma sim_next fmt : sim (next fmt) (next fmt).
Proof. unfold next. sim_tac. Qed.

Lemma sim_arg_int args : sim (arg_int args) (arg_int args).
Proof. unfold arg_int. sim_tac. Qed.

Lemma sim_arg_str args : sim (arg_str args) (arg_str args).
Proof. unfold arg_str. sim_tac. Qed.
Hint Resolve sim_modifiers sim_number sim_next sim_arg_int sim_arg_str : sim.

Lemma sim_convert m lm c args : sim (convert back1 m lm c args) (convert back2 m lm c args).
Proof.
  unfold convert, convert_string, convert_signed, pad, arg_unsigned, arg_signed, output_uint,
    output_octal, output_uint16. sim_tac.
Qed.

Lemma sim_turn x : sim (printf_turn back1 x) (printf_turn back2 x).
Proof.
  destruct x as [[seg fmt] args]. unfold printf_turn, get_precision, get_lenmod.
  pose proof sim_convert. sim_tac.
Qed.

Lemma sim_iter n x : sim (iter n (printf_turn back1) x) (iter n (printf_turn back2) x).
Proof.
  revert x; induction n as [|n IH]; intros x; cbn; [apply sim_fail|].
  apply sim_bind; [apply sim_turn|]. intros [y|b]; [apply IH|apply sim_ret].
Qed.

(** What is returned is what was counted. *)
Lemma flush_result s r s' : flush back1 s = Val r s' -> written s' = r.
Proof.
  unfold flush. intros (os&s1&_&H)%bind_val. apply bind_val in H as (u&s2&_&H).
  by injection H as <- <-.
Qed.

Lemma turn_result x s r s' : printf_turn back1 x s = Val (inr r) s' -> written s' = r.
Proof.
  destruct x as [[seg fmt] args]. unfold printf_turn.
  intros ([c fmt1]&s1&_&H)%bind_val. destruct (c =? 0).
  { apply bind_val in H as (u&s2&_&H). apply bind_val in H as (ret&s3&H3&H).
    injection H as <- <-. by eapply flush_result. }
  destruct (negb _); [done|]. apply bind_val in H as (u&s2&_&H).
  apply bind_val in H as ([[? ?] ?]&s3&_&H). apply bind_val in H as ([[? ?] ?]&s4&_&H).
  apply bind_val in H as ([[[? ?] ?] ?]&s5&_&H). apply bind_val in H as ([[? ?] ?]&s6&_&H).
  by apply bind_val in H as (?&s7&_&H).
Qed.

Lemma iter_result n x s r s' : iter n (printf_turn back1) x s = Val r s' -> written s' = r.
Proof.
  revert x s; induction n as [|n IH]; intros x s H; cbn in H; [done|].
  apply bind_val in H as ([y|b]&s1&H1&H); [by eapply IH|].
  injection H as <- <-. by eapply turn_result.
Qed.

Lemma printf_sim fmt args w1 w2 r w1' :
  RW 0 w1 w2 -> printf_internal back1 fmt args w1 = Ok (r, w1') ->
  (exists w2', printf_internal back2 fmt args w2 = Ok (r, w2') /\ RW r w1' w2') \/
  printf_internal back2 fmt args w2 = Err Undefined /\ bad w1'.
Proof.
  intros Hw H. unfold printf_internal, printf_loop in *.
  assert (Hs : os_sim (mkOs w1 0 []) (mkOs w2 0 [])) by (split_and!; try done; cbn; unfold clen; lia).
  destruct (iter _ (printf_turn back1) _ _) as [a s1|[]|x] eqn:E; [|done].
  injection H as -> <-. pose proof (iter_result _ _ _ _ _ E) as Hr.
  destruct (proj1 (sim_iter (S (length fmt)) (fmt, fmt, args)) _ _ _ _ Hs E)
    as [(s2&->&_&_&_&Hw')|[-> Hb]]; [left|by right].
  exists (backarg s2). split; [done|]. by rewrite <- Hr.
Qed.
End sim.

(** ** What [snprintf] leaves in the buffer *)

(** The sink that keeps everything. *)
Definition append (b w : list Z) : res (list Z) := Ok (w ++ b).

(** The text [printf_internal] writes for a format. *)
Definition text (fmt : list Z) (args : list va) : res (Z * list Z) :=
  printf_internal append fmt args [].

(** The buffer after the text [l]: untouched if there is no text. *)
Definition shown (buf : list Z) (len : Z) (l : list Z) : list Z :=
  match l with
  | [] => buf
  | _ => splice 0 (take (Z.to_nat (len - 1)) l ++ [0]) buf
  end.

(** The bytes that are kept for a length: all of them for 0. *)
Definition room (len : Z) (l : list Z) : Z :=
  if len =? 0 then Z.of_nat (length l) + 1 else len.

Definition snprintf_sim (buf : list Z) (len n : Z) (l : list Z) (w : option ptrs) : Prop :=
  n = s32 (Z.of_nat (length l)) /\
  w = Some (mkPtrs (shown buf (room len l) l) (Z.min (room len l - 1) (Z.of_nat (length l))) (len - 1)).

(** A text that goes past the whole object. *)
Definition too_long (buf : list Z) (len : Z) (l : list Z) : Prop :=
  len = 0 /\ l <> [] /\ (length buf <= length l)%nat.

Lemma s32_add a b : s32 (s32 a + b) = s32 (a + b).
Proof. word_lia. Qed.

(** Writing on at the end of a splice. *)
Lemma splice_more {A} (a b : list A) x y buf :
  (length a + length b < length buf)%nat ->
  <[(length a + length b)%nat := y]> (splice (length a) b (splice 0 (a ++ [x]) buf)) =
  splice 0 (a ++ b ++ [y]) buf.
Proof.
  intros Hl. apply list_eq; intros i.
  assert (H1 : length (splice 0 (a ++ [x]) buf) = length buf)
    by (apply length_splice; rewrite length_app; cbn; lia).
  assert (H2 : length (splice (length a) b (splice 0 (a ++ [x]) buf)) = length buf)
    by (rewrite length_splice; lia).
  destruct (decide (i = length a + length b)%nat) as [->|Hi].
  - rewrite list_lookup_insert_eq by lia.
    rewrite splice_lookup_in by (rewrite !length_app; cbn; lia).
    rewrite Nat.sub_0_r, app_assoc, lookup_app_r by (rewrite length_app; lia).
    by rewrite length_app, Nat.sub_diag.
  - rewrite list_lookup_insert_ne by done.
    destruct (decide (i < length a)%nat); [|destruct (decide (i < length a + length b)%nat)].
    + rewrite splice_lookup_out by lia.
      rewrite !splice_lookup_in by (rewrite ?length_app; cbn; rewrite ?length_app; cbn; lia).
      by rewrite Nat.sub_0_r, !lookup_app_l by lia.
    + rewrite !splice_lookup_in by (rewrite ?length_app; cbn; rewrite ?length_app; cbn; lia).
      by rewrite Nat.sub_0_r, lookup_app_r, lookup_app_l by lia.
    + by rewrite !splice_lookup_out by
        (rewrite ?length_app; cbn; rewrite ?length_app; cbn; lia).
Qed.

(** Writing on behind what is shown. *)
Lemma shown_more buf len l c :
  let a := take (Z.to_nat (len - 1)) l in
  (length a + length c < length buf)%nat ->
  <[(length a + length c)%nat := 0]> (splice (length a) c (shown buf len l)) =
  splice 0 (a ++ c ++ [0]) buf.
Proof.
  intros a Hl. subst a. destruct l as [|z l]; [|by apply splice_more].
  rewrite take_nil in *. cbn [length app shown] in *.
  assert (Hx : exists x, buf !! 0%nat = Some x) by (apply lookup_lt_is_Some; lia).
  destruct Hx as [x Hx]. assert (Hm := splice_more [] c x 0 buf). cbn [length app] in Hm.
  rewrite <- Hm by lia. do 2 f_equal. destruct buf as [|? buf]; [done|]. by injection Hx as ->.
Qed.

Lemma length_shown buf len l :
  l = [] \/ (length (take (Z.to_nat (len - 1)) l) < length buf)%nat ->
  length (shown buf len l) = length buf.
Proof.
  intros H. destruct l; cbn [shown]; [done|]. apply length_splice. rewrite length_app. cbn [length].
  destruct H; [done|lia].
Qed.

Lemma text_length fmt args r l : text fmt args = Ok (r, l) -> r = s32 (Z.of_nat (length l)).
Proof.
  intros Ht. destruct (printf_sim append append (fun n l _ => n = s32 (Z.of_nat (length l))) (fun _ => False))
    with (fmt := fmt) (args := args) (w1 := @nil Z) (w2 := @nil Z) (r := r) (w1' := l)
    as [(w'&_&H)|[_ []]]; try done.
  intros n w1 w2 b ? _ -> [= <-]. left. eexists. split; [reflexivity|].
  by rewrite s32_add, length_app, Nat2Z.inj_add.
Qed.

(** One call of the sink, when [c] is what it takes of [b]. *)
Lemma backend_writes buf len l b p1 :
  let a := take (Z.to_nat (len - 1)) l in
  let c := take (Z.to_nat (Z.min (Z.of_nat (length b)) (u64 (p1 - Z.of_nat (length a))))) b in
  l = [] \/ (length a < length buf)%nat ->
  vsnprintf_backend b (Some (mkPtrs (shown buf len l) (Z.of_nat (length a)) p1)) =
  if (length a + length c <? length buf)%nat
  then Ok (Some (mkPtrs (splice 0 (a ++ c ++ [0]) buf) (Z.of_nat (length a + length c)) p1))
  else Err Undefined.
Proof.
  intros a c Ha. unfold vsnprintf_backend. cbn [ptr0 ptr1 Printf.str].
  pose proof (u64_range (p1 - Z.of_nat (length a))) as Hu. unfold is_size in Hu.
  assert (Hc : Z.min (Z.of_nat (length b)) (u64 (p1 - Z.of_nat (length a))) = Z.of_nat (length c))
    by (subst c; rewrite length_take; lia).
  fold c. rewrite Hc, length_shown, <- Nat2Z.inj_add, !Nat2Z.id by done.
  destruct (Nat.ltb_spec (length a + length c) (length buf)) as [Hin|Hout].
  - rewrite (proj2 (Z.ltb_lt _ _)) by lia. do 3 f_equal. by apply shown_more.
  - by rewrite (proj2 (Z.ltb_ge _ _)) by lia.
Qed.

Lemma shown_text buf len l b c :
  b <> [] -> take (Z.to_nat (len - 1)) (l ++ b) = c -> splice 0 (c ++ [0]) buf = shown buf len (l ++ b).
Proof.
  intros Hb <-. unfold shown. destruct (l ++ b) eqn:E; [by apply app_eq_nil in E as [_ ?]|done].
Qed.

(** A positive length: what fits is written. *)
Lemma back_fits buf len n l w b :
  1 <= len <= Z.of_nat (length buf) -> Z.of_nat (length buf) < 2 ^ 63 ->
  b <> [] -> snprintf_sim buf len n l w ->
  exists w', vsnprintf_backend b w = Ok w' /\
    snprintf_sim buf len (s32 (n + Z.of_nat (length b))) (l ++ b) w'.
Proof.
  intros Hl Hbuf Hb [-> ->]. unfold snprintf_sim, room. rewrite (proj2 (Z.eqb_neq len 0)) by lia.
  set (a := take (Z.to_nat (len - 1)) l).
  assert (Ha : Z.min (len - 1) (Z.of_nat (length l)) = Z.of_nat (length a))
    by (subst a; rewrite length_take; lia).
  rewrite Ha, backend_writes by (right; fold a; lia). fold a.
  rewrite (u64_small _) by (unfold is_size; lia).
  set (c := take (Z.to_nat (Z.min _ _)) b).
  assert (Hc : Z.of_nat (length c) = Z.min (Z.of_nat (length b)) (len - 1 - Z.of_nat (length a)))
    by (subst c; rewrite length_take; lia).
  rewrite (proj2 (Nat.ltb_lt _ _)) by lia. eexists. split; [reflexivity|].
  split; [by rewrite s32_add, length_app, Nat2Z.inj_add|]. do 2 f_equal; [|rewrite length_app; lia].
  rewrite app_assoc. apply shown_text; [done|]. rewrite take_app. fold a. f_equal. subst c.
  destruct (decide (Z.to_nat (len - 1) - length l <= length b)%nat).
  - f_equal. lia.
  - rewrite !take_ge by lia. done.
Qed.

(** Length 0: everything is written, until the object ends. *)
Lemma back_wraps buf n l w b :
  Z.of_nat (length buf) < 2 ^ 63 -> b <> [] -> l = [] \/ (length l < length buf)%nat ->
  snprintf_sim buf 0 n l w ->
  (exists w', vsnprintf_backend b w = Ok w' /\
    snprintf_sim buf 0 (s32 (n + Z.of_nat (length b))) (l ++ b) w' /\
    (length (l ++ b) < length buf)%nat) \/
  vsnprintf_backend b w = Err Undefined /\ (length buf <= length (l ++ b))%nat.
Proof.
  intros Hbuf Hb Hl [-> ->]. unfold snprintf_sim, room. cbn [Z.eqb].
  assert (Ht : forall x : list Z, take (Z.to_nat (Z.of_nat (length x) + 1 - 1)) x = x)
    by (intros x; rewrite take_ge; [done|lia]).
  replace (Z.min _ _) with (Z.of_nat (length (take (Z.to_nat (Z.of_nat (length l) + 1 - 1)) l)))
    by (rewrite Ht; lia).
  rewrite backend_writes, Ht by (by rewrite Ht).
  set (space := u64 (0 - 1 - Z.of_nat (length l))).
  assert (Hs : Z.of_nat (length buf) <= Z.of_nat (length l) + space).
  { subst space. assert (Z.of_nat (length l) < 2 ^ 63) by (destruct Hl as [-> |?]; [done|lia]).
    unfold u64. rewrite <- (Z.mod_unique (0 - 1 - Z.of_nat (length l)) (2 ^ 64) (-1)
      (2 ^ 64 - 1 - Z.of_nat (length l))); lia. }
  rewrite length_app. destruct (decide (length l + length b < length buf)%nat) as [Hin|Hout].
  - left. replace (take (Z.to_nat (Z.min (Z.of_nat (length b)) space)) b) with b
      by (rewrite take_ge; [done|lia]).
    rewrite (proj2 (Nat.ltb_lt _ _)) by lia. eexists. split; [reflexivity|].
    split; [|done]. split; [by rewrite s32_add, Nat2Z.inj_add|]. do 2 f_equal; [|lia].
    rewrite app_assoc. apply shown_text; [done|]. rewrite <- length_app. apply Ht.
  - right. split; [|lia]. rewrite (proj2 (Nat.ltb_ge _ _)); [done|]. rewrite length_take. lia.
Qed.

Lemma vsnprintf_run buf len fmt args r l :
  0 <= len <= Z.of_nat (length buf) -> Z.of_nat (length buf) < 2 ^ 63 ->
  text fmt args = Ok (r, l) ->
  r = s32 (Z.of_nat (length l)) /\
  (~ too_long buf len l /\ vsnprintf (Some buf) len fmt args = Ok (r, Some (shown buf (room len l) l)) \/
   too_long buf len l /\ vsnprintf (Some buf) len fmt args = Err Undefined).
Proof.
  intros Hl Hbuf Ht. split; [by eapply text_length|].
  set (RW n l w := snprintf_sim buf len n l w /\ ~ too_long buf len l).
  destruct (printf_sim append vsnprintf_backend RW (too_long buf len)) with
    (fmt := fmt) (args := args) (w1 := @nil Z) (w2 := Some (mkPtrs buf 0 (len - 1)))
    (r := r) (w1' := l) as [(w'&H&[Hr ->]&Hn)|[H Hn]].
  - intros n w1 w2 b ? Hb [Hs Hn] [= <-]. destruct (decide (len = 0)) as [->|H0].
    + destruct (back_wraps buf n w1 w2 b Hbuf Hb) as [(w'&->&H'&Hw)|[-> H']].
      * destruct w1; [by left|right].
        destruct (decide (length (z :: w1) < length buf)%nat); [done|].
        destruct Hn. split_and!; [done..|lia].
      * exact Hs.
      * left. eexists. split; [done|]. split; [exact H'|]. intros (_&_&?). lia.
      * right. split; [done|]. split_and!; [done|by destruct w1|done].
    + left. destruct (back_fits buf len n w1 w2 b ltac:(lia) Hbuf Hb Hs) as (w'&->&H').
      eexists. split; [done|]. split; [exact H'|]. by intros [? _].
  - intros w1 b ? (H0&H1&H2) [= <-]. split_and!; [done|by destruct w1|rewrite length_app; lia].
  - split; [|by intros (_&?&_)]. split; [done|]. unfold room. destruct (Z.eqb_spec len 0); cbn; do 2 f_equal; lia.
  - exact Ht.
  - left. split; [done|]. unfold vsnprintf. cbn. by rewrite H.
  - right. split; [done|]. unfold vsnprintf. cbn. by rewrite H.
Qed.

(** The returned length, wrapped to an [int]. *)
Lemma vsnprintf_text buf len fmt args r l :
  1 <= len <= Z.of_nat (length buf) -> Z.of_nat (length buf) < 2 ^ 63 ->
  text fmt args = Ok (r, l) ->
  vsnprintf (Some buf) len fmt args = Ok (r, Some (shown buf len l)) /\
  r = s32 (Z.of_nat (length l)).
Proof.
  intros Hl Hbuf Ht. destruct (vsnprintf_run buf len fmt args r l ltac:(lia) Hbuf Ht) as [-> H].
  split; [|done]. unfold room in H. rewrite (proj2 (Z.eqb_neq len 0)) in H by lia.
  destruct H as [[_ ?]|[[? _] _]]; [done|lia].
Qed.

(** C29: [vsnprintf] into an object of bytes, told that it has room for [len] of
    them, for any [len] up to the size of the object.  It returns the length of
    the whole text, whatever fits (as an [int]).  If [len] is positive, the buffer holds the
    first [len - 1] bytes of the text and a terminating 0, and nothing behind
    it changes.  If [len] is 0, nothing is cut: [str + len - 1] lies before the
    buffer and the space computed from it wraps around, so the whole text and
    its terminator are written, and run past the end of the object if they do
    not fit in it.  When the text is empty the buffer is not written at all,
    not even terminated. *)
Theorem vsnprintf_truncates buf len fmt args r l :
  0 <= len <= Z.of_nat (length buf) -> Z.of_nat (length buf) < 2 ^ 63 ->
  text fmt args = Ok (r, l) ->
  r = s32 (Z.of_nat (length l)) /\
  vsnprintf (Some buf) len fmt args =
    if bool_decide (len = 0 /\ l <> [] /\ (length buf <= length l)%nat) then Err Undefined
    else Ok (r, Some (shown buf (if len =? 0 then Z.of_nat (length l) + 1 else len) l)).
Proof.
  intros Hl Hbuf Ht. destruct (vsnprintf_run buf len fmt args r l Hl Hbuf Ht) as [Hr H].
  split; [done|]. case_bool_decide; destruct H as [[? ?]|[? ?]]; done.
Qed.

(** ** Rendering: the specification

    A format as a list of pieces with their arguments, what it looks like, and
    what it stands for. *)

(** Most significant digit first; [fuel] bounds their number. *)
Fixpoint digits (base : Z) (fuel : nat) (n : Z) : list Z :=
  match fuel with
  | O => []
  | S k => if n <? base then [n] else digits base k (n / base) ++ [n mod base]
  end.

Definition digit_char (d : Z) : Z := if d <? 10 then 48 + d else 87 + d.

Definition numeral (base n : Z) : list Z := digit_char <$> digits base 64 n.

Inductive conv := Cu | Cd | Ci | Co | Cx | Cp.

(** The length modifiers as they are written. *)
Inductive modifier := Mint | Ml | Mll | Mz | Mj.

Record fspec := mkSpec {
  sp_zero : bool;
  sp_width : Z;
  sp_prec : option Z;
  sp_star : bool;       (* the precision is an argument *)
}.

Inductive piece :=
| Lit (l : list Z)
| Percent
| Chr (z : Z)
| Str (f : fspec) (s : option (list Z))
| Num (f : fspec) (q : modifier) (k : conv) (z : Z).

Definition fmt_modifier (q : modifier) : list Z :=
  match q with Mint => [] | Ml => [108] | Mll => [108; 108] | Mz => [122] | Mj => [106] end.

Definition fmt_conv (k : conv) : Z :=
  match k with Cu => 117 | Cd => 100 | Ci => 105 | Co => 111 | Cx => 120 | Cp => 112 end.

Definition fmt_spec (f : fspec) : list Z :=
  (if sp_zero f then [48] else []) ++
  (if sp_width f =? 0 then [] else numeral 10 (sp_width f)) ++
  match sp_prec f with
  | None => []
  | Some p => 46 :: if sp_star f then [42] else numeral 10 p
  end.

Definition fmt_piece (d : piece) : list Z :=
  match d with
  | Lit l => l
  | Percent => [37; 37]
  | Chr _ => [37; 99]
  | Str f _ => 37 :: fmt_spec f ++ [115]
  | Num f q k _ => 37 :: fmt_spec f ++ fmt_modifier q ++ [fmt_conv k]
  end.

Definition star_arg (f : fspec) : list va :=
  match sp_prec f with Some p => if sp_star f then [VInt p] else [] | None => [] end.

Definition args_piece (d : piece) : list va :=
  match d with
  | Lit _ | Percent => []
  | Chr z => [VInt z]
  | Str f s => star_arg f ++ [from_option VStr VNull s]
  | Num f _ _ z => star_arg f ++ [VInt z]
  end.

(** [x] filled up to the width. *)
Definition filled (f : fspec) (x : list Z) : list Z :=
  replicate (Z.to_nat (sp_width f) - length x) (if sp_zero f then 48 else 32) ++ x.

(** A number: the sign, zeros up to the precision, the digits. *)
Definition number_field (f : fspec) (sign ds : list Z) : list Z :=
  filled f (sign ++ replicate (Z.to_nat (default 0 (sp_prec f)) - length ds) 48 ++ ds).

(** The value of an argument: all modifiers say 64 bits. *)
Definition unsigned_of (q : modifier) (z : Z) : Z :=
  match q with Mint => u32 z | _ => u64 z end.
Definition signed_of (q : modifier) (z : Z) : Z :=
  match q with Mint => s32 z | _ => s64 z end.

Definition capped (f : fspec) (s : list Z) : list Z :=
  match sp_prec f with
  | Some p => if p =? 0 then s else take (Z.to_nat p) s
  | None => s
  end.

Definition render_piece (d : piece) : list Z :=
  match d with
  | Lit l => l
  | Percent => [37]
  | Chr z => [u8 z]
  | Str f s => filled f (capped f (default null_str s))
  | Num f q k z =>
      match k with
      | Cu => number_field f [] (numeral 10 (unsigned_of q z))
      | Co => number_field f [] (numeral 8 (unsigned_of q z))
      | Cx => number_field f [] (numeral 16 (unsigned_of q z))
      | Cp => 48 :: 120 :: number_field f [] (numeral 16 (u64 z))
      | Cd | Ci =>
              let v := signed_of q z in
              number_field f (if v <? 0 then [45] else []) (numeral 10 (Z.abs v))
      end
  end.

(** Widths and precisions are [int]s, strings are shorter than 2 GiB, literal
    text holds no percent sign; hexadecimal numbers have 15 digits at most, and
    [LONG_MIN] is not negated. *)
Definition spec_ok (f : fspec) : Prop :=
  0 <= sp_width f < 2 ^ 31 /\ 0 <= default 0 (sp_prec f) < 2 ^ 31.

Definition piece_ok (d : piece) : Prop :=
  match d with
  | Lit l => Forall (fun c => c <> 37 /\ c <> 0) l
  | Percent | Chr _ => True
  | Str f s => spec_ok f /\ Z.of_nat (length (default [] s)) < 2 ^ 31
  | Num f q k z =>
      spec_ok f /\
      match k with
      | Cx => unsigned_of q z < 2 ^ 60
      | Cp => u64 z < 2 ^ 60
      | Cd | Ci => signed_of q z <> - 2 ^ 63
      | _ => True
      end
  end.

Definition fmt_of (ds : list piece) : list Z := mjoin (fmt_piece <$> ds).
Definition args_of (ds : list piece) : list va := mjoin (args_piece <$> ds).
Definition render (ds : list piece) : list Z := mjoin (render_piece <$> ds).

(** ** Numerals *)

Definition value (base : Z) (l : list Z) : Z := foldl (fun a d => a * base + d) 0 l.

Lemma value_app base l d : value base (l ++ [d]) = value base l * base + d.
Proof. unfold value. by rewrite foldl_app. Qed.

(** The digits of a number denote it, and fit the base. *)
Lemma digits_value base fuel n :
  1 < base -> 0 <= n < base ^ Z.of_nat fuel ->
  value base (digits base fuel n) = n /\ Forall (fun d => 0 <= d < base) (digits base fuel n).
Proof.
  intros Hb. revert n; induction fuel as [|k IH]; intros n Hn; [cbn in *; split; [cbn; lia|done]|].
  cbn [digits]. destruct (n <? base) eqn:E; zbool.
  - split; [unfold value; cbn; lia|]. constructor; [lia|done].
  - rewrite Nat2Z.inj_succ, Z.pow_succ_r in Hn by lia.
    destruct (IH (n / base)) as [IH1 IH2].
    { split; [apply Z.div_pos; lia|]. apply Z.div_lt_upper_bound; lia. }
    rewrite value_app, IH1. split.
    + pose proof (Z.div_mod n base). lia.
    + apply Forall_app. split; [done|]. constructor; [|done]. apply Z.mod_pos_bound. lia.
Qed.

(** A bound on the number of digits does not matter once it is large enough. *)
Lemma digits_fuel base k fuel n :
  1 < base -> 0 <= n < base ^ Z.of_nat (S k) -> (k < fuel)%nat ->
  digits base fuel n = digits base (S k) n.
Proof.
  intros Hb. revert fuel n; induction k as [|k IH]; intros [|fuel] n Hn Hk; try lia.
  - cbn [digits]. rewrite (proj2 (Z.ltb_lt _ _)); [done|]. change (Z.of_nat 1) with 1 in Hn. lia.
  - cbn [digits]. destruct (n <? base) eqn:E; [done|]. zbool. f_equal.
    rewrite (Nat2Z.inj_succ (S k)), Z.pow_succ_r in Hn by lia.
    apply IH; [|lia]. split; [apply Z.div_pos; lia|]. apply Z.div_lt_upper_bound; lia.
Qed.

(** The first digit is not 0, except in 0. *)
Lemma digits_head base fuel n :
  1 < base -> 0 < n < base ^ Z.of_nat fuel -> exists d l, digits base fuel n = d :: l /\ d <> 0.
Proof.
  intros Hb. revert n; induction fuel as [|k IH]; intros n Hn; [cbn in Hn; lia|].
  cbn [digits]. destruct (n <? base) eqn:E; zbool; [exists n, []; split; [done|lia]|].
  rewrite Nat2Z.inj_succ, Z.pow_succ_r in Hn by lia.
  destruct (IH (n / base)) as (d&l&->&Hd); [|by exists d, (l ++ [n mod base])].
  split; [apply Z.div_str_pos; lia|]. apply Z.div_lt_upper_bound; lia.
Qed.

Lemma put_digits_spec base pos n buf :
  1 < base <= 10 -> 0 < n < base ^ Z.of_nat pos ->
  put_digits pos base n buf = Ok ((digit_char <$> digits base pos n) ++ buf).
Proof.
  intros Hb. revert n buf; induction pos as [|k IH]; intros n buf Hn; [cbn in Hn; lia|].
  rewrite Nat2Z.inj_succ, Z.pow_succ_r in Hn by lia.
  assert (Hc : forall d, 0 <= d < base -> digit_char d = d + 48).
  { intros d Hd. unfold digit_char. rewrite (proj2 (Z.ltb_lt _ _)); lia. }
  cbn [put_digits digits]. rewrite (proj2 (Z.eqb_neq n 0)) by lia.
  destruct (n <? base) eqn:E; zbool.
  - rewrite Z.div_small, Z.mod_small by lia. cbn. rewrite Hc by lia.
    destruct k; done.
  - rewrite IH.
    + rewrite fmap_app, <- app_assoc. cbn. rewrite Hc; [done|]. apply Z.mod_pos_bound. lia.
    + split; [apply Z.div_str_pos; lia|]. apply Z.div_lt_upper_bound; lia.
Qed.

Lemma to_base_spec base n :
  base = 8 \/ base = 10 -> is_size n -> to_base base n = Ok (numeral base n).
Proof.
  unfold is_size, to_base, numeral. intros Hb Hn. destruct (n =? 0) eqn:E; zbool.
  { subst n. by destruct Hb as [-> | ->]. }
  assert (n < base ^ Z.of_nat 24) by (destruct Hb as [-> | ->]; cbn; lia).
  rewrite put_digits_spec, app_nil_r by lia.
  by rewrite (digits_fuel base 23 64) by lia.
Qed.

Lemma hex_len_spec fuel len n :
  0 <= n < 2 ^ 60 -> 1 <= len <= 15 -> 17 <= Z.of_nat fuel + len ->
  len = 1 \/ 16 ^ (len - 1) <= n ->
  exists k, hex_len fuel len n = Ok k /\ 1 <= k <= 15 /\ n < 16 ^ k /\ (k = 1 \/ 16 ^ (k - 1) <= n).
Proof.
  revert len; induction fuel as [|fuel IH]; intros len Hn Hlen Hf Hlo; [lia|].
  assert (Hpow : 2 ^ (len * 4) = 16 ^ len) by (rewrite Z.mul_comm, Z.pow_mul_r; [done|lia..]).
  cbn [hex_len]. rewrite (proj2 (Z.leb_gt 64 _)) by lia.
  rewrite (proj2 (Z.ltb_lt _ 64)), andb_true_r by lia.
  rewrite Z.shiftr_div_pow2, Hpow by lia.
  destruct (n / 16 ^ len =? 0) eqn:E; zbool; cbn [negb].
  - exists len. split_and!; try lia; [done|].
    apply Z.div_small_iff in E; lia.
  - assert (Hge : 16 ^ len <= n).
    { destruct (decide (16 ^ len <= n)); [done|]. rewrite Z.div_small in E; lia. }
    assert (len <> 15) by (intros ->; change (16 ^ 15) with (2 ^ 60) in Hge; lia).
    destruct (IH (len + 1)) as (k&->&?&?&?); try lia; [|by exists k].
    right. by replace (len + 1 - 1) with len by lia.
Qed.

Lemma hex_char_spec n i : 0 <= n -> 0 <= i -> hex_char n i = digit_char (n / 16 ^ i mod 16).
Proof.
  intros Hn Hi. unfold hex_char, digit_char.
  rewrite Z.shiftr_div_pow2, Z.mul_comm, Z.pow_mul_r by lia.
  change 15 with (Z.ones 4). rewrite Z.land_ones by lia. change (2 ^ 4) with 16.
  pose proof (Z.mod_pos_bound (n / 16 ^ i) 16).
  destruct (57 <? _) eqn:E1, (_ <? 10) eqn:E2; zbool; lia.
Qed.

Definition hex_chars (k : nat) (n : Z) : list Z :=
  (fun i => hex_char n (Z.of_nat i)) <$> rev (seq 0 k).

Lemma hex_chars_S k n : hex_chars (S k) n = hex_char n (Z.of_nat k) :: hex_chars k n.
Proof. unfold hex_chars. by rewrite seq_S, rev_app_distr. Qed.

(** The least significant digit at the end. *)
Lemma hex_chars_shift k n :
  0 <= n -> hex_chars (S k) n = hex_chars k (n / 16) ++ [digit_char (n mod 16)].
Proof.
  intros Hn. induction k as [|k IH].
  - rewrite hex_chars_S. unfold hex_chars; cbn [rev seq fmap list_fmap app].
    rewrite hex_char_spec by lia. change (Z.of_nat 0) with 0. by rewrite Z.div_1_r.
  - rewrite (hex_chars_S (S k)), IH, (hex_chars_S k). cbn [app]. f_equal.
    rewrite !hex_char_spec by (try apply Z.div_pos; lia).
    rewrite Z.div_div by lia. by rewrite (Nat2Z.inj_succ k), Z.pow_succ_r by lia.
Qed.

Lemma hex_chars_digits k n :
  0 <= n < 16 ^ Z.of_nat (S k) -> k = 0%nat \/ 16 ^ Z.of_nat k <= n ->
  hex_chars (S k) n = digit_char <$> digits 16 (S k) n.
Proof.
  revert n; induction k as [|k IH]; intros n Hn Hlo.
  - change (16 ^ Z.of_nat 1) with 16 in Hn. cbn [digits]. rewrite (proj2 (Z.ltb_lt n 16)) by lia.
    rewrite hex_chars_shift, Z.mod_small by lia. done.
  - destruct Hlo as [|Hlo]; [done|].
    rewrite Nat2Z.inj_succ, Z.pow_succ_r in Hn, Hlo by lia.
    assert (0 < 16 ^ Z.of_nat k) by lia.
    rewrite hex_chars_shift by lia. cbn [digits]. rewrite (proj2 (Z.ltb_ge n 16)) by lia.
    rewrite fmap_app. cbn. f_equal. apply IH.
    + split; [apply Z.div_pos; lia|]. apply Z.div_lt_upper_bound; lia.
    + right. apply Z.div_le_lower_bound; lia.
Qed.

Lemma hex_chars_numeral k n :
  1 <= k <= 15 -> 0 <= n < 16 ^ k -> k = 1 \/ 16 ^ (k - 1) <= n ->
  hex_chars (Z.to_nat k) n = numeral 16 n.
Proof.
  intros Hk Hn Hlo. destruct (Z.to_nat k) as [|j] eqn:E; [lia|].
  assert (k = Z.of_nat (S j)) as -> by lia. unfold numeral.
  rewrite (digits_fuel 16 j 64) by lia. apply hex_chars_digits; [done|].
  destruct Hlo; [left; lia|right]. by replace (Z.of_nat j) with (Z.of_nat (S j) - 1) by lia.
Qed.

(** ** What is written *)

Definition total (s : out_state (list Z)) : list Z := backarg s ++ cache s.

Definition emits {A} (m : @P (list Z) A) (l : list Z) (a : A) : Prop :=
  forall s, Z.of_nat (length (cache s)) < clen ->
  exists s', m s = Val a s' /\ total s' = total s ++ l /\ Z.of_nat (length (cache s')) < clen.

Lemma emits_ret {A} (a : A) : emits (mret a) [] a.
Proof. intros s Hs. exists s. by rewrite app_nil_r. Qed.

Lemma emits_bind {A B} (m : @P (list Z) A) (f : A -> @P (list Z) B) l1 l2 a b :
  emits m l1 a -> emits (f a) l2 b -> emits (m ≫= f) (l1 ++ l2) b.
Proof.
  intros Hm Hf s Hs. destruct (Hm s Hs) as (s1&E1&T1&C1). destruct (Hf s1 C1) as (s2&E2&T2&C2).
  exists s2. unfold mbind, st_bind. by rewrite E1, E2, T2, T1, app_assoc.
Qed.

(** A step that writes nothing, and one after which nothing is written. *)
Lemma emits_pure {A B} (m : @P (list Z) A) (f : A -> @P (list Z) B) l a b :
  emits m [] a -> emits (f a) l b -> emits (m ≫= f) l b.
Proof. apply emits_bind. Qed.

Lemma emits_last {A B} (m : @P (list Z) A) (f : A -> @P (list Z) B) l a b :
  emits m l a -> emits (f a) [] b -> emits (m ≫= f) l b.
Proof. intros Hm Hf. rewrite <- (app_nil_r l). by eapply emits_bind. Qed.

Lemma flush_val (s : out_state (list Z)) :
  exists s', flush append s = Val (written s') s' /\ backarg s' = total s /\ cache s' = [].
Proof.
  destruct s as [w n c]. unfold flush, total, mbind, st_bind, get_, when, gets; cbn.
  destruct (Z.of_nat (length c) =? 0) eqn:E; zbool; cbn.
  - destruct c; [|cbn in E; lia]. exists (mkOs w n []). by rewrite app_nil_r.
  - by exists (mkOs (w ++ c) (s32 (n + Z.of_nat (length c))) []).
Qed.

Lemma emits_output b : emits (output append b) b ().
Proof.
  intros s Hs. unfold output, mbind, st_bind, get_. destruct (_ <? clen) eqn:E; zbool.
  - eexists. split; [done|]. unfold total; cbn. by rewrite app_assoc, length_app, Nat2Z.inj_add.
  - destruct (flush_val s) as (s1&->&Hb&Hc).
    eexists. split; [done|]. unfold total in *; cbn. rewrite Hb, Hc. cbn. by rewrite app_nil_r.
Qed.

Lemma emits_output_c c n : emits (output_c append c n) (replicate (Z.to_nat (s32 n)) c) ().
Proof.
  unfold output_c. generalize 0%nat. induction (Z.to_nat (s32 n)) as [|k IH]; intros i; cbn.
  - apply emits_ret.
  - change (c :: replicate k c) with ([c] ++ replicate k c).
    eapply emits_bind; [apply emits_output|apply IH].
Qed.

Definition spec_mods (f : fspec) : mods :=
  mkMods (if sp_zero f then 48 else 32) (sp_width f) (default 0 (sp_prec f)).

Lemma emits_pad f n l :
  spec_ok f -> Z.of_nat n < 2 ^ 31 -> length l = n ->
  emits (pad append (spec_mods f) (Z.of_nat n);; output append l) (filled f l) ().
Proof.
  intros Hf Hn Hl. unfold filled. destruct Hf as [Hw Hp].
  eapply emits_bind; [|apply emits_output]. unfold pad.
  replace (Z.to_nat (sp_width f) - length l)%nat
    with (Z.to_nat (s32 (field_width (spec_mods f) - Z.of_nat n))); [apply emits_output_c|].
  cbn. rewrite s32_small by lia. lia.
Qed.

(** The sign is 0 or one character. *)
Definition sign_list (sign : Z) : list Z := if sign =? 0 then [] else [sign].

Lemma emits_padnum f sign (n : nat) :
  spec_ok f -> (n <= 64)%nat ->
  let zeros := replicate (Z.to_nat (default 0 (sp_prec f)) - n) 48 in
  emits (padnum append (spec_mods f) (Z.of_nat n) sign)
    (replicate (Z.to_nat (sp_width f) - (length (sign_list sign) + length zeros + n))
       (if sp_zero f then 48 else 32) ++ sign_list sign ++ zeros) ().
Proof.
  intros [Hw Hp] Hn zeros. subst zeros. rewrite length_replicate.
  set (s := if sign =? 0 then 0 else 1).
  assert (Hs : Z.of_nat (length (sign_list sign)) = s)
    by (unfold s, sign_list; by destruct (sign =? 0)).
  assert (Hsign : emits (when (negb (sign =? 0)) (output_c append sign 1)) (sign_list sign) ()).
  { unfold sign_list. destruct (sign =? 0); [apply emits_ret|apply emits_output_c]. }
  assert (0 <= s <= 1) by (unfold s; by destruct (sign =? 0)).
  unfold padnum. cbn [spec_mods precision field_width fill_char]. fold s.
  set (p := default 0 (sp_prec f)) in *. set (fill := if sp_zero f then 48 else 32) in *.
  assert (Hfill : forall a k, s32 a = a -> Z.to_nat a = k ->
    emits (output_c append fill a) (replicate k fill) ()).
  { intros a k Ha <-. rewrite <- Ha at 2. apply emits_output_c. }
  destruct (Z.of_nat n <? p) eqn:E; zbool.
  - apply (emits_bind _ _ _ _ ()); [apply Hfill; [by rewrite s32_small by lia|lia]|].
    apply (emits_bind _ _ _ _ ()); [done|].
    replace (Z.to_nat p - n)%nat with (Z.to_nat (s32 (p - Z.of_nat n)))
      by (rewrite s32_small by lia; lia).
    apply emits_output_c.
  - replace (Z.to_nat p - n)%nat with 0%nat by lia. cbn [replicate].
    rewrite app_nil_r, Nat.add_0_r.
    apply (emits_bind _ _ _ _ ()); [apply Hfill; [by rewrite s32_small by lia|lia]|done].
Qed.

Lemma emits_number f sign l (m : @P (list Z) ()) :
  spec_ok f -> (length l <= 64)%nat -> emits m l () ->
  emits (padnum append (spec_mods f) (Z.of_nat (length l)) sign;; m)
    (number_field f (sign_list sign) l) ().
Proof.
  intros Hf Hl Hm. unfold number_field, filled.
  replace (replicate _ (if sp_zero f then 48 else 32) ++ sign_list sign ++ _ ++ l) with
    ((replicate (Z.to_nat (sp_width f) - (length (sign_list sign) +
        length (replicate (Z.to_nat (default 0 (sp_prec f)) - length l) 48) + length l))
       (if sp_zero f then 48 else 32) ++ sign_list sign ++
      replicate (Z.to_nat (default 0 (sp_prec f)) - length l) 48) ++ l).
  - eapply emits_bind; [by apply emits_padnum|done].
  - rewrite <- !app_assoc, !length_app. by rewrite Nat.add_assoc.
Qed.

Lemma length_digits base fuel n : (length (digits base fuel n) <= fuel)%nat.
Proof.
  revert n; induction fuel as [|k IH]; intros n; cbn; [lia|].
  destruct (n <? base); cbn; [lia|]. rewrite length_app; cbn. specialize (IH (n / base)). lia.
Qed.

Lemma length_numeral base n : (length (numeral base n) <= 64)%nat.
Proof. unfold numeral. rewrite length_fmap. apply length_digits. Qed.

Lemma lift_ok {A B} (r : res A) a (f : A -> @P (list Z) B) l b :
  r = Ok a -> emits (f a) l b -> emits (lift r ≫= f) l b.
Proof. intros ->. done. Qed.

Lemma emits_uint f n sign :
  spec_ok f -> is_size n ->
  emits (output_uint append (spec_mods f) n sign)
    (number_field f (sign_list sign) (numeral 10 n)) ().
Proof.
  intros Hf Hn. unfold output_uint. eapply lift_ok; [by apply to_base_spec; [right|]|].
  apply emits_number; [done|apply length_numeral|apply emits_output].
Qed.

Lemma emits_octal f n :
  spec_ok f -> is_size n ->
  emits (output_octal append (spec_mods f) n) (number_field f [] (numeral 8 n)) ().
Proof.
  intros Hf Hn. unfold output_octal. eapply lift_ok; [by apply to_base_spec; [left|]|].
  apply (emits_number f 0); [done|apply length_numeral|apply emits_output].
Qed.

Lemma emits_hex_digits k n : emits (hex_digits append k n) (hex_chars k n) ().
Proof.
  induction k as [|k IH]; [apply emits_ret|]. rewrite hex_chars_S. cbn [hex_digits].
  apply (emits_bind _ _ [_] _ ()); [|done]. apply (emits_output_c _ 1).
Qed.

Lemma emits_uint16 f n :
  spec_ok f -> 0 <= n < 2 ^ 60 ->
  emits (output_uint16 append (spec_mods f) n) (number_field f [] (numeral 16 n)) ().
Proof.
  intros Hf Hn. unfold output_uint16.
  destruct (hex_len_spec 17 1 n) as (k&Hk&Hr&Hlt&Hge); try lia.
  eapply lift_ok; [exact Hk|]. rewrite <- (hex_chars_numeral k n) by (try done; lia).
  assert (Hl : length (hex_chars (Z.to_nat k) n) = Z.to_nat k)
    by (unfold hex_chars; by rewrite length_fmap, length_rev, length_seq).
  assert (H := emits_number f 0 _ _ Hf ltac:(rewrite Hl; lia) (emits_hex_digits (Z.to_nat k) n)).
  by rewrite Hl, Z2Nat.id in H by lia.
Qed.

(** ** Reading the format *)

(** The digits of a numeral, read back. *)
Lemma number_run {W} (l : list Z) (c : Z) fmt acc d (s : out_state W) :
  Forall (fun d => 0 <= d < 10) (d :: l) -> is_digit c = false ->
  number (digit_char d) ((digit_char <$> l) ++ c :: fmt) acc s =
  Val (foldl (fun a d => u64 (u64 (a * 10) + d)) acc (d :: l), c, fmt) s.
Proof.
  intros Hl Hc. revert d acc Hl; induction l as [|d' l IH]; intros d acc Hl;
    apply Forall_cons in Hl as [Hd Hl].
  all: assert (Hdig : is_digit (digit_char d) = true /\ digit_char d - 48 = d).
  1, 3: unfold is_digit, digit_char; rewrite (proj2 (Z.ltb_lt d 10)) by lia;
    rewrite (proj2 (Z.leb_le 48 (48 + d))), (proj2 (Z.leb_le (48 + d) 57)) by lia; lia.
  all: destruct Hdig as [H1 H2].
  - cbn [number fmap list_fmap app foldl]. rewrite H1, H2. destruct fmt; cbn; by rewrite Hc.
  - cbn [number fmap list_fmap app foldl]. rewrite H1, H2. by apply IH.
Qed.

Lemma foldl_u64 l acc :
  Forall (fun d => 0 <= d < 10) l -> 0 <= acc -> foldl (fun a d => a * 10 + d) acc l < 2 ^ 64 ->
  foldl (fun a d => u64 (u64 (a * 10) + d)) acc l = foldl (fun a d => a * 10 + d) acc l.
Proof.
  revert acc; induction l as [|d l IH]; intros acc Hl Ha Hlt; [done|].
  apply Forall_cons in Hl as [Hd Hl]. cbn [foldl] in *.
  assert (Hle : forall l acc, Forall (fun d => 0 <= d < 10) l -> 0 <= acc ->
    acc <= foldl (fun a d => a * 10 + d) acc l).
  { clear. induction l as [|d l IH]; intros acc Hl Ha; cbn; [lia|].
    apply Forall_cons in Hl as [Hd Hl]. etrans; [|apply IH; [done|lia]]. lia. }
  specialize (Hle l (acc * 10 + d) Hl ltac:(lia)).
  rewrite !u64_small by (unfold is_size; rewrite ?u64_small by (unfold is_size; lia); lia).
  apply IH; [done|lia|done].
Qed.

(** A numeral, read. *)
Lemma read_numeral {W} n c fmt (s : out_state W) :
  0 <= n < 2 ^ 31 -> is_digit c = false ->
  exists d l, numeral 10 n = d :: l /\ (n <> 0 -> d <> 48) /\ (is_digit d = true) /\
    number d (l ++ c :: fmt) 0 s = Val (n, c, fmt) s.
Proof.
  intros Hn Hc. unfold numeral.
  destruct (digits_value 10 64 n) as [Hv Hf]; [lia|cbn; lia|].
  destruct (digits 10 64 n) as [|d l] eqn:E.
  { exfalso. cbn in E. destruct (n <? 10); [done|]. by apply app_eq_nil in E as [_ ?]. }
  assert (0 <= d < 10) by (by apply Forall_cons in Hf as [? _]).
  exists (digit_char d), (digit_char <$> l). split_and!.
  - done.
  - intros H0 H1. destruct (digits_head 10 64 n) as (d'&l'&E'&Hd'); [lia|cbn; lia|].
    rewrite E in E'. injection E' as <- <-. unfold digit_char in H1.
    rewrite (proj2 (Z.ltb_lt d 10)) in H1 by lia. lia.
  - unfold is_digit, digit_char. rewrite (proj2 (Z.ltb_lt d 10)) by lia.
    by rewrite (proj2 (Z.leb_le 48 (48 + d))), (proj2 (Z.leb_le (48 + d) 57)) by lia.
  - rewrite number_run by done. unfold value in Hv. rewrite foldl_u64, Hv; [done..|lia|lia].
Qed.

Lemma next_bind {W B} c fmt (f : Z * list Z -> @P W B) s :
  (next (c :: fmt) ≫= f) s = f (c, fmt) s.
Proof. done. Qed.

(** Neither a digit nor a dot. *)
Definition plain (c : Z) : Prop := is_digit c = false /\ c <> 46.

Lemma plain_48 c : is_digit c = false -> (c =? 48) = false.
Proof. intros H. apply Z.eqb_neq. by intros ->. Qed.

Lemma precision_run {W} f c fmt args (s : out_state W) :
  spec_ok f -> plain c ->
  exists c1 l1,
    match sp_prec f with
    | None => []
    | Some p => 46 :: if sp_star f then [42] else numeral 10 p
    end ++ c :: fmt = c1 :: l1 /\ is_digit c1 = false /\
    get_precision c1 l1 (star_arg f ++ args) s = Val (default 0 (sp_prec f), c, fmt, args) s.
Proof.
  intros [_ Hp] [Hc Hd]. unfold star_arg. destruct (sp_prec f) as [p|]; cbn [default] in *.
  - eexists _, _. split; [reflexivity|]. split; [done|]. unfold get_precision. cbn [Z.eqb Pos.eqb].
    destruct (sp_star f).
    + change (Val (E := Empty_set) (u64 (s32 p), c, fmt, args) s = Val (p, c, fmt, args) s).
      by rewrite s32_small, u64_small by (unfold is_size; cbn in Hp; lia).
    + destruct (read_numeral p c fmt s) as (d&l&->&_&Hdd&Hr); [cbn in Hp; lia|done|].
      change ((d :: l) ++ c :: fmt) with (d :: l ++ c :: fmt). rewrite next_bind.
      destruct (d =? 42) eqn:E; zbool; [by subst d|]. by rewrite (bind_eq _ _ _ _ _ Hr).
  - eexists _, _. split; [reflexivity|]. split; [done|]. unfold get_precision.
    by rewrite (proj2 (Z.eqb_neq c 46)).
Qed.

Lemma spec_run {W} f c fmt args (s : out_state W) B
    (k : Z -> Z -> Z -> Z -> list Z -> list va -> @P W B) :
  spec_ok f -> plain c ->
  ('(fill, c, fmt) ← modifiers (fmt_spec f ++ c :: fmt) 32;
   '(width, c, fmt) ← number c fmt 0;
   '(prec, c, fmt, args) ← get_precision c fmt (star_arg f ++ args);
   k fill width prec c fmt args) s =
  k (fill_char (spec_mods f)) (sp_width f) (default 0 (sp_prec f)) c fmt args s.
Proof.
  intros Hf Hc. destruct (precision_run f c fmt args s Hf Hc) as (c1&l1&E1&Hc1&Hp).
  unfold fmt_spec. rewrite <- !app_assoc, E1.
  assert (Hw : exists c2 l2, (if sp_width f =? 0 then [] else numeral 10 (sp_width f)) ++ c1 :: l1 =
    c2 :: l2 /\ c2 <> 48 /\ number c2 l2 0 s = Val (sp_width f, c1, l1) s).
  { destruct (sp_width f =? 0) eqn:E; zbool.
    - exists c1, l1. rewrite E. split; [done|]. split; [by intros ->|].
      destruct l1; cbn; by rewrite Hc1.
    - destruct (read_numeral (sp_width f) c1 l1 s) as (d&l&->&Hd&_&Hr); [apply Hf|done|].
      exists d, (l ++ c1 :: l1). split_and!; auto. }
  destruct Hw as (c2&l2&->&Hc2&Hn).
  assert (Hm : modifiers ((if sp_zero f then [48] else []) ++ c2 :: l2) 32 s =
    Val (fill_char (spec_mods f), c2, l2) s).
  { cbn [spec_mods fill_char]. destruct (sp_zero f); cbn; by rewrite (proj2 (Z.eqb_neq c2 48)). }
  rewrite (bind_eq _ _ _ _ _ Hm), (bind_eq _ _ _ _ _ Hn). by rewrite (bind_eq _ _ _ _ _ Hp).
Qed.

Lemma emits_eq {A} (m m' : @P (list Z) A) l a :
  (forall s, m s = m' s) -> emits m' l a -> emits m l a.
Proof. intros E H s Hs. destruct (H s Hs) as (s'&?&?). exists s'. by rewrite E. Qed.

Lemma unsigned_range q z : is_size (unsigned_of q z).
Proof. destruct q; unfold unsigned_of, is_size; word_lia. Qed.

(** What the code makes of a length modifier. *)
Definition lenmod_of (q : modifier) : lenmod :=
  match q with Mint => LM_int | Ml => LM_long | Mll | Mj => LM_longlong | Mz => LM_size end.

(** The conversions, one by one. *)
Lemma emits_string f o args :
  spec_ok f -> Z.of_nat (length (default [] o)) < 2 ^ 31 ->
  emits (convert_string append (spec_mods f) (from_option VStr VNull o :: args))
    (filled f (capped f (default null_str o))) args.
Proof.
  intros Hf Ho. set (s := default null_str o).
  assert (Hs : Z.of_nat (length s) < 2 ^ 31) by (subst s; destruct o; cbn in *; lia).
  unfold convert_string. eapply (emits_pure _ _ _ (s, args)).
  { destruct o; apply emits_ret. }
  set (len := if _ : bool then _ else _).
  assert (Hl : capped f s = take (Z.to_nat len) s /\ len = Z.of_nat (length (capped f s))).
  { subst len. cbn [spec_mods precision]. unfold capped. destruct Hf as [_ Hp].
    destruct (sp_prec f) as [p|]; cbn [default] in *.
    - change (id p) with p in *. destruct (p =? 0) eqn:E; zbool; cbn [negb].
      + rewrite andb_false_r. rewrite Nat2Z.id, firstn_all. done.
      + rewrite andb_true_r. destruct (p <? Z.of_nat (length s)) eqn:E2; zbool;
          [rewrite length_take; split; [done|lia]|].
        rewrite Nat2Z.id, firstn_all, take_ge by lia. done.
    - rewrite andb_false_r. rewrite Nat2Z.id, firstn_all. done. }
  destruct Hl as [<- ->].
  assert (Hc : Z.of_nat (length (capped f s)) < 2 ^ 31).
  { unfold capped. destruct (sp_prec f); [|done]. destruct (_ =? 0); [done|].
    rewrite length_take. lia. }
  assert (Hp := emits_pad f _ (capped f s) Hf Hc eq_refl).
  intros st Hst. destruct (Hp st Hst) as (st'&E&Ht). exists st'. split; [|done].
  apply bind_val in E as ([]&s1&E1&E2). rewrite (bind_eq _ _ _ _ _ E1).
  by rewrite (bind_eq _ _ _ _ _ E2).
Qed.

Lemma emits_signed f q z args :
  spec_ok f -> signed_of q z <> - 2 ^ 63 ->
  emits (convert_signed append (spec_mods f) (lenmod_of q) (VInt z :: args))
    (render_piece (Num f q Cd z)) args.
Proof.
  intros Hf Hz. unfold convert_signed. cbn [render_piece]. set (v := signed_of q z) in *.
  assert (Hr : - 2 ^ 63 <= v < 2 ^ 63) by (subst v; destruct q; unfold signed_of; word_lia).
  eapply (emits_pure _ _ _ (v, args)); [by destruct q; apply emits_ret|].
  destruct (v <? 0) eqn:E; zbool.
  - rewrite (proj2 (Z.eqb_neq v _)) by done. rewrite Z.abs_neq by lia.
    eapply emits_last; [|apply emits_ret]. apply (emits_uint f _ 45); [done|unfold is_size; lia].
  - rewrite Z.abs_eq by lia.
    eapply emits_last; [|apply emits_ret]. apply (emits_uint f _ 0); [done|unfold is_size; lia].
Qed.

Lemma emits_num f q k z args :
  piece_ok (Num f q k z) ->
  emits (convert append (spec_mods f) (lenmod_of q) (fmt_conv k) (VInt z :: args))
    (render_piece (Num f q k z)) args.
Proof.
  intros [Hf Hk]. pose proof (unsigned_range q z) as Hu.
  assert (Ha : emits (arg_unsigned (lenmod_of q) (VInt z :: args)) [] (unsigned_of q z, args))
    by (destruct q; apply emits_ret).
  unfold convert. destruct k; cbn [fmt_conv Z.eqb Pos.eqb orb]; cbn [render_piece].
  - eapply emits_pure; [exact Ha|]. eapply emits_last; [by apply (emits_uint f _ 0)|apply emits_ret].
  - by apply emits_signed.
  - by apply emits_signed.
  - eapply emits_pure; [exact Ha|]. eapply emits_last; [by apply emits_octal|apply emits_ret].
  - eapply emits_pure; [exact Ha|].
    eapply emits_last; [apply emits_uint16; [done|unfold is_size in Hu; lia]|apply emits_ret].
  - apply (emits_bind _ _ [48; 120] _ ()); [apply emits_output|].
    eapply emits_pure; [apply emits_ret|]. eapply emits_last; [|apply emits_ret].
    apply emits_uint16; [done|]. pose proof (u64_range z) as Hz. unfold is_size in Hz. lia.
Qed.

(** A turn over a conversion whose specification is [f]. *)
Lemma emits_conversion f lm k l seg pre rest args args' (tail : list Z) c0 :
  spec_ok f -> plain c0 ->
  seg = pre ++ 37 :: fmt_spec f ++ c0 :: tail ->
  (forall s, get_lenmod c0 tail s = Val (lm, k, rest) (s : out_state (list Z))) ->
  emits (convert append (spec_mods f) lm k args) l args' ->
  emits (printf_turn append (seg, 37 :: fmt_spec f ++ c0 :: tail, star_arg f ++ args))
    (pre ++ l) (inl (rest, rest, args')).
Proof.
  intros Hf Hc -> Hlm Hconv. unfold printf_turn.
  eapply emits_pure; [apply emits_ret|]. cbn [Z.eqb Pos.eqb negb].
  rewrite length_app. rewrite Nat.add_sub, take_app_length.
  eapply emits_bind; [apply emits_output|].
  eapply emits_eq; [intros s; apply spec_run; done|].
  eapply emits_pure; [|].
  - intros s Hs. exists s. split; [apply Hlm|]. by rewrite app_nil_r.
  - eapply emits_last; [exact Hconv|]. apply emits_ret.
Qed.

Lemma emits_percent c l seg pre rest args args' :
  is_digit c = false -> c <> 46 -> c <> 108 -> c <> 122 -> c <> 106 ->
  seg = pre ++ 37 :: c :: rest ->
  emits (convert append (mkMods 32 0 0) LM_int c args) l args' ->
  emits (printf_turn append (seg, 37 :: c :: rest, args)) (pre ++ l) (inl (rest, rest, args')).
Proof.
  intros Hd H1 H2 H3 H4 -> Hconv.
  apply (emits_conversion (mkSpec false 0 None false) LM_int c l _ pre rest args args' rest c);
    [|done|done| |done].
  - split; cbn; lia.
  - intros s. unfold get_lenmod.
    by rewrite !(proj2 (Z.eqb_neq _ _)).
Qed.

Lemma turn_piece d seg pre rest args :
  (forall l, d <> Lit l) -> piece_ok d -> seg = pre ++ fmt_piece d ++ rest ->
  emits (printf_turn append (seg, fmt_piece d ++ rest, args_piece d ++ args))
    (pre ++ render_piece d) (inl (rest, rest, args)).
Proof.
  intros Hd Hok Hseg. destruct d as [l| |z|f o|f q k z]; [by destruct (Hd l)|..].
  - apply (emits_percent 37); try done. unfold convert; cbn.
    eapply emits_last; [apply emits_output|apply emits_ret].
  - apply (emits_percent 99); try done. unfold convert; cbn.
    eapply emits_pure; [apply emits_ret|].
    eapply emits_last; [apply (emits_output_c _ 1)|apply emits_ret].
  - destruct Hok as [Hf Ho]. cbn [fmt_piece args_piece render_piece] in *.
    rewrite <- (app_comm_cons _ _ 37), <- !app_assoc in *.
    apply (emits_conversion f LM_int 115); try done. by apply emits_string.
  - pose proof Hok as [Hf _]. cbn [fmt_piece args_piece] in *.
    rewrite <- (app_comm_cons _ _ 37), <- !app_assoc in *.
    assert (Hl : exists c0 tail, fmt_modifier q ++ [fmt_conv k] ++ rest = c0 :: tail /\ plain c0 /\
      forall s, get_lenmod c0 tail s = Val (lenmod_of q, fmt_conv k, rest) (s : out_state (list Z))).
    { destruct q, k; eexists _, _; split_and!; try reflexivity; done. }
    destruct Hl as (c0&tail&E&Hp&Hg). rewrite E in *.
    apply (emits_conversion f (lenmod_of q) (fmt_conv k)); try done. by apply emits_num.
Qed.

(** ** The main loop *)

(** The end of the format. *)
Lemma turn_end seg pre args s :
  seg = pre ++ [0] -> Z.of_nat (length (cache s)) < clen ->
  exists s', printf_turn append (seg, [0], args) s = Val (inr (written s')) s' /\
    backarg s' = total s ++ pre.
Proof.
  intros -> Hs. unfold printf_turn. rewrite next_bind. cbn [Z.eqb].
  rewrite length_app, Nat.add_sub, take_app_length.
  destruct (emits_output pre s Hs) as (s1&E1&T1&C1). destruct (flush_val s1) as (s2&E2&B2&_).
  exists s2. rewrite (bind_eq _ _ _ _ _ E1), (bind_eq _ _ _ _ _ E2), B2. done.
Qed.

(** A character of a streak. *)
Lemma turn_char seg c fmt args (s : out_state (list Z)) :
  c <> 37 -> c <> 0 ->
  printf_turn append (seg, c :: fmt, args) s = Val (inl (seg, fmt, args)) s.
Proof.
  intros H1 H2. unfold printf_turn. rewrite next_bind.
  by rewrite (proj2 (Z.eqb_neq c 0)), (proj2 (Z.eqb_neq c 37)).
Qed.

Lemma loop_step n x s y s' :
  printf_turn append x s = Val (inl y) s' ->
  iter (S n) (printf_turn append) x s = iter n (printf_turn append) y s'.
Proof. intros H. cbn [iter]. by rewrite (bind_eq _ _ _ _ _ H). Qed.

Lemma fmt_piece_pos d : (forall l, d <> Lit l) -> (0 < length (fmt_piece d))%nat.
Proof. intros H. destruct d; cbn; [by destruct (H l)|lia..]. Qed.

Lemma loop_renders ds n seg pre s :
  Forall piece_ok ds -> seg = pre ++ fmt_of ds ++ [0] -> (length (fmt_of ds) < n)%nat ->
  Z.of_nat (length (cache s)) < clen ->
  exists s', iter n (printf_turn append) (seg, fmt_of ds ++ [0], args_of ds) s =
      Val (written s') s' /\ backarg s' = total s ++ pre ++ render ds.
Proof.
  revert n seg pre s; induction ds as [|d ds IH]; intros n seg pre s Hok Hseg Hn Hs.
  - destruct n as [|n]; [cbn in Hn; lia|].
    destruct (turn_end seg pre [] s Hseg Hs) as (s'&E&B). exists s'. cbn [iter].
    change (fmt_of [] ++ [0]) with [0]. change (args_of []) with (@nil va).
    rewrite (bind_eq _ _ _ _ _ E). change (render []) with (@nil Z). by rewrite app_nil_r.
  - apply Forall_cons in Hok as [Hd Hok].
    change (fmt_of (d :: ds)) with (fmt_piece d ++ fmt_of ds) in *.
    change (args_of (d :: ds)) with (args_piece d ++ args_of ds).
    change (render (d :: ds)) with (render_piece d ++ render ds).
    rewrite <- app_assoc in *. rewrite length_app in Hn.
    assert (Hlit : (exists l, d = Lit l) \/ forall l, d <> Lit l)
      by (destruct d; [left; eauto|right; done..]).
    destruct Hlit as [[l ->]|Hnl].
    + cbn [fmt_piece args_piece render_piece piece_ok app] in *.
      revert n pre Hseg Hn. induction l as [|c l IHl]; intros n pre Hseg Hn.
      * cbn [app] in *. by apply IH.
      * apply Forall_cons in Hd as [[H1 H2] Hd]. destruct n as [|n]; [cbn in Hn; lia|].
        cbn [app]. rewrite (loop_step _ _ _ _ _ (turn_char _ _ _ _ _ H1 H2)).
        destruct (IHl Hd n (pre ++ [c])) as (s'&E&B).
        { rewrite Hseg. by rewrite <- app_assoc. }
        { cbn in Hn. lia. }
        exists s'. split; [exact E|]. rewrite B. by rewrite <- !app_assoc.
    + pose proof (fmt_piece_pos d Hnl). destruct n as [|n]; [lia|].
      destruct (turn_piece d seg pre (fmt_of ds ++ [0]) (args_of ds) Hnl Hd Hseg s Hs)
        as (s1&E1&T1&C1).
      rewrite (loop_step _ _ _ _ _ E1).
      destruct (IH n (fmt_of ds ++ [0]) [] s1 Hok eq_refl ltac:(lia) C1) as (s'&E&B).
      exists s'. split; [exact E|]. by rewrite B, T1, <- !app_assoc.
Qed.

Lemma text_renders ds :
  Forall piece_ok ds ->
  exists r, text (fmt_of ds ++ [0]) (args_of ds) = Ok (r, render ds).
Proof.
  intros Hok. unfold text, printf_internal, printf_loop.
  destruct (loop_renders ds (S (length (fmt_of ds ++ [0]))) (fmt_of ds ++ [0]) [] (mkOs [] 0 []))
    as (s'&E&B); [done..| |done|].
  - rewrite length_app. lia.
  - exists (written s'). rewrite E, B. done.
Qed.



(** [snprintf(buf, 6, "%d-", 1234567)] in a buffer of eight bytes; with room for
    0 bytes, the text goes past the end. *)
Lemma vsnprintf_truncates_witness :
  vsnprintf (Some (replicate 8 63)) 6 [37; 100; 45; 0] [VInt 1234567] =
    Ok (8, Some [49; 50; 51; 52; 53; 0; 63; 63]) /\
  vsnprintf (Some (replicate 8 63)) 0 [37; 100; 45; 0] [VInt 1234567] = Err Undefined.
Proof.
  split.
  - destruct (vsnprintf_truncates (replicate 8 63) 6 [37; 100; 45; 0] [VInt 1234567] 8
      [49; 50; 51; 52; 53; 54; 55; 45]) as [_ H]; [cbn; lia|cbn; lia|reflexivity|exact H].
  - destruct (vsnprintf_truncates (replicate 8 63) 0 [37; 100; 45; 0] [VInt 1234567] 8
      [49; 50; 51; 52; 53; 54; 55; 45]) as [_ H]; [cbn; lia|cbn; lia|reflexivity|exact H].
Defined.
