(* ===== verification/CString.v ===== *)
(** * CString

    The character classes, string functions and number parser of the C library
    ([src/src/libc/ctype.c], [src/src/libc/string/basic.c],
    [src/src/libc/string/string.c], [src/src/libc/stdlib/stdlib.c]).  A pointer
    into a string is the list of bytes from it to the end of its object, so
    that a returned pointer is a suffix of the argument and running off the end
    of the object is [Err Undefined].  [strtok_r], which writes into its string
    and keeps a pointer to it, works on the whole object and an index. *)

From S2P Require Import Prelude Mem Printf.

(** ** [ctype.c] *)

Definition isblank (c : Z) : bool := (c =? 32) || (c =? 9).
Definition iscntrl (c : Z) : bool := (c <=? 31) || (c =? 127).
Definition isdigit (c : Z) : bool := (48 <=? c) && (c <=? 57).
Definition islower (c : Z) : bool := (97 <=? c) && (c <=? 122).
Definition isupper (c : Z) : bool := (65 <=? c) && (c <=? 90).
Definition isalpha (c : Z) : bool := islower c || isupper c.
Definition isalnum (c : Z) : bool := isalpha c || isdigit c.
Definition ispunct (c : Z) : bool :=
  ((33 <=? c) && (c <=? 47)) || ((58 <=? c) && (c <=? 64)) ||
  ((91 <=? c) && (c <=? 96)) || ((123 <=? c) && (c <=? 126)).
Definition isgraph (c : Z) : bool := isalpha c || isdigit c || ispunct c.
Definition isprint (c : Z) : bool := isgraph c || (c =? 32).
Definition isspace (c : Z) : bool :=
  (c =? 32) || (c =? 12) || (c =? 10) || (c =? 13) || (c =? 9) || (c =? 11).
Definition isxdigit (c : Z) : bool :=
  ((48 <=? c) && (c <=? 57)) || ((65 <=? c) && (c <=? 70)) || ((97 <=? c) && (c <=? 102)).
Definition tolower (c : Z) : Z := if isupper c then c - 65 + 97 else c.
Definition toupper (c : Z) : Z := if islower c then c - 97 + 65 else c.

(** ** [basic.c] *)

Fixpoint strchr (s : list Z) (c : Z) : res (option (list Z)) :=
  match s with
  | [] => Err Undefined
  | b :: t =>
      if (b =? 0) && negb (c =? 0) then Ok None
      else if schar b =? c then Ok (Some s)
      else strchr t c
  end.

(** [strrchr] reads every index from [strlen(s) + 1] down to 0. *)
Fixpoint strrchr_from (s : list Z) (c : Z) (i : nat) : res (option (list Z)) :=
  match s !! i with
  | None => Err Undefined
  | Some b =>
      if schar b =? c then Ok (Some (drop i s))
      else match i with O => Ok None | S k => strrchr_from s c k end
  end.

Definition strrchr (s : list Z) (c : Z) : res (option (list Z)) :=
  n ← strlen s; strrchr_from s c (Z.to_nat (n + 1)).

Fixpoint strspn (s accept : list Z) : res Z :=
  match s with
  | [] => Err Undefined
  | b :: t =>
      if b =? 0 then Ok 0
      else
        p ← strchr accept (schar b);
        match p with Some _ => n ← strspn t accept; Ok (n + 1) | None => Ok 0 end
  end.

Fixpoint strcspn (s reject : list Z) : res Z :=
  match s with
  | [] => Err Undefined
  | b :: t =>
      if b =? 0 then Ok 0
      else
        p ← strchr reject (schar b);
        match p with Some _ => Ok 0 | None => n ← strcspn t reject; Ok (n + 1) end
  end.

Fixpoint strpbrk (s1 s2 : list Z) : res (option (list Z)) :=
  match s1 with
  | [] => Err Undefined
  | b :: t =>
      if b =? 0 then Ok None
      else
        p ← strchr s2 (schar b);
        match p with Some _ => Ok (Some s1) | None => strpbrk t s2 end
  end.

(** [strtok_r]: the object [buf], the index of the string ([None] for [NULL]),
    the separators and [*state]; answers the object, [*state] and the token. *)
Definition strtok_r (buf : list Z) (s : option nat) (sep : list Z) (state : nat) :
    res (list Z * nat * option nat) :=
  let s := default state s in
  k ← strspn (drop s buf) sep;
  let s := (s + Z.to_nat k)%nat in
  match buf !! s with
  | None => Err Undefined
  | Some b =>
      if b =? 0 then Ok (buf, state, None)
      else
        n ← strcspn (drop s buf) sep;
        let end_ := (s + Z.to_nat n)%nat in
        match buf !! end_ with
        | None => Err Undefined
        | Some e =>
            if negb (e =? 0) then Ok (<[end_ := 0]> buf, S end_, Some s)
            else Ok (buf, end_, Some s)
        end
  end.

Fixpoint strncmp (s1 s2 : list Z) (n : nat) : res Z :=
  match n with
  | O => Ok 0
  | S k =>
      match s1, s2 with
      | c1 :: t1, c2 :: t2 =>
          if schar c1 <? schar c2 then Ok (-1)
          else if schar c2 <? schar c1 then Ok 1
          else strncmp t1 t2 k
      | _, _ => Err Undefined
      end
  end.

(** [strstr]: [l1] and [l2] are the lengths; the window never leaves [s1]. *)
Fixpoint strstr_loop (s1 s2 : list Z) (l1 l2 : Z) : option (list Z) :=
  if l1 <? l2 then None
  else if bytes_cmp (take (Z.to_nat l2) s1) (take (Z.to_nat l2) s2) =? 0 then Some s1
  else match s1 with [] => None | _ :: t => strstr_loop t s2 (l1 - 1) l2 end.

Definition strstr (s1 s2 : list Z) : res (option (list Z)) :=
  l1 ← strlen s1; l2 ← strlen s2; Ok (strstr_loop s1 s2 l1 l2).

(** The destination object after the copy; writing past it is undefined. *)
Fixpoint strcpy (dst src : list Z) : res (list Z) :=
  match src, dst with
  | [], _ | _, [] => Err Undefined
  | c :: src, _ :: dst =>
      if c =? 0 then Ok (0 :: dst) else l ← strcpy dst src; Ok (c :: l)
  end.

Definition strcat (dst src : list Z) : res (list Z) :=
  n ← strlen dst;
  l ← strcpy (drop (Z.to_nat n) dst) src;
  Ok (take (Z.to_nat n) dst ++ l).

(** [strncpy]: the destination, and whether it stopped at a terminator (it then
    returns the address of the terminator instead of [dst]). *)
Fixpoint strncpy (dst src : list Z) (n : nat) : res (list Z * bool) :=
  match n with
  | O => Ok (dst, false)
  | S k =>
      match src, dst with
      | [], _ | _, [] => Err Undefined
      | c :: src, _ :: dst =>
          if c =? 0 then Ok (0 :: dst, true)
          else r ← strncpy dst src k; Ok (c :: r.1, r.2)
      end
  end.

Fixpoint strnlen (s : list Z) (len : nat) : res Z :=
  match len with
  | O => Ok 0
  | S k =>
      match s with
      | [] => Err Undefined
      | c :: t => if c =? 0 then Ok 0 else n ← strnlen t k; Ok (n + 1)
      end
  end.

(** ** [strings.h]; [n] is a [size_t] *)

Fixpoint strncasecmp (s1 s2 : list Z) (n : Z) : res Z :=
  if n <=? 0 then Ok 0
  else
    match s1, s2 with
    | a :: t1, b :: t2 =>
        let c1 := tolower (schar a) in
        let c2 := tolower (schar b) in
        if (c1 =? 0) || negb (c1 =? c2) then
          if c1 <? c2 then Ok (-1) else if c2 <? c1 then Ok 1 else Ok 0
        else strncasecmp t1 t2 (n - 1)
    | _, _ => Err Undefined
    end.

Definition strcasecmp (s1 s2 : list Z) : res Z := strncasecmp s1 s2 (u64 (-1)).

(** ** [strtol] and its family *)

Definition digit_value (c : Z) : option Z :=
  if (48 <=? c) && (c <=? 57) then Some (c - 48)
  else if (97 <=? c) && (c <=? 122) then Some (c - 87)
  else if (65 <=? c) && (c <=? 90) then Some (c - 55)
  else None.

(** The accumulation loop; [res] is a [long], whose overflow is undefined. *)
Fixpoint strton_digits (s : list Z) (base acc : Z) : res (Z * list Z) :=
  match s with
  | [] => Err Undefined
  | c :: t =>
      match digit_value c with
      | None => Ok (acc, s)
      | Some d =>
          if base <=? d then Ok (acc, s)
          else if LONG_MAX <? acc * base + d then Err Undefined
          else strton_digits t base (acc * base + d)
      end
  end.

Fixpoint skip_space (s : list Z) : res (list Z) :=
  match s with
  | [] => Err Undefined
  | c :: t => if isspace (schar c) then skip_space t else Ok s
  end.

Definition head_char (s : list Z) : res Z :=
  match s with [] => Err Undefined | c :: _ => Ok c end.

(** The optional sign, and the prefix that decides the base when it is 0. *)
Definition strton_sign (s : list Z) : res (list Z * Z) :=
  c ← head_char s;
  Ok (if c =? 43 then (tail s, 1) else if c =? 45 then (tail s, -1) else (s, 1)).

Definition strton_base (s : list Z) (base : Z) : res (list Z * Z) :=
  if base =? 0 then
    c ← head_char s;
    if c =? 48 then
      let s := tail s in
      c ← head_char s;
      if (c =? 120) || (c =? 88) then Ok (tail s, 16) else Ok (s, 8)
    else Ok (s, 10)
  else Ok (s, base).

(** The value, where parsing stopped, and the sign. *)
Definition strton (s : list Z) (base : Z) : res (Z * list Z * Z) :=
  s ← skip_space s;
  '(s, sign) ← strton_sign s;
  '(s, base) ← strton_base s base;
  '(n, s) ← strton_digits s base 0;
  Ok (n, s, sign).

Definition strtol (s : list Z) (base : Z) : res (Z * list Z) :=
  '(n, e, sign) ← strton s base; Ok (n * sign, e).

(** [strtoul] ignores the sign it skips. *)
Definition strtoul (s : list Z) (base : Z) : res (Z * list Z) :=
  '(n, e, _) ← strton s base; Ok (n, e).

Definition atoi (s : list Z) : res Z := '(n, _) ← strtol s 10; Ok (s32 n).
Definition atol (s : list Z) : res Z := '(n, _) ← strtol s 10; Ok n.

(** ** Lemmas *)

(** [rest] does not continue a numeral of [base]. *)
Definition stops (base : Z) (rest : list Z) : bool :=
  match rest with
  | [] => false
  | c :: _ => match digit_value c with Some d => base <=? d | None => true end
  end.

Lemma digit_value_char d : 0 <= d < 36 -> digit_value (digit_char d) = Some d.
Proof.
  intros Hd. unfold digit_value, digit_char.
  destruct (d <? 10) eqn:E; zbool; repeat case_match; zbool; try (f_equal; lia);
    repeat match goal with H : (_ && _) = false |- _ => apply andb_false_iff in H as [?|?] end;
    zbool; lia.
Qed.

(** A digit is neither white space nor a sign. *)
Lemma digit_char_range d : 0 <= d < 36 -> 48 <= digit_char d <= 57 \/ 97 <= digit_char d <= 122.
Proof. intros. unfold digit_char. case_match; zbool; lia. Qed.

Lemma value_ge base ds acc :
  1 < base -> 0 <= acc -> Forall (fun d => 0 <= d < base) ds ->
  acc <= foldl (fun a d => a * base + d) acc ds.
Proof.
  intros Hb Ha Hds. revert acc Ha. induction Hds as [|d ds Hd _ IH]; intros acc Ha; cbn; [lia|].
  etrans; [|apply IH]; nia.
Qed.

Lemma strton_digits_run base ds rest acc :
  1 < base <= 36 -> Forall (fun d => 0 <= d < base) ds -> stops base rest = true -> 0 <= acc ->
  foldl (fun a d => a * base + d) acc ds <= LONG_MAX ->
  strton_digits ((digit_char <$> ds) ++ rest) base acc =
  Ok (foldl (fun a d => a * base + d) acc ds, rest).
Proof.
  intros Hb Hds Hr. revert acc. induction Hds as [|d ds Hd Hds IH]; intros acc Ha Hm; cbn.
  - destruct rest as [|c t]; [done|]. cbn in *.
    destruct (digit_value c); [|done]. by rewrite Hr.
  - rewrite digit_value_char by lia.
    rewrite (proj2 (Z.leb_gt base d)) by lia.
    cbn in Hm. pose proof (value_ge base ds (acc * base + d) ltac:(lia) ltac:(nia) Hds).
    rewrite (proj2 (Z.ltb_ge _ _)) by lia. apply IH; [nia|done].
Qed.

Lemma strton_numeral base n rest :
  1 < base <= 36 -> 0 <= n <= LONG_MAX -> stops base rest = true ->
  strton_digits (numeral base n ++ rest) base 0 = Ok (n, rest).
Proof.
  intros Hb Hn Hr. unfold numeral.
  destruct (digits_value base 64 n) as [Hv Hds].
  { lia. }
  { split; [lia|]. eapply Z.lt_le_trans with (2 ^ 64); [unfold_words; lia|].
    apply Z.pow_le_mono_l. lia. }
  unfold value in Hv. rewrite strton_digits_run; rewrite ?Hv; done || lia.
Qed.

Lemma numeral_head base n :
  1 < base <= 36 -> 0 <= n <= LONG_MAX ->
  exists d l, numeral base n = digit_char d :: l /\ 0 <= d < base /\
    (d = 0 -> n = 0 /\ l = []).
Proof.
  intros Hb Hn. unfold numeral.
  destruct (digits_value base 64 n) as [_ Hds]; [lia| |].
  { split; [lia|]. eapply Z.lt_le_trans with (2 ^ 64); [unfold_words; lia|].
    apply Z.pow_le_mono_l. lia. }
  destruct (decide (n = 0)) as [->|Hn0].
  - exists 0, []. cbn [digits]. rewrite (proj2 (Z.ltb_lt _ _)) by lia. split_and!; [done|lia..|done].
  - destruct (digits_head base 64 n) as (d&l&E&Hd); [lia| |].
    { split; [lia|]. eapply Z.lt_le_trans with (2 ^ 64); [unfold_words; lia|].
      apply Z.pow_le_mono_l. lia. }
    rewrite E in *. apply Forall_cons_1 in Hds as [Hd' _].
    exists d, (digit_char <$> l). by split_and!; try lia.
Qed.

Lemma skip_space_run sp c t :
  Forall (fun b => isspace (schar b) = true) sp -> isspace (schar c) = false ->
  skip_space (sp ++ c :: t) = Ok (c :: t).
Proof. intros Hsp Hc. induction Hsp as [|b sp Hb _ IH]; cbn; [by rewrite Hc|by rewrite Hb]. Qed.

Lemma not_space c : 33 <= c < 128 -> isspace (schar c) = false.
Proof.
  intros. unfold isspace, schar. rewrite Z.mod_small by lia.
  repeat (apply orb_false_iff; split); apply Z.eqb_neq; lia.
Qed.

(** How a literal of [base] is written when the parser finds the base out. *)
Definition prefix (base : Z) : list Z :=
  if base =? 8 then [48] else if base =? 16 then [48; 120] else [].

Definition sign_of (neg : bool) : list Z := if neg then [45] else [].

Lemma sign_run sp neg c t :
  Forall (fun b => isspace (schar b) = true) sp -> 48 <= c < 128 ->
  (s ← skip_space (sp ++ sign_of neg ++ c :: t); strton_sign s)
  = Ok (c :: t, if neg then -1 else 1).
Proof.
  intros Hsp Hc. destruct neg; cbn [sign_of app].
  - rewrite skip_space_run by (done || by apply not_space; lia). done.
  - rewrite skip_space_run by (done || by apply not_space; lia). cbn.
    rewrite (proj2 (Z.eqb_neq c 43)), (proj2 (Z.eqb_neq c 45)) by lia. done.
Qed.

Lemma strton_base_given s base : base <> 0 -> strton_base s base = Ok (s, base).
Proof. intros. unfold strton_base. by rewrite (proj2 (Z.eqb_neq base 0)). Qed.

Lemma strton_base_auto base n rest :
  base = 8 \/ base = 10 /\ 0 < n \/ base = 16 -> 0 <= n <= LONG_MAX ->
  strton_base (prefix base ++ numeral base n ++ rest) 0 = Ok (numeral base n ++ rest, base).
Proof.
  intros Hb Hn. destruct (numeral_head base n) as (d&l&->&Hd&H0); [lia|lia|].
  destruct Hb as [->|[[-> Hp]| ->]]; cbn; [| |done];
    unfold digit_char; rewrite (proj2 (Z.ltb_lt d 10)) by lia.
  - rewrite (proj2 (Z.eqb_neq (48 + d) 120)), (proj2 (Z.eqb_neq (48 + d) 88)) by lia. done.
  - destruct (48 + d =? 48) eqn:E; [zbool|done]. destruct H0; lia.
Qed.

Lemma strtol_given sp neg base n rest :
  Forall (fun b => isspace (schar b) = true) sp ->
  1 < base <= 36 -> 0 <= n <= LONG_MAX -> stops base rest = true ->
  strtol (sp ++ sign_of neg ++ numeral base n ++ rest) base
  = Ok (n * (if neg then -1 else 1), rest).
Proof.
  intros Hsp Hb Hn Hr. destruct (numeral_head base n) as (d&l&E&Hd&_); [done..|].
  pose proof (digit_char_range d ltac:(lia)).
  pose proof (sign_run sp neg (digit_char d) (l ++ rest) Hsp ltac:(lia)) as Hs.
  pose proof (strton_numeral base n rest Hb Hn Hr) as Hnum.
  rewrite E in *. unfold strtol, strton. cbn [app] in *.
  destruct (skip_space _) as [s1|]; [|done]. cbn in *. rewrite Hs. cbn.
  rewrite strton_base_given by lia. cbn. by rewrite Hnum.
Qed.

Lemma strtol_auto sp neg base n rest :
  Forall (fun b => isspace (schar b) = true) sp ->
  base = 8 \/ base = 10 /\ 0 < n \/ base = 16 -> 0 <= n <= LONG_MAX -> stops base rest = true ->
  strtol (sp ++ sign_of neg ++ prefix base ++ numeral base n ++ rest) 0
  = Ok (n * (if neg then -1 else 1), rest).
Proof.
  intros Hsp Hb Hn Hr.
  pose proof (strton_base_auto base n rest Hb Hn) as Hba.
  pose proof (strton_numeral base n rest ltac:(lia) Hn Hr) as Hnum.
  assert (exists c t, prefix base ++ numeral base n ++ rest = c :: t /\ 48 <= c < 128) as (c&t&E&Hc).
  { destruct (numeral_head base n) as (d&l&->&Hd&_); [lia|done|].
    pose proof (digit_char_range d ltac:(lia)).
    destruct Hb as [->|[[-> Hp]| ->]]; cbn; eexists _, _; (split; [reflexivity|lia]). }
  rewrite E in *. pose proof (sign_run sp neg c t Hsp Hc) as Hs. unfold strtol, strton.
  destruct (skip_space _) as [s1|]; [|done]. cbn in *. rewrite Hs. cbn.
  rewrite Hba. cbn. by rewrite Hnum.
Qed.

(** A decimal number whose base is to be found out; 0 reads as octal. *)
Lemma strtol_decimal n c t :
  0 <= n <= LONG_MAX -> c = 46 \/ c = 0 -> strtol (numeral 10 n ++ c :: t) 0 = Ok (n, c :: t).
Proof.
  intros Hn Hc. destruct (decide (n = 0)) as [->|].
  - destruct Hc as [-> | ->]; reflexivity.
  - pose proof (strtol_auto [] false 10 n (c :: t)) as H. cbn [app sign_of] in H.
    change (prefix 10) with (@nil Z) in H. cbn [app] in H.
    rewrite H; [by rewrite Z.mul_1_r|constructor|lia|done|by destruct Hc as [-> | ->]].
Qed.

(** ** Tokens *)

(** [b] is one of the characters of the terminated string [accept]. *)
Definition is_sep (accept : list Z) (b : Z) : bool :=
  match strchr accept (schar b) with Ok (Some _) => true | _ => false end.

Lemma strchr_total s c : 0 ∈ s -> exists o, strchr s c = Ok o.
Proof.
  intros Hs. induction s as [|b s IH]; [by apply not_elem_of_nil in Hs|]. cbn.
  case_match; [by eexists|]. case_match; [by eexists|].
  apply elem_of_cons in Hs as [<-|Hs]; [|by apply IH].
  change (schar 0) with 0 in *. zbool. cbn in *. by destruct (c =? 0) eqn:?; zbool; subst.
Qed.

Lemma strspn_run accept l b rest :
  0 ∈ accept -> Forall (fun b => b <> 0 /\ is_sep accept b = true) l ->
  b = 0 \/ is_sep accept b = false ->
  strspn (l ++ b :: rest) accept = Ok (Z.of_nat (length l)).
Proof.
  intros Ha Hl Hb. induction Hl as [|x l [Hx Hs] _ IH]; cbn.
  - destruct Hb as [->|Hb]; [done|]. case_match; [done|]. unfold is_sep in Hb.
    destruct (strchr_total accept (schar b) Ha) as [o E]. rewrite E in *. by destruct o.
  - rewrite (proj2 (Z.eqb_neq x 0) Hx). unfold is_sep in Hs.
    destruct (strchr accept (schar x)) as [[o|]|]; [|done..]. cbn. rewrite IH. cbn. f_equal. lia.
Qed.

Lemma strcspn_run reject l b rest :
  0 ∈ reject -> Forall (fun b => b <> 0 /\ is_sep reject b = false) l ->
  b = 0 \/ is_sep reject b = true ->
  strcspn (l ++ b :: rest) reject = Ok (Z.of_nat (length l)).
Proof.
  intros Ha Hl Hb. induction Hl as [|x l [Hx Hs] _ IH]; cbn.
  - destruct Hb as [->|Hb]; [done|]. case_match; [done|]. unfold is_sep in Hb.
    by destruct (strchr reject (schar b)) as [[o|]|].
  - rewrite (proj2 (Z.eqb_neq x 0) Hx). unfold is_sep in Hs.
    destruct (strchr_total reject (schar x) Ha) as [o E]. rewrite E in *. destruct o; [done|].
    cbn. rewrite IH. cbn. f_equal. lia.
Qed.

(** ** Properties *)

(** [strtol] reads back what it parses.  White space, an optional minus
    sign and the numeral of a number up to [LONG_MAX], in any base from 2 to 36
    given by the caller or, for base 0, announced by the prefix 0 or 0x or by
    its absence, are read as that number, and the end pointer is left at the
    first character that is no digit of the base. *)
Theorem strtol_reads_numeral sp neg base n rest :
  Forall (fun b => isspace (schar b) = true) sp -> 0 <= n <= LONG_MAX ->
  stops base rest = true ->
  (1 < base <= 36 ->
   strtol (sp ++ sign_of neg ++ numeral base n ++ rest) base
   = Ok (n * (if neg then -1 else 1), rest)) /\
  (base = 8 \/ base = 10 /\ 0 < n \/ base = 16 ->
   strtol (sp ++ sign_of neg ++ prefix base ++ numeral base n ++ rest) 0
   = Ok (n * (if neg then -1 else 1), rest)).
Proof. intros. split; intros; [by apply strtol_given|by apply strtol_auto]. Qed.

Lemma strtol_reads_numeral_witness :
  (* "\t -0x1f." *)
  strtol [9; 32; 45; 48; 120; 49; 102; 46] 0 = Ok (-31, [46]).
Proof.
  destruct (strtol_reads_numeral [9; 32] true 16 31 [46]) as [_ H];
    [by repeat constructor|unfold LONG_MAX; lia|reflexivity|].
  refine (eq_trans _ (H _)); [reflexivity|by right; right].
Defined.

(** [strtok_r] cuts the next token out of its string.  After a run of
    separators, a token (at least one character, none of them a separator) is
    returned where it starts.  If a separator follows, exactly that byte of the
    object is overwritten with a terminator, and the next call starts behind
    it; if the string ends there, nothing changes and the next call finds the
    end.  If only separators are left, there is no token and nothing changes. *)
Theorem strtok_r_cuts pre seps tok c rest sep st :
  0 ∈ sep ->
  Forall (fun b => b <> 0 /\ is_sep sep b = true) seps ->
  Forall (fun b => b <> 0 /\ is_sep sep b = false) tok ->
  c = 0 \/ is_sep sep c = true ->
  let start := (length pre + length seps)%nat in
  let stop := (start + length tok)%nat in
  let run s := strtok_r (pre ++ seps ++ tok ++ c :: rest) s sep st in
  (tok <> [] -> c <> 0 ->
   run (Some (length pre)) = Ok (pre ++ seps ++ tok ++ 0 :: rest, S stop, Some start)) /\
  (tok <> [] -> c = 0 ->
   run (Some (length pre)) = Ok (pre ++ seps ++ tok ++ c :: rest, stop, Some start)) /\
  (tok = [] -> c = 0 ->
   run (Some (length pre)) = Ok (pre ++ seps ++ tok ++ c :: rest, st, None)) /\
  (st = length pre -> run None = run (Some (length pre))).
Proof.
  intros Ha Hseps Htok Hc start stop run.
  assert (Hspn : tok <> [] \/ c = 0 ->
    strspn (drop (length pre) (pre ++ seps ++ tok ++ c :: rest)) sep
    = Ok (Z.of_nat (length seps))).
  { intros H. rewrite drop_app_length. destruct tok as [|x tok]; cbn [app].
    - destruct H; [done|]. apply strspn_run; auto.
    - apply Forall_cons_1 in Htok as [[_ ?] _]. apply strspn_run; auto. }
  assert (Hbuf : pre ++ seps ++ tok ++ c :: rest = (pre ++ seps) ++ tok ++ c :: rest)
    by by rewrite app_assoc.
  assert (Hstart : length (pre ++ seps) = start) by (unfold start; by rewrite length_app).
  assert (Hcspn : strcspn (drop start (pre ++ seps ++ tok ++ c :: rest)) sep
    = Ok (Z.of_nat (length tok))).
  { rewrite Hbuf, <- Hstart, drop_app_length. apply strcspn_run; auto. }
  assert (Hend : (pre ++ seps ++ tok ++ c :: rest) !! stop = Some c).
  { rewrite Hbuf, app_assoc. unfold stop. rewrite <- Hstart, <- length_app.
    by rewrite lookup_app_r, Nat.sub_diag by lia. }
  assert (Hfst : tok <> [] ->
    exists x, (pre ++ seps ++ tok ++ c :: rest) !! start = Some x /\ (x =? 0) = false).
  { intros Ht. destruct tok as [|x tok]; [done|]. apply Forall_cons_1 in Htok as [[? _] _].
    exists x. rewrite Hbuf, <- Hstart, lookup_app_r, Nat.sub_diag by lia.
    split; [done|by apply Z.eqb_neq]. }
  assert (Hrun : tok <> [] -> run (Some (length pre)) =
    if negb (c =? 0) then Ok (<[stop := 0]> (pre ++ seps ++ tok ++ c :: rest), S stop, Some start)
    else Ok (pre ++ seps ++ tok ++ c :: rest, stop, Some start)).
  { intros Ht. destruct (Hfst Ht) as (x&Hx&Hx0). unfold run, strtok_r. cbn [from_option]; unfold id.
    rewrite Hspn by auto. cbn [mbind res_bind]. rewrite Nat2Z.id. fold start.
    rewrite Hx, Hx0, Hcspn. cbn [mbind res_bind]. rewrite Nat2Z.id. fold stop. by rewrite Hend. }
  split_and!.
  - intros Ht Hc0. rewrite Hrun by done. rewrite (proj2 (Z.eqb_neq c 0) Hc0). cbn [negb].
    do 3 f_equal. rewrite Hbuf, app_assoc. unfold stop. rewrite <- Hstart, <- length_app.
    rewrite insert_app_r_alt, Nat.sub_diag by lia. cbn. by rewrite <- !app_assoc.
  - intros Ht ->. by rewrite Hrun.
  - intros -> ->. unfold run, strtok_r. cbn [from_option]; unfold id. rewrite Hspn by auto.
    cbn [mbind res_bind]. rewrite Nat2Z.id. fold start. unfold stop in Hend.
    cbn [length] in Hend. rewrite Nat.add_0_r in Hend. by rewrite Hend.
  - intros ->. done.
Qed.

Lemma strtok_r_cuts_witness :
  (* "/udp/5" cut at the slashes *)
  strtok_r [47; 117; 100; 112; 47; 53; 0] (Some 0%nat) [47; 0] 0
  = Ok ([47; 117; 100; 112; 0; 53; 0], 5%nat, Some 1%nat).
Proof.
  destruct (strtok_r_cuts [] [47] [117; 100; 112] 47 [53; 0] [47; 0] 0) as (H & _);
    [by apply (bool_decide_unpack _)|by repeat constructor..|by right|].
  by apply H.
Defined.

(** [strrchr] looks one byte past the terminator.  If the byte after the
    string's terminator is the character looked for, the pointer returned is
    that of the foreign byte, whatever the string holds. *)
Lemma strrchr_reads_past_end s c rest :
  Forall (fun b => b <> 0) s -> - 128 <= c < 128 ->
  strrchr (s ++ 0 :: u8 c :: rest) c = Ok (Some (u8 c :: rest)).
Proof.
  intros Hs Hc. unfold strrchr.
  assert (strlen (s ++ 0 :: u8 c :: rest) = Ok (Z.of_nat (length s))) as ->.
  { induction Hs as [|b s Hb _ IH]; cbn; [done|].
    rewrite (proj2 (Z.eqb_neq b 0) Hb). rewrite IH. cbn. f_equal. lia. }
  cbn [mbind res_bind]. replace (Z.to_nat _) with (S (length s)) by lia.
  assert (Hl : (s ++ 0 :: u8 c :: rest) !! S (length s) = Some (u8 c)).
  { rewrite lookup_app_r by lia. by replace (S (length s) - length s)%nat with 1%nat by lia. }
  cbn [strrchr_from]. rewrite Hl.
  assert ((schar (u8 c) =? c) = true) as -> by (apply Z.eqb_eq; unfold schar; word_lia).
  do 2 f_equal. rewrite drop_app_ge by lia.
  by replace (S (length s) - length s)%nat with 1%nat by lia.
Qed.
