(* ===== verification/NetUtil.v ===== *)
(** * NetUtil

    Helpers of the network stack ([src/src/cmd/netstack/util.c], [util.h]): big
    endian fields, the CRC of Ethernet frames, the Internet checksum with and
    without a pseudo header, and the parser of IP addresses.  A buffer is the
    list of bytes from its pointer to the end of its object; an access outside
    of it is [Err Undefined]. *)

From S2P Require Import Prelude Mem Printf CString.

(** ** Buffers *)

Definition peek (buf : list Z) (i : Z) : res Z :=
  match buf !! Z.to_nat i with Some b => Ok b | None => Err Undefined end.

(** [memcpy] out of a buffer and into one. *)
Definition fetch (buf : list Z) (off len : Z) : res (list Z) :=
  if off + len <=? Z.of_nat (length buf)
  then Ok (take (Z.to_nat len) (drop (Z.to_nat off) buf)) else Err Undefined.

Definition store (buf : list Z) (off : Z) (bs : list Z) : res (list Z) :=
  if off + Z.of_nat (length bs) <=? Z.of_nat (length buf)
  then Ok (splice (Z.to_nat off) bs buf) else Err Undefined.

Lemma fetch_in (buf : list Z) off len :
  off + len <= Z.of_nat (length buf) ->
  fetch buf off len = Ok (take (Z.to_nat len) (drop (Z.to_nat off) buf)).
Proof. intros H. unfold fetch. by rewrite (proj2 (Z.leb_le (off + len) _) H). Qed.

Lemma store_in (buf : list Z) off bs :
  off + Z.of_nat (length bs) <= Z.of_nat (length buf) ->
  store buf off bs = Ok (splice (Z.to_nat off) bs buf).
Proof. intros H. unfold store. by rewrite (proj2 (Z.leb_le (off + _) _) H). Qed.

(** The pointer [buf + off]. *)
Definition advance (buf : list Z) (off : Z) : list Z := drop (Z.to_nat off) buf.

Definition be16 (n : Z) : list Z := [u8 (Z.shiftr n 8); u8 n].
Definition be32 (n : Z) : list Z :=
  [u8 (Z.shiftr n 24); u8 (Z.shiftr n 16); u8 (Z.shiftr n 8); u8 n].

Definition nput16 (buf : list Z) (off n : Z) : res (list Z) := store buf off (be16 n).
Definition nput32 (buf : list Z) (off n : Z) : res (list Z) := store buf off (be32 n).

Definition nget16 (buf : list Z) (off : Z) : res Z :=
  b0 ← peek buf off; b1 ← peek buf (off + 1);
  Ok (Z.lor (Z.shiftl b0 8) b1).

Definition nget32 (buf : list Z) (off : Z) : res Z :=
  b0 ← peek buf off; b1 ← peek buf (off + 1);
  b2 ← peek buf (off + 2); b3 ← peek buf (off + 3);
  Ok (Z.lor (Z.lor (Z.lor (Z.shiftl b0 24) (Z.shiftl b1 16)) (Z.shiftl b2 8)) b3).

(** ** [crc32] *)

Definition CRC_POLY : Z := 0xedb88320.

Definition crc_bit (c : Z) : Z :=
  Z.lxor (if Z.testbit c 0 then CRC_POLY else 0) (Z.shiftr c 1).

Definition crc_table : list Z := (fun i => Nat.iter 8 crc_bit i) <$> seqZ 0 256.

Fixpoint crc_loop (buf : list Z) (len : nat) (c : Z) {struct len} : res Z :=
  match len with
  | O => Ok c
  | S k =>
      match buf with
      | [] => Err Undefined
      | b :: buf =>
          e ← peek crc_table (Z.land (Z.lxor c b) 255);
          crc_loop buf k (Z.lxor e (Z.shiftr c 8))
      end
  end.

Definition crc32 (buf : list Z) (len : nat) : res Z :=
  c ← crc_loop buf len 0xFFFFFFFF; Ok (u32 (Z.lnot c)).

(** ** Checksums *)

(** The sum of the 16-bit words, in a [uint32_t]. *)
Fixpoint sum_words (buf : list Z) (len c : Z) {struct buf} : res Z :=
  if 2 <=? len then
    match buf with
    | b0 :: b1 :: buf => sum_words buf (len - 2) (u32 (c + Z.lor (Z.shiftl b0 8) b1))
    | _ => Err Undefined
    end
  else if 0 <? len then
    match buf with
    | b0 :: _ => Ok (u32 (c + Z.shiftl b0 8))
    | [] => Err Undefined
    end
  else Ok c.

(** [while (c > 0xFFFF) c = (c & 0xFFFF) + (c >> 16)] *)
Fixpoint fold_carries (fuel : nat) (c : Z) : res Z :=
  if 65535 <? c then
    match fuel with
    | O => Err OutOfFuel
    | S k => fold_carries k (u32 (Z.land c 65535 + Z.shiftr c 16))
    end
  else Ok c.

Definition ip_checksum (buf : list Z) (len : Z) : res Z :=
  c ← sum_words buf len 0;
  c ← fold_carries 3 c;
  Ok (u16 (Z.lnot c)).

Definition ip_checksumphdr (buf : list Z) (len ip1 ip2 proto : Z) : res Z :=
  c ← ip_checksum buf len;
  let c := u16 (Z.lnot c) in
  let c := u32 (c + (Z.land ip1 65535 + Z.shiftr ip1 16)) in
  let c := u32 (c + (Z.land ip2 65535 + Z.shiftr ip2 16)) in
  let c := u32 (c + u64 (proto + len)) in
  c ← fold_carries 3 c;
  Ok (u16 (Z.lnot c)).

(** ** [ip_parse] *)

(** The loop over the remaining parts, with [ip] and [parts] so far. *)
Fixpoint ip_parts (fuel : nat) (s : list Z) (ip parts : Z) : res (option (Z * Z)) :=
  match fuel with
  | O => Ok (Some (ip, parts))
  | S k =>
      c ← head_char s;
      if c =? 0 then Ok (Some (ip, parts))
      else if negb (c =? 46) then Ok None
      else
        '(n, s) ← strtol (tail s) 0;
        ip_parts k s (u32 (u32 (Z.shiftl ip 8) + n)) (parts + 1)
  end.

(** [None] is the return value -1. *)
Definition ip_parse (s : option (list Z)) : res (option Z) :=
  match s with
  | None => Ok None
  | Some s =>
      '(n, s) ← strtol s 0;
      r ← ip_parts 3 s (u32 n) 1;
      match r with
      | None => Ok None
      | Some (ip, parts) =>
          if 1 <? parts then
            Ok (Some (Z.lor (u32 (Z.shiftl (Z.land ip 0xFFFFFF00) (8 * (4 - parts))))
                            (Z.land ip 255)))
          else Ok (Some ip)
      end
  end.

(** ** Specifications *)

(** The CRC computed bit by bit, least significant bit first: the remainder of
    the message by the reflected polynomial. *)
Definition crc_feed (c : Z) (b : bool) : Z :=
  Z.lxor (if xorb (Z.testbit c 0) b then CRC_POLY else 0) (Z.shiftr c 1).

Definition byte_bits (b : Z) : list bool := (fun i => Z.testbit b (Z.of_nat i)) <$> seq 0 8.

Definition crc_spec (bits : list bool) : Z :=
  Z.lxor (foldl crc_feed 0xFFFFFFFF bits) 0xFFFFFFFF.

(** One's complement addition of 16-bit words (RFC 1071). *)
Definition ones_add (a b : Z) : Z :=
  let s := a + b in if 65535 <? s then s - 65535 else s.

Fixpoint words (l : list Z) : list Z :=
  match l with
  | b0 :: b1 :: l => (b0 * 256 + b1) :: words l
  | [b0] => [b0 * 256]
  | [] => []
  end.

Definition ones_sum (ws : list Z) : Z := foldl ones_add 0 ws.

(** ** Bytes and words *)

Lemma testbit_high b n i : 0 <= b < 2 ^ n -> n <= i -> Z.testbit b i = false.
Proof.
  intros Hb Hi. destruct (decide (b = 0)) as [->|]; [apply Z.bits_0|].
  destruct (decide (0 <= n)); [|rewrite Z.pow_neg_r in Hb by lia; lia].
  apply Z.bits_above_log2; [lia|]. apply Z.log2_lt_pow2; [lia|].
  eapply Z.lt_le_trans; [apply Hb|]. apply Z.pow_le_mono_r; lia.
Qed.

Lemma lor_shiftl a b n : 0 <= n -> 0 <= b < 2 ^ n -> Z.lor (Z.shiftl a n) b = a * 2 ^ n + b.
Proof.
  intros Hn Hb. rewrite <- Z.shiftl_mul_pow2 by done.
  assert (Z.land (Z.shiftl a n) b = 0) as H0.
  { apply Z.bits_inj'. intros i Hi. rewrite Z.land_spec, Z.shiftl_spec, Z.bits_0 by done.
    destruct (decide (i < n)); [by rewrite Z.testbit_neg_r by lia|].
    by rewrite (testbit_high b n), andb_false_r by lia. }
  by rewrite Z.add_nocarry_lxor, Z.lxor_lor.
Qed.

Lemma peek_lookup buf i : peek buf (Z.of_nat i) = match buf !! i with Some b => Ok b | None => Err Undefined end.
Proof. unfold peek. by rewrite Nat2Z.id. Qed.

Lemma is_byte_u8 z : is_byte (u8 z).
Proof. word_lia. Qed.

Lemma be16_bytes n : Forall is_byte (be16 n).
Proof. unfold be16. rewrite !Forall_cons. split_and!; try apply is_byte_u8. constructor. Qed.

Lemma be32_bytes n : Forall is_byte (be32 n).
Proof. unfold be32. rewrite !Forall_cons. split_and!; try apply is_byte_u8. constructor. Qed.

Lemma word_bytes b0 b1 : is_byte b1 -> Z.lor (Z.shiftl b0 8) b1 = b0 * 256 + b1.
Proof. intros H. rewrite lor_shiftl; [lia|lia|unfold is_byte in H; lia]. Qed.

Lemma be16_word n : Z.lor (Z.shiftl (u8 (Z.shiftr n 8)) 8) (u8 n) = u16 n.
Proof. rewrite word_bytes by apply is_byte_u8. rewrite Z.shiftr_div_pow2 by lia. word_lia. Qed.

Lemma dword_bytes a b c d :
  is_byte b -> is_byte c -> is_byte d ->
  Z.lor (Z.lor (Z.lor (Z.shiftl a 24) (Z.shiftl b 16)) (Z.shiftl c 8)) d
  = ((a * 256 + b) * 256 + c) * 256 + d.
Proof.
  intros Hb Hc Hd. unfold is_byte in *.
  replace (Z.shiftl a 24) with (Z.shiftl (Z.shiftl (Z.shiftl a 8) 8) 8)
    by (rewrite !Z.shiftl_shiftl by lia; done).
  replace (Z.shiftl b 16) with (Z.shiftl (Z.shiftl b 8) 8) by (rewrite Z.shiftl_shiftl by lia; done).
  rewrite <- !Z.shiftl_lor. rewrite !lor_shiftl by lia. lia.
Qed.

Lemma be32_word n :
  Z.lor (Z.lor (Z.lor (Z.shiftl (u8 (Z.shiftr n 24)) 24) (Z.shiftl (u8 (Z.shiftr n 16)) 16))
    (Z.shiftl (u8 (Z.shiftr n 8)) 8)) (u8 n) = u32 n.
Proof.
  rewrite dword_bytes by apply is_byte_u8.
  rewrite !Z.shiftr_div_pow2 by lia. word_lia.
Qed.

(** Reading the fields of a buffer written as a list. *)
Lemma nget16_app pre n post :
  nget16 (pre ++ be16 n ++ post) (Z.of_nat (length pre)) = Ok (u16 n).
Proof.
  unfold nget16. set (k := length pre).
  replace (Z.of_nat k + 1) with (Z.of_nat (k + 1)) by lia.
  rewrite !peek_lookup. subst k. rewrite 2!(lookup_app_r pre) by lia. rewrite Nat.sub_diag.
  replace (length pre + 1 - length pre)%nat with 1%nat by lia. cbn. by rewrite be16_word.
Qed.

Lemma nget32_app pre n post :
  nget32 (pre ++ be32 n ++ post) (Z.of_nat (length pre)) = Ok (u32 n).
Proof.
  unfold nget32. set (k := length pre).
  replace (Z.of_nat k + 1) with (Z.of_nat (k + 1)) by lia.
  replace (Z.of_nat k + 2) with (Z.of_nat (k + 2)) by lia.
  replace (Z.of_nat k + 3) with (Z.of_nat (k + 3)) by lia.
  rewrite !peek_lookup. subst k. rewrite 4!(lookup_app_r pre) by lia. rewrite Nat.sub_diag.
  replace (length pre + 1 - length pre)%nat with 1%nat by lia.
  replace (length pre + 2 - length pre)%nat with 2%nat by lia.
  replace (length pre + 3 - length pre)%nat with 3%nat by lia. cbn. by rewrite be32_word.
Qed.

Lemma store_app pre old bs post :
  length old = length bs ->
  store (pre ++ old ++ post) (Z.of_nat (length pre)) bs = Ok (pre ++ bs ++ post).
Proof.
  intros Hl. unfold store. rewrite !length_app.
  rewrite (proj2 (Z.leb_le _ _)) by lia. f_equal. unfold splice.
  rewrite Nat2Z.id, take_app_length. do 2 f_equal.
  rewrite app_assoc, <- Hl. rewrite drop_app_length'; [done|]. by rewrite length_app.
Qed.

(** ** The CRC table is eight steps of the bitwise computation *)

Lemma crc_bit_lxor a b : crc_bit (Z.lxor a b) = Z.lxor (crc_bit a) (crc_bit b).
Proof.
  unfold crc_bit. rewrite Z.lxor_spec, Z.shiftr_lxor.
  destruct (Z.testbit a 0), (Z.testbit b 0); cbn [xorb];
    apply Z.bits_inj'; intros i _; rewrite ?Z.lxor_spec, ?Z.bits_0;
    repeat match goal with |- context [Z.testbit ?x i] => destruct (Z.testbit x i) end; done.
Qed.

Lemma crc_iter_lxor n a b :
  Nat.iter n crc_bit (Z.lxor a b) = Z.lxor (Nat.iter n crc_bit a) (Nat.iter n crc_bit b).
Proof. induction n as [|n IH]; [done|]. by rewrite !Nat.iter_succ, IH, crc_bit_lxor. Qed.

(** Bits above the ones consumed are only shifted. *)
Lemma crc_iter_shift n c : Nat.iter n crc_bit (Z.shiftl c (Z.of_nat n)) = c.
Proof.
  revert c. induction n as [|n IH]; intros c; [by rewrite Z.shiftl_0_r|].
  rewrite Nat.iter_succ_r. unfold crc_bit at 2. rewrite Z.shiftl_spec, Z.testbit_neg_r by lia. cbv iota.
  rewrite Z.lxor_0_l. replace (Z.of_nat (S n)) with (Z.of_nat n + 1) by lia.
  rewrite <- Z.shiftl_shiftl by lia. rewrite Z.shiftr_shiftl_l by lia.
  replace (1 - 1) with 0 by lia. rewrite Z.shiftl_0_r. apply IH.
Qed.

Lemma split_low c n : 0 <= n -> c = Z.lxor (Z.land c (Z.ones n)) (Z.shiftl (Z.shiftr c n) n).
Proof.
  intros Hn. apply Z.bits_inj'. intros i Hi.
  rewrite Z.lxor_spec, Z.land_spec, Z.shiftl_spec by done.
  destruct (decide (i < n)).
  - rewrite Z.ones_spec_low, (Z.testbit_neg_r _ (i - n)) by lia. by rewrite andb_true_r, xorb_false_r.
  - rewrite Z.ones_spec_high, Z.shiftr_spec by lia. rewrite andb_false_r, xorb_false_l.
    f_equal. lia.
Qed.

Lemma crc_table_lookup i : 0 <= i < 256 -> peek crc_table i = Ok (Nat.iter 8 crc_bit i).
Proof.
  intros Hi. unfold peek, crc_table. rewrite list_lookup_fmap.
  rewrite lookup_seqZ_lt by lia. cbn. by rewrite Z2Nat.id by lia.
Qed.

Lemma crc_byte c b :
  peek crc_table (Z.land (Z.lxor c b) 255) = Ok (Nat.iter 8 crc_bit (Z.land (Z.lxor c b) 255)).
Proof.
  apply crc_table_lookup. change 255 with (Z.ones 8). rewrite Z.land_ones by lia.
  apply Z.mod_pos_bound. lia.
Qed.

(** One turn of the loop is eight steps on the register mixed with the byte. *)
Lemma crc_turn c b :
  is_byte b ->
  Z.lxor (Nat.iter 8 crc_bit (Z.land (Z.lxor c b) 255)) (Z.shiftr c 8)
  = Nat.iter 8 crc_bit (Z.lxor c b).
Proof.
  intros Hb. rewrite (split_low (Z.lxor c b) 8) at 2 by lia.
  rewrite crc_iter_lxor. f_equal.
  pose proof (crc_iter_shift 8 (Z.shiftr (Z.lxor c b) 8)) as H.
  change (Z.of_nat 8) with 8 in H. rewrite H, Z.shiftr_lxor.
  assert (Z.shiftr b 8 = 0) as ->; [|by rewrite Z.lxor_0_r].
  rewrite Z.shiftr_div_pow2 by lia. apply Z.div_small. unfold is_byte in Hb. lia.
Qed.

(** Feeding the bits of a byte one by one is stepping the register mixed with
    the whole byte. *)
Lemma crc_feed_bits n c b :
  foldl crc_feed c ((fun i => Z.testbit b (Z.of_nat i)) <$> seq 0 n)
  = Z.lxor (Nat.iter n crc_bit (Z.lxor c b)) (Z.shiftr b (Z.of_nat n)).
Proof.
  induction n as [|n IH].
  - cbn. by rewrite Z.lxor_assoc, Z.shiftr_0_r, Z.lxor_nilpotent, Z.lxor_0_r.
  - rewrite seq_S, fmap_app, foldl_app, IH. cbn [fmap list_fmap foldl].
    rewrite Nat.iter_succ. set (X := Nat.iter n _ _). unfold crc_feed, crc_bit.
    rewrite Z.lxor_spec, Z.shiftr_spec by lia.
    rewrite Z.add_0_l, xorb_assoc, xorb_nilpotent, xorb_false_r.
    rewrite Z.shiftr_lxor, Z.shiftr_shiftr by lia. rewrite Z.lxor_assoc. replace (Z.of_nat (S n)) with (Z.of_nat n + 1) by lia. done.
Qed.

Lemma crc_feed_byte c b :
  is_byte b -> foldl crc_feed c (byte_bits b) = Nat.iter 8 crc_bit (Z.lxor c b).
Proof.
  intros Hb. unfold byte_bits. rewrite crc_feed_bits.
  assert (Z.shiftr b (Z.of_nat 8) = 0) as ->; [|by rewrite Z.lxor_0_r].
  rewrite Z.shiftr_div_pow2 by lia. apply Z.div_small. unfold is_byte in Hb. cbn. lia.
Qed.

Lemma crc_loop_spec bs rest c :
  Forall is_byte bs ->
  crc_loop (bs ++ rest) (length bs) c = Ok (foldl crc_feed c (mjoin (byte_bits <$> bs))).
Proof.
  intros Hbs. revert c. induction Hbs as [|b bs Hb _ IH]; intros c; [done|].
  cbn [app length crc_loop fmap list_fmap mjoin list_join].
  rewrite crc_byte. cbn [mbind res_bind]. rewrite crc_turn by done.
  by rewrite IH, foldl_app, crc_feed_byte.
Qed.

Lemma lxor_range a b n : 0 <= n -> 0 <= a < 2 ^ n -> 0 <= b < 2 ^ n -> 0 <= Z.lxor a b < 2 ^ n.
Proof.
  intros Hn Ha Hb. split; [by apply Z.lxor_nonneg; lia|].
  destruct (decide (Z.lxor a b = 0)) as [->|]; [lia|].
  assert (0 <= Z.lxor a b) by (apply Z.lxor_nonneg; lia).
  apply Z.log2_lt_pow2; [lia|]. pose proof (Z.log2_lxor a b ltac:(lia) ltac:(lia)) as Hl.
  assert (forall x, 0 <= x < 2 ^ n -> x <> 0 -> Z.log2 x < n) as Hlog
    by (intros; apply Z.log2_lt_pow2; lia).
  destruct (decide (a = 0)) as [->|]; destruct (decide (b = 0)) as [->|];
    rewrite ?Z.lxor_0_l, ?Z.lxor_0_r in *; try done; auto.
  pose proof (Hlog a Ha ltac:(done)). pose proof (Hlog b Hb ltac:(done)). lia.
Qed.

Lemma crc_feed_range c bits :
  0 <= c < 2 ^ 32 -> 0 <= foldl crc_feed c bits < 2 ^ 32.
Proof.
  revert c. induction bits as [|b bits IH]; intros c Hc; [done|]. cbn. apply IH.
  unfold crc_feed. apply lxor_range; [lia|case_match; unfold CRC_POLY; lia|].
  rewrite Z.shiftr_div_pow2 by lia. word_lia.
Qed.

Lemma lnot_xor c : 0 <= c < 2 ^ 32 -> u32 (Z.lnot c) = Z.lxor c 0xFFFFFFFF.
Proof.
  intros Hc. unfold u32. rewrite <- Z.land_ones by lia. change 0xFFFFFFFF with (Z.ones 32).
  apply Z.bits_inj'. intros i Hi. rewrite Z.land_spec, Z.lnot_spec, Z.lxor_spec by done.
  destruct (decide (i < 32)).
  - rewrite Z.ones_spec_low by lia. by destruct (Z.testbit c i).
  - rewrite Z.ones_spec_high, (testbit_high c 32) by lia. done.
Qed.

(** ** One's complement sums *)

(** The representative in 1..65535 of a positive sum, 0 for 0. *)
Definition norm (z : Z) : Z := if z =? 0 then 0 else (z - 1) mod 65535 + 1.

Lemma norm_range z : 0 <= z -> 0 <= norm z <= 65535.
Proof. intros. unfold norm. case_match; zbool; [lia|]. Z.div_mod_to_equations. lia. Qed.

Lemma norm_small z : 0 <= z <= 65535 -> norm z = z.
Proof. intros. unfold norm. case_match; zbool; [lia|]. rewrite Z.mod_small; lia. Qed.

(** [norm z] is the only such representative. *)
Lemma norm_unique z r k :
  0 <= z -> 0 <= r <= 65535 -> z = r + 65535 * k -> (r = 0 <-> z = 0) -> norm z = r.
Proof.
  intros Hz Hr Hk H0. unfold norm. case_match; zbool; [nia|].
  assert (r <> 0) by lia. rewrite Hk.
  replace (r + 65535 * k - 1) with (r - 1 + k * 65535) by lia.
  rewrite Z.mod_add by lia. rewrite Z.mod_small; lia.
Qed.

Lemma norm_eq z : 0 <= z -> exists k, z = norm z + 65535 * k /\ (norm z = 0 <-> z = 0).
Proof.
  intros Hz. unfold norm. case_match; zbool; [exists 0; lia|].
  exists ((z - 1) / 65535). Z.div_mod_to_equations. lia.
Qed.

Lemma norm_add a b : 0 <= a -> 0 <= b -> norm (norm a + b) = norm (a + b).
Proof.
  intros Ha Hb. pose proof (norm_range a Ha).
  destruct (norm_eq a Ha) as (k&Hk&H0). destruct (norm_eq (a + b) ltac:(lia)) as (j&Hj&H1).
  pose proof (norm_range (a + b) ltac:(lia)).
  apply norm_unique with (j - k); lia.
Qed.

Lemma ones_add_norm a b : 0 <= a <= 65535 -> 0 <= b <= 65535 -> ones_add a b = norm (a + b).
Proof.
  intros Ha Hb. unfold ones_add. symmetry. case_match; zbool.
  - apply norm_unique with 1; lia.
  - apply norm_small. lia.
Qed.

Definition word (w : Z) : Prop := 0 <= w <= 65535.

Lemma words_range l : Forall is_byte l -> Forall word (words l).
Proof.
  intros Hl. induction l as [l IH] using (induction_ltof1 _ length). unfold ltof in IH.
  destruct l as [|b0 [|b1 l]]; cbn; [done|..]; rewrite !Forall_cons in Hl.
  - repeat constructor; unfold is_byte in *; lia.
  - destruct Hl as (?&?&?). constructor; [unfold word, is_byte in *; lia|].
    apply IH; [cbn; lia|done].
Qed.

Lemma sum_range ws c : 0 <= c -> Forall word ws -> c <= foldl Z.add c ws.
Proof.
  intros Hc Hws. revert c Hc. induction Hws as [|w ws Hw _ IH]; intros c Hc; cbn; [lia|].
  unfold word in Hw. etrans; [|apply IH]; lia.
Qed.

Lemma ones_foldl ws c :
  0 <= c -> Forall word ws -> foldl ones_add (norm c) ws = norm (foldl Z.add c ws).
Proof.
  intros Hc Hws. revert c Hc. induction Hws as [|w ws Hw _ IH]; intros c Hc; cbn; [done|].
  unfold word in Hw. pose proof (norm_range c Hc).
  rewrite ones_add_norm, norm_add by lia. apply IH. lia.
Qed.

Lemma ones_sum_norm ws : Forall word ws -> ones_sum ws = norm (foldl Z.add 0 ws).
Proof. intros. rewrite <- ones_foldl by (done || lia). done. Qed.

Lemma sum_words_spec l rest c :
  Forall is_byte l -> 0 <= c -> foldl Z.add c (words l) < 2 ^ 32 ->
  sum_words (l ++ rest) (Z.of_nat (length l)) c = Ok (foldl Z.add c (words l)).
Proof.
  intros Hl. revert c. induction l as [l IH] using (induction_ltof1 _ length).
  unfold ltof in IH. intros c Hc Hs. destruct l as [|b0 [|b1 l]].
  - destruct rest; done.
  - apply Forall_cons in Hl as [Hb _]. cbn in *.
    rewrite Z.shiftl_mul_pow2 by lia. rewrite u32_small; [done|unfold is_byte in Hb; lia].
  - apply Forall_cons in Hl as [Hb0 Hl]. apply Forall_cons in Hl as [Hb1 Hl].
    pose proof (words_range l Hl) as Hw. cbn [words foldl] in Hs.
    assert (0 <= b0 * 256 + b1) by (unfold is_byte in *; lia).
    pose proof (sum_range (words l) (c + (b0 * 256 + b1)) ltac:(lia) Hw).
    cbn [app length sum_words words foldl].
    rewrite (proj2 (Z.leb_le 2 _)) by lia. rewrite word_bytes, u32_small by (done || lia).
    replace (Z.of_nat (S (S (length l))) - 2) with (Z.of_nat (length l)) by lia.
    apply IH; [cbn; lia|done|lia|done].
Qed.

Lemma fold_step c : 0 <= c < 2 ^ 32 -> Z.land c 65535 + Z.shiftr c 16 = c mod 65536 + c / 65536.
Proof.
  intros. change 65535 with (Z.ones 16). rewrite Z.land_ones, Z.shiftr_div_pow2 by lia. done.
Qed.

Lemma fold_carries_spec c : 0 <= c < 2 ^ 32 -> fold_carries 3 c = Ok (norm c).
Proof.
  assert (Hone : forall n c, 0 <= c < 2 ^ 32 -> 65535 < c ->
    fold_carries (S n) c = fold_carries n (c mod 65536 + c / 65536) /\
    norm (c mod 65536 + c / 65536) = norm c).
  { intros n x Hx Hgt. cbn [fold_carries]. rewrite (proj2 (Z.ltb_lt _ _)) by done.
    rewrite fold_step, u32_small by (done || word_lia). split; [done|].
    destruct (norm_eq x ltac:(lia)) as (k&Hk&H0). pose proof (norm_range x ltac:(lia)).
    assert (0 < x mod 65536 + x / 65536) by word_lia.
    apply norm_unique with (k - x / 65536); [lia|done| |lia].
    pose proof (Z.div_mod x 65536 ltac:(lia)). lia. }
  assert (Hdone : forall n c, 0 <= c <= 65535 -> fold_carries n c = Ok (norm c)).
  { intros n x Hx. destruct n; cbn; rewrite (proj2 (Z.ltb_ge _ _)), norm_small by lia; done. }
  intros Hc. destruct (decide (c <= 65535)); [apply Hdone; lia|].
  destruct (Hone 2%nat c) as [-> <-]; [lia..|].
  assert (H1 : 0 <= c mod 65536 + c / 65536 <= 2 * 65535 ) by word_lia. clear n Hc.
  generalize dependent (c mod 65536 + c / 65536). intros d Hd.
  destruct (decide (d <= 65535)); [apply Hdone; lia|].
  destruct (Hone 1%nat d) as [-> <-]; [lia..|]. apply Hdone. word_lia.
Qed.

Lemma u16_lnot c : 0 <= c <= 65535 -> u16 (Z.lnot c) = 65535 - c.
Proof. intros. unfold Z.lnot. word_lia. Qed.

Lemma ip_checksum_norm l rest :
  Forall is_byte l -> foldl Z.add 0 (words l) < 2 ^ 32 ->
  ip_checksum (l ++ rest) (Z.of_nat (length l))
  = Ok (65535 - norm (foldl Z.add 0 (words l))).
Proof.
  intros Hl Hs. unfold ip_checksum. rewrite sum_words_spec by done. cbn [mbind res_bind].
  pose proof (sum_range (words l) 0 ltac:(lia) (words_range l Hl)).
  rewrite fold_carries_spec by lia. cbn [mbind res_bind].
  by rewrite u16_lnot by (apply norm_range; lia).
Qed.

(** Up to 65537 words fit a 32-bit sum. *)
Lemma sum_bound l :
  Forall is_byte l -> foldl Z.add 0 (words l) <= 65535 * ((Z.of_nat (length l) + 1) / 2).
Proof.
  intros Hl. assert (forall c, foldl Z.add c (words l) <= c + 65535 * ((Z.of_nat (length l) + 1) / 2)) as H.
  { induction l as [l IH] using (induction_ltof1 _ length). unfold ltof in IH. intros c.
    destruct l as [|b0 [|b1 l]]; cbn [words foldl].
    - cbn [length]. change ((Z.of_nat 0 + 1) / 2) with 0. lia.
    - apply Forall_cons in Hl as [Hb _]. unfold is_byte in Hb. cbn [length].
      change ((Z.of_nat 1 + 1) / 2) with 1. lia.
    - apply Forall_cons in Hl as [Hb0 Hl]. apply Forall_cons in Hl as [Hb1 Hl].
      etrans; [apply IH; [cbn; lia|done]|]. cbn [length].
      replace (Z.of_nat (S (S (length l))) + 1) with (Z.of_nat (length l) + 1 + 1 * 2) by lia.
      rewrite Z.div_add by lia. unfold is_byte in *. lia. }
  specialize (H 0). lia.
Qed.

Lemma checksum_fits l :
  Forall is_byte l -> Z.of_nat (length l) < 2 ^ 17 -> foldl Z.add 0 (words l) < 2 ^ 32.
Proof.
  intros Hl Hn. pose proof (sum_bound l Hl).
  assert ((Z.of_nat (length l) + 1) / 2 <= 2 ^ 16) by (apply Z.div_le_upper_bound; lia). lia.
Qed.

Lemma words_app l k : Nat.Even (length l) -> words (l ++ k) = words l ++ words k.
Proof.
  induction l as [l IH] using (induction_ltof1 _ length). unfold ltof in IH. intros He.
  destruct l as [|b0 [|b1 l]]; [done|destruct He; cbn in *; lia|].
  cbn [app words]. f_equal. apply IH; [cbn; lia|]. destruct He as [n Hn]. exists (n - 1)%nat.
  cbn in Hn. lia.
Qed.

Lemma foldl_add_acc ws c : foldl Z.add c ws = c + foldl Z.add 0 ws.
Proof.
  revert c. induction ws as [|w ws IH]; intros c; cbn; [lia|].
  rewrite IH, (IH (0 + w)). lia.
Qed.

Lemma u8_parts n : 0 <= n <= 65535 -> u8 (n / 2 ^ 8) * 256 + u8 n = n.
Proof.
  intros Hn. unfold u8. change (2 ^ 8) with 256.
  rewrite (Z.mod_small (n / 256)); Z.div_mod_to_equations; lia.
Qed.

(** The sum of a packet is that of the packet with an empty field, plus the
    field. *)
Lemma sum_field pre n post :
  Nat.Even (length pre) -> 0 <= n <= 65535 ->
  foldl Z.add 0 (words (pre ++ be16 n ++ post)) =
  foldl Z.add 0 (words (pre ++ be16 0 ++ post)) + n.
Proof.
  intros He Hn. rewrite !(words_app pre) by done. rewrite !foldl_app.
  cbn [be16 app words foldl]. set (a := foldl Z.add 0 (words pre)).
  rewrite Z.shiftr_0_l, Z.shiftr_div_pow2 by lia. change (u8 0) with 0.
  rewrite (foldl_add_acc _ (a + 0)), (foldl_add_acc _ (a + (_ + u8 n))).
  rewrite u8_parts by done. lia.
Qed.

Lemma ip_checksumphdr_norm l rest ip1 ip2 proto :
  Forall is_byte l -> Z.of_nat (length l) < 2 ^ 17 ->
  0 <= ip1 < 2 ^ 32 -> 0 <= ip2 < 2 ^ 32 -> 0 <= proto < 2 ^ 16 ->
  ip_checksumphdr (l ++ rest) (Z.of_nat (length l)) ip1 ip2 proto
  = Ok (65535 - norm (foldl Z.add 0 (words l) +
      (ip1 mod 65536 + ip1 / 65536 + (ip2 mod 65536 + ip2 / 65536) + (proto + Z.of_nat (length l))))).
Proof.
  intros Hl Hn H1 H2 Hp. pose proof (checksum_fits l Hl Hn) as Hs.
  pose proof (sum_range (words l) 0 ltac:(lia) (words_range l Hl)) as Hs0.
  unfold ip_checksumphdr. rewrite ip_checksum_norm by done. cbn [mbind res_bind].
  set (s := foldl Z.add 0 (words l)) in *. pose proof (norm_range s ltac:(lia)).
  rewrite u16_lnot by lia. replace (65535 - (65535 - norm s)) with (norm s) by lia.
  rewrite !fold_step by lia.
  assert (0 <= ip1 mod 65536 + ip1 / 65536 <= 2 ^ 17) by word_lia.
  assert (0 <= ip2 mod 65536 + ip2 / 65536 <= 2 ^ 17) by word_lia.
  rewrite (u64_small (proto + _)) by (unfold is_size; lia).
  set (h1 := ip1 mod 65536 + _) in *. set (h2 := ip2 mod 65536 + _) in *.
  rewrite (u32_small (norm s + h1)), (u32_small (norm s + h1 + h2)),
    (u32_small (norm s + h1 + h2 + _)) by lia.
  rewrite fold_carries_spec by lia. cbn [mbind res_bind].
  rewrite u16_lnot by (apply norm_range; lia).
  rewrite <- !Z.add_assoc. rewrite norm_add by lia. done.
Qed.

(** Filling the complement in makes the sum all ones. *)
Lemma norm_complement s : 0 <= s -> norm (s + (65535 - norm s)) = 65535.
Proof.
  intros Hs. destruct (norm_eq s Hs) as (k&Hk&H0). pose proof (norm_range s Hs).
  apply norm_unique with k; lia.
Qed.

(** ** Properties *)

(** The Internet checksum is that of RFC 1071.  On any buffer shorter than
    128 KiB, [ip_checksum], which adds the words in 32 bits and folds the
    carries in at the end, answers the complement of their one's complement
    sum, an odd last byte counting as the high half of a word. *)
Theorem ip_checksum_rfc1071 l rest :
  Forall is_byte l -> Z.of_nat (length l) < 2 ^ 17 ->
  ip_checksum (l ++ rest) (Z.of_nat (length l)) = Ok (65535 - ones_sum (words l)).
Proof.
  intros Hl Hn. rewrite ip_checksum_norm by auto using checksum_fits.
  by rewrite ones_sum_norm by by apply words_range.
Qed.

Lemma ip_checksum_rfc1071_witness :
  ip_checksum [0x45; 0x00; 0xff; 0xfe; 0x12] 5 = Ok 0xa900.
Proof.
  refine (eq_trans (ip_checksum_rfc1071 [0x45; 0x00; 0xff; 0xfe; 0x12] [] _ _) _);
    [decide_now|done|reflexivity].
Defined.

(** A packet that carries its checksum verifies.  When the checksum of a
    packet whose 16-bit checksum field is 0 is stored in the field, the
    checksum of the result is 0, which is how a receiver validates it; the same
    holds for the checksum over a pseudo header that TCP and UDP use. *)
Theorem checksum_verifies pre post ip1 ip2 proto :
  let mk c := pre ++ be16 c ++ post in
  let n := Z.of_nat (length (mk 0)) in
  Forall is_byte pre -> Forall is_byte post -> Nat.Even (length pre) -> n < 2 ^ 17 ->
  0 <= ip1 < 2 ^ 32 -> 0 <= ip2 < 2 ^ 32 -> 0 <= proto < 2 ^ 16 ->
  (exists c, ip_checksum (mk 0) n = Ok c /\ 0 <= c < 2 ^ 16 /\ ip_checksum (mk c) n = Ok 0) /\
  (exists c, ip_checksumphdr (mk 0) n ip1 ip2 proto = Ok c /\ 0 <= c < 2 ^ 16 /\
     ip_checksumphdr (mk c) n ip1 ip2 proto = Ok 0).
Proof.
  intros mk n Hpre Hpost He Hn H1 H2 Hp.
  assert (Hb : forall c, Forall is_byte (mk c))
    by (intros; unfold mk; rewrite !Forall_app; auto using be16_bytes).
  assert (Hlen : forall c, n = Z.of_nat (length (mk c)))
    by (intros; unfold n, mk; by rewrite !length_app).
  assert (Hs : forall c, 0 <= c <= 65535 ->
    foldl Z.add 0 (words (mk c)) = foldl Z.add 0 (words (mk 0)) + c)
    by (intros; by apply sum_field).
  pose proof (sum_range (words (mk 0)) 0 ltac:(lia) (words_range _ (Hb 0))).
  set (s := foldl Z.add 0 (words (mk 0))) in *.
  assert (Hc : forall c, ip_checksum (mk c) n = Ok (65535 - norm (foldl Z.add 0 (words (mk c))))).
  { intros c. pose proof (ip_checksum_norm (mk c) [] (Hb c)) as E0.
    rewrite app_nil_r, <- Hlen in E0. apply E0, checksum_fits; [done|]. by rewrite <- Hlen. }
  set (ph := ip1 mod 65536 + ip1 / 65536 + (ip2 mod 65536 + ip2 / 65536) + (proto + n)).
  assert (Hh : forall c, ip_checksumphdr (mk c) n ip1 ip2 proto
    = Ok (65535 - norm (foldl Z.add 0 (words (mk c)) + ph))).
  { intros c. pose proof (ip_checksumphdr_norm (mk c) [] ip1 ip2 proto (Hb c)) as E0.
    rewrite app_nil_r, <- Hlen in E0. by apply E0. }
  assert (0 <= ph) by (unfold ph, n; word_lia).
  split.
  - exists (65535 - norm s). pose proof (norm_range s ltac:(lia)). rewrite Hc.
    split_and!; [done|lia..|]. rewrite Hc, Hs by lia. fold s. rewrite norm_complement by lia. done.
  - exists (65535 - norm (s + ph)). pose proof (norm_range (s + ph) ltac:(lia)). rewrite Hh.
    split_and!; [done|lia..|]. rewrite Hh, Hs by lia. fold s.
    replace (s + (65535 - norm (s + ph)) + ph) with (s + ph + (65535 - norm (s + ph))) by lia.
    by rewrite norm_complement by lia.
Qed.

Lemma checksum_verifies_witness :
  exists c, ip_checksum ([0x45; 0; 0; 20] ++ be16 c ++ [1; 2]) 8 = Ok 0.
Proof.
  destruct (checksum_verifies [0x45; 0; 0; 20] [1; 2] 0 0 6) as [(c & _ & _ & Hc) _];
    [decide_now..|by exists 2%nat|reflexivity|lia|lia|lia|].
  exists c. exact Hc.
Defined.

(** The table-driven CRC is the bitwise one.  [crc32] of a buffer is the
    remainder of its bits, least significant bit of each byte first, computed
    one bit at a time. *)
Theorem crc32_bitwise bs rest :
  Forall is_byte bs ->
  crc32 (bs ++ rest) (length bs) = Ok (crc_spec (mjoin (byte_bits <$> bs))).
Proof.
  intros Hbs. unfold crc32, crc_spec. rewrite crc_loop_spec by done. cbn [mbind res_bind].
  by rewrite lnot_xor by by apply crc_feed_range.
Qed.

Lemma crc32_bitwise_witness :
  (* the check value: the CRC of "123456789" *)
  crc32 [49; 50; 51; 52; 53; 54; 55; 56; 57] 9 = Ok 0xcbf43926.
Proof.
  refine (eq_trans (crc32_bitwise [49; 50; 51; 52; 53; 54; 55; 56; 57] [] _) _);
    [decide_now|vm_compute; reflexivity].
Defined.

(** An address in dotted notation. *)
Definition dotted (a b c d : Z) : list Z :=
  numeral 10 a ++ 46 :: numeral 10 b ++ 46 :: numeral 10 c ++ 46 :: numeral 10 d ++ [0].

Lemma ip_append ip n :
  0 <= ip -> 0 <= n -> ip * 256 + n < 2 ^ 32 -> u32 (u32 (Z.shiftl ip 8) + n) = ip * 256 + n.
Proof.
  intros. rewrite Z.shiftl_mul_pow2 by lia. change (2 ^ 8) with 256.
  rewrite (u32_small (ip * 256)) by lia. apply u32_small. lia.
Qed.

(** [ip_parse] reads dotted addresses.  The decimal notation of four bytes
    is read as the address they form, most significant byte first. *)
Theorem ip_parse_dotted a b c d :
  is_byte a -> is_byte b -> is_byte c -> is_byte d ->
  ip_parse (Some (dotted a b c d)) = Ok (Some (((a * 256 + b) * 256 + c) * 256 + d)).
Proof.
  intros Ha Hb Hc Hd. unfold ip_parse, dotted. unfold is_byte in *.
  assert (HL : LONG_MAX = 9223372036854775807) by done.
  rewrite strtol_decimal by (lia || auto). cbn [mbind res_bind]. rewrite u32_small by lia.
  cbn [ip_parts head_char mbind res_bind tail].
  change (46 =? 0) with false. change (46 =? 46) with true. cbn [negb].
  rewrite strtol_decimal by (lia || auto). cbn [mbind res_bind head_char tail].
  rewrite ip_append by lia.
  change (46 =? 0) with false. change (46 =? 46) with true. cbn [negb].
  rewrite strtol_decimal by (lia || auto). cbn [mbind res_bind head_char tail].
  rewrite ip_append by lia.
  change (46 =? 0) with false. change (46 =? 46) with true. cbn [negb].
  rewrite strtol_decimal by (lia || auto). cbn [mbind res_bind head_char tail].
  rewrite ip_append by lia.
  change (1 <? 1 + 1 + 1 + 1) with true. cbv iota. change (8 * (4 - (1 + 1 + 1 + 1))) with 0.
  rewrite Z.shiftl_0_r. set (n := _ + d).
  assert (Hn : 0 <= n < 2 ^ 32) by (unfold n; lia).
  change 0xFFFFFF00 with (Z.shiftl (Z.ones 24) 8). change 255 with (Z.ones 8).
  do 2 f_equal. transitivity n; [|unfold n; lia].
  unfold u32. rewrite <- Z.land_ones by lia.
  apply Z.bits_inj'. intros i Hi. rewrite Z.lor_spec, !Z.land_spec, Z.shiftl_spec by done.
  destruct (decide (i < 8)).
  - rewrite (Z.testbit_neg_r _ (i - 8)), (Z.ones_spec_low 8) by lia. by destruct (Z.testbit n i).
  - rewrite (Z.ones_spec_high 8), andb_false_r, orb_false_r by lia.
    destruct (decide (i < 32)).
    + rewrite !Z.ones_spec_low by lia. by rewrite !andb_true_r.
    + rewrite (testbit_high n 32) by lia. done.
Qed.

Lemma ip_parse_dotted_witness :
  (* "10.0.2.255" *)
  ip_parse (Some [49; 48; 46; 48; 46; 50; 46; 50; 53; 53; 0]) = Ok (Some 0x0a0002ff).
Proof. apply (ip_parse_dotted 10 0 2 255); unfold is_byte; lia. Defined.
