(* ===== verification/Malloc.v ===== *)
(** * Malloc

    The page allocator and [kmalloc] of the kernel ([src/src/kernel/malloc.c]).
    The bitmap is kept as the bytes it is; [page_used] reads it as one bit per
    page.  The headers of [kmalloc] are fields in memory ([Mem]), so that a
    write past an allocation hits what is there. *)

From S2P Require Import Prelude Monad Mem.

Definition PAGE_SIZE : Z := 4096.
Definition PAGE_MASK : Z := PAGE_SIZE - 1.

(** The allocator's globals.  [pbitmap_addr] is the linker's [pbitmap] symbol
    (also the first page managed); [pbitmap_len] is the length of [pbm].
    [malloc_last] is 0 for [NULL].  [heap] is the memory of the headers. *)
Record alloc := mkAlloc {
  pbitmap_addr : Z;
  pbm : list Z;
  pbitmap_firstfree : Z;
  malloc_last : Z;
  heap : mem;
}.

Definition pbitmap_len (a : alloc) : Z := Z.of_nat (length (pbm a)).

Definition set_pbm l a := mkAlloc (pbitmap_addr a) l (pbitmap_firstfree a) (malloc_last a) (heap a).
Definition set_firstfree z a := mkAlloc (pbitmap_addr a) (pbm a) z (malloc_last a) (heap a).
Definition set_malloc_last z a := mkAlloc (pbitmap_addr a) (pbm a) (pbitmap_firstfree a) z (heap a).
Definition set_heap h a := mkAlloc (pbitmap_addr a) (pbm a) (pbitmap_firstfree a) (malloc_last a) h.

Abbreviation M := (ST alloc Empty_set).

(** ** The bitmap *)

Definition bitmap_get (i : Z) : M bool :=
  assert (0 <=? i);;
  a ← get_;
  let b := i / 8 in
  let m := u8 (Z.shiftl 1 (Z.land i 7)) in
  assert (b <? pbitmap_len a);;
  x ← deref (pbm a !! Z.to_nat b);
  mret (negb (Z.land x m =? 0)).

Definition bitmap_set (i : Z) (v : bool) : M bool :=
  assert (0 <=? i);;
  a ← get_;
  let b := i / 8 in
  let m := u8 (Z.shiftl 1 (Z.land i 7)) in
  assert (b <? pbitmap_len a);;
  x ← deref (pbm a !! Z.to_nat b);
  let prev := negb (Z.land x m =? 0) in
  let x := if v then Z.lor x m else Z.land x (u8 (Z.lnot m)) in
  put_ (set_pbm (<[Z.to_nat b := x]> (pbm a)) a);;
  mret prev.

(** C's [/] on [long]s truncates. *)
Definition toindex (a : alloc) (p : Z) : Z := Z.quot (p - pbitmap_addr a) PAGE_SIZE.

(** [for (j = 0; j < n; j++) bitmap_set(i + j, true)] *)
Fixpoint mark_run (i : Z) (n : nat) : M () :=
  match n with
  | O => mret ()
  | S k => _ ← bitmap_set i true; mark_run (i + 1) k
  end.

Fixpoint reserve_loop (fuel : nat) (first i len : Z) : M () :=
  if i * PAGE_SIZE <? len then
    match fuel with
    | O => fail OutOfFuel
    | S fuel =>
        a ← get_;
        if pbitmap_len a <=? u64 (first + i) / 8 then mret ()
        else _ ← bitmap_set (u64 (first + i)) true; reserve_loop fuel first (i + 1) len
    end
  else mret ().

(** [mem_reserve]: the range is aligned to the previous page.  A range below the
    bitmap has a huge unsigned index and is left alone. *)
Definition mem_reserve (addr len : Z) : M () :=
  let off := Z.land addr PAGE_MASK in
  a ← get_;
  reserve_loop (8 * length (pbm a) + 1) (u64 (toindex a (addr - off))) 0 (len + off).

(** [mem_init]: every page free, then the bitmap's own pages reserved. *)
Definition mem_init (memtop : Z) : M () :=
  a ← get_;
  let len := Z.quot (toindex a memtop) 8 in
  put_ (set_pbm (replicate (Z.to_nat len) 0) a);;
  mem_reserve (pbitmap_addr a) len.

(** ** Pages *)

(** The search loop of [page_alloc], from page [i], [n] pages before the end of
    the bitmap.  The answer is the first page of the hole and its length. *)
Fixpoint page_search (n : nat) (i streak pages : Z) : M (option (Z * Z)) :=
  match n with
  | O => mret None
  | S n =>
      used ← bitmap_get i;
      if (used : bool) then page_search n (i + 1) 0 pages
      else
        let streak := streak + 1 in
        if pages <=? streak then mret (Some (i + 1 - streak, streak))
        else page_search n (i + 1) streak pages
  end.

(** Running out of memory ends in [panic_unimplemented]. *)
Definition page_alloc (pages : Z) : M Z :=
  a ← get_;
  r ← page_search (Z.to_nat (pbitmap_len a * 8 - pbitmap_firstfree a))
                  (pbitmap_firstfree a) 0 pages;
  match r with
  | None => panic
  | Some (i, streak) =>
      mark_run i (Z.to_nat streak);;
      modify (set_firstfree (i + streak - 1));;
      mret (pbitmap_addr a + i * PAGE_SIZE)
  end.

Definition page_zalloc (pages : Z) : M Z :=
  p ← page_alloc pages;
  a ← get_;
  put_ (set_heap (memset (heap a) p 0 (Z.to_nat (pages * PAGE_SIZE))) a);;
  mret p.

Fixpoint free_run (i : Z) (n : nat) : M () :=
  match n with
  | O => mret ()
  | S k =>
      prev ← bitmap_set i false;
      if negb prev then panic else free_run (i + 1) k
  end.

Definition page_free (addr pages : Z) : M () :=
  a ← get_;
  assert (pbitmap_addr a <=? addr);;
  let first := toindex a addr in
  free_run first (Z.to_nat pages);;
  a ← get_;
  when (first <? pbitmap_firstfree a) (put_ (set_firstfree first a)).

(** ** [kmalloc] *)

(** [struct malloc_hdr]: magic and page_amt (32 bits), next and prev, and the
    four words of the stack trace. *)
Definition MALLOC_MAGIC : Z := 0xA770C666.
Definition HDR_SIZE : Z := 56.
Definition off_magic : Z := 0.
Definition off_page_amt : Z := 4.
Definition off_next : Z := 8.
Definition off_prev : Z := 16.
Definition off_stacktrace : Z := 24.

Fixpoint le_value (l : list Z) : Z :=
  match l with [] => 0 | b :: l => b + 256 * le_value l end.

Definition load (n : nat) (addr : Z) : M Z :=
  a ← get_; mret (le_value (bytes_at (heap a) addr n)).
Definition store (n : nat) (addr v : Z) : M () :=
  modify (fun a => set_heap (write_bytes (heap a) addr (le_bytes n v)) a).

Definition kmalloc_sanity (addr : Z) : M () :=
  assert (negb (addr =? 0));;
  let hdr := addr - HDR_SIZE in
  magic ← load 4 (hdr + off_magic);
  assert (magic =? MALLOC_MAGIC);;
  next ← load 8 (hdr + off_next);
  when (negb (next =? 0)) (p ← load 8 (next + off_prev); assert (p =? hdr));;
  prev ← load 8 (hdr + off_prev);
  when (negb (prev =? 0)) (n ← load 8 (prev + off_next); assert (n =? hdr)).

Section kmalloc.
(** What [debug_caller] reads off the kernel stack. *)
Variable debug_caller : Z -> Z.

Definition kmalloc (len : Z) : M Z :=
  let len := u64 (len + HDR_SIZE) in
  let pages := u32 (len / PAGE_SIZE + 1) in
  hdr ← page_alloc pages;
  store 4 (hdr + off_magic) MALLOC_MAGIC;;
  store 4 (hdr + off_page_amt) pages;;
  store 8 (hdr + off_next) 0;;
  last ← gets malloc_last;
  store 8 (hdr + off_prev) last;;
  when (negb (last =? 0))
    (n ← load 8 (last + off_next);
     assert (n =? 0);;
     store 8 (last + off_next) hdr);;
  forM [0; 1; 2; 3] (fun i => store 8 (hdr + off_stacktrace + 8 * i) (debug_caller i));;
  modify (set_malloc_last hdr);;
  let addr := hdr + HDR_SIZE in
  (* the debug fill: [len] already counts the header *)
  modify (fun a => set_heap (memset (heap a) addr 0xCC (Z.to_nat len)) a);;
  kmalloc_sanity addr;;
  mret addr.

Definition kfree (ptr : Z) : M () :=
  if ptr =? 0 then mret ()
  else
    let hdr := ptr - HDR_SIZE in
    kmalloc_sanity ptr;;
    store 4 (hdr + off_magic) (u32 (Z.lnot MALLOC_MAGIC));;
    next ← load 8 (hdr + off_next);
    prev ← load 8 (hdr + off_prev);
    when (negb (next =? 0)) (store 8 (next + off_prev) prev);;
    when (negb (prev =? 0)) (store 8 (prev + off_next) next);;
    last ← gets malloc_last;
    when (last =? hdr) (modify (set_malloc_last prev));;
    page_amt ← load 4 (hdr + off_page_amt);
    modify (fun a => set_heap (memset (heap a) hdr 0xC0 (Z.to_nat (page_amt * PAGE_SIZE))) a);;
    page_free hdr page_amt.
End kmalloc.

Definition kzalloc (debug_caller : Z -> Z) (len : Z) : M Z :=
  b ← kmalloc debug_caller len;
  modify (fun a => set_heap (memset (heap a) b 0 (Z.to_nat len)) a);;
  mret b.

(** ** The bitmap as a set of pages *)

Definition page_used (a : alloc) (i : Z) : bool :=
  match pbm a !! Z.to_nat (i / 8) with
  | Some x => Z.testbit x (i mod 8)
  | None => false
  end.

Definition page_count (a : alloc) : Z := pbitmap_len a * 8.

(** [a'] differs from [a] in the use of the pages [lo <= i < hi] only, which
    are all in state [v]. *)
Definition run_set (a a' : alloc) (lo hi : Z) (v : bool) : Prop :=
  pbitmap_addr a' = pbitmap_addr a /\ malloc_last a' = malloc_last a /\
  heap a' = heap a /\ pbitmap_len a' = pbitmap_len a /\
  forall j, 0 <= j ->
    page_used a' j = if decide (lo <= j < hi) then v else page_used a j.

Lemma land_7 i : Z.land i 7 = i mod 8.
Proof. change 7 with (Z.ones 3). by rewrite Z.land_ones by lia. Qed.

Lemma bit_mask i : u8 (Z.shiftl 1 (Z.land i 7)) = 2 ^ (i mod 8).
Proof.
  rewrite land_7, Z.shiftl_mul_pow2, Z.mul_1_l by (apply Z.mod_pos_bound; lia).
  unfold u8. apply Z.mod_small.
  split; [apply Z.pow_nonneg; lia|apply Z.pow_lt_mono_r; Z.div_mod_to_equations; lia].
Qed.

Lemma testbit_mask x k : 0 <= k -> negb (Z.land x (2 ^ k) =? 0) = Z.testbit x k.
Proof.
  intros Hk. destruct (Z.testbit x k) eqn:E.
  - apply negb_true_iff, Z.eqb_neq. intros H.
    assert (H1 : Z.testbit (Z.land x (2 ^ k)) k = false) by (rewrite H; apply Z.bits_0).
    rewrite Z.land_spec, E, Z.pow2_bits_true in H1 by lia. done.
  - apply negb_false_iff, Z.eqb_eq. apply Z.bits_inj'. intros j Hj.
    rewrite Z.land_spec, Z.bits_0, Z.pow2_bits_eqb by lia.
    destruct (k =? j) eqn:Ej; zbool; [subst; by rewrite E|by rewrite andb_false_r].
Qed.

(** Setting or clearing one bit of a byte. *)
Definition set_bit (x k : Z) (v : bool) : Z :=
  if v then Z.lor x (2 ^ k) else Z.land x (u8 (Z.lnot (2 ^ k))).

Lemma testbit_set_bit x k j v :
  0 <= k < 8 -> 0 <= j < 8 ->
  Z.testbit (set_bit x k v) j = if decide (k = j) then v else Z.testbit x j.
Proof.
  intros Hk Hj. unfold set_bit. destruct v.
  - rewrite Z.lor_spec, Z.pow2_bits_eqb by lia.
    destruct (k =? j) eqn:E; zbool; case_decide; try done;
      by rewrite ?orb_true_r, ?orb_false_r.
  - unfold u8. rewrite Z.land_spec, Z.mod_pow2_bits_low, Z.lnot_spec, Z.pow2_bits_eqb by lia.
    destruct (k =? j) eqn:E; zbool; case_decide; try done;
      by rewrite ?andb_true_r, ?andb_false_r.
Qed.

Lemma page_byte a i :
  0 <= i < page_count a ->
  exists x, pbm a !! Z.to_nat (i / 8) = Some x /\ page_used a i = Z.testbit x (i mod 8).
Proof.
  intros Hi. unfold page_used, page_count, pbitmap_len in *.
  destruct (lookup_lt_is_Some_2 (pbm a) (Z.to_nat (i / 8))) as [x Hx];
    [Z.div_mod_to_equations; lia|].
  exists x. by rewrite Hx.
Qed.

Lemma page_in_bitmap a i :
  0 <= i < page_count a -> (0 <=? i) = true /\ (i / 8 <? pbitmap_len a) = true.
Proof.
  unfold page_count. intros Hi. split; [apply Z.leb_le; lia|].
  apply Z.ltb_lt. Z.div_mod_to_equations; lia.
Qed.

Lemma bitmap_get_spec a i :
  0 <= i < page_count a -> bitmap_get i a = Val (page_used a i) a.
Proof.
  intros Hi. destruct (page_byte a i Hi) as (x&Hx&Hu).
  destruct (page_in_bitmap a i Hi) as [H1 H2].
  unfold bitmap_get, mbind, st_bind, get_. rewrite H1; cbn. rewrite H2; cbn. rewrite Hx; cbn.
  rewrite bit_mask, testbit_mask by (apply Z.mod_pos_bound; lia).
  by rewrite <- Hu.
Qed.

Lemma bitmap_set_spec a i v :
  0 <= i < page_count a ->
  exists a', bitmap_set i v a = Val (page_used a i) a' /\ run_set a a' i (i + 1) v /\
    pbitmap_firstfree a' = pbitmap_firstfree a.
Proof.
  intros Hi. destruct (page_byte a i Hi) as (x&Hx&Hu).
  destruct (page_in_bitmap a i Hi) as [H1 H2].
  unfold bitmap_set, mbind, st_bind, get_. rewrite H1; cbn. rewrite H2; cbn. rewrite Hx; cbn.
  rewrite bit_mask, testbit_mask by (apply Z.mod_pos_bound; lia).
  fold (set_bit x (i mod 8) v). rewrite <- Hu. eexists. split; [done|].
  split; [|done]. split_and!; cbn; try done.
  { unfold pbitmap_len; cbn. by rewrite length_insert. }
  intros j Hj. unfold page_used; cbn.
  destruct (decide (i / 8 = j / 8)) as [E|E].
  - rewrite E in Hx. rewrite E, list_lookup_insert_eq by (by eapply lookup_lt_Some).
    rewrite testbit_set_bit, Hx by (apply Z.mod_pos_bound; lia).
    pose proof (Z.div_mod i 8). pose proof (Z.div_mod j 8).
    repeat case_decide; try done; lia.
  - rewrite list_lookup_insert_ne by (Z.div_mod_to_equations; lia).
    by rewrite decide_False by (intros ?; apply E; f_equal; lia).
Qed.

Lemma run_set_nil a lo v : run_set a a lo lo v.
Proof. split_and!; try done. intros j _. by rewrite decide_False by lia. Qed.

Lemma run_set_trans a1 a2 a3 lo mid hi v :
  lo <= mid <= hi -> run_set a1 a2 lo mid v -> run_set a2 a3 mid hi v ->
  run_set a1 a3 lo hi v.
Proof.
  intros Hle (A1&A2&A3&A4&A5) (B1&B2&B3&B4&B5). split_and!; try congruence.
  intros j Hj. rewrite B5, A5 by done. repeat case_decide; try done; lia.
Qed.

(** Marking or freeing a run, page by page.  [free_run] also checks that each
    page was in use. *)
Lemma mark_run_spec a i n :
  0 <= i -> i + Z.of_nat n <= page_count a ->
  exists a', mark_run i n a = Val () a' /\ run_set a a' i (i + Z.of_nat n) true /\
    pbitmap_firstfree a' = pbitmap_firstfree a.
Proof.
  revert a i; induction n as [|n IH]; intros a i Hi Hn.
  - exists a. rewrite Z.add_0_r. split_and!; [done|apply run_set_nil|done].
  - destruct (bitmap_set_spec a i true) as (a1&E1&R1&F1); [lia|].
    destruct (IH a1 (i + 1)) as (a2&E2&R2&F2);
      [lia|unfold page_count in *; destruct R1 as (_&_&_&->&_); lia|].
    exists a2. cbn [mark_run]. unfold mbind, st_bind. rewrite E1, E2. split; [done|].
    split; [|congruence]. replace (i + Z.of_nat (S n)) with (i + 1 + Z.of_nat n) by lia.
    eapply (run_set_trans _ a1 _ _ (i + 1)); [lia|done|done].
Qed.

Lemma free_run_spec a i n :
  0 <= i -> i + Z.of_nat n <= page_count a ->
  (forall j, i <= j < i + Z.of_nat n -> page_used a j = true) ->
  exists a', free_run i n a = Val () a' /\ run_set a a' i (i + Z.of_nat n) false /\
    pbitmap_firstfree a' = pbitmap_firstfree a.
Proof.
  revert a i; induction n as [|n IH]; intros a i Hi Hn Hu.
  - exists a. rewrite Z.add_0_r. split_and!; [done|apply run_set_nil|done].
  - destruct (bitmap_set_spec a i false) as (a1&E1&R1&F1); [lia|].
    destruct (IH a1 (i + 1)) as (a2&E2&R2&F2).
    { lia. }
    { unfold page_count in *; destruct R1 as (_&_&_&->&_); lia. }
    { intros j Hj. destruct R1 as (_&_&_&_&->); [|lia].
      rewrite decide_False by lia. apply Hu. lia. }
    exists a2. cbn [free_run]. unfold mbind, st_bind. rewrite E1, Hu by lia. cbn.
    rewrite E2. split; [done|]. split; [|congruence].
    replace (i + Z.of_nat (S n)) with (i + 1 + Z.of_nat n) by lia.
    eapply (run_set_trans _ a1 _ _ (i + 1)); [lia|done|done].
Qed.

(** A hole of [pages] pages from [i] on. *)
Definition hole (a : alloc) (i pages : Z) : Prop :=
  0 <= i /\ i + pages <= page_count a /\
  forall j, i <= j < i + pages -> page_used a j = false.

Lemma page_search_spec a n i streak pages :
  1 <= pages -> 0 <= streak < pages -> streak <= i ->
  i + Z.of_nat n = page_count a ->
  (forall j, i - streak <= j < i -> page_used a j = false) ->
  pbitmap_firstfree a <= i - streak ->
  (forall k, pbitmap_firstfree a <= k < i - streak -> ~ hole a k pages) ->
  exists r, page_search n i streak pages a = Val r a /\
    match r with
    | Some (k, s) => s = pages /\ pbitmap_firstfree a <= k /\ hole a k pages /\
        forall k', pbitmap_firstfree a <= k' < k -> ~ hole a k' pages
    | None => forall k, pbitmap_firstfree a <= k -> ~ hole a k pages
    end.
Proof.
  intros Hp. revert i streak; 
  induction n as [|n IH]; intros i streak Hs Hi Hn Hfree Hff Hno.
  - exists None. split; [done|]. intros k Hk Hh.
    destruct (decide (k < i - streak)); [eapply Hno; [|exact Hh]; lia|].
    destruct Hh as (_&?&_). lia.
  - cbn [page_search]. unfold mbind, st_bind. rewrite bitmap_get_spec by lia.
    destruct (page_used a i) eqn:Eu.
    + destruct (IH (i + 1) 0) as (r&Er&Hr); try lia.
      { intros k Hk Hh. destruct (decide (k < i - streak)); [eapply Hno; [|exact Hh]; lia|].
        destruct Hh as (_&_&Hh). rewrite Hh in Eu by lia. done. }
      by exists r.
    + destruct (pages <=? streak + 1) eqn:Ep; zbool.
      * eexists. split; [done|]. split; [lia|]. split; [lia|].
        assert (Hh : hole a (i + 1 - (streak + 1)) pages).
        { split_and!; [lia|lia|]. intros j Hj.
          destruct (decide (j = i)) as [->|]; [done|]. apply Hfree. lia. }
        split; [done|]. intros k' Hk'. apply Hno. lia.
      * destruct (IH (i + 1) (streak + 1)) as (r&Er&Hr); try lia.
        { intros j Hj. destruct (decide (j = i)) as [->|]; [done|]. apply Hfree. lia. }
        { intros k Hk. apply Hno. lia. }
        by exists r.
Qed.

Definition alloc_wf (a : alloc) : Prop := 0 <= pbitmap_firstfree a <= page_count a.

Lemma page_alloc_spec a pages :
  alloc_wf a -> 1 <= pages ->
  match page_alloc pages a with
  | Val p a' =>
      exists i, p = pbitmap_addr a + i * PAGE_SIZE /\
        pbitmap_firstfree a <= i /\ hole a i pages /\
        (forall k, pbitmap_firstfree a <= k < i -> ~ hole a k pages) /\
        run_set a a' i (i + pages) true /\
        pbitmap_firstfree a' = i + pages - 1 /\ alloc_wf a'
  | Exit _ _ => False
  | Fault f => f = Panic /\ forall k, pbitmap_firstfree a <= k -> ~ hole a k pages
  end.
Proof.
  intros Hwf Hp. unfold page_alloc, mbind, st_bind, get_; cbn.
  fold (page_count a). unfold alloc_wf in *.
  destruct (page_search_spec a (Z.to_nat (page_count a - pbitmap_firstfree a))
    (pbitmap_firstfree a) 0 pages) as (r&->&Hr); try lia.
  destruct r as [[i s]|]; [|done]. destruct Hr as (->&Hi&Hh&Hno).
  destruct Hh as (H0&H1&H2).
  destruct (mark_run_spec a i (Z.to_nat pages)) as (a'&->&Hrun&Hff); [lia|lia|].
  rewrite Z2Nat.id in Hrun by lia. cbn. exists i.
  destruct Hrun as (R1&R2&R3&R4&R5).
  split_and!; try done; try lia.
  unfold page_count, pbitmap_len in *; cbn. lia.
Qed.

Lemma toindex_page a i : 0 <= i -> toindex a (pbitmap_addr a + i * PAGE_SIZE) = i.
Proof.
  intros Hi. unfold toindex, PAGE_SIZE.
  replace (_ - _) with (i * 4096) by lia. apply Z.quot_mul. lia.
Qed.

Lemma page_free_spec a i pages :
  0 <= i -> 1 <= pages -> i + pages <= page_count a ->
  (forall j, i <= j < i + pages -> page_used a j = true) ->
  exists a', page_free (pbitmap_addr a + i * PAGE_SIZE) pages a = Val () a' /\
    run_set a a' i (i + pages) false /\
    pbitmap_firstfree a' = Z.min i (pbitmap_firstfree a).
Proof.
  intros Hi Hp Hc Hu. unfold page_free, mbind, st_bind, get_; cbn.
  rewrite (proj2 (Z.leb_le _ _)) by (unfold PAGE_SIZE; lia). cbn.
  rewrite toindex_page by done.
  destruct (free_run_spec a i (Z.to_nat pages)) as (a'&->&Hrun&Hff); [lia|lia| |].
  { intros j Hj. apply Hu. lia. }
  rewrite Z2Nat.id in Hrun by lia. destruct Hrun as (R1&R2&R3&R4&R5).
  destruct (i <? pbitmap_firstfree a') eqn:E; zbool; cbn; eexists; (split; [done|]);
    split_and!; cbn; try done; lia.
Qed.

(** ** Properties *)

(** C30: [page_alloc] is first fit above its hint.  It returns the first run of
    [pages] free pages at or above [pbitmap_firstfree], marks exactly that run
    as used and changes neither any other page nor the heap; it panics exactly
    when no such run exists. *)
Theorem page_alloc_first_fit a pages :
  alloc_wf a -> 1 <= pages ->
  match page_alloc pages a with
  | Val p a' =>
      exists i, p = pbitmap_addr a + i * PAGE_SIZE /\
        pbitmap_firstfree a <= i /\ hole a i pages /\
        (forall k, pbitmap_firstfree a <= k < i -> ~ hole a k pages) /\
        run_set a a' i (i + pages) true /\
        pbitmap_firstfree a' = i + pages - 1 /\ alloc_wf a'
  | Exit _ _ => False
  | Fault f => f = Panic /\ forall k, pbitmap_firstfree a <= k -> ~ hole a k pages
  end.
Proof. intros Hwf Hp. exact (page_alloc_spec a pages Hwf Hp). Qed.

Definition alloc_example : alloc := mkAlloc 0x100000 [5] 0 0 ∅.

(** Pages 0 and 2 in use: two pages are found at 3. *)
Lemma page_alloc_first_fit_witness :
  exists a', page_alloc 2 alloc_example = Val (0x100000 + 3 * PAGE_SIZE) a' /\
    page_used a' 4 = true /\ page_used a' 1 = false.
Proof.
  pose proof (page_alloc_first_fit alloc_example 2 ltac:(vm_compute; split; discriminate)
    ltac:(lia)) as H.
  destruct (page_alloc 2 alloc_example) as [p a'|? ?|?] eqn:E; vm_compute in E; try discriminate.
  injection E as <- <-. eexists. split; [vm_compute; reflexivity|].
  destruct H as (i&Hp&_&_&_&(_&_&_&_&Hrun)&_).
  assert (i = 3) as -> by (revert Hp; unfold PAGE_SIZE; cbn; lia).
  rewrite !Hrun by lia. split; reflexivity.
Defined.

(** [page_free] undoes [page_alloc]: after freeing what was just allocated
    every page has its old state again and the hint is the freed page; freeing
    a second time is caught and panics. *)
Theorem page_free_undoes_alloc a pages p a' :
  alloc_wf a -> 1 <= pages -> page_alloc pages a = Val p a' ->
  exists a'', page_free p pages a' = Val () a'' /\
    (forall j, 0 <= j -> page_used a'' j = page_used a j) /\
    pbitmap_addr a'' + pbitmap_firstfree a'' * PAGE_SIZE = p /\
    page_free p pages a'' = Fault Panic.
Proof.
  intros Hwf Hp E. pose proof (page_alloc_spec a pages Hwf Hp) as H. rewrite E in H.
  destruct H as (i&->&Hi&(H0&H1&H2)&_&(R1&R2&R3&R4&R5)&Hff&_).
  unfold alloc_wf in Hwf.
  destruct (page_free_spec a' i pages) as (a''&Ef&(S1&S2&S3&S4&S5)&Hff');
    [lia|lia|unfold page_count in *; lia| |].
  { intros j Hj. rewrite R5, decide_True by lia. done. }
  rewrite R1 in Ef. exists a''. split; [done|]. split; [|split].
  - intros j Hj. rewrite S5, R5 by done. repeat case_decide; try done. symmetry. by apply H2.
  - unfold PAGE_SIZE. rewrite S1, R1. lia.
  - unfold page_free, mbind, st_bind, get_; cbn.
    rewrite (proj2 (Z.leb_le _ _)) by (unfold PAGE_SIZE; lia). cbn.
    rewrite <- R1, <- S1, toindex_page by lia.
    destruct (Z.to_nat pages) as [|n] eqn:En; [lia|]. cbn [free_run].
    unfold mbind, st_bind.
    destruct (bitmap_set_spec a'' i false) as (a3&->&_); [unfold page_count in *; lia|].
    by rewrite S5, decide_True by lia.
Qed.

Lemma page_free_undoes_alloc_witness :
  exists a' a'', page_alloc 2 alloc_example = Val (0x100000 + 3 * PAGE_SIZE) a' /\
    page_free (0x100000 + 3 * PAGE_SIZE) 2 a' = Val () a'' /\ page_used a'' 3 = false.
Proof.
  destruct (page_alloc 2 alloc_example) as [p a'|? ?|?] eqn:E; try discriminate E.
  assert (p = 0x100000 + 3 * PAGE_SIZE) as -> by (vm_compute in E; injection E as <- _; reflexivity).
  destruct (page_free_undoes_alloc alloc_example 2 _ a'
    ltac:(vm_compute; split; discriminate) ltac:(lia) E) as (a''&H&Hu&_).
  exists a', a''. split; [done|]. split; [exact H|]. rewrite Hu by lia. reflexivity.
Defined.

(** The hint loses pages.  After any successful allocation no later
    allocation returns a page below the end of that run, whether or not pages
    below it are free; with enough of them lost, [page_alloc] reports that
    memory ran out while a page is free. *)
Theorem page_alloc_skips_free_pages a pages p a' n q a'' :
  alloc_wf a -> 1 <= pages -> 1 <= n ->
  page_alloc pages a = Val p a' -> page_alloc n a' = Val q a'' ->
  p + pages * PAGE_SIZE <= q.
Proof.
  intros Hwf Hp Hn E1 E2.
  pose proof (page_alloc_spec a pages Hwf Hp) as H1. rewrite E1 in H1.
  destruct H1 as (i&->&_&Hh&_&(R1&_&_&_&R5)&Hff&Hwf').
  pose proof (page_alloc_spec a' n Hwf' Hn) as H2. rewrite E2 in H2.
  destruct H2 as (k&->&Hk&(K0&_&K2)&_).
  assert (k <> i + pages - 1).
  { intros ->. destruct Hh as (?&_&_). specialize (K2 (i + pages - 1) ltac:(lia)).
    rewrite R5, decide_True in K2 by lia. done. }
  rewrite R1. unfold PAGE_SIZE. lia.
Qed.

(** Eight pages: 0 is freed again, and lost to the next request when a run of
    six is allocated above it. *)
Definition lose_a_page : M () :=
  p ← page_alloc 1;
  _ ← page_alloc 1;
  page_free p 1;;
  _ ← page_alloc 6;
  mret ().

Lemma page_alloc_skips_free_pages_witness :
  let a0 := mkAlloc 0 [0] 0 0 ∅ in
  (exists p a1 q a2, page_alloc 1 a0 = Val p a1 /\ page_alloc 1 a1 = Val q a2 /\
     p + 1 * PAGE_SIZE <= q) /\
  exists a, lose_a_page a0 = Val () a /\ page_used a 0 = false /\
    page_alloc 1 a = Fault Panic.
Proof.
  intros a0. split.
  - destruct (page_alloc 1 a0) as [p a1|? ?|?] eqn:E1; try discriminate E1.
    destruct (page_alloc 1 a1) as [q a2|? ?|?] eqn:E2;
      [|vm_compute in E1; injection E1 as <- <-; discriminate E2..].
    exists p, a1, q, a2. split; [done|]. split; [exact E2|].
    refine (page_alloc_skips_free_pages a0 1 p a1 1 q a2 _ _ _ E1 E2);
      [vm_compute; split; discriminate|lia|lia].
  - eexists. split; [vm_compute; reflexivity|]. split; reflexivity.
Defined.

(** [kmalloc_sanity] only reads. *)
Lemma kmalloc_sanity_pure addr : steps eq (kmalloc_sanity addr).
Proof.
  unfold kmalloc_sanity, load.
  repeat first
    [ apply steps_bind; [exact _| |intros ?]
    | apply steps_when; [exact _|]
    | solve [eauto using eq_PreOrder with steps typeclass_instances]
    | apply steps_assert; exact _ | apply steps_get; exact _ | apply steps_ret; exact _].
Qed.

(** The debug fill of [kmalloc] overruns its allocation.  [len] counts the
    header when the fill starts after it, so the byte [HDR_SIZE - 1] past the
    end of the object is overwritten with [0xCC]; that byte lies outside the
    pages of the allocation exactly when the object ends in the last 55 bytes
    of a page (header included). *)
Theorem kmalloc_fill_overruns dc a len p a' :
  0 < len < 2 ^ 32 -> kmalloc dc len a = Val p a' ->
  let run_end := p - HDR_SIZE + ((len + HDR_SIZE) / PAGE_SIZE + 1) * PAGE_SIZE in
  ld (heap a') (p + len + HDR_SIZE - 1) = 0xCC /\
  (run_end <= p + len + HDR_SIZE - 1 <-> 4041 <= (len + HDR_SIZE) mod PAGE_SIZE).
Proof.
  intros Hlen H run_end. split.
  - unfold kmalloc in H. cbv zeta in H. rewrite (u64_small (len + HDR_SIZE)) in H
      by (unfold is_size, HDR_SIZE; lia).
    repeat match type of H with
    | (_ ≫= _) _ = Val _ _ => apply bind_val in H as (?&?&?&H)
    end.
    injection H as <- <-.
    match goal with
    | H : kmalloc_sanity _ _ = Val _ _, G : modify _ _ = Val _ ?s |- _ =>
        pose proof (kmalloc_sanity_pure (x + HDR_SIZE) s) as Hs; rewrite H in Hs;
        cbv [modify] in G; injection G as _ <-; rewrite <- Hs
    end.
    cbn. rewrite memset_filled, decide_True by (unfold HDR_SIZE; lia). reflexivity.
  - subst run_end. unfold PAGE_SIZE, HDR_SIZE. Z.div_mod_to_equations. lia.
Qed.

Definition heap_example : alloc := mkAlloc 0x100000 [0; 0] 0 0 ∅.

(** The neighbour's header is hit: [kfree] of a valid object panics. *)
Definition break_neighbour : M () :=
  x ← kmalloc (fun _ => 0) 100;
  y ← kmalloc (fun _ => 0) 100;
  kfree x;;
  _ ← kmalloc (fun _ => 0) 4000;
  kfree y.

Lemma kmalloc_fill_overruns_witness :
  (exists p a', kmalloc (fun _ => 0) 4000 heap_example = Val p a' /\
    ld (heap a') (p + 4000 + HDR_SIZE - 1) = 0xCC) /\
  break_neighbour heap_example = Fault Panic.
Proof.
  split; [|vm_compute; reflexivity].
  destruct (is_val_true (kmalloc (fun _ => 0) 4000 heap_example)) as (p&a'&E);
    [vm_compute; reflexivity|].
  exists p, a'. split; [exact E|].
  exact (proj1 (kmalloc_fill_overruns (fun _ => 0) heap_example 4000 p a' ltac:(lia) E)).
Defined.
