(* ===== verification/Paging.v ===== *)
(** * Paging

    Address spaces: the four-level page tables of
    [src/src/kernel/arch/amd64/pagedir.c].  A [Pagedir *] is the address of a
    page in the memory of [Malloc]; an entry is the 8 bytes at its address, and
    the bit fields of [pe_generic_t] and [union virt_addr] ([paging.h]) are
    bits of a [Z]. *)

From S2P Require Import Prelude Monad Mem Malloc.

(** ** Bit fields *)

Definition bits (v lo n : Z) : Z := Z.land (Z.shiftr v lo) (Z.ones n).
Definition set_bits (v lo n x : Z) : Z :=
  Z.lor (Z.land v (Z.lnot (Z.shiftl (Z.ones n) lo))) (Z.shiftl (Z.land x (Z.ones n)) lo).

(** [pe_generic_t] *)
Definition present (e : Z) : bool := Z.testbit e 0.
Definition writeable (e : Z) : bool := Z.testbit e 1.
Definition user (e : Z) : bool := Z.testbit e 2.
Definition large (e : Z) : bool := Z.testbit e 7.
Definition address (e : Z) : Z := bits e 12 40.
Definition set_present e (b : bool) := set_bits e 0 1 (Z.b2z b).
Definition set_writeable e (b : bool) := set_bits e 1 1 (Z.b2z b).
Definition set_user e (b : bool) := set_bits e 2 1 (Z.b2z b).
Definition set_address e (a : Z) := set_bits e 12 40 a.

(** [union virt_addr] *)
Definition v_off v := bits v 0 12.
Definition v_pt v := bits v 12 9.
Definition v_pd v := bits v 21 9.
Definition v_pdpt v := bits v 30 9.
Definition v_pml4 v := bits v 39 9.
Definition set_off v x := set_bits v 0 12 x.
Definition set_pt v x := set_bits v 12 9 x.
Definition set_pd v x := set_bits v 21 9 x.
Definition set_pdpt v x := set_bits v 30 9 x.
Definition set_pml4 v x := set_bits v 39 9 x.
Definition set_sign v x := set_bits v 48 16 x.

Definition addr_extract (e : Z) : Z := Z.shiftl (address e) 12.

Definition addr_validate (addr : Z) : M Z :=
  assert (addr_extract addr =? addr);; mret addr.

Definition addr_canonical (addr : Z) : bool :=
  let n := Z.shiftr addr 48 in
  (n =? 0) || (u64 (Z.shiftl (u64 (Z.lnot n)) 48) =? 0).

Definition addr_canonize (addr : Z) : M Z :=
  let v := set_sign addr (Z.land (Z.shiftr addr 47) 1 * 0xFFFF) in
  assert (addr_canonical addr);;
  mret v.

(** The address of entry [i] of the table [t], and its value. *)
Definition entry (t i : Z) : Z := t + 8 * i.
Definition get_e (p : Z) : M Z := load 8 p.
Definition set_e (p v : Z) : M () := store 8 p v.

Definition pagedir_new : M Z := page_zalloc 1.

(** ** Walking *)

(** One level of a walk: the table the entry points to. *)
Definition walk_level (t i : Z) : M (option Z) :=
  e ← get_e (entry t i);
  if negb (present e) then mret None
  else assert (negb (large e));; mret (Some (addr_extract e)).

(** [get_entry]: the address of the page table entry, [None] for [NULL]. *)
Definition get_entry (dir virt : Z) : M (option Z) :=
  if negb (addr_canonical virt) then mret None
  else
    o ← walk_level dir (v_pml4 virt);
    match o with
    | None => mret None
    | Some pdpt =>
        o ← walk_level pdpt (v_pdpt virt);
        match o with
        | None => mret None
        | Some pd =>
            o ← walk_level pd (v_pd virt);
            match o with
            | None => mret None
            | Some pt => mret (Some (entry pt (v_pt virt)))
            end
        end
    end.

Definition pagedir_iskern (dir virt : Z) : M bool :=
  page ← get_entry dir virt;
  match page with
  | None => mret false
  | Some p => e ← get_e p; mret (present e && negb (user e))
  end.

(** The physical address, 0 for [NULL]. *)
Definition pagedir_virt2phys (dir virt : Z) (user_ writeable_ : bool) : M Z :=
  page ← get_entry dir virt;
  match page with
  | None => mret 0
  | Some p =>
      e ← get_e p;
      if negb (present e) then mret 0
      else if user_ && negb (user e) then mret 0
      else if writeable_ && negb (writeable e) then mret 0
      else mret (addr_extract e + Z.land virt PAGE_MASK)
  end.

Definition findfree_limit : Z := 0xFFF00000.

(** [pagedir_findfree]; the search range has 0xFFF00 pages at most. *)
Definition pagedir_findfree (dir start len : Z) : M Z :=
  let start := Z.land (u64 (start + PAGE_MASK)) (Z.lnot PAGE_MASK) in
  iter (Z.to_nat (findfree_limit / PAGE_SIZE + 1))
    (fun '(start, it) =>
       if it <? findfree_limit then
         page ← get_entry dir it;
         used ← match page with
                | None => mret false
                | Some p => e ← get_e p; mret (present e)
                end;
         if (used : bool) then mret (inl (it + PAGE_SIZE, it + PAGE_SIZE))
         else if len <=? u64 (it + PAGE_SIZE - start) then mret (inr start)
         else mret (inl (start, it + PAGE_SIZE))
       else mret (inr 0))
    (start, start).

(** ** Mapping *)

(** The entry at [p], made to point to a new table if it is not present. *)
Definition ensure_table (p : Z) : M () :=
  e ← get_e p;
  if negb (present e) then
    z ← page_zalloc 1;
    a ← addr_validate z;
    set_e p (set_user (set_writeable (set_present a true) true) true)
  else mret ().

Definition map_level (t i : Z) : M Z :=
  ensure_table (entry t i);;
  e ← get_e (entry t i);
  assert (negb (large e));;
  mret (addr_extract e).

Definition pagedir_map (dir virt phys : Z) (user_ writeable_ : bool) : M () :=
  if negb (addr_canonical virt) then mret ()
  else
    pdpt ← map_level dir (v_pml4 virt);
    pd ← map_level pdpt (v_pdpt virt);
    pt ← map_level pd (v_pd virt);
    let pte := entry pt (v_pt virt) in
    e ← get_e pte;
    if negb (present e) then
      set_e pte (set_user (set_writeable (set_present
        (set_address e (Z.shiftr phys 12)) true) writeable_) user_)
    else panic.

(** ** Whole trees *)

Definition indices : list Z := Z.of_nat <$> seq 0 512.

(** [for (i = 0; i < 512; i++) { if (!t[i].present) continue; ... }] *)
Definition each_present (t : Z) (body : Z -> Z -> M ()) : M () :=
  forM indices (fun i =>
    e ← get_e (entry t i);
    when (present e) (body i e)).

Definition pagedir_free (dir : Z) : M () :=
  each_present dir (fun _ e1 =>
    assert (negb (large e1));;
    each_present (addr_extract e1) (fun _ e2 =>
      assert (negb (large e2));;
      each_present (addr_extract e2) (fun _ e3 =>
        assert (negb (large e3));;
        each_present (addr_extract e3) (fun _ e4 =>
          when (user e4) (page_free (addr_extract e4) 1));;
        page_free (addr_extract e3) 1);;
      page_free (addr_extract e2) 1);;
    page_free (addr_extract e1) 1);;
  page_free dir 1.

(** The copy of the entry [i] of a table, redirected to a new table. *)
Definition copy_entry (t_new i e new : Z) : M () :=
  set_e (entry t_new i) (set_address e (Z.shiftr new 12)).

Definition pagedir_copy (pml4_old : Z) : M Z :=
  pml4_new ← page_zalloc 1;
  each_present pml4_old (fun i e1 =>
    assert (negb (large e1));;
    pdpt_new ← page_zalloc 1;
    copy_entry pml4_new i e1 pdpt_new;;
    each_present (addr_extract e1) (fun j e2 =>
      assert (negb (large e2));;
      pd_new ← page_zalloc 1;
      copy_entry pdpt_new j e2 pd_new;;
      each_present (addr_extract e2) (fun k e3 =>
        assert (negb (large e3));;
        pt_new ← page_zalloc 1;
        copy_entry pd_new k e3 pt_new;;
        each_present (addr_extract e3) (fun l e4 =>
          set_e (entry pt_new l) e4;;
          when (user e4)
            (page_new ← page_alloc 1;
             modify (fun a => set_heap
               (memcpy (heap a) page_new (addr_extract e4) (Z.to_nat PAGE_SIZE)) a);;
             copy_entry pt_new l e4 page_new)))));;
  mret pml4_new.

(** ** Unmapping

    The four nested loops of [pagedir_unmap_user] share [v]; a [return] from
    inside leaves all of them ([inr]). *)

Fixpoint unmap_pt (n : nat) (pti v pt end_ : Z) : M (Z + ()) :=
  match n with
  | O => mret (inl v)
  | S n =>
      if v <? end_ then
        let v := set_pt v pti in
        if end_ <=? v then mret (inr ())
        else
          e ← get_e (entry pt (v_pt v));
          when (present e && user e)
            (page_free (addr_extract e) 1;;
             e ← get_e (entry pt (v_pt v));
             set_e (entry pt (v_pt v)) (set_present e false));;
          unmap_pt n (pti + 1) v pt end_
      else mret (inl v)
  end.

Fixpoint unmap_pd (n : nat) (pdi v pd end_ : Z) : M (Z + ()) :=
  match n with
  | O => mret (inl v)
  | S n =>
      if v <? end_ then
        let v := set_pd v pdi in
        if end_ <=? v then mret (inr ())
        else
          e ← get_e (entry pd (v_pd v));
          if negb (present e) then unmap_pd n (pdi + 1) (set_pt v 0) pd end_
          else
            assert (negb (large e));;
            r ← unmap_pt (Z.to_nat (512 - v_pt v)) (v_pt v) v (addr_extract e) end_;
            match r with
            | inr _ => mret (inr ())
            | inl v => unmap_pd n (pdi + 1) (set_pt v 0) pd end_
            end
      else mret (inl v)
  end.

Fixpoint unmap_pdpt (n : nat) (pdpti v pdpt end_ : Z) : M (Z + ()) :=
  match n with
  | O => mret (inl v)
  | S n =>
      if v <? end_ then
        let v := set_pdpt v pdpti in
        if end_ <=? v then mret (inr ())
        else
          e ← get_e (entry pdpt (v_pdpt v));
          if negb (present e) then
            unmap_pdpt n (pdpti + 1) (set_pt (set_pd v 0) 0) pdpt end_
          else
            assert (negb (large e));;
            r ← unmap_pd (Z.to_nat (512 - v_pd v)) (v_pd v) v (addr_extract e) end_;
            match r with
            | inr _ => mret (inr ())
            | inl v => unmap_pdpt n (pdpti + 1) (set_pd v 0) pdpt end_
            end
      else mret (inl v)
  end.

Fixpoint unmap_pml4 (n : nat) (pml4i v dir end_ : Z) : M (Z + ()) :=
  match n with
  | O => mret (inl v)
  | S n =>
      if v <? end_ then
        v ← addr_canonize (set_pml4 v pml4i);
        if end_ <=? v then mret (inr ())
        else
          e ← get_e (entry dir (v_pml4 v));
          if negb (present e) then
            unmap_pml4 n (pml4i + 1) (set_pt (set_pd (set_pdpt v 0) 0) 0) dir end_
          else
            assert (negb (large e));;
            r ← unmap_pdpt (Z.to_nat (512 - v_pdpt v)) (v_pdpt v) v (addr_extract e) end_;
            match r with
            | inr _ => mret (inr ())
            | inl v => unmap_pml4 n (pml4i + 1) (set_pdpt v 0) dir end_
            end
      else mret (inl v)
  end.

Definition pagedir_unmap_user (dir virt len : Z) : M () :=
  end_ ← addr_canonize (u64 (virt + len));
  let v := set_off virt 0 in
  _ ← unmap_pml4 (Z.to_nat (512 - v_pml4 v)) (v_pml4 v) v dir end_;
  mret ().
