(* ===== verification/PageTable.v ===== *)
(** * PageTable

    What the page tables of [Paging] mean: a finite map from page numbers to
    frames and permissions.  A table is found by the path of indices that leads
    to it from the root; the invariant [tree] says that different paths lead to
    different tables, all of them allocated pages.  [pagedir_map] inserts into
    the map and [pagedir_virt2phys] looks up in it. *)

From S2P Require Import Prelude Monad Mem Malloc Paging.

(** ** Bit fields *)

Lemma testbit_bits v lo n k :
  0 <= lo -> 0 <= n -> 0 <= k -> Z.testbit (bits v lo n) k = (k <? n) && Z.testbit v (k + lo).
Proof.
  intros Hl Hn Hk. unfold bits. rewrite Z.land_spec, Z.shiftr_spec, Z.testbit_ones_nonneg by lia.
  by rewrite andb_comm.
Qed.

Lemma testbit_set_bits v lo n x k :
  0 <= lo -> 0 <= n -> 0 <= k ->
  Z.testbit (set_bits v lo n x) k =
    if (lo <=? k) && (k <? lo + n) then Z.testbit x (k - lo) else Z.testbit v k.
Proof.
  intros Hl Hn Hk. unfold set_bits.
  rewrite Z.lor_spec, Z.land_spec, Z.lnot_spec by lia.
  rewrite !Z.shiftl_spec, Z.land_spec by lia.
  destruct (lo <=? k) eqn:E1; zbool; cbn [andb].
  - rewrite Z.testbit_ones_nonneg by lia.
    destruct (k <? lo + n) eqn:E2; zbool.
    + rewrite (proj2 (Z.ltb_lt (k - lo) n)) by lia. cbn [negb].
      by rewrite andb_false_r, andb_true_r.
    + rewrite (proj2 (Z.ltb_ge (k - lo) n)) by lia. cbn [negb].
      by rewrite andb_true_r, andb_false_r, orb_false_r.
  - rewrite !(Z.testbit_neg_r _ (k - lo)) by lia. cbn. by rewrite andb_true_r, orb_false_r.
Qed.

Lemma testbit_addr_extract e k :
  0 <= k -> Z.testbit (addr_extract e) k = (12 <=? k) && (k <? 52) && Z.testbit e k.
Proof.
  intros Hk. unfold addr_extract, address. rewrite Z.shiftl_spec by lia.
  destruct (12 <=? k) eqn:E; zbool; cbn [andb].
  - rewrite testbit_bits by lia. replace (k - 12 + 12) with k by lia. f_equal.
    destruct (k <? 52) eqn:E2; zbool; [apply Z.ltb_lt|apply Z.ltb_ge]; lia.
  - by rewrite Z.testbit_neg_r by lia.
Qed.

(** A value below a power of two, by its bits. *)
Lemma range_of_bits z n :
  0 <= n -> 0 <= z -> (forall k, n <= k -> Z.testbit z k = false) -> z < 2 ^ n.
Proof.
  intros Hn Hz Hb. destruct (decide (z < 2 ^ n)); [done|exfalso].
  assert (Hl : n <= Z.log2 z) by (apply Z.log2_le_pow2; lia).
  assert (Hp : 0 < z) by (pose proof (Z.pow_pos_nonneg 2 n); lia).
  specialize (Hb (Z.log2 z) Hl). rewrite Z.bit_log2 in Hb by done. done.
Qed.

Lemma high_bits z n k : 0 <= z < 2 ^ n -> n <= k -> Z.testbit z k = false.
Proof.
  intros Hz Hk. destruct (decide (z = 0)) as [->|]; [apply Z.bits_0|].
  apply Z.bits_above_log2; [lia|]. apply Z.log2_lt_pow2; [lia|].
  assert (2 ^ n <= 2 ^ k) by (apply Z.pow_le_mono_r; lia). lia.
Qed.

Lemma set_bits_range v lo n x :
  is_size v -> 0 <= lo -> 0 <= n -> lo + n <= 64 -> is_size (set_bits v lo n x).
Proof.
  unfold is_size. intros Hv Hl Hn Hs.
  assert (0 <= set_bits v lo n x).
  { unfold set_bits. apply Z.lor_nonneg. split; [apply Z.land_nonneg; by left; lia|].
    apply Z.shiftl_nonneg, Z.land_nonneg. right. rewrite Z.ones_equiv.
    pose proof (Z.pow_pos_nonneg 2 n). lia. }
  split; [done|]. apply range_of_bits; [lia|done|]. intros k Hk.
  rewrite testbit_set_bits by lia.
  destruct (k <? lo + n) eqn:E; zbool; [lia|]. rewrite andb_false_r.
  by apply (high_bits v 64).
Qed.

Lemma bit_eq a b : (forall k, 0 <= k -> Z.testbit a k = Z.testbit b k) -> a = b.
Proof. apply Z.bits_inj'. Qed.

(** [fields]: what an update of one field does to another. *)
Lemma testbit_b2z b k : 0 <= k -> Z.testbit (Z.b2z b) k = if k =? 0 then b else false.
Proof.
  intros Hk. destruct (k =? 0) eqn:E; zbool; [subst; by destruct b|].
  destruct b; [apply (high_bits 1 1); cbn; lia|apply Z.bits_0].
Qed.

Section fields.
Variables (e : Z) (b : bool).

Lemma present_set_present : present (set_present e b) = b.
Proof. unfold present, set_present. rewrite testbit_set_bits by lia. cbn. by destruct b. Qed.
Lemma present_set_writeable : present (set_writeable e b) = present e.
Proof. unfold present, set_writeable. by rewrite testbit_set_bits by lia. Qed.
Lemma present_set_user : present (set_user e b) = present e.
Proof. unfold present, set_user. by rewrite testbit_set_bits by lia. Qed.
Lemma writeable_set_writeable : writeable (set_writeable e b) = b.
Proof. unfold writeable, set_writeable. rewrite testbit_set_bits by lia. cbn. by destruct b. Qed.
Lemma writeable_set_user : writeable (set_user e b) = writeable e.
Proof. unfold writeable, set_user. by rewrite testbit_set_bits by lia. Qed.
Lemma user_set_user : user (set_user e b) = b.
Proof. unfold user, set_user. rewrite testbit_set_bits by lia. cbn. by destruct b. Qed.
Lemma large_set_flag : large (set_present e b) = large e /\
  large (set_writeable e b) = large e /\ large (set_user e b) = large e.
Proof.
  unfold large, set_present, set_writeable, set_user.
  by rewrite !testbit_set_bits by lia.
Qed.

Lemma addr_extract_set_flag lo : 0 <= lo < 12 ->
  addr_extract (set_bits e lo 1 (Z.b2z b)) = addr_extract e.
Proof.
  intros Hlo. apply bit_eq. intros k Hk. rewrite !testbit_addr_extract, testbit_set_bits by lia.
  destruct (12 <=? k) eqn:E; zbool; [|done]. cbn [andb].
  destruct (k <? lo + 1) eqn:E2; zbool; [lia|]. by rewrite andb_false_r.
Qed.
End fields.

Lemma low_bits p k : k < 12 -> p mod PAGE_SIZE = 0 -> Z.testbit p k = false.
Proof.
  intros Hk Hm. assert (p = p / 2 ^ 12 * 2 ^ 12) as ->.
  { unfold PAGE_SIZE in Hm. change (2 ^ 12) with 4096. Z.div_mod_to_equations; lia. }
  rewrite <- Z.shiftl_mul_pow2 by lia. destruct (decide (k < 0)); [by apply Z.testbit_neg_r|].
  rewrite Z.shiftl_spec by lia. apply Z.testbit_neg_r. lia.
Qed.

Lemma addr_extract_set_address e p :
  0 <= p < 2 ^ 52 -> p mod PAGE_SIZE = 0 ->
  addr_extract (set_address e (Z.shiftr p 12)) = p.
Proof.
  intros Hp Hm. apply bit_eq. intros k Hk. unfold set_address.
  rewrite testbit_addr_extract, testbit_set_bits by lia.
  destruct (12 <=? k) eqn:E; zbool; cbn [andb].
  - change (12 + 40) with 52. destruct (k <? 52) eqn:E2; zbool; cbn [andb].
    + rewrite Z.shiftr_spec by lia. f_equal. lia.
    + symmetry. apply (high_bits p 52); lia.
  - symmetry. apply low_bits; [lia|done].
Qed.

Lemma present_set_address e x : present (set_address e x) = present e.
Proof. unfold present, set_address. by rewrite testbit_set_bits by lia. Qed.
Lemma large_set_address e x : large (set_address e x) = large e.
Proof. unfold large, set_address. by rewrite testbit_set_bits by lia. Qed.

Lemma bits_range v lo n : 0 <= lo -> 0 <= n -> 0 <= bits v lo n < 2 ^ n.
Proof.
  intros Hl Hn. unfold bits. rewrite Z.land_ones by done. apply Z.mod_pos_bound.
  apply Z.pow_pos_nonneg; lia.
Qed.

(** ** Words in memory *)

Lemma le_bytes_S n z : le_bytes (S n) z = Z.land z 255 :: le_bytes n (Z.shiftr z 8).
Proof.
  unfold le_bytes. cbn [seq fmap list_fmap]. rewrite Z.shiftr_0_r. f_equal.
  rewrite <- seq_shift. rewrite <- list_fmap_compose. apply list_fmap_ext. intros i x _. cbn.
  rewrite Z.shiftr_shiftr by lia. do 2 f_equal. lia.
Qed.

Lemma le_value_bytes n z : 0 <= z < 2 ^ (8 * Z.of_nat n) -> le_value (le_bytes n z) = z.
Proof.
  revert z; induction n as [|n IH]; intros z Hz; [cbn in *; lia|].
  rewrite le_bytes_S. cbn [le_value].
  replace (8 * Z.of_nat (S n)) with (8 * Z.of_nat n + 8) in Hz by lia.
  rewrite Z.pow_add_r in Hz by lia.
  change 255 with (Z.ones 8). rewrite Z.land_ones, Z.shiftr_div_pow2 by lia. rewrite IH.
  - pose proof (Z.div_mod z (2 ^ 8)). lia.
  - split; [apply Z.div_pos; lia|apply Z.div_lt_upper_bound; lia].
Qed.

Lemma length_le_bytes n z : length (le_bytes n z) = n.
Proof. unfold le_bytes. by rewrite length_fmap, length_seq. Qed.

(** The 8 bytes at [p]. *)
Definition ldq (h : mem) (p : Z) : Z := le_value (bytes_at h p 8).
Definition stq (h : mem) (p v : Z) : mem := write_bytes h p (le_bytes 8 v).

Lemma ldq_stq_eq h p v : is_size v -> ldq (stq h p v) p = v.
Proof.
  intros Hv. unfold ldq, stq. rewrite <- (length_le_bytes 8 v) at 2.
  rewrite bytes_at_write_bytes. by apply le_value_bytes.
Qed.

Lemma ld_stq h p v b : ~ (p <= b < p + 8) -> ld (stq h p v) b = ld h b.
Proof. intros H. unfold stq. rewrite ld_write_bytes, length_le_bytes, decide_False by lia. done. Qed.

Lemma ldq_ext h h' p : (forall b, p <= b < p + 8 -> ld h' b = ld h b) -> ldq h' p = ldq h p.
Proof. intros H. unfold ldq. f_equal. apply bytes_at_ext. intros i Hi. apply H. lia. Qed.

Lemma ldq_zero h p : (forall b, p <= b < p + 8 -> ld h b = 0) -> ldq h p = 0.
Proof.
  intros H. rewrite (ldq_ext ∅ h p); [reflexivity|]. intros b Hb. by rewrite H.
Qed.

Lemma ldq_range h p : (forall b, is_byte (ld h b)) -> is_size (ldq h p).
Proof.
  intros H. unfold ldq, is_size. cbn [bytes_at le_value].
  repeat match goal with |- context [ld h ?b] => let X := fresh in pose proof (H b) as X;
    unfold is_byte in X; generalize dependent (ld h b); intros end.
  lia.
Qed.

(** ** Pages *)

Definition page_at (a : alloc) (i : Z) : Z := pbitmap_addr a + i * PAGE_SIZE.

(** The memory the allocator manages is page aligned and below 2^52. *)
Definition machine_ok (a : alloc) : Prop :=
  alloc_wf a /\ 0 <= pbitmap_addr a /\ pbitmap_addr a mod PAGE_SIZE = 0 /\
  page_at a (page_count a) <= 2 ^ 52 /\ forall b, is_byte (ld (heap a) b).

Definition is_page (a : alloc) (t : Z) : Prop :=
  exists i, 0 <= i < page_count a /\ t = page_at a i /\ page_used a i = true.

(** At least [n] pages the allocator can still find. *)
Definition free_pages (a : alloc) (n : nat) : Prop :=
  exists l, NoDup l /\ length l = n /\
    Forall (fun i => pbitmap_firstfree a <= i < page_count a /\ page_used a i = false) l.

Lemma free_pages_weaken a n m : (m <= n)%nat -> free_pages a n -> free_pages a m.
Proof.
  intros Hm (l&Hn&Hl&Hf). exists (take m l). split_and!.
  - eapply sublist_NoDup; [done|apply sublist_take].
  - rewrite length_take. lia.
  - by apply Forall_take.
Qed.

(** A page is taken out of the free ones, zeroed. *)
Lemma page_zalloc_spec a n :
  machine_ok a -> free_pages a (S n) ->
  exists z i a', page_zalloc 1 a = Val z a' /\ machine_ok a' /\ free_pages a' n /\
    z = page_at a i /\ 0 <= i < page_count a /\ page_used a i = false /\
    pbitmap_addr a' = pbitmap_addr a /\ page_count a' = page_count a /\
    (forall j, 0 <= j -> page_used a' j = (if decide (j = i) then true else page_used a j)) /\
    (forall b, ld (heap a') b = if decide (z <= b < z + PAGE_SIZE) then 0 else ld (heap a) b).
Proof.
  intros (Hwf&Hp0&Hpm&Hmax&Hb) (l&Hn&Hl&Hf).
  pose proof (page_alloc_spec a 1 Hwf ltac:(lia)) as H.
  unfold page_zalloc, mbind, st_bind, get_, put_.
  destruct (page_alloc 1 a) as [z a1|[]|f] eqn:E.
  2:{ exfalso. destruct H as [_ H]. destruct l as [|i l]; [done|].
      apply Forall_cons in Hf as [[Hi Hu] _]. apply (H i); [lia|].
      unfold alloc_wf in Hwf. split_and!; [lia..|]. intros j Hj. by replace j with i by lia. }
  destruct H as (i&->&Hi&(Hh1&Hh2&Hh3)&Hfirst&(R1&R2&R3&R4&R5)&Hff&Hwf').
  assert (Hc : page_count a1 = page_count a) by (unfold page_count; by rewrite R4).
  pose proof (memset_filled (heap a1) (pbitmap_addr a + i * PAGE_SIZE) 0 (Z.to_nat (1 * PAGE_SIZE)))
    as Hfill.
  remember (memset (heap a1) _ 0 _) as h1 eqn:E1. clear E1.
  exists (page_at a i), i, (set_heap h1 a1). split; [reflexivity|].
  assert (Hld : forall b, ld h1 b = if decide (page_at a i <= b < page_at a i + PAGE_SIZE)
    then 0 else ld (heap a) b) by (intros b; by rewrite (Hfill b), R3).
  split; [|split; [|split; [done|split; [lia|split; [|split; [done|split; [done|split;
    [|exact Hld]]]]]]]].
  - split_and!; [done|by cbn; rewrite R1..| |].
    + change (page_at a1 (page_count a1) <= 2 ^ 52). unfold page_at in *. by rewrite R1, Hc.
    + intros b. cbn. rewrite Hld. case_decide; [unfold is_byte; lia|done].
  - assert (Hfr : forall j, j ∈ l -> j <> i -> i <= j < page_count a /\ page_used a1 j = false).
    { intros j Hj Hne. rewrite Forall_forall in Hf. destruct (Hf j Hj) as [Hjr Hju].
      assert (i <= j).
      { destruct (decide (j < i)); [|lia]. exfalso. apply (Hfirst j); [lia|].
        unfold alloc_wf in Hwf. split_and!; [lia..|]. intros k Hk. by replace k with j by lia. }
      split; [lia|]. rewrite R5 by (unfold alloc_wf in Hwf; lia). by rewrite decide_False by lia. }
    assert (Hl' : exists k, NoDup k /\ length k = n /\ forall j, j ∈ k -> j ∈ l /\ j <> i).
    { destruct (decide (i ∈ l)) as [Hil|Hil].
      - apply elem_of_Permutation in Hil as [k Hk]. exists k.
        rewrite Hk in Hn. apply NoDup_cons in Hn as [Hik Hn]. pose proof Hk as Hk0. apply Permutation_length in Hk.
        split_and!; [done|cbn in Hk; lia|]. intros j Hj. split; [|by intros ->].
        rewrite Hk0. by right.
      - exists (tail l). destruct l as [|x l]; [done|]. apply NoDup_cons in Hn as [Hx Hn].
        split_and!; [done|cbn in Hl; cbn; lia|]. intros j Hj. cbn in Hj.
        split; [by right|]. intros ->. apply Hil. by right. }
    destruct Hl' as (k&Hk1&Hk2&Hk3). exists k. split_and!; [done|done|]. apply Forall_forall.
    intros j Hj. destruct (Hk3 j Hj) as [Hjl Hji]. destruct (Hfr j Hjl Hji) as [Hjr Hju].
    split; [|done]. change (pbitmap_firstfree a1 <= j < page_count a1). rewrite Hff, Hc. lia.
  - apply Hh3. lia.
  - intros j Hj. etrans; [apply R5; lia|]. repeat case_decide; try done; lia.
Qed.

(** ** Tables

    [tab h dir p] is the table at the path [p] of indices. *)

Definition step (h : mem) (t i : Z) : option Z :=
  let e := ldq h (entry t i) in if present e then Some (addr_extract e) else None.

Definition tab (h : mem) (dir : Z) (p : list Z) : option Z :=
  foldl (fun o i => t ← o; step h t i) (Some dir) p.

Lemma tab_snoc h dir p i : tab h dir (p ++ [i]) = (t ← tab h dir p; step h t i).
Proof. unfold tab. by rewrite foldl_app. Qed.

Lemma tab_None h dir p q : tab h dir p = None -> tab h dir (p ++ q) = None.
Proof.
  intros H. induction q as [|i q IH] using rev_ind; [by rewrite app_nil_r|].
  by rewrite app_assoc, tab_snoc, IH.
Qed.

Definition idx (i : Z) : Prop := 0 <= i < 512.
Definition path_ok (p : list Z) : Prop := Forall idx p /\ (length p <= 3)%nat.

Lemma path_ok_app p q : path_ok (p ++ q) -> path_ok p.
Proof. intros [H1 H2]. apply Forall_app in H1 as [? _]. rewrite length_app in H2. split; [done|lia]. Qed.

Lemma path_ok_last p i : path_ok (p ++ [i]) -> idx i.
Proof. intros [H _]. apply Forall_app in H as [_ H]. by apply Forall_cons in H as [? _]. Qed.

(** Different paths lead to different tables, all of them pages in use, and no
    entry above the last level is a large page. *)
Record tree (a : alloc) (dir : Z) : Prop := {
  tree_page p t : path_ok p -> tab (heap a) dir p = Some t -> is_page a t;
  tree_inj p q t : path_ok p -> path_ok q ->
    tab (heap a) dir p = Some t -> tab (heap a) dir q = Some t -> p = q;
  tree_small p t i : path_ok p -> (length p <= 2)%nat -> idx i -> tab (heap a) dir p = Some t ->
    large (ldq (heap a) (entry t i)) = false;
}.

(** The entry for a page: its value, 0 where a table is missing. *)
Definition path_of (v : Z) : list Z := [v_pml4 v; v_pdpt v; v_pd v].
Definition leaf (h : mem) (dir v : Z) : Z :=
  match tab h dir (path_of v) with
  | Some pt => ldq h (entry pt (v_pt v))
  | None => 0
  end.

Lemma leaf_range a dir v : machine_ok a -> is_size (leaf (heap a) dir v).
Proof.
  intros (_&_&_&_&Hb). unfold leaf. destruct (tab _ _ _); [by apply ldq_range|by split].
Qed.

Lemma idx_bits v lo : 0 <= lo -> idx (bits v lo 9).
Proof. intros. unfold idx. change 512 with (2 ^ 9). by apply bits_range. Qed.

Lemma path_of_ok v : path_ok (path_of v).
Proof.
  split; [|cbn; lia]. unfold path_of, v_pml4, v_pdpt, v_pd.
  repeat constructor; apply idx_bits; lia.
Qed.

(** Entries of different pages, or different entries of a page, are apart. *)
Lemma page_entry a t i :
  machine_ok a -> is_page a t -> idx i ->
  t mod PAGE_SIZE = 0 /\ 0 <= t < 2 ^ 52 /\ t <= entry t i /\ entry t i + 8 <= t + PAGE_SIZE.
Proof.
  intros (_&H0&Hm&Hmax&_) (k&Hk&->&_) Hi. unfold idx, entry, page_at, PAGE_SIZE in *.
  split_and!; try lia. rewrite Z.add_mod, Hm, Z.mod_mul by lia. done.
Qed.

Lemma page_apart a i j :
  page_at a i <> page_at a j ->
  page_at a i + PAGE_SIZE <= page_at a j \/ page_at a j + PAGE_SIZE <= page_at a i.
Proof. unfold page_at, PAGE_SIZE. intros H. destruct (decide (i < j)); lia. Qed.

Lemma entry_apart a t i t' j :
  machine_ok a -> is_page a t -> is_page a t' -> idx i -> idx j -> (t, i) <> (t', j) ->
  entry t i + 8 <= entry t' j \/ entry t' j + 8 <= entry t i.
Proof.
  intros Ha Ht Ht' Hi Hj Hne.
  pose proof (page_entry a t i Ha Ht Hi) as (_&_&H1&H2).
  pose proof (page_entry a t' j Ha Ht' Hj) as (_&_&H3&H4).
  destruct (decide (t = t')) as [->|Htt].
  - unfold entry. destruct (decide (i = j)) as [->|]; [done|]. lia.
  - destruct Ht as (k&_&->&_), Ht' as (k'&_&->&_).
    destruct (page_apart a k k' Htt); lia.
Qed.

(** ** A new table *)

Section new_table.
Context (a a' : alloc) (dir t i z e : Z) (p : list Z) (k : Z).
Context (Ha : machine_ok a) (Htree : tree a dir).
Context (Hp : path_ok (p ++ [i])) (Ht : tab (heap a) dir p = Some t).
Context (Hnp : present (ldq (heap a) (entry t i)) = false).
Context (Hz : z = page_at a k) (Hk : 0 <= k < page_count a) (Hfree : page_used a k = false).
Context (Haddr : pbitmap_addr a' = pbitmap_addr a) (Hcount : page_count a' = page_count a).
Context (Hused : forall j, 0 <= j -> page_used a' j = if decide (j = k) then true else page_used a j).
Context (Hzero : forall j, idx j -> ldq (heap a') (entry z j) = 0).
Context (Hframe : forall t' j, is_page a t' -> idx j -> (t', j) <> (t, i) ->
  ldq (heap a') (entry t' j) = ldq (heap a) (entry t' j)).
Context (He : ldq (heap a') (entry t i) = e).
Context (He_present : present e = true) (He_large : large e = false) (He_addr : addr_extract e = z).

Let new_not_page t' : is_page a t' -> t' <> z.
Proof.
  intros (j&Hj&->&Hu) E. rewrite Hz in E. unfold page_at, PAGE_SIZE in E.
  assert (j = k) as -> by lia. congruence.
Qed.

Let is_page_mono t' : is_page a t' -> is_page a' t'.
Proof.
  intros (j&Hj&->&Hu). exists j. split; [by rewrite Hcount|].
  split; [unfold page_at; by rewrite Haddr|]. rewrite Hused by lia. by case_decide.
Qed.

Let new_is_page : is_page a' z.
Proof.
  exists k. split; [by rewrite Hcount|]. split; [rewrite Hz; unfold page_at; by rewrite Haddr|].
  rewrite Hused by lia. by case_decide.
Qed.

(** Exactly one table is new. *)
Lemma tab_new q : path_ok q ->
  tab (heap a') dir q = if decide (q = p ++ [i]) then Some z else tab (heap a) dir q.
Proof.
  induction q as [|j q IH] using rev_ind; intros Hq.
  { rewrite decide_False; [done|]. by destruct p. }
  pose proof (path_ok_app _ _ Hq) as Hq'. specialize (IH Hq'). rewrite tab_snoc, IH.
  pose proof (path_ok_last _ _ Hq) as Hj.
  assert (Hnone : tab (heap a) dir (p ++ [i]) = None)
    by (rewrite tab_snoc, Ht; cbn; unfold step; by rewrite Hnp).
  destruct (decide (q = p ++ [i])) as [->|Hqn]; cbn.
  - rewrite decide_False; [|intros H; apply (f_equal length) in H; rewrite length_app in H; cbn in H; lia].
    rewrite tab_None by done. unfold step. rewrite Hzero by done. done.
  - destruct (decide (q ++ [j] = p ++ [i])) as [E|E].
    + apply app_inj_tail in E as [-> ->]. rewrite Ht. cbn. unfold step. by rewrite He, He_present, He_addr.
    + rewrite tab_snoc. destruct (tab (heap a) dir q) as [t'|] eqn:Et; [|done]. cbn. unfold step.
      rewrite Hframe; [done| |done|]; [by eapply tree_page|].
      intros [= -> ->]. apply E. f_equal.
      eapply (tree_inj a dir Htree); [done|by eapply path_ok_app|done|done].
Qed.

Lemma tree_new : tree a' dir.
Proof.
  assert (Hcase : forall q t', path_ok q -> tab (heap a') dir q = Some t' ->
    q = p ++ [i] /\ t' = z \/ q <> p ++ [i] /\ tab (heap a) dir q = Some t').
  { intros q t' Hq H. rewrite tab_new in H by done. case_decide; [left|right]; naive_solver. }
  split.
  - intros q t' Hq H. destruct (Hcase q t' Hq H) as [[_ ->]|[_ H']]; [done|].
    apply is_page_mono. by eapply tree_page.
  - intros q q' t' Hq Hq' H H'.
    destruct (Hcase q t' Hq H) as [[-> E]|[_ H1]], (Hcase q' t' Hq' H') as [[-> E']|[_ H2]];
      [done|..|by eapply tree_inj].
    + subst t'. by destruct (new_not_page z); [eapply tree_page; [|exact Hq'|]|].
    + subst t'. by destruct (new_not_page z); [eapply tree_page; [|exact Hq|]|].
  - intros q t' j Hq Hlen Hj H. destruct (Hcase q t' Hq H) as [[_ ->]|[_ H']].
    + by rewrite Hzero.
    + destruct (decide ((t', j) = (t, i))) as [[= -> ->]|Hne]; [by rewrite He|].
      rewrite Hframe; [|by eapply tree_page|done|done]. by eapply tree_small.
Qed.

Lemma leaf_new v : (length p <= 2)%nat -> leaf (heap a') dir v = leaf (heap a) dir v.
Proof.
  intros Hlen. unfold leaf. rewrite tab_new by apply path_of_ok.
  case_decide as Hv.
  - rewrite Hv, tab_snoc, Ht. cbn. unfold step. rewrite Hnp. apply Hzero, idx_bits. lia.
  - destruct (tab (heap a) dir (path_of v)) as [pt|] eqn:E; [|done].
    apply Hframe; [eapply tree_page; [done|apply path_of_ok|done]|apply idx_bits; lia|].
    intros [= -> _].
    assert (Hpath : path_of v = p).
    { eapply (tree_inj a dir Htree); [apply path_of_ok|by eapply path_ok_app|done|done]. }
    apply (f_equal length) in Hpath. cbn in Hpath. lia.
Qed.
End new_table.

(** ** One level of [pagedir_map] *)

Lemma get_e_val p a : get_e p a = Val (ldq (heap a) p) a.
Proof. reflexivity. Qed.

Lemma set_e_val p v a : set_e p v a = Val () (set_heap (stq (heap a) p v) a).
Proof. reflexivity. Qed.

Lemma m_bind {A B} (m : M A) (f : A -> M B) a x a' :
  m a = Val x a' -> (m ≫= f) a = f x a'.
Proof. unfold mbind, st_bind. by intros ->. Qed.

Lemma stq_byte h p v : (forall b, is_byte (ld h b)) -> forall b, is_byte (ld (stq h p v) b).
Proof.
  intros H b. unfold stq. rewrite ld_write_bytes. case_decide; [|done].
  destruct (le_bytes 8 v !! Z.to_nat (b - p)) as [x|] eqn:E; [|unfold is_byte; cbn; lia].
  unfold le_bytes in E. apply list_lookup_fmap_Some in E as (j&->&_). cbn. unfold is_byte.
  change 255 with (Z.ones 8). rewrite Z.land_ones by lia. apply Z.mod_pos_bound. lia.
Qed.

Lemma machine_ok_stq a p v : machine_ok a -> machine_ok (set_heap (stq (heap a) p v) a).
Proof. intros (H1&H2&H3&H4&H5). split_and!; try done. by apply stq_byte. Qed.

(** A page address is its own entry address. *)
Lemma addr_extract_page p : 0 <= p < 2 ^ 52 -> p mod PAGE_SIZE = 0 -> addr_extract p = p.
Proof.
  intros Hp Hm. apply bit_eq. intros k Hk. rewrite testbit_addr_extract by done.
  destruct (12 <=? k) eqn:E; zbool; cbn [andb].
  - destruct (k <? 52) eqn:E2; zbool; [done|]. symmetry. by apply (high_bits p 52).
  - symmetry. apply low_bits; [lia|done].
Qed.

Definition table_entry (z : Z) : Z := set_user (set_writeable (set_present z true) true) true.

Lemma table_entry_spec z :
  0 <= z < 2 ^ 52 -> z mod PAGE_SIZE = 0 ->
  is_size (table_entry z) /\ present (table_entry z) = true /\ large (table_entry z) = false /\
  addr_extract (table_entry z) = z.
Proof.
  intros Hz Hm. unfold table_entry. split_and!.
  - unfold set_user, set_writeable, set_present. repeat apply set_bits_range; unfold is_size; lia.
  - by rewrite present_set_user, present_set_writeable, present_set_present.
  - unfold set_user, set_writeable, set_present, large. rewrite !testbit_set_bits by lia.
    by apply (low_bits z 7).
  - unfold set_user, set_writeable, set_present. rewrite !addr_extract_set_flag by lia.
    by apply addr_extract_page.
Qed.

Section map_level.
Context (a : alloc) (dir t i : Z) (p : list Z) (n : nat).
Context (Ha : machine_ok a) (Htree : tree a dir) (Hfree : free_pages a (S n)).
Context (Hp : path_ok (p ++ [i])) (Hlen : (length p <= 2)%nat).
Context (Ht : tab (heap a) dir p = Some t).

Lemma map_level_spec :
  exists t' a', map_level t i a = Val t' a' /\ machine_ok a' /\ tree a' dir /\ free_pages a' n /\
    tab (heap a') dir (p ++ [i]) = Some t' /\
    forall v, leaf (heap a') dir v = leaf (heap a) dir v.
Proof.
  pose proof (path_ok_last _ _ Hp) as Hi. pose proof (path_ok_app _ _ Hp) as Hp'.
  assert (Htp : is_page a t) by (by eapply tree_page).
  unfold map_level, ensure_table.
  destruct (present (ldq (heap a) (entry t i))) eqn:Epres.
  - exists (addr_extract (ldq (heap a) (entry t i))), a. split; [|split; [done|split; [done|split;
      [by eapply free_pages_weaken; [|done]; lia|split; [|done]]]]].
    + rewrite (m_bind _ _ a () a); [|rewrite (m_bind _ _ _ _ _ (get_e_val _ _)), Epres; done].
      rewrite (m_bind _ _ _ _ _ (get_e_val _ _)).
      by rewrite (tree_small a dir Htree p t i Hp' Hlen Hi Ht).
    + rewrite tab_snoc, Ht. cbn. unfold step. by rewrite Epres.
  - destruct (page_zalloc_spec a n Ha Hfree) as
      (z&k&a1&Ez&Ha1&Hf1&Hz&Hk&Hku&Haddr&Hcount&Hused&Hld).
    assert (Hzp : z mod PAGE_SIZE = 0 /\ 0 <= z < 2 ^ 52).
    { destruct Ha as (_&H0&Hm&Hmax&_). subst z. unfold page_at, PAGE_SIZE in *.
      split; [|lia]. rewrite Z.add_mod, Hm, Z.mod_mul by lia. done. }
    destruct Hzp as [Hzm Hzr]. destruct (table_entry_spec z Hzr Hzm) as (Hes&Hep&Hel&Hea).
    set (a' := set_heap (stq (heap a1) (entry t i) (table_entry z)) a1).
    pose proof (page_entry a t i Ha Htp Hi) as (_&_&Ht1&Ht2).
    assert (Hzt : z + PAGE_SIZE <= t \/ t + PAGE_SIZE <= z).
    { destruct Htp as (j&Hj&->&Hju). subst z. apply page_apart.
      intros E. unfold page_at, PAGE_SIZE in E. assert (j = k) as -> by lia. congruence. }
    assert (He : ldq (heap a') (entry t i) = table_entry z) by (apply ldq_stq_eq; done).
    assert (Hzero : forall j, idx j -> ldq (heap a') (entry z j) = 0).
    { intros j Hj. apply ldq_zero. intros b Hb. unfold entry, idx in Hb, Hj. cbn [heap a' set_heap].
      rewrite ld_stq, Hld by (unfold PAGE_SIZE in *; lia).
      by rewrite decide_True by (unfold PAGE_SIZE in *; lia). }
    assert (Hframe : forall t' j, is_page a t' -> idx j -> (t', j) <> (t, i) ->
      ldq (heap a') (entry t' j) = ldq (heap a) (entry t' j)).
    { intros t' j Ht' Hj Hne. apply ldq_ext. intros b Hb.
      pose proof (entry_apart a t' j t i Ha Ht' Htp Hj Hi Hne) as Hap.
      pose proof (page_entry a t' j Ha Ht' Hj) as (_&_&Hb1&Hb2).
      cbn [heap a' set_heap]. rewrite ld_stq, Hld by lia. rewrite decide_False; [done|].
      destruct Ht' as (j'&Hj'&->&Hju). subst z.
      destruct (page_apart a j' k); [|lia..].
      intros E. unfold page_at, PAGE_SIZE in E. assert (j' = k) as -> by lia. congruence. }
    assert (Hnew := conj (tab_new a a' dir t i z (table_entry z) p Htree Hp Ht Epres Hzero Hframe
      He Hep Hea) I). destruct Hnew as [Htab _].
    exists z, a'. split; [|split; [by apply machine_ok_stq|split; [|split; [done|split]]]].
    + rewrite (m_bind _ _ a () a').
      * rewrite (m_bind _ _ _ _ _ (get_e_val _ _)), He, Hel. cbn. by rewrite Hea.
      * rewrite (m_bind _ _ _ _ _ (get_e_val _ _)), Epres. cbn [negb].
        rewrite (m_bind _ _ _ _ _ Ez).
        rewrite (m_bind _ _ a1 z a1); [done|]. unfold addr_validate.
        by rewrite addr_extract_page, Z.eqb_refl by done.
    + by eapply (tree_new a a' dir t i z (table_entry z) p k).
    + rewrite Htab by done. by rewrite decide_True.
    + intros v. by eapply (leaf_new a a' dir t i z (table_entry z) p).
Qed.
End map_level.

(** ** Looking up *)

(** What [pagedir_virt2phys] makes of an entry. *)
Definition translate (e v : Z) (user_ writeable_ : bool) : Z :=
  if negb (present e) then 0
  else if user_ && negb (user e) then 0
  else if writeable_ && negb (writeable e) then 0
  else addr_extract e + Z.land v PAGE_MASK.

Lemma walk_bind a dir p t i B (f : option Z -> M B) :
  tree a dir -> path_ok (p ++ [i]) -> tab (heap a) dir p = Some t ->
  (walk_level t i ≫= f) a = f (tab (heap a) dir (p ++ [i])) a.
Proof.
  intros Htree Hp Ht. apply m_bind. unfold walk_level. rewrite (m_bind _ _ _ _ _ (get_e_val _ _)).
  assert (Hs : tab (heap a) dir (p ++ [i]) = step (heap a) t i) by (by rewrite tab_snoc, Ht).
  rewrite Hs. unfold step. destruct (present _) eqn:E; cbn [negb]; [|done].
  assert (length p <= 2)%nat by (destruct Hp as [_ Hl]; rewrite length_app in Hl; cbn in Hl; lia).
  by rewrite (tree_small a dir Htree p t i (path_ok_app _ _ Hp) ltac:(done) (path_ok_last _ _ Hp)).
Qed.

Lemma path_of_app v : path_of v = [v_pml4 v; v_pdpt v] ++ [v_pd v].
Proof. done. Qed.

Lemma get_entry_val a dir v :
  tree a dir -> addr_canonical v = true ->
  get_entry dir v a = Val ((fun pt => entry pt (v_pt v)) <$> tab (heap a) dir (path_of v)) a.
Proof.
  intros Htree Hv. unfold get_entry. rewrite Hv. cbn [negb].
  pose proof (path_of_ok v) as Hp3. rewrite path_of_app in *.
  pose proof (path_ok_app _ _ Hp3) as Hp2.
  change [v_pml4 v; v_pdpt v] with ([v_pml4 v] ++ [v_pdpt v]) in Hp2.
  pose proof (path_ok_app _ _ Hp2) as Hp1.
  rewrite (walk_bind a dir [] dir) by done. cbn [app].
  destruct (tab (heap a) dir [v_pml4 v]) as [t1|] eqn:E1.
  - rewrite (walk_bind a dir [v_pml4 v] t1) by done. cbn [app].
    destruct (tab (heap a) dir [v_pml4 v; v_pdpt v]) as [t2|] eqn:E2.
    + rewrite (walk_bind a dir [v_pml4 v; v_pdpt v] t2) by done.
      cbn [app]. by destruct (tab (heap a) dir [v_pml4 v; v_pdpt v; v_pd v]).
    + change [v_pml4 v; v_pdpt v; v_pd v] with ([v_pml4 v; v_pdpt v] ++ [v_pd v]).
      by rewrite (tab_None _ _ _ _ E2).
  - change [v_pml4 v; v_pdpt v; v_pd v] with ([v_pml4 v] ++ [v_pdpt v; v_pd v]).
    by rewrite (tab_None _ _ _ _ E1).
Qed.

Lemma virt2phys_val a dir v u w :
  tree a dir -> addr_canonical v = true ->
  pagedir_virt2phys dir v u w a = Val (translate (leaf (heap a) dir v) v u w) a.
Proof.
  intros Htree Hv. unfold pagedir_virt2phys.
  rewrite (m_bind _ _ _ _ _ (get_entry_val a dir v Htree Hv)). unfold leaf, translate.
  destruct (tab (heap a) dir (path_of v)) as [pt|]; cbn [fmap option_fmap option_map]; [|done].
  rewrite (m_bind _ _ _ _ _ (get_e_val _ _)).
  destruct (present _); cbn [negb]; [|done].
  destruct (u && _); [done|]. by destruct (w && _).
Qed.

(** ** The last level *)

(** The code compares 36 bits of the page number: what it takes for canonical
    includes addresses that differ above bit 47 only. *)
Definition same_page (v v' : Z) : bool := (v / PAGE_SIZE) mod 2 ^ 36 =? (v' / PAGE_SIZE) mod 2 ^ 36.

Lemma bits_div v lo n : 0 <= lo -> 0 <= n -> bits v lo n = (v / 2 ^ lo) mod 2 ^ n.
Proof. intros. unfold bits. by rewrite Z.land_ones, Z.shiftr_div_pow2. Qed.

Lemma same_page_path v v' :
  same_page v v' = true <-> path_of v = path_of v' /\ v_pt v = v_pt v'.
Proof.
  unfold same_page, path_of, v_pml4, v_pdpt, v_pd, v_pt, PAGE_SIZE. rewrite Z.eqb_eq.
  rewrite !bits_div by lia.
  set (q := v / 4096). set (q' := v' / 4096).
  assert (H : forall x, x / 2 ^ 12 = x / 4096 /\ x / 2 ^ 21 = x / 4096 / 2 ^ 9 /\
    x / 2 ^ 30 = x / 4096 / 2 ^ 18 /\ x / 2 ^ 39 = x / 4096 / 2 ^ 27)
    by (intros x; rewrite !Z.div_div by lia; done).
  destruct (H v) as (->&->&->&->), (H v') as (->&->&->&->). fold q q'.
  clearbody q q'. clear H v v'.
  assert (Hs : forall x, x mod 2 ^ 36 = x mod 2 ^ 9 + 2 ^ 9 * (x / 2 ^ 9 mod 2 ^ 9) +
    2 ^ 18 * (x / 2 ^ 18 mod 2 ^ 9) + 2 ^ 27 * (x / 2 ^ 27 mod 2 ^ 9)).
  { intros x. Z.div_mod_to_equations; lia. }
  split.
  - intros E. rewrite !Hs in E.
    pose proof (Z.mod_pos_bound q (2 ^ 9)). pose proof (Z.mod_pos_bound q' (2 ^ 9)).
    pose proof (Z.mod_pos_bound (q / 2 ^ 9) (2 ^ 9)). pose proof (Z.mod_pos_bound (q' / 2 ^ 9) (2 ^ 9)).
    pose proof (Z.mod_pos_bound (q / 2 ^ 18) (2 ^ 9)). pose proof (Z.mod_pos_bound (q' / 2 ^ 18) (2 ^ 9)).
    pose proof (Z.mod_pos_bound (q / 2 ^ 27) (2 ^ 9)). pose proof (Z.mod_pos_bound (q' / 2 ^ 27) (2 ^ 9)).
    split; [f_equal; [|f_equal; [|f_equal]]|]; lia.
  - intros [[= E1 E2 E3] E4]. rewrite !Hs. congruence.
Qed.

Section last_level.
Context (a : alloc) (dir virt pt e : Z).
Context (Ha : machine_ok a) (Htree : tree a dir) (Hs : is_size e).
Context (Ht : tab (heap a) dir (path_of virt) = Some pt).

Let a' := set_heap (stq (heap a) (entry pt (v_pt virt)) e) a.

Let pt_page : is_page a pt.
Proof. eapply tree_page; [done|apply path_of_ok|exact Ht]. Qed.

Let other_entry t j : is_page a t -> idx j -> (t, j) <> (pt, v_pt virt) ->
  ldq (heap a') (entry t j) = ldq (heap a) (entry t j).
Proof.
  intros Hp Hj Hne. apply ldq_ext. intros b Hb. apply ld_stq.
  assert (Hv : idx (v_pt virt)) by (apply idx_bits; lia).
  pose proof (entry_apart a t j pt (v_pt virt) Ha Hp pt_page Hj Hv Hne). lia.
Qed.

Lemma tab_last q : path_ok q -> tab (heap a') dir q = tab (heap a) dir q.
Proof.
  induction q as [|j q IH] using rev_ind; intros Hq; [done|].
  pose proof (path_ok_app _ _ Hq) as Hq'. rewrite !tab_snoc, IH by done.
  destruct (tab (heap a) dir q) as [t|] eqn:E; [|done].
  change (step (heap a') t j = step (heap a) t j). unfold step.
  rewrite other_entry; [done|by eapply tree_page|by eapply path_ok_last|].
  intros [= -> ->]. pose proof (tree_inj a dir Htree q (path_of virt) pt Hq' (path_of_ok _) E Ht) as Hp.
  destruct Hq as [_ Hl]. rewrite Hp, length_app in Hl. cbn in Hl. lia.
Qed.

Lemma tree_last : tree a' dir.
Proof.
  split.
  - intros p t Hp H. rewrite tab_last in H by done. exact (tree_page a dir Htree p t Hp H).
  - intros p q t Hp Hq H1 H2. rewrite tab_last in H1, H2 by done. by eapply tree_inj.
  - intros p t j Hp Hl Hj H. rewrite tab_last in H by done.
    rewrite other_entry; [by eapply tree_small|by eapply tree_page|done|].
    intros [= -> ->]. pose proof (tree_inj a dir Htree p (path_of virt) pt Hp (path_of_ok _) H Ht) as E.
    rewrite E in Hl. cbn in Hl. lia.
Qed.

Lemma leaf_last v :
  leaf (heap a') dir v = if same_page v virt then e else leaf (heap a) dir v.
Proof.
  unfold leaf. rewrite tab_last by apply path_of_ok.
  destruct (same_page v virt) eqn:E.
  - apply same_page_path in E as [-> ->]. rewrite Ht. by apply ldq_stq_eq.
  - destruct (tab (heap a) dir (path_of v)) as [t|] eqn:Et; [|done].
    apply other_entry; [eapply tree_page; [done|apply path_of_ok|done]|apply idx_bits; lia|].
    intros [= -> Hpt]. assert (Hp : path_of v = path_of virt)
      by (eapply (tree_inj a dir Htree); [apply path_of_ok..|done|done]).
    assert (same_page v virt = true) by (by apply same_page_path). congruence.
Qed.
End last_level.

(** A new page directory is the empty tree. *)
Lemma pagedir_new_spec a n :
  machine_ok a -> free_pages a (S n) ->
  exists dir a', pagedir_new a = Val dir a' /\ machine_ok a' /\ tree a' dir /\ free_pages a' n /\
    forall v, leaf (heap a') dir v = 0.
Proof.
  intros Ha Hf. destruct (page_zalloc_spec a n Ha Hf) as
    (z&k&a'&E&Ha'&Hf'&Hz&Hk&_&Haddr&Hcount&Hused&Hld).
  assert (Hzero : forall j, idx j -> ldq (heap a') (entry z j) = 0).
  { intros j Hj. apply ldq_zero. intros b Hb. unfold entry, idx in *. rewrite Hld.
    by rewrite decide_True by (unfold PAGE_SIZE; lia). }
  assert (Htab : forall p t, path_ok p -> tab (heap a') z p = Some t -> p = [] /\ t = z).
  { intros p t Hp H. destruct p as [|i p]; [by injection H as <-|].
    exfalso. assert (Hi : idx i) by (destruct Hp as [Hp _]; by apply Forall_cons in Hp as [? _]).
    change (i :: p) with ([i] ++ p) in H. rewrite tab_None in H; [done|].
    change (step (heap a') z i = None). unfold step. by rewrite Hzero. }
  exists z, a'. split; [exact E|]. split; [done|]. split; [split|split; [done|]].
  - intros p t Hp H. destruct (Htab p t Hp H) as [_ ->]. exists k.
    split; [by rewrite Hcount|]. split; [rewrite Hz; unfold page_at; by rewrite Haddr|].
    rewrite Hused by lia. by case_decide.
  - intros p q t Hp Hq H1 H2. by destruct (Htab p t Hp H1) as [-> _], (Htab q t Hq H2) as [-> _].
  - intros p t i Hp _ Hi H. destruct (Htab p t Hp H) as [_ ->]. by rewrite Hzero.
  - intros v. unfold leaf. destruct (tab _ _ _) as [t|] eqn:Et; [|done].
    destruct (Htab _ _ (path_of_ok v) Et) as [? _]. done.
Qed.

(** The entry that maps a frame. *)
Definition page_entry_of (e phys : Z) (u w : bool) : Z :=
  set_user (set_writeable (set_present (set_address e (Z.shiftr phys 12)) true) w) u.

Lemma translate_page_entry e phys u w v u' w' :
  0 <= phys < 2 ^ 52 ->
  translate (page_entry_of e phys u w) v u' w' =
  if (u' && negb u) || (w' && negb w) then 0 else phys - phys mod PAGE_SIZE + v mod PAGE_SIZE.
Proof.
  intros Hp. unfold translate, page_entry_of.
  rewrite present_set_user, present_set_writeable, present_set_present, user_set_user.
  rewrite writeable_set_user, writeable_set_writeable. cbn [negb].
  destruct (u' && negb u); [done|]. destruct (w' && negb w); [done|]. cbn [orb].
  unfold set_user, set_writeable, set_present. rewrite !addr_extract_set_flag by lia.
  change PAGE_MASK with (Z.ones 12). rewrite Z.land_ones by lia. change (2 ^ 12) with PAGE_SIZE.
  f_equal.
  assert (Hshift : Z.shiftr phys 12 = Z.shiftr (phys - phys mod PAGE_SIZE) 12).
  { rewrite !Z.shiftr_div_pow2 by lia. change (2 ^ 12) with 4096. unfold PAGE_SIZE. Z.div_mod_to_equations; lia. }
  rewrite Hshift. unfold PAGE_SIZE in *. apply addr_extract_set_address; unfold PAGE_SIZE.
  - pose proof (Z.mod_le phys 4096). pose proof (Z.mod_pos_bound phys 4096). lia.
  - rewrite Zminus_mod_idemp_r, Z.sub_diag. done.
Qed.

(** [pagedir_map] in terms of entries. *)
Lemma pagedir_map_leaf a dir virt phys u w :
  machine_ok a -> tree a dir -> free_pages a 3 -> addr_canonical virt = true ->
  if present (leaf (heap a) dir virt) then pagedir_map dir virt phys u w a = Fault Panic
  else exists a', pagedir_map dir virt phys u w a = Val () a' /\ machine_ok a' /\ tree a' dir /\
    forall v, leaf (heap a') dir v =
      if same_page v virt then page_entry_of (leaf (heap a) dir virt) phys u w
      else leaf (heap a) dir v.
Proof.
  intros Ha Htree Hfree Hv. pose proof (path_of_ok virt) as Hp3. rewrite path_of_app in Hp3.
  pose proof (path_ok_app _ _ Hp3) as Hp2.
  change [v_pml4 virt; v_pdpt virt] with ([v_pml4 virt] ++ [v_pdpt virt]) in Hp2.
  pose proof (path_ok_app _ _ Hp2) as Hp1.
  destruct (map_level_spec a dir dir (v_pml4 virt) [] 2) as (t1&a1&E1&Ha1&Ht1&Hf1&T1&L1);
    [done..|cbn; lia|done|].
  destruct (map_level_spec a1 dir t1 (v_pdpt virt) [v_pml4 virt] 1)
    as (t2&a2&E2&Ha2&Ht2&Hf2&T2&L2); [done..|cbn; lia|done|].
  destruct (map_level_spec a2 dir t2 (v_pd virt) [v_pml4 virt; v_pdpt virt] 0)
    as (t3&a3&E3&Ha3&Ht3&Hf3&T3&L3); [done..|cbn; lia|done|].
  assert (Hl : leaf (heap a3) dir virt = leaf (heap a) dir virt) by (by rewrite L3, L2, L1).
  assert (Hrun : pagedir_map dir virt phys u w a =
    (if negb (present (leaf (heap a) dir virt)) then
       set_e (entry t3 (v_pt virt)) (page_entry_of (leaf (heap a) dir virt) phys u w)
     else panic) a3).
  { unfold pagedir_map. rewrite Hv. cbn [negb]. rewrite (m_bind _ _ _ _ _ E1), (m_bind _ _ _ _ _ E2).
    rewrite (m_bind _ _ _ _ _ E3), (m_bind _ _ _ _ _ (get_e_val _ _)). rewrite <- Hl.
    unfold leaf. cbn [app] in T3. unfold path_of. by rewrite T3. }
  rewrite Hrun. destruct (present _); cbn [negb]; [done|]. set (e := page_entry_of _ _ _ _).
  assert (Hs : is_size e).
  { subst e. unfold page_entry_of, set_user, set_writeable, set_present, set_address.
    repeat apply set_bits_range; try lia. rewrite <- Hl. by apply leaf_range. }
  eexists. split; [apply set_e_val|]. split; [by apply machine_ok_stq|].
  split; [by eapply tree_last|]. intros v.
  rewrite (leaf_last a3 dir virt t3 e Ha3 Ht3 Hs T3 v). by rewrite L3, L2, L1.
Qed.

(** C3: [pagedir_map] maps exactly one page.  With three free pages and no
    mapping at [virt] it succeeds; afterwards [pagedir_virt2phys] translates the
    addresses of that page to the frame, for the accesses its permissions
    allow, and every other address as before, and the tables are again a tree.
    If the page is mapped already it panics. *)
Theorem pagedir_map_inserts a dir virt phys u w :
  machine_ok a -> tree a dir -> free_pages a 3 -> addr_canonical virt = true ->
  0 <= phys < 2 ^ 52 ->
  if present (leaf (heap a) dir virt) then pagedir_map dir virt phys u w a = Fault Panic
  else exists a', pagedir_map dir virt phys u w a = Val () a' /\ machine_ok a' /\ tree a' dir /\
    forall v u' w', addr_canonical v = true ->
    exists r, pagedir_virt2phys dir v u' w' a = Val r a /\
      pagedir_virt2phys dir v u' w' a' = Val
        (if same_page v virt
         then if (u' && negb u) || (w' && negb w) then 0
              else phys - phys mod PAGE_SIZE + v mod PAGE_SIZE
         else r) a'.
Proof.
  intros Ha Htree Hfree Hv Hphys. pose proof (pagedir_map_leaf a dir virt phys u w Ha Htree Hfree Hv) as H.
  destruct (present _); [done|]. destruct H as (a'&E&Ha'&Htree'&Hl).
  exists a'. split_and!; try done. intros v u' w' Hv'.
  exists (translate (leaf (heap a) dir v) v u' w'). split; [by apply virt2phys_val|].
  rewrite virt2phys_val, Hl by done.
  destruct (same_page v virt); [by rewrite translate_page_entry|done].
Qed.

(** Mapping [0x200000] read-only in a new address space. *)
Lemma pagedir_map_inserts_witness :
  let a := mkAlloc 0x100000 [0; 0] 0 0 ∅ in
  exists dir a1 a2, pagedir_new a = Val dir a1 /\
    pagedir_map dir 0x200000 0x105000 true false a1 = Val () a2 /\
    pagedir_virt2phys dir 0x200123 true false a2 = Val 0x105123 a2 /\
    pagedir_virt2phys dir 0x200123 true true a2 = Val 0 a2.
Proof.
  intros a. destruct (pagedir_new_spec a 3) as (dir&a1&E&Ha1&Ht1&Hf1&L1).
  - split; [by split|]. split; [done|]. split; [done|]. split; [done|]. intros b. change (is_byte (ld ∅ b)).
    unfold ld. rewrite lookup_empty. by split.
  - exists [0; 1; 2; 3]. split_and!; [apply (bool_decide_unpack _); reflexivity|done|].
    by repeat constructor.
  - pose proof (pagedir_map_inserts a1 dir 0x200000 0x105000 true false Ha1 Ht1 Hf1 eq_refl
      ltac:(lia)) as H.
    rewrite L1 in H. destruct H as (a2&E2&_&_&H).
    exists dir, a1, a2. split; [exact E|]. split; [exact E2|].
    destruct (H 0x200123 true false eq_refl) as (r&_&H1).
    destruct (H 0x200123 true true eq_refl) as (r'&_&H2). split; [exact H1|exact H2].
Defined.
