(* ===== verification/BootTables.v ===== *)
(** * BootTables

    The tables of the processor that the kernel sets up once, before any of its
    other code runs: the page tables it boots with
    ([src/src/kernel/arch/amd64/32/paging.c]), the segments and the task state
    ([32/gdt.c]), the interrupt gates ([interrupts/idt.c]) and the interrupt
    controllers ([interrupts/irq.c]).  What the hardware does with them, which the
    theorems are about, is a function of its own: the page walk with large pages,
    the delivery of an interrupt, the initialisation of the two controllers. *)

From S2P Require Import Prelude Mem Malloc Paging PageTable.

(** ** The page tables at boot *)

Definition set_large (e : Z) (b : bool) : Z := set_bits e 7 1 (Z.b2z b).

(** [pml4_identity], [pdpte_low] and [pde_low]. *)
Record boot_tables := mkBootTables {
  pml4_identity : list Z; pdpte_low : list Z; pde_low : list (list Z);
}.

Section paging.
(** Where the linker has put them. *)
Context (a_pml4 a_pdpte a_pde : Z).

(** [uintptr_t] has 32 bits here. *)
Definition table_entry (table : Z) : Z :=
  set_address (set_writeable (set_present 0 true) true) (Z.shiftr (u32 table) 12).

Definition large_entry (i j : nat) : Z :=
  set_address (set_large (set_writeable (set_present 0 true) true) true)
    (Z.shiftl (Z.of_nat (i * 512 + j)) 9).

Definition fill_pd (i : nat) (pd : list Z) : list Z :=
  foldl (fun pd j => <[j := large_entry i j]> pd) pd (seq 0 512).

Definition fill_low (t : list Z * list (list Z)) (i : nat) : list Z * list (list Z) :=
  (<[i := table_entry (a_pde + 4096 * Z.of_nat i)]> t.1, alter (fill_pd i) i t.2).

Definition pml4_identity_init : boot_tables :=
  let '(pdpte, pde) := foldl fill_low (replicate 512 0, replicate 4 (replicate 512 0)) (seq 0 4) in
  mkBootTables (<[0%nat := table_entry a_pdpte]> (replicate 512 0)) pdpte pde.

(** The entry that is stored at a physical address. *)
Definition qword_at (t : boot_tables) (a : Z) : option Z :=
  if (a_pml4 <=? a) && (a <? a_pml4 + 4096) then pml4_identity t !! Z.to_nat ((a - a_pml4) / 8)
  else if (a_pdpte <=? a) && (a <? a_pdpte + 4096) then pdpte_low t !! Z.to_nat ((a - a_pdpte) / 8)
  else if (a_pde <=? a) && (a <? a_pde + 4 * 4096) then
    pd ← pde_low t !! Z.to_nat ((a - a_pde) / 4096); pd !! Z.to_nat ((a - a_pde) mod 4096 / 8)
  else None.

(** A virtual address is translated: [Some] of the physical address, whether it
    may be written, and whether user code may use it. *)
Inductive translation := Mapped (phys : Z) (w u : bool) | NotPresent | NoTable.

Definition mapped (e : Z) (shift v : Z) (w u : bool) : translation :=
  Mapped (Z.lor (Z.shiftl (bits e shift (52 - shift)) shift) (bits v 0 shift)) w u.

(** One level: what its entry says, or the walk of the table it points to. *)
Definition walk_from (t : boot_tables) (table i : Z) (shift : Z) (v : Z) (w u : bool)
    (next : Z -> bool -> bool -> translation) : translation :=
  match qword_at t (table + 8 * i) with
  | None => NoTable
  | Some e =>
      let w := w && writeable e in
      let u := u && user e in
      if negb (present e) then NotPresent
      else if (shift =? 12) || ((shift <? 39) && large e) then mapped e shift v w u
      else next (addr_extract e) w u
  end.

(** The upper 17 bits are the same. *)
Definition canonical (v : Z) : bool := (v <? 2 ^ 47) || (2 ^ 64 - 2 ^ 47 <=? v).

(** The walk of the processor, from the table in [cr3]. *)
Definition cpu_walk (t : boot_tables) (v : Z) : translation :=
  if negb (canonical v) then NotPresent
  else
    walk_from t a_pml4 (v_pml4 v) 39 v true true (fun pdpt w u =>
    walk_from t pdpt (v_pdpt v) 30 v w u (fun pd w u =>
    walk_from t pd (v_pd v) 21 v w u (fun pt w u =>
    walk_from t pt (v_pt v) 12 v w u (fun _ _ _ => NoTable)))).

End paging.

(** ** Segments *)

Definition SEG_null : nat := 0.
Definition SEG_r0code : nat := 1.
Definition SEG_r0data : nat := 2.
Definition SEG_r3code32 : nat := 3.
Definition SEG_r3data : nat := 4.
Definition SEG_r3code : nat := 5.
Definition SEG_TSS : nat := 6.
Definition SEG_TSS2 : nat := 7.
Definition SEG_end : nat := 8.

(** Bit fields: position, width, value. *)
Definition pack (fields : list (Z * Z * Z)) : Z :=
  foldl (fun v '(lo, n, x) => set_bits v lo n x) 0 fields.

Record gdt_entry := mkGdt {
  limit_low : Z; base_low : Z; accessed : Z; rw : Z; conforming : Z; code : Z;
  codeordata : Z; ring : Z; g_present : Z; limit_high : Z; available : Z;
  long_mode : Z; x32 : Z; gran : Z; base_high : Z;
}.

Definition gdt_bits (e : gdt_entry) : Z :=
  pack [(0, 16, limit_low e); (16, 24, base_low e); (40, 1, accessed e); (41, 1, rw e);
        (42, 1, conforming e); (43, 1, code e); (44, 1, codeordata e); (45, 2, ring e);
        (47, 1, g_present e); (48, 4, limit_high e); (52, 1, available e);
        (53, 1, long_mode e); (54, 1, x32 e); (55, 1, gran e); (56, 8, base_high e)].

Definition gdt_fillout (ring : Z) (code : bool) : gdt_entry := {|
  limit_low := 0xFFFF; limit_high := 0xF; gran := 1; base_low := 0; base_high := 0;
  ring := ring; code := Z.b2z code;
  accessed := 0; rw := 1; conforming := 0; codeordata := 1; g_present := 1;
  long_mode := 1; available := 1; x32 := 0;
|}.

Record tss_entry := mkTss { rsp : list Z; ist : list Z }.

Definition sizeof_TSS : Z := 104.

(** The layout of the packed structure; the fields that are left out stay 0. *)
Definition tss_bytes (t : tss_entry) : list Z :=
  le_bytes 4 0 ++ concat (le_bytes 8 <$> rsp t) ++ concat (le_bytes 8 <$> ist t) ++
  le_bytes 8 0 ++ le_bytes 2 0 ++ le_bytes 2 0.

Section gdt.
(** The addresses of [TSS] and of [_isr_mini_stack]. *)
Context (tss_addr isr_mini_stack : Z).

Definition TSS : tss_entry :=
  mkTss (foldl (fun l i => <[i := isr_mini_stack]> l) (replicate 3 0) (seq 0 3))
    (<[1%nat := isr_mini_stack]> (replicate 8 0)).

Definition tss_descriptor : gdt_entry := {|
  limit_low := sizeof_TSS; limit_high := Z.shiftr sizeof_TSS 16; gran := 0;
  base_low := tss_addr; base_high := Z.shiftr tss_addr 24;
  accessed := 1; rw := 0; conforming := 0; code := 1; codeordata := 0; ring := 0;
  g_present := 1; available := 1; long_mode := 0; x32 := 0;
|}.

(** Static objects are 0 at first. *)
Definition gdt_init : list Z :=
  let gdt := replicate SEG_end 0 in
  let gdt := <[SEG_null := 0]> gdt in
  let gdt := <[SEG_r0code := gdt_bits (gdt_fillout 0 true)]> gdt in
  let gdt := <[SEG_r0data := gdt_bits (gdt_fillout 0 false)]> gdt in
  let gdt := <[SEG_r3code32 := gdt_bits (gdt_fillout 3 true)]> gdt in
  let gdt := <[SEG_r3data := gdt_bits (gdt_fillout 3 false)]> gdt in
  let gdt := <[SEG_r3code := gdt_bits (gdt_fillout 3 true)]> gdt in
  let gdt := <[SEG_TSS := gdt_bits tss_descriptor]> gdt in
  <[SEG_TSS2 := 0]> gdt.
End gdt.

(** ** Interrupt gates *)

Record idt_entry := mkIdt {
  offset_low : Z; seg : Z; i_ist : Z; i_type : Z; i_ring : Z; i_present : Z;
  offset_mid : Z; offset_high : Z;
}.

Definition idt_bits (e : idt_entry) : Z :=
  pack [(0, 16, offset_low e); (16, 16, seg e); (32, 8, i_ist e); (40, 4, i_type e);
        (44, 1, 0); (45, 2, i_ring e); (47, 1, i_present e); (48, 16, offset_mid e);
        (64, 32, offset_high e); (96, 32, 0)].

Definition idt_gate (isr_stubs : Z) (i : nat) : idt_entry :=
  let offset := u64 (isr_stubs + Z.of_nat i * 8) in {|
    offset_low := offset; offset_mid := Z.shiftr offset 16; offset_high := Z.shiftr offset 32;
    seg := Z.shiftl (Z.of_nat SEG_r0code) 3; i_present := 1; i_type := 0xE; i_ist := 1; i_ring := 0;
  |}.

Definition idt_prepare (isr_stubs : Z) : list Z :=
  foldl (fun idt i => <[i := idt_bits (idt_gate isr_stubs i)]> idt) (replicate 256 0) (seq 0 256).

(** ** What the processor does with an interrupt

    It looks up the gate, the code segment of its selector, and the stack, in the
    task state of which the descriptor holds the address. *)

Definition gate_offset (g : Z) : Z :=
  Z.lor (bits g 0 16) (Z.lor (Z.shiftl (bits g 48 16) 16) (Z.shiftl (bits g 64 32) 32)).

Definition seg_base (e : Z) : Z := Z.lor (bits e 16 24) (Z.shiftl (bits e 56 8) 24).

Definition seg_limit (e : Z) : Z :=
  let l := Z.lor (bits e 0 16) (Z.shiftl (bits e 48 4) 16) in
  if Z.testbit e 55 then l * 4096 + 4095 else l.

(** A present segment of 64-bit code. *)
Definition is_code64 (e : Z) : bool :=
  Z.testbit e 47 && Z.testbit e 44 && Z.testbit e 43 && Z.testbit e 53 && negb (Z.testbit e 54).

(** A present task state of 64-bit mode: its type is 9 or 11. *)
Definition is_tss64 (e : Z) : bool :=
  Z.testbit e 47 && negb (Z.testbit e 44) && ((bits e 40 4 =? 9) || (bits e 40 4 =? 11)).

(** Eight bytes of the task state; [read] reads a byte of memory. *)
Definition tss_qword (gdt : list Z) (read : Z -> Z) (off : Z) : option Z :=
  lo ← gdt !! SEG_TSS;
  hi ← gdt !! SEG_TSS2;
  if is_tss64 lo && (off + 7 <=? seg_limit lo) then
    let base := Z.lor (seg_base lo) (Z.shiftl (bits hi 0 32) 32) in
    Some (le_value ((fun k => read (base + off + Z.of_nat k)) <$> seq 0 8))
  else None.

(** Where execution continues: instruction pointer, stack pointer, ring, and
    whether interrupts stay on.  [None] is a fault. *)
Definition deliver (idt gdt : list Z) (read : Z -> Z) (vector : nat) : option (Z * Z * Z * bool) :=
  g ← idt !! vector;
  let type := bits g 40 4 in
  if negb (Z.testbit g 47) || Z.testbit g 44 || negb ((type =? 0xE) || (type =? 0xF)) then None
  else
    cs ← gdt !! Z.to_nat (bits g 19 13);
    if negb (is_code64 cs) then None
    else
      let cpl := bits cs 45 2 in
      let n := bits g 32 3 in
      sp ← tss_qword gdt read (if n =? 0 then 4 + 8 * cpl else 36 + 8 * (n - 1));
      Some (gate_offset g, sp, cpl, type =? 0xF).

(** ** The interrupt controllers *)

Definition PIC1 : Z := 0x20.
Definition PIC2 : Z := 0xA0.
Definition IRQ_IBASE : Z := 0x20.
Definition IRQ_COM1 : Z := 4.
Definition IRQ_PS2KB : Z := 1.
Definition IRQ_PS2MOUSE : Z := 12.
Definition IRQ_RTL8139 : Z := 11.
Definition IRQ_HPET : Z := 8.

(** [mask &= ~(1 << line)] on a [uint16_t]. *)
Definition irq_unmask (mask line : Z) : Z := u16 (Z.land mask (Z.lnot (Z.shiftl 1 line))).

Definition irq_mask : Z :=
  let mask := 0xffff in
  let mask := irq_unmask mask 2 in
  let mask := irq_unmask mask IRQ_COM1 in
  let mask := irq_unmask mask IRQ_PS2KB in
  let mask := irq_unmask mask IRQ_PS2MOUSE in
  let mask := irq_unmask mask IRQ_RTL8139 in
  irq_unmask mask IRQ_HPET.

(** The writes to ports, in order. *)
Definition irq_init : list (Z * Z) :=
  [(PIC1, 0x11); (PIC2, 0x11); (PIC1 + 1, IRQ_IBASE); (PIC2 + 1, IRQ_IBASE + 8);
   (PIC1 + 1, 0x4); (PIC2 + 1, 0x2); (PIC1 + 1, 0x1); (PIC2 + 1, 0x1);
   (PIC1 + 1, Z.land irq_mask 0xff); (PIC2 + 1, Z.land (Z.shiftr irq_mask 8) 0xff)].

Definition irq_eoi (line : Z) : list (Z * Z) :=
  (PIC1, 0x20) :: (if 8 <=? line then [(PIC2, 0x20)] else []).

(** One of the controllers (8259): how many words of its initialisation are
    still to come, its vectors, what is masked, and what is in service. *)
Record pic := mkPic { p_icw : nat; p_base : Z; p_mask : Z; p_service : Z }.

#[export] Instance pic_settable : Settable pic := fun p =>
  mkPic (p_icw p) (p_base p) (p_mask p) (p_service p).

Definition pic_command (v : Z) (p : pic) : pic :=
  if Z.testbit v 4 then mkPic 1 0 0 0
  else if v =? 0x20 then                       (* the end of the interrupt of the highest priority *)
    p <| p_service ::= fun s => Z.land s (s - 1) |>
  else p.

Definition pic_data (v : Z) (p : pic) : pic :=
  match p_icw p with
  | 1%nat => p <| p_base := Z.land v 0xf8 |> <| p_icw := 2%nat |>
  | 2%nat => p <| p_icw := 3%nat |>
  | 3%nat => p <| p_icw := 0%nat |>
  | _ => p <| p_mask := v |>
  end.

Definition pic_out (w : Z * Z) (s : pic * pic) : pic * pic :=
  let '(port, v) := w in
  if port =? PIC1 then (pic_command v s.1, s.2)
  else if port =? PIC1 + 1 then (pic_data v s.1, s.2)
  else if port =? PIC2 then (s.1, pic_command v s.2)
  else if port =? PIC2 + 1 then (s.1, pic_data v s.2)
  else s.

Definition pic_outs (l : list (Z * Z)) (s : pic * pic) : pic * pic := foldl (fun s w => pic_out w s) s l.

(** The vector at which line [l] reaches the processor, if it is let through:
    the second controller's lines go through line 2 of the first one. *)
Definition pic_vector (s : pic * pic) (l : Z) : option Z :=
  if l <? 8 then
    if Z.testbit (p_mask s.1) l then None else Some (p_base s.1 + l)
  else if Z.testbit (p_mask s.1) 2 || Z.testbit (p_mask s.2) (l - 8) then None
  else Some (p_base s.2 + (l - 8)).

(** ** Proofs *)

Lemma lookup_fill {A} (f : nat -> A) n : forall l j, (j < n <= length l)%nat ->
  foldl (fun l j => <[j := f j]> l) l (seq 0 n) !! j = Some (f j).
Proof.
  assert (forall n l, length (foldl (fun (l : list A) j => <[j := f j]> l) l (seq 0 n)) = length l) as Hlen.
  { clear. induction n as [|n IH]; intros l; [done|]. rewrite seq_S, foldl_app. cbn. by rewrite length_insert. }
  induction n as [|n IH]; intros l j Hj; [lia|]. rewrite seq_S, foldl_app. cbn [foldl Nat.add].
  destruct (decide (j = n)) as [->|Hne].
  - apply list_lookup_insert_eq. rewrite Hlen. lia.
  - rewrite list_lookup_insert_ne by done. apply IH. lia.
Qed.

Section boot_paging.
Context (a_pml4 a_pdpte a_pde : Z).

(** The tables are pages of low memory, one behind the other or not. *)
Definition placed : Prop :=
  0 <= a_pml4 < 2 ^ 32 /\ 0 <= a_pdpte < 2 ^ 32 /\ 0 <= a_pde < 2 ^ 32 - 4 * 4096 /\
  a_pml4 mod 4096 = 0 /\ a_pdpte mod 4096 = 0 /\ a_pde mod 4096 = 0 /\
  a_pml4 <> a_pdpte /\ (a_pml4 < a_pde \/ a_pde + 4 * 4096 <= a_pml4) /\
  (a_pdpte < a_pde \/ a_pde + 4 * 4096 <= a_pdpte).

Hypothesis Hp : placed.
Let T := pml4_identity_init a_pdpte a_pde.

Lemma pml4_lookup i : (i < 512)%nat ->
  pml4_identity T !! i = Some (if decide (i = 0%nat) then table_entry a_pdpte else 0).
Proof.
  intros Hi. change (pml4_identity T) with (<[0%nat := table_entry a_pdpte]> (replicate 512 0)). case_decide.
  - subst. rewrite list_lookup_insert_eq; [done|]. rewrite length_replicate. lia.
  - rewrite list_lookup_insert_ne by done. by apply lookup_replicate_2.
Qed.

Lemma pdpte_lookup i : (i < 512)%nat ->
  pdpte_low T !! i = Some (if decide (i < 4)%nat then table_entry (a_pde + 4096 * Z.of_nat i) else 0).
Proof.
  intros Hi. change (pdpte_low T) with
    (<[3%nat := table_entry (a_pde + 4096 * 3)]> (<[2%nat := table_entry (a_pde + 4096 * 2)]>
      (<[1%nat := table_entry (a_pde + 4096 * 1)]> (<[0%nat := table_entry (a_pde + 4096 * 0)]> (replicate 512 0))))).
  rewrite !list_lookup_insert by (rewrite ?length_insert, length_replicate; lia).
  rewrite !length_insert, length_replicate.
  destruct i as [|[|[|[|i]]]]; try done. by apply lookup_replicate_2.
Qed.

Lemma pde_lookup i j : (i < 4)%nat -> (j < 512)%nat ->
  (pd ← pde_low T !! i; pd !! j) = Some (large_entry i j).
Proof.
  intros Hi Hj. assert (pde_low T !! i = Some (fill_pd i (replicate 512 0))) as ->
    by (do 4 (destruct i as [|i]; [reflexivity|]); lia).
  cbn [mbind option_bind]. unfold fill_pd. apply lookup_fill. rewrite length_replicate. lia.
Qed.
(** What is stored where the walk looks. *)
Lemma qword_pml4 i : 0 <= i < 512 ->
  qword_at a_pml4 a_pdpte a_pde T (a_pml4 + 8 * i) = Some (if i =? 0 then table_entry a_pdpte else 0).
Proof.
  intros Hi. unfold qword_at. rewrite (proj2 (Z.leb_le _ _)), (proj2 (Z.ltb_lt _ _)) by lia. cbn [andb].
  replace (Z.to_nat _) with (Z.to_nat i) by (Z.div_mod_to_equations; lia).
  rewrite pml4_lookup by lia. case_decide; case_match; zbool; try done; lia.
Qed.

Lemma qword_pdpte i : 0 <= i < 512 ->
  qword_at a_pml4 a_pdpte a_pde T (a_pdpte + 8 * i) = Some (if i <? 4 then table_entry (a_pde + 4096 * i) else 0).
Proof.
  intros Hi. unfold placed in Hp. unfold qword_at.
  assert ((a_pml4 <=? a_pdpte + 8 * i) && (a_pdpte + 8 * i <? a_pml4 + 4096) = false) as ->.
  { apply andb_false_iff. rewrite Z.leb_gt, Z.ltb_ge. Z.div_mod_to_equations; lia. }
  rewrite (proj2 (Z.leb_le _ _)), (proj2 (Z.ltb_lt _ _)) by lia. cbn [andb].
  replace (Z.to_nat _) with (Z.to_nat i) by (Z.div_mod_to_equations; lia).
  rewrite pdpte_lookup by lia. rewrite Z2Nat.id by lia. case_decide; case_match; zbool; try done; lia.
Qed.

Lemma qword_pde i j : 0 <= i < 4 -> 0 <= j < 512 ->
  qword_at a_pml4 a_pdpte a_pde T (a_pde + 4096 * i + 8 * j) = Some (large_entry (Z.to_nat i) (Z.to_nat j)).
Proof.
  intros Hi Hj. unfold placed in Hp. unfold qword_at.
  assert ((a_pml4 <=? a_pde + 4096 * i + 8 * j) && (a_pde + 4096 * i + 8 * j <? a_pml4 + 4096) = false) as ->.
  { apply andb_false_iff. rewrite Z.leb_gt, Z.ltb_ge. Z.div_mod_to_equations; lia. }
  assert ((a_pdpte <=? a_pde + 4096 * i + 8 * j) && (a_pde + 4096 * i + 8 * j <? a_pdpte + 4096) = false) as ->.
  { apply andb_false_iff. rewrite Z.leb_gt, Z.ltb_ge. Z.div_mod_to_equations; lia. }
  rewrite (proj2 (Z.leb_le _ _)), (proj2 (Z.ltb_lt _ _)) by lia. cbn [andb].
  replace (Z.to_nat ((_ - _) / 4096)) with (Z.to_nat i) by (Z.div_mod_to_equations; lia).
  replace (Z.to_nat (_ mod 4096 / 8)) with (Z.to_nat j) by (Z.div_mod_to_equations; lia).
  apply pde_lookup; lia.
Qed.

Lemma boot_table_entry_spec a : 0 <= a < 2 ^ 32 -> a mod 4096 = 0 ->
  let e := table_entry a in
  present e = true /\ writeable e = true /\ user e = false /\ large e = false /\ addr_extract e = a.
Proof.
  intros Ha Hm e. unfold e, table_entry. rewrite (u32_small a) by (unfold_words; lia).
  split_and!; try (unfold present, writeable, user, large, set_address; by rewrite testbit_set_bits by lia).
  apply addr_extract_set_address; [lia|done].
Qed.

Lemma large_entry_spec i j : (i < 4)%nat -> (j < 512)%nat ->
  let e := large_entry i j in
  present e = true /\ writeable e = true /\ user e = false /\ large e = true /\
  bits e 21 31 = Z.of_nat (i * 512 + j).
Proof.
  intros Hi Hj e.
  assert (Forall (fun i => Forall (fun j => let e := large_entry i j in
    (present e && writeable e && negb (user e) && large e && (bits e 21 31 =? Z.of_nat (i * 512 + j))) = true)
    (seq 0 512)) (seq 0 4)) as H by (apply (bool_decide_unpack _); by vm_compute).
  rewrite Forall_forall in H. specialize (H i ltac:(apply elem_of_seq; lia)). rewrite Forall_forall in H.
  specialize (H j ltac:(apply elem_of_seq; lia)). cbv zeta in H. fold e in H.
  rewrite !andb_true_iff, negb_true_iff, Z.eqb_eq in H. tauto.
Qed.

Lemma low_address v : 0 <= v < 2 ^ 32 ->
  canonical v = true /\ v_pml4 v = 0 /\ v_pdpt v = v / 2 ^ 30 /\ v_pd v = v / 2 ^ 21 mod 512 /\
  Z.lor (Z.shiftl (v / 2 ^ 21) 21) (bits v 0 21) = v.
Proof.
  intros Hv. unfold canonical, v_pml4, v_pdpt, v_pd. rewrite !bits_div by lia. split_and!.
  - apply orb_true_iff; left. apply Z.ltb_lt. lia.
  - rewrite Z.div_small by lia. done.
  - apply Z.mod_small. Z.div_mod_to_equations; lia.
  - done.
  - rewrite <- Z.shiftr_div_pow2 by lia. apply bit_eq. intros k Hk. rewrite <- bits_div by lia.
    rewrite Z.lor_spec, Z.shiftl_spec, testbit_bits, Z.add_0_r by lia.
    destruct (k <? 21) eqn:E; zbool; cbn [andb].
    + by rewrite Z.testbit_neg_r by lia.
    + rewrite Z.shiftr_spec by lia. rewrite orb_false_r. f_equal. lia.
Qed.

Lemma high_address v : 2 ^ 32 <= v < 2 ^ 64 -> canonical v = true -> v_pml4 v = 0 -> 4 <= v_pdpt v.
Proof.
  unfold canonical, v_pml4, v_pdpt. rewrite !bits_div by lia. intros Hv Hc H0.
  apply orb_true_iff in Hc as [Hc|Hc]; zbool; Z.div_mod_to_equations; lia.
Qed.
End boot_paging.

Lemma walk_table a_pml4 a_pdpte a_pde t table i shift v w u next e :
  qword_at a_pml4 a_pdpte a_pde t (table + 8 * i) = Some e -> present e = true -> large e = false -> shift <> 12 ->
  walk_from a_pml4 a_pdpte a_pde t table i shift v w u next = next (addr_extract e) (w && writeable e) (u && user e).
Proof.
  intros He Hpr Hl Hs. unfold walk_from. rewrite He, Hpr, Hl, andb_false_r, orb_false_r. cbn [negb].
  by rewrite (proj2 (Z.eqb_neq _ _)).
Qed.

Lemma walk_absent a_pml4 a_pdpte a_pde t table i shift v w u next :
  qword_at a_pml4 a_pdpte a_pde t (table + 8 * i) = Some 0 ->
  walk_from a_pml4 a_pdpte a_pde t table i shift v w u next = NotPresent.
Proof. intros He. unfold walk_from. by rewrite He. Qed.

(** C35: the page tables that the kernel boots with map the first four gigabytes to
    themselves, writable and for the kernel only, and nothing else: the walk of
    the processor, for every 64-bit address, wherever the linker has put the
    tables.  [pml4_identity] is also what [cr3] is set to whenever the kernel is
    entered. *)
Theorem boot_maps_identity a_pml4 a_pdpte a_pde v :
  placed a_pml4 a_pdpte a_pde -> 0 <= v < 2 ^ 64 ->
  cpu_walk a_pml4 a_pdpte a_pde (pml4_identity_init a_pdpte a_pde) v =
    if v <? 2 ^ 32 then Mapped v true false else NotPresent.
Proof.
  intros Hp Hv. pose proof Hp as (?&?&?&?&?&?&_).
  destruct (boot_table_entry_spec a_pdpte) as (P1&W1&U1&L1&A1); [done..|].
  pose proof (bits_range v 39 9 ltac:(lia) ltac:(lia)) as R4. fold (v_pml4 v) in R4.
  pose proof (bits_range v 30 9 ltac:(lia) ltac:(lia)) as R3. fold (v_pdpt v) in R3.
  assert (v_pml4 v = 0 -> qword_at a_pml4 a_pdpte a_pde (pml4_identity_init a_pdpte a_pde) (a_pml4 + 8 * v_pml4 v) =
    Some (table_entry a_pdpte)) as Q4 by (intros K4; by rewrite qword_pml4, K4).
  destruct (Z.ltb_spec v (2 ^ 32)) as [Hlo|Hhi].
  - destruct (low_address v) as (Hc&K4&K3&K2&Hsum); [lia|]. unfold cpu_walk. rewrite Hc. cbn [negb].
    rewrite (walk_table _ _ _ _ _ _ _ _ _ _ _ _ (Q4 K4) P1 L1), A1, W1, U1 by done.
    assert (0 <= v_pdpt v < 4) as Hi by (rewrite K3; Z.div_mod_to_equations; lia).
    destruct (boot_table_entry_spec (a_pde + 4096 * v_pdpt v)) as (P2&W2&U2&L2&A2);
      [lia|Z.div_mod_to_equations; lia|].
    pose proof (qword_pdpte a_pml4 _ _ Hp (v_pdpt v) R3) as Q3. rewrite (proj2 (Z.ltb_lt (v_pdpt v) 4)) in Q3 by lia.
    rewrite (walk_table _ _ _ _ _ _ _ _ _ _ _ _ Q3 P2 L2), A2, W2, U2 by done.
    assert (0 <= v_pd v < 512) as Hj by (rewrite K2; apply Z.mod_pos_bound; lia).
    destruct (large_entry_spec (Z.to_nat (v_pdpt v)) (Z.to_nat (v_pd v))) as (P3&W3&U3&L3&A3); [lia..|].
    unfold walk_from at 1. rewrite qword_pde by (done || lia). rewrite P3, W3, U3, L3. cbn [andb negb orb Z.eqb Z.ltb Z.compare Pos.eqb Pos.compare Pos.compare_cont].
    unfold mapped. cbn [Z.sub Z.add Z.opp Z.pos_sub]. change (52 - 21) with 31. rewrite A3.
    replace (Z.of_nat _) with (v / 2 ^ 21); [by rewrite Hsum|].
    rewrite Nat2Z.inj_add, Nat2Z.inj_mul, !Z2Nat.id by lia. rewrite K3, K2. change (Z.of_nat 512) with 512.
    Z.div_mod_to_equations; lia.
  - unfold cpu_walk. destruct (canonical v) eqn:Hc; [|done]. cbn [negb].
    destruct (decide (v_pml4 v = 0)) as [K4|K4].
    + rewrite (walk_table _ _ _ _ _ _ _ _ _ _ _ _ (Q4 K4) P1 L1), A1 by done.
      apply walk_absent. rewrite qword_pdpte by (done || lia).
      pose proof (high_address v ltac:(lia) Hc K4). by rewrite (proj2 (Z.ltb_ge _ _)) by lia.
    + apply walk_absent. rewrite qword_pml4 by (done || lia). by rewrite (proj2 (Z.eqb_neq _ _)).
Qed.

Lemma boot_maps_identity_witness :
  cpu_walk 0x1000 0x2000 0x3000 (pml4_identity_init 0x2000 0x3000) 0xFEE000B0 = Mapped 0xFEE000B0 true false.
Proof.
  rewrite boot_maps_identity; [reflexivity| |lia].
  unfold placed. split_and!; lia || reflexivity || (left; lia) || (right; lia).
Defined.

(** ** Interrupts *)

Lemma bits_set_in v lo n x lo' n' : 0 <= lo -> lo <= lo' -> 0 <= n' -> lo' + n' <= lo + n ->
  bits (set_bits v lo n x) lo' n' = bits x (lo' - lo) n'.
Proof.
  intros. apply bit_eq. intros k Hk. rewrite !testbit_bits by lia. destruct (Z.ltb_spec k n'); [|done]. cbn [andb].
  rewrite testbit_set_bits by lia. rewrite (proj2 (Z.leb_le _ _)), (proj2 (Z.ltb_lt _ _)) by lia. cbn [andb].
  f_equal. lia.
Qed.

Lemma bits_set_out v lo n x lo' n' : 0 <= lo -> 0 <= n -> 0 <= lo' -> 0 <= n' -> lo' + n' <= lo \/ lo + n <= lo' ->
  bits (set_bits v lo n x) lo' n' = bits v lo' n'.
Proof.
  intros ???? Hout. apply bit_eq. intros k Hk. rewrite !testbit_bits by lia. destruct (Z.ltb_spec k n'); [|done]. cbn [andb].
  rewrite testbit_set_bits by lia. destruct (_ && _) eqn:E; [|done].
  apply andb_true_iff in E as [E1 E2]. zbool. lia.
Qed.

Lemma testbit_as_bits v k : 0 <= k -> Z.testbit v k = (bits v k 1 =? 1).
Proof.
  intros Hk. unfold bits. rewrite Z.land_ones, <- Z.bit0_mod, Z.shiftr_spec by lia.
  rewrite Z.add_0_l. by destruct (Z.testbit v k).
Qed.

(** Reading a field of [pack]. *)
Ltac fields :=
  unfold pack; cbn [foldl];
  repeat first [rewrite bits_set_in by lia | rewrite bits_set_out by lia].

Lemma bits_below v n : 0 <= n -> 0 <= v < 2 ^ n -> bits v 0 n = v.
Proof. intros. unfold bits. rewrite Z.shiftr_0_r, Z.land_ones by done. by apply Z.mod_small. Qed.

(** A value from its parts. *)
Lemma bits_join v lo n m : 0 <= lo -> 0 <= n -> 0 <= m ->
  Z.lor (bits v lo n) (Z.shiftl (bits v (lo + n) m) n) = bits v lo (n + m).
Proof.
  intros. apply bit_eq. intros k Hk. rewrite Z.lor_spec, Z.shiftl_spec by lia.
  rewrite (testbit_bits v lo n), (testbit_bits v lo (n + m)) by lia. destruct (Z.ltb_spec k n).
  - rewrite (proj2 (Z.ltb_lt k (n + m))) by lia. rewrite (Z.testbit_neg_r _ (k - n)) by lia.
    by rewrite orb_false_r.
  - cbn [andb orb]. rewrite testbit_bits by lia. f_equal; [|f_equal; lia].
    destruct (Z.ltb_spec (k - n) m), (Z.ltb_spec k (n + m)); try done; lia.
Qed.

Lemma bits_shiftr v s lo n : 0 <= s -> 0 <= lo -> bits (Z.shiftr v s) lo n = bits v (s + lo) n.
Proof. intros. unfold bits. by rewrite Z.shiftr_shiftr by lia. Qed.

(** What the processor finds in a gate. *)
Lemma gate_spec stubs i : 0 <= stubs -> stubs + Z.of_nat i * 8 < 2 ^ 64 ->
  let g := idt_bits (idt_gate stubs i) in
  Z.testbit g 47 = true /\ Z.testbit g 44 = false /\ bits g 40 4 = 0xE /\ bits g 19 13 = 1 /\ bits g 32 3 = 1 /\
  gate_offset g = stubs + Z.of_nat i * 8.
Proof.
  intros H0 Hi g. unfold g, idt_bits, idt_gate, gate_offset.
  cbn [offset_low seg i_ist i_type i_ring i_present offset_mid offset_high]. rewrite !testbit_as_bits by lia.
  rewrite (u64_small (_ + _)) by (unfold_words; lia).
  split_and!; fields; try reflexivity.
  set (o := stubs + Z.of_nat i * 8) in *. cbn [Z.sub Z.add Z.opp Z.pos_sub]. rewrite !bits_shiftr by lia.
  change (16 + (48 - 48)) with 16. change (32 + (64 - 64)) with 32. change (0 - 0) with 0.
  replace (Z.shiftl (bits o 32 32) 32) with (Z.shiftl (Z.shiftl (bits o 32 32) 16) 16) by (by rewrite Z.shiftl_shiftl).
  rewrite <- Z.shiftl_lor.
  assert (Z.lor (bits o 16 16) (Z.shiftl (bits o 32 32) 16) = bits o 16 48) as -> by (apply (bits_join o 16 16 32); lia).
  assert (Z.lor (bits o 0 16) (Z.shiftl (bits o 16 48) 16) = bits o 0 64) as -> by (apply (bits_join o 0 16 48); lia).
  apply bits_below; lia.
Qed.

Lemma tss_descriptor_spec a : 0 <= a < 2 ^ 32 ->
  let e := gdt_bits (tss_descriptor a) in
  is_tss64 e = true /\ seg_limit e = sizeof_TSS /\ seg_base e = a.
Proof.
  intros Ha e. unfold e, is_tss64, seg_limit, seg_base, gdt_bits, tss_descriptor.
  cbn [limit_low base_low accessed rw conforming code codeordata ring g_present limit_high available long_mode x32 gran base_high].
  rewrite !testbit_as_bits by lia. split_and!.
  - assert (bits (pack [(0, 16, sizeof_TSS); (16, 24, a); (40, 1, 1); (41, 1, 0); (42, 1, 0); (43, 1, 1); (44, 1, 0); (45, 2, 0);
      (47, 1, 1); (48, 4, Z.shiftr sizeof_TSS 16); (52, 1, 1); (53, 1, 0); (54, 1, 0); (55, 1, 0); (56, 8, Z.shiftr a 24)]) 40 4 = 9) as ->.
    { rewrite <- (bits_join _ 40 1 3), <- (bits_join _ 41 1 2), <- (bits_join _ 42 1 1) by lia. fields. reflexivity. }
    fields. reflexivity.
  - fields. reflexivity.
  - fields. rewrite bits_shiftr by lia. change (24 + (56 - 56)) with (0 + 24). change (16 - 16) with 0.
    rewrite bits_join by lia. apply bits_below; lia.
Qed.

(** The task state is in memory. *)
Definition tss_at (read : Z -> Z) (tss_addr mini_stack : Z) : Prop :=
  forall k, (k < Z.to_nat sizeof_TSS)%nat -> read (tss_addr + Z.of_nat k) = nth k (tss_bytes (TSS mini_stack)) 0.

Lemma ist1_spec read a stack : 0 <= a < 2 ^ 32 -> 0 <= stack < 2 ^ 64 -> tss_at read a stack ->
  tss_qword (gdt_init a) read 36 = Some stack.
Proof.
  intros Ha Hs Hread. destruct (tss_descriptor_spec a Ha) as (T1&T2&T3). unfold tss_qword.
  change (gdt_init a !! SEG_TSS) with (Some (gdt_bits (tss_descriptor a))).
  change (gdt_init a !! SEG_TSS2) with (Some 0). cbn [mbind option_bind]. rewrite T1, T2, T3.
  change (true && (36 + 7 <=? sizeof_TSS)) with true. cbv iota. f_equal.
  replace (Z.lor a (Z.shiftl (bits 0 0 32) 32)) with a by (symmetry; apply Z.lor_0_r).
  rewrite <- (le_value_bytes 8 stack) at 1 by lia. f_equal. unfold le_bytes.
  apply list_fmap_ext. intros i k Hk. apply lookup_seq in Hk as [-> Hi].
  replace (a + 36 + Z.of_nat (0 + i)) with (a + Z.of_nat (36 + i)) by lia. rewrite Hread by (unfold sizeof_TSS; lia).
  do 8 (destruct i as [|i]; [reflexivity|]). lia.
Qed.

Lemma code_segment_spec a : gdt_init a !! Z.to_nat 1 = Some (gdt_bits (gdt_fillout 0 true)) /\
  is_code64 (gdt_bits (gdt_fillout 0 true)) = true /\ bits (gdt_bits (gdt_fillout 0 true)) 45 2 = 0.
Proof. done. Qed.

(** An interrupt gate to a code segment of ring 0, with the first stack of the task state. *)
Lemma deliver_gate idt gdt read vector g cs sp :
  idt !! vector = Some g -> gdt !! Z.to_nat 1 = Some cs ->
  Z.testbit g 47 = true -> Z.testbit g 44 = false -> bits g 40 4 = 0xE -> bits g 19 13 = 1 -> bits g 32 3 = 1 ->
  is_code64 cs = true -> bits cs 45 2 = 0 -> tss_qword gdt read 36 = Some sp ->
  deliver idt gdt read vector = Some (gate_offset g, sp, 0, false).
Proof.
  intros Hg Hcs G1 G2 G3 G4 G5 C1 C2 Hsp. unfold deliver. rewrite Hg. cbn [mbind option_bind].
  rewrite G1, G2, G3, G4, Hcs. cbn [mbind option_bind Z.eqb Pos.eqb negb orb]. rewrite C1, C2, G5. cbn [negb].
  change (if 1 =? 0 then _ else _) with 36. by rewrite Hsp.
Qed.

(** C36: whatever the vector of an interrupt and wherever the linker has put the
    tables, the processor ends in the kernel's stub of that vector, in ring 0, with
    interrupts off, and on the small stack that is there for it.  It looks up the
    gate, the code segment and, through the descriptor of the task state, the
    stack, in the tables that [idt_init] and [gdt_init] have filled. *)
Theorem interrupt_reaches_stub stubs tss_addr stack read (vector : nat) :
  0 <= stubs -> stubs + 256 * 8 <= 2 ^ 64 -> 0 <= tss_addr < 2 ^ 32 -> 0 <= stack < 2 ^ 64 ->
  tss_at read tss_addr stack -> (vector < 256)%nat ->
  deliver (idt_prepare stubs) (gdt_init tss_addr) read vector = Some (stubs + 8 * Z.of_nat vector, stack, 0, false).
Proof.
  intros H0 Hs Ha Hst Hread Hv. destruct (gate_spec stubs vector) as (G1&G2&G3&G4&G5&G6); [done|lia|].
  destruct (code_segment_spec tss_addr) as (C1&C2&C3).
  replace (stubs + 8 * Z.of_nat vector) with (gate_offset (idt_bits (idt_gate stubs vector))) by lia.
  eapply deliver_gate; try eassumption; [|by apply ist1_spec].
  apply (lookup_fill (fun i => idt_bits (idt_gate stubs i))). rewrite length_replicate. lia.
Qed.

(** Memory that holds nothing but the task state. *)
Lemma interrupt_reaches_stub_witness :
  let read a := nth (Z.to_nat (a - 0x5000)) (tss_bytes (TSS 0x9000)) 0 in
  deliver (idt_prepare 0x100000) (gdt_init 0x5000) read 0x21 = Some (0x100108, 0x9000, 0, false).
Proof.
  intros read. rewrite (interrupt_reaches_stub 0x100000 0x5000 0x9000 read 33); [reflexivity|lia..| |lia].
  intros k Hk. unfold read. f_equal. lia.
Defined.

(** The segments are flat; user code gets ring 3. *)
Lemma gdt_flat tss_addr : Forall (fun '(i, ring, c) => exists e, gdt_init tss_addr !! i = Some e /\
    seg_base e = 0 /\ seg_limit e = 2 ^ 32 - 1 /\ bits e 45 2 = ring /\ is_code64 e = c)
  [(SEG_r0code, 0, true); (SEG_r0data, 0, false); (SEG_r3code32, 3, true); (SEG_r3data, 3, false); (SEG_r3code, 3, true)].
Proof. repeat constructor; eexists; split; try reflexivity; by vm_compute. Qed.

(** After [irq_init], whatever the controllers were doing before, the lines that
    the kernel handles, and no others, get through, line [l] at vector
    [IRQ_IBASE + l]. *)
Lemma irq_lines s l : 0 <= l < 16 ->
  pic_vector (pic_outs irq_init s) l =
    if bool_decide (l ∈ [2; IRQ_COM1; IRQ_PS2KB; IRQ_PS2MOUSE; IRQ_RTL8139; IRQ_HPET]) then Some (IRQ_IBASE + l) else None.
Proof.
  intros Hl.
  assert (Forall (fun l => forall s, pic_vector (pic_outs irq_init s) l =
    if bool_decide (l ∈ [2; IRQ_COM1; IRQ_PS2KB; IRQ_PS2MOUSE; IRQ_RTL8139; IRQ_HPET]) then Some (IRQ_IBASE + l) else None)
    (Z.of_nat <$> seq 0 16)) as H by (repeat constructor).
  rewrite Forall_forall in H. apply H. apply list_elem_of_fmap. exists (Z.to_nat l). rewrite elem_of_seq. lia.
Qed.

(** [irq_eoi] ends the interrupt that is served, on both controllers for a line
    of the second one. *)
Lemma irq_eoi_ends p1 p2 l : 0 <= l < 16 ->
  p_service p1 = (if l <? 8 then 2 ^ l else 4) -> p_service p2 = (if l <? 8 then 0 else 2 ^ (l - 8)) ->
  let s := pic_outs (irq_eoi l) (p1, p2) in p_service s.1 = 0 /\ p_service s.2 = 0.
Proof.
  intros Hl H1 H2. assert (forall n, 0 <= n -> Z.land (2 ^ n) (2 ^ n - 1) = 0) as Hpow.
  { intros n Hn. replace (2 ^ n - 1) with (Z.ones n) by (rewrite Z.ones_equiv; lia).
    rewrite Z.land_ones by done. apply Z.mod_same. pose proof (Z.pow_pos_nonneg 2 n). lia. }
  unfold irq_eoi. destruct (Z.ltb_spec l 8).
  - rewrite (proj2 (Z.leb_gt 8 l)) by lia.
    change (Z.land (p_service p1) (p_service p1 - 1) = 0 /\ p_service p2 = 0). rewrite H1, H2.
    split; [apply Hpow; lia|done].
  - rewrite (proj2 (Z.leb_le 8 l)) by lia.
    change (Z.land (p_service p1) (p_service p1 - 1) = 0 /\ Z.land (p_service p2) (p_service p2 - 1) = 0).
    rewrite H1, H2. split; [done|apply Hpow; lia].
Qed.
