(* ===== verification/Pci.v ===== *)
(** * Pci

    Finding the hardware: the scan of the PCI bus
    ([src/src/kernel/arch/amd64/pci.c]), the network card it starts
    ([driver/rtl8139.c], of which [Rtl8139] models the rest), and the tables of
    the firmware ([acpi.c]).  The ports are an interface, [PciPorts]; [PciBus]
    states what the documentation of the bus promises about them, a configuration
    space behind two ports. *)

From S2P Require Import Prelude Monad Mem Malloc.

(** ** Ports *)

Class PciPorts (W : Type) := {
  pin8 : Z -> W -> Z * W;
  pin32 : Z -> W -> Z * W;
  pout8 : Z -> Z -> W -> W;
  pout16 : Z -> Z -> W -> W;
  pout32 : Z -> Z -> W -> W;
}.

Definition CONFIG_ADDRESS : Z := 0xCF8.
Definition CONFIG_DATA : Z := 0xCFC.
Definition IRQ_RTL8139 : Z := 11.
Definition PCICFG_CMD : Z := 0x4.

(** The card's registers. *)
Definition RBSTART : Z := 0x30.
Definition CMD : Z := 0x37.
Definition INTRMASK : Z := 0x3C.
Definition TCR : Z := 0x40.
Definition RCR : Z := 0x44.
Definition CONFIG1 : Z := 0x52.
Definition buflen_shift : Z := 3.

(** What can be seen of the scan: what it prints, every write to a port with its
    width in bits, and the cards that have been started. *)
Inductive found :=
| Device (bdf id : Z)
| UnknownHeader (type : Z)
| Wrote (bits port v : Z)
| Started (bdf iobase : Z).

Record machine (W : Type) := mkMachine {
  ports : W;
  iobase : Z;                     (* of the network card *)
  irq_set : bool;                 (* [irq_fn[IRQ_RTL8139]] *)
  dev_eth : bool;                 (* [/dev/eth] is registered *)
  log : list found;
}.
Arguments mkMachine {W}.
Arguments ports {W}.
Arguments iobase {W}.
Arguments irq_set {W}.
Arguments dev_eth {W}.
Arguments log {W}.

#[export] Instance machine_settable W : Settable (machine W) := fun m =>
  mkMachine (ports m) (iobase m) (irq_set m) (dev_eth m) (log m).

Section pci.
Context {W : Type} `{PciPorts W}.
(** The address of [rxbuf], and a bound on the polling of the card. *)
Context (rxbuf : Z) (patience : nat).

Local Abbreviation M := (ST (machine W) Empty_set).

Definition event (e : found) : M () := modify (set log (fun l => l ++ [e])).

Definition port_out8 (port v : Z) : M () :=
  modify (set ports (pout8 (u16 port) (u8 v)));; event (Wrote 8 (u16 port) (u8 v)).
Definition port_out16 (port v : Z) : M () :=
  modify (set ports (pout16 (u16 port) (u16 v)));; event (Wrote 16 (u16 port) (u16 v)).
Definition port_out32 (port v : Z) : M () :=
  modify (set ports (pout32 (u16 port) (u32 v)));; event (Wrote 32 (u16 port) (u32 v)).
Definition port_in32 (port : Z) : M Z := fun s =>
  let '(v, w) := pin32 (u16 port) (ports s) in Val v (s <| ports := w |>).

(** [while (port_in8(port) & 0x10);] *)
Fixpoint poll (n : nat) (port : Z) (w : W) : option W :=
  match n with
  | O => None
  | S n => let '(v, w) := pin8 (u16 port) w in if Z.land v 0x10 =? 0 then Some w else poll n port w
  end.

Definition wait_reset (port : Z) : M () := fun s =>
  match poll patience port (ports s) with
  | Some w => Val () (s <| ports := w |>)
  | None => Fault OutOfFuel
  end.

(** ** Configuration space *)

Definition cfg_address (bdf offset : Z) : Z :=
  Z.lor (Z.lor 0x80000000 bdf) (Z.land offset (Z.lnot 3)).

Definition pcicfg_r32 (bdf offset : Z) : M Z :=
  port_out32 CONFIG_ADDRESS (cfg_address bdf offset);;
  port_in32 CONFIG_DATA.

Definition pcicfg_r8 (bdf offset : Z) : M Z :=
  v ← pcicfg_r32 bdf offset; mret (u8 (Z.shiftr v (Z.land offset 3 * 8))).

Definition pcicfg_r16 (bdf offset : Z) : M Z :=
  v ← pcicfg_r32 bdf offset; mret (u16 (Z.shiftr v (Z.land offset 2 * 8))).

Definition pcicfg_w32 (bdf offset value : Z) : M () :=
  port_out32 CONFIG_ADDRESS (cfg_address bdf offset);;
  port_out32 CONFIG_DATA value.

Definition pcicfg_iobase (bdf : Z) : M Z :=
  bar ← pcicfg_r32 bdf 0x10;
  if Z.land bar 1 =? 0 then panic else mret (u16 (Z.land bar (Z.lnot 3))).

Definition bdf_of (bus device func : Z) : Z :=
  Z.lor (Z.lor (Z.shiftl bus 16) (Z.shiftl device 11)) (Z.shiftl func 8).

(** ** The network card *)

Definition rx_irq_enable (base : Z) (v : bool) : M () :=
  port_out16 (base + INTRMASK) (if v then 1 else 0).

(** Packets for us, multicast and broadcast, the size of the ring, whole packets. *)
Definition rcr : Z :=
  Z.lor (Z.lor (Z.lor (Z.lor (Z.shiftl 1 1) (Z.shiftl 1 2)) (Z.shiftl 1 3)) (Z.shiftl buflen_shift 11)) (Z.shiftl 7 13).

Definition rtl8139_init (bdf : Z) : M () :=
  s ← get_;
  if negb (iobase s =? 0) then panic
  else
    base ← pcicfg_iobase bdf;
    modify (set iobase (fun _ => base));;
    modify (set irq_set (fun _ => true));;
    cmd ← pcicfg_r32 bdf PCICFG_CMD;
    pcicfg_w32 bdf PCICFG_CMD (Z.lor cmd (Z.shiftl 1 2));;
    port_out8 (base + CONFIG1) 0;;
    port_out8 (base + CMD) 0x10;;
    wait_reset (base + CMD);;
    assert (rxbuf <=? 0xFFFFFFFF);;
    port_out32 (base + RBSTART) rxbuf;;
    port_out32 (base + TCR) 0;;
    port_out32 (base + RCR) rcr;;
    port_out8 (base + CMD) 0xC;;
    rx_irq_enable base false;;
    modify (set dev_eth (fun _ => true));;
    event (Started bdf base).

(** ** The scan *)

(** One turn of the loop over the functions of a slot. *)
Definition scan_fn (bus slot : Z) (x : Z * Z) : M (Z * Z + ()) :=
  let '(fn, fn_amt) := x in
  if fn <? fn_amt then
    let bdf := bdf_of bus slot fn in
    id ← pcicfg_r32 bdf 0;
    if id =? 0xFFFFFFFF then mret (inr ())
    else
      event (Device bdf id);;
      hdr_type ← pcicfg_r8 bdf 0xE;
      let multi := negb (Z.land hdr_type 0x80 =? 0) in
      let fn_amt := if multi then 8 else fn_amt in
      let hdr_type := if multi then u8 (Z.land hdr_type (Z.lnot 0x80)) else hdr_type in
      if negb (hdr_type =? 0) then event (UnknownHeader hdr_type);; mret (inl (fn + 1, fn_amt))
      else
        (if id =? 0x813910ec then pcicfg_w32 bdf 0x3C IRQ_RTL8139;; rtl8139_init bdf else mret ());;
        mret (inl (fn + 1, fn_amt))
  else mret (inr ()).

(** Eight functions at most. *)
Definition scan_bus (bus : Z) : M () :=
  forM (Z.of_nat <$> seq 0 32) (fun slot => iter 9 (scan_fn bus slot) (0, 1)).

Definition pci_init : M () := scan_bus 0.

(** ** The bus

    [cfg] is the configuration space, by the address that is written to the first
    port. *)

Class PciBus := {
  cfg : W -> Z -> Z;
  cfg_read : forall w a, exists w', pin32 CONFIG_DATA (pout32 CONFIG_ADDRESS a w) = (cfg w a, w') /\ cfg w' = cfg w;
  cfg_write : forall w a v b, b <> a -> cfg (pout32 CONFIG_DATA v (pout32 CONFIG_ADDRESS a w)) b = cfg w b;
  other_ports : forall w p v, p <> CONFIG_ADDRESS -> p <> CONFIG_DATA ->
    cfg (pout8 p v w) = cfg w /\ cfg (pout16 p v w) = cfg w /\ cfg (pout32 p v w) = cfg w /\ cfg (pin8 p w).2 = cfg w;
  card_resets : forall base w, is_Some (poll patience (base + CMD) (pout8 (u16 (base + CMD)) 0x10 w));
}.
End pci.

Arguments cfg {W _ patience _} w a.
Arguments cfg_read {W _ patience _} w a.
Arguments cfg_write {W _ patience _} w a v b.
Arguments other_ports {W _ patience _} w p v.
Arguments card_resets {W _ patience _} base w.

(** ** What the scan finds *)

Section spec.
(** The configuration space. *)
Context (c : Z -> Z).

Definition cfg_at (bdf offset : Z) : Z := c (u32 (cfg_address bdf offset)).
Definition id_of (bdf : Z) : Z := cfg_at bdf 0.
Definition header_of (bdf : Z) : Z := u8 (Z.shiftr (cfg_at bdf 0xE) 16).
Definition is_card (bdf : Z) : bool := (Z.land (header_of bdf) 0x7f =? 0) && (id_of bdf =? 0x813910ec).
Definition base_of (bdf : Z) : Z := u16 (Z.land (cfg_at bdf 0x10) (Z.lnot 3)).

(** The functions of a slot up to the first one that is missing; more than one
    only if the first one says so. *)
Fixpoint present_from (slot : Z) (fns : list Z) : list Z :=
  match fns with
  | [] => []
  | fn :: fns => let bdf := bdf_of 0 slot fn in if id_of bdf =? 0xFFFFFFFF then [] else bdf :: present_from slot fns
  end.

Definition functions (slot : Z) : list Z :=
  if Z.testbit (header_of (bdf_of 0 slot 0)) 7 then Z.of_nat <$> seq 0 8 else [0].

Definition reachable (slot : Z) : list Z := present_from slot (functions slot).

(** Selecting a register of the configuration space, and writing it. *)
Definition select (bdf offset : Z) : found := Wrote 32 CONFIG_ADDRESS (u32 (cfg_address bdf offset)).
Definition configure (bdf offset v : Z) : list found := [select bdf offset; Wrote 32 CONFIG_DATA (u32 v)].

(** How a card is started: its interrupt line, bus mastering, power, reset, the
    ring, no options for sending, which frames to accept and how, receiver and
    transmitter on, no interrupts. *)
Definition started (rxbuf bdf : Z) : list found :=
  let reg bits r v := Wrote bits (u16 (base_of bdf + r)) v in
  configure bdf 0x3C IRQ_RTL8139 ++ [select bdf 0x10; select bdf 0x4] ++
  configure bdf 0x4 (Z.lor (cfg_at bdf 0x4) 4) ++
  [reg 8 0x52 0; reg 8 0x37 0x10; reg 32 0x30 rxbuf; reg 32 0x40 0; reg 32 0x44 0xF80E;
   reg 8 0x37 0xC; reg 16 0x3C 0; Started bdf (base_of bdf)].

Definition events_of (rxbuf bdf : Z) : list found :=
  [select bdf 0; Device bdf (id_of bdf); select bdf 0xE] ++
  (if Z.land (header_of bdf) 0x7f =? 0 then if is_card bdf then started rxbuf bdf else []
   else [UnknownHeader (Z.land (header_of bdf) 0x7f)]).

(** What is seen of the functions [fns] of a slot: all of them up to the first
    one that is missing, of which only the test is seen. *)
Fixpoint events_from (rxbuf slot : Z) (fns : list Z) : list found :=
  match fns with
  | [] => []
  | fn :: fns =>
      let bdf := bdf_of 0 slot fn in
      if id_of bdf =? 0xFFFFFFFF then [select bdf 0] else events_of rxbuf bdf ++ events_from rxbuf slot fns
  end.

(** The port range of the card after these devices; [None] if the scan panics: a
    second card, or one whose range is not one of ports. *)
Fixpoint base_after (base : Z) (bdfs : list Z) : option Z :=
  match bdfs with
  | [] => Some base
  | bdf :: bdfs =>
      if is_card bdf then
        if (base =? 0) && negb (Z.land (cfg_at bdf 0x10) 1 =? 0) then base_after (base_of bdf) bdfs else None
      else base_after base bdfs
  end.

Definition slots : list Z := Z.of_nat <$> seq 0 32.
Definition all_devices : list Z := concat (reachable <$> slots).
Definition all_events (rxbuf : Z) : list found := concat ((fun slot => events_from rxbuf slot (functions slot)) <$> slots).

(** The registers are not where those of the bus are. *)
Definition base_ok (base : Z) : Prop := base + 0x100 <= CONFIG_ADDRESS \/ (CONFIG_DATA < base /\ base + 0x100 <= 2 ^ 16).
End spec.

(** The scan itself changes two registers only, and none from [lo] on: the
    functions that it has not come to. *)
Definition agree {W} `{PciPorts W} {patience} {B : PciBus patience} (lo : Z) (c : Z -> Z) (w : W) : Prop :=
  forall a, (a mod 256 <> 0x3C /\ a mod 256 <> PCICFG_CMD) \/ lo <= a -> cfg w a = c a.

(** The functions of bus 0. *)
Definition on_bus (bdf : Z) : Prop := exists slot fn, 0 <= slot < 32 /\ 0 <= fn < 8 /\ bdf = bdf_of 0 slot fn.

Lemma bdf_of_value slot fn : 0 <= slot < 32 -> 0 <= fn < 8 -> bdf_of 0 slot fn = 2048 * slot + 256 * fn.
Proof.
  intros Hs Hf.
  assert (Forall (fun slot => Forall (fun fn => bdf_of 0 slot fn = 2048 * slot + 256 * fn)
    (Z.of_nat <$> seq 0 8)) (Z.of_nat <$> seq 0 32)) as H by decide_now.
  rewrite Forall_forall in H. specialize (H slot ltac:(apply list_elem_of_fmap; exists (Z.to_nat slot); rewrite elem_of_seq; lia)).
  rewrite Forall_forall in H. apply H, list_elem_of_fmap. exists (Z.to_nat fn). rewrite elem_of_seq. lia.
Qed.

Lemma cfg_address_value bdf offset : on_bus bdf -> offset ∈ [0; 0x4; 0xE; 0x10; 0x3C] ->
  u32 (cfg_address bdf offset) = 2 ^ 31 + bdf + Z.land offset (Z.lnot 3).
Proof.
  intros (slot&fn&Hs&Hf&->) Ho.
  assert (Forall (fun slot => Forall (fun fn => Forall (fun offset =>
    u32 (cfg_address (bdf_of 0 slot fn) offset) = 2 ^ 31 + bdf_of 0 slot fn + Z.land offset (Z.lnot 3)) [0; 0x4; 0xE; 0x10; 0x3C])
    (Z.of_nat <$> seq 0 8)) (Z.of_nat <$> seq 0 32)) as H by decide_now.
  rewrite Forall_forall in H. specialize (H slot ltac:(apply list_elem_of_fmap; exists (Z.to_nat slot); rewrite elem_of_seq; lia)).
  rewrite Forall_forall in H. specialize (H fn ltac:(apply list_elem_of_fmap; exists (Z.to_nat fn); rewrite elem_of_seq; lia)).
  rewrite Forall_forall in H. by apply H.
Qed.

(** The first address of a function. *)
Definition lo_of (bdf : Z) : Z := 2 ^ 31 + bdf.

Section proofs.
Context {W : Type} `{PciPorts W} (rxbuf : Z) (patience : nat) {B : PciBus patience} (c : Z -> Z).
Local Abbreviation M := (ST (machine W) Empty_set).

(** A step that only writes to ports which are not those of the bus. *)
Definition step (l : list found) (s s' : machine W) : Prop :=
  cfg (ports s') = cfg (ports s) /\ iobase s' = iobase s /\ log s' = log s ++ l.

Lemma step_trans l1 l2 s1 s2 s3 : step l1 s1 s2 -> step l2 s2 s3 -> step (l1 ++ l2) s1 s3.
Proof. intros (E1&E2&E3) (F1&F2&F3). split_and!; [congruence..|]. by rewrite F3, E3, app_assoc. Qed.

Lemma agree_cfg lo w w' : cfg w' = cfg w -> agree lo c w -> agree lo c w'.
Proof. intros E Ha a Hlo. rewrite E. by apply Ha. Qed.

Lemma agree_mono lo lo' w : lo <= lo' -> agree lo c w -> agree lo' c w.
Proof. intros Hle Ha a [?|?]; apply Ha; [by left|right; lia]. Qed.

Lemma pcicfg_r32_runs bdf offset s :
  runs (pcicfg_r32 bdf offset) s (fun v s' =>
    v = cfg (ports s) (u32 (cfg_address bdf offset)) /\ step [select bdf offset] s s').
Proof.
  unfold pcicfg_r32, port_out32. apply runs_bind, runs_bind, runs_modify, runs_modify.
  destruct (cfg_read (ports s) (u32 (cfg_address bdf offset))) as (w'&E&Hw).
  unfold runs, port_in32. cbn -[u32 cfg_address].
  change (pin32 (u16 CONFIG_DATA)) with (pin32 CONFIG_DATA).
  change (pout32 (u16 CONFIG_ADDRESS)) with (pout32 CONFIG_ADDRESS). rewrite E. done.
Qed.

Lemma pcicfg_r32_cfg bdf offset lo s : on_bus bdf -> offset ∈ [0; 0x4; 0xE; 0x10; 0x3C] -> agree lo c (ports s) ->
  (offset ∈ [0; 0xE; 0x10] \/ lo <= lo_of bdf) ->
  runs (pcicfg_r32 bdf offset) s (fun v s' => v = cfg_at c bdf offset /\ step [select bdf offset] s s').
Proof.
  intros Hb Ho Ha Hlo. eapply runs_mono; [apply pcicfg_r32_runs|]. intros v s' [-> Hs]. split; [|done].
  apply Ha. rewrite cfg_address_value by done. unfold lo_of in Hlo.
  assert (bdf mod 256 = 0) as Hm.
  { destruct Hb as (slot&fn&?&?&->). rewrite bdf_of_value by done. Z.div_mod_to_equations. lia. }
  destruct Hlo as [Hlo|Hlo].
  - left. assert (forall k, (2 ^ 31 + bdf + k) mod 256 = k mod 256) as Hk
      by (intros k; Z.div_mod_to_equations; lia). rewrite Hk. unfold PCICFG_CMD.
    repeat (apply elem_of_cons in Hlo as [->|Hlo]; [by split|]). by apply elem_of_nil in Hlo.
  - right. assert (0 <= Z.land offset (Z.lnot 3)); [|lia].
    repeat (apply elem_of_cons in Ho as [->|Ho]; [by cbn|]). by apply elem_of_nil in Ho.
Qed.

Lemma pcicfg_w32_runs bdf offset v s :
  runs (pcicfg_w32 bdf offset v) s (fun _ s' =>
    (forall a, a <> u32 (cfg_address bdf offset) -> cfg (ports s') a = cfg (ports s) a) /\
    iobase s' = iobase s /\ log s' = log s ++ configure bdf offset v).
Proof.
  unfold pcicfg_w32, port_out32. apply runs_bind, runs_bind, runs_modify, runs_modify, runs_bind, runs_modify, runs_modify.
  cbn -[u32 cfg_address].
  change (pout32 (u16 CONFIG_ADDRESS)) with (pout32 CONFIG_ADDRESS).
  change (pout32 (u16 CONFIG_DATA)) with (pout32 CONFIG_DATA).
  split_and!; [|done|by rewrite <- app_assoc]. intros a Hne. by rewrite cfg_write.
Qed.

(** A panic in what follows. *)
Lemma fault_after {A Z'} (m : M Z') (f : Z' -> M A) s x :
  runs m s (fun a s' => f a s' = Fault x) -> (m ≫= f) s = Fault x.
Proof. unfold runs, mbind, st_bind. by destruct (m s). Qed.

Lemma fault_first {A Z'} (m : M Z') (f : Z' -> M A) s x : m s = Fault x -> (m ≫= f) s = Fault x.
Proof. unfold mbind, st_bind. by intros ->. Qed.

(** A step of this kind, and what follows. *)
Lemma runs_step {A Z'} l0 l (m : M Z') (f : Z' -> M A) s0 s Q :
  step l0 s0 s -> runs m s (fun _ s' => step l s s') ->
  (forall a s', step (l0 ++ l) s0 s' -> runs (f a) s' Q) -> runs (m ≫= f) s Q.
Proof.
  intros H0 Hm Hf. apply runs_bind. eapply runs_mono; [exact Hm|]. intros a s' Hs. apply Hf. by eapply step_trans.
Qed.

(** Ports of the card. *)
Definition card_port (base r : Z) : Prop := u16 (base + r) <> CONFIG_ADDRESS /\ u16 (base + r) <> CONFIG_DATA.

Lemma base_ok_port base r : 0 <= base < 2 ^ 16 -> base_ok base -> 0 <= r < 0x100 -> card_port base r.
Proof. unfold base_ok, card_port, CONFIG_ADDRESS, CONFIG_DATA. intros. split; word_lia. Qed.

Section card.
Variables (base r : Z).
Hypothesis Hport : card_port base r.

Lemma pci_out8_runs v s : runs (port_out8 (base + r) v) s (fun _ s' => step [Wrote 8 (u16 (base + r)) (u8 v)] s s').
Proof. destruct Hport. apply runs_bind, runs_modify, runs_modify. split_and!; [|done..]. by apply other_ports. Qed.
Lemma pci_out16_runs v s : runs (port_out16 (base + r) v) s (fun _ s' => step [Wrote 16 (u16 (base + r)) (u16 v)] s s').
Proof. destruct Hport. apply runs_bind, runs_modify, runs_modify. split_and!; [|done..]. by apply other_ports. Qed.
Lemma pci_out32_runs v s : runs (port_out32 (base + r) v) s (fun _ s' => step [Wrote 32 (u16 (base + r)) (u32 v)] s s').
Proof. destruct Hport. apply runs_bind, runs_modify, runs_modify. split_and!; [|done..]. by apply other_ports. Qed.

Lemma poll_cfg n : forall w w', poll n (base + r) w = Some w' -> cfg w' = cfg w.
Proof.
  destruct Hport. induction n as [|n IH]; intros w w' E; [done|]. cbn [poll] in E.
  destruct (other_ports w (u16 (base + r)) 0) as (_&_&_&Hin); [done..|].
  destruct (pin8 (u16 (base + r)) w) as [v w1] eqn:E1. cbn [snd] in Hin.
  case_match; [by injection E as <-|]. rewrite (IH _ _ E). done.
Qed.
End card.

Lemma reset_runs {A} base l0 s0 s (k : () -> M A) Q : card_port base CMD -> step l0 s0 s ->
  (forall s', step (l0 ++ [Wrote 8 (u16 (base + CMD)) 0x10]) s0 s' -> runs (k ()) s' Q) ->
  runs (port_out8 (base + CMD) 0x10;; x ← wait_reset patience (base + CMD); k x) s Q.
Proof.
  intros Hport Hs0 Hk. apply runs_bind, runs_bind, runs_modify, runs_modify, runs_bind.
  unfold runs at 1, wait_reset. cbn -[u16 u8 runs].
  change (u8 16) with 16. destruct (card_resets base (ports s)) as [w Hw]. unfold CMD in *. rewrite Hw.
  apply Hk. eapply step_trans; [exact Hs0|]. split_and!; [|done..].
  etrans; [eapply (poll_cfg base 0x37); [done|exact Hw]|]. destruct Hport. by apply other_ports.
Qed.

(** [rtl8139_init], when the registers of the function still have their values. *)
Lemma rtl8139_init_ends bdf s :
  on_bus bdf -> cfg (ports s) (u32 (cfg_address bdf 0x10)) = cfg_at c bdf 0x10 ->
  cfg (ports s) (u32 (cfg_address bdf 0x4)) = cfg_at c bdf 0x4 ->
  base_ok (base_of c bdf) -> 0 <= rxbuf <= 0xFFFFFFFF ->
  if (iobase s =? 0) && negb (Z.land (cfg_at c bdf 0x10) 1 =? 0) then
    runs (rtl8139_init rxbuf patience bdf) s (fun _ s' =>
      (forall a, a <> u32 (cfg_address bdf 0x4) -> cfg (ports s') a = cfg (ports s) a) /\
      iobase s' = base_of c bdf /\ log s' = log s ++ drop 2 (started c rxbuf bdf))
  else rtl8139_init rxbuf patience bdf s = Fault Panic.
Proof.
  intros Hb Hbar Hcmd Hok Hrx. unfold rtl8139_init.
  destruct (Z.eqb_spec (iobase s) 0) as [Hi|Hi]; cbn [andb].
  2:{ apply fault_after, runs_get. by rewrite (proj2 (Z.eqb_neq _ _) Hi). }
  assert (forall r, 0 <= r < 0x100 -> card_port (base_of c bdf) r) as Hport.
  { intros r. apply base_ok_port; [|done]. unfold base_of, u16. apply Z.mod_pos_bound. lia. }
  destruct (Z.eqb_spec (Z.land (cfg_at c bdf 0x10) 1) 0) as [Hio|Hio]; cbn [negb].
  { apply fault_after, runs_get. rewrite (proj2 (Z.eqb_eq _ _) Hi). cbn [negb].
    apply fault_first, fault_after. eapply runs_mono; [apply pcicfg_r32_runs|].
    intros v s1 [-> _]. by rewrite Hbar, (proj2 (Z.eqb_eq _ _) Hio). }
  apply runs_bind, runs_get. rewrite (proj2 (Z.eqb_eq _ _) Hi). cbn [negb].
  unfold pcicfg_iobase. apply runs_bind, runs_bind. eapply runs_mono; [apply pcicfg_r32_runs|].
  intros v s1 (->&E1&E2&E3). rewrite Hbar, (proj2 (Z.eqb_neq _ _)) by done. apply runs_ret.
  fold (base_of c bdf). set (base := base_of c bdf) in *. do 2 (apply runs_bind, runs_modify).
  apply runs_bind. eapply runs_mono; [apply pcicfg_r32_runs|]. intros v s2 (->&F1&F2&F3). cbn in F1, F2, F3.
  match goal with |- context [cfg ?w (u32 (cfg_address bdf PCICFG_CMD))] =>
    replace (cfg w (u32 (cfg_address bdf PCICFG_CMD))) with (cfg_at c bdf 0x4)
      by (rewrite <- Hcmd; cbn; by rewrite E1) end.
  apply runs_bind. eapply runs_mono; [by apply pcicfg_w32_runs|].
  intros _ s3 (G1&G2&G3).
  assert (step [] s3 s3) as Hs by (split_and!; [done..|by rewrite app_nil_r]).
  eapply runs_step; [exact Hs|apply pci_out8_runs, Hport; done|]. clear Hs. intros _ s4 Hs.
  eapply reset_runs; [by apply Hport|exact Hs|]. clear Hs. intros s5 Hs.
  apply runs_bind, runs_assert; [apply Z.leb_le; lia|].
  eapply runs_step; [exact Hs|apply pci_out32_runs, Hport; done|]. clear Hs. intros _ s6 Hs.
  eapply runs_step; [exact Hs|apply pci_out32_runs, Hport; done|]. clear Hs. intros _ s7 Hs.
  eapply runs_step; [exact Hs|apply pci_out32_runs, Hport; done|]. clear Hs. intros _ s8 Hs.
  eapply runs_step; [exact Hs|apply pci_out8_runs, Hport; done|]. clear Hs. intros _ s9 Hs.
  eapply runs_step; [exact Hs|apply pci_out16_runs, Hport; done|]. clear Hs. intros _ s10 (I1&I2&I3).
  apply runs_bind, runs_modify, runs_modify. cbn [ports iobase log set]. split_and!.
  - intros a Ha. change (cfg (ports s10) a = cfg (ports s) a). by rewrite I1, G1, F1, E1.
  - change (iobase s10 = base). by rewrite I2, G2, F2.
  - cbn. rewrite I3, G3, F3, E3. rewrite <- !app_assoc. f_equal.
    unfold started, configure. cbn [app drop].
    change (u8 0) with 0. change (u32 rcr) with 0xF80E. change (u8 0xC) with 0xC. change (u32 0) with 0.
    rewrite (u32_small rxbuf) by lia. done.
Qed.

(** ** One function, one slot, all of them *)

Definition found_so_far (lo base : Z) (evs : list found) (s : machine W) : Prop :=
  agree lo c (ports s) /\ iobase s = base /\ log s = evs.

(** The end of a part of the scan: the port range of the card and what is seen,
    or a panic. *)
Definition ends {A} (m : M A) (s : machine W) (lo : Z) (base : option Z) (evs : list found) : Prop :=
  match base with
  | Some b => runs m s (fun _ s' => found_so_far lo b evs s')
  | None => m s = Fault Panic
  end.

Lemma ends_bind {A Z'} (m : M Z') (f : Z' -> M A) s s0 lo lo' base k evs evs' (R : Z' -> Prop) :
  match base with
  | Some b => runs m s (fun a s' => R a /\ found_so_far lo b evs s')
  | None => m s = Fault Panic
  end ->
  (forall b a s', base = Some b -> R a -> found_so_far lo b evs s' -> ends (f a) s' lo' (k b) evs') ->
  s = s0 -> ends (m ≫= f) s0 lo' (base ≫= k) evs'.
Proof.
  intros Hm Hf <-. unfold ends. destruct base as [b|]; cbn [mbind option_bind]; [|by apply fault_first].
  unfold runs in Hm |- *. unfold mbind, st_bind in *. destruct (m s) as [a s'| |] eqn:E; [|done..].
  destruct Hm as [Ha Hs]. exact (Hf b a s' eq_refl Ha Hs).
Qed.

Definition cards_ok (l : list Z) : Prop := Forall (fun bdf => is_card c bdf = true -> base_ok (base_of c bdf)) l.

Lemma header_bits h : 0 <= h < 256 ->
  negb (Z.land h 0x80 =? 0) = Z.testbit h 7 /\
  (if Z.testbit h 7 then u8 (Z.land h (Z.lnot 0x80)) else h) = Z.land h 0x7f.
Proof.
  intros Hh.
  assert (Forall (fun h => negb (Z.land h 0x80 =? 0) = Z.testbit h 7 /\
    (if Z.testbit h 7 then u8 (Z.land h (Z.lnot 0x80)) else h) = Z.land h 0x7f) (Z.of_nat <$> seq 0 256)) as H0 by decide_now.
  rewrite Forall_forall in H0. apply H0, list_elem_of_fmap. exists (Z.to_nat h). rewrite elem_of_seq. lia.
Qed.

Lemma header_runs bdf lo s : on_bus bdf -> agree lo c (ports s) ->
  runs (pcicfg_r8 bdf 0xE) s (fun v s' => v = header_of c bdf /\ step [select bdf 0xE] s s').
Proof.
  intros Hb Ha. apply runs_bind.
  eapply runs_mono; [eapply pcicfg_r32_cfg; [done|decide_now|exact Ha|left; decide_now]|].
  intros v s1 [-> Hs]. by apply runs_ret.
Qed.

(** Starting a card leaves what belongs to the functions behind it. *)
Lemma card_part bdf base evs s :
  on_bus bdf -> found_so_far (lo_of bdf) base evs s -> 0 <= rxbuf <= 0xFFFFFFFF ->
  (is_card c bdf = true -> base_ok (base_of c bdf)) -> Z.land (header_of c bdf) 0x7f = 0 ->
  ends (if id_of c bdf =? 0x813910ec then pcicfg_w32 bdf 0x3C IRQ_RTL8139;; rtl8139_init rxbuf patience bdf else mret ()) s
    (lo_of bdf + 256) (base_after c base [bdf]) (evs ++ if is_card c bdf then started c rxbuf bdf else []).
Proof.
  intros Hb (Ha&Hi&Hl) Hrx Hok Hh. cbn [base_after]. unfold is_card in *. rewrite Hh in *. cbn [Z.eqb andb] in *.
  destruct (id_of c bdf =? 0x813910ec).
  2:{ apply runs_ret. split_and!; [eapply agree_mono; [|exact Ha]; lia|done|by rewrite app_nil_r]. }
  assert (Hm : bdf mod 256 = 0 /\ 0 <= bdf).
  { destruct Hb as (slot&fn&?&?&->). rewrite bdf_of_value by done. split; [|lia]. Z.div_mod_to_equations. lia. }
  assert (Hadr : u32 (cfg_address bdf 0x3C) = lo_of bdf + 0x3C /\ u32 (cfg_address bdf 0x10) = lo_of bdf + 0x10 /\
    u32 (cfg_address bdf 0x4) = lo_of bdf + 0x4).
  { rewrite !cfg_address_value by (done || decide_now). done. }
  destruct Hadr as (A1&A2&A3).
  assert (Hw := pcicfg_w32_runs bdf 0x3C IRQ_RTL8139 s). unfold ends.
  assert (Hinit : forall s1,
    (forall a, a <> u32 (cfg_address bdf 0x3C) -> cfg (ports s1) a = cfg (ports s) a) -> iobase s1 = base ->
    if (iobase s1 =? 0) && negb (Z.land (cfg_at c bdf 0x10) 1 =? 0) then
      runs (rtl8139_init rxbuf patience bdf) s1 (fun _ s' =>
        (forall a, a <> u32 (cfg_address bdf 0x4) -> cfg (ports s') a = cfg (ports s1) a) /\
        iobase s' = base_of c bdf /\ log s' = log s1 ++ drop 2 (started c rxbuf bdf))
    else rtl8139_init rxbuf patience bdf s1 = Fault Panic).
  { intros s1 H1 H2. apply rtl8139_init_ends; [done| | |by apply Hok|done].
    - rewrite H1 by lia. apply Ha. right. lia.
    - rewrite H1 by lia. apply Ha. right. lia. }
  destruct (_ && _) eqn:E.
  - apply runs_bind. eapply runs_mono; [exact Hw|]. intros _ s1 (H1&H2&H3).
    specialize (Hinit s1 H1 ltac:(congruence)). rewrite H2, Hi, E in Hinit.
    eapply runs_mono; [exact Hinit|]. intros _ s2 (I1&I2&I3). split_and!; [|done|].
    + intros a Hlo. rewrite I1, H1; [apply Ha|..]; unfold lo_of in *.
      * destruct Hlo; [by left|right; lia].
      * destruct Hlo as [Hlo|]; [|lia]. rewrite A1. intros ->. destruct Hlo as [Hlo _]. apply Hlo. Z.div_mod_to_equations. lia.
      * destruct Hlo as [Hlo|]; [|lia]. rewrite A3. intros ->. destruct Hlo as [_ Hlo]. apply Hlo.
        unfold PCICFG_CMD. Z.div_mod_to_equations. lia.
    + rewrite I3, H3, Hl, <- app_assoc. done.
  - apply fault_after. eapply runs_mono; [exact Hw|]. intros _ s1 (H1&H2&_).
    specialize (Hinit s1 H1 ltac:(congruence)). by rewrite H2, Hi, E in Hinit.
Qed.

(** A function that answers. *)
Lemma scan_fn_ends slot fn amt base evs s :
  0 <= slot < 32 -> 0 <= fn < amt -> amt <= 8 -> found_so_far (lo_of (bdf_of 0 slot fn)) base evs s ->
  0 <= rxbuf <= 0xFFFFFFFF ->
  let bdf := bdf_of 0 slot fn in
  id_of c bdf <> 0xFFFFFFFF -> (is_card c bdf = true -> base_ok (base_of c bdf)) ->
  match base_after c base [bdf] with
  | Some b => runs (scan_fn rxbuf patience 0 slot (fn, amt)) s (fun r s' =>
      r = inl (fn + 1, if Z.testbit (header_of c bdf) 7 then 8 else amt) /\
      found_so_far (lo_of bdf + 256) b (evs ++ events_of c rxbuf bdf) s')
  | None => scan_fn rxbuf patience 0 slot (fn, amt) s = Fault Panic
  end.
Proof.
  intros Hs Hf Hamt Hfound Hrx bdf Hid Hok. assert (on_bus bdf) as Hb by (exists slot, fn; split_and!; (lia || done)).
  fold bdf in Hfound. destruct Hfound as (Ha&Hi&Hl).
  assert (Hpre : runs (pcicfg_r32 bdf 0) s (fun id s1 => id = id_of c bdf /\
    runs (event (Device bdf id)) s1 (fun _ s2 => runs (pcicfg_r8 bdf 0xE) s2 (fun h s3 =>
      h = header_of c bdf /\
      found_so_far (lo_of bdf) base (evs ++ [select bdf 0; Device bdf (id_of c bdf); select bdf 0xE]) s3)))).
  { eapply runs_mono; [eapply pcicfg_r32_cfg; [done|decide_now|exact Ha|left; decide_now]|]. intros v s1 (->&E1&E2&E3).
    split; [done|]. apply runs_modify.
    eapply runs_mono; [eapply (header_runs bdf (lo_of bdf)); [done|by apply (agree_cfg _ (ports s))]|].
    intros h s3 (->&F1&F2&F3). cbn in F1, F2, F3. split; [done|].
    split_and!; [apply (agree_cfg _ (ports s)); [congruence|done]|congruence|].
    rewrite F3, E3, Hl, <- !app_assoc. done. }
  destruct (header_bits (header_of c bdf)) as [H1 H2]; [unfold header_of, u8; apply Z.mod_pos_bound; lia|].
  assert (Hcard := fun s3 H3 Hh => card_part bdf base (evs ++ [select bdf 0; Device bdf (id_of c bdf); select bdf 0xE])
    s3 Hb H3 Hrx Hok Hh).
  unfold scan_fn. rewrite (proj2 (Z.ltb_lt _ _)) by lia. fold bdf. unfold events_of.
  destruct (Z.eqb_spec (Z.land (header_of c bdf) 0x7f) 0) as [Hh|Hh].
  - unfold ends in Hcard. destruct (base_after c base [bdf]) as [b|] eqn:Hbase.
    + apply runs_bind. eapply runs_mono; [exact Hpre|]. intros id s1 [-> Hpre1].
      rewrite (proj2 (Z.eqb_neq (id_of c bdf) 0xFFFFFFFF)) by done.
      apply runs_bind. eapply runs_mono; [exact Hpre1|]. intros [] s2 Hpre2.
      apply runs_bind. eapply runs_mono; [exact Hpre2|]. intros h s3 [-> Hs3].
      rewrite H1, H2, Hh. cbn [Z.eqb negb].
      apply runs_bind. eapply runs_mono; [by apply Hcard|]. intros [] s4 Hs4. apply runs_ret. split; [done|].
      by rewrite app_assoc.
    + apply fault_after. eapply runs_mono; [exact Hpre|]. intros id s1 [-> Hpre1].
      rewrite (proj2 (Z.eqb_neq (id_of c bdf) 0xFFFFFFFF)) by done.
      apply fault_after. eapply runs_mono; [exact Hpre1|]. intros [] s2 Hpre2.
      apply fault_after. eapply runs_mono; [exact Hpre2|]. intros h s3 [-> Hs3].
      rewrite H1, H2, Hh. cbn [Z.eqb negb]. apply fault_first. by apply Hcard.
  - cbn [base_after]. unfold is_card. rewrite (proj2 (Z.eqb_neq _ _) Hh). cbn [andb].
    apply runs_bind. eapply runs_mono; [exact Hpre|]. intros id s1 [-> Hpre1].
    rewrite (proj2 (Z.eqb_neq (id_of c bdf) 0xFFFFFFFF)) by done.
    apply runs_bind. eapply runs_mono; [exact Hpre1|]. intros [] s2 Hpre2.
    apply runs_bind. eapply runs_mono; [exact Hpre2|]. intros h s3 [-> (A1&A2&A3)].
    rewrite H1, H2, (proj2 (Z.eqb_neq _ _) Hh). cbn [negb].
    apply runs_bind, runs_modify, runs_ret. split; [done|]. split_and!; [|done|].
    + eapply agree_mono; [|exact A1]. lia.
    + cbn. rewrite A3, <- !app_assoc. done.
Qed.

Lemma scan_fn_missing slot fn amt base evs s :
  0 <= slot < 32 -> 0 <= fn < amt -> amt <= 8 -> found_so_far (lo_of (bdf_of 0 slot fn)) base evs s ->
  id_of c (bdf_of 0 slot fn) = 0xFFFFFFFF ->
  runs (scan_fn rxbuf patience 0 slot (fn, amt)) s (fun r s' =>
    r = inr () /\ found_so_far (lo_of (bdf_of 0 slot fn)) base (evs ++ [select (bdf_of 0 slot fn) 0]) s').
Proof.
  intros Hs Hf Hamt (Ha&Hi&Hl) Hid. unfold scan_fn. rewrite (proj2 (Z.ltb_lt _ _)) by lia.
  assert (on_bus (bdf_of 0 slot fn)) as Hb by (exists slot, fn; split_and!; (lia || done)).
  set (bdf := bdf_of 0 slot fn) in *. clearbody bdf.
  apply runs_bind. eapply runs_mono; [eapply pcicfg_r32_cfg; [done|decide_now|exact Ha|left; decide_now]|].
  intros v s1 (->&E1&E2&E3). fold (id_of c bdf). rewrite Hid. cbn [Z.eqb Pos.eqb].
  apply runs_ret. split; [done|]. split_and!; [by apply (agree_cfg _ (ports s))|congruence|by rewrite E3, Hl].
Qed.

Lemma base_after_cons base bdf l :
  base_after c base (bdf :: l) = base_after c base [bdf] ≫= fun b => base_after c b l.
Proof. cbn [base_after]. repeat case_match; done. Qed.

Lemma base_after_app base l1 l2 :
  base_after c base (l1 ++ l2) = base_after c base l1 ≫= fun b => base_after c b l2.
Proof.
  revert base; induction l1 as [|bdf l1 IH]; intros base; [done|].
  cbn [app]. rewrite base_after_cons, (base_after_cons base bdf l1).
  destruct (base_after c base [bdf]); [|done]. cbn. apply IH.
Qed.

Lemma found_mono lo lo' base evs s : lo <= lo' -> found_so_far lo base evs s -> found_so_far lo' base evs s.
Proof. intros Hle (Ha&?&?). split_and!; [by eapply agree_mono|done..]. Qed.

Lemma lo_next slot fn : 0 <= slot < 32 -> 0 <= fn < 7 ->
  lo_of (bdf_of 0 slot fn) + 256 = lo_of (bdf_of 0 slot (fn + 1)).
Proof. intros Hs Hf. unfold lo_of. rewrite !bdf_of_value by lia. lia. Qed.

Lemma lo_slot slot fn : 0 <= slot < 32 -> 0 <= fn < 8 ->
  lo_of (bdf_of 0 slot fn) + 256 <= 2 ^ 31 + 2048 * (slot + 1).
Proof. intros Hs Hf. unfold lo_of. rewrite !bdf_of_value by lia. lia. Qed.

(** The functions of a slot from [fn] on, when there may be eight. *)
Lemma scan_from slot k n : forall fn base evs s,
  0 <= slot < 32 -> 0 <= fn -> fn + Z.of_nat k = 8 -> (k < n)%nat ->
  found_so_far (if (k =? 0)%nat then 2 ^ 31 + 2048 * (slot + 1) else lo_of (bdf_of 0 slot fn)) base evs s ->
  0 <= rxbuf <= 0xFFFFFFFF ->
  let fns := (fun i => fn + Z.of_nat i) <$> seq 0 k in
  cards_ok (present_from c slot fns) ->
  ends (iter n (scan_fn rxbuf patience 0 slot) (fn, 8)) s (2 ^ 31 + 2048 * (slot + 1))
    (base_after c base (present_from c slot fns)) (evs ++ events_from c rxbuf slot fns).
Proof.
  revert k. induction n as [|n IH]; intros k fn base evs s Hs Hfn Hk Hn Hfound Hrx fns Hok; [lia|].
  cbn [iter]. destruct k as [|k].
  - cbn. apply runs_bind. unfold scan_fn. rewrite (proj2 (Z.ltb_ge fn 8)) by lia.
    apply runs_ret, runs_ret. by rewrite app_nil_r.
  - assert (fns = fn :: ((fun i => fn + 1 + Z.of_nat i) <$> seq 0 k)) as Efns.
    { unfold fns. cbn [seq fmap list_fmap]. rewrite Z.add_0_r. f_equal.
      rewrite <- fmap_S_seq, <- list_fmap_compose. apply list_fmap_ext. intros ? i ?. cbn. lia. }
    clearbody fns. subst fns. cbn [present_from events_from Nat.eqb] in *. cbv zeta in *.
    pose proof (lo_slot slot fn Hs ltac:(lia)) as Hlo.
    destruct (Z.eqb_spec (id_of c (bdf_of 0 slot fn)) 0xFFFFFFFF) as [E|E].
    + apply runs_bind. eapply runs_mono; [apply scan_fn_missing; (done || lia)|].
      intros r s1 [-> H1]. apply runs_ret. eapply found_mono; [|exact H1]. lia.
    + apply Forall_cons in Hok as [Hok1 Hok]. rewrite base_after_cons.
      eapply (ends_bind _ _ s s _ _ _ _ _ _ (fun r => r = inl (fn + 1, 8))); [| |done].
      * pose proof (scan_fn_ends slot fn 8 base evs s Hs ltac:(lia) ltac:(lia) Hfound Hrx E Hok1) as H1.
        destruct (Z.testbit (header_of c (bdf_of 0 slot fn)) 7); exact H1.
      * intros b r s1 _ -> H1. rewrite app_assoc. apply (IH k (fn + 1) b); try (done || lia).
        destruct (Nat.eqb_spec k 0); [eapply found_mono; [|exact H1]; lia|].
        by rewrite <- lo_next by lia.
Qed.

Lemma scan_slot slot base evs s :
  0 <= slot < 32 -> found_so_far (2 ^ 31 + 2048 * slot) base evs s -> 0 <= rxbuf <= 0xFFFFFFFF ->
  cards_ok (reachable c slot) ->
  ends (iter 9 (scan_fn rxbuf patience 0 slot) (0, 1)) s (2 ^ 31 + 2048 * (slot + 1))
    (base_after c base (reachable c slot)) (evs ++ events_from c rxbuf slot (functions c slot)).
Proof.
  intros Hs Hfound Hrx Hok. change (iter 9 ?f ?x) with (r ← f x; match r with inl a => iter 8 f a | inr b => mret b end).
  unfold reachable, functions in *.
  replace (2 ^ 31 + 2048 * slot) with (lo_of (bdf_of 0 slot 0)) in Hfound
    by (unfold lo_of; rewrite bdf_of_value by lia; lia).
  pose proof (lo_slot slot 0 Hs ltac:(lia)) as Hlo.
  set (rest := if Z.testbit (header_of c (bdf_of 0 slot 0)) 7 then (fun i => 1 + Z.of_nat i) <$> seq 0 7 else []).
  replace (if Z.testbit (header_of c (bdf_of 0 slot 0)) 7 then Z.of_nat <$> seq 0 8 else [0]) with (0 :: rest) in *
    by (unfold rest; by case_match).
  cbn [present_from events_from] in *. cbv zeta in *.
  destruct (Z.eqb_spec (id_of c (bdf_of 0 slot 0)) 0xFFFFFFFF) as [E|E].
  { apply runs_bind. eapply runs_mono; [apply scan_fn_missing; (done || lia)|]. intros r s1 [-> H1]. apply runs_ret.
    eapply found_mono; [|exact H1]. lia. }
  apply Forall_cons in Hok as [Hok1 Hok]. rewrite base_after_cons.
  eapply (ends_bind _ _ s s _ _ _ _ _ _ (fun r => r = inl (0 + 1, if Z.testbit (header_of c (bdf_of 0 slot 0)) 7 then 8 else 1)));
    [| |done].
  - exact (scan_fn_ends slot 0 1 base evs s Hs ltac:(lia) ltac:(lia) Hfound Hrx E Hok1).
  - intros b r s1 _ -> H1. rewrite app_assoc. unfold rest in *. destruct (Z.testbit _ 7).
    + apply (scan_from slot 7 8 1); try (done || lia). cbn [Nat.eqb]. change 1 with (0 + 1). rewrite <- (lo_next slot 0) by lia. exact H1.
    + cbn. rewrite app_nil_r. eapply found_mono; [|exact H1]. lia.
Qed.

Lemma scan_slots l : forall base evs s slot,
  0 <= slot -> slot + Z.of_nat (length l) = 32 -> l = (fun i => slot + Z.of_nat i) <$> seq 0 (length l) ->
  found_so_far (2 ^ 31 + 2048 * slot) base evs s -> 0 <= rxbuf <= 0xFFFFFFFF ->
  cards_ok (concat (reachable c <$> l)) ->
  ends (forM l (fun slot => iter 9 (scan_fn rxbuf patience 0 slot) (0, 1))) s (2 ^ 31 + 2048 * 32)
    (base_after c base (concat (reachable c <$> l)))
    (evs ++ concat ((fun slot => events_from c rxbuf slot (functions c slot)) <$> l)).
Proof.
  induction l as [|x l IH]; intros base evs s slot H0 Hlen Hl Hfound Hrx Hok.
  - cbn [fmap list_fmap concat forM base_after]. unfold ends. apply runs_ret. rewrite app_nil_r. cbn in Hlen.
    by replace 32 with slot by lia.
  - cbn [length seq fmap list_fmap concat forM] in *. rewrite Z.add_0_r in Hl. injection Hl as -> Hl.
    apply Forall_app in Hok as [Hok1 Hok]. rewrite base_after_app.
    eapply (ends_bind _ _ s s _ _ _ _ _ _ (fun _ => True)); [| |done].
    + pose proof (scan_slot slot base evs s ltac:(lia) Hfound Hrx Hok1) as H1. unfold ends in H1.
      destruct (base_after _ _ _); [|exact H1]. eapply runs_mono; [exact H1|]. intros ? ? Hf. split; [exact I|exact Hf].
    + intros b [] s1 _ _ H1. rewrite app_assoc. apply (IH b _ s1 (slot + 1)); try (done || lia).
      etrans; [exact Hl|]. rewrite <- fmap_S_seq, <- list_fmap_compose.
      apply list_fmap_ext. intros ? i ?. cbn. lia.
Qed.
End proofs.


(** C37: the scan of the bus tries every slot, and of a device that says so every
    function, up to the first one that is missing; it lists what answers, in
    order, with what it finds, and starts the network card: the trace of all
    writes to ports is exactly the selections of the registers that it looks at
    and, for the card, the line of its interrupt, bus mastering, power, reset, the
    address of the ring, the options of sending and receiving, the receiver and the
    transmitter switched on and the interrupts off ([started]), all of them in the
    port range the card is configured for.  If there is a second card, or a card
    without a range of ports ([base_after]), the scan panics.  [card_resets], of
    [PciBus], bounds the polling. *)
Theorem pci_scan_finds {W} `{PciPorts W} rxbuf patience {B : PciBus patience} (s : machine W) :
  let c := cfg (ports s) in
  0 <= rxbuf <= 0xFFFFFFFF -> iobase s = 0 ->
  Forall (fun bdf => is_card c bdf = true -> base_ok (base_of c bdf)) (all_devices c) ->
  match base_after c 0 (all_devices c) with
  | Some b => exists s', pci_init rxbuf patience s = Val () s' /\
      log s' = log s ++ all_events c rxbuf /\ iobase s' = b
  | None => pci_init rxbuf patience s = Fault Panic
  end.
Proof.
  intros c Hrx Hi Hok.
  assert (Hr : ends patience c (pci_init rxbuf patience) s (2 ^ 31 + 2048 * 32)
    (base_after c 0 (all_devices c)) (log s ++ all_events c rxbuf)).
  { apply (scan_slots rxbuf patience c slots 0 (log s) s 0); try done. }
  unfold ends in Hr. destruct (base_after _ _ _); [|exact Hr].
  destruct (runs_inv _ _ _ Hr) as ([]&s'&E&_&H1&H2). by exists s'.
Qed.

(** ** A machine

    Its configuration space is a map; the card answers that it is still resetting
    twice. *)

Record board := mkBoard { latch : Z; space : gmap Z Z; resetting : nat }.

#[export] Instance board_settable : Settable board := fun w => mkBoard (latch w) (space w) (resetting w).

Definition absent : Z := 0xFFFFFFFF.

#[export] Instance board_ports : PciPorts board := {
  pin8 := fun p w => match resetting w with O => (0, w) | S n => (0x10, w <| resetting := n |>) end;
  pin32 := fun p w => (if p =? CONFIG_DATA then default absent (space w !! latch w) else 0, w);
  pout8 := fun p v w => if v =? 0x10 then w <| resetting := 2%nat |> else w;
  pout16 := fun _ _ w => w;
  pout32 := fun p v w =>
    if p =? CONFIG_ADDRESS then w <| latch := v |>
    else if p =? CONFIG_DATA then w <| space ::= <[latch w := v]> |> else w;
}.

#[export] Instance board_bus : PciBus (W := board) 3.
Proof.
  refine {| cfg := fun w a => default absent (space w !! a) |}.
  - intros w a. eexists. split; reflexivity.
  - intros w a v b Hb. cbn. by rewrite lookup_insert_ne.
  - intros w p v H1 H2. cbn. rewrite (proj2 (Z.eqb_neq _ _) H1), (proj2 (Z.eqb_neq _ _) H2).
    split_and!; try done; [by case_match|by destruct (resetting w)].
  - intros base w. by eexists.
Defined.

Definition dev (slot fn id header bar : Z) : list (Z * Z) :=
  let bdf := bdf_of 0 slot fn in
  [(cfg_address bdf 0, id); (cfg_address bdf 0x4, 3); (cfg_address bdf 0xC, header * 2 ^ 16); (cfg_address bdf 0x10, bar)].

(** A bridge, a device with two functions of which the second one has a header of
    another type, and the card. *)
Definition some_board : board := mkBoard 0
  (list_to_map (dev 0 0 0x12378086 0 0 ++ dev 1 0 0x70008086 0x80 0 ++ dev 1 1 0x70108086 1 0 ++
    dev 3 0 0x813910ec 0 0xc001)) 0.

(** The writes to the card and what is printed, without the selections. *)
Definition told (l : list found) : list found :=
  List.filter (fun e => match e with Wrote _ p _ => negb (p =? CONFIG_ADDRESS) | _ => true end) l.

Definition two_cards : board := mkBoard 0
  (list_to_map (dev 1 0 0x813910ec 0 0xc001 ++ dev 2 0 0x813910ec 0 0xc101)) 0.

Lemma pci_scan_finds_witness :
  (exists s', pci_init 0x200000 3 (mkMachine some_board 0 false false []) = Val () s' /\
    told (log s') = [Device 0 0x12378086; Device 0x800 0x70008086; Device 0x900 0x70108086; UnknownHeader 1;
      Device 0x1800 0x813910ec; Wrote 32 0xCFC 11; Wrote 32 0xCFC 7; Wrote 8 0xc052 0;
      Wrote 8 0xc037 0x10; Wrote 32 0xc030 0x200000; Wrote 32 0xc040 0; Wrote 32 0xc044 0xF80E;
      Wrote 8 0xc037 0xC; Wrote 16 0xc03C 0; Started 0x1800 0xc000] /\ iobase s' = 0xc000) /\
  pci_init 0x200000 3 (mkMachine two_cards 0 false false []) = Fault Panic.
Proof.
  split.
  - pose proof (pci_scan_finds 0x200000 3 (mkMachine some_board 0 false false [])) as H. cbv zeta in H.
    replace (all_devices _) with [0; 0x800; 0x900; 0x1800] in H by (by vm_compute).
    replace (base_after _ _ _) with (Some 0xc000) in H by (by vm_compute).
    destruct H as (s'&E&Hlog&Hbase); [lia|done| |].
    + do 3 (apply Forall_cons_2; [intros Hc; by vm_compute in Hc|]).
      apply Forall_cons_2; [|apply Forall_nil_2]. intros _. right. by vm_compute.
    + exists s'. split; [exact E|]. split; [rewrite Hlog; by vm_compute|done].
  - pose proof (pci_scan_finds 0x200000 3 (mkMachine two_cards 0 false false [])) as H. cbv zeta in H.
    replace (all_devices _) with [0x800; 0x1000] in H by (by vm_compute).
    replace (base_after _ _ _) with (@None Z) in H by (by vm_compute).
    apply H; [lia|done|]. do 2 (apply Forall_cons_2; [intros _; right; by vm_compute|]). apply Forall_nil_2.
Defined.

(** The functions of a device need not be numbered without gaps: the scan stops at
    the first one that is missing, and does not find the card behind it. *)
Lemma scan_stops_at_gap :
  let w := mkBoard 0 (list_to_map (dev 1 0 0x70008086 0x80 0 ++ dev 1 2 0x813910ec 0 0xc001)) 0 in
  exists s', pci_init 0x200000 3 (mkMachine w 0 false false []) = Val () s' /\
    told (log s') = [Device 0x800 0x70008086] /\ iobase s' = 0.
Proof. eexists. split; [by vm_compute|]. split; [by vm_compute|done]. Qed.

(** ** The tables of the firmware

    [acpi_parse] reads them in memory; what it does with the timers it finds,
    [hpet_init], is the answer: their addresses. *)

Definition sizeof_SDT : Z := 36.

Fixpoint same_text (m : mem) (a : Z) (s : list Z) : bool :=
  match s with [] => true | x :: s => (ld m a =? x) && same_text m (a + 1) s end.

Definition le_at (m : mem) (a : Z) (n : nat) : Z := le_value (bytes_at m a n).

(** "RSD PTR ", "RSDT", "HPET"; the second one is compared with 4 bytes. *)
Definition RSDP_sig : list Z := [82; 83; 68; 32; 80; 84; 82; 32].
Definition RSDT_sig : list Z := [82; 83; 68; 84].
Definition HPET_sig : list Z := [72; 80; 69; 84].

(** [it->hdr] is followed by an id; then the address, of which [where] is 0 for
    memory. *)
Definition hpet_of (m : mem) (it : Z) : list Z :=
  if same_text m it HPET_sig then
    let gas := it + sizeof_SDT + 4 in
    if ld m gas =? 0 then [le_at m (gas + 4) 8] else []
  else [].

Definition acpi_parse (m : mem) (rdsp : Z) : res (list Z) :=
  if negb (same_text m rdsp RSDP_sig) then Err Panic
  else
    let rsdt := le_at m (rdsp + 16) 4 in
    if negb (same_text m rsdt RSDT_sig) then Err Panic
    else
      let sub := rsdt + sizeof_SDT in
      let len := s32 (u64 (le_at m (rsdt + 4) 4 - sizeof_SDT) / 4) in
      Ok (concat ((fun i => hpet_of m (le_at m (sub + 4 * Z.of_nat i) 4)) <$> seq 0 (Z.to_nat len))).

(** A table of another kind and that of the timer, at the usual address. *)
Definition some_firmware : mem :=
  let m := write_bytes ∅ 0x100 (RSDP_sig ++ replicate 8 0 ++ le_bytes 4 0x200) in
  let m := write_bytes m 0x200 (RSDT_sig ++ le_bytes 4 (sizeof_SDT + 8) ++ replicate 28 0 ++
             le_bytes 4 0x300 ++ le_bytes 4 0x400) in
  let m := write_bytes m 0x300 ([65; 80; 73; 67] ++ le_bytes 4 sizeof_SDT ++ replicate 28 0) in
  write_bytes m 0x400 (HPET_sig ++ le_bytes 4 56 ++ replicate 28 0 ++ replicate 4 0 ++
    [0; 64; 0; 0] ++ le_bytes 8 0xFED00000).

Lemma acpi_finds_timer : acpi_parse some_firmware 0x100 = Ok [0xFED00000].
Proof. by vm_compute. Qed.

(** A table that claims to be shorter than its own header has no entries: the
    difference wraps around, and its quarter is negative as an [int]. *)
Lemma acpi_short_table m rdsp : same_text m rdsp RSDP_sig = true ->
  same_text m (le_at m (rdsp + 16) 4) RSDT_sig = true -> 0 <= le_at m (le_at m (rdsp + 16) 4 + 4) 4 < sizeof_SDT ->
  acpi_parse m rdsp = Ok [].
Proof.
  intros H1 H2 H3. unfold acpi_parse. rewrite H1, H2. cbn [negb]. set (len := le_at m (_ + 4) 4) in *.
  assert (s32 (u64 (len - sizeof_SDT) / 4) < 0) as Hneg.
  { unfold sizeof_SDT in *. replace (u64 (len - 36)) with (2 ^ 64 + len - 36) by word_lia. word_lia. }
  by rewrite (Z2Nat.nonpos _ (Z.lt_le_incl _ _ Hneg)).
Qed.
