(* ===== verification/KState.v ===== *)
(** * KState

    The kernel's data: the structures of [src/src/kernel/proc.h], [handle.h],
    [vfs/request.h], [vfs/mount.h] and the globals of the kernel's files.  The
    objects the kernel allocates with [kmalloc] live in typed stores indexed by
    abstract pointers, so that two structures that hold the same pointer share
    the object; [NULL] is [None].  An access to an object that is not in its
    store (freed, or never allocated) is [Fault Undefined].  The memory of user
    pages and page tables is the byte memory of [Malloc] ([k_alloc]). *)

From S2P Require Import Prelude Monad Mem Ring Malloc.

Abbreviation ptr := positive (only parsing).

(** ** Constants *)

Definition HANDLE_MAX : Z := 16.
Definition HANDLE_NULLFS : Z := -2.
Definition PATH_MAX : Z := 512.
Definition INTR_MAX : Z := 64.
Definition EXECBUF_MAX_LEN : Z := 4096.

Definition MEMFLAG_PRESENT : Z := 1.
Definition MEMFLAG_FINDFREE : Z := 2.
Definition FORK_NOREAP : Z := 1.
Definition FORK_NEWFS : Z := 2.
Definition FORK_SHAREMEM : Z := 4.
Definition FORK_SHAREHANDLE : Z := 8.
Definition WRITE_TRUNCATE : Z := 1.
Definition FSR_DELEGATE : Z := 1.
Definition DUP_SEARCH : Z := 1.
Definition OPEN_WRITE : Z := 2.
Definition OPEN_RW : Z := 3.
Definition OPEN_CREATE : Z := 4.

Definition EGENERIC : Z := 1.
Definition EFAULT : Z := 2.
Definition EBADF : Z := 3.
Definition EINVAL : Z := 4.
Definition ENOSYS : Z := 5.
Definition ENOENT : Z := 8.
Definition EACCES : Z := 10.
Definition EMFILE : Z := 11.
Definition EPIPE : Z := 13.
Definition ECHILD : Z := 14.
Definition EINTR : Z := 205.

(** A test of C flags: [x & f]. *)
Definition flag (x f : Z) : bool := negb (Z.land x f =? 0).

Definition OPEN_READABLE (flags : Z) : bool := negb (Z.land flags 3 =? OPEN_WRITE).
Definition OPEN_WRITEABLE (flags : Z) : bool := flag flags OPEN_WRITE.

(** ** Processes *)

Inductive proc_state :=
| PS_RUNNING
| PS_DYING
| PS_TOREAP
| PS_TOMBSTONE
| PS_DEADLEAF
| PS_FREED
| PS_WAITS4CHILDDEATH
| PS_WAITS4FS
| PS_WAITS4REQUEST
| PS_WAITS4PIPE
| PS_WAITS4TIMER
| PS_LAST.

#[export] Instance proc_state_eq_dec : EqDecision proc_state.
Proof. solve_decision. Defined.

(** The general registers of [CpuRegs], and the opaque SSE image. *)
Record CpuRegs := mkRegs {
  r15 : Z; r14 : Z; r13 : Z; r12 : Z; r11 : Z; r10 : Z; r9 : Z; r8 : Z;
  rdi : Z; rsi : Z; rbp : Z; rsp : Z; rbx : Z; rdx : Z; rcx : Z; rax : Z;
  sse : list Z;
}.
#[export] Instance regs_settable : Settable CpuRegs := fun r =>
  mkRegs (r15 r) (r14 r) (r13 r) (r12 r) (r11 r) (r10 r) (r9 r) (r8 r)
         (rdi r) (rsi r) (rbp r) (rsp r) (rbx r) (rdx r) (rcx r) (rax r) (sse r).
Definition regs0 : CpuRegs := mkRegs 0 0 0 0 0 0 0 0 0 0 0 0 0 0 0 0 [].

(** The union whose meaning depends on the state.  Reading a member other than
    the one last written is an access the model does not define. *)
Inductive saved :=
| saved_none
| death_msg (ret : Z)
| awaited_death (pid : Z) (out : Z)
| awaited_req (buf max_len res : Z)
| waits4pipe (pipe : ptr) (buf len : Z) (next : option ptr)
| waits4timer (goal : Z) (next : option ptr)
| deadleaf_next (next : option ptr).

Record Proc := mkProc {
  p_pages : Z;                         (* 0 is NULL *)
  p_pages_refcount : option ptr;
  p_regs : CpuRegs;
  p_sibling : option ptr;
  p_child : option ptr;
  p_parent : option ptr;
  p_state : proc_state;
  p_saved : saved;
  p_mount : option ptr;
  p_handles : option ptr;              (* Handle *[HANDLE_MAX] *)
  p_handles_refcount : option ptr;
  p_globalid : Z;
  p_refcount : Z;
  p_noreap : bool;
  p_pns : option ptr;
  p_localid : Z;
  p_nextlid : Z;
  p_reqslot : option ptr;
  p_controlled : option ptr;
  p_intr_fn : Z;
  p_execbuf : option ptr;
  p_execbuf_len : Z;
  p_execbuf_pos : Z;
  p_basetime : Z;
}.
#[export] Instance proc_settable : Settable Proc := fun p =>
  mkProc (p_pages p) (p_pages_refcount p) (p_regs p) (p_sibling p) (p_child p)
    (p_parent p) (p_state p) (p_saved p) (p_mount p) (p_handles p)
    (p_handles_refcount p) (p_globalid p) (p_refcount p) (p_noreap p) (p_pns p)
    (p_localid p) (p_nextlid p) (p_reqslot p) (p_controlled p) (p_intr_fn p)
    (p_execbuf p) (p_execbuf_len p) (p_execbuf_pos p) (p_basetime p).

(** What [kzalloc] gives. *)
Definition proc0 : Proc :=
  mkProc 0 None regs0 None None None PS_RUNNING saved_none None None None 0 0 false
    None 0 0 None None 0 None 0 0 0.

(** ** Handles *)

Inductive handle_type :=
| HANDLE_INVALID | HANDLE_FILE | HANDLE_PIPE | HANDLE_FS_FRONT | HANDLE_FS_REQ.

#[export] Instance handle_type_eq_dec : EqDecision handle_type.
Proof. solve_decision. Defined.

Record Handle := mkHandle {
  h_type : handle_type;
  h_backend : option ptr;
  h_file_id : Z;
  h_readable : bool;
  h_writeable : bool;
  h_req : option ptr;
  h_queued : option ptr;               (* pipe.queued *)
  h_sister : option ptr;               (* pipe.sister *)
  h_refcount : Z;
}.
#[export] Instance handle_settable : Settable Handle := fun h =>
  mkHandle (h_type h) (h_backend h) (h_file_id h) (h_readable h) (h_writeable h)
    (h_req h) (h_queued h) (h_sister h) (h_refcount h).
Definition handle0 : Handle := mkHandle HANDLE_INVALID None 0 false false None None None 0.

(** ** Filesystem requests *)

Inductive vfs_op :=
| VFSOP_OPEN | VFSOP_READ | VFSOP_WRITE | VFSOP_GETSIZE | VFSOP_REMOVE | VFSOP_CLOSE.

#[export] Instance vfs_op_eq_dec : EqDecision vfs_op.
Proof. solve_decision. Defined.

Definition vfs_op_num (o : vfs_op) : Z :=
  match o with
  | VFSOP_OPEN => 0 | VFSOP_READ => 1 | VFSOP_WRITE => 2
  | VFSOP_GETSIZE => 3 | VFSOP_REMOVE => 4 | VFSOP_CLOSE => 5
  end.

(** [input.kern] and its union: a user address or a kernel buffer. *)
Inductive req_input := in_user (buf : Z) | in_kern (buf : ptr).

Record VfsReq := mkReq {
  r_type : vfs_op;
  r_input : req_input;
  r_input_len : Z;
  r_output : Z;
  r_output_len : Z;
  r_id : Z;
  r_offset : Z;
  r_flags : Z;
  r_caller : option ptr;
  r_backend : option ptr;
  r_queue_next : option ptr;
  r_postqueue_next : option ptr;
}.
#[export] Instance req_settable : Settable VfsReq := fun r =>
  mkReq (r_type r) (r_input r) (r_input_len r) (r_output r) (r_output_len r) (r_id r)
    (r_offset r) (r_flags r) (r_caller r) (r_backend r) (r_queue_next r)
    (r_postqueue_next r).

(** The compound literal [(VfsReq){ .type = t }]. *)
Definition req0 (t : vfs_op) : VfsReq := mkReq t (in_user 0) 0 0 0 0 0 0 None None None None.

(** The functions a kernel backend's [accept] can point to. *)
Inductive accept_fn := procfs_accept_fn | fsroot_accept_fn | ps2_accept_fn
  | serial_accept_fn | video_accept_fn | rtl8139_accept_fn.

#[export] Instance accept_fn_eq_dec : EqDecision accept_fn.
Proof. solve_decision. Defined.

(** The union selected by [is_user].  [cleanup] is [procfs_cleanup] or [NULL]. *)
Inductive backend_impl :=
| be_user (handler : option ptr)
| be_kern (accept : accept_fn) (cleanup : bool) (data : option ptr).

Record VfsBackend := mkBackend {
  b_usehcnt : Z;
  b_provhcnt : Z;
  b_queue : option ptr;
  b_impl : backend_impl;
}.
#[export] Instance backend_settable : Settable VfsBackend := fun b =>
  mkBackend (b_usehcnt b) (b_provhcnt b) (b_queue b) (b_impl b).

Definition b_is_user (b : VfsBackend) : bool :=
  match b_impl b with be_user _ => true | _ => false end.

(** ** Mounts *)

Record VfsMount := mkMount {
  m_prev : option ptr;
  m_prefix : ptr;
  m_prefix_len : Z;
  m_prefix_owned : bool;
  m_backend : option ptr;
  m_refs : Z;
}.
#[export] Instance mount_settable : Settable VfsMount := fun m =>
  mkMount (m_prev m) (m_prefix m) (m_prefix_len m) (m_prefix_owned m) (m_backend m)
    (m_refs m).

(** ** The open files of procfs *)

Inductive phandle_type := PhRoot | PhDir | PhIntr | PhIntrDown | PhMem.

#[export] Instance phandle_type_eq_dec : EqDecision phandle_type.
Proof. solve_decision. Defined.

Record phandle := mkPhandle { ph_gid : Z; ph_type : phandle_type }.

(** [struct GfxInfo], as far as the driver uses it. *)
Record GfxInfo := mkGfx { fb_b : Z; fb_size : Z }.

(** What the driver of the network card keeps and sees of the card (the ring
    itself, its bytes and its registers are in [Rtl8139]): the frames in the
    ring from [rxpos] on, each with its checksum; whether the card is done with
    the next buffer for sending; whether its interrupt is enabled; what was
    sent, with the buffers it was sent from. *)
Record Eth := mkEth {
  eth_rx : list (list Z);
  eth_own : bool;
  eth_rxpos : Z;
  eth_mask : bool;
  eth_desc : Z;
  eth_sent : list (Z * list Z);
}.
#[export] Instance eth_settable : Settable Eth := fun x =>
  mkEth (eth_rx x) (eth_own x) (eth_rxpos x) (eth_mask x) (eth_desc x) (eth_sent x).

(** ** The whole state *)

Record kstate := mkKState {
  k_alloc : alloc;                     (* pages, page tables, user memory *)
  procs : gmap ptr Proc;
  handles : gmap ptr Handle;
  htables : gmap ptr (list (option ptr));
  cells : gmap ptr Z;                  (* kmalloc'ed reference counts *)
  reqs : gmap ptr VfsReq;
  backends : gmap ptr VfsBackend;
  mounts : gmap ptr VfsMount;
  bufs : gmap ptr (list Z);            (* kmalloc'ed or static byte buffers *)
  phandles : gmap ptr phandle;
  next_ptr : ptr;                      (* the next address [kmalloc] returns *)
  proc_first : option ptr;
  proc_cur : option ptr;
  dead_leaves : option ptr;
  next_pid : Z;
  mount_root : option ptr;
  pagedir_current : Z;
  scheduled : option ptr;              (* time.c *)
  hpet_counter : option Z;             (* None: [hpet] is NULL *)
  hpet_period : Z;
  hpet_timval : option Z;              (* the comparator; None: disabled *)
  kb_queue : option ptr;               (* ps2.c *)
  kb_backlog : ring_t;
  mouse_queue : option ptr;
  mouse_backlog : ring_t;
  hung_reads : option ptr;             (* serial.c *)
  backlog : ring_t;
  serial_out : list Z;                 (* what was sent to the port *)
  fsroot_dev : option (list Z);        (* fsroot.c: [dev], [dev_len] *)
  fb : GfxInfo;                        (* video.c *)
  namebuf : list Z;
  eth_blocked : option ptr;            (* rtl8139.c: [blocked_on] *)
  eth : Eth;
}.
#[export] Instance kstate_settable : Settable kstate := fun s =>
  mkKState (k_alloc s) (procs s) (handles s) (htables s) (cells s) (reqs s)
    (backends s) (mounts s) (bufs s) (phandles s) (next_ptr s) (proc_first s)
    (proc_cur s) (dead_leaves s) (next_pid s) (mount_root s) (pagedir_current s)
    (scheduled s) (hpet_counter s) (hpet_period s) (hpet_timval s) (kb_queue s)
    (kb_backlog s) (mouse_queue s) (mouse_backlog s) (hung_reads s) (backlog s)
    (serial_out s) (fsroot_dev s) (fb s) (namebuf s) (eth_blocked s) (eth s).

(** The ways out of the kernel: to the user code of the current process, to
    [cpu_pause] until an interrupt, and for good. *)
Inductive kexit := Sysexit | Idle | Shutdown.

#[export] Instance kexit_eq_dec : EqDecision kexit.
Proof. solve_decision. Defined.

Abbreviation K := (ST kstate kexit).

(** ** Typed stores *)

Class KObj (T : Type) := {
  store_of : kstate -> gmap ptr T;
  set_store : (gmap ptr T -> gmap ptr T) -> kstate -> kstate;
}.

#[export] Instance obj_Proc : KObj Proc := {| store_of := procs; set_store := set procs |}.
#[export] Instance obj_Handle : KObj Handle := {| store_of := handles; set_store := set handles |}.
#[export] Instance obj_htable : KObj (list (option ptr)) :=
  {| store_of := htables; set_store := set htables |}.
#[export] Instance obj_cell : KObj Z := {| store_of := cells; set_store := set cells |}.
#[export] Instance obj_Req : KObj VfsReq := {| store_of := reqs; set_store := set reqs |}.
#[export] Instance obj_Backend : KObj VfsBackend :=
  {| store_of := backends; set_store := set backends |}.
#[export] Instance obj_Mount : KObj VfsMount := {| store_of := mounts; set_store := set mounts |}.
#[export] Instance obj_buf : KObj (list Z) := {| store_of := bufs; set_store := set bufs |}.
#[export] Instance obj_phandle : KObj phandle :=
  {| store_of := phandles; set_store := set phandles |}.

Section access.
Context {T : Type} `{KObj T}.

(** Reading and changing what [p] points to, [kmalloc] with its
    initialisation, [kfree]. *)
Definition rd (p : ptr) : K T :=
  s ← get_; deref (store_of s !! p).

Definition wr (p : ptr) (f : T -> T) : K () :=
  s ← get_;
  x ← deref (store_of s !! p);
  put_ (set_store (<[p := f x]>) s).

Definition new (x : T) : K ptr :=
  p ← gets next_ptr;
  modify (fun s => set_store (<[p := x]>) s <| next_ptr ::= Pos.succ |>);;
  mret p.

Definition del (p : ptr) : K () :=
  _ ← rd p; modify (set_store (delete p)).

(** [p->f], [p->f = v], [p->f = g(p->f)] *)
Definition getf {A} (f : T -> A) (p : ptr) : K A := x ← rd p; mret (f x).
Definition setf {A} (f : T -> A) `{!Setter f} (p : ptr) (v : A) : K () :=
  wr p (fun x => x <| f := v |>).
Definition modf {A} (f : T -> A) `{!Setter f} (p : ptr) (g : A -> A) : K () :=
  wr p (fun x => x <| f ::= g |>).
End access.

#[global] Arguments getf {T _ A} f p.
#[global] Arguments setf {T _ A} f {_} p v.
#[global] Arguments modf {T _ A} f {_} p g.
#[global] Arguments new {T _} x.
#[global] Arguments del T {_} p.

Definition getp {A} (f : kstate -> A) : K A := gets f.
Definition setp {A} (f : kstate -> A) `{!Setter f} (v : A) : K () :=
  modify (fun s => s <| f := v |>).

(** An operation of the allocator or the page tables, run on [k_alloc].  They
    have no exit of their own. *)
Definition on_alloc {A} (m : ST alloc Empty_set A) : K A := fun s =>
  match m (k_alloc s) with
  | Val a t => Val a (s <| k_alloc := t |>)
  | Exit e t => match e : Empty_set with end
  | Fault x => Fault x
  end.

(** A kernel buffer's contents; [kfree(NULL)] is allowed. *)
Definition kfree_buf (b : option ptr) : K () :=
  match b with Some b => del (list Z) b | None => mret () end.

(** The bound of a walk over a linked structure of processes (requests,
    mounts): a chain that is not cyclic has no more nodes than the store. *)
Definition proc_count (s : kstate) : nat := S (size (procs s)).
Definition req_count (s : kstate) : nat := S (size (reqs s)).
Definition mount_count (s : kstate) : nat := S (size (mounts s)).

Definition op_eqb (a b : option ptr) : bool := bool_decide (a = b).

Definition is_some {A} (o : option A) : bool := match o with Some _ => true | None => false end.

(** [regs_savereturn] *)
Definition regs_savereturn (p : ptr) (value : Z) : K () :=
  modf p_regs p (fun r => r <| rax := u64 value |>).

(** The state of a booted machine before any object exists: the static handle
    of [HANDLE_NULLFS] is the only object. *)
Definition nullfs_handle : ptr := 1%positive.
Definition ring_empty (cap : nat) : ring_t := mkRing (replicate cap 0) (Z.of_nat cap) 0 0.

Definition kstate0 (a : alloc) : kstate :=
  mkKState a ∅ {[nullfs_handle := handle0 <| h_type := HANDLE_FS_FRONT |> <| h_refcount := 2 |>]}
    ∅ ∅ ∅ ∅ ∅ ∅ ∅ 2%positive None None None 1 None 0 None None 0 None
    None (ring_empty 64) None (ring_empty 64) None (ring_empty 64) [] None (mkGfx 0 0) []
    None (mkEth [] true 0 false 0 []).

(** ** Running an access

    [bind_runs] runs the first operation of a sequence when its outcome is
    known; the lemmas after it are the outcomes of the accesses. *)

Lemma bind_runs {A B} (m : K A) (f : A -> K B) s r :
  runs m s (fun a s' => f a s' = r) -> (m ≫= f) s = r.
Proof. unfold runs, mbind, st_bind. destruct (m s); [done|done|done]. Qed.

Section outcomes.
Context {T : Type} `{KObj T}.

Lemma runs_rd p s x (Q : T -> kstate -> Prop) :
  store_of s !! p = Some x -> Q x s -> runs (rd p) s Q.
Proof. intros E HQ. unfold runs, rd, mbind, st_bind, get_. by rewrite E. Qed.

Lemma runs_getf {A} (f : T -> A) p s x (Q : A -> kstate -> Prop) :
  store_of s !! p = Some x -> Q (f x) s -> runs (getf f p) s Q.
Proof. intros E HQ. unfold runs, getf, rd, mbind, st_bind, get_. by rewrite E. Qed.

Lemma runs_wr p f s x (Q : () -> kstate -> Prop) :
  store_of s !! p = Some x -> Q () (set_store (<[p := f x]>) s) -> runs (wr p f) s Q.
Proof. intros E HQ. unfold runs, wr, mbind, st_bind, get_. by rewrite E. Qed.

Lemma runs_new x s (Q : ptr -> kstate -> Prop) :
  Q (next_ptr s) (set_store (<[next_ptr s := x]>) s <| next_ptr ::= Pos.succ |>) ->
  runs (new x) s Q.
Proof. done. Qed.

Lemma runs_del p s x (Q : () -> kstate -> Prop) :
  store_of s !! p = Some x -> Q () (set_store (delete p) s) -> runs (del T p) s Q.
Proof. intros E HQ. unfold runs, del, rd, mbind, st_bind, get_. by rewrite E. Qed.
End outcomes.

Lemma runs_getp {A} (f : kstate -> A) s (Q : A -> kstate -> Prop) :
  Q (f s) s -> runs (getp f) s Q.
Proof. done. Qed.

Lemma runs_setp {A} (f : kstate -> A) `{!Setter f} v s (Q : () -> kstate -> Prop) :
  Q () (s <| f := v |>) -> runs (setp f v) s Q.
Proof. done. Qed.

(** [kstep_tac]: the outcome of the next access, with the lookups the context
    knows. *)
Ltac klookup := cbn; by simplify_map_eq.
Ltac kaccess :=
  match goal with
  | |- runs (getf _ _) _ _ => eapply runs_getf; [klookup|]
  | |- runs (rd _) _ _ => eapply runs_rd; [klookup|]
  | |- runs (setf _ _ _) _ _ => eapply runs_wr; [klookup|]
  | |- runs (modf _ _ _) _ _ => eapply runs_wr; [klookup|]
  | |- runs (wr _ _) _ _ => eapply runs_wr; [klookup|]
  | |- runs (new _) _ _ => apply runs_new
  | |- runs (del _ _) _ _ => eapply runs_del; [klookup|]
  | |- runs (getp _) _ _ => apply runs_getp
  | |- runs (setp _ _) _ _ => apply runs_setp
  | |- runs (gets _) _ _ => apply runs_gets
  | |- runs (mret _) _ _ => apply runs_ret
  | |- runs (assert _) _ _ => apply runs_assert; [try reflexivity|]
  | |- runs (deref (Some _)) _ _ => apply runs_ret
  | |- runs (_ ≫= _) _ _ => apply runs_bind
  | |- (_ ≫= _) _ = _ => apply bind_runs
  end.
