(* ===== verification/Elfload.v ===== *)
(** * Elfload

    Loading a program ([src/src/libc/elfload.c]): the segments of an ELF file
    that is in memory are copied to where they are to run.  The file and the
    program it becomes are in the same address space, of which only some pages
    are there; where a free range lies is the kernel's to say. *)

From S2P Require Import Prelude Mem Buf Malloc Paging KState PageTable.

(** ** The address space *)

(** Its bytes, and the numbers of the pages that are mapped. *)
Record space := mkSpace { am : mem; mapped : gset Z }.

#[export] Instance space_settable : Settable space := fun s => mkSpace (am s) (mapped s).

(** The pages that [n] bytes at [a] touch. *)
Definition pages_of (a n : Z) : list Z :=
  if n <=? 0 then [] else seqZ (a / PAGE_SIZE) ((a + n - 1) / PAGE_SIZE - a / PAGE_SIZE + 1).

Definition accessible (s : space) (a n : Z) : bool :=
  forallb (fun p => bool_decide (p ∈ mapped s)) (pages_of a n).

(** A field of [n] bytes. *)
Definition field (s : space) (a : Z) (n : nat) : res Z :=
  if accessible s a (Z.of_nat n) then Ok (le_value (bytes_at (am s) a n)) else Err Undefined.

Definition copy (s : space) (dst src n : Z) : res space :=
  if accessible s dst n && accessible s src n
  then Ok (s <| am := memcpy (am s) dst src (Z.to_nat n) |>) else Err Undefined.

(** [_sys_memflag] with [MEMFLAG_PRESENT], as the process sees it: the pages
    from the one of [addr] on, as many as [len] bytes take, are mapped; a new
    one is filled with zeros. *)
Definition map_page (s : space) (p : Z) : space :=
  if bool_decide (p ∈ mapped s) then s
  else mkSpace (write_bytes (am s) (p * PAGE_SIZE) (replicate (Z.to_nat PAGE_SIZE) 0))
         ({[p]} ∪ mapped s).

Definition pages_from (addr len : Z) : list Z :=
  seqZ (addr / PAGE_SIZE) ((len + PAGE_SIZE - 1) / PAGE_SIZE).

Definition memflag_map (addr len : Z) (s : space) : space := foldl map_page s (pages_from addr len).

(** Without flags: they are unmapped. *)
Definition memflag_unmap (addr len : Z) (s : space) : space :=
  s <| mapped ::= fun m => m ∖ list_to_set (pages_from addr len) |>.

(** ** The format *)

Definition ET_EXEC : Z := 2.
Definition ET_DYN : Z := 3.
Definition EM_X86_64 : Z := 62.
Definition PT_LOAD : Z := 1.
Definition PT_DYNAMIC : Z := 2.
Definition PT_GNU_STACK : Z := 0x6474e551.

Record Elf64_Ehdr := mkEhdr {
  e_type : Z; e_machine : Z; e_version : Z; e_entry : Z;
  e_phoff : Z; e_phentsize : Z; e_phnum : Z;
}.

Record Elf64_Phdr := mkPhdr {
  p_type : Z; p_offset : Z; p_vaddr : Z; p_filesz : Z; p_memsz : Z;
}.

(** The fields that the loader uses, at their offsets. *)
Definition read_ehdr (s : space) (h : Z) : res Elf64_Ehdr :=
  t ← field s (h + 16) 2;
  m ← field s (h + 18) 2;
  v ← field s (h + 20) 4;
  e ← field s (h + 24) 8;
  o ← field s (h + 32) 8;
  z ← field s (h + 54) 2;
  n ← field s (h + 56) 2;
  Ok (mkEhdr t m v e o z n).

Definition read_phdr (s : space) (p : Z) : res Elf64_Phdr :=
  t ← field s p 4;
  o ← field s (p + 8) 8;
  v ← field s (p + 16) 8;
  f ← field s (p + 32) 8;
  m ← field s (p + 40) 8;
  Ok (mkPhdr t o v f m).

Definition phdr_at (elf : Z) (e : Elf64_Ehdr) (idx : Z) : Z :=
  u64 (elf + e_phoff e + idx * e_phentsize e).

Section loader.
(** The kernel's choice of a free range ([MEMFLAG_FINDFREE]). *)
Variable findfree : Z -> Z -> gset Z -> Z.

Definition valid_ehdr (s : space) (h : Z) : res bool :=
  magic ← field s h 4;
  if negb (magic =? le_value [0x7f; 69; 76; 70]) then Ok false
  else
    m ← field s (h + 18) 2;
    v ← field s (h + 20) 4;
    Ok ((m =? EM_X86_64) && (v =? 1)).

(** Whether the segment is known; the message that it is not is left out. *)
Definition load_phdr (elf exebase idx : Z) (s : space) : res (bool * space) :=
  e ← read_ehdr s elf;
  ph ← read_phdr s (phdr_at elf e idx);
  if (p_type ph =? PT_DYNAMIC) || (p_type ph =? PT_GNU_STACK) then Ok (true, s)
  else if p_type ph =? PT_LOAD then
    let s := memflag_map (u64 (exebase + p_vaddr ph)) (p_memsz ph) s in
    s ← copy s (u64 (exebase + p_vaddr ph)) (u64 (elf + p_offset ph)) (p_filesz ph);
    Ok (true, s)
  else Ok (false, s).

(** The highest and the lowest address. *)
Definition spread_phdr (s : space) (elf : Z) (e : Elf64_Ehdr) (phi : Z) (hl : Z * Z) : res (Z * Z) :=
  let '(high, low) := hl in
  ph ← read_phdr s (phdr_at elf e phi);
  let top := u64 (p_vaddr ph + p_memsz ph) in
  Ok (if high <? top then top else high, if p_vaddr ph <? low then p_vaddr ph else low).

Definition elf_spread (elf : Z) (s : space) : res Z :=
  e ← read_ehdr s elf;
  '(high, low) ← for_from (spread_phdr s elf e) 0 (Z.to_nat (e_phnum e)) (0, 2 ^ 64 - 1);
  Ok (u64 (high - low)).

(** The headers from [idx] on; a segment that is not known stops the loop. *)
Fixpoint load_all (n : nat) (elf exebase idx : Z) (s : space) : res (bool * space) :=
  match n with
  | O => Ok (true, s)
  | S n =>
      '(ok, s) ← load_phdr elf exebase idx s;
      if (ok : bool) then load_all n elf exebase (idx + 1) s else Ok (false, s)
  end.

(** Where the program is; 0 if it could not be loaded. *)
Definition elf_loadmem (elf : Z) (s : space) : res (Z * space) :=
  spread ← elf_spread elf s;
  e ← read_ehdr s elf;
  let load exebase :=
    '(ok, s) ← load_all (Z.to_nat (e_phnum e)) elf exebase 0 s;
    Ok (if (ok : bool) then (exebase, s) else (0, memflag_unmap exebase spread s)) in
  if e_type e =? ET_EXEC then load 0
  else if e_type e =? ET_DYN then
    let exebase := findfree 0x1000 spread (mapped s) in
    if exebase =? 0 then Ok (0, s) else load exebase
  else Ok (0, s).

(** The entry point. *)
Definition elf_partialexec (base : Z) (s : space) : res (Z * space) :=
  v ← valid_ehdr s base;
  if negb v then Ok (0, s)
  else
    '(exebase, s) ← elf_loadmem base s;
    if exebase =? 0 then Ok (0, s)
    else e ← read_ehdr s base; Ok (u64 (exebase + e_entry e), s).
End loader.

(** ** The address space under the loader *)

Lemma page_of_sub a b : 0 <= b < PAGE_SIZE -> a mod PAGE_SIZE = 0 -> (a + b) / PAGE_SIZE = a / PAGE_SIZE.
Proof. unfold PAGE_SIZE. intros Hb Ha. Z.div_mod_to_equations. lia. Qed.

Lemma elem_of_pages_of a n p :
  p ∈ pages_of a n <-> 0 < n /\ a / PAGE_SIZE <= p <= (a + n - 1) / PAGE_SIZE.
Proof.
  unfold pages_of. destruct (Z.leb_spec n 0).
  - split; [by intros ?%not_elem_of_nil|lia].
  - rewrite elem_of_seqZ. lia.
Qed.

Lemma accessible_spec s a n :
  accessible s a n = true <-> forall x, a <= x < a + n -> x / PAGE_SIZE ∈ mapped s.
Proof.
  unfold accessible. rewrite forallb_forall. split.
  - intros Hp x Hx. apply (proj1 (bool_decide_eq_true _)), Hp, list_elem_of_In, elem_of_pages_of.
    unfold PAGE_SIZE. split; [lia|]. split; apply Z.div_le_mono; lia.
  - intros Hp p [Hn Hpp]%list_elem_of_In%elem_of_pages_of. apply bool_decide_eq_true.
    destruct (decide (p = a / PAGE_SIZE)) as [->|]; [apply Hp; lia|].
    unfold PAGE_SIZE in *. replace p with (p * 4096 / 4096) by (apply Z.div_mul; lia).
    apply Hp. Z.div_mod_to_equations. lia.
Qed.

Lemma accessible_mono s s' a n :
  mapped s ⊆ mapped s' -> accessible s a n = true -> accessible s' a n = true.
Proof. rewrite !accessible_spec. set_solver. Qed.

(** [s'] has what [s] had where [s] had something. *)
Record extends (s s' : space) : Prop := {
  ext_mapped : mapped s ⊆ mapped s';
  ext_bytes : forall a, a / PAGE_SIZE ∈ mapped s -> ld (am s') a = ld (am s) a;
}.

#[export] Instance extends_preorder : PreOrder extends.
Proof.
  split; [by split|]. intros s1 s2 s3 [Hm Hb] [Hm' Hb']. split; [set_solver|].
  intros a Ha. rewrite Hb' by set_solver. by apply Hb.
Qed.

Lemma field_extends s s' a n v : extends s s' -> field s a n = Ok v -> field s' a n = Ok v.
Proof.
  intros [Hm Hb]. unfold field. destruct (accessible s a _) eqn:Ha; [|done].
  rewrite (accessible_mono _ _ _ _ Hm Ha). intros <-. do 2 f_equal. apply bytes_at_ext.
  intros i Hi. apply Hb. rewrite accessible_spec in Ha. apply Ha. lia.
Qed.

Lemma read_ehdr_extends s s' h e : extends s s' -> read_ehdr s h = Ok e -> read_ehdr s' h = Ok e.
Proof.
  intros Hx. unfold read_ehdr. rewrite !bind_ok. repeat setoid_rewrite bind_ok.
  intros (?&?&?&?&?&?&?&?&?&?&?&?&?&?&?). repeat (eexists; split; [by eapply field_extends|]). done.
Qed.

Lemma read_phdr_extends s s' h e : extends s s' -> read_phdr s h = Ok e -> read_phdr s' h = Ok e.
Proof.
  intros Hx. unfold read_phdr. rewrite !bind_ok. repeat setoid_rewrite bind_ok.
  intros (?&?&?&?&?&?&?&?&?&?&?). repeat (eexists; split; [by eapply field_extends|]). done.
Qed.

(** Mapping pages. *)
Record mapped_more (ps : list Z) (s s' : space) : Prop := {
  more_mapped p : p ∈ mapped s' <-> p ∈ ps \/ p ∈ mapped s;
  more_bytes a : ld (am s') a =
    if decide (a / PAGE_SIZE ∈ ps /\ a / PAGE_SIZE ∉ mapped s) then 0 else ld (am s) a;
}.

Lemma map_page_more s p : mapped_more [p] s (map_page s p).
Proof.
  unfold map_page. case_bool_decide as Hp; split.
  - set_solver.
  - intros a. rewrite decide_False; [done|]. set_solver.
  - set_solver.
  - intros a. cbn [am]. rewrite ld_write_bytes, length_replicate.
    assert (p * PAGE_SIZE <= a < p * PAGE_SIZE + Z.of_nat (Z.to_nat PAGE_SIZE) <-> a / PAGE_SIZE = p) as Hpa.
    { unfold PAGE_SIZE. Z.div_mod_to_equations. lia. }
    destruct (decide (a / PAGE_SIZE = p)) as [<-|Hne].
    + rewrite !decide_True by (set_solver || tauto).
      destruct (replicate _ 0 !! _) eqn:Hr; [|done]. by apply lookup_replicate in Hr as [-> _].
    + rewrite decide_False by tauto. rewrite decide_False; [done|]. set_solver.
Qed.

Lemma map_pages_more ps s : mapped_more ps s (foldl map_page s ps).
Proof.
  revert s; induction ps as [|p ps IH]; intros s; cbn [foldl].
  - split; [set_solver|]. intros a. rewrite decide_False; [done|]. set_solver.
  - destruct (map_page_more s p) as [Hm Hb]. destruct (IH (map_page s p)) as [Hm' Hb']. split.
    + intros q. rewrite Hm', Hm. set_solver.
    + intros a. rewrite Hb', Hb.
      repeat case_decide; try done; exfalso; set_solver.
Qed.

(** ** Files that can be loaded *)

Definition is_load (ph : Elf64_Phdr) : bool := p_type ph =? PT_LOAD.

(** The address behind the last segment. *)
Definition span (phs : list Elf64_Phdr) : Z := foldr (fun ph z => Z.max (p_vaddr ph + p_memsz ph) z) 0 phs.

(** [memflag] maps as many pages as the size takes, from the first one on: the
    segment is inside them, or at least what the file has of it. *)
Definition pages_suffice (ph : Elf64_Phdr) : Prop :=
  p_vaddr ph mod PAGE_SIZE + p_memsz ph <= (p_memsz ph + PAGE_SIZE - 1) / PAGE_SIZE * PAGE_SIZE.

Definition contents_fit (ph : Elf64_Phdr) : Prop :=
  p_vaddr ph mod PAGE_SIZE + p_filesz ph <= (p_memsz ph + PAGE_SIZE - 1) / PAGE_SIZE * PAGE_SIZE \/
  p_filesz ph = 0.

(** The pages of a program at [base]. *)
Definition image_pages (base : Z) (phs : list Elf64_Phdr) : list Z :=
  concat ((fun ph => if is_load ph then pages_from (base + p_vaddr ph) (p_memsz ph) else []) <$> phs).

(** What the loader relies on: the headers [phs] of the image at [elf] can be
    read and are known, the contents of the segments are in memory, the
    segments do not overlap and begin at 0. *)
Record loadable (s : space) (elf : Z) (e : Elf64_Ehdr) (phs : list Elf64_Phdr) : Prop := {
  lo_ehdr : read_ehdr s elf = Ok e;
  lo_type : e_type e = ET_DYN;
  lo_phnum : Z.of_nat (length phs) = e_phnum e;
  lo_phdr i ph : phs !! i = Some ph -> read_phdr s (phdr_at elf e (Z.of_nat i)) = Ok ph;
  lo_known ph : ph ∈ phs -> p_type ph = PT_LOAD \/ p_type ph = PT_DYNAMIC \/ p_type ph = PT_GNU_STACK;
  lo_range ph : ph ∈ phs -> 0 <= p_vaddr ph /\ 0 <= p_memsz ph /\ p_vaddr ph + p_memsz ph < 2 ^ 47;
  lo_zero : exists ph, ph ∈ phs /\ p_vaddr ph = 0;
  lo_file ph : ph ∈ phs -> is_load ph = true ->
    0 <= p_filesz ph <= p_memsz ph /\ 0 <= elf + p_offset ph < 2 ^ 64 /\
    accessible s (elf + p_offset ph) (p_filesz ph) = true /\ contents_fit ph;
  lo_disjoint i j phi phj : phs !! i = Some phi -> phs !! j = Some phj -> i <> j ->
    is_load phi = true -> is_load phj = true ->
    p_vaddr phi + p_memsz phi <= p_vaddr phj \/ p_vaddr phj + p_memsz phj <= p_vaddr phi;
}.

(** A range that [findfree] may give. *)
Definition free_range (s : space) (base len : Z) : Prop :=
  0 < base /\ base mod PAGE_SIZE = 0 /\ base + len < 2 ^ 47 /\
  forall x, base <= x < base + len -> x / PAGE_SIZE ∉ mapped s.

(** The byte at [a] once the segments [phs] are at [base]. *)
Definition in_file (base : Z) (a : Z) (ph : Elf64_Phdr) : bool :=
  is_load ph && (base + p_vaddr ph <=? a) && (a <? base + p_vaddr ph + p_filesz ph).

Fixpoint image (s : space) (elf base : Z) (phs : list Elf64_Phdr) (a : Z) : Z :=
  match phs with
  | [] => 0
  | ph :: phs =>
      if in_file base a ph then ld (am s) (elf + p_offset ph + (a - (base + p_vaddr ph)))
      else image s elf base phs a
  end.

Lemma image_snoc s elf base phs ph a :
  image s elf base (phs ++ [ph]) a =
  if existsb (in_file base a) phs then image s elf base phs a
  else if in_file base a ph then ld (am s) (elf + p_offset ph + (a - (base + p_vaddr ph))) else 0.
Proof.
  induction phs as [|q phs IH]; cbn [app image existsb]; [done|].
  by destruct (in_file base a q); cbn.
Qed.

Lemma image_none s elf base phs a : existsb (in_file base a) phs = false -> image s elf base phs a = 0.
Proof.
  induction phs as [|q phs IH]; cbn [image existsb]; [done|].
  destruct (in_file base a q); cbn; [done|auto].
Qed.

Lemma existsb_in_file base a phs :
  existsb (in_file base a) phs = true <-> exists j ph, phs !! j = Some ph /\ in_file base a ph = true.
Proof.
  rewrite existsb_exists. split.
  - intros (ph&Hin&Hf). apply list_elem_of_In, list_elem_of_lookup in Hin as [j Hj]. eauto.
  - intros (j&ph&Hj&Hf). exists ph. split; [|done]. apply list_elem_of_In. by eapply list_elem_of_lookup_2.
Qed.

Lemma in_file_true base a ph :
  in_file base a ph = true <->
  is_load ph = true /\ base + p_vaddr ph <= a < base + p_vaddr ph + p_filesz ph.
Proof. unfold in_file. rewrite !andb_true_iff, Z.leb_le, Z.ltb_lt. tauto. Qed.

Lemma span_max ph phs : ph ∈ phs -> p_vaddr ph + p_memsz ph <= span phs.
Proof.
  unfold span. induction phs as [|q phs IH]; [by intros ?%not_elem_of_nil|].
  intros [->|Hin]%elem_of_cons; cbn; [lia|]. specialize (IH Hin). lia.
Qed.

Lemma span_bound b phs : 0 <= b -> (forall ph, ph ∈ phs -> p_vaddr ph + p_memsz ph <= b) -> 0 <= span phs <= b.
Proof.
  intros Hb. unfold span. induction phs as [|q phs IH]; intros Hph; cbn; [lia|].
  pose proof (Hph q ltac:(set_solver)). specialize (IH ltac:(set_solver)). lia.
Qed.

(** ** Loading *)

Section loading.
Context (s0 : space) (elf : Z) (e : Elf64_Ehdr) (phs : list Elf64_Phdr) (base : Z).
Hypothesis Hlo : loadable s0 elf e phs.
Hypothesis Hfree : free_range s0 base (span phs).

(** The first [i] segments are loaded. *)
Record loaded (i : nat) (s : space) : Prop := {
  ld_ext : extends s0 s;
  ld_new a : a / PAGE_SIZE ∈ mapped s -> a / PAGE_SIZE ∉ mapped s0 ->
    ld (am s) a = image s0 elf base (take i phs) a;
  ld_mapped j ph : (j < i)%nat -> phs !! j = Some ph -> is_load ph = true ->
    accessible s (base + p_vaddr ph) (p_filesz ph) = true;
  ld_pages p : p ∈ mapped s <-> p ∈ mapped s0 \/ p ∈ image_pages base (take i phs);
}.

Lemma loaded_0 : loaded 0 s0.
Proof. split; [done|by intros|by intros; lia|]. intros p. cbn. rewrite elem_of_nil. tauto. Qed.

Lemma image_pages_snoc l ph :
  image_pages base (l ++ [ph]) =
  image_pages base l ++ if is_load ph then pages_from (base + p_vaddr ph) (p_memsz ph) else [].
Proof. unfold image_pages. rewrite fmap_app, concat_app. cbn. by rewrite app_nil_r. Qed.

(** Where a segment goes, nothing was. *)
Lemma segment_free ph x :
  ph ∈ phs -> base + p_vaddr ph <= x < base + p_vaddr ph + p_memsz ph -> x / PAGE_SIZE ∉ mapped s0.
Proof.
  intros Hin Hx. destruct Hfree as (_&_&_&Hf). apply Hf.
  pose proof (span_max _ _ Hin). pose proof (lo_range _ _ _ _ Hlo _ Hin). lia.
Qed.

(** The pages that are mapped for a segment hold its contents, ... *)
Lemma segment_pages ph x :
  ph ∈ phs -> is_load ph = true -> base + p_vaddr ph <= x < base + p_vaddr ph + p_filesz ph ->
  x / PAGE_SIZE ∈ pages_from (base + p_vaddr ph) (p_memsz ph).
Proof.
  intros Hin Hl Hx. destruct (lo_file _ _ _ _ Hlo _ Hin Hl) as (_&_&_&[Hp|?]); [|lia].
  destruct Hfree as (_&Hb&_). unfold pages_from.
  apply elem_of_seqZ. unfold PAGE_SIZE in *. Z.div_mod_to_equations. lia.
Qed.

(** ... all of it if they suffice, ... *)
Lemma segment_pages_all ph x :
  pages_suffice ph -> base + p_vaddr ph <= x < base + p_vaddr ph + p_memsz ph ->
  x / PAGE_SIZE ∈ pages_from (base + p_vaddr ph) (p_memsz ph).
Proof.
  intros Hp Hx. destruct Hfree as (_&Hb&_). unfold pages_suffice in Hp. unfold pages_from.
  apply elem_of_seqZ. unfold PAGE_SIZE in *. Z.div_mod_to_equations. lia.
Qed.

(** ... and were not there before. *)
Lemma segment_pages_new ph p :
  ph ∈ phs -> is_load ph = true -> p ∈ pages_from (base + p_vaddr ph) (p_memsz ph) -> p ∉ mapped s0.
Proof.
  intros Hin Hl Hp. unfold pages_from in Hp. apply elem_of_seqZ in Hp.
  set (x := Z.max (base + p_vaddr ph) (p * PAGE_SIZE)).
  assert (x / PAGE_SIZE = p /\ base + p_vaddr ph <= x < base + p_vaddr ph + p_memsz ph) as [Hxp Hx].
  { subst x. unfold PAGE_SIZE in *. Z.div_mod_to_equations. lia. }
  rewrite <- Hxp. by apply (segment_free ph).
Qed.

Lemma skipped_loaded i ph s : phs !! i = Some ph -> is_load ph = false -> loaded i s -> loaded (S i) s.
Proof.
  intros Hi Hl [Hx Hn Hm Hpg]. split; [done| | |].
  - intros a Ha Ha0. rewrite (take_S_r _ _ ph), image_snoc, Hn by done.
    unfold in_file at 2. rewrite Hl. cbn [andb].
    destruct (existsb _ _) eqn:Ex; [done|]. by rewrite image_none.
  - intros j q Hj Hq Hlq. destruct (decide (j = i)) as [->|]; [congruence|]. apply (Hm j); lia || done.
  - intros p. by rewrite (take_S_r _ _ ph), image_pages_snoc, Hl, app_nil_r by done.
Qed.

(** Nothing of an earlier segment is where a segment goes. *)
Lemma not_covered i ph a :
  phs !! i = Some ph -> is_load ph = true ->
  base + p_vaddr ph <= a < base + p_vaddr ph + p_memsz ph ->
  existsb (in_file base a) (take i phs) = false.
Proof.
  intros Hi Hl Ha. apply not_true_is_false. intros (j&q&Hj&[Hlq Hq]%in_file_true)%existsb_in_file.
  pose proof (lookup_lt_Some _ _ _ Hj) as Hlt. rewrite length_take in Hlt.
  rewrite lookup_take_lt in Hj by lia.
  destruct (lo_file _ _ _ _ Hlo q (list_elem_of_lookup_2 _ _ _ Hj) Hlq) as (Hf&_).
  destruct (lo_disjoint _ _ _ _ Hlo j i q ph) as [?|?]; try done; lia.
Qed.

Lemma copied_loaded i ph s s1 m2 :
  phs !! i = Some ph -> is_load ph = true -> loaded i s ->
  mapped_more (pages_from (base + p_vaddr ph) (p_memsz ph)) s s1 ->
  copied (am s1) m2 (base + p_vaddr ph) (elf + p_offset ph) (p_filesz ph) ->
  loaded (S i) (s1 <| am := m2 |>).
Proof.
  intros Hi Hl [Hx Hn Hm Hpg] [Hmap Hby] Hcp. pose proof (list_elem_of_lookup_2 _ _ _ Hi) as Hin.
  destruct (lo_file _ _ _ _ Hlo _ Hin Hl) as (Hf&_&Hacc&_).
  assert (extends s0 s1) as Hx1.
  { split; [intros p Hp; apply Hmap; right; by apply (ext_mapped _ _ Hx)|].
    intros a Ha. rewrite Hby, decide_False; [by apply Hx|].
    intros [_ Hna]. by apply Hna, (ext_mapped _ _ Hx). }
  split; cbn.
  - split; [apply Hx1|]. intros a Ha. cbn. rewrite Hcp, decide_False; [by apply Hx1|].
    intros Hr. eapply (segment_free ph a); [done|lia|done].
  - intros a Ha Ha0. rewrite Hcp, (take_S_r _ _ ph Hi), image_snoc.
    destruct (decide (base + p_vaddr ph <= a < base + p_vaddr ph + p_filesz ph)) as [Hr|Hr].
    + rewrite (not_covered i ph) by (done || lia). rewrite (proj2 (in_file_true base a ph)) by done.
      apply Hx1. rewrite accessible_spec in Hacc. apply Hacc. lia.
    + rewrite Hby. destruct (in_file base a ph) eqn:Hif; [apply in_file_true in Hif; tauto|].
      destruct (decide (a / PAGE_SIZE ∈ mapped s)) as [Hms|Hms].
      * rewrite decide_False by tauto. rewrite Hn by done.
        destruct (existsb _ _) eqn:Ex; [done|by rewrite image_none].
      * apply Hmap in Ha as [Ha|Ha]; [|done]. rewrite decide_True by done.
        destruct (existsb _ _) eqn:Ex; [|done]. exfalso.
        apply existsb_in_file in Ex as (j&q&Hj&[Hlq Hq]%in_file_true).
        pose proof (lookup_lt_Some _ _ _ Hj) as Hlt. rewrite length_take in Hlt.
        rewrite lookup_take_lt in Hj by lia.
        destruct (lo_file _ _ _ _ Hlo q (list_elem_of_lookup_2 _ _ _ Hj) Hlq) as (Hfq&_).
        specialize (Hm j q ltac:(lia) Hj Hlq). rewrite accessible_spec in Hm.
        apply Hms, Hm. lia.
  - intros j q Hj Hq Hlq. apply accessible_spec. cbn. intros x Hxx. apply Hmap.
    destruct (decide (j = i)) as [->|].
    + left. assert (q = ph) as -> by congruence. by apply segment_pages.
    + right. specialize (Hm j q ltac:(lia) Hq Hlq). rewrite accessible_spec in Hm. by apply Hm.
  - intros p. cbn. rewrite Hmap, Hpg, (take_S_r _ _ ph Hi), image_pages_snoc, Hl, elem_of_app. tauto.
Qed.

Lemma load_phdr_step i ph s :
  phs !! i = Some ph -> loaded i s ->
  exists s', load_phdr elf base (Z.of_nat i) s = Ok (true, s') /\ loaded (S i) s'.
Proof.
  intros Hi Hld. pose proof (ld_ext _ _ Hld) as Hx. pose proof (list_elem_of_lookup_2 _ _ _ Hi) as Hin.
  unfold load_phdr. rewrite (read_ehdr_extends s0 s elf e Hx) by apply Hlo. cbn [mbind res_bind].
  rewrite (read_phdr_extends s0 s _ ph Hx) by (apply Hlo; done). cbn [mbind res_bind].
  destruct (is_load ph) eqn:Hl.
  2:{ assert ((p_type ph =? PT_DYNAMIC) || (p_type ph =? PT_GNU_STACK) = true) as Hskip.
      { apply orb_true_iff. rewrite !Z.eqb_eq. unfold is_load in Hl. zbool.
        by destruct (lo_known _ _ _ _ Hlo _ Hin) as [?|[?|?]]; auto. }
      rewrite Hskip. exists s. split; [done|]. by apply (skipped_loaded i ph). }
  destruct (lo_file _ _ _ _ Hlo _ Hin Hl) as (Hf&Hsrc&Hacc&_).
  destruct (lo_range _ _ _ _ Hlo _ Hin) as (Hv&Hms&Hend).
  destruct Hfree as (Hb0&_&Hb&Hfr). pose proof (span_max _ _ Hin) as Hspan.
  unfold is_load in Hl. zbool. rewrite Hl. change ((PT_LOAD =? PT_DYNAMIC) || (PT_LOAD =? PT_GNU_STACK)) with false.
  rewrite Z.eqb_refl, !u64_small by (unfold is_size; lia).
  set (s1 := memflag_map (base + p_vaddr ph) (p_memsz ph) s).
  assert (mapped_more (pages_from (base + p_vaddr ph) (p_memsz ph)) s s1) as Hmore by apply map_pages_more.
  unfold copy. rewrite (proj2 (accessible_spec s1 (base + p_vaddr ph) (p_filesz ph))).
  2:{ intros x Hxx. apply (more_mapped _ _ _ Hmore). left. apply segment_pages; [done| |lia].
      unfold is_load. by rewrite Hl. }
  rewrite (accessible_mono s0 s1); [|intros p Hp; apply (more_mapped _ _ _ Hmore); right; by apply Hx|done].
  cbn. eexists. split; [reflexivity|].
  apply (copied_loaded i ph s s1); [done|unfold is_load; by rewrite Hl|done|done|].
  rewrite <- (Z2Nat.id (p_filesz ph)) at 2 by lia. apply memcpy_copied. rewrite Z2Nat.id by lia.
  unfold forward_ok. destruct (Z.le_gt_cases (base + p_vaddr ph) (elf + p_offset ph)); [by left|right].
  apply Z.le_ngt. intros Hlt. rewrite accessible_spec in Hacc.
  apply (segment_free ph (base + p_vaddr ph) Hin); [lia|]. apply Hacc. lia.
Qed.

Lemma load_all_loaded n i s :
  (i + n)%nat = length phs -> loaded i s ->
  exists s', load_all n elf base (Z.of_nat i) s = Ok (true, s') /\ loaded (length phs) s'.
Proof.
  revert i s; induction n as [|n IH]; intros i s Hn Hs; cbn [load_all].
  { exists s. by replace (length phs) with i by lia. }
  destruct (lookup_lt_is_Some_2 phs i) as [ph Hph]; [lia|].
  destruct (load_phdr_step i ph s Hph Hs) as (s1&->&Hs1). cbn [mbind res_bind].
  replace (Z.of_nat i + 1) with (Z.of_nat (S i)) by lia. apply IH; [lia|done].
Qed.

(** What the image of all segments is inside one of them. *)
Lemma covering_segment j ph a q i :
  phs !! i = Some ph -> is_load ph = true ->
  base + p_vaddr ph <= a < base + p_vaddr ph + p_memsz ph ->
  phs !! j = Some q -> in_file base a q = true -> j = i.
Proof.
  intros Hi Hl Ha Hj [Hlq Hq]%in_file_true. destruct (decide (j = i)); [done|].
  destruct (lo_file _ _ _ _ Hlo q (list_elem_of_lookup_2 _ _ _ Hj) Hlq) as (Hf&_).
  destruct (lo_disjoint _ _ _ _ Hlo j i q ph) as [?|?]; try done; lia.
Qed.

Lemma image_app (l1 l2 : list Elf64_Phdr) a :
  existsb (in_file base a) l1 = false -> image s0 elf base (l1 ++ l2) a = image s0 elf base l2 a.
Proof.
  induction l1 as [|q l1 IH]; cbn [existsb app image]; [done|].
  destruct (in_file base a q); cbn; [done|auto].
Qed.

Lemma image_inside i ph k :
  phs !! i = Some ph -> is_load ph = true -> 0 <= k < p_memsz ph ->
  image s0 elf base phs (base + p_vaddr ph + k) =
  if k <? p_filesz ph then ld (am s0) (elf + p_offset ph + k) else 0.
Proof.
  intros Hi Hl Hk. destruct (Z.ltb_spec k (p_filesz ph)).
  - rewrite <- (take_drop_middle phs i ph Hi) at 1.
    rewrite image_app by (apply (not_covered i ph); done || lia). cbn [image].
    rewrite (proj2 (in_file_true base _ ph)) by (split; [done|lia]). f_equal. lia.
  - apply image_none, not_true_is_false. intros (j&q&Hj&Hq)%existsb_in_file.
    assert (j = i) as -> by (eapply (covering_segment j ph); [done|done| |done|done]; lia).
    assert (q = ph) as -> by congruence. apply in_file_true in Hq as [_ Hq]. lia.
Qed.

(** A segment as it is to be found in memory: its contents, and all of it if its
    pages suffice. *)
Record in_place (s : space) (ph : Elf64_Phdr) : Prop := {
  ip_contents : accessible s (base + p_vaddr ph) (p_filesz ph) = true;
  ip_bytes : bytes_at (am s) (base + p_vaddr ph) (Z.to_nat (p_filesz ph)) =
             bytes_at (am s0) (elf + p_offset ph) (Z.to_nat (p_filesz ph));
  ip_mapped : pages_suffice ph -> accessible s (base + p_vaddr ph) (p_memsz ph) = true;
}.

Lemma loaded_in_place s ph : loaded (length phs) s -> ph ∈ phs -> is_load ph = true -> in_place s ph.
Proof.
  intros [Hx Hn Hm Hpg] Hin Hl. apply list_elem_of_lookup in Hin as Hi. destruct Hi as [i Hi].
  pose proof (lookup_lt_Some _ _ _ Hi) as Hlt.
  destruct (lo_file _ _ _ _ Hlo ph Hin Hl) as (Hf&_).
  specialize (Hm i ph Hlt Hi Hl). pose proof (proj1 (accessible_spec _ _ _) Hm) as Hacc.
  rewrite firstn_all in Hn, Hpg. split; [done| |].
  - apply bytes_at_ext. intros k Hkk.
    rewrite Hn, (image_inside i), (proj2 (Z.ltb_lt _ _)); [done|lia|done|done|lia|apply Hacc; lia|].
    apply (segment_free ph); [done|lia].
  - intros Hp. apply accessible_spec. intros x Hxx. apply Hpg. right. unfold image_pages.
    apply list_elem_of_In, in_concat. eexists. split; [|apply list_elem_of_In, (segment_pages_all ph x Hp Hxx)].
    apply list_elem_of_In, list_elem_of_fmap. exists ph. by rewrite Hl.
Qed.

Lemma image_pages_new p : p ∈ image_pages base phs -> p ∉ mapped s0.
Proof.
  intros (l&Hl&Hp)%list_elem_of_In%in_concat. apply list_elem_of_In in Hl, Hp.
  apply list_elem_of_fmap in Hl as (ph&->&Hin). destruct (is_load ph) eqn:E; [|by apply elem_of_nil in Hp].
  by apply (segment_pages_new ph).
Qed.

(** What is on the pages of the program besides the contents of the segments. *)
Lemma loaded_zero s a : loaded (length phs) s -> a / PAGE_SIZE ∈ image_pages base phs ->
  existsb (in_file base a) phs = false -> ld (am s) a = 0.
Proof.
  intros [_ Hn _ Hpg] Ha He. rewrite firstn_all in Hn, Hpg.
  rewrite Hn; [by apply image_none|by apply Hpg; right|by apply image_pages_new].
Qed.
End loading.

Lemma span_snoc phs ph : span (phs ++ [ph]) = Z.max (span phs) (Z.max (p_vaddr ph + p_memsz ph) 0).
Proof. unfold span. induction phs as [|q phs IH]; cbn; [lia|]. rewrite IH. lia. Qed.

Lemma elf_spread_span s elf e phs : loadable s elf e phs -> elf_spread elf s = Ok (span phs).
Proof.
  intros Hlo. unfold elf_spread. rewrite (lo_ehdr _ _ _ _ Hlo). cbn [mbind res_bind].
  rewrite <- (lo_phnum _ _ _ _ Hlo), Nat2Z.id.
  destruct (for_from_rule (spread_phdr s elf e) (fun i hl =>
      hl.1 = span (take (Z.to_nat i) phs) /\ 0 <= hl.2 /\
      forall ph, ph ∈ take (Z.to_nat i) phs -> hl.2 <= p_vaddr ph) (length phs) 0 (0, 2 ^ 64 - 1))
    as ([h l]&->&Hh&Hl0&Hl).
  - intros i [h l] Hi (Hh&Hl0&Hl). destruct (lookup_lt_is_Some_2 phs (Z.to_nat i)) as [ph Hph]; [lia|].
    pose proof (list_elem_of_lookup_2 _ _ _ Hph) as Hin.
    pose proof (lo_range _ _ _ _ Hlo ph Hin) as Hr.
    unfold spread_phdr. pose proof (lo_phdr _ _ _ _ Hlo _ _ Hph) as Hrd. rewrite Z2Nat.id in Hrd by lia.
    rewrite Hrd. cbn [mbind res_bind]. rewrite u64_small by (unfold is_size; lia).
    eexists. split; [reflexivity|]. cbn [fst snd] in *.
    replace (Z.to_nat (i + 1)) with (S (Z.to_nat i)) by lia. rewrite (take_S_r _ _ _ Hph), span_snoc.
    pose proof (span_bound (2 ^ 47) (take (Z.to_nat i) phs) ltac:(lia)) as Hb.
    split; [|split].
    + rewrite Hh. assert (0 <= span (take (Z.to_nat i) phs)) by (unfold span; clear; induction (take _ _); cbn; lia).
      destruct (Z.ltb_spec (span (take (Z.to_nat i) phs)) (p_vaddr ph + p_memsz ph)); lia.
    + destruct (_ <? l); lia.
    + intros q [Hq|Hq%list_elem_of_singleton]%elem_of_app.
      * specialize (Hl q Hq). destruct (Z.ltb_spec (p_vaddr ph) l); lia.
      * subst q. destruct (Z.ltb_spec (p_vaddr ph) l); lia.
  - cbn. split; [done|]. split; [lia|]. intros ph Hin. by apply not_elem_of_nil in Hin.
  - rewrite Z.add_0_l, Nat2Z.id, firstn_all in *. cbn [fst snd] in *. cbn [mbind res_bind].
    destruct (lo_zero _ _ _ _ Hlo) as (ph&Hin&Hz). specialize (Hl ph Hin).
    replace l with 0 by lia. rewrite Z.sub_0_r, Hh, u64_small; [done|].
    assert (forall q, q ∈ phs -> p_vaddr q + p_memsz q <= 2 ^ 47) as Hq.
    { intros q Hq. pose proof (lo_range _ _ _ _ Hlo q Hq). lia. }
    pose proof (span_bound (2 ^ 47) phs ltac:(lia) Hq). unfold is_size. lia.
Qed.

(** C6: a program is loaded as its headers say.  The file is position independent,
    its segments are known and apart from each other, and what the file has of
    a segment lies in the pages that [memflag] counts for it (a segment that
    straddles a page may have its end left out: [unaligned_segment_cut]); see
    [loadable].  The range that is asked for is large enough for all segments,
    and if the kernel finds one, exactly the pages of the segments are mapped in
    addition, none of which was there before; every segment has its bytes of the
    file there, and is there as a whole if its pages suffice; all other bytes of
    those pages are zero; all that was in memory before, the file included, is
    unchanged.  If there is no such range, 0 is answered and nothing happens. *)
Theorem elf_loadmem_loads findfree s elf e phs :
  (forall len, let b := findfree 0x1000 len (mapped s) in b <> 0 -> free_range s b len) ->
  loadable s elf e phs ->
  let base := findfree 0x1000 (span phs) (mapped s) in
  exists s', elf_loadmem findfree elf s = Ok (base, s') /\ extends s s' /\
    (base = 0 -> s' = s) /\
    (base <> 0 ->
      mapped s' = mapped s ∪ list_to_set (image_pages base phs) /\
      (forall p, p ∈ image_pages base phs -> p ∉ mapped s) /\
      (forall ph, ph ∈ phs -> is_load ph = true -> in_place s elf base s' ph) /\
      forall a, a / PAGE_SIZE ∈ image_pages base phs -> existsb (in_file base a) phs = false ->
        ld (am s') a = 0).
Proof.
  intros Hff Hlo base. unfold elf_loadmem.
  rewrite (elf_spread_span s elf e phs Hlo). cbn [mbind res_bind].
  rewrite (lo_ehdr _ _ _ _ Hlo). cbn [mbind res_bind]. rewrite (lo_type _ _ _ _ Hlo).
  change (ET_DYN =? ET_EXEC) with false. rewrite Z.eqb_refl. fold base.
  destruct (Z.eqb_spec base 0) as [H0|H0].
  { exists s. rewrite H0. split; [done|]. split; [reflexivity|]. by split. }
  assert (free_range s base (span phs)) as Hfree by (apply Hff; exact H0).
  rewrite <- (lo_phnum _ _ _ _ Hlo), Nat2Z.id.
  destruct (load_all_loaded s elf e phs base Hlo Hfree (length phs) 0 s) as (s'&E0&Hs').
  { done. }
  { apply loaded_0. }
  change (Z.of_nat 0) with 0 in E0. rewrite E0. cbn [mbind res_bind]. exists s'.
  split; [done|]. split; [apply Hs'|]. split; [done|]. intros _. split_and!.
  - apply set_eq. intros p. rewrite (ld_pages _ _ _ _ _ _ Hs'), firstn_all. set_solver.
  - intros p. by apply (image_pages_new s elf e).
  - intros ph Hin Hl. by apply (loaded_in_place s elf e phs base).
  - intros a. by apply (loaded_zero s elf e phs base).
Qed.

(** A file that is not position independent is loaded at 0, which the callers
    take for a failure: it is never run. *)
Lemma static_program_refused findfree s elf e :
  valid_ehdr s elf = Ok true -> read_ehdr s elf = Ok e -> e_type e = ET_EXEC ->
  match elf_partialexec findfree elf s with Ok (entry, _) => entry = 0 | Err _ => True end.
Proof.
  intros Hv He Ht. unfold elf_partialexec. rewrite Hv. cbn [mbind res_bind negb].
  unfold elf_loadmem. destruct (elf_spread elf s) as [spread|]; cbn [mbind res_bind]; [|done].
  rewrite He. cbn [mbind res_bind]. rewrite Ht, Z.eqb_refl.
  by destruct (load_all _ elf 0 0 s) as [[[] s']|]; cbn [mbind res_bind].
Qed.

(** A segment that begins inside a page and ends in the next one, but is no
    larger than a page, has its second page left out. *)
Lemma unaligned_segment_cut :
  pages_from 0x3df0 0x300 = [3] /\ pages_of 0x3df0 0x300 = [3; 4].
Proof. by vm_compute. Qed.

(** ** A small program *)

(** The first range behind everything that is mapped. *)
Definition find_above (start len : Z) (m : gset Z) : Z :=
  let p := foldr Z.max 0 (elements m) + 1 in
  if (p * PAGE_SIZE + len <? 2 ^ 47) && (0 <=? len) then p * PAGE_SIZE else 0.

Lemma find_above_free s len : find_above 0x1000 len (mapped s) <> 0 -> free_range s (find_above 0x1000 len (mapped s)) len.
Proof.
  unfold find_above. set (top := foldr Z.max 0 (elements (mapped s))).
  assert (forall p, p ∈ mapped s -> p <= top) as Htop.
  { intros p Hp%elem_of_elements. unfold top. induction (elements (mapped s)) as [|q l IH].
    - by apply not_elem_of_nil in Hp.
    - apply elem_of_cons in Hp as [->|Hp]; cbn; [lia|]. specialize (IH Hp). lia. }
  assert (0 <= top) as H0 by (unfold top; clear; induction (elements _); cbn; lia).
  destruct (_ && _) eqn:Eb; [|done]. zbool. intros _. unfold free_range, PAGE_SIZE in *.
  split_and!; [lia|by apply Z.mod_mul|lia|]. intros x Hx Hm. specialize (Htop _ Hm).
  Z.div_mod_to_equations. lia.
Qed.

Definition some_phdr (type offset vaddr filesz memsz : Z) : list Z :=
  le_bytes 4 type ++ le_bytes 4 0 ++ le_bytes 8 offset ++ le_bytes 8 vaddr ++ le_bytes 8 vaddr ++
  le_bytes 8 filesz ++ le_bytes 8 memsz ++ le_bytes 8 0.

Definition some_elf : list Z :=
  [0x7f; 69; 76; 70] ++ replicate 12 0 ++ le_bytes 2 ET_DYN ++ le_bytes 2 EM_X86_64 ++ le_bytes 4 1 ++
  le_bytes 8 0x10 ++ le_bytes 8 64 ++ le_bytes 8 0 ++ le_bytes 4 0 ++ le_bytes 2 64 ++ le_bytes 2 56 ++
  le_bytes 2 3 ++ replicate 6 0 ++
  some_phdr PT_LOAD 0 0 100 0x1800 ++ some_phdr PT_LOAD 232 0x2000 3 16 ++ some_phdr PT_GNU_STACK 0 0 0 0 ++
  [65; 66; 67].

Definition some_space : space := mkSpace (write_bytes ∅ 0x10000 some_elf) {[16]}.

Definition some_phdrs : list Elf64_Phdr :=
  [mkPhdr PT_LOAD 0 0 100 0x1800; mkPhdr PT_LOAD 232 0x2000 3 16; mkPhdr PT_GNU_STACK 0 0 0 0].

Lemma some_elf_loadable :
  loadable some_space 0x10000 (mkEhdr ET_DYN EM_X86_64 1 0x10 64 56 3) some_phdrs.
Proof.
  split.
  - vm_compute. reflexivity.
  - reflexivity.
  - reflexivity.
  - intros i ph Hi. do 3 (destruct i as [|i]; [injection Hi as <-; vm_compute; reflexivity|]). done.
  - intros ph Hin. unfold some_phdrs in Hin. rewrite !elem_of_cons in Hin.
    destruct Hin as [->|[->|[->|?%not_elem_of_nil]]]; [by left|by left|by right; right|done].
  - intros ph Hin. unfold some_phdrs in Hin. rewrite !elem_of_cons in Hin.
    destruct Hin as [->|[->|[->|?%not_elem_of_nil]]]; cbn; (lia || done).
  - exists (mkPhdr PT_LOAD 0 0 100 0x1800). split; [|done]. unfold some_phdrs. set_solver.
  - intros ph Hin Hl. unfold some_phdrs in Hin. rewrite !elem_of_cons in Hin.
    destruct Hin as [->|[->|[->|?%not_elem_of_nil]]]; [| |done|done].
    + split_and!; [..|left]; (vm_compute; congruence) || (vm_compute; reflexivity).
    + split_and!; [..|left]; (vm_compute; congruence) || (vm_compute; reflexivity).
  - intros i j phi phj Hi Hj Hij Hli Hlj.
    destruct i as [|[|[|i]]]; [| | |done]; (destruct j as [|[|[|j]]]; [| | |done]); try done;
      injection Hi as <-; injection Hj as <-; try done; cbn; lia.
Qed.

Lemma elf_loadmem_loads_witness :
  exists s', elf_loadmem find_above 0x10000 some_space = Ok (0x11000, s') /\
    bytes_at (am s') 0x13000 3 = [65; 66; 67] /\ ld (am s') 0x13005 = 0.
Proof.
  destruct (elf_loadmem_loads find_above some_space 0x10000 _ some_phdrs
    (find_above_free some_space) some_elf_loadable) as (s'&E0&_&_&Hp).
  exists s'. split; [exact E0|].
  destruct (Hp ltac:(by vm_compute)) as (_&_&Hin&Hz).
  destruct (Hin (mkPhdr PT_LOAD 232 0x2000 3 16)) as [_ Hb _].
  - apply elem_of_cons; right; apply elem_of_cons; by left.
  - reflexivity.
  - split; [etrans; [exact Hb|vm_compute; reflexivity]|].
    assert (image_pages (find_above 0x1000 (span some_phdrs) (mapped some_space)) some_phdrs = [17; 18; 19]) as Hpg
      by (vm_compute; reflexivity).
    apply Hz; [rewrite Hpg; right; right; left|vm_compute; reflexivity].
Defined.
