(* ===== verification/Exec.v ===== *)
(** * Exec

    Starting a program ([_freejmp] in [src/src/libc/elfload.c]): the arguments
    and the working directory are put on a new stack at the end of the address
    space, where they may overwrite what they are made of, so they are first
    copied to the heap; then the kernel is asked to free the rest of the old
    program and to jump.  What the new program finds ([src/src/libc/_start2.c])
    is read back. *)

From S2P Require Import Prelude Mem Buf Malloc PageTable Elfload.

(** ** Strings in memory *)

Fixpoint strlen_at (fuel : nat) (m : mem) (a : Z) : res Z :=
  match fuel with
  | O => Err OutOfFuel
  | S n => if ld m a =? 0 then Ok 0 else k ← strlen_at n m (a + 1); Ok (k + 1)
  end.

(** [char **argv]: the number of pointers before the null pointer. *)
Fixpoint count_args (fuel : nat) (m : mem) (argv : Z) : res Z :=
  match fuel with
  | O => Err OutOfFuel
  | S n => if ldq m argv =? 0 then Ok 0 else k ← count_args n m (argv + 8); Ok (k + 1)
  end.

Definition nonnull (p : Z) : res () := if p =? 0 then Err Undefined else Ok ().

Definition EXECBUF_SYSCALL : Z := 0xF0000001.
Definition EXECBUF_JMP : Z := 0xF0000002.
Definition SYS_MEMFLAG : Z := 13.
Definition sizeof_execdata : Z := 32.

Section freejmp.
(** The allocator of the C library; [fuel] is more than the length of any
    string, [uninit] what is in a variable that was not set. *)
Context {H : Type} (malloc : Z -> H -> Z * H) (fuel : nat) (uninit : Z).

Definition memdup (orig len : Z) (m : mem) (h : H) : Z * mem * H :=
  let '(n, h) := malloc len h in
  (n, if n =? 0 then m else memcpy m n orig (Z.to_nat len), h).

Definition strdup (s : Z) (m : mem) (h : H) : res (Z * mem * H) :=
  len ← strlen_at fuel m s;
  Ok (memdup s (len + 1) m h).

(** [argv[i] = strdup(argv[i])] *)
Definition dup_arg (argv : Z) (i : Z) (mh : mem * H) : res (mem * H) :=
  _ ← nonnull argv;
  '(s, m, h) ← strdup (ldq mh.1 (argv + 8 * i)) mh.1 mh.2;
  Ok (stq m (argv + 8 * i) s, h).

(** One argument on the new stack. *)
Definition push_arg (argv ed_argv : Z) (i : Z) (ms : mem * Z) : res (mem * Z) :=
  let '(m, stack) := ms in
  let s := ldq m (argv + 8 * i) in
  _ ← nonnull s;
  len ← strlen_at fuel m s;
  let stack := u64 (stack - (len + 1)) in
  let m := memcpy m stack s (Z.to_nat (len + 1)) in
  Ok (stq m (ed_argv + 8 * i) stack, stack).

(** [struct execdata]: an [int] with its padding and three pointers. *)
Definition execdata_bytes (argc argv envp cwd : Z) : list Z :=
  le_bytes 8 argc ++ le_bytes 8 argv ++ le_bytes 8 envp ++ le_bytes 8 cwd.

(** The programme that the kernel is given: free below the image and above it,
    and jump. *)
Definition freejmp_execbuf (entry low imglen : Z) : list Z :=
  let high := u64 (low + imglen) in
  [EXECBUF_SYSCALL; SYS_MEMFLAG; 0; low; 0; 0; 0;
   EXECBUF_SYSCALL; SYS_MEMFLAG; high; u64 (2 ^ 64 - 1 - 0xF000 - high); 0; 0; 0;
   EXECBUF_JMP; entry].

(** The copies on the heap: of the array, of the arguments, of the working
    directory, which [getrealcwd] finds at [realcwd]. *)
Definition copy_args (argv realcwd : Z) (m : mem) (h : H) : res (Z * Z * Z * Z * mem * H) :=
  cwd_len ← strlen_at fuel m realcwd;
  let cwd_len := cwd_len + 1 in
  argc ← count_args fuel m argv;
  let '(argv, m, h) := memdup argv ((argc + 1) * 8) m h in
  '(m, h) ← for_from (dup_arg argv) 0 (Z.to_nat argc) (m, h);
  let '(cwd, m, h) := memdup realcwd cwd_len m h in
  _ ← nonnull cwd;
  Ok (argc, argv, cwd_len, cwd, m, h).

(** The new stack: its top, with the [execdata] there. *)
Definition build_stack (argc argv cwd_len cwd : Z) (m : mem) : res (mem * Z) :=
  let stack := u64 (2 ^ 64 - 1 - (argc + 1) * 8) in
  let ed_argv := stack in
  '(m, stack) ← for_from (push_arg argv ed_argv) 0 (Z.to_nat argc) (m, stack);
  let m := stq m (ed_argv + 8 * argc) 0 in
  let stack := u64 (stack - cwd_len) in
  let m := memcpy m stack cwd (Z.to_nat cwd_len) in
  let ed_cwd := stack in
  let stack := u64 (stack - sizeof_execdata) in
  Ok (write_bytes m stack (execdata_bytes argc ed_argv uninit ed_cwd), stack).

(** The memory, the stack pointer and the programme for the kernel;
    [default_argv] is the static array that holds only a null pointer. *)
Definition _freejmp (default_argv entry low imglen argv realcwd : Z) (m : mem) (h : H) :
    res (mem * Z * list Z * H) :=
  let argv := if argv =? 0 then default_argv else argv in
  '(argc, argv, cwd_len, cwd, m, h) ← copy_args argv realcwd m h;
  '(m, stack) ← build_stack argc argv cwd_len cwd m;
  Ok (m, stack, freejmp_execbuf entry low imglen, h).

(** [elf_exec]: it returns, with the address space as it is then, if the file is
    not valid or cannot be loaded; otherwise [_freejmp] is run on a stack of its
    own.  [newstack] is never null: 4088 is added to what is answered. *)
Definition elf_exec (findfree : Z -> Z -> gset Z -> Z) (default_argv base argv realcwd : Z)
    (s : space) (h : H) : res (space + mem * Z * list Z * H) :=
  v ← valid_ehdr s base;
  if negb v then Ok (inl s)
  else
    '(exebase, s) ← elf_loadmem findfree base s;
    if exebase =? 0 then Ok (inl s)
    else
      let s := memflag_map (findfree 0x11000 0x1000 (mapped s)) 0x1000 s in
      e ← read_ehdr s base;
      spread ← elf_spread base s;
      r ← _freejmp default_argv (u64 (exebase + e_entry e)) exebase (u64 (spread + 0x1000))
            argv realcwd (am s) h;
      Ok (inr r).
End freejmp.

(** The ranges that its two system calls free. *)
Definition freed_ranges (buf : list Z) : list (Z * Z) :=
  match buf with
  | [_; _; a; n; _; _; _; _; _; b; k; _; _; _; _; _] => [(a, n); (b, k)]
  | _ => []
  end.

(** ** What the new program finds *)

Definition string_at (fuel : nat) (m : mem) (a : Z) : res (list Z) :=
  n ← strlen_at fuel m a; Ok (bytes_at m a (Z.to_nat n)).

Fixpoint strings_at (fuel n : nat) (m : mem) (argv : Z) : res (list (list Z)) :=
  match n with
  | O => if ldq m argv =? 0 then Ok [] else Err Undefined
  | S n => s ← string_at fuel m (ldq m argv); l ← strings_at fuel n m (argv + 8); Ok (s :: l)
  end.

(** [_start2]: [argc] and [argv] for [main], a null pointer behind the last
    argument, and [__initialcwd]. *)
Definition _start2 (fuel : nat) (m : mem) (ed : Z) : res (list (list Z) * list Z) :=
  let argc := le_value (bytes_at m ed 4) in
  args ← strings_at fuel (Z.to_nat argc) m (ldq m (ed + 8));
  cwd ← string_at fuel m (ldq m (ed + 24));
  Ok (args, cwd).

(** ** Strings and frames *)

(** A string without zeros, terminated, at [a]. *)
Definition cstr (m : mem) (a : Z) (s : list Z) : Prop :=
  Forall (fun c => c <> 0) s /\ forall k, 0 <= k <= Z.of_nat (length s) -> ld m (a + k) = default 0 (s !! Z.to_nat k).

Definition same_on (a n : Z) (m m' : mem) : Prop := forall x, a <= x < a + n -> ld m' x = ld m x.

Definition apart (a n b k : Z) : Prop := a + n <= b \/ b + k <= a.

Definition slen (s : list Z) : Z := Z.of_nat (length s) + 1.

Lemma cstr_same m m' a s : cstr m a s -> same_on a (slen s) m m' -> cstr m' a s.
Proof. intros [Hn Hs] Hm. split; [done|]. intros k Hk. rewrite Hm by (unfold slen; lia). by apply Hs. Qed.

Lemma cstr_strlen fuel m a s : cstr m a s -> (length s < fuel)%nat -> strlen_at fuel m a = Ok (Z.of_nat (length s)).
Proof.
  intros [Hn Hs]. revert a s Hn Hs; induction fuel as [|f IH]; intros a s Hn Hs Hf; [lia|].
  cbn [strlen_at]. pose proof (Hs 0 ltac:(lia)) as H0. rewrite Z.add_0_r in H0. rewrite H0.
  destruct s as [|c s]; [done|]. apply Forall_cons in Hn as [Hc Hn]. cbn [lookup default].
  change (default 0 ((c :: s) !! Z.to_nat 0)) with c. rewrite (proj2 (Z.eqb_neq _ _) Hc).
  rewrite (IH (a + 1) s Hn); [cbn; f_equal; lia| |cbn in Hf; lia].
  intros k Hk. replace (a + 1 + k) with (a + (k + 1)) by lia. rewrite Hs by (cbn; lia).
  replace (Z.to_nat (k + 1)) with (S (Z.to_nat k)) by lia. done.
Qed.

Lemma cstr_bytes m a s : cstr m a s -> bytes_at m a (length s) = s.
Proof.
  intros [_ Hs]. apply list_eq; intros i. destruct (decide (i < length s)%nat) as [Hi|Hi].
  - rewrite bytes_at_lookup, Hs, Nat2Z.id by lia.
    by destruct (lookup_lt_is_Some_2 s i Hi) as [x ->].
  - rewrite !lookup_ge_None_2; rewrite ?length_bytes_at; done || lia.
Qed.

Lemma cstr_string fuel m a s : cstr m a s -> (length s < fuel)%nat -> string_at fuel m a = Ok s.
Proof.
  intros Hs Hf. unfold string_at. rewrite (cstr_strlen _ _ _ s) by done. cbn.
  by rewrite Nat2Z.id, cstr_bytes.
Qed.

(** A copy of a string. *)
Lemma cstr_copied m m' d a s : cstr m a s -> copied m m' d a (slen s) -> cstr m' d s.
Proof.
  intros [Hn Hs] Hc. split; [done|]. intros k Hk. rewrite Hc, decide_True by (unfold slen; lia).
  rewrite <- Hs by done. f_equal. lia.
Qed.

Lemma memcpy_apart m d a n :
  0 <= n -> apart d n a n -> copied m (memcpy m d a (Z.to_nat n)) d a n.
Proof.
  intros Hn Ha. rewrite <- (Z2Nat.id n) at 2 by done. apply memcpy_copied.
  rewrite Z2Nat.id by done. unfold forward_ok, apart in *. lia.
Qed.

Lemma copied_same m m' d a n b k : copied m m' d a n -> apart d n b k -> same_on b k m m'.
Proof. intros Hc Ha x Hx. rewrite Hc, decide_False; [done|]. unfold apart in Ha. lia. Qed.

Lemma stq_same m p v b k : apart p 8 b k -> same_on b k m (stq m p v).
Proof. intros Ha x Hx. apply ld_stq. unfold apart in Ha. lia. Qed.

Lemma same_on_trans a n m1 m2 m3 : same_on a n m1 m2 -> same_on a n m2 m3 -> same_on a n m1 m3.
Proof. intros H1 H2 x Hx. rewrite H2, H1; done. Qed.

Lemma same_on_sub a n b k m m' : same_on a n m m' -> a <= b -> b + k <= a + n -> same_on b k m m'.
Proof. intros Hs Ha Hb x Hx. apply Hs. lia. Qed.

Lemma ldq_same m m' p : same_on p 8 m m' -> ldq m' p = ldq m p.
Proof. intros Hs. by apply ldq_ext. Qed.

(** An array of pointers. *)
Definition parray (m : mem) (a : Z) (ps : list Z) : Prop :=
  forall i p, ps !! i = Some p -> ldq m (a + 8 * Z.of_nat i) = p.

Lemma parray_same m m' a ps :
  parray m a ps -> same_on a (8 * Z.of_nat (length ps)) m m' -> parray m' a ps.
Proof.
  intros Hp Hs i p Hi. rewrite <- (Hp i p Hi). apply ldq_same. eapply same_on_sub; [done|lia|].
  apply lookup_lt_Some in Hi. lia.
Qed.

Lemma parray_store m a ps i v :
  is_size v -> (i < length ps)%nat -> parray m a ps -> parray (stq m (a + 8 * Z.of_nat i) v) a (<[i := v]> ps).
Proof.
  intros Hv Hi Hp j p Hj. destruct (decide (i = j)) as [<-|Hij].
  - rewrite list_lookup_insert_eq in Hj by done. injection Hj as <-. by apply ldq_stq_eq.
  - rewrite list_lookup_insert_ne in Hj by done. rewrite <- (Hp j p Hj). apply ldq_same, stq_same.
    unfold apart. lia.
Qed.

Lemma parray_count fuel m a ps :
  parray m a (ps ++ [0]) -> Forall (fun p => p <> 0) ps -> (length ps < fuel)%nat ->
  count_args fuel m a = Ok (Z.of_nat (length ps)).
Proof.
  revert a ps; induction fuel as [|f IH]; intros a ps Hp Hn Hf; [lia|]. cbn [count_args].
  destruct ps as [|p ps].
  - pose proof (Hp 0%nat 0 eq_refl) as H0. rewrite Z.mul_0_r, Z.add_0_r in H0. by rewrite H0.
  - apply Forall_cons in Hn as [Hpn Hn].
    pose proof (Hp 0%nat p eq_refl) as H0. rewrite Z.mul_0_r, Z.add_0_r in H0.
    rewrite H0, (proj2 (Z.eqb_neq _ _) Hpn), (IH (a + 8) ps); [cbn; f_equal; lia| |done|cbn in Hf; lia].
    intros i q Hi. rewrite <- (Hp (S i) q Hi). f_equal. lia.
Qed.

Lemma parray_strings fuel m a ps args :
  parray m a (ps ++ [0]) -> length ps = length args ->
  (forall i p s, ps !! i = Some p -> args !! i = Some s -> cstr m p s) ->
  Forall (fun s => (length s < fuel)%nat) args ->
  strings_at fuel (length args) m a = Ok args.
Proof.
  revert a ps; induction args as [|s args IH]; intros a ps Hp Hl Hs Hf; cbn [length strings_at].
  - destruct ps; [|done]. pose proof (Hp 0%nat 0 eq_refl) as H0.
    rewrite Z.mul_0_r, Z.add_0_r in H0. by rewrite H0.
  - destruct ps as [|p ps]; [done|]. apply Forall_cons in Hf as [Hfs Hf].
    pose proof (Hp 0%nat p eq_refl) as H0. rewrite Z.mul_0_r, Z.add_0_r in H0. rewrite H0.
    rewrite (cstr_string fuel m p s) by (done || by apply (Hs 0%nat)). cbn [mbind res_bind].
    rewrite (IH (a + 8) ps); [done| |cbn in Hl; lia| |done].
    + intros i q Hi. rewrite <- (Hp (S i) q Hi). f_equal. lia.
    + intros i q t Hi Ht. by apply (Hs (S i)).
Qed.

(** The sizes of the strings. *)
Definition total (args : list (list Z)) : Z := foldr (fun s z => slen s + z) 0 args.

Lemma total_snoc args s : total (args ++ [s]) = total args + slen s.
Proof. unfold total. induction args as [|t args IH]; cbn [app foldr]; [lia|]. rewrite IH. lia. Qed.

Lemma total_nonneg args : 0 <= total args.
Proof. unfold total. induction args as [|t args IH]; cbn [foldr]; [lia|]. unfold slen at 1. lia. Qed.

Lemma total_take_le i args : total (take i args) <= total args.
Proof.
  rewrite <- (take_drop i args) at 2. generalize (take i args), (drop i args). intros l1 l2.
  unfold total. induction l1 as [|s l1 IH]; cbn [app foldr]; [apply total_nonneg|]. lia.
Qed.

(** ** The copies on the heap *)

Section copies.
Context {H : Type} (malloc : Z -> H -> Z * H) (fuel : nat).

(** What is in use, how much can still be given, and the end of the heap.  Up to
    that amount [malloc] does not fail, and what it gives is apart from
    everything in use. *)
Context (used : H -> list (Z * Z)) (room : H -> Z) (limit : Z).
Hypothesis limit_size : limit < 2 ^ 64.
Hypothesis malloc_apart : forall n h, 0 < n <= room h ->
  let '(a, h') := malloc n h in
  0 < a /\ a + n <= limit /\ Forall (fun b => apart a n b.1 b.2) (used h) /\
  used h' = (a, n) :: used h /\ room h - n <= room h'.

Definition inside (h : H) (a n : Z) : Prop :=
  exists b, b ∈ used h /\ b.1 <= a /\ a + n <= b.1 + b.2.

(** What was in use is as it was. *)
Definition kept (h : H) (m m' : mem) : Prop := forall b, b ∈ used h -> same_on b.1 b.2 m m'.

Lemma kept_refl h m : kept h m m.
Proof. by intros b _ x _. Qed.

Lemma kept_trans h m1 m2 m3 : kept h m1 m2 -> kept h m2 m3 -> kept h m1 m3.
Proof. intros H1 H2 b Hb. eapply same_on_trans; [by apply H1|by apply H2]. Qed.

Lemma kept_mono h h' m m' : used h ⊆ used h' -> kept h' m m' -> kept h m m'.
Proof. intros Hu Hk b Hb. by apply Hk, Hu. Qed.

Lemma kept_inside h m m' a n : kept h m m' -> inside h a n -> same_on a n m m'.
Proof. intros Hk (b&Hb&Ha&Hn). eapply same_on_sub; [by apply Hk|done|done]. Qed.

Lemma apart_inside h a n b k :
  Forall (fun b => apart a n b.1 b.2) (used h) -> inside h b k -> 0 <= k -> apart a n b k.
Proof.
  rewrite Forall_forall. intros Hu (x&Hx&Hb&Hk) H0. specialize (Hu x Hx). unfold apart in *. lia.
Qed.

Lemma memdup_copies orig len m h :
  0 < len <= room h -> inside h orig len ->
  exists n m' h', memdup malloc orig len m h = (n, m', h') /\
    0 < n /\ n + len <= limit /\ Forall (fun b => apart n len b.1 b.2) (used h) /\
    used h' = (n, len) :: used h /\ copied m m' n orig len /\ kept h m m' /\
    room h - len <= room h'.
Proof.
  intros Hl Hin. unfold memdup. pose proof (malloc_apart len h Hl) as Hm.
  destruct (malloc len h) as [n h']. destruct Hm as (Hn&Hlim&Hap&Hu&Hroom).
  rewrite (proj2 (Z.eqb_neq n 0)) by lia. eexists _, _, _. split; [done|].
  assert (copied m (memcpy m n orig (Z.to_nat len)) n orig len) as Hc
    by (apply memcpy_apart; [lia|]; eapply apart_inside; [done|done|lia]).
  split_and!; try done. intros b Hb. eapply copied_same; [done|].
  rewrite Forall_forall in Hap. by apply (Hap b).
Qed.

Section dup.
Context (h0 : H) (m1 : mem) (h1 : H) (arr : Z) (ps : list Z) (args : list (list Z)).
Let size := 8 * (Z.of_nat (length ps) + 1).
Hypothesis Hlen : length ps = length args.
Hypothesis Harr : arr <> 0.
Hypothesis Harr_apart : Forall (fun b => apart arr size b.1 b.2) (used h0).
Hypothesis Hused1 : used h1 = (arr, size) :: used h0.
Hypothesis Hfuel : Forall (fun s => (length s < fuel)%nat) args.
Hypothesis Hsrc : forall i p s, ps !! i = Some p -> args !! i = Some s -> cstr m1 p s /\ inside h0 p (slen s).
Hypothesis Hroom : total args <= room h1.

(** A copy of an argument. *)
Record dup_ok (m : mem) (h : H) (q : Z) (s : list Z) : Prop := {
  dup_str : cstr m q s;
  dup_used : (q, slen s) ∈ used h;
  dup_range : 0 < q /\ q + slen s <= limit;
  dup_apart : apart q (slen s) arr size;
}.

Record dups (i : Z) (mh : mem * H) : Prop := {
  du_list : exists qs, Z.of_nat (length qs) = i /\
    parray mh.1 arr (qs ++ drop (length qs) ps ++ [0]) /\
    forall j q s, qs !! j = Some q -> args !! j = Some s -> dup_ok mh.1 mh.2 q s;
  du_used : used h1 ⊆ used mh.2;
  du_kept : kept h0 m1 mh.1;
  du_room : room h1 - total (take (Z.to_nat i) args) <= room mh.2;
}.

Lemma dup_arg_step i mh :
  0 <= i < Z.of_nat (length ps) -> dups i mh ->
  exists mh', dup_arg malloc fuel arr i mh = Ok mh' /\ dups (i + 1) mh'.
Proof.
  destruct mh as [m h]. intros Hi [(qs&Hqs&Hpa&Hdup) Hu Hk Hrm]. cbn [fst snd] in *. subst i.
  destruct (lookup_lt_is_Some_2 ps (length qs)) as [p Hp]; [lia|].
  destruct (lookup_lt_is_Some_2 args (length qs)) as [s Hs]; [lia|].
  destruct (Hsrc _ _ _ Hp Hs) as [Hstr Hins].
  assert (ldq m (arr + 8 * Z.of_nat (length qs)) = p) as Hld.
  { apply Hpa. rewrite lookup_app_r, Nat.sub_diag by lia. by rewrite (drop_S _ _ _ Hp). }
  unfold dup_arg. unfold nonnull. rewrite (proj2 (Z.eqb_neq _ _) Harr). cbn [mbind res_bind fst snd].
  rewrite Hld. unfold strdup. assert (cstr m p s) as Hstr' by (eapply cstr_same; [done|by eapply kept_inside]).
  rewrite (cstr_strlen _ _ _ s) by (done || by eapply Forall_lookup_1 in Hfuel). cbn [mbind res_bind].
  change (Z.of_nat (length s) + 1) with (slen s).
  assert (used h0 ⊆ used h) as Hu0 by (etrans; [|exact Hu]; rewrite Hused1; set_solver).
  destruct (memdup_copies p (slen s) m h) as (q&m'&h'&->&Hq&Hlim&Hap&Hu'&Hc&Hk'&Hrm');
    [rewrite Nat2Z.id in Hrm; pose proof (total_take_le (S (length qs)) args) as Htt;
     rewrite (take_S_r _ _ _ Hs), total_snoc in Htt; unfold slen in *; lia|destruct Hins as (b&Hb&Hb'); exists b; split; [by apply Hu0|done]|].
  eexists. split; [reflexivity|]. cbn [fst snd].
  assert (apart q (slen s) arr size) as Hqa.
  { rewrite Forall_forall in Hap. apply (Hap (arr, size)), Hu. rewrite Hused1. by left. }
  assert (forall b k, apart b k arr size -> apart (arr + 8 * Z.of_nat (length qs)) 8 b k) as Hst.
  { intros b k. unfold apart, size. lia. }
  split; cbn [fst snd].
  - exists (qs ++ [q]). rewrite length_app. split; [cbn; lia|]. split.
    + assert ((qs ++ [q]) ++ drop (length qs + length [q]) ps ++ [0] =
        <[length qs := q]> (qs ++ drop (length qs) ps ++ [0])) as ->.
      { rewrite (drop_S _ _ _ Hp), insert_app_r_alt, Nat.sub_diag by lia. cbn. rewrite Nat.add_1_r.
        by rewrite <- app_assoc. }
      apply parray_store; [unfold is_size, slen in *; lia|rewrite !length_app; cbn; lia|].
      eapply parray_same; [done|]. eapply copied_same; [exact Hc|].
      rewrite !length_app, length_drop. cbn. unfold apart, size in *. lia.
    + intros j q' s' Hj Hs'. destruct (decide (j < length qs)%nat) as [Hlt|Hge].
      * rewrite lookup_app_l in Hj by done. destruct (Hdup j q' s' Hj Hs') as [D1 D2 D3 D4].
        split; [|rewrite Hu'; by right|done|done].
        eapply cstr_same; [exact D1|]. eapply same_on_trans; [by apply (Hk' (q', slen s'))|].
        apply stq_same. by apply Hst.
      * rewrite lookup_app_r in Hj by lia. apply list_lookup_singleton_Some in Hj as [Hj <-].
        assert (s' = s) as -> by (replace j with (length qs) in Hs' by lia; congruence).
        split; [|rewrite Hu'; by left|done|done].
        eapply cstr_same; [by eapply cstr_copied|]. apply stq_same. by apply Hst.
  - rewrite Hu'. set_solver.
  - eapply kept_trans; [exact Hk|]. eapply kept_trans; [eapply kept_mono; [exact Hu0|exact Hk']|].
    intros b Hb. apply stq_same, Hst. rewrite Forall_forall in Harr_apart.
    specialize (Harr_apart b Hb). unfold apart in *. lia.
  - rewrite Nat2Z.id in Hrm. replace (Z.to_nat (Z.of_nat (length qs) + 1)) with (S (length qs)) by lia.
    rewrite (take_S_r _ _ _ Hs), total_snoc. lia.
Qed.
End dup.

(** The copies of everything: an array of pointers to the strings [args], and
    the string [cwd], all on the heap. *)
Record heap_copies (m : mem) (arr : Z) (args : list (list Z)) (c : Z) (cwd : list Z) : Prop := {
  hc_ptrs : exists qs, length qs = length args /\ parray m arr (qs ++ [0]) /\
    forall j q s, qs !! j = Some q -> args !! j = Some s -> cstr m q s /\ 0 < q /\ q + slen s <= limit;
  hc_arr : 0 < arr /\ arr + 8 * (Z.of_nat (length args) + 1) <= limit;
  hc_cwd : cstr m c cwd /\ 0 < c /\ c + slen cwd <= limit;
}.

(** Where they come from, anywhere in what is in use. *)
Record exec_args (m : mem) (h : H) (argv : Z) (args : list (list Z)) (realcwd : Z) (cwd : list Z) : Prop := {
  ea_ptrs : exists ps, length ps = length args /\ parray m argv (ps ++ [0]) /\
    Forall (fun p => p <> 0) ps /\
    forall i p s, ps !! i = Some p -> args !! i = Some s -> cstr m p s /\ inside h p (slen s);
  ea_argv : inside h argv (8 * (Z.of_nat (length args) + 1));
  ea_cwd : cstr m realcwd cwd /\ inside h realcwd (slen cwd);
  ea_fuel : Forall (fun s => (length s < fuel)%nat) (cwd :: args);
  ea_count : (length args < fuel)%nat;
}.

Lemma copy_args_copies argv args realcwd cwd m h :
  exec_args m h argv args realcwd cwd ->
  8 * (Z.of_nat (length args) + 1) + total args + slen cwd <= room h ->
  exists arr c m' h',
    copy_args malloc fuel argv realcwd m h =
      Ok (Z.of_nat (length args), arr, slen cwd, c, m', h') /\
    heap_copies m' arr args c cwd /\ kept h m m'.
Proof.
  intros [(ps&Hlen&Hpa&Hnz&Hsrc) Hargv [Hcwd Hcin] Hfuel Hcnt] Hroom.
  pose proof (total_nonneg args) as Ht0.
  apply Forall_cons in Hfuel as [Hfc Hfuel]. unfold copy_args.
  rewrite (cstr_strlen _ _ _ cwd) by done. cbn [mbind res_bind].
  rewrite (parray_count _ _ _ ps), Hlen by (done || lia). cbn [mbind res_bind].
  replace ((Z.of_nat (length args) + 1) * 8) with (8 * (Z.of_nat (length args) + 1)) by lia.
  destruct (memdup_copies argv (8 * (Z.of_nat (length args) + 1)) m h) as (arr&m1&h1&->&Ha&Hal&Hap&Hu1&Hc1&Hk1&Hr1);
    [unfold slen in *; lia|done|].
  destruct (for_from_rule (dup_arg malloc fuel arr) (dups h m1 h1 arr ps args) (length args) 0 (m1, h1))
    as ([m2 h2]&Hloop&[(qs&Hqs&Hqa&Hq) Hu2 Hk2 Hr2]).
  - intros i mh Hi. apply dup_arg_step; rewrite ?Hlen; try (done || (unfold slen in *; lia)).
    intros j p s Hj Hs. destruct (Hsrc j p s Hj Hs) as [H1 H2]. split; [|done].
    eapply cstr_same; [done|]. by eapply kept_inside.
  - split; cbn [fst snd]; [|done|apply kept_refl|change (Z.to_nat 0) with 0%nat; rewrite take_0; unfold total; cbn [foldr]; lia]. exists []. split; [done|]. split; [|done].
    intros i p Hi. cbn in Hi. rewrite <- (Hpa i p Hi). unfold ldq. f_equal. apply bytes_at_ext.
    intros k Hk. apply lookup_lt_Some in Hi. rewrite length_app in Hi. rewrite drop_0 in Hi. cbn in Hi.
    rewrite Hc1, decide_True by lia. f_equal. lia.
  - rewrite Nat2Z.id.
    rewrite Hloop. cbn [mbind res_bind fst snd] in *.
    change (Z.of_nat (length cwd) + 1) with (slen cwd).
    assert (used h ⊆ used h2) as Hu by (etrans; [|exact Hu2]; rewrite Hu1; set_solver).
    assert (kept h m m2) as Hk by (by eapply kept_trans).
    destruct (memdup_copies realcwd (slen cwd) m2 h2) as (c&m3&h3&->&Hc0&Hcl&Hcap&Hu3&Hc3&Hk3&_).
    { rewrite Z.add_0_l, Nat2Z.id, firstn_all in Hr2. unfold slen in *; lia. }
    { destruct Hcin as (b&Hb&Hb'). exists b. split; [by apply Hu|done]. }
    unfold nonnull. rewrite (proj2 (Z.eqb_neq c 0)) by lia. cbn [mbind res_bind].
    exists arr, c, m3, h3. split; [done|].
    assert (length qs = length args) as Hl by lia.
    split; [|eapply kept_trans; [exact Hk|by eapply kept_mono]].
    split; [|split; [lia|exact Hal]|].
    + exists qs. split; [done|]. rewrite drop_ge in Hqa by lia. split.
      * eapply parray_same; [exact Hqa|]. rewrite length_app. cbn.
        replace (8 * Z.of_nat (length qs + 1)) with (8 * (Z.of_nat (length args) + 1)) by lia.
        apply (Hk3 (arr, 8 * (Z.of_nat (length args) + 1))), Hu2. rewrite Hu1. by left.
      * intros j q s Hj Hs. destruct (Hq j q s Hj Hs) as [D1 D2 D3 _]. split; [|done].
        eapply cstr_same; [exact D1|]. by apply (Hk3 (q, slen s)).
    + split; [|done]. eapply cstr_copied; [|exact Hc3]. eapply cstr_same; [exact Hcwd|].
      by eapply kept_inside.
Qed.
End copies.

(** ** The new stack *)

Definition TOP : Z := 2 ^ 64 - 1.

Section stack.
Context (fuel : nat) (uninit : Z) (limit : Z) (m0 : mem) (arr : Z) (args : list (list Z)) (c : Z) (cwd : list Z).
Hypothesis Hcopies : heap_copies limit m0 arr args c cwd.
Hypothesis Hfuel : Forall (fun s => (length s < fuel)%nat) args.

Let n := Z.of_nat (length args).
Definition array_at : Z := TOP - (n + 1) * 8.
Definition stack_size : Z := (n + 1) * 8 + total args + slen cwd + sizeof_execdata.
Hypothesis Hroom : 0 <= limit <= TOP - stack_size.

(** The address of an argument: they are pushed one below the other. *)
Definition arg_at (i : nat) : Z := array_at - total (take (S i) args).

Lemma sizes_sum i : 0 < slen cwd /\ 0 <= total (take i args) <= total args /\
  stack_size = (n + 1) * 8 + total args + slen cwd + 32.
Proof.
  split; [unfold slen; lia|]. split; [|done]. split; [apply total_nonneg|apply total_take_le].
Qed.

Record pushed (i : Z) (ms : mem * Z) : Prop := {
  pu_stack : ms.2 = array_at - total (take (Z.to_nat i) args);
  pu_same x : x < ms.2 -> ld ms.1 x = ld m0 x;
  pu_args j s : args !! j = Some s -> Z.of_nat j < i ->
    ldq ms.1 (array_at + 8 * Z.of_nat j) = arg_at j /\ cstr ms.1 (arg_at j) s;
}.

Lemma push_arg_step i ms :
  0 <= i < n -> pushed i ms ->
  exists ms', push_arg fuel arr array_at i ms = Ok ms' /\ pushed (i + 1) ms'.
Proof.
  destruct ms as [m stack]. intros Hi [Hst Hsame Hargs]. cbn [fst snd] in *.
  destruct Hcopies as [(qs&Hql&Hqa&Hq) [Harr Harrl] _].
  destruct (lookup_lt_is_Some_2 args (Z.to_nat i)) as [s Hs]; [unfold n in *; lia|].
  destruct (lookup_lt_is_Some_2 qs (Z.to_nat i)) as [q Hqi]; [unfold n in *; lia|].
  destruct (Hq _ _ _ Hqi Hs) as (Hqs&Hq0&Hql').
  destruct (sizes_sum (Z.to_nat i)) as (Hcw&Ht&Hsz). destruct (sizes_sum (S (Z.to_nat i))) as (_&Ht'&_).
  assert (total (take (S (Z.to_nat i)) args) = total (take (Z.to_nat i) args) + slen s) as Htot
    by (by rewrite (take_S_r _ _ _ Hs), total_snoc).
  unfold push_arg.
  assert (ldq m (arr + 8 * i) = q) as ->.
  { etrans; [apply ldq_same; intros x Hx; apply Hsame|].
    - unfold array_at, TOP in *. unfold n in *. lia.
    - rewrite <- (Z2Nat.id i) by lia. apply Hqa. by rewrite lookup_app_l by (apply lookup_lt_Some in Hqi; lia). }
  unfold nonnull. rewrite (proj2 (Z.eqb_neq q 0)) by lia. cbn [mbind res_bind].
  assert (cstr m q s) as Hqm.
  { eapply cstr_same; [exact Hqs|]. intros x Hx. apply Hsame. unfold array_at, TOP in *. lia. }
  rewrite (cstr_strlen _ _ _ s) by (done || by eapply Forall_lookup_1 in Hfuel). cbn [mbind res_bind].
  change (Z.of_nat (length s) + 1) with (slen s).
  assert (u64 (stack - slen s) = arg_at (Z.to_nat i)) as Enew.
  { unfold arg_at. rewrite Htot, Hst, u64_small; [lia|]. unfold is_size, array_at, TOP, slen in *. lia. }
  rewrite Enew. eexists. split; [reflexivity|].
  assert (copied m (memcpy m (arg_at (Z.to_nat i)) q (Z.to_nat (slen s))) (arg_at (Z.to_nat i)) q (slen s)) as Hc.
  { apply memcpy_apart; [unfold slen; lia|]. unfold apart, arg_at, array_at, TOP in *. lia. }
  assert (arg_at (Z.to_nat i) + slen s = stack) as Eend by (unfold arg_at; lia).
  split; cbn [fst snd].
  - replace (Z.to_nat (i + 1)) with (S (Z.to_nat i)) by lia. reflexivity.
  - intros x Hx. rewrite (stq_same _ _ _ x 1); [|unfold apart, arg_at in *; lia|lia].
    rewrite Hc, decide_False by lia. apply Hsame. unfold slen in *. lia.
  - intros j t Hj Hji.
    assert (apart (array_at + 8 * i) 8 (arg_at j) (slen t)) as Hap.
    { unfold apart, arg_at. right. rewrite (take_S_r _ _ _ Hj), total_snoc.
      pose proof (total_nonneg (take j args)). lia. }
    destruct (decide (Z.of_nat j = i)) as [Eji|Hne].
    + assert (j = Z.to_nat i) as -> by lia. assert (t = s) as -> by congruence.
      rewrite Z2Nat.id by lia. split.
      * apply ldq_stq_eq. unfold is_size, arg_at, array_at, TOP in *. lia.
      * eapply cstr_same; [by eapply cstr_copied|]. by apply stq_same.
    + destruct (Hargs j t Hj ltac:(lia)) as [Hp Hstr].
      assert (stack <= arg_at j) as Hge.
      { unfold arg_at. rewrite Hst. replace (Z.to_nat i) with (S j + (Z.to_nat i - S j))%nat by lia.
        pose proof (total_take_le (S j) (take (S j + (Z.to_nat i - S j)) args)) as Hle.
        rewrite take_take, Nat.min_l in Hle by lia. lia. }
      split.
      * rewrite <- Hp. apply ldq_same. eapply same_on_trans; [eapply copied_same; [exact Hc|]|apply stq_same].
        -- unfold apart, arg_at in *. lia.
        -- unfold apart. lia.
      * eapply cstr_same; [exact Hstr|]. eapply same_on_trans; [eapply copied_same; [exact Hc|]|by apply stq_same].
        unfold apart. lia.
Qed.

Lemma write_bytes_app m a l1 l2 :
  write_bytes m a (l1 ++ l2) = write_bytes (write_bytes m a l1) (a + Z.of_nat (length l1)) l2.
Proof.
  revert m a; induction l1 as [|x l1 IH]; intros m a; cbn [app write_bytes length].
  - by rewrite Z.add_0_r.
  - rewrite IH. f_equal. lia.
Qed.

Lemma execdata_stores m a argc argv envp cw :
  write_bytes m a (execdata_bytes argc argv envp cw) =
  stq (stq (stq (stq m a argc) (a + 8) argv) (a + 16) envp) (a + 24) cw.
Proof.
  unfold execdata_bytes, stq. rewrite !write_bytes_app, !length_le_bytes.
  change (Z.of_nat 8) with 8. by rewrite <- !Z.add_assoc.
Qed.

Lemma le_value_int m a v : 0 <= v < 2 ^ 32 -> le_value (bytes_at (stq m a v) a 4) = v.
Proof.
  intros Hv. rewrite <- (le_value_bytes 4 v) at 2 by done. f_equal.
  assert (bytes_at (stq m a v) a 4 = take 4 (bytes_at (stq m a v) a 8)) as -> by done.
  unfold stq. rewrite <- (length_le_bytes 8 v) at 2. by rewrite bytes_at_write_bytes.
Qed.

Lemma build_stack_builds :
  n < 2 ^ 31 -> (length cwd < fuel)%nat ->
  exists m', build_stack fuel uninit n arr (slen cwd) c m0 = Ok (m', TOP - stack_size) /\
    _start2 fuel m' (TOP - stack_size) = Ok (args, cwd) /\
    forall x, x < TOP - stack_size -> ld m' x = ld m0 x.
Proof.
  intros Hn Hfc. destruct (sizes_sum (length args)) as (Hcw&Ht&Hsz). rewrite firstn_all in Ht.
  unfold build_stack.
  assert (u64 (2 ^ 64 - 1 - (n + 1) * 8) = array_at) as ->.
  { unfold array_at, TOP in *. apply u64_small. unfold is_size. lia. }
  destruct (for_from_rule (push_arg fuel arr array_at) pushed (length args) 0 (m0, array_at))
    as ([m1 st]&Hloop&[Hst Hsame Hargs]).
  { intros i ms Hi. apply push_arg_step. unfold n. lia. }
  { split; cbn [fst snd]; [|done|intros j s _ Hj; lia].
    change (Z.to_nat 0) with 0%nat. rewrite take_0. unfold total. cbn [foldr]. lia. }
  assert (Z.to_nat n = length args) as -> by (unfold n; lia). rewrite Hloop. cbn [mbind res_bind fst snd] in *.
  rewrite Z.add_0_l, Nat2Z.id, firstn_all in Hst.
  assert (u64 (st - slen cwd) = st - slen cwd) as E1.
  { apply u64_small. unfold is_size, array_at, TOP in *. lia. }
  assert (u64 (st - slen cwd - sizeof_execdata) = TOP - stack_size) as E2.
  { rewrite u64_small; unfold sizeof_execdata, is_size, array_at, TOP in *; lia. }
  rewrite E1, E2. eexists. split; [reflexivity|].
  set (m2 := stq m1 (array_at + 8 * n) 0).
  set (m3 := memcpy m2 (st - slen cwd) c (Z.to_nat (slen cwd))).
  destruct Hcopies as [_ _ (Hcc&Hc0&Hcl)].
  assert (forall x, x < st -> ld m2 x = ld m0 x) as Hm2.
  { intros x Hx. unfold m2. rewrite (stq_same _ _ _ x 1); [by apply Hsame|unfold apart, array_at, TOP in *; lia|lia]. }
  assert (copied m2 m3 (st - slen cwd) c (slen cwd)) as Hm3.
  { apply memcpy_apart; [lia|]. unfold apart, array_at, TOP in *. lia. }
  assert (cstr m3 (st - slen cwd) cwd) as Hcwd3.
  { eapply cstr_copied; [|exact Hm3]. eapply cstr_same; [exact Hcc|].
    intros x Hx. apply Hm2. unfold array_at, TOP in *. lia. }
  assert (forall x, st <= x -> apart x 1 (array_at + 8 * n) 8 -> ld m3 x = ld m1 x) as Hm31.
  { intros x Hx Hap. rewrite Hm3, decide_False by lia. unfold m2. apply ld_stq. unfold apart in Hap. lia. }
  rewrite execdata_stores. set (ed := TOP - stack_size).
  assert (ed + 32 = st - slen cwd) as Eed by (unfold ed, array_at in *; lia).
  set (m4 := stq (stq (stq (stq m3 ed n) (ed + 8) array_at) (ed + 16) uninit) (ed + 24) (st - slen cwd)).
  assert (forall x, ~ (ed <= x < ed + 32) -> ld m4 x = ld m3 x) as Hm4.
  { intros x Hx. unfold m4. by rewrite !ld_stq by lia. }
  split; [|intros x Hx; rewrite Hm4, Hm3, decide_False by lia; apply Hm2; lia].
  assert (le_value (bytes_at m4 ed 4) = n) as Eargc.
  { rewrite <- (le_value_int m3 ed n) by (unfold n in *; lia). f_equal. apply bytes_at_ext.
    intros k Hk. unfold m4. by rewrite !(ld_stq (stq _ _ _)) by lia. }
  assert (ldq m4 (ed + 8) = array_at) as Eargv.
  { rewrite <- (ldq_stq_eq (stq m3 ed n) (ed + 8) array_at) by (unfold is_size, array_at, TOP in *; lia).
    apply ldq_ext. intros k Hk. unfold m4. by rewrite 2 ld_stq by lia. }
  assert (ldq m4 (ed + 24) = st - slen cwd) as Ecwd.
  { apply ldq_stq_eq. unfold is_size, array_at, TOP in *. lia. }
  unfold _start2. rewrite Eargc, Eargv, Ecwd. unfold n at 1. rewrite Nat2Z.id.
  rewrite (parray_strings fuel m4 array_at (arg_at <$> seq 0 (length args)) args); [| | | |done].
  - cbn [mbind res_bind]. rewrite (cstr_string fuel m4 _ cwd); [done| |done].
    eapply cstr_same; [exact Hcwd3|]. intros x Hx. apply Hm4. lia.
  - intros j p Hj. destruct (decide (j < length args)%nat) as [Hlt|Hge].
    + rewrite lookup_app_l in Hj by (rewrite length_fmap, length_seq; lia).
      rewrite list_lookup_fmap, lookup_seq_lt in Hj by done. injection Hj as <-.
      destruct (lookup_lt_is_Some_2 args j Hlt) as [s Hs].
      destruct (Hargs j s Hs ltac:(lia)) as [Hp _]. cbn. rewrite <- Hp. apply ldq_ext. intros k Hk.
      rewrite Hm4, Hm31; [done|unfold array_at in *; lia|unfold apart, n; lia|unfold array_at in *; lia].
    + rewrite lookup_app_r in Hj by (rewrite length_fmap, length_seq; lia).
      rewrite length_fmap, length_seq in Hj. apply list_lookup_singleton_Some in Hj as [Hj <-].
      assert (Z.of_nat j = n) as -> by (unfold n; lia).
      etrans; [|apply (ldq_stq_eq m1 (array_at + 8 * n) 0); done].
      apply ldq_ext. intros k Hk. rewrite Hm4 by (unfold array_at in *; lia).
      rewrite Hm3, decide_False by (unfold array_at in *; lia). done.
  - by rewrite length_fmap, length_seq.
  - intros j p s Hj Hs. pose proof (lookup_lt_Some _ _ _ Hs) as Hlt.
    rewrite list_lookup_fmap, lookup_seq_lt in Hj by done. injection Hj as <-. cbn.
    destruct (Hargs j s Hs ltac:(lia)) as [_ Hstr]. eapply cstr_same; [exact Hstr|]. intros x Hx.
    assert (st <= arg_at j /\ arg_at j + slen s <= array_at) as [Hlo Hhi].
    { unfold arg_at. rewrite (take_S_r _ _ _ Hs), total_snoc.
      pose proof (total_nonneg (take j args)). pose proof (total_take_le (S j) args) as Hle.
      rewrite (take_S_r _ _ _ Hs), total_snoc in Hle. lia. }
    rewrite Hm4, Hm31; [done|lia|unfold apart, n; lia|lia].
Qed.
End stack.

(** C5: a program that is started gets its arguments and its working directory.
    Wherever the array of arguments, the strings it points to and the working
    directory are, the part of memory that the new stack overwrites included:
    if the heap has room for the copies and ends below the new stack, what
    [_start2] finds there is exactly the arguments, their number and the working
    directory.  What was in use and is not overwritten by the stack is as it was,
    the loaded image among it, and if the stack has no more than [0xF000] bytes
    the ranges that the kernel is told to free end below it. *)
Theorem freejmp_passes_arguments {H} (malloc : Z -> H -> Z * H) (used : H -> list (Z * Z))
    (room : H -> Z) limit fuel uninit default_argv entry low imglen argv realcwd m h args cwd :
  limit < 2 ^ 64 ->
  (forall n h, 0 < n <= room h ->
     let '(a, h') := malloc n h in
     0 < a /\ a + n <= limit /\ Forall (fun b => apart a n b.1 b.2) (used h) /\
     used h' = (a, n) :: used h /\ room h - n <= room h') ->
  exec_args fuel used m h (if argv =? 0 then default_argv else argv) args realcwd cwd ->
  8 * (Z.of_nat (length args) + 1) + total args + slen cwd <= room h ->
  Z.of_nat (length args) < 2 ^ 31 -> 0 <= limit <= TOP - stack_size args cwd ->
  let stack := TOP - stack_size args cwd in
  exists m' h',
    _freejmp malloc fuel uninit default_argv entry low imglen argv realcwd m h =
      Ok (m', stack, freejmp_execbuf entry low imglen, h') /\
    _start2 fuel m' stack = Ok (args, cwd) /\
    (forall b x, b ∈ used h -> b.1 <= x < b.1 + b.2 -> x < stack -> ld m' x = ld m x) /\
    (stack_size args cwd <= 0xF000 -> 0 <= low -> 0 <= imglen -> low + imglen <= TOP - 0xF000 ->
     forall start len, (start, len) ∈ freed_ranges (freejmp_execbuf entry low imglen) ->
       start + len <= stack /\ (start + len <= low \/ low + imglen <= start)).
Proof.
  intros Hlim Hmalloc Hargs Hroom Hn Hl stack. unfold _freejmp.
  destruct (copy_args_copies malloc fuel used room limit Hlim Hmalloc _ _ _ _ m h Hargs Hroom)
    as (arr&c&m1&h1&->&Hcopies&Hkept). cbn [mbind res_bind].
  pose proof (ea_fuel _ _ _ _ _ _ _ _ Hargs) as [Hfc Hfs]%Forall_cons.
  destruct (build_stack_builds fuel uninit limit m1 arr args c cwd Hcopies Hfs Hl Hn Hfc) as (m2&->&Hst&Hsame).
  cbn [mbind res_bind]. exists m2, h1. split; [done|]. split; [done|]. split.
  - intros b x Hb Hx Hxs. rewrite Hsame by done. by apply (Hkept b).
  - intros Hs H0 H1 Hi start len Hin. subst stack.
    unfold freejmp_execbuf, freed_ranges in Hin.
    rewrite !u64_small in Hin by (unfold is_size, TOP in *; rewrite ?u64_small; unfold is_size; lia).
    rewrite !elem_of_cons in Hin. destruct Hin as [E|[E|?%not_elem_of_nil]]; [| |done];
      injection E as -> ->; unfold TOP in *; lia.
Qed.

(** Arguments that take more than [0xF000] bytes: the second range reaches into
    the new stack. *)
Lemma long_arguments_freed entry low imglen size :
  0xF000 < size -> 0 <= low -> 0 <= imglen -> low + imglen <= TOP - size ->
  exists start len, (start, len) ∈ freed_ranges (freejmp_execbuf entry low imglen) /\
    start <= TOP - size < start + len.
Proof.
  intros Hs H0 H1 H2. exists (u64 (low + imglen)), (u64 (2 ^ 64 - 1 - 0xF000 - u64 (low + imglen))).
  split; [cbn; set_solver|].
  assert (u64 (low + imglen) = low + imglen) as -> by (apply u64_small; unfold is_size, TOP in *; lia).
  rewrite u64_small by (unfold is_size, TOP in *; lia). unfold TOP in *. lia.
Qed.

(** ** Relocation ([src/src/libc/elfreloc.c])

    The first thing a program does: addresses in its data are completed with
    where it was loaded. *)

Definition DT_NULL : Z := 0.
Definition DT_RELA : Z := 7.
Definition DT_RELASZ : Z := 8.
Definition DT_RELAENT : Z := 9.
Definition R_X86_64_RELATIVE : Z := 8.

(** The entry of [_DYNAMIC], 16 bytes each, with a tag. *)
Fixpoint dyn_gettag (fuel : nat) (m : mem) (dyn tag : Z) : res (option Z) :=
  match fuel with
  | O => Err OutOfFuel
  | S n =>
      if ldq m dyn =? tag then Ok (Some dyn)
      else if ldq m dyn =? DT_NULL then Ok None
      else dyn_gettag n m (dyn + 16) tag
  end.

Definition deref_tag (t : option Z) (m : mem) : res Z :=
  match t with Some d => Ok (ldq m (d + 8)) | None => Err Undefined end.

(** One entry of the table; other types are only reported. *)
Definition relocate (exe d o : Z) (m : mem) : mem :=
  let r := u64 (exe + ldq m (d + 8) + o) in
  let target := u64 (exe + ldq m r) in
  if u32 (ldq m (r + 8)) =? R_X86_64_RELATIVE
  then stq m target (u64 (exe + ldq m (r + 16))) else m.

Fixpoint reloc_loop (fuel : nat) (exe d relasz relaent o : Z) (m : mem) : res mem :=
  if o <? relasz then
    match fuel with
    | O => Err OutOfFuel
    | S n => reloc_loop n exe d relasz relaent (u64 (o + relaent)) (relocate exe d o m)
    end
  else Ok m.

Definition elf_selfreloc (fuel : nat) (exe dyn : Z) (m : mem) : res mem :=
  rela_tag ← dyn_gettag fuel m dyn DT_RELA;
  match rela_tag with
  | None => Ok m
  | Some d =>
      sz ← dyn_gettag fuel m dyn DT_RELASZ;
      relasz ← deref_tag sz m;
      ent ← dyn_gettag fuel m dyn DT_RELAENT;
      relaent ← deref_tag ent m;
      reloc_loop fuel exe d relasz relaent 0 m
  end.

(** The table of relocations, of 24 bytes each. *)
Record rela := mkRela { r_offset : Z; r_info : Z; r_addend : Z }.

Definition relative (r : rela) : bool := u32 (r_info r) =? R_X86_64_RELATIVE.

Section relocation.
Context (exe d table : Z) (rs : list rela) (m0 : mem).
Let n := Z.of_nat (length rs).

(** The table is in memory, and no relocation is applied to the table, to the
    entry that leads to it, or where another one is. *)
Record rela_table : Prop := {
  rt_range : 0 <= exe /\ 0 <= table /\ exe + table + 24 * n < 2 ^ 64;
  rt_table : ldq m0 (d + 8) = table;
  rt_entry i r : rs !! i = Some r ->
    let a := exe + table + 24 * Z.of_nat i in
    ldq m0 a = r_offset r /\ ldq m0 (a + 8) = r_info r /\ ldq m0 (a + 16) = r_addend r;
  rt_target i r : rs !! i = Some r -> relative r = true ->
    0 <= exe + r_offset r < 2 ^ 64 /\ apart (exe + r_offset r) 8 (exe + table) (24 * n) /\
    apart (exe + r_offset r) 8 (d + 8) 8;
  rt_apart i j r q : rs !! i = Some r -> rs !! j = Some q -> i <> j ->
    relative r = true -> relative q = true -> apart (exe + r_offset r) 8 (exe + r_offset q) 8;
}.
Hypothesis Htable : rela_table.

(** The first [i] relocations are applied. *)
Record relocated (i : nat) (m : mem) : Prop := {
  rl_done j r : (j < i)%nat -> rs !! j = Some r -> relative r = true ->
    ldq m (exe + r_offset r) = u64 (exe + r_addend r);
  rl_same x : (forall j r, rs !! j = Some r -> relative r = true -> ~ (exe + r_offset r <= x < exe + r_offset r + 8)) ->
    ld m x = ld m0 x;
}.

Lemma relocated_word i m a :
  relocated i m -> (forall j r, rs !! j = Some r -> relative r = true -> apart (exe + r_offset r) 8 a 8) ->
  ldq m a = ldq m0 a.
Proof.
  intros Hr Ha. apply ldq_ext. intros x Hx. apply (rl_same _ _ Hr). intros j r Hj Hrel.
  specialize (Ha j r Hj Hrel). unfold apart in Ha. lia.
Qed.

Lemma relocate_step i r m :
  rs !! i = Some r -> relocated i m -> relocated (S i) (relocate exe d (24 * Z.of_nat i) m).
Proof.
  intros Hi Hm. pose proof (lookup_lt_Some _ _ _ Hi) as Hlt. destruct Htable as [(H0&H1&H2) Ht He Htg Hap].
  assert (forall k, 0 <= k <= 16 -> ldq m (exe + table + 24 * Z.of_nat i + k) = ldq m0 (exe + table + 24 * Z.of_nat i + k)) as Hword.
  { intros k Hk. apply (relocated_word i); [done|]. intros j q Hj Hq.
    destruct (Htg j q Hj Hq) as (_&Ha&_). unfold apart, n in *. lia. }
  unfold relocate. rewrite (relocated_word i m (d + 8)), Ht;
    [|done|intros j q Hj Hq; by destruct (Htg j q Hj Hq) as (_&_&Ha)].
  rewrite u64_small by (unfold is_size, n in *; lia).
  pose proof (Hword 0 ltac:(lia)) as Hw0. rewrite Z.add_0_r in Hw0.
  destruct (He i r Hi) as (E0&E1&E2). rewrite Hw0, !Hword, E0, E1, E2 by lia.
  destruct (_ =? _) eqn:Hrel; [|].
  - assert (relative r = true) as Hr by exact Hrel. destruct (Htg i r Hi Hr) as (Hrange&_&_).
    rewrite (u64_small (exe + r_offset r)) by exact Hrange. split.
    + intros j q Hj Hq Hqr. destruct (decide (j = i)) as [->|Hne].
      * assert (q = r) as -> by congruence. apply ldq_stq_eq, u64_range.
      * rewrite <- (rl_done _ _ Hm j q) by (done || lia). apply ldq_same, stq_same.
        by apply (Hap i j r q).
    + intros x Hx. rewrite ld_stq by (by apply (Hx i r)). by apply (rl_same _ _ Hm).
  - split; [|apply (rl_same _ _ Hm)]. intros j q Hj Hq Hqr. apply (rl_done _ _ Hm j q); try done.
    assert (j <> i); [|lia]. intros ->. assert (q = r) as -> by congruence.
    unfold relative in Hqr. congruence.
Qed.

Lemma reloc_loop_all k fuel i m :
  (i + k = length rs)%nat -> (k <= fuel)%nat -> 24 * n < 2 ^ 63 -> relocated i m ->
  exists m', reloc_loop fuel exe d (24 * n) 24 (24 * Z.of_nat i) m = Ok m' /\ relocated (length rs) m'.
Proof.
  revert fuel i m; induction k as [|k IH]; intros fuel i m Hk Hf Hn Hm.
  - exists m. replace (length rs) with i by lia. split; [|done].
    destruct fuel; cbn [reloc_loop]; by rewrite (proj2 (Z.ltb_ge _ _)) by (unfold n; lia).
  - destruct fuel as [|fuel]; [lia|]. cbn [reloc_loop]. rewrite (proj2 (Z.ltb_lt _ _)) by (unfold n; lia).
    destruct (lookup_lt_is_Some_2 rs i) as [r Hr]; [lia|].
    rewrite u64_small by (unfold is_size, n in *; lia).
    replace (24 * Z.of_nat i + 24) with (24 * Z.of_nat (S i)) by lia.
    apply IH; [lia|lia|done|]. by apply (relocate_step i r).
Qed.
End relocation.

(** Every relative relocation is applied once, and nothing else changes. *)
Lemma selfreloc_relocates fuel exe dyn d ds de table rs m :
  dyn_gettag fuel m dyn DT_RELA = Ok (Some d) ->
  dyn_gettag fuel m dyn DT_RELASZ = Ok (Some ds) -> ldq m (ds + 8) = 24 * Z.of_nat (length rs) ->
  dyn_gettag fuel m dyn DT_RELAENT = Ok (Some de) -> ldq m (de + 8) = 24 ->
  rela_table exe d table rs m -> (length rs <= fuel)%nat -> 24 * Z.of_nat (length rs) < 2 ^ 63 ->
  exists m', elf_selfreloc fuel exe dyn m = Ok m' /\ relocated exe rs m (length rs) m'.
Proof.
  intros E1 E2 E3 E4 E5 Ht Hf Hn. unfold elf_selfreloc. rewrite E1. cbn [mbind res_bind].
  rewrite E2. cbn [mbind res_bind deref_tag]. rewrite E4. cbn [mbind res_bind deref_tag].
  rewrite E3, E5. apply (reloc_loop_all exe d table rs m Ht (length rs) fuel 0 m); [lia|done|done|].
  split; [intros j r Hj; lia|done].
Qed.

(** ** An allocator *)

(** What is in use, from the last on, and where the next object goes. *)
Definition some_limit : Z := 0x100000.

Definition bump_room (h : Z * list (Z * Z)) : Z :=
  if (0 <? h.1) && forallb (fun b => (some_limit <=? b.1) || (b.1 + b.2 <=? h.1)) h.2
  then some_limit - h.1 else 0.

Definition bump (n : Z) (h : Z * list (Z * Z)) : Z * (Z * list (Z * Z)) :=
  if n <=? bump_room h then (h.1, (h.1 + n, (h.1, n) :: h.2)) else (0, h).

Lemma bump_apart n h :
  0 < n <= bump_room h ->
  let '(a, h') := bump n h in
  0 < a /\ a + n <= some_limit /\ Forall (fun b => apart a n b.1 b.2) h.2 /\
  h'.2 = (a, n) :: h.2 /\ bump_room h - n <= bump_room h'.
Proof.
  intros Hn. unfold bump. rewrite (proj2 (Z.leb_le _ _)) by lia. unfold bump_room in *.
  destruct (_ && _) eqn:Eb; [|lia]. zbool. cbn [fst snd forallb].
  rewrite forallb_forall in *. split_and!; [lia|lia| |done|].
  - apply Forall_forall. intros b Hb. unfold apart.
    specialize (H0 b ltac:(by apply list_elem_of_In)). apply orb_true_iff in H0 as [?|?]; zbool; lia.
  - rewrite (proj2 (Z.ltb_lt _ _)), (proj2 (Z.leb_le (h.1 + n) (h.1 + n))), orb_true_r by lia. cbn [andb].
    rewrite (proj2 (forallb_forall _ _)); [lia|]. intros b Hb. specialize (H0 b Hb).
    apply orb_true_iff in H0 as [?|?]; zbool; apply orb_true_iff; rewrite !Z.leb_le; lia.
Qed.

(** ** A program with two arguments

    The arguments lie where the new stack goes. *)

Definition some_argv : Z := TOP - 60.

Definition some_memory : mem :=
  write_bytes (write_bytes (write_bytes (stq (stq (stq ∅ some_argv (TOP - 30)) (some_argv + 8) (TOP - 20))
    (some_argv + 16) 0) (TOP - 30) [97; 98; 0]) (TOP - 20) [99; 0]) (TOP - 10) [47; 0].

Definition some_heap : Z * list (Z * Z) := (0x1000, [(TOP - 4096, 4096)]).

Lemma some_exec_args :
  exec_args 5 snd some_memory some_heap some_argv [[97; 98]; [99]] (TOP - 10) [47].
Proof.
  assert (forall a n, TOP - 4096 <= a -> a + n <= TOP -> inside snd some_heap a n) as Hin.
  { intros a n Ha Hn. exists (TOP - 4096, 4096). split; [by left|]. cbn [fst snd]. lia. }
  assert (forall (P : Z -> Prop) b, (forall k : nat, (k <= b)%nat -> P (Z.of_nat k)) ->
    forall k, 0 <= k <= Z.of_nat b -> P k) as Hnat.
  { intros P b Hp k Hk. rewrite <- (Z2Nat.id k) by lia. apply Hp. lia. }
  split.
  - exists [TOP - 30; TOP - 20]. split; [done|]. split; [|split].
    + intros i p Hi. do 3 (destruct i as [|i]; [injection Hi as <-; vm_compute; reflexivity|]). done.
    + repeat constructor; discriminate.
    + intros i p s Hp Hs. destruct i as [|[|i]]; [| |done]; injection Hp as <-; injection Hs as <-;
        (split; [split; [repeat constructor; discriminate|]|apply Hin; vm_compute; discriminate]);
        apply Hnat; intros k Hk; cbn in Hk; do 3 (destruct k as [|k]; [vm_compute; reflexivity|]); lia.
  - apply Hin; vm_compute; discriminate.
  - split; [split; [repeat constructor; discriminate|]|apply Hin; vm_compute; discriminate].
    apply Hnat; intros k Hk; cbn in Hk. do 2 (destruct k as [|k]; [vm_compute; reflexivity|]). lia.
  - repeat constructor.
  - cbn. lia.
Qed.

Lemma freejmp_passes_arguments_witness :
  exists m' h',
    _freejmp bump 5 0 0 0x400010 0x400000 0x2000 some_argv (TOP - 10) some_memory some_heap =
      Ok (m', TOP - 63, freejmp_execbuf 0x400010 0x400000 0x2000, h') /\
    _start2 5 m' (TOP - 63) = Ok ([[97; 98]; [99]], [47]).
Proof.
  destruct (freejmp_passes_arguments bump snd bump_room some_limit 5 0 0 0x400010 0x400000 0x2000
    some_argv (TOP - 10) some_memory some_heap [[97; 98]; [99]] [47]) as (m'&h'&E0&E1&_).
  - unfold some_limit. lia.
  - apply bump_apart.
  - apply some_exec_args.
  - vm_compute. discriminate.
  - cbn. lia.
  - vm_compute. split; discriminate.
  - exists m', h'. split; [exact E0|exact E1].
Defined.
