(* ===== verification/Stdio.v ===== *)
(** * Stdio

    The streams of the C library ([src/src/libc/stdio/file.c]) and the parts of
    [misc.c] and [fprintf.c] that are built on them.  A stream is an object
    behind a pointer; the three standard streams are objects 1, 2 and 3.  The
    read buffer is the list of its first [rblen] bytes, as nothing else of it
    is ever read.

    System calls are the operations of [Sys] on a state of the kernel that is a
    parameter; so is whether [malloc] succeeds, and [camellia_open], which
    [Cwd] models. *)

From S2P Require Import Prelude Monad Mem Ring Printf CString NetUtil KState.

(** ** Data *)

(** The pointer [readbuf]: null, an object, or one that was freed. *)
Inductive rbuf := NoBuf | Buf (l : list Z) | Dangling.

Record FILE := mkFILE {
  fd : Z;
  fpos : Z;
  feof_ : bool;
  ferror_ : bool;
  extflags : Z;
  readbuf : rbuf;
  pushedback : bool;
  pushback : Z;
}.
#[export] Instance FILE_settable : Settable FILE := fun f =>
  mkFILE (fd f) (fpos f) (feof_ f) (ferror_ f) (extflags f) (readbuf f) (pushedback f) (pushback f).

(** [calloc], and static objects. *)
Definition FILE0 : FILE := mkFILE 0 0 false false 0 NoBuf false 0.

Definition EOF : Z := -1.
Definition SEEK_SET : Z := 1.
Definition SEEK_CUR : Z := 2.
Definition SEEK_END : Z := 3.
Definition IONBF : Z := 0.
Definition IOFBF : Z := 1.
Definition BUFSIZ : Z := 4096.
Definition FEXT_NOFILL : Z := 1.
Definition OPEN_READ : Z := 1.
Definition OPEN_EXEC : Z := 0.
Definition EBADF : Z := 3.

(** What the library asks of the kernel, in the state [K].  A read answers the
    return value and the bytes it has put at the start of the buffer. *)
Class Sys (K : Type) := {
  sys_read : Z -> Z -> Z -> K -> Z * list Z * K;          (* handle, length, offset *)
  sys_write : Z -> list Z -> Z -> Z -> K -> Z * K;        (* handle, data, offset, flags *)
  sys_dup : Z -> Z -> Z -> K -> Z * K;
  sys_getsize : Z -> K -> Z * K;
  sys_close : Z -> K -> K;
  camellia_open : list Z -> Z -> K -> Z * K;
  malloc_ok : K -> bool * K;
}.

Record stdio (K : Type) := mkStdio {
  kern : K;
  files : gmap positive FILE;
  next_file : positive;
  errno : Z;
}.
Arguments mkStdio {K}.
Arguments kern {K}.
Arguments files {K}.
Arguments next_file {K}.
Arguments errno {K}.
#[export] Instance stdio_settable K : Settable (stdio K) := fun s =>
  mkStdio (kern s) (files s) (next_file s) (errno s).

Definition stdin : positive := 1.
Definition stdout : positive := 2.
Definition stderr : positive := 3.

Definition stdio0 {K} (k : K) : stdio K :=
  mkStdio k {[ stdin := FILE0;
               stdout := FILE0 <| fd := 1 |> <| fpos := -1 |>;
               stderr := FILE0 <| fd := 2 |> <| fpos := -1 |> ]} 4 0.

Section stdio.
Context {K : Type} `{Sys K}.

Local Abbreviation L := (ST (stdio K) Empty_set).

Definition call {A} (f : K -> A * K) : L A := fun s =>
  let '(a, k) := f (kern s) in Val a (s <| kern := k |>).
Definition set_errno (e : Z) : L () := modify (set errno (fun _ => e)).

Definition rd_file (f : positive) : L FILE := s ← get_; deref (files s !! f).
Definition wr_file (f : positive) (g : FILE -> FILE) : L () :=
  s ← get_; x ← deref (files s !! f); put_ (s <| files ::= <[f := g x]> |>).

(** ** Opening *)

Definition fdopen (h : Z) (mode : list Z) : L (option positive) :=
  ok ← call malloc_ok;
  if (ok : bool) then
    m ← lift (peek mode 0);
    s ← get_;
    let f := next_file s in
    put_ (s <| files ::= <[f := FILE0 <| fd := h |> <| fpos := if m =? 97 then -1 else 0 |> ]> |>
            <| next_file := Pos.succ f |>);;
    mret (Some f)
  else mret None.

Definition close_ (h : Z) : L () := modify (set kern (sys_close h)).

(** [camellia_open], which leaves its error in [errno] as well. *)
Definition open_ (path : list Z) (flags : Z) : L Z :=
  h ← call (camellia_open path flags);
  (if h <? 0 then set_errno (- h) else mret ());;
  mret h.

Definition file_clone (f : positive) (mode : list Z) : L (option positive) :=
  x ← rd_file f;
  h ← call (sys_dup (fd x) (-1) 0);
  if h <? 0 then mret None
  else
    f2 ← fdopen h mode;
    match f2 with
    | None => close_ h;; mret None
    | Some f2 =>
        x ← rd_file f;
        wr_file f2 (fun y : FILE => y <| fpos := fpos x |> <| feof_ := feof_ x |> <| fd := h |>);;
        mret (Some f2)
    end.

(** [free(f->readbuf)] *)
Definition free_readbuf (f : positive) : L () :=
  x ← rd_file f; match readbuf x with Dangling => fail Undefined | _ => mret () end.

Definition setvbuf (f : positive) (buf_null : bool) (type : Z) : L Z :=
  if type =? IONBF then free_readbuf f;; wr_file f (set readbuf (fun _ => NoBuf));; mret 0
  else if (type =? IOFBF) && buf_null then
    ok ← call malloc_ok;
    wr_file f (set readbuf (fun _ => if (ok : bool) then Buf [] else NoBuf));;
    mret (if (ok : bool) then 0 else -1)
  else set_errno ENOSYS;; mret (-1).

Definition str_stdin : list Z := [115; 116; 100; 105; 110; 0].
Definition str_stdout : list Z := [115; 116; 100; 111; 117; 116; 0].
Definition str_stderr : list Z := [115; 116; 100; 101; 114; 114; 0].

Definition open_flags (mode : list Z) : res Z :=
  e ← strchr mode 101;
  if is_some e then Ok OPEN_EXEC
  else
    r ← strchr mode 114;
    if is_some r then
      p ← strchr mode 43;
      Ok (if is_some p then Z.lor OPEN_READ OPEN_WRITE else OPEN_READ)
    else Ok (Z.lor OPEN_WRITE OPEN_CREATE).

Definition fopen (path : option (list Z)) (mode : list Z) : L (option positive) :=
  match path with
  | None => set_errno 1;; mret None
  | Some path =>
      c ← lift (peek path 0);
      if c =? 33 then                            (* ! *)
        let path := drop 1 path in
        i ← lift (strcmp path str_stdin);
        o ← lift (strcmp path str_stdout);
        e ← lift (strcmp path str_stderr);
        if i =? 0 then file_clone stdin mode
        else if o =? 0 then file_clone stdout mode
        else if e =? 0 then file_clone stderr mode
        else set_errno ENOENT;; mret None
      else
        flags ← lift (open_flags mode);
        h ← open_ path flags;
        if h <? 0 then mret None
        else
          m ← lift (peek mode 0);
          (if m =? 119 then _ ← call (sys_write h [] 0 WRITE_TRUNCATE); mret () else mret ());;
          f ← fdopen h mode;
          (if is_some f then mret () else close_ h);;
          (* not checked for NULL *)
          p ← deref f;
          _ ← setvbuf p true IOFBF;
          mret f
  end.

(** [fflush] does nothing. *)
Definition fflush (f : positive) : L Z := mret 0.

Definition is_static (f : positive) : bool :=
  bool_decide (f = stdin) || bool_decide (f = stdout) || bool_decide (f = stderr).

Definition fclose (f : positive) : L Z :=
  _ ← fflush f;
  x ← rd_file f;
  (if 0 <? fd x then close_ (fd x) else mret ());;
  free_readbuf f;;
  (if is_static f then
     wr_file f (set readbuf (fun b => match b with NoBuf => NoBuf | _ => Dangling end))
   else modify (set files (delete f)));;
  mret 0.

Definition freopen (path : option (list Z)) (mode : list Z) (f : positive) : L (option positive) :=
  f2 ← (match path with None => mret None | Some _ => fopen path mode end);
  match f2 with
  | None => _ ← fclose f; mret None
  | Some f2 =>
      x ← rd_file f;
      x2 ← rd_file f2;
      r ← (if fd x =? fd x2 then wr_file f2 (set fd (fun _ => -1));; mret 0
           else call (sys_dup (fd x2) (fd x) 0));
      if r <? 0 then _ ← fclose f2; _ ← fclose f; mret None
      else
        wr_file f (fun y : FILE => y <| fpos := fpos x2 |> <| feof_ := feof_ x2 |>);;
        _ ← fclose f2;
        mret (Some f)
  end.

Definition fileno (f : positive) : L Z := x ← rd_file f; mret (fd x).

Definition fextflags (f : positive) (flags : Z) : L Z :=
  x ← rd_file f; wr_file f (set extflags (fun _ => flags));; mret (extflags x).

(** ** Reading and writing *)

(** A position that counts from the end does not become one that counts from
    the start. *)
Definition advanced (amt pos : Z) : Z :=
  let pos' := s64 (pos + amt) in
  if (pos <? 0) && (0 <=? pos') then -1 else pos'.

Definition fadvance (amt : Z) (f : positive) : L () := wr_file f (set fpos (advanced amt)).

(** What a [read] that failed or met the end leaves in the stream. *)
Definition read_failed (f : positive) (res : Z) : L () :=
  if res <? 0 then wr_file f (set ferror_ (fun _ => true));; set_errno (- res)
  else wr_file f (set feof_ (fun _ => true)).

(** Filling the read buffer, for a request of less than half its size; [false]
    ends the loop of [fread]. *)
Definition fill_buf (f : positive) (want : Z) : L bool :=
  x ← rd_file f;
  match readbuf x with
  | Buf [] =>
      if want <? BUFSIZ / 2 then
        '(res, bytes) ← call (sys_read (fd x) BUFSIZ (fpos x));
        if 0 <? res then wr_file f (set readbuf (fun _ => Buf bytes));; mret true
        else read_failed f res;; mret false
      else mret true
  | Dangling => fail Undefined
  | _ => mret true
  end.

(** One turn of the loop of [fread]: [out] are the bytes at the start of the
    caller's buffer. *)
Definition fread_turn (f : positive) (total : Z) (out : list Z) : L (list Z + list Z) :=
  let pos := Z.of_nat (length out) in
  if total <=? pos then mret (inr out)
  else
    x ← rd_file f;
    if pushedback x then
      wr_file f (set pushedback (fun _ => false));;
      mret (inl (out ++ [pushback x]))
    else
      go ← fill_buf f (total - pos);
      if negb go then mret (inr out)
      else
        x ← rd_file f;
        let cached := match readbuf x with Buf l => l | _ => [] end in
        r ← (if 0 <? Z.of_nat (length cached) then
               let res := Z.to_nat (Z.min (total - pos) (Z.of_nat (length cached))) in
               wr_file f (set readbuf (fun _ => Buf (drop res cached)));;
               mret (Some (take res cached))
             else
               '(res, bytes) ← call (sys_read (fd x) (total - pos) (fpos x));
               if 0 <? res then mret (Some bytes)
               else read_failed f res;; mret None);
        match r with
        | None => mret (inr out)
        | Some bytes =>
            fadvance (Z.of_nat (length bytes)) f;;
            x ← rd_file f;
            let out := out ++ bytes in
            if negb (Z.land (extflags x) FEXT_NOFILL =? 0) then mret (inr out) else mret (inl out)
        end.

(** The bytes in the caller's buffer and the number of items. *)
Definition fread (size nitems : Z) (f : positive) : L (list Z * Z) :=
  let total := u64 (size * nitems) in
  x ← rd_file f;
  if fd x <? 0 then set_errno EBADF;; mret ([], 0)
  else if size =? 0 then mret ([], 0)
  else
    out ← iter (S (Z.to_nat total)) (fread_turn f total) [];
    let pos := Z.of_nat (length out) in
    mret (out, if pos =? total then nitems else pos / size).

Definition fwrite_turn (f : positive) (buf : list Z) (size nitems : Z) (pos : Z) : L (Z + Z) :=
  let total := u64 (size * nitems) in
  if total <=? pos then mret (inr nitems)
  else
    x ← rd_file f;
    data ← lift (fetch buf pos (total - pos));
    res ← call (sys_write (fd x) data (fpos x) 0);
    if 0 <? res then fadvance res f;; mret (inl (pos + res))
    else read_failed f res;; mret (inr (pos / size)).

Definition fwrite (buf : list Z) (size nitems : Z) (f : positive) : L Z :=
  x ← rd_file f;
  if fd x <? 0 then set_errno EBADF;; mret 0
  else if size =? 0 then mret 0
  else iter (S (Z.to_nat (u64 (size * nitems)))) (fwrite_turn f buf size nitems) 0.

(** The byte is a [char], so it is sign-extended. *)
Definition fgetc (f : positive) : L Z :=
  '(out, n) ← fread 1 1 f;
  match out with
  | c :: _ => mret (if n =? 0 then EOF else schar c)
  | [] => mret EOF
  end.

Definition fputc (c : Z) (f : positive) : L Z :=
  n ← fwrite [u8 c] 1 1 f; mret (if n =? 0 then EOF else c).

Definition fgets_turn (f : positive) (size : Z) (buf : list Z) : L (list Z + list Z) :=
  if Z.of_nat (length buf) <? size - 1 then
    c ← fgetc f;
    if c =? EOF then mret (inr buf)
    else
      let buf := buf ++ [u8 c] in
      if c =? 10 then mret (inr buf) else mret (inl buf)
  else mret (inr buf).

(** The contents of the buffer, or [NULL]. *)
Definition fgets (size : Z) (f : positive) : L (option (list Z)) :=
  buf ← iter (S (Z.to_nat size)) (fgets_turn f size) [];
  x ← rd_file f;
  mret (if bool_decide (buf = []) || ferror_ x then None else Some (buf ++ [0])).

Definition ungetc (c : Z) (f : positive) : L Z :=
  x ← rd_file f;
  if pushedback x then mret EOF
  else wr_file f (fun y : FILE => y <| pushedback := true |> <| pushback := u8 c |>);; mret c.

(** ** Position *)

(** [f->rblen = 0] *)
Definition emptied (b : rbuf) : rbuf := match b with Buf _ => Buf [] | b => b end.

Definition fseeko (f : positive) (offset whence : Z) : L Z :=
  x ← rd_file f;
  base ← (if whence =? SEEK_SET then mret (Some 0)
          else if whence =? SEEK_CUR then mret (Some (fpos x))
          else if whence =? SEEK_END then
            n ← call (sys_getsize (fd x)); mret (Some (if n <? 0 then -1 else n))
          else mret None);
  match base with
  | None => set_errno EINVAL;; mret (-1)
  | Some base =>
      wr_file f (fun y : FILE => y <| readbuf ::= emptied |> <| pushedback := false |>);;
      (* signed overflow is undefined *)
      if negb (bool_decide (s64 (base + offset) = base + offset)) then fail Undefined
      else if (0 <=? base) && (base + offset <? 0) then set_errno EINVAL;; mret (-1)
      else if (base <? 0) && (0 <=? base + offset) then set_errno EINVAL;; mret (-1)
      else
        wr_file f (fun y : FILE => y <| fpos := base + offset |> <| feof_ := false |>);;
        mret 0
  end.

Definition fseek (f : positive) (offset whence : Z) : L Z := fseeko f offset whence.
Definition rewind (f : positive) : L () := _ ← fseek f 0 SEEK_SET; mret ().
Definition ftello (f : positive) : L Z := x ← rd_file f; mret (fpos x).
Definition feof (f : positive) : L bool := x ← rd_file f; mret (feof_ x).
Definition ferror (f : positive) : L bool := x ← rd_file f; mret (ferror_ x).
Definition clearerr (f : positive) : L () :=
  wr_file f (fun y : FILE => y <| ferror_ := false |> <| feof_ := false |>).

(** ** Formatted output *)

(** [backend_file] *)
Definition backend_file (f : positive) (buf : list Z) (s : stdio K) : res (stdio K) :=
  match fwrite buf 1 (Z.of_nat (length buf)) f s with
  | Val _ s => Ok s
  | Exit e _ => match e with end
  | Fault x => Err x
  end.

Definition vfprintf (f : positive) (fmt : list Z) (args : list va) : L Z := fun s =>
  match printf_internal (backend_file f) fmt args s with
  | Ok (r, s) => Val r s
  | Err x => Fault x
  end.

Definition vprintf (fmt : list Z) (args : list va) : L Z := vfprintf stdout fmt args.
Definition fputs (s : list Z) (f : positive) : L Z := vfprintf f [37; 115; 0] [VStr s].
Definition puts (s : list Z) : L Z := vprintf [37; 115; 10; 0] [VStr s].

Definition getchar : L Z := fgetc stdin.
Definition putchar (c : Z) : L Z := fputc c stdout.
End stdio.
