(* ===== verification/StdioSpec.v ===== *)
(** * StdioSpec

    What [fread], [fwrite] and [fseeko] do on a regular file: [regular] is the
    contract of the kernel for one handle (reads and writes may be short), and a
    stream on it is a cursor into the file's contents, whatever is buffered or
    pushed back. *)

From S2P Require Import Prelude Monad Mem Ring Printf CString NetUtil KState Stdio.

(** [d] written over [l] at [pos], extending it. *)
Definition overwrite (pos : nat) (d l : list Z) : list Z :=
  take pos l ++ d ++ drop (pos + length d) l.

Lemma overwrite_app pos d1 d2 l :
  (pos <= length l)%nat ->
  overwrite (pos + length d1) d2 (overwrite pos d1 l) = overwrite pos (d1 ++ d2) l.
Proof.
  intros Hp. unfold overwrite. rewrite length_app.
  assert (Ht : length (take pos l) = pos) by (rewrite length_take; lia).
  rewrite !app_assoc. rewrite (take_app_le _ _ (pos + length d1)) by (rewrite length_app; lia).
  rewrite (take_ge (take pos l ++ d1)) by (rewrite length_app; lia).
  rewrite <- !app_assoc. do 3 f_equal.
  rewrite drop_app_ge by lia. rewrite drop_app_ge by lia. rewrite drop_drop. f_equal. lia.
Qed.

Lemma length_overwrite pos d l :
  (pos <= length l)%nat -> length (overwrite pos d l) = Nat.max (length l) (pos + length d).
Proof. intros. unfold overwrite. rewrite !length_app, length_take, length_drop. lia. Qed.

Lemma overwrite_nil pos l : overwrite pos [] l = l.
Proof. unfold overwrite. cbn. rewrite Nat.add_0_r. apply take_drop. Qed.

Lemma overwrite_read pos d l :
  (pos <= length l)%nat -> take (length d) (drop pos (overwrite pos d l)) = d.
Proof.
  intros. unfold overwrite. rewrite drop_app_ge by (rewrite length_take; lia).
  rewrite length_take, Nat.min_l, Nat.sub_diag, drop_0 by lia. by rewrite take_app_length.
Qed.

(** ** Rules for [runs] *)

Section rules.
Context {K : Type} `{Sys K}.
Local Abbreviation L := (ST (stdio K) Empty_set).

Lemma runs_rd_file f s x (Q : FILE -> stdio K -> Prop) :
  files s !! f = Some x -> Q x s -> runs (rd_file f) s Q.
Proof. intros E HQ. unfold runs, rd_file, mbind, st_bind, get_, deref. by rewrite E. Qed.

Lemma runs_wr_file f g s x (Q : () -> stdio K -> Prop) :
  files s !! f = Some x -> Q () (s <| files ::= <[f := g x]> |>) -> runs (wr_file f g) s Q.
Proof. intros E HQ. unfold runs, wr_file, mbind, st_bind, get_, deref. by rewrite E. Qed.

Lemma runs_call {A} (g : K -> A * K) s a k (Q : A -> stdio K -> Prop) :
  g (kern s) = (a, k) -> Q a (s <| kern := k |>) -> runs (call g) s Q.
Proof. intros E HQ. unfold runs, call. by rewrite E. Qed.
End rules.

(** Access to the stream whose object is known. *)
Ltac flookup := cbn; first [eassumption|by rewrite lookup_insert_eq].
Ltac fstep :=
  match goal with
  | |- runs (rd_file _) _ _ => eapply runs_rd_file; [flookup|]
  | |- runs (wr_file _ _) _ _ => eapply runs_wr_file; [flookup|]
  | |- runs (call _) _ _ => eapply runs_call; [eassumption|]
  | |- runs (mret _) _ _ => apply runs_ret
  | |- runs (_ ≫= _) _ _ => apply runs_bind
  end.

(** ** Regular files *)

Section regular.
Context {K : Type} `{Sys K} (h : Z) (holds : list Z -> K -> Prop).

(** The handle [h] refers to a file; [holds l] are the states in which its
    contents are [l] (and whatever else [h] does not change).  Reads answer some of
    what is there, nothing at its end; writes inside the file or at its end take
    some of the data. *)
Record readable : Prop := {
  reg_read : forall l k len pos res bytes k',
    holds l k -> 0 < len -> 0 <= pos -> sys_read h len pos k = (res, bytes, k') ->
    holds l k' /\
    if pos <? Z.of_nat (length l) then
      1 <= res <= Z.min len (Z.of_nat (length l) - pos) /\
      bytes = take (Z.to_nat res) (drop (Z.to_nat pos) l)
    else res = 0;
}.

Record writable : Prop := {
  reg_write : forall l k data pos res k',
    holds l k -> data <> [] -> 0 <= pos <= Z.of_nat (length l) ->
    sys_write h data pos 0 k = (res, k') ->
    1 <= res <= Z.of_nat (length data) /\
    holds (overwrite (Z.to_nat pos) (take (Z.to_nat res) data) l) k';
}.

Context (Hread : readable) (Hwrite : writable).

(** The stream [x] on [h]: its position is in or behind the file, and what it
    has buffered is what the file holds there. *)
Definition coherent (x : FILE) (l : list Z) : Prop :=
  fd x = h /\ 0 <= h /\ 0 <= fpos x /\ Z.land (extflags x) FEXT_NOFILL = 0 /\
  match readbuf x with
  | NoBuf => True
  | Buf b => b = take (length b) (drop (Z.to_nat (fpos x)) l)
  | Dangling => False
  end.

(** What is left to read. *)
Definition remaining (x : FILE) (l : list Z) : list Z :=
  (if pushedback x then [pushback x] else []) ++ drop (Z.to_nat (fpos x)) l.

Definition stream (f : positive) (x : FILE) (l : list Z) (s : stdio K) : Prop :=
  files s !! f = Some x /\ coherent x l /\ holds l (kern s).

(** A position that advances by what was read stays a [long]. *)
Lemma advanced_small amt pos (l : list Z) :
  0 <= pos -> 0 <= amt -> pos + amt <= Z.of_nat (length l) -> Z.of_nat (length l) < 2 ^ 63 ->
  advanced amt pos = pos + amt.
Proof.
  intros. unfold advanced. rewrite s64_small by lia. by rewrite (proj2 (Z.ltb_ge pos 0)) by lia.
Qed.

(** One turn of [fread]: it gets a chunk of what remains, or the end. *)
Definition turn_post f x l total out (r : list Z + list Z) (s' : stdio K) : Prop :=
  exists x', stream f x' l s' /\ ferror_ x' = ferror_ x /\
  match r with
  | inl out' =>
      exists chunk, out' = out ++ chunk /\ chunk <> [] /\
        Z.of_nat (length out) + Z.of_nat (length chunk) <= total /\
        remaining x l = chunk ++ remaining x' l /\ feof_ x' = feof_ x
  | inr out' => out' = out /\ remaining x l = [] /\ remaining x' l = [] /\ feof_ x' = true
  end.

Lemma take_drop_chunk (l : list Z) pos n :
  drop pos l = take n (drop pos l) ++ drop (pos + n) l.
Proof. rewrite <- drop_drop. symmetry. apply take_drop. Qed.

(** Consuming [n] bytes behind the cursor. *)
Lemma turn_chunk f x l total out s b n :
  files s !! f = Some (x <| readbuf := b |>) -> holds l (kern s) -> coherent x l ->
  pushedback x = false -> Z.of_nat (length l) < 2 ^ 63 ->
  (0 < n)%nat -> (Z.to_nat (fpos x) + n <= length l)%nat ->
  Z.of_nat (length out) + Z.of_nat n <= total ->
  (forall c, b = Buf c -> c = take (length c) (drop (Z.to_nat (fpos x) + n) l)) -> b <> Dangling ->
  let chunk := take n (drop (Z.to_nat (fpos x)) l) in
  runs (fadvance (Z.of_nat (length chunk)) f;;
        y ← rd_file f;
        if negb (Z.land (extflags y) FEXT_NOFILL =? 0) then mret (inr (out ++ chunk))
        else mret (inl (out ++ chunk))) s (turn_post f x l total out).
Proof.
  intros Hf Hl (Hfd&Hh&Hpos&Hext&_) Hpb Hlen Hn Hend Htot Hb Hd chunk.
  assert (Hc : length chunk = n) by (unfold chunk; rewrite length_take, length_drop; lia).
  rewrite Hc. unfold fadvance. do 4 fstep. cbn -[Z.land].
  rewrite Hext. cbn [negb Z.eqb]. fstep.
  assert (E : x <| readbuf := b |> <| fpos ::= advanced (Z.of_nat n) |> =
              x <| readbuf := b |> <| fpos := fpos x + Z.of_nat n |>).
  { unfold set; cbn. by rewrite (advanced_small _ _ l) by lia. }
  rewrite E. eexists. split; [split; [cbn; by rewrite lookup_insert_eq|split; [|done]]|split; [done|]].
  - split_and!; cbn; try done; [lia|]. destruct b as [|c|]; try done.
    rewrite Z2Nat.inj_add, Nat2Z.id by lia. by apply Hb.
  - exists chunk. split; [done|]. split; [intros E0; rewrite E0 in Hc; cbn in Hc; lia|].
    rewrite Hc. split; [done|]. split; [|done].
    unfold remaining; cbn. rewrite Hpb. cbn [app].
    rewrite Z2Nat.inj_add, Nat2Z.id by lia. apply take_drop_chunk.
Qed.

(** [fill_buf] leaves the stream where it is; it says no at the end only. *)
Lemma fill_buf_post f x l s want :
  files s !! f = Some x -> holds l (kern s) -> coherent x l -> 0 < want ->
  pushedback x = false ->
  runs (fill_buf f want) s (fun go s' =>
    holds l (kern s') /\
    if go then exists b, files s' !! f = Some (x <| readbuf := b |>) /\ coherent (x <| readbuf := b |>) l
    else exists x', stream f x' l s' /\ ferror_ x' = ferror_ x /\ remaining x l = [] /\ remaining x' l = [] /\ feof_ x' = true).
Proof.
  intros Hf Hl Hco Hw Hpb. pose proof Hco as (Hfd&Hh&Hpos&Hext&Hb).
  assert (Hsame : forall s', s' = s -> holds l (kern s') /\ exists b,
            files s' !! f = Some (x <| readbuf := b |>) /\ coherent (x <| readbuf := b |>) l).
  { intros s' ->. split; [done|]. exists (readbuf x). by destruct x. }
  unfold fill_buf. do 2 fstep. destruct (readbuf x) as [|[|c b]|] eqn:Eb; try (by apply Hsame); try done.
  case_match; [|by apply Hsame]. rewrite Hfd.
  destruct (sys_read h BUFSIZ (fpos x) (kern s)) as [[res bytes] k'] eqn:Er.
  pose proof (reg_read Hread _ _ _ _ _ _ _ Hl (eq_refl : 0 < BUFSIZ) Hpos Er) as [Hk Hr].
  fstep. eapply runs_call; [exact Er|]. set (s1 := s <| kern := k' |>).
  assert (Hf1 : files s1 !! f = Some x) by done.
  assert (Hk1 : holds l (kern s1)) by done. clearbody s1.
  destruct (fpos x <? Z.of_nat (length l)) eqn:El; zbool.
  - destruct Hr as [Hres ->]. rewrite (proj2 (Z.ltb_lt 0 res)) by lia.
    do 3 fstep. cbn. rewrite lookup_insert_eq. split; [done|]. eexists. split; [reflexivity|].
    split_and!; cbn; try done. f_equal. rewrite length_take, length_drop. lia.
  - subst res. cbn. unfold read_failed. cbn. do 3 fstep. split; [done|].
    eexists. split; [split; [cbn; by rewrite lookup_insert_eq|split; [|done]]|].
    + split_and!; cbn; try done. by rewrite Eb.
    + split; [done|]. unfold remaining. cbn. rewrite Hpb. by rewrite drop_ge by lia.
Qed.

Lemma fread_turn_post f x l s total out :
  stream f x l s -> Z.of_nat (length out) < total -> Z.of_nat (length l) < 2 ^ 63 ->
  runs (fread_turn f total out) s (turn_post f x l total out).
Proof.
  intros (Hf&Hco&Hl) Hout Hlen. unfold fread_turn.
  rewrite (proj2 (Z.leb_gt _ _)) by lia. do 2 fstep.
  destruct (pushedback x) eqn:Hpb.
  { do 3 fstep. eexists. split; [split; [cbn; by rewrite lookup_insert_eq|done]|split; [done|]].
    exists [pushback x]. split; [done|]. split; [done|]. split; [cbn; lia|]. split; [|done].
    unfold remaining. cbn. by rewrite Hpb. }
  apply runs_bind. eapply runs_mono; [apply (fill_buf_post f x l); [done..|lia|done]|].
  cbn. intros go s1 [Hl1 Hgo]. destruct go; cbn [negb].
  2:{ destruct Hgo as (x'&Hx'&?&?&?&?). fstep. exists x'. done. }
  destruct Hgo as (b&Hf1&Hco1). do 2 fstep. pose proof Hco1 as (Hfd&Hh&Hpos&Hext&Hb). cbn in Hfd, Hpos, Hext, Hb.
  cbn [readbuf set]. change (readbuf (x <| readbuf := b |>)) with b.
  set (cached := match b with Buf c => c | _ => [] end).
  assert (Hc : cached = take (length cached) (drop (Z.to_nat (fpos x)) l)).
  { unfold cached. by destruct b. }
  assert (Hcl : (length cached <= length l - Z.to_nat (fpos x))%nat).
  { rewrite Hc, length_take, length_drop. lia. }
  destruct (0 <? Z.of_nat (length cached)) eqn:Ec; zbool.
  - set (n := Z.to_nat (Z.min (total - Z.of_nat (length out)) (Z.of_nat (length cached)))).
    do 3 fstep. cbn [fst snd].
    assert (Hn : (0 < n <= length cached)%nat) by lia.
    assert (Hchunk : take n cached = take n (drop (Z.to_nat (fpos x)) l)).
    { rewrite Hc, take_take. f_equal. lia. }
    rewrite Hchunk. eapply (turn_chunk f x l total out _ (Buf (drop n cached)) n); try done; try lia.
    + cbn. by rewrite lookup_insert_eq.
    + intros c [= <-]. rewrite length_drop. rewrite Hc at 1.
      rewrite <- drop_drop. rewrite (take_drop_commute _ _ n). f_equal. f_equal. lia.
  - assert (Hnil : cached = []) by (apply nil_length_inv; lia).
    cbn [fd set] in *. apply runs_bind.
    destruct (sys_read h (total - Z.of_nat (length out)) (fpos x) (kern s1)) as [[res bytes] k'] eqn:Er.
    assert (Hw : 0 < total - Z.of_nat (length out)) by lia.
    pose proof (reg_read Hread _ _ _ _ _ _ _ Hl1 Hw Hpos Er) as [Hk Hr].
    change (fd (x <| readbuf := b |>)) with (fd x). rewrite Hfd.
    change (fpos (x <| readbuf := b |>)) with (fpos x).
    fstep. eapply runs_call; [exact Er|].
    set (s2 := s1 <| kern := k' |>).
    assert (Hf2 : files s2 !! f = Some (x <| readbuf := b |>)) by done.
    assert (Hl2 : holds l (kern s2)) by done. clearbody s2.
    destruct (fpos x <? Z.of_nat (length l)) eqn:El; zbool.
    + destruct Hr as [Hres ->]. rewrite (proj2 (Z.ltb_lt 0 res)) by lia. fstep.
      eapply (turn_chunk f x l total out _ b (Z.to_nat res)); try done; try lia.
      * intros c ->. unfold cached in Hnil. by subst c.
      * by destruct b.
    + subst res. cbn [Z.ltb Z.compare]. unfold read_failed. cbn [Z.ltb Z.compare]. do 3 fstep.
      eexists. split; [split; [cbn; by rewrite lookup_insert_eq|split; [|done]]|].
      * by split_and!.
      * split; [done|]. split; [done|]. unfold remaining. cbn. rewrite Hpb. by rewrite drop_ge by lia.
Qed.

Lemma fread_loop f l total n : forall out x s,
  stream f x l s -> Z.of_nat (length l) < 2 ^ 63 -> (length out <= Z.to_nat total)%nat ->
  (Z.to_nat total - length out < n)%nat ->
  runs (iter n (fread_turn f total) out) s (fun out' s' =>
    exists x', stream f x' l s' /\ ferror_ x' = ferror_ x /\
      let k := (Z.to_nat total - length out)%nat in
      out' = out ++ take k (remaining x l) /\ remaining x' l = drop k (remaining x l) /\
      feof_ x' = feof_ x || bool_decide (length out' < Z.to_nat total)%nat).
Proof.
  induction n as [|n IH]; intros out x s Hs Hlen Hout Hn; [lia|]. cbn [iter].
  destruct (decide (length out = Z.to_nat total)) as [E|].
  { apply runs_bind. unfold fread_turn at 1. rewrite (proj2 (Z.leb_le _ _)) by lia. do 2 fstep.
    exists x. split; [done|]. split; [done|]. rewrite E, Nat.sub_diag, take_0, drop_0, app_nil_r. split; [done|].
    split; [done|]. rewrite bool_decide_false by lia. by rewrite orb_false_r. }
  apply runs_bind. eapply runs_mono; [by apply fread_turn_post; [|lia|]|].
  intros [out1|out1] s1 (x1&Hs1&Herr&Hr).
  - destruct Hr as (chunk&->&Hne&Hle&Hrem&Heof). rewrite Hrem.
    assert (Hc : (length chunk <= Z.to_nat total - length out)%nat) by lia.
    assert (0 < length chunk)%nat by (by destruct chunk; cbn; [|lia]).
    eapply runs_mono; [apply (IH (out ++ chunk) x1 s1 Hs1 Hlen); rewrite length_app; lia|].
    cbn. intros out' s' (x'&Hs'&Herr'&->&Hr'&He'). exists x'. split; [done|]. split; [congruence|].
    rewrite length_app in *. rewrite (take_app_ge chunk) by lia. rewrite (drop_app_ge chunk) by lia.
    rewrite <- Nat.sub_add_distr, <- app_assoc. split; [done|]. split; [done|].
    rewrite He', Heof. f_equal. apply bool_decide_ext. rewrite !length_app, !length_take. lia.
  - destruct Hr as (->&->&Hr1&He). fstep. exists x1. split; [done|]. split; [done|].
    rewrite take_nil, drop_nil, app_nil_r. split; [done|]. split; [done|].
    rewrite He, bool_decide_true by lia. by rewrite orb_true_r.
Qed.

(** [fread] on a stream: the next bytes, as many as asked for if there are. *)
Lemma fread_spec f x l s size nitems :
  stream f x l s -> Z.of_nat (length l) < 2 ^ 63 ->
  0 < size -> 0 <= nitems -> size * nitems < 2 ^ 64 ->
  runs (fread size nitems f) s (fun '(out, n) s' =>
    let k := Z.to_nat (size * nitems) in
    out = take k (remaining x l) /\ n = Z.of_nat (length out) / size /\
    exists x', stream f x' l s' /\ remaining x' l = drop k (remaining x l) /\
      feof_ x' = feof_ x || bool_decide (length out < k)%nat /\ ferror_ x' = ferror_ x).
Proof.
  intros Hs Hlen Hsize Hn Htot. pose proof Hs as (Hf&(Hfd&Hh&_)&_). unfold fread. do 2 fstep.
  rewrite (proj2 (Z.ltb_ge _ _)) by lia. rewrite (proj2 (Z.eqb_neq _ _)) by lia.
  rewrite u64_small by (unfold is_size; lia). fstep.
  eapply runs_mono; [apply (fread_loop f l _ _ [] x s Hs Hlen); cbn; lia|].
  intros out s' (x'&Hs'&Herr&->&Hr&He). fstep. cbn [length app] in *. rewrite Nat.sub_0_r in *.
  split; [done|].
  split; [|by exists x']. case_match eqn:E; [|done]. apply Z.eqb_eq in E. rewrite E.
  by rewrite Z.mul_comm, Z.div_mul by lia.
Qed.

(** ** Writing *)

(** Nothing is buffered or pushed back. *)
Definition idle (x : FILE) : Prop := (readbuf x = NoBuf \/ readbuf x = Buf []) /\ pushedback x = false.

Lemma fwrite_loop f buf size nitems total n : forall done_ x l s,
  u64 (size * nitems) = Z.of_nat total -> (total <= length buf)%nat ->
  stream f x l s -> idle x -> fpos x <= Z.of_nat (length l) ->
  fpos x + Z.of_nat (total - done_) < 2 ^ 63 ->
  (done_ <= total)%nat -> (total - done_ < n)%nat ->
  runs (iter n (fwrite_turn f buf size nitems) (Z.of_nat done_)) s (fun r s' =>
    r = nitems /\ exists x',
      stream f x' (overwrite (Z.to_nat (fpos x)) (take (total - done_) (drop done_ buf)) l) s' /\
      idle x' /\ fpos x' = fpos x + Z.of_nat (total - done_)).
Proof.
  induction n as [|n IH]; intros done_ x l s Ht Hbuf Hs Hidle Hpos Hmax Hd Hn; [lia|]. cbn [iter].
  apply runs_bind. unfold fwrite_turn at 1. rewrite Ht. destruct (decide (done_ = total)) as [->|].
  { rewrite Z.leb_refl. do 2 fstep. split; [done|]. exists x.
    rewrite Nat.sub_diag, take_0, overwrite_nil, Z.add_0_r. done. }
  rewrite (proj2 (Z.leb_gt _ _)) by lia. pose proof Hs as (Hf&Hco&Hl). do 2 fstep.
  pose proof Hco as (Hfd&Hh&Hp&Hext&Hb).
  set (data := take (total - done_) (drop done_ buf)).
  assert (Hdl : length data = (total - done_)%nat) by (unfold data; rewrite length_take, length_drop; lia).
  assert (Hfe : fetch buf (Z.of_nat done_) (Z.of_nat total - Z.of_nat done_) = Ok data).
  { unfold fetch, data. rewrite (proj2 (Z.leb_le _ _)) by lia.
    f_equal. f_equal; [lia|]. f_equal. lia. }
  rewrite Hfe. cbn [lift]. do 2 fstep. rewrite Hfd.
  destruct (sys_write h data (fpos x) 0 (kern s)) as [res k'] eqn:Ew.
  pose proof (reg_write Hwrite l (kern s) data (fpos x) res k' Hl ltac:(by destruct data; cbn in *; [lia|]) (conj Hp Hpos) Ew) as [Hres Hk].
  fstep. eapply runs_call; [exact Ew|]. rewrite (proj2 (Z.ltb_lt 0 res)) by lia.
  unfold fadvance. do 3 fstep.
  set (m := Z.to_nat res) in *. replace (Z.of_nat done_ + res) with (Z.of_nat (done_ + m)) by lia.
  set (x1 := x <| fpos := fpos x + res |>).
  assert (Hadv : x <| fpos ::= advanced res |> = x1).
  { unfold x1, set, advanced; cbn. rewrite s64_small by lia. by rewrite (proj2 (Z.ltb_ge (fpos x) 0)) by lia. }
  cbn [fst snd]. rewrite Hadv.
  eapply runs_mono; [apply (IH (done_ + m)%nat x1 (overwrite (Z.to_nat (fpos x)) (take m data) l)); try done; try lia|].
  - split; [cbn; by rewrite lookup_insert_eq|]. split; [|done]. split_and!; cbn; try done; [lia|].
    destruct Hidle as [[->| ->] _]; done.
  - rewrite length_overwrite, length_take; [cbn; lia|]. lia.
  - cbn. lia.
  - intros r s' (->&x'&Hs'&Hi'&Hp'). split; [done|]. exists x'. cbn in Hs', Hp'. split; [|split; [done|lia]].
    replace (Z.to_nat (fpos x + res)) with (Z.to_nat (fpos x) + length (take m data))%nat in Hs'
      by (rewrite length_take; lia).
    rewrite overwrite_app in Hs' by lia.
    replace (take (total - (done_ + m)) (drop (done_ + m) buf)) with (drop m data) in Hs'.
    + by rewrite take_drop in Hs'.
    + unfold data. rewrite <- drop_drop, skipn_firstn_comm. f_equal. lia.
Qed.

(** [fwrite] on a stream with nothing buffered: all of the data is in the file,
    however short the kernel's writes are. *)
Lemma fwrite_spec f x l s buf size nitems :
  stream f x l s -> idle x -> fpos x <= Z.of_nat (length l) -> 0 < size ->
  size * nitems = Z.of_nat (length buf) -> Z.of_nat (length buf) < 2 ^ 64 ->
  fpos x + Z.of_nat (length buf) < 2 ^ 63 ->
  runs (fwrite buf size nitems f) s (fun r s' => r = nitems /\ exists x',
    stream f x' (overwrite (Z.to_nat (fpos x)) buf l) s' /\ idle x' /\
    fpos x' = fpos x + Z.of_nat (length buf)).
Proof.
  intros Hs Hi Hp Hsize Htot Hlen Hmax. pose proof Hs as (Hf&(Hfd&Hh&_)&_).
  unfold fwrite. do 2 fstep. rewrite (proj2 (Z.ltb_ge _ _)) by lia. rewrite (proj2 (Z.eqb_neq _ _)) by lia.
  assert (Ht : u64 (size * nitems) = Z.of_nat (length buf)) by (rewrite u64_small; [done|unfold is_size; lia]).
  eapply runs_mono; [apply (fwrite_loop f buf size nitems (length buf) _ 0 x l s); try done; lia|].
  cbn. rewrite Nat.sub_0_r, firstn_all. done.
Qed.

(** ** Seeking *)

Lemma fseeko_set f x l s off :
  stream f x l s -> 0 <= off < 2 ^ 63 ->
  runs (fseeko f off SEEK_SET) s (fun r s' => r = 0 /\ exists x',
    stream f x' l s' /\ idle x' /\ fpos x' = off /\ feof_ x' = false).
Proof.
  intros (Hf&(Hfd&Hh&Hp&Hext&Hb)&Hl) Hoff. unfold fseeko. do 3 fstep. rewrite Z.eqb_refl.
  do 3 fstep. rewrite Z.add_0_l, (bool_decide_true (s64 off = off)) by (apply s64_small; lia).
  cbn [negb]. rewrite (proj2 (Z.ltb_ge off 0)) by lia.
  cbn [Z.leb Z.ltb Z.compare andb]. do 3 fstep. split; [done|].
  eexists. split; [split; [cbn; by rewrite lookup_insert_eq|split; [|done]]|].
  - split_and!; cbn; try done; [lia|]. by destruct (readbuf x).
  - unfold idle. cbn. split; [|done]. split; [|done].
    revert Hb. destruct (readbuf x); intros Hb; [by left|by right|done].
Qed.
End regular.

(** ** Properties *)

(** C26: [fread] reads a file in sequence.  On a regular file, whatever the stream
    has buffered or pushed back and however short the kernel's reads are, it
    puts the next bytes of the file into the caller's buffer (a byte that was
    pushed back first), as many as were asked for or as there are, answers the
    number of complete items, moves the stream past them, and sets the
    end-of-file flag exactly if there were too few, and no error. *)
Theorem fread_sequential {K} `{Sys K} h (holds : list Z -> K -> Prop) f x l s size nitems :
  readable h holds -> stream h holds f x l s -> Z.of_nat (length l) < 2 ^ 63 ->
  0 < size -> 0 <= nitems -> size * nitems < 2 ^ 64 ->
  exists out s' x', fread size nitems f s = Val (out, Z.of_nat (length out) / size) s' /\
    let k := Z.to_nat (size * nitems) in
    out = take k (remaining x l) /\
    stream h holds f x' l s' /\ remaining x' l = drop k (remaining x l) /\
    feof_ x' = feof_ x || bool_decide (length out < k)%nat /\ ferror_ x' = ferror_ x.
Proof.
  intros Hread Hs Hl Hsize Hn Htot.
  destruct (runs_inv _ _ _ (fread_spec h holds Hread f x l s size nitems Hs Hl Hsize Hn Htot))
    as ([out n]&s'&E&->&->&x'&Hs'&Hr&He).
  by exists (take (Z.to_nat (size * nitems)) (remaining x l)), s', x'.
Qed.

(** What [fwrite] has written [fread] reads back.  On a regular file and a
    stream with nothing buffered, at a position in the file or at its end,
    writing an array of items, seeking back and reading as many items gives the
    array; both calls report all of the items, however short the kernel's reads
    and writes are, and the file holds the array at that position. *)
Theorem fwrite_fread_roundtrip {K} `{Sys K} h (holds : list Z -> K -> Prop) f x l s buf size nitems :
  readable h holds -> writable h holds -> stream h holds f x l s -> idle x -> fpos x <= Z.of_nat (length l) ->
  0 < size -> 0 <= nitems -> size * nitems = Z.of_nat (length buf) ->
  Z.of_nat (length l) + Z.of_nat (length buf) < 2 ^ 63 ->
  exists s', (n ← fwrite buf size nitems f;
              r ← fseeko f (fpos x) SEEK_SET;
              '(out, m) ← fread size nitems f;
              mret (n, r, out, m)) s = Val (nitems, 0, buf, nitems) s' /\
    holds (overwrite (Z.to_nat (fpos x)) buf l) (kern s').
Proof.
  intros Hread Hwrite Hs Hi Hp Hsize Hn Htot Hmax. pose proof Hs as (_&(_&_&Hp0&_)&_).
  set (l' := overwrite (Z.to_nat (fpos x)) buf l).
  assert (Hl' : Z.of_nat (length l') < 2 ^ 63).
  { unfold l'. rewrite length_overwrite by lia. lia. }
  assert (Hgoal : runs (n ← fwrite buf size nitems f; r ← fseeko f (fpos x) SEEK_SET;
      '(out, m) ← fread size nitems f; mret (n, r, out, m)) s
      (fun r s' => r = (nitems, 0, buf, nitems) /\ holds l' (kern s'))).
  { apply runs_bind. eapply runs_mono; [apply (fwrite_spec h holds Hwrite f x l s); try done; lia|].
    intros n s1 (->&x1&Hs1&_&_). apply runs_bind.
    eapply runs_mono; [apply (fseeko_set h holds f x1 l' s1 (fpos x) Hs1); lia|].
    intros r s2 (->&x2&Hs2&[_ Hpb]&Hp2&_). apply runs_bind.
    eapply runs_mono; [apply (fread_spec h holds Hread f x2 l' s2 size nitems Hs2 Hl'); lia|].
    intros [out m] s3 (Hout&->&x3&(_&_&Hc)&_). apply runs_ret. split; [|done].
    assert (out = buf) as ->.
    { rewrite Hout, Htot, Nat2Z.id. unfold remaining. rewrite Hpb, Hp2. cbn [app].
      apply overwrite_read. lia. }
    by rewrite <- Htot, Z.mul_comm, Z.div_mul by lia. }
  destruct (runs_inv _ _ _ Hgoal) as (r&s'&E&->&Hc). by exists s'.
Qed.

(** ** A kernel with one file

    It reads and writes at most three bytes at a time. *)
Definition one_file : Sys (list Z) := {|
  sys_read := fun _ len pos k =>
    let res := Z.min (Z.min len 3) (Z.max 0 (Z.of_nat (length k) - pos)) in
    (res, take (Z.to_nat res) (drop (Z.to_nat pos) k), k);
  sys_write := fun _ data pos _ k =>
    let res := Z.min 3 (Z.of_nat (length data)) in
    (res, overwrite (Z.to_nat pos) (take (Z.to_nat res) data) k);
  sys_dup := fun h _ _ k => (h, k);
  sys_getsize := fun _ k => (Z.of_nat (length k), k);
  sys_close := fun _ k => k;
  camellia_open := fun _ _ k => (3, k);
  malloc_ok := fun k => (true, k);
|}.

Lemma one_file_readable h : @readable _ one_file h eq.
Proof.
  split. intros l k len pos res bytes k' <- Hlen Hpos [= <- <- <-]. cbn. split; [done|].
  case_match; zbool; [split; [lia|done]|lia].
Qed.

Lemma one_file_writable h : @writable _ one_file h eq.
Proof.
  split. intros l k data pos res k' <- Hne Hpos [= <- <-]. cbn. split; [|done].
  assert (length data <> 0%nat) by (by destruct data). lia.
Qed.

Definition some_text : list Z := [104; 101; 108; 108; 111; 44; 32; 119; 111; 114; 108; 100].
Definition a_stream : FILE := FILE0 <| fd := 3 |> <| readbuf := Buf [] |>.
Definition opened (x : FILE) : stdio (list Z) := stdio0 some_text <| files ::= <[4%positive := x]> |>.

(** "!" was pushed back; two items of four bytes are read, "!hello, ". *)
Lemma fread_sequential_witness :
  let x := a_stream <| pushedback := true |> <| pushback := 33 |> in
  exists s', @fread _ one_file 4 2 4 (opened x) = Val ([33; 104; 101; 108; 108; 111; 44; 32], 2) s'.
Proof.
  intros x.
  destruct (@fread_sequential _ one_file 3 eq 4 x some_text (opened x) 4 2 (one_file_readable 3))
    as (out&s'&x'&E&Hout&_); [|cbn; lia..|].
  - unfold stream, coherent. split_and!; try reflexivity; cbn; lia.
  - exists s'. rewrite E, Hout. reflexivity.
Defined.

(** "HELLO" over the beginning, in pieces. *)
Lemma fwrite_fread_roundtrip_witness :
  exists s', (n ← @fwrite _ one_file [72; 69; 76; 76; 79] 1 5 4;
              r ← @fseeko _ one_file 4 0 SEEK_SET;
              '(out, m) ← @fread _ one_file 1 5 4;
              mret (n, r, out, m)) (opened a_stream) = Val (5, 0, [72; 69; 76; 76; 79], 5) s'.
Proof.
  destruct (@fwrite_fread_roundtrip _ one_file 3 eq 4 a_stream some_text (opened a_stream)
    [72; 69; 76; 76; 79] 1 5 (one_file_readable 3) (one_file_writable 3)) as (s'&E&_); try (cbn; lia).
  - unfold stream, coherent. split_and!; try reflexivity; cbn; lia.
  - split; [by right|reflexivity].
  - by exists s'.
Defined.

(** ** What goes wrong

    [fwrite] does not throw away what is buffered: after a read of one byte the
    next two are in the buffer, a write replaces them in the file, and the next
    read gets the old ones. *)
Lemma write_leaves_read_buffer :
  exists s', ('(a, _) ← @fread _ one_file 1 1 4;
              _ ← @fwrite _ one_file [88; 88] 1 2 4;
              '(b, _) ← @fread _ one_file 1 1 4;
              mret (a, b)) (opened a_stream) = Val ([104], [101]) s' /\
    take 4 (kern s') = [104; 88; 88; 108].
Proof. eexists. split; [vm_compute; reflexivity|reflexivity]. Qed.

(** [freopen] keeps the buffer of the file that is closed. *)
Lemma freopen_leaves_read_buffer :
  let x := a_stream <| fd := 7 |> <| readbuf := Buf [63; 63] |> in
  exists s', (f ← @freopen _ one_file (Some [47; 0]) [114; 0] 4;
              '(a, _) ← @fread _ one_file 1 1 4;
              mret (f, a)) (opened x <| next_file := 5%positive |>) = Val (Some 4%positive, [63]) s'.
Proof. eexists. vm_compute. reflexivity. Qed.

(** A byte 255 is taken for the end of the file. *)
Lemma fgetc_255_is_eof :
  exists s', @fgetc _ one_file 4 (opened a_stream <| kern := [255; 65] |>) = Val EOF s' /\
    (feof_ <$> files s' !! 4%positive) = Some false.
Proof. eexists. split; [vm_compute; reflexivity|reflexivity]. Qed.
