(* ===== verification/Builtins.v ===== *)
(** * Builtins

    The built-in commands of the shell ([src/src/cmd/shell/builtins.c]) and what
    they print errors with ([err.c], [perror], [strerror]), on the streams of
    [Stdio].  A program ends early with the code it exits with. *)

From Stdlib Require Import String Ascii.
From S2P Require Import Prelude Monad Mem Ring Printf CString NetUtil KState Stdio StdioSpec.

(** A string literal of C, with its terminator. *)
Fixpoint unescape (s : list Z) : list Z :=
  match s with
  | 92 :: 110 :: s => 10 :: unescape s
  | x :: s => x :: unescape s
  | [] => []
  end.

Definition lit (s : string) : list Z :=
  unescape ((fun c => Z.of_N (Ascii.N_of_ascii c)) <$> String.list_ascii_of_string s) ++ [0].

(** A string as an argument of [printf]. *)
Fixpoint before_nul (s : list Z) : list Z :=
  match s with [] => [] | x :: s => if x =? 0 then [] else x :: before_nul s end.

Definition va_str (s : list Z) : va := VStr (before_nul s).

(** What these commands use of the kernel beyond [Sys]. *)
Class Sys2 (K : Type) := {
  sys_remove : Z -> K -> Z * K;
  sys_sleep : Z -> K -> K;
}.

Section builtins.
Context {K : Type} `{Sys K, Sys2 K}.

(** [getprogname()]; [fuel] bounds the loops that run until the end of a file. *)
Context (progname : list Z) (fuel : nat).

Local Abbreviation L := (ST (stdio K) Empty_set).
Local Abbreviation P := (ST (stdio K) Z).

(** A function of the library in a program. *)
Definition lib {A} (m : L A) : P A := fun s =>
  match m s with Val a s => Val a s | Exit e _ => match e with end | Fault x => Fault x end.

(** ** Messages *)

(** [strerror] *)
Definition errstr : list (Z * list Z) :=
  [(1, lit "EGENERIC unknown error"); (2, lit "EFAULT"); (3, lit "EBADF bad file descriptor"); (4, lit "EINVAL");
   (5, lit "ENOSYS unsupported"); (6, lit "ERANGE"); (7, lit "ENOMEM"); (8, lit "ENOENT"); (9, lit "ENOTEMPTY");
   (10, lit "EACCES"); (11, lit "EMFILE all file descriptors taken"); (12, lit "ECONNRESET"); (13, lit "EPIPE");
   (14, lit "ECHILD"); (200, lit "EISDIR"); (201, lit "ENAMETOOLONG"); (202, lit "ENOTDIR"); (203, lit "ELOOP");
   (204, lit "ENOEXEC"); (205, lit "EINTR"); (206, lit "EWOULDBLOCK"); (207, lit "EEXIST"); (208, lit "EAGAIN");
   (209, lit "EIO"); (210, lit "EDOM domain error"); (211, lit "EFBIG file too large")].

Definition strerror (n : Z) : list Z :=
  match list_find (fun e => e.1 = n) errstr with
  | Some (_, e) => e.2
  | None => lit "unknown error"
  end.

Definition printf (fmt : list Z) (args : list va) : L () := _ ← vprintf fmt args; mret ().
Definition eprintf (fmt : list Z) (args : list va) : L () := _ ← vfprintf stderr fmt args; mret ().
Definition get_errno : L Z := gets errno.

Definition perror (s : option (list Z)) : L () :=
  match s with Some s => eprintf (lit "%s: ") [va_str s] | None => mret () end;;
  e ← get_errno; eprintf (lit "%s\n") [va_str (strerror e)].

Definition vwarn (fmt : option (list Z)) (args : list va) : L () :=
  eprintf (lit "%s: ") [va_str progname];;
  match fmt with Some fmt => eprintf fmt args;; eprintf (lit ": ") [] | None => mret () end;;
  e ← get_errno; eprintf (lit "%s\n") [va_str (strerror e)].

Definition vwarnx (fmt : option (list Z)) (args : list va) : L () :=
  eprintf (lit "%s: ") [va_str progname];;
  match fmt with Some fmt => eprintf fmt args | None => mret () end;;
  eprintf (lit "\n") [].

Definition warn (fmt : list Z) (args : list va) : P () := lib (vwarn (Some fmt) args).
Definition err {A} (ret : Z) (fmt : list Z) (args : list va) : P A := lib (vwarn (Some fmt) args);; exit_ ret.
Definition errx {A} (ret : Z) (fmt : list Z) (args : list va) : P A := lib (vwarnx (Some fmt) args);; exit_ ret.

(** ** cat and ls *)

Definition buflen : Z := 4096.

(** [argv[0], def] in place of a command line without arguments. *)
Definition default_argv (argv : list (list Z)) (def : list Z) : list (list Z) :=
  if (length argv <=? 1)%nat then take 1 argv ++ [def] else argv.

(** One turn of the loops that read and print; [ls] prints the terminators as
    newlines.  [buf] is whether the buffer could be allocated. *)
Definition copy_turn (buf : bool) (g : list Z -> list Z) (file : positive) (_ : ()) : L (() + ()) :=
  '(data, n) ← fread 1 buflen file;
  if negb buf && negb (bool_decide (data = [])) then fail Undefined
  else
    let len := s32 n in
    if len <=? 0 then mret (inr ())
    else _ ← fwrite (g data) 1 len stdout; mret (inl ()).

Definition newlines (l : list Z) : list Z := (fun x => if x =? 0 then 10 else x) <$> l.

(** [false] ends the command. *)
Definition cat_file (buf : bool) (path : list Z) : L bool :=
  file ← fopen (Some path) (lit "r");
  match file with
  | None => perror (Some path);; mret false
  | Some file =>
      i ← lift (strcmp path (lit "!stdin"));
      (if i =? 0 then _ ← fextflags file FEXT_NOFILL; mret () else mret ());;
      iter fuel (copy_turn buf id file) ();;
      e ← ferror file;
      if (e : bool) then perror (Some path);; mret false
      else _ ← fclose file; mret true
  end.

Fixpoint cat_files (buf : bool) (paths : list (list Z)) : L () :=
  match paths with
  | [] => mret ()
  | path :: paths => go ← cat_file buf path; if (go : bool) then cat_files buf paths else mret ()
  end.

Definition cmd_cat (argv : list (list Z)) : L () :=
  buf ← call malloc_ok;
  cat_files buf (drop 1 (default_argv argv (lit "!stdin"))).

(** The path with a slash at its end, which is put together in the buffer. *)
Definition ls_path (buf : bool) (path : list Z) : L (list Z) :=
  n ← lift (strlen path);
  if (n =? 0) || negb (default 0 (path !! Z.to_nat (n - 1)) =? 47) then
    if negb buf || (buflen <? n + 2) then fail Undefined
    else mret (take (Z.to_nat n) path ++ [47; 0])
  else mret path.

Definition ls_dir (buf : bool) (arg : list Z) : L () :=
  path ← ls_path buf arg;
  file ← fopen (Some path) (lit "r");
  match file with
  | None => vwarn (Some (lit "couldn't open %s")) [va_str arg]
  | Some file => iter fuel (copy_turn buf newlines file) ();; _ ← fclose file; mret ()
  end.

Definition cmd_ls (argv : list (list Z)) : L () :=
  buf ← call malloc_ok;
  forM (drop 1 (default_argv argv (lit "."))) (ls_dir buf).

(** ** The small ones *)

(** [argv[argc]] is null. *)
Definition cmd_echo (argv : list (list Z)) : L () :=
  a1 ← deref (argv !! 1%nat);
  n ← lift (strcmp (lit "-n") a1);
  let i := if n =? 0 then 2%nat else 1%nat in
  printf (lit "%s") [from_option va_str VNull (argv !! i)];;
  forM (drop (S i) argv) (fun s => printf (lit " %s") [va_str s]);;
  (if n =? 0 then mret () else printf (lit "\n") []).

Definition cmd_getsize (argv : list (list Z)) : P () :=
  if (length argv <? 2)%nat then errx 1 (lit "no arguments") []
  else
    forM (drop 1 argv) (fun path =>
      h ← lib (open_ path OPEN_READ);
      if h <? 0 then warn (lit "error opening %s") [va_str path]
      else
        n ← lib (call (sys_getsize h));
        lib (printf (lit "%s: %d\n") [va_str path; VInt (s32 n)]);;
        lib (close_ h)).

(** [mkdir] of [sysstat.c] and [unlink] of [unistd.c]. *)
Definition mkdir (path : list Z) : L Z :=
  n ← lift (strlen path);
  path ← (if (1 <=? n) && negb (default 0 (path !! Z.to_nat (n - 1)) =? 47) then
            ok ← call malloc_ok;
            if (ok : bool) then mret (take (Z.to_nat n) path ++ [47; 0]) else fail Undefined
          else mret path);
  f ← fopen (Some path) (lit "a");
  match f with Some f => _ ← fclose f; mret 0 | None => mret (-1) end.

Definition unlink (path : list Z) : L Z :=
  h ← open_ path OPEN_WRITE;
  if h <? 0 then set_errno (- h);; mret (-1)
  else
    ret ← call (sys_remove h);
    if ret <? 0 then set_errno (- ret);; mret (-1) else mret 0.

Definition cmd_mkdir (argv : list (list Z)) : P () :=
  if (length argv <? 2)%nat then errx 1 (lit "no arguments") []
  else forM (drop 1 argv) (fun path =>
    r ← lib (mkdir path); if r <? 0 then lib (perror (Some path)) else mret ()).

Definition cmd_rm (argv : list (list Z)) : P () :=
  if (length argv <? 2)%nat then errx 1 (lit "no arguments") []
  else forM (drop 1 argv) (fun path =>
    r ← lib (unlink path); if r <? 0 then lib (perror (Some path)) else mret ()).

Definition cmd_sleep (argv : list (list Z)) : P () :=
  match argv !! 1%nat with
  | None => errx 1 (lit "no arguments") []
  | Some a => '(n, _) ← lib (lift (strtol a 0)); lib (modify (set kern (sys_sleep (s64 (n * 1000)))))
  end.

Definition cmd_touch (argv : list (list Z)) : P () :=
  if (length argv <? 2)%nat then errx 1 (lit "no arguments") []
  else forM (drop 1 argv) (fun path =>
    f ← lib (fopen (Some path) (lit "a"));
    (if is_some f then mret () else lib (perror (Some path)));;
    f ← lib (deref f);                    (* not checked for NULL *)
    _ ← lib (fclose f);
    mret ()).

(** ** hexdump

    The options are parsed by [getopt]: [canonical], [readlen] with [pos] added,
    [pos] and [raw].  [buf] is the whole buffer: behind what was read it holds
    what was there before. *)

(** [for (j = lo; j < hi && j < len; j++)] *)
Definition hex_bytes (buf : list Z) (lo hi len : Z) (f : Z -> L ()) : L () :=
  forZ lo (Z.to_nat (Z.min hi len - lo)) (fun j _ => b ← lift (peek buf j); f b) ().

Definition printable (b : Z) : Z := if (0x20 <=? b) && (b <? 0x7f) then b else 46.

Definition hex_line (canonical : bool) (buf : list Z) (len pos i : Z) : L () :=
  printf (lit "%08zx  ") [VInt (u64 (pos + i))];;
  hex_bytes buf i (i + 8) len (fun b => printf (lit "%02x ") [VInt b]);;
  printf (lit " ") [];;
  hex_bytes buf (i + 8) (i + 16) len (fun b => printf (lit "%02x ") [VInt b]);;
  (if canonical then
     printf (lit " |") [];;
     hex_bytes buf i (i + 16) len (fun b => printf (lit "%c") [VInt (printable b)]);;
     printf (lit "|\n") []
   else printf (lit "\n") []).

(** Lines like the one before are left out; all 16 bytes are compared. *)
Definition hex_turn (canonical : bool) (buf : list Z) (len pos : Z) (x : Z * bool) : L (Z * bool + bool) :=
  let '(i, skipped) := x in
  if i <? len then
    same ← (if 16 <=? i then
              a ← lift (fetch buf i 16); b ← lift (fetch buf (i - 16) 16); mret (bool_decide (a = b))
            else mret false);
    if (same : bool) then
      (if (skipped : bool) then mret () else printf (lit "*\n") []);; mret (inl (i + 16, true))
    else hex_line canonical buf len pos i;; mret (inl (i + 16, false))
  else mret (inr skipped).

Definition hex_read (canonical : bool) (readlen : Z) (file : positive) (x : Z * bool * list Z) :
    L (Z * bool * list Z + Z * list Z) :=
  let '(pos, skipped, buf) := x in
  if pos <? readlen then
    '(data, len) ← fread 1 (Z.min buflen (readlen - pos)) file;
    let buf := data ++ drop (length data) buf in
    if len =? 0 then mret (inr (pos, buf))
    else
      skipped ← iter 257 (hex_turn canonical buf len pos) (0, skipped);
      mret (inl (u64 (pos + len), skipped, buf))
  else mret (inr (pos, buf)).

(** The position is not reset between files. *)
Fixpoint hex_files (canonical raw : bool) (readlen pos : Z) (buf : list Z) (paths : list (list Z)) : L () :=
  match paths with
  | [] => mret ()
  | path :: paths =>
      file ← fopen (Some path) (lit "r");
      match file with
      | None =>
          vwarn (Some (lit "couldn't open %s")) [va_str path];;
          hex_files canonical raw readlen pos buf paths
      | Some file =>
          (if raw then _ ← fextflags file FEXT_NOFILL; mret () else mret ());;
          _ ← fseek file pos SEEK_SET;
          '(pos, buf) ← iter fuel (hex_read canonical readlen file) (pos, false, buf);
          printf (lit "%08zx\n") [VInt pos];;
          _ ← fclose file;
          hex_files canonical raw readlen pos buf paths
      end
  end.
End builtins.

Arguments lib {K A} m.

(** ** A kernel with files and a terminal

    [text] are the files, [open_at] the open handles and [output] what was written
    to handle 1 so far. *)

Section console.
Context {K : Type} `{Sys K}.
Context (text : K -> gmap (list Z) (list Z)) (open_at : K -> gmap Z (list Z)) (output : K -> list Z).

Definition unchanged (k k' : K) : Prop :=
  text k' = text k /\ open_at k' = open_at k /\ output k' = output k.

(** Reads answer some of what is there; writes to the terminal take some of the
    data; there is memory. *)
Record console : Prop := {
  co_malloc : forall k, exists k', malloc_ok k = (true, k') /\ unchanged k k';
  co_open : forall k p t rest, text k !! p = Some t -> 0 ∉ p ->
    exists h k', camellia_open (p ++ 0 :: rest) OPEN_READ k = (h, k') /\ 2 < h /\
      open_at k !! h = None /\ open_at k' = <[h := p]> (open_at k) /\
      text k' = text k /\ output k' = output k;
  co_read : forall k h p t len pos res bytes k',
    open_at k !! h = Some p -> text k !! p = Some t -> 0 < len -> 0 <= pos ->
    sys_read h len pos k = (res, bytes, k') ->
    unchanged k k' /\
    if pos <? Z.of_nat (length t) then
      1 <= res <= Z.min len (Z.of_nat (length t) - pos) /\
      bytes = take (Z.to_nat res) (drop (Z.to_nat pos) t)
    else res = 0;
  co_print : forall k data res k', data <> [] -> sys_write 1 data (-1) 0 k = (res, k') ->
    1 <= res <= Z.of_nat (length data) /\ output k' = output k ++ take (Z.to_nat res) data /\
    text k' = text k /\ open_at k' = open_at k;
  co_close : forall k h, text (sys_close h k) = text k /\ output (sys_close h k) = output k /\
    open_at (sys_close h k) = delete h (open_at k);
}.

Context (Hco : console).
Local Abbreviation L := (ST (stdio K) Empty_set).

(** ** Printing *)

(** Standard output appends. *)
Definition terminal (s : stdio K) : Prop :=
  exists x, files s !! stdout = Some x /\ fd x = 1 /\ fpos x = -1.

(** What printing changes. *)
Definition printed (d : list Z) (s s' : stdio K) : Prop :=
  files s' = files s /\ next_file s' = next_file s /\
  output (kern s') = output (kern s) ++ d /\ text (kern s') = text (kern s) /\
  open_at (kern s') = open_at (kern s).

Lemma advanced_end res : 0 <= res < 2 ^ 62 -> advanced res (-1) = -1.
Proof.
  intros Hr. unfold advanced. rewrite s64_small by lia. cbn [Z.ltb Z.compare andb].
  destruct (Z.leb_spec 0 (-1 + res)); [done|]. assert (res = 0) as -> by lia. done.
Qed.

Lemma printed_trans d1 d2 s1 s2 s3 : printed d1 s1 s2 -> printed d2 s2 s3 -> printed (d1 ++ d2) s1 s3.
Proof.
  intros (A1&A2&A3&A4&A5) (B1&B2&B3&B4&B5). split_and!; try congruence. by rewrite B3, A3, app_assoc.
Qed.

Lemma fwrite_prints_from data n : forall k s,
  terminal s -> Z.of_nat (length data) < 2 ^ 31 -> (k <= length data)%nat -> (length data - k < n)%nat ->
  runs (iter n (fwrite_turn stdout data 1 (Z.of_nat (length data))) (Z.of_nat k)) s
    (fun _ s' => printed (drop k data) s s').
Proof.
  induction n as [|n IH]; intros k s Ht Hl Hk Hn; [lia|]. cbn [iter]. apply runs_bind.
  unfold fwrite_turn at 1. rewrite Z.mul_1_l, (u64_small (Z.of_nat (length data))) by (unfold is_size; lia).
  destruct (Z.leb_spec (Z.of_nat (length data)) (Z.of_nat k)).
  { do 2 fstep. rewrite drop_ge by lia. split_and!; try done. by rewrite app_nil_r. }
  destruct Ht as (x&Hx&Hfd&Hpos). do 2 fstep.
  assert (fetch data (Z.of_nat k) (Z.of_nat (length data) - Z.of_nat k) = Ok (drop k data)) as ->.
  { unfold fetch. rewrite (proj2 (Z.leb_le _ _)) by lia. f_equal. rewrite Nat2Z.id.
    apply take_ge. rewrite length_drop. lia. }
  cbn [lift]. do 2 fstep. rewrite Hfd, Hpos. fstep.
  destruct (sys_write 1 (drop k data) (-1) 0 (kern s)) as [res k'] eqn:Ew.
  assert (drop k data <> []) as Hne by (intros E0%(f_equal length); rewrite length_drop in E0; cbn in E0; lia).
  destruct (co_print Hco _ _ _ _ Hne Ew) as (Hres&Ho&Htx&Hop). rewrite length_drop in Hres.
  eapply runs_call; [exact Ew|]. rewrite (proj2 (Z.ltb_lt 0 res)) by lia.
  unfold fadvance. do 3 fstep.
  assert (x <| fpos ::= advanced res |> = x) as Ex.
  { unfold set; cbn. rewrite Hpos, advanced_end by lia. rewrite <- Hpos. by destruct x. }
  cbn [fst snd]. rewrite Ex.
  replace (Z.of_nat k + res) with (Z.of_nat (k + Z.to_nat res)) by lia.
  set (s1 := s <| kern := k' |> <| files ::= <[stdout := x]> |>).
  assert (printed (take (Z.to_nat res) (drop k data)) s s1) as Hp1.
  { split_and!; try done. cbn. by apply insert_id. }
  eapply runs_mono; [apply (IH (k + Z.to_nat res)%nat s1); [|done|lia|lia]|].
  - exists x. split; [|done]. cbn. by rewrite lookup_insert_eq.
  - intros r s' Hp2. rewrite <- (take_drop (Z.to_nat res) (drop k data)), drop_drop.
    by eapply printed_trans.
Qed.

(** Printing a block of data: all of it, however short the kernel's writes. *)
Lemma fwrite_prints data s :
  terminal s -> Z.of_nat (length data) < 2 ^ 31 ->
  runs (fwrite data 1 (Z.of_nat (length data)) stdout) s (fun _ s' => printed data s s').
Proof.
  intros Ht Hl. pose proof Ht as (x&Hx&Hfd&_). unfold fwrite. do 2 fstep. rewrite Hfd. cbn [Z.ltb Z.compare Z.eqb].
  rewrite Z.mul_1_l, u64_small by (unfold is_size; lia).
  eapply runs_mono; [apply (fwrite_prints_from data _ 0); [done|done|lia|lia]|]. done.
Qed.

(** ** Reading

    A stream touches no other one. *)
Definition others (f : positive) (s s' : stdio K) : Prop :=
  next_file s' = next_file s /\ forall g, g <> f -> files s' !! g = files s !! g.

#[local] Instance others_preorder f : PreOrder (others f).
Proof.
  split; [by split|]. intros s1 s2 s3 [A1 A2] [B1 B2]. split; [congruence|].
  intros g Hg. by rewrite B2, A2.
Qed.

Lemma others_rd_file f g : steps (E := Empty_set) (others f) (rd_file (K := K) g).
Proof. unfold rd_file. apply steps_bind; [apply _|by apply steps_get, _|]. intros s. by apply steps_deref, _. Qed.

Lemma others_wr_file f g : steps (E := Empty_set) (others f) (wr_file (K := K) f g).
Proof.
  intros s. unfold wr_file, mbind, st_bind, get_, deref. destruct (files s !! f); [|done]. cbn.
  split; [done|]. intros h Hh. cbn. by rewrite lookup_insert_ne.
Qed.

Lemma others_call {A} f (g : K -> A * K) : steps (E := Empty_set) (others f) (call g).
Proof. intros s. unfold call. by destruct (g (kern s)). Qed.

Lemma others_errno f e : steps (E := Empty_set) (others f) (set_errno (K := K) e).
Proof. done. Qed.

Ltac others_tac :=
  repeat first
    [ apply others_rd_file | apply others_wr_file | apply others_call | apply others_errno
    | apply steps_bind; [apply _| |intros ?] | apply steps_ret, _ | apply steps_fail
    | match goal with |- steps _ (match ?x with _ => _ end) => destruct x end ].

Lemma fread_others size nitems f : steps (E := Empty_set) (others f) (fread (K := K) size nitems f).
Proof.
  unfold fread. apply steps_bind; [apply _|apply others_rd_file|intros x].
  destruct (fd x <? 0); [others_tac|]. destruct (size =? 0); [others_tac|].
  apply steps_bind; [apply _| |intros; others_tac].
  apply steps_iter; [apply _|]. intros out. unfold fread_turn, fill_buf, read_failed, fadvance. others_tac.
Qed.

(** ** Copying a file to the terminal *)

(** The stream [x] of the open file [p] with contents [t]. *)
Definition file_at (f : positive) (x : FILE) (h : Z) (p t : list Z) (s : stdio K) : Prop :=
  files s !! f = Some x /\ coherent h x t /\ open_at (kern s) !! h = Some p /\ text (kern s) !! p = Some t.

(** The kernel's part of it, everything else being as in [k0]. *)
Definition as_in (k0 : K) (t : list Z) (l : list Z) (k : K) : Prop := l = t /\ unchanged k0 k.

Lemma open_readable k0 h p t :
  open_at k0 !! h = Some p -> text k0 !! p = Some t -> readable h (as_in k0 t).
Proof.
  intros Ho Ht. split. intros l k len pos res bytes k' [-> (U1&U2&U3)] Hl Hp E.
  rewrite <- U1 in Ht. rewrite <- U2 in Ho.
  destruct (co_read Hco k h p t len pos res bytes k' Ho Ht Hl Hp E) as [(V1&V2&V3) Hr].
  split; [|done]. split; [done|]. split_and!; congruence.
Qed.

(** [d] was printed; the streams other than [f] are what they were. *)
Definition copied (f : positive) (d : list Z) (s s' : stdio K) : Prop :=
  others f s s' /\ output (kern s') = output (kern s) ++ d /\ text (kern s') = text (kern s) /\
  open_at (kern s') = open_at (kern s).

Lemma copied_trans f d1 d2 s1 s2 s3 : copied f d1 s1 s2 -> copied f d2 s2 s3 -> copied f (d1 ++ d2) s1 s3.
Proof.
  intros (A1&A2&A3&A4) (B1&B2&B3&B4). split; [by etrans|]. split_and!; try congruence.
  by rewrite B2, A2, app_assoc.
Qed.

Lemma terminal_others f s s' : f <> stdout -> others f s s' -> terminal s -> terminal s'.
Proof. intros Hf [_ Ho] (x&Hx&?). exists x. by rewrite Ho. Qed.

(** Reading through a stream. *)
Lemma fread_block f x h p t s :
  file_at f x h p t s -> Z.of_nat (length t) < 2 ^ 63 ->
  runs (fread 1 buflen f) s (fun '(d, n) s' => d = take 4096 (remaining x t) /\ n = Z.of_nat (length d) /\
    exists x', file_at f x' h p t s' /\ remaining x' t = drop 4096 (remaining x t) /\
      ferror_ x' = ferror_ x /\ copied f [] s s').
Proof.
  intros (Hf&Hc&Ho&Ht) Hl.
  pose proof (fread_spec h _ (open_readable _ _ _ _ Ho Ht) f x t s 1 buflen) as Hr.
  pose proof (fread_others 1 buflen f s) as Hoth.
  destruct (runs_inv _ _ _ (Hr (conj Hf (conj Hc (conj eq_refl (conj eq_refl (conj eq_refl eq_refl))))) Hl
    ltac:(done) ltac:(done) ltac:(done))) as ([d n]&s'&E&->&->&x'&(Hf'&Hc'&_&U1&U2&U3)&Hrem&_&He).
  rewrite E in Hoth. unfold runs. rewrite E. change (Z.to_nat (1 * buflen)) with 4096%nat in *.
  split; [done|]. split; [by rewrite Z.div_1_r|]. exists x'. split; [split_and!; [done|done|congruence|congruence]|].
  split; [done|]. split; [done|]. split_and!; [done|by rewrite app_nil_r|done|done].
Qed.

Context (g : list Z -> list Z).
Context (Hg : forall a b, g (a ++ b) = g a ++ g b) (Hlen : forall a, length (g a) = length a).

Lemma copy_turn_prints f x h p t s :
  f <> stdout -> terminal s -> file_at f x h p t s -> Z.of_nat (length t) < 2 ^ 63 ->
  let d := take 4096 (remaining x t) in
  runs (copy_turn true g f ()) s (fun r s' => r = (if bool_decide (d = []) then inr () else inl ()) /\
    exists x', file_at f x' h p t s' /\ remaining x' t = drop 4096 (remaining x t) /\
      ferror_ x' = ferror_ x /\ copied f (g d) s s').
Proof.
  intros Hf Hterm Hfile Hl d. unfold copy_turn. apply runs_bind.
  eapply runs_mono; [by apply fread_block|]. intros [d0 n] s1 (->&->&x'&Hfile'&Hrem&He&Hcop). fold d in Hcop |- *.
  cbn [negb andb].
  assert (Z.of_nat (length d) <= 4096) as Hd by (unfold d; rewrite length_take; lia).
  rewrite s32_small by lia. destruct (bool_decide_reflect (d = [])) as [E0|Hne].
  - rewrite E0. cbn [length Z.of_nat Z.leb Z.compare]. apply runs_ret. split; [done|].
    exists x'. split_and!; try done. assert (g [] = []) as -> by (apply nil_length_inv; by rewrite Hlen). done.
  - rewrite (proj2 (Z.leb_gt _ _)) by (destruct d; [done|cbn; lia]). apply runs_bind.
    rewrite <- (Hlen d). eapply runs_mono; [apply fwrite_prints|].
    + destruct Hcop as [Ho _]. by eapply terminal_others.
    + rewrite Hlen. lia.
    + intros r s2 (P1&P2&P3&P4&P5). apply runs_ret. split; [done|]. exists x'.
      assert (copied f (g d) s1 s2) as Hcop2.
      { split_and!; try done. split; [done|]. intros q _. by rewrite P1. }
      split_and!; try done.
      * destruct Hfile' as (F1&F2&F3&F4). split_and!; congruence.
      * eapply (copied_trans f []); [exact Hcop|exact Hcop2].
Qed.

Lemma copy_loop_prints n : forall f x h p t s,
  f <> stdout -> terminal s -> file_at f x h p t s -> Z.of_nat (length t) < 2 ^ 63 ->
  (length (remaining x t) < n)%nat ->
  runs (iter n (copy_turn true g f) ()) s (fun _ s' =>
    exists x', file_at f x' h p t s' /\ ferror_ x' = ferror_ x /\ copied f (g (remaining x t)) s s').
Proof.
  induction n as [|n IH]; intros f x h p t s Hf Hterm Hfile Hl Hn; [lia|]. cbn [iter]. apply runs_bind.
  eapply runs_mono; [by apply copy_turn_prints|]. intros r s1 (->&x1&Hfile1&Hrem&He&Hcop).
  destruct (bool_decide_reflect (take 4096 (remaining x t) = [])) as [E0|Hne].
  - apply runs_ret. exists x1. split_and!; try done. rewrite E0 in Hcop.
    assert (remaining x t = []) as -> by (by destruct (remaining x t)). exact Hcop.
  - assert (length (remaining x1 t) < n)%nat as Hn1.
    { rewrite Hrem, length_drop. destruct (remaining x t); [done|]. cbn in *. lia. }
    eapply runs_mono; [apply (IH f x1 h p t s1); try done|].
    { destruct Hcop as [Ho _]. by eapply terminal_others. }
    intros r s2 (x2&Hfile2&He2&Hcop2). exists x2. split; [done|]. split; [congruence|].
    rewrite <- (take_drop 4096 (remaining x t)), Hg, <- Hrem. by eapply copied_trans.
Qed.
End console.

(** ** Opening and closing *)

Section commands.
Context {K : Type} `{Sys K}.
Context (text : K -> gmap (list Z) (list Z)) (open_at : K -> gmap Z (list Z)) (output : K -> list Z).
Context (Hco : console text open_at output).
Local Abbreviation L := (ST (stdio K) Empty_set).

(** The standard streams are there, and no others with numbers still to be given. *)
Definition ready (s : stdio K) : Prop :=
  terminal s /\ (4 <= next_file s)%positive /\ forall q, (next_file s <= q)%positive -> files s !! q = None.

(** A name of a file, not one of the names of the standard streams. *)
Definition plain_name (p : list Z) : Prop := (0 ∉ p) /\ head p <> Some 33.

Definition fresh_file (h : Z) : FILE := FILE0 <| fd := h |> <| readbuf := Buf [] |>.

Lemma peek_name p : plain_name p -> exists c, peek (p ++ [0]) 0 = Ok c /\ (c =? 33) = false.
Proof.
  intros [_ Hp]. destruct p as [|c p]; [by exists 0|]. exists c. split; [done|]. apply Z.eqb_neq. cbn in Hp. congruence.
Qed.

Lemma runs_put (s0 s : stdio K) (Q : () -> stdio K -> Prop) : Q () s0 -> runs (E := Empty_set) (put_ s0) s Q.
Proof. done. Qed.

Lemma runs_deref {A} (a : A) (s : stdio K) (Q : A -> stdio K -> Prop) :
  Q a s -> runs (E := Empty_set) (deref (Some a)) s Q.
Proof. done. Qed.

Lemma runs_open path flags h k' s (Q : Z -> stdio K -> Prop) :
  camellia_open path flags (kern s) = (h, k') -> 0 <= h -> Q h (s <| kern := k' |>) ->
  runs (E := Empty_set) (open_ path flags) s Q.
Proof.
  intros E Hh HQ. unfold open_. apply runs_bind. eapply runs_call; [exact E|].
  by rewrite (proj2 (Z.ltb_ge h 0)).
Qed.

Lemma fopen_reads p t s :
  ready s -> plain_name p -> text (kern s) !! p = Some t ->
  runs (fopen (Some (p ++ [0])) (lit "r")) s (fun r s' => r = Some (next_file s) /\
    exists h, open_at (kern s) !! h = None /\ open_at (kern s') = <[h := p]> (open_at (kern s)) /\
      2 < h /\ text (kern s') = text (kern s) /\ output (kern s') = output (kern s) /\
      next_file s' = Pos.succ (next_file s) /\ files s' = <[next_file s := fresh_file h]> (files s)).
Proof.
  intros (_&Hn&Hfree) Hp Ht. destruct (peek_name p Hp) as (c&Hc&Hc33). change (lit "r") with [114; 0]. unfold fopen.
  apply runs_bind. eapply runs_lift; [exact Hc|]. rewrite Hc33. apply runs_bind. eapply runs_lift; [reflexivity|].
  destruct (co_open _ _ _ Hco (kern s) p t [] Ht (proj1 Hp)) as (h&k1&Eo&Hh&Hfresh&Hop&Htx&Hout).
  apply runs_bind. eapply runs_open; [exact Eo|lia|]. rewrite (proj2 (Z.ltb_ge h 0)) by lia.
  apply runs_bind. eapply runs_lift; [reflexivity|]. cbn [Z.eqb Pos.eqb]. do 2 fstep.
  destruct (co_malloc _ _ _ Hco k1) as (k2&Em2&U2).
  unfold fdopen. do 2 fstep. eapply runs_call; [exact Em2|]. apply runs_bind. eapply runs_lift; [reflexivity|].
  cbn [Z.eqb Pos.eqb]. apply runs_bind, runs_get. apply runs_bind, runs_put. fstep. cbn [is_some]. do 2 fstep.
  apply runs_bind, runs_deref. unfold setvbuf. cbn [Z.eqb Pos.eqb IOFBF IONBF andb].
  destruct (co_malloc _ _ _ Hco k2) as (k3&Em3&U3).
  do 2 fstep. eapply runs_call; [exact Em3|]. apply runs_bind. eapply runs_wr_file; [cbn; by rewrite lookup_insert_eq|].
  do 2 fstep. split; [done|].
  exists h. cbn. destruct U2 as (?&?&?), U3 as (?&?&?). split_and!; try congruence; try done.
  rewrite insert_insert_eq. done.
Qed.

Lemma fclose_closes f x s :
  files s !! f = Some x -> is_static f = false -> 0 < fd x -> readbuf x <> Dangling ->
  runs (fclose f) s (fun _ s' => kern s' = sys_close (fd x) (kern s) /\ files s' = delete f (files s) /\
    next_file s' = next_file s).
Proof.
  intros Hf Hs Hfd Hb. unfold fclose, fflush. do 4 fstep. rewrite (proj2 (Z.ltb_lt 0 _)) by lia.
  apply runs_bind. apply runs_modify. unfold free_readbuf. do 3 fstep.
  destruct (readbuf x) eqn:E; try done; fstep; rewrite Hs; apply runs_bind, runs_modify; by fstep.
Qed.

(** What a command does that prints [d] and nothing else. *)
Definition prints (d : list Z) (s s' : stdio K) : Prop :=
  files s' = files s /\ output (kern s') = output (kern s) ++ d /\ text (kern s') = text (kern s) /\
  open_at (kern s') = open_at (kern s) /\ ready s'.

Lemma name_is_file p : plain_name p -> exists i, strcmp (p ++ [0]) (lit "!stdin") = Ok i /\ (i =? 0) = false.
Proof.
  intros [H0 Hp]. destruct p as [|c p]; [by exists (-1)|].
  assert (c <> 33) as Hc by (intros ->; done). assert (c <> 0) as Hc0 by (intros ->; apply H0; left).
  change (lit "!stdin") with (33 :: drop 1 (lit "!stdin")). cbn [app strcmp].
  rewrite (proj2 (Z.eqb_neq c 33)) by done. rewrite andb_false_r. case_match; eauto.
Qed.

(** Copying the stream that was opened, and closing it. *)
Lemma copy_and_close fuel (g : list Z -> list Z) p t s f :
  (forall a b, g (a ++ b) = g a ++ g b) -> (forall a, length (g a) = length a) ->
  ready s -> f = next_file s -> Z.of_nat (length t) < 2 ^ 63 -> (length t < fuel)%nat ->
  text (kern s) !! p = Some t -> forall s1 h, open_at (kern s) !! h = None ->
  open_at (kern s1) = <[h := p]> (open_at (kern s)) -> 2 < h -> text (kern s1) = text (kern s) ->
  output (kern s1) = output (kern s) -> next_file s1 = Pos.succ (next_file s) ->
  files s1 = <[next_file s := fresh_file h]> (files s) ->
  runs (iter fuel (copy_turn true g f) ()) s1 (fun _ s2 =>
    (exists x, files s2 !! f = Some x /\ ferror_ x = false) /\
    runs (fclose f) s2 (fun _ s3 => prints (g t) s s3)).
Proof.
  intros Hg Hlen Hready -> Hl Hfuel Ht s1 h Hnone Hop Hh Htx Hout Hnf Hfs. pose proof Hready as (Hterm&Hn&Hfree).
  assert (next_file s <> stdout) as Hne by (intros E0; rewrite E0 in Hn; unfold stdout in Hn; lia).
  assert (files s1 !! next_file s = Some (fresh_file h)) as Hf by (by rewrite Hfs, lookup_insert_eq).
  eapply runs_mono; [eapply (copy_loop_prints _ _ _ Hco g Hg Hlen fuel (next_file s) (fresh_file h) h p t)|].
  - done.
  - destruct Hterm as (x&Hx&?). exists x. by rewrite Hfs, lookup_insert_ne.
  - split_and!; [done| |by rewrite Hop, lookup_insert_eq|by rewrite Htx].
    split_and!; cbn; try done; lia.
  - done.
  - exact Hfuel.
  - intros r s2 (x&(Hf2&(Hfd&_&_&_&Hb)&_)&He&((Hnf2&Hoth)&Hout2&Htx2&Hop2)).
    split; [by exists x|]. eapply runs_mono; [apply (fclose_closes _ x); [done| |lia|by destruct (readbuf x)]|].
    { unfold is_static, stdin, stdout, stderr. rewrite !bool_decide_false; [done|lia..]. }
    intros r3 s3 (Ek&Hfs3&Hnf3). destruct (co_close _ _ _ Hco (kern s2) (fd x)) as (C1&C2&C3).
    assert (files s3 = files s) as Hfin.
    { rewrite Hfs3. apply map_eq. intros q. destruct (decide (q = next_file s)) as [->|Hq].
      - rewrite lookup_delete_eq. symmetry. apply Hfree. lia.
      - rewrite lookup_delete_ne, Hoth, Hfs, lookup_insert_ne by done. done. }
    split_and!; [done|rewrite Ek, C2, Hout2, Hout; done|rewrite Ek, C1, Htx2, Htx; done| |].
    + rewrite Ek, C3, Hop2, Hop, Hfd. rewrite delete_insert_id by done. done.
    + destruct Hterm as (y&Hy&?). split; [exists y; by rewrite Hfin|]. split; [lia|].
      intros q Hq. rewrite Hfin. apply Hfree. lia.
Qed.
(** A file that can be read, and the bound on the loop that reads it. *)
Definition has_file (fuel : nat) (k : K) (p t : list Z) : Prop :=
  text k !! p = Some t /\ plain_name p /\ Z.of_nat (length t) < 2 ^ 63 /\ (length t < fuel)%nat.

Lemma prints_trans d1 d2 s1 s2 s3 : prints d1 s1 s2 -> prints d2 s2 s3 -> prints (d1 ++ d2) s1 s3.
Proof.
  intros (A1&A2&A3&A4&A5) (B1&B2&B3&B4&B5). split_and!; try congruence. by rewrite B2, A2, app_assoc.
Qed.

Lemma cat_file_prints fuel p t s :
  ready s -> has_file fuel (kern s) p t ->
  runs (cat_file fuel true (p ++ [0])) s (fun go s' => go = true /\ prints t s s').
Proof.
  intros Hr (Ht&Hp&Hl&Hfuel). unfold cat_file. apply runs_bind. eapply runs_mono; [by apply (fopen_reads _ t)|].
  intros r s1 (->&h&H1&H2&H3&H4&H5&H6&H7). destruct (name_is_file p Hp) as (i&Hi&Hi0).
  apply runs_bind. eapply runs_lift; [exact Hi|]. rewrite Hi0. do 2 fstep. apply runs_bind.
  eapply runs_mono; [by eapply (copy_and_close fuel id p t s)|].
  intros r2 s2 ((x&Hx&He)&Hclose). unfold ferror. do 4 fstep. rewrite He. apply runs_bind.
  eapply runs_mono; [exact Hclose|]. intros r3 s3 Hpr. by fstep.
Qed.

Lemma cat_files_print fuel paths texts : forall s,
  ready s -> Forall2 (has_file fuel (kern s)) paths texts ->
  runs (cat_files fuel true ((fun p => p ++ [0]) <$> paths)) s (fun _ s' => prints (concat texts) s s').
Proof.
  revert texts; induction paths as [|p paths IH]; intros texts s Hr Hall.
  - apply Forall2_nil_inv_l in Hall as ->. cbn [fmap list_fmap cat_files concat]. fstep.
    split_and!; try done. by rewrite app_nil_r.
  - apply Forall2_cons_inv_l in Hall as (t&texts'&Ht&Hall&->). cbn [fmap list_fmap cat_files concat]. apply runs_bind.
    eapply runs_mono; [by apply cat_file_prints|]. intros go s1 [-> Hp1].
    pose proof Hp1 as (_&_&Htx&_&Hr1). eapply runs_mono; [apply (IH texts' s1 Hr1)|].
    { eapply Forall2_impl; [exact Hall|]. unfold has_file. by rewrite Htx. }
    intros [] s2 Hp2. by eapply prints_trans.
Qed.

Lemma strlen_name p : 0 ∉ p -> strlen (p ++ [0]) = Ok (Z.of_nat (length p)).
Proof.
  induction p as [|c p IH]; intros H0; [done|]. cbn [app strlen].
  rewrite (proj2 (Z.eqb_neq c 0)) by (intros ->; apply H0; left).
  rewrite IH by (intros Hin; apply H0; by right). cbn. f_equal. lia.
Qed.

Lemma no_slash p : last p <> Some 47 ->
  (Z.of_nat (length p) =? 0) || negb (default 0 ((p ++ [0]) !! Z.to_nat (Z.of_nat (length p) - 1)) =? 47) = true.
Proof.
  intros Hlast. destruct p as [|c p _] using rev_ind; [done|]. apply orb_true_iff; right.
  rewrite length_app. cbn [length]. replace (Z.to_nat _) with (length p) by lia.
  rewrite <- app_assoc. cbn [app]. rewrite (list_lookup_middle p [0] c (length p)) by done. cbn [default from_option id].
  apply negb_true_iff, Z.eqb_neq. rewrite last_snoc in Hlast. congruence.
Qed.

(** A listing: the name with a slash is opened. *)
Lemma ls_dir_prints progname fuel p t s :
  ready s -> has_file fuel (kern s) (p ++ [47]) t -> Z.of_nat (length p) + 2 <= buflen -> last p <> Some 47 ->
  runs (ls_dir progname fuel true (p ++ [0])) s (fun _ s' => prints (newlines t) s s').
Proof.
  intros Hr (Ht&Hp&Hl&Hfuel) Hbuf Hlast. unfold ls_dir, ls_path.
  do 2 apply runs_bind. eapply runs_lift; [apply strlen_name; intros ?; apply (proj1 Hp), elem_of_app; by left|]. rewrite no_slash by done.
  cbn [negb orb]. rewrite (proj2 (Z.ltb_ge _ _)) by lia. fstep.
  rewrite take_app_length' by lia. change ([47; 0]) with ([47] ++ [0]). rewrite app_assoc.
  apply runs_bind. eapply runs_mono; [by apply (fopen_reads _ t)|]. intros r s1 (->&h&H1&H2&H3&H4&H5&H6&H7).
  apply runs_bind. eapply runs_mono.
  { eapply (copy_and_close fuel newlines (p ++ [47]) t s); try done; [apply fmap_app|apply length_fmap]. }
  intros r2 s2 (_&Hclose). apply runs_bind. eapply runs_mono; [exact Hclose|]. intros r3 s3 Hpr. by fstep.
Qed.
End commands.

(** [cat] prints the files it is given, one after the other: all of their
    bytes, whatever they are and however short the kernel's reads and writes, and
    nothing else; it closes what it opened, and no stream is left behind.  [fuel],
    which bounds the reading loop, is more than the length of any of the files. *)
Theorem cat_copies {K} `{Sys K} text open_at output fuel argv0 paths texts (s : stdio K) :
  console text open_at output -> ready s -> paths <> [] ->
  Forall2 (has_file text fuel (kern s)) paths texts ->
  exists s', cmd_cat fuel (argv0 :: ((fun p => p ++ [0]) <$> paths)) s = Val () s' /\
    output (kern s') = output (kern s) ++ concat texts /\ files s' = files s /\
    text (kern s') = text (kern s) /\ open_at (kern s') = open_at (kern s).
Proof.
  intros Hco Hr Hne Hall.
  assert (runs (cmd_cat fuel (argv0 :: ((fun p => p ++ [0]) <$> paths))) s
    (fun _ s' => prints text open_at output (concat texts) s s')) as Hruns.
  { unfold cmd_cat. destruct (co_malloc _ _ _ Hco (kern s)) as (k1&Em&U1&U2&U3).
    apply runs_bind. eapply runs_call; [exact Em|].
    assert (drop 1 (default_argv (argv0 :: ((fun p => p ++ [0]) <$> paths)) (lit "!stdin")) =
      (fun p => p ++ [0]) <$> paths) as -> by (by destruct paths).
    eapply runs_mono; [eapply (cat_files_print _ _ _ Hco fuel paths texts); [exact Hr|]|].
    - eapply Forall2_impl; [exact Hall|]. unfold has_file. cbn. by rewrite U1.
    - intros [] s' (P1&P2&P3&P4&P5). cbn in *. split_and!; try done; congruence. }
  destruct (runs_inv _ _ _ Hruns) as ([]&s'&E&P1&P2&P3&P4&_). by exists s'.
Qed.

(** ** A kernel

    It reads at most three bytes at a time and prints at most two. *)

Record tty := mkTty {
  t_text : gmap (list Z) (list Z); t_open : gmap Z (list Z); t_out : list Z;
}.

(** The first handle from 3 on that is free. *)
Fixpoint free_handle (n : nat) (h : Z) (m : gmap Z (list Z)) : Z :=
  match n with O => h | S n => if decide (m !! h = None) then h else free_handle n (h + 1) m end.

Definition tty_open (path : list Z) (k : tty) : Z * tty :=
  match t_text k !! before_nul path with
  | Some _ =>
      let h := free_handle (S (size (t_open k))) 3 (t_open k) in
      (h, mkTty (t_text k) (<[h := before_nul path]> (t_open k)) (t_out k))
  | None => (-8, k)
  end.

Definition tty_sys : Sys tty := {|
  sys_read := fun h len pos k =>
    match t_open k !! h with
    | Some p =>
        let t := default [] (t_text k !! p) in
        let res := Z.min (Z.min len 3) (Z.max 0 (Z.of_nat (length t) - pos)) in
        (res, take (Z.to_nat res) (drop (Z.to_nat pos) t), k)
    | None => (-3, [], k)
    end;
  sys_write := fun _ data _ _ k =>
    let res := Z.min 2 (Z.of_nat (length data)) in
    (res, mkTty (t_text k) (t_open k) (t_out k ++ take (Z.to_nat res) data));
  sys_dup := fun h _ _ k => (h, k);
  sys_getsize := fun _ k => (0, k);
  sys_close := fun h k => mkTty (t_text k) (delete h (t_open k)) (t_out k);
  camellia_open := fun path _ k => tty_open path k;
  malloc_ok := fun k => (true, k);
|}.

Lemma before_nul_app p rest : 0 ∉ p -> before_nul (p ++ 0 :: rest) = p.
Proof.
  induction p as [|c p IH]; intros Hp; [done|]. cbn [app before_nul].
  rewrite (proj2 (Z.eqb_neq c 0)) by (intros ->; apply Hp; left).
  rewrite IH; [done|]. intros Hin. apply Hp. by right.
Qed.

(** The handles that are tried are all different, so one of them is free. *)
Lemma free_handle_free n h (m : gmap Z (list Z)) :
  (size (filter (fun x => (h <= x.1)%Z) m) < n)%nat -> h <= free_handle n h m /\ m !! free_handle n h m = None.
Proof.
  revert h; induction n as [|n IH]; intros h Hn; [lia|]. cbn [free_handle]. destruct (decide _) as [Hf|Hf]; [done|].
  destruct (IH (h + 1)) as [H1 H2]; [|split; [lia|done]].
  destruct (m !! h) as [p|] eqn:Hm; [|done].
  assert (filter (fun x => (h + 1 <= x.1)%Z) m = delete h (filter (fun x => (h <= x.1)%Z) m)) as ->.
  { apply map_eq. intros j. destruct (decide (j = h)) as [->|Hj].
    - rewrite lookup_delete_eq. apply map_lookup_filter_None. right. cbn. intros. lia.
    - rewrite lookup_delete_ne by done. apply option_eq. intros v. rewrite !map_lookup_filter_Some. cbn. intuition lia. }
  assert (is_Some (filter (fun x : Z * list Z => (h <= x.1)%Z) m !! h)) as Hin
    by (exists p; apply map_lookup_filter_Some; cbn; split; [done|lia]).
  pose proof (map_size_ne_0_lookup_2 _ _ Hin). rewrite map_size_delete_Some by done. lia.
Qed.

Lemma tty_console : @console _ tty_sys t_text t_open t_out.
Proof.
  split.
  - intros k. by exists k.
  - intros k p t rest Ht Hp. cbn. unfold tty_open. rewrite before_nul_app, Ht by done.
    destruct (free_handle_free (S (size (t_open k))) 3 (t_open k)) as [Hh Hf].
    { pose proof (map_size_filter (fun x : Z * list Z => (3 <= x.1)%Z) (t_open k)). lia. }
    eexists _, _. split; [reflexivity|]. split_and!; try done. lia.
  - intros k h p t len pos res bytes k' Ho Ht Hl Hp E. cbn in E. rewrite Ho, Ht in E. cbn in E.
    injection E as <- <- <-. split; [done|]. case_match; zbool; [split; [lia|done]|lia].
  - intros k data res k' Hne [= <- <-]. split; [|done]. destruct data; [done|cbn; lia].
  - intros k h. done.
Qed.

Definition tty2 : Sys2 tty := {| sys_remove := fun _ k => (0, k); sys_sleep := fun _ k => k |}.

(** Two files; [/a] has eight bytes, which takes three reads and five writes. *)
Definition two_files : tty := mkTty
  {[ [47; 97] := [104; 101; 108; 108; 111; 0; 255; 10]; [47; 98] := [33] ]} ∅ [].

(** [cat /a /b] *)
Lemma cat_copies_witness :
  exists s', @cmd_cat _ tty_sys 10 [lit "cat"; lit "/a"; lit "/b"] (stdio0 two_files) = Val () s' /\
    t_out (kern s') = [104; 101; 108; 108; 111; 0; 255; 10; 33].
Proof.
  destruct (@cat_copies _ tty_sys t_text t_open t_out 10 (lit "cat") [[47; 97]; [47; 98]]
    [[104; 101; 108; 108; 111; 0; 255; 10]; [33]] (stdio0 two_files) tty_console) as (s'&E&Hout&_).
  - split_and!; [by eexists|done|]. intros q Hq. cbn in Hq. unfold stdio0, stdin, stdout, stderr. cbn [files].
    rewrite !lookup_insert_ne by lia. rewrite lookup_singleton_ne by lia. done.
  - done.
  - repeat apply Forall2_cons_2; [..|apply Forall2_nil_2]; (split; [done|]; split; [split; [set_solver|done]|cbn; lia]).
  - exists s'. split; [exact E|]. rewrite Hout. reflexivity.
Defined.

(** ** What goes wrong

    [touch] closes the stream that it could not open. *)
Lemma touch_closes_null :
  @cmd_touch _ tty_sys (lit "shell") [lit "touch"; lit "/none"] (stdio0 two_files) = Fault Undefined.
Proof. vm_compute. reflexivity. Qed.

(** [echo] looks at its first argument without looking whether there is one. *)
Lemma echo_needs_argument :
  @cmd_echo _ tty_sys [lit "echo"] (stdio0 two_files) = Fault Undefined.
Proof. vm_compute. reflexivity. Qed.

(** [echo -n] prints the null pointer at the end of the arguments. *)
Lemma echo_n_prints_null :
  exists s, @cmd_echo _ tty_sys [lit "echo"; lit "-n"] (stdio0 two_files) = Val () s /\
    t_out (kern s) = before_nul (lit "(null)").
Proof. eexists. split; [vm_compute; reflexivity|reflexivity]. Qed.

(** [ls] puts any path together in a buffer of 4096 bytes. *)
Lemma ls_overflows p s :
  0 ∉ p -> last p <> Some 47 -> buflen < Z.of_nat (length p) + 2 ->
  @ls_path tty true (p ++ [0]) s = Fault Undefined.
Proof.
  intros H0 Hlast Hlong. unfold ls_path. unfold mbind, st_bind, lift at 1. rewrite strlen_name by done.
  unfold mret, st_ret. rewrite no_slash by done. cbn [negb orb]. by rewrite (proj2 (Z.ltb_lt _ _)) by done.
Qed.

(** The second file is dumped from where the first one ended: nothing of [/b] is shown. *)
Lemma hexdump_keeps_position :
  exists s, @hex_files _ tty_sys (lit "hexdump") 10 false false (2 ^ 64 - 1) 0 (repeat 0 4096) [lit "/a"; lit "/b"]
      (stdio0 two_files) = Val () s /\
    t_out (kern s) = before_nul (lit "00000000  68 65 6c 6c 6f 00 ff 0a  \n00000008\n00000008\n").
Proof. eexists. split; [vm_compute; reflexivity|reflexivity]. Qed.

(** Whether the last line of a file is left out as a repetition depends on what
    was in the buffer behind it: 16 bytes of a line of two are compared. *)
Lemma hexdump_compares_garbage :
  let k := mkTty {[ [47; 99] := repeat 65 18 ]} ∅ [] in
  let dump buf := match @hex_files _ tty_sys (lit "hexdump") 10 false false (2 ^ 64 - 1) 0 buf [lit "/c"] (stdio0 k) with
                  | Val _ s => t_out (kern s) | _ => [] end in
  drop 60 (dump (repeat 65 4096)) = before_nul (lit "*\n00000012\n") /\
  drop 60 (dump (repeat 0 4096)) = before_nul (lit "00000010  41 41  \n00000012\n").
Proof. by vm_compute. Qed.
