(* ===== verification/Esem.v ===== *)
(** * Esem

    Semaphores out of pipes ([src/src/libc/esemaphore.c]).  A process of its own
    reads a byte from one pipe for every signal and leaves behind, for each, a
    child that writes a byte to another one, from which the waiters read.  The
    processes are interleaved in any order; what each does next is its program
    counter, and what a pipe does is [pipe_joinqueue] and [pipe_trytransfer] of
    [src/src/kernel/pipe.c], of which the lengths are 0 or 1 here. *)

From S2P Require Import Prelude.

(** ** Processes *)

(** [ends_wait[0]], [ends_wait[1]], [ends_signal[0]], [ends_signal[1]]. *)
Inductive hend := wait_r | wait_w | signal_r | signal_w.

#[export] Instance hend_eq_dec : EqDecision hend.
Proof. solve_decision. Defined.

(** What a process does with the semaphore; it may fork. *)
Inductive script :=
| Leave                            (* [esem_free] *)
| Signal (k : script)
| Wait (k : script)
| Spawn (child k : script).

(** The process that calls [esem_new] and those that use the semaphore. *)
Inductive upc :=
| UNew1 (k : script)               (* [close(ends_signal[0])] *)
| UNew2 (k : script)               (* [close(ends_wait[1])] *)
| URun (k : script)
| USignalling (k : script)         (* in the queue of the pipe *)
| UWaiting (k : script)
| UFree                            (* [close(sem->signal)] *)
| UGone.

(** The process that turns signals into children. *)
Inductive dpc := DClose | DRead | DReading | DFork | DExit | DGone.

(** One of its children. *)
Inductive hpc := HWrite | HWriting | HExit | HGone.

#[export] Instance dpc_eq_dec : EqDecision dpc.
Proof. solve_decision. Defined.
#[export] Instance hpc_eq_dec : EqDecision hpc.
Proof. solve_decision. Defined.

(** The queues of the four ends; that of [signal_r] holds the daemon while it is
    [DReading]. *)
Record sem := mkSem {
  users : list upc; daemon : dpc; helpers : list hpc;
  q_wait_r : list nat; q_wait_w : list nat; q_signal_w : list nat;
}.

#[export] Instance sem_settable : Settable sem := fun s =>
  mkSem (users s) (daemon s) (helpers s) (q_wait_r s) (q_wait_w s) (q_signal_w s).

(** The handles a process has at a point of its program. *)
Definition u_holds (u : upc) (e : hend) : bool :=
  match u with
  | UNew1 _ => true
  | UNew2 _ => negb (bool_decide (e = signal_r))
  | URun _ | USignalling _ | UWaiting _ => bool_decide (e = wait_r) || bool_decide (e = signal_w)
  | UFree => bool_decide (e = signal_w)
  | UGone => false
  end.

Definition d_holds (d : dpc) (e : hend) : bool :=
  match d with
  | DClose => true
  | DRead | DReading | DFork | DExit => negb (bool_decide (e = signal_w))
  | DGone => false
  end.

Definition h_holds (h : hpc) (e : hend) : bool :=
  match h with
  | HWrite | HWriting | HExit => negb (bool_decide (e = signal_w))
  | HGone => false
  end.

Definition held (e : hend) (s : sem) : bool :=
  existsb (fun u => u_holds u e) (users s) || d_holds (daemon s) e
  || existsb (fun h => h_holds h e) (helpers s).

(** ** Pipes *)

(** What returns: [esem_signal] or [esem_wait] of a process. *)
Inductive event := Signalled (i : nat) | Passed (i : nat).

Definition set_user (i : nat) (u : upc) (s : sem) : sem := s <| users ::= <[i := u]> |>.
Definition set_helper (j : nat) (h : hpc) (s : sem) : sem := s <| helpers ::= <[j := h]> |>.

(** A user whose call returns, whatever the result: nothing looks at it. *)
Definition returns (u : upc) : upc :=
  match u with
  | USignalling k | UWaiting k | URun (Signal k) | URun (Wait k) => URun k
  | _ => u
  end.

Definition user_returns (i : nat) (s : sem) : sem :=
  match users s !! i with Some u => set_user i (returns u) s | None => s end.

(** A byte from a signaller to the daemon. *)
Definition transfer_signal (s : sem) : sem * list event :=
  match daemon s, q_signal_w s with
  | DReading, i :: q => (user_returns i (s <| q_signal_w := q |> <| daemon := DFork |>), [Signalled i])
  | _, _ => (s, [])
  end.

(** From a child to a waiter, who asks for no bytes. *)
Definition transfer_wait (s : sem) : sem * list event :=
  match q_wait_r s, q_wait_w s with
  | i :: qr, j :: qw =>
      (user_returns i (set_helper j HExit (s <| q_wait_r := qr |> <| q_wait_w := qw |>)), [Passed i])
  | _, _ => (s, [])
  end.

(** After a process has closed handles: who waits at the other side of an end
    that nobody has returns with an error. *)
Definition close_signal_w (s : sem) : sem :=
  if negb (held signal_w s) && bool_decide (daemon s = DReading) then s <| daemon := DExit |> else s.

Definition close_signal_r (s : sem) : sem * list event :=
  if held signal_r s then (s, [])
  else (foldl (fun s i => user_returns i s) (s <| q_signal_w := [] |>) (q_signal_w s), Signalled <$> q_signal_w s).

Definition close_wait_r (s : sem) : sem :=
  if held wait_r s then s
  else foldl (fun s j => set_helper j HExit s) (s <| q_wait_w := [] |>) (q_wait_w s).

Definition close_wait_w (s : sem) : sem * list event :=
  if held wait_w s then (s, [])
  else (foldl (fun s i => user_returns i s) (s <| q_wait_r := [] |>) (q_wait_r s), Passed <$> q_wait_r s).

Definition settle (s : sem) : sem * list event :=
  let s := close_signal_w s in
  let '(s, e1) := close_signal_r s in
  let s := close_wait_r s in
  let '(s, e2) := close_wait_w s in
  (s, e1 ++ e2).

(** ** Steps *)

(** [None]: the process is blocked, or has ended. *)
Definition user_step (i : nat) (s : sem) : option (sem * list event) :=
  match users s !! i with
  | Some (UNew1 k) => Some (settle (set_user i (UNew2 k) s))
  | Some (UNew2 k) => Some (settle (set_user i (URun k) s))
  | Some (URun (Signal k)) =>
      if negb (held signal_r s) then Some (user_returns i s, [Signalled i])
      else Some (transfer_signal (set_user i (USignalling k) s <| q_signal_w ::= fun q => q ++ [i] |>))
  | Some (URun (Wait k)) =>
      if negb (held wait_w s) then Some (user_returns i s, [Passed i])
      else Some (transfer_wait (set_user i (UWaiting k) s <| q_wait_r ::= fun q => q ++ [i] |>))
  | Some (URun (Spawn child k)) => Some (set_user i (URun k) s <| users ::= fun l => l ++ [URun child] |>, [])
  | Some (URun Leave) => Some (settle (set_user i UFree s))
  | Some UFree => Some (settle (set_user i UGone s))
  | _ => None
  end.

Definition daemon_step (s : sem) : option (sem * list event) :=
  match daemon s with
  | DClose => Some (settle (s <| daemon := DRead |>))
  | DRead =>
      if negb (held signal_w s) then Some (s <| daemon := DExit |>, [])
      else Some (transfer_signal (s <| daemon := DReading |>))
  | DFork => Some (s <| daemon := DRead |> <| helpers ::= fun l => l ++ [HWrite] |>, [])
  | DExit => Some (settle (s <| daemon := DGone |>))
  | DReading | DGone => None
  end.

Definition helper_step (j : nat) (s : sem) : option (sem * list event) :=
  match helpers s !! j with
  | Some HWrite =>
      if negb (held wait_r s) then Some (set_helper j HExit s, [])
      else Some (transfer_wait (set_helper j HWriting s <| q_wait_w ::= fun q => q ++ [j] |>))
  | Some HExit => Some (settle (set_helper j HGone s))
  | _ => None
  end.

Inductive who := User (i : nat) | Daemon | Helper (j : nat).

Definition sem_step (p : who) (s : sem) : option (sem * list event) :=
  match p with
  | User i => user_step i s
  | Daemon => daemon_step s
  | Helper j => helper_step j s
  end.

(** Who cannot run is passed over. *)
Fixpoint sem_run (sched : list who) (s : sem) : sem * list event :=
  match sched with
  | [] => (s, [])
  | p :: sched =>
      let '(s, e1) := default (s, []) (sem_step p s) in
      let '(s, e2) := sem_run sched s in
      (s, e1 ++ e2)
  end.

(** [esem_new(value)] has forked; its caller goes on with [k]. *)
Definition esem_new (value : nat) (k : script) : sem :=
  mkSem [UNew1 (Nat.iter value Signal k)] DClose [] [] [] [].

(** The pipes that are open after [esem_new], for the outcomes of its two
    [_sys_pipe] and its [malloc]; [false] is the null pointer. *)
Definition esem_new_opens (value : Z) (pipe1 pipe2 malloc : bool) : bool * list hend :=
  if value <? 0 then (false, [])
  else if negb pipe1 then (false, [])
  else if negb pipe2 then (false, filter (fun e => ~ (e = wait_r \/ e = wait_w)) [wait_r; wait_w])
  else if negb malloc then
    (false, filter (fun e => ~ (e = wait_r \/ e = wait_w))
              (filter (fun e => ~ (e = signal_r \/ e = signal_w)) [wait_r; wait_w; signal_r; signal_w]))
  else (true, [wait_r; wait_w; signal_r; signal_w]).

(** ** The semaphore

    A number; [Passed] waits until it is not 0. *)

Definition spec_step (n : nat) (e : event) : option nat :=
  match e, n with
  | Signalled _, _ => Some (S n)
  | Passed _, S m => Some m
  | Passed _, O => None
  end.

Fixpoint spec_run (n : nat) (evs : list event) : option nat :=
  match evs with [] => Some n | e :: evs => n ← spec_step n e; spec_run n evs end.

Definition pending (h : hpc) : nat := match h with HWrite | HWriting => 1 | _ => 0 end.

(** Its value: signals that were taken and have not let anybody pass. *)
Definition value_of (s : sem) : nat :=
  (if decide (daemon s = DFork) then 1 else 0) + sum_list_with pending (helpers s).

Lemma spec_run_app n m evs1 evs2 :
  spec_run n evs1 = Some m -> spec_run n (evs1 ++ evs2) = spec_run m evs2.
Proof.
  revert n; induction evs1 as [|e evs1 IH]; intros n; cbn; [by intros [= ->]|].
  destruct (spec_step n e); [|done]. apply IH.
Qed.

(** ** Queues and the processes in them *)

Definition u_signalling (u : upc) : bool := match u with USignalling _ => true | _ => false end.
Definition u_waiting (u : upc) : bool := match u with UWaiting _ => true | _ => false end.
Definition u_gone (u : upc) : bool := match u with UGone => true | _ => false end.
Definition h_writing (h : hpc) : bool := match h with HWriting => true | _ => false end.
Definition d_alive (d : dpc) : bool := match d with DExit | DGone => false | _ => true end.

Section queues.
Context {A : Type} (P : A -> bool).
Implicit Types (l : list A) (q : list nat).

(** [q] has the processes of [l] that are blocked in it. *)
Definition queue_of l q : Prop :=
  NoDup q /\ forall i, i ∈ q <-> exists x, l !! i = Some x /\ P x = true.

Lemma queue_keep l q i x y :
  queue_of l q -> l !! i = Some x -> P x = P y -> queue_of (<[i := y]> l) q.
Proof.
  intros [Hn Hq] Hi Hxy. split; [done|]. intros j. rewrite Hq. split.
  - intros (z&Hz&HP). destruct (decide (i = j)) as [->|Hne].
    + exists y. rewrite list_lookup_insert_eq by (by eapply lookup_lt_Some). split; [done|]. congruence.
    + exists z. by rewrite list_lookup_insert_ne.
  - intros (z&Hz&HP). destruct (decide (i = j)) as [->|Hne].
    + rewrite list_lookup_insert_eq in Hz by (by eapply lookup_lt_Some). exists x. split; [done|]. congruence.
    + rewrite list_lookup_insert_ne in Hz by done. by exists z.
Qed.

Lemma queue_join l q i x y :
  queue_of l q -> l !! i = Some x -> P x = false -> P y = true -> queue_of (<[i := y]> l) (q ++ [i]).
Proof.
  intros [Hn Hq] Hi Hx Hy. assert (i ∉ q) as Hni by (rewrite Hq; intros (z&Hz&HP); congruence).
  split.
  - apply NoDup_app. split; [done|]. split; [|apply NoDup_singleton].
    intros j Hj Hj1. apply list_elem_of_singleton in Hj1. by subst.
  - intros j. rewrite elem_of_app, list_elem_of_singleton, Hq. destruct (decide (i = j)) as [->|Hne].
    + rewrite list_lookup_insert_eq by (by eapply lookup_lt_Some). naive_solver.
    + rewrite list_lookup_insert_ne by done. naive_solver.
Qed.

Lemma queue_leave l q i y :
  queue_of l (i :: q) -> P y = false -> queue_of (<[i := y]> l) q.
Proof.
  intros [Hn Hq] Hy. apply NoDup_cons in Hn as [Hni Hn]. split; [done|]. intros j.
  assert (is_Some (l !! i)) as Hi by (destruct (proj1 (Hq i)) as (x&->&_); [left|done]).
  destruct (decide (i = j)) as [->|Hne].
  - rewrite list_lookup_insert_eq by (by apply lookup_lt_is_Some). naive_solver congruence.
  - rewrite list_lookup_insert_ne by done. rewrite <- Hq, elem_of_cons. naive_solver.
Qed.

Lemma queue_snoc l q y : queue_of l q -> P y = false -> queue_of (l ++ [y]) q.
Proof.
  intros [Hn Hq] Hy. split; [done|]. intros j. rewrite Hq. split.
  - intros (x&Hx&HP). exists x. by rewrite (lookup_app_l_Some _ _ _ _ Hx).
  - intros (x&Hx&HP). apply lookup_app_Some in Hx as [Hx|[_ Hx]]; [by exists x|].
    apply list_lookup_singleton_Some in Hx as [_ <-]. congruence.
Qed.

Lemma queue_empty l q i x : queue_of l q -> l !! i = Some x -> P x = true -> q <> [].
Proof. intros [_ Hq] Hi Hx ->. assert (i ∈ []) as H%not_elem_of_nil by (apply Hq; eauto). done. Qed.
End queues.

Lemma sum_insert {A} (f : A -> nat) l i x y :
  l !! i = Some x -> (sum_list_with f (<[i := y]> l) + f x = sum_list_with f l + f y)%nat.
Proof.
  revert i; induction l as [|z l IH]; intros i Hi; [done|]. destruct i as [|i].
  - injection Hi as ->. change (<[0%nat := y]> (x :: l)) with (y :: l). cbn [sum_list_with]. lia.
  - specialize (IH _ Hi). change (<[S i := y]> (z :: l)) with (z :: <[i := y]> l). cbn [sum_list_with]. lia.
Qed.

Lemma sum_snoc {A} (f : A -> nat) l x : sum_list_with f (l ++ [x]) = (sum_list_with f l + f x)%nat.
Proof. induction l as [|y l IH]; cbn [app sum_list_with]; lia. Qed.

(** ** The invariant *)

Record queues (s : sem) : Prop := {
  qs_wait_r : queue_of u_waiting (users s) (q_wait_r s);
  qs_wait_w : queue_of h_writing (helpers s) (q_wait_w s);
  qs_signal_w : queue_of u_signalling (users s) (q_signal_w s);
  qs_alive : forall i u, users s !! i = Some u -> u_gone u = false -> d_alive (daemon s) = true;
}.

(** No two ends of a pipe are waited at. *)
Record sem_ok (s : sem) : Prop := {
  so_queues : queues s;
  so_wait : q_wait_r s = [] \/ q_wait_w s = [];
  so_signal : daemon s = DReading -> q_signal_w s = [];
}.

Lemma held_user e s i u : users s !! i = Some u -> u_holds u e = true -> held e s = true.
Proof.
  intros Hi Hu. unfold held. assert (existsb (fun u => u_holds u e) (users s) = true) as ->; [|done].
  apply existsb_exists. exists u. split; [|done]. apply list_elem_of_In. by eapply list_elem_of_lookup_2.
Qed.

Lemma held_helper e s j h : helpers s !! j = Some h -> h_holds h e = true -> held e s = true.
Proof.
  intros Hj Hh. unfold held. assert (existsb (fun h => h_holds h e) (helpers s) = true) as ->; [|apply orb_true_r].
  apply existsb_exists. exists h. split; [|done]. apply list_elem_of_In. by eapply list_elem_of_lookup_2.
Qed.

Lemma held_daemon e s : d_holds (daemon s) e = true -> held e s = true.
Proof. intros Hd. unfold held. rewrite Hd. by rewrite orb_true_r. Qed.

Lemma user_holds_signal u : u_gone u = false -> u_holds u signal_w = true.
Proof. by destruct u. Qed.

Lemma alive_holds d e : d_alive d = true -> e <> signal_w -> d_holds d e = true.
Proof. intros Hd He. destruct d; try done; cbn; by rewrite bool_decide_false. Qed.

(** While somebody uses the semaphore, the other ends of its pipes are open. *)
Lemma users_served s i u e :
  queues s -> users s !! i = Some u -> u_gone u = false -> e <> signal_w -> held e s = true.
Proof. intros Hq Hi Hu He. apply held_daemon, alive_holds; [by eapply qs_alive|done]. Qed.

Lemma queue_user {P : upc -> bool} s q :
  queue_of P (users s) q -> (forall u, P u = true -> u_gone u = false) ->
  q = [] \/ exists i u, users s !! i = Some u /\ u_gone u = false.
Proof.
  intros [_ Hq] HP. destruct q as [|i q]; [by left|]. right.
  destruct (proj1 (Hq i)) as (u&Hi&Hu); [left|]. exists i, u. auto.
Qed.

(** Closing handles tells at most the daemon that nobody is there any more. *)
Lemma settle_ok s :
  sem_ok s -> exists s', settle s = (s', []) /\ sem_ok s' /\ value_of s' = value_of s /\
    (s' = s \/ daemon s = DReading /\ s' = s <| daemon := DExit |>).
Proof.
  intros Hok.
  assert (forall s, sem_ok s -> close_signal_r s = (s, []) /\ close_wait_r s = s /\ close_wait_w s = (s, [])) as Hrest.
  { clear. intros s [Hq _ _]. split_and!.
    - unfold close_signal_r. destruct (held signal_r s) eqn:E; [done|].
      destruct (queue_user s _ (qs_signal_w s Hq)) as [Hn|(i&u&Hi&Hu)]; [by intros []| |].
      + rewrite Hn. cbn. f_equal. destruct s; cbn in *. by subst.
      + by rewrite (users_served s i u) in E.
    - unfold close_wait_r. destruct (held wait_r s) eqn:E; [done|].
      destruct (q_wait_w s) as [|j q] eqn:Hw; [cbn; destruct s; cbn in *; by subst|].
      destruct (proj1 (proj2 (qs_wait_w s Hq) j)) as (h&Hj&Hh); [rewrite Hw; left|].
      rewrite (held_helper wait_r s j h Hj) in E; [done|by destruct h].
    - unfold close_wait_w. destruct (held wait_w s) eqn:E; [done|].
      destruct (queue_user s _ (qs_wait_r s Hq)) as [Hn|(i&u&Hi&Hu)]; [by intros []| |].
      + rewrite Hn. cbn. f_equal. destruct s; cbn in *. by subst.
      + by rewrite (users_served s i u) in E. }
  assert (forall s', sem_ok s' -> close_signal_w s = s' -> settle s = (s', [])) as Hsettle.
  { intros s' Hok' E. unfold settle. rewrite E. by destruct (Hrest s' Hok') as (->&->&->). }
  destruct (negb (held signal_w s) && bool_decide (daemon s = DReading)) eqn:E.
  2:{ exists s. split; [apply Hsettle; [done|]; unfold close_signal_w; by rewrite E|]. auto. }
  exists (s <| daemon := DExit |>). apply andb_true_iff in E as [E1 E2%bool_decide_eq_true].
  assert (sem_ok (s <| daemon := DExit |>)) as Hok'.
  { destruct Hok as [[H1 H2 H3 H4] H5 H6]. split; [split|done|done]; try done.
    cbn. intros i u Hi Hu. by rewrite (held_user signal_w s i u Hi (user_holds_signal u Hu)) in E1. }
  split_and!; [|done|unfold value_of; cbn; by rewrite E2|right; by split].
  apply Hsettle; [done|]. unfold close_signal_w. by rewrite E1, E2.
Qed.

(** A step leaves the system in order and is one of the semaphore. *)
Definition step_good (s : sem) (r : sem * list event) : Prop :=
  sem_ok r.1 /\ spec_run (value_of s) r.2 = Some (value_of r.1).

Lemma settle_good s s0 : sem_ok s -> value_of s = value_of s0 -> step_good s0 (settle s).
Proof. intros Hok Hv. destruct (settle_ok s Hok) as (s'&->&Hok'&Hv'&_). split; [done|]. cbn. congruence. Qed.

Lemma step_good_eq s s1 r : value_of s1 = value_of s -> step_good s1 r -> step_good s r.
Proof. intros E [H1 H2]. split; [done|]. by rewrite <- E. Qed.

Lemma set_user_ok s i u u' :
  sem_ok s -> users s !! i = Some u -> u_waiting u = u_waiting u' -> u_signalling u = u_signalling u' ->
  (u_gone u' = false -> u_gone u = false) -> sem_ok (set_user i u' s).
Proof.
  intros [[H1 H2 H3 H4] H5 H6] Hi Hw Hs Hg. split; [split|done|done]; cbn; try done.
  - by eapply queue_keep.
  - by eapply queue_keep.
  - intros j v Hj Hv. destruct (decide (i = j)) as [->|Hne].
    + rewrite list_lookup_insert_eq in Hj by (by eapply lookup_lt_Some). injection Hj as <-. eapply H4; [exact Hi|auto].
    + rewrite list_lookup_insert_ne in Hj by done. by eapply H4.
Qed.

Lemma set_helper_ok s j h h' :
  sem_ok s -> helpers s !! j = Some h -> h_writing h = h_writing h' -> sem_ok (set_helper j h' s).
Proof.
  intros [[H1 H2 H3 H4] H5 H6] Hj Hw. split; [split|done|done]; cbn; try done. by eapply queue_keep.
Qed.

Lemma set_daemon_ok s d :
  sem_ok s -> d <> DReading -> (d_alive (daemon s) = true -> d_alive d = true) -> sem_ok (s <| daemon := d |>).
Proof.
  intros [[H1 H2 H3 H4] H5 H6] Hd Ha. split; [split|done|done]; cbn; try done. eauto.
Qed.

(** A user joins or leaves a queue. *)
Lemma alive_insert (d : dpc) (l : list upc) i (u u' : upc) :
  (forall j v, l !! j = Some v -> u_gone v = false -> d_alive d = true) ->
  l !! i = Some u -> u_gone u = false ->
  forall j v, <[i := u']> l !! j = Some v -> u_gone v = false -> d_alive d = true.
Proof.
  intros H Hi Hu j v Hj Hv. destruct (decide (i = j)) as [->|Hne]; [by eapply H|].
  rewrite list_lookup_insert_ne in Hj by done. by eapply H.
Qed.

Lemma transfer_signal_good s :
  queues s -> q_wait_r s = [] \/ q_wait_w s = [] -> step_good s (transfer_signal s).
Proof.
  intros Hq Hw. unfold transfer_signal.
  assert (daemon s <> DReading \/ q_signal_w s = [] -> step_good s (s, [])) as Hstay.
  { intros Hd. split; [|done]. split; [done|done|]. naive_solver. }
  destruct (daemon s) eqn:Hd; try (apply Hstay; by left).
  destruct (q_signal_w s) as [|i q] eqn:Hs; [apply Hstay; by right|].
  destruct Hq as [H1 H2 H3 H4]. rewrite Hs in H3.
  destruct (proj1 (proj2 H3 i)) as (u&Hi&Hu); [left|]. destruct u as [| | |k| | |]; try done.
  unfold user_returns. cbn. rewrite Hi. split; [split; [split|done|]|]; cbn; try done.
  - by eapply queue_keep.
  - by eapply queue_leave.
  - unfold value_of. cbn. rewrite Hd. cbn. done.
Qed.

Lemma transfer_wait_good s :
  queues s -> (daemon s = DReading -> q_signal_w s = []) ->
  (exists qr, q_wait_r s = qr /\ (length qr <= 1)%nat) \/ (exists qw, q_wait_w s = qw /\ (length qw <= 1)%nat) ->
  step_good s (transfer_wait s).
Proof.
  intros Hq Hsig Hex. unfold transfer_wait.
  destruct (q_wait_r s) as [|i qr] eqn:Hr; [split; [split; auto|done]|].
  destruct (q_wait_w s) as [|j qw] eqn:Hw; [split; [split; auto|done]|].
  destruct Hq as [H1 H2 H3 H4]. rewrite Hr in H1. rewrite Hw in H2.
  destruct (proj1 (proj2 H1 i)) as (u&Hi&Hu); [left|]. destruct u as [| | | |k| |]; try done.
  destruct (proj1 (proj2 H2 j)) as (h&Hj&Hh); [left|]. destruct h; try done.
  unfold user_returns. cbn. rewrite Hi. split; [split; [split| |]|]; cbn; try done.
  - by eapply queue_leave.
  - by eapply queue_leave.
  - by eapply queue_keep.
  - by eapply alive_insert.
  - destruct Hex as [(?&<-&Hl)|(?&<-&Hl)]; cbn in Hl; [left|right]; by apply nil_length_inv; lia.
  - pose proof (sum_insert pending _ _ _ HExit Hj) as E. cbn [pending] in E. unfold value_of. cbn.
    replace (_ + sum_list_with pending (helpers s))%nat with
      (S ((if decide (daemon s = DFork) then 1 else 0) + sum_list_with pending (<[j := HExit]> (helpers s)))) by lia.
    done.
Qed.

Lemma user_step_good i s r : sem_ok s -> user_step i s = Some r -> step_good s r.
Proof.
  intros Hok. unfold user_step. destruct (users s !! i) as [u|] eqn:Hi; [|done].
  pose proof Hok as [Hq Hw Hs]. pose proof Hq as [H1 H2 H3 H4].
  destruct u as [k|k|[|k|k|c k]|k|k| |]; try done.
  - intros [= <-]. apply settle_good; [by eapply set_user_ok|done].
  - intros [= <-]. apply settle_good; [by eapply set_user_ok|done].
  - intros [= <-]. apply settle_good; [by eapply set_user_ok|done].
  - rewrite (users_served s i _ signal_r Hq Hi) by done. cbn [negb]. intros [= <-].
    eapply step_good_eq; [|apply transfer_signal_good]; [done| |exact Hw]. split; cbn; [by eapply queue_keep|done|by eapply queue_join|].
    by eapply alive_insert.
  - rewrite (users_served s i _ wait_w Hq Hi) by done. cbn [negb]. intros [= <-].
    eapply step_good_eq; [|apply transfer_wait_good]; [done| |exact Hs|].
    + split; cbn; [by eapply queue_join|done|by eapply queue_keep|by eapply alive_insert].
    + cbn. destruct Hw as [Hw|Hw]; rewrite Hw; [left|right]; eexists; split; try reflexivity; cbn; lia.
  - intros [= <-]. split; [|done]. split; [split|done|done]; cbn.
    + apply queue_snoc; [by eapply queue_keep|done].
    + done.
    + apply queue_snoc; [by eapply queue_keep|done].
    + intros j v Hj Hv. apply (H4 i _ Hi). done.
  - intros [= <-]. apply settle_good; [by eapply set_user_ok|done].
Qed.

Lemma daemon_step_good s r : sem_ok s -> daemon_step s = Some r -> step_good s r.
Proof.
  intros Hok. unfold daemon_step. pose proof Hok as [Hq Hw Hs]. pose proof Hq as [H1 H2 H3 H4].
  destruct (daemon s) eqn:Hd; try done.
  - intros [= <-]. apply settle_good; [apply set_daemon_ok; try done|].
    unfold value_of. cbn. by rewrite Hd.
  - destruct (held signal_w s) eqn:Hh; cbn [negb]; intros [= <-].
    + eapply step_good_eq; [|apply transfer_signal_good]; [unfold value_of; cbn; by rewrite Hd| |done]. by split.
    + split; [|unfold value_of; cbn; by rewrite Hd]. split; [split|done|done]; cbn; try done.
      intros i u Hi Hu. by rewrite (held_user signal_w s i u Hi (user_holds_signal u Hu)) in Hh.
  - intros [= <-]. split.
    + split; [split|done|done]; cbn; try done. by apply queue_snoc.
    + unfold value_of. cbn [fst snd spec_run daemon helpers set]. rewrite Hd. cbn [daemon helpers].
      change (Some (1 + sum_list_with pending (helpers s)) = Some (0 + sum_list_with pending (helpers s ++ [HWrite])))%nat.
      rewrite sum_snoc. cbn [pending]. f_equal. lia.
  - intros [= <-]. apply settle_good; [apply set_daemon_ok; try done; by rewrite Hd|].
    unfold value_of. cbn. by rewrite Hd.
Qed.

Lemma helper_step_good j s r : sem_ok s -> helper_step j s = Some r -> step_good s r.
Proof.
  intros Hok. unfold helper_step. destruct (helpers s !! j) as [h|] eqn:Hj; [|done].
  pose proof Hok as [Hq Hw Hs]. pose proof Hq as [H1 H2 H3 H4].
  assert (forall h', pending h = pending h' -> value_of (set_helper j h' s) = value_of s) as Hv.
  { intros h' Hp. pose proof (sum_insert pending _ _ _ h' Hj) as E. unfold value_of. cbn. lia. }
  destruct h; try done.
  - rewrite (held_helper wait_r s j _ Hj) by done. cbn [negb]. intros [= <-].
    set (s1 := set_helper j HWriting s <| q_wait_w ::= fun q => q ++ [j] |>).
    assert (step_good s1 (transfer_wait s1)) as [G1 G2].
    { apply transfer_wait_good; [|exact Hs|].
      - split; cbn; [done|by eapply queue_join|done|exact H4].
      - cbn. destruct Hw as [Hw|Hw]; rewrite Hw; [left|right]; eexists; split; try reflexivity; cbn; lia. }
    split; [done|]. rewrite <- (Hv HWriting eq_refl). exact G2.
  - intros [= <-]. apply settle_good; [by eapply set_helper_ok|by apply Hv].
Qed.

Lemma sem_step_good p s r : sem_ok s -> sem_step p s = Some r -> step_good s r.
Proof. destruct p; [apply user_step_good|apply daemon_step_good|apply helper_step_good]. Qed.

Lemma sem_run_good sched s : sem_ok s -> step_good s (sem_run sched s).
Proof.
  revert s; induction sched as [|p sched IH]; intros s Hok; cbn [sem_run]; [by split|].
  assert (step_good s (default (s, []) (sem_step p s))) as Hp.
  { destruct (sem_step p s) as [r|] eqn:E; [by eapply sem_step_good|by split]. }
  destruct (default (s, []) (sem_step p s)) as [s1 e1]. destruct Hp as [Hok1 Hv1].
  specialize (IH s1 Hok1). destruct (sem_run sched s1) as [s2 e2]. destruct IH as [Hok2 Hv2].
  split; [done|]. cbn in *. by rewrite (spec_run_app _ _ _ _ Hv1).
Qed.

Lemma esem_new_ok value k : sem_ok (esem_new value k).
Proof.
  split; [split|by left|done]; cbn.
  - split; [constructor|]. intros i. split; [by intros ?%not_elem_of_nil|].
    intros (x&Hx&HP). apply list_lookup_singleton_Some in Hx as [_ <-]. done.
  - split; [constructor|]. intros i. split; [by intros ?%not_elem_of_nil|]. by intros (x&Hx&HP).
  - split; [constructor|]. intros i. split; [by intros ?%not_elem_of_nil|].
    intros (x&Hx&HP). apply list_lookup_singleton_Some in Hx as [_ <-]. done.
  - done.
Qed.

(** ** Nobody is forgotten *)

Definition internal (p : who) : bool := match p with User _ => false | _ => true end.

Definition quiet (s : sem) : Prop := forall p, internal p = true -> sem_step p s = None.

(** However the daemon and its children are scheduled, they come to rest, and
    then [P] holds. *)
Inductive settles (P : sem -> Prop) (s : sem) : Prop :=
| settled : quiet s -> P s -> settles P s
| settling p0 : internal p0 = true -> sem_step p0 s <> None ->
    (forall p s' evs, internal p = true -> sem_step p s = Some (s', evs) -> settles P s') ->
    settles P s.

Definition d_weight (d : dpc) : nat :=
  match d with DClose => 3 | DRead => 2 | DReading => 1 | DFork => 7 | DExit => 1 | DGone => 0 end.
Definition h_weight (h : hpc) : nat :=
  match h with HWrite => 4 | HWriting => 2 | HExit => 1 | HGone => 0 end.
Definition weight (s : sem) : nat :=
  8 * length (q_signal_w s) + d_weight (daemon s) + sum_list_with h_weight (helpers s).

Lemma settle_weight s : sem_ok s -> weight (settle s).1 = weight s.
Proof.
  intros Hok. destruct (settle_ok s Hok) as (s'&->&_&_&[->|[Hd ->]]); [done|].
  unfold weight. cbn [fst]. change (daemon (s <| daemon := DExit |>)) with DExit. by rewrite Hd.
Qed.

Lemma user_returns_weight i s : weight (user_returns i s) = weight s.
Proof. unfold user_returns. by destruct (users s !! i). Qed.

Lemma transfer_wait_weight s :
  queues s -> (weight (transfer_wait s).1 <= weight s)%nat.
Proof.
  intros [_ H2 _ _]. unfold transfer_wait.
  destruct (q_wait_r s) as [|i qr]; [done|]. destruct (q_wait_w s) as [|j qw]; [done|].
  cbn [fst]. rewrite user_returns_weight.
  destruct (proj1 (proj2 H2 j)) as (h&Hj&Hh); [left|]. destruct h; try done.
  pose proof (sum_insert h_weight _ _ _ HExit Hj) as E. cbn [h_weight] in E.
  unfold weight. cbn -[sum_list_with]. lia.
Qed.

Lemma transfer_signal_weight s :
  daemon s = DReading -> (weight (transfer_signal s).1 <= weight s)%nat.
Proof.
  intros Hd. unfold transfer_signal. rewrite Hd. destruct (q_signal_w s) as [|i q] eqn:Hq; [done|].
  cbn [fst]. rewrite user_returns_weight. unfold weight. rewrite Hd, Hq. cbn -[sum_list_with]. lia.
Qed.

Lemma daemon_step_weight s r : sem_ok s -> daemon_step s = Some r -> (weight r.1 < weight s)%nat.
Proof.
  intros Hok. unfold daemon_step. destruct (daemon s) eqn:Hd; try done.
  - intros [= <-]. rewrite settle_weight by (apply set_daemon_ok; done).
    unfold weight. rewrite Hd. cbn -[sum_list_with]. lia.
  - destruct (held signal_w s); cbn [negb]; intros [= <-].
    + eapply Nat.le_lt_trans; [by apply transfer_signal_weight|].
      unfold weight. rewrite Hd. cbn -[sum_list_with]. lia.
    + unfold weight. rewrite Hd. cbn -[sum_list_with]. lia.
  - intros [= <-]. unfold weight. rewrite Hd. cbn -[sum_list_with]. rewrite sum_snoc. cbn [h_weight]. lia.
  - intros [= <-]. rewrite settle_weight by (apply set_daemon_ok; [done|done|by rewrite Hd]).
    unfold weight. rewrite Hd. cbn -[sum_list_with]. lia.
Qed.

Lemma helper_step_weight j s r : sem_ok s -> helper_step j s = Some r -> (weight r.1 < weight s)%nat.
Proof.
  intros Hok. unfold helper_step. destruct (helpers s !! j) as [h|] eqn:Hj; [|done].
  assert (forall h', weight (set_helper j h' s) + h_weight h = weight s + h_weight h')%nat as Hw.
  { intros h'. pose proof (sum_insert h_weight _ _ _ h' Hj). unfold weight. cbn -[sum_list_with]. lia. }
  destruct h; try done.
  - rewrite (held_helper wait_r s j _ Hj) by done. cbn [negb]. intros [= <-].
    specialize (Hw HWriting). cbn [h_weight] in Hw.
    eapply Nat.le_lt_trans; [apply transfer_wait_weight|].
    + destruct Hok as [[H1 H2 H3 H4] _ _]. split; cbn; [done|by eapply queue_join|done|exact H4].
    + change (weight (set_helper j HWriting s) < weight s)%nat. lia.
  - intros [= <-]. rewrite settle_weight by (by eapply set_helper_ok). specialize (Hw HGone). cbn [h_weight] in Hw. lia.
Qed.

Lemma internal_weight p s r :
  internal p = true -> sem_ok s -> sem_step p s = Some r -> (weight r.1 < weight s)%nat.
Proof. destruct p; [done|intros _; apply daemon_step_weight|intros _; apply helper_step_weight]. Qed.

(** No signaller waits, and waiters only if the value is 0. *)
Definition all_served (s : sem) : Prop := q_signal_w s = [] /\ (q_wait_r s = [] \/ value_of s = 0%nat).

Lemma pending_none l : (forall j h, l !! j = Some h -> h = HGone) -> sum_list_with pending l = 0%nat.
Proof.
  induction l as [|h l IH]; intros Hl; cbn [sum_list_with]; [done|].
  rewrite (Hl 0%nat h eq_refl), IH; [done|]. intros j. apply (Hl (S j)).
Qed.

Lemma quiet_served s : sem_ok s -> quiet s -> all_served s.
Proof.
  intros [Hq Hw Hs] Hquiet. pose proof (Hquiet Daemon eq_refl) as Hd. cbn in Hd. unfold daemon_step in Hd.
  assert (forall j h, helpers s !! j = Some h -> h = HWriting \/ h = HGone) as Hh.
  { intros j h Hj. pose proof (Hquiet (Helper j) eq_refl) as Hx. cbn in Hx. unfold helper_step in Hx.
    rewrite Hj in Hx. destruct h; auto; by repeat case_match. }
  assert (daemon s = DReading \/ daemon s = DGone) as Hd'.
  { destruct (daemon s); auto; by repeat case_match. }
  split.
  - destruct Hd' as [E|E]; [by apply Hs|].
    destruct (queue_user s _ (qs_signal_w s Hq)) as [Hn|(i&u&Hi&Hu)]; [by intros []|done|].
    pose proof (qs_alive s Hq i u Hi Hu) as Ha. by rewrite E in Ha.
  - destruct Hw as [Hw|Hw]; [by left|right]. unfold value_of. rewrite pending_none.
    + by destruct Hd' as [-> | ->].
    + intros j h Hj. destruct (Hh j h Hj) as [-> | ->]; [|done].
      by destruct (queue_empty _ _ _ _ _ (qs_wait_w s Hq) Hj eq_refl).
Qed.

Lemma quiet_or_not s : quiet s \/ exists p, internal p = true /\ sem_step p s <> None.
Proof.
  destruct (daemon_step s) eqn:Hd; [right; exists Daemon; cbn; by rewrite Hd|].
  destruct (decide (Exists (fun j => is_Some (helper_step j s)) (seq 0 (length (helpers s))))) as [He|He].
  - apply Exists_exists in He as (j&_&[r Hr]). right. exists (Helper j). cbn. by rewrite Hr.
  - left. intros [i| |j] Hi; [done|done|]. cbn. destruct (helper_step j s) as [r|] eqn:Hr; [|done].
    destruct He. apply Exists_exists. exists j. split; [|by exists r]. apply elem_of_seq. split; [lia|].
    unfold helper_step in Hr. destruct (helpers s !! j) eqn:Hj; [|done]. by apply lookup_lt_Some in Hj.
Qed.

Lemma ok_settles s : sem_ok s -> settles all_served s.
Proof.
  remember (weight s) as w eqn:Ew. revert s Ew.
  induction (Nat.lt_wf_0 w) as [w _ IH]. intros s -> Hok.
  destruct (quiet_or_not s) as [Hq|(p0&Hp0&Hs0)]; [exact (settled _ s Hq (quiet_served s Hok Hq))|].
  apply (settling _ _ p0); [done|done|]. intros p s' evs Hp Hstep.
  apply (IH (weight s')); [by apply (internal_weight p s (s', evs))|done|].
  by destruct (sem_step_good p s (s', evs) Hok Hstep).
Qed.

(** C24: [esem_signal] and [esem_wait] are the operations of a semaphore.  For any
    number of processes that fork, signal, wait and leave in any way, scheduled in
    any order with the daemon and its children: the calls return in an order in
    which a counter that starts at 0 is incremented by each signal and decremented
    by each wait, never below 0 (the initial value are signals that [esem_new]
    makes itself).  And nobody is forgotten: from every such state, however the
    daemon and its children are scheduled, they come to rest, and then no
    signaller is blocked, and waiters only if the counter is 0. *)
Theorem esem_is_semaphore value k sched :
  let '(s, evs) := sem_run sched (esem_new value k) in
  spec_run 0 evs = Some (value_of s) /\ settles all_served s.
Proof.
  pose proof (sem_run_good sched _ (esem_new_ok value k)) as H.
  destruct (sem_run sched (esem_new value k)) as [s evs]. destruct H as [Hok Hv].
  split; [exact Hv|by apply ok_settles].
Qed.

(** Two waiters and a signal: one of them passes, the other one waits. *)
Lemma one_of_two :
  let k := Spawn (Wait Leave) (Wait (Signal Leave)) in
  let sched := [User 0; User 0; User 0; Daemon; Daemon; Daemon; User 0; User 1; User 0; Helper 0; Helper 0; Daemon] in
  let '(s, evs) := sem_run sched (esem_new 1 k) in
  evs = [Signalled 0; Passed 1] /\ q_wait_r s = [0%nat] /\ value_of s = 0%nat.
Proof. by vm_compute. Qed.

(** A semaphore that is freed while its counter is not 0 leaves a child behind
    for ever: the child has itself the other end of the pipe it writes to. *)
Lemma freed_leaves_child :
  let sched := [User 0; User 0; User 0; Daemon; Daemon; Daemon; Daemon; Helper 0; User 0; User 0; Daemon; Daemon] in
  let s := (sem_run sched (esem_new 1 Leave)).1 in
  users s = [UGone] /\ daemon s = DGone /\ helpers s = [HWriting] /\ forall p, sem_step p s = None.
Proof.
  vm_compute. split_and!; [done..|]. intros [[|i]| |[|j]]; done.
Qed.

(** When [esem_new] fails, the pipes it has opened are closed again. *)
Lemma failed_new_closes value p1 p2 m :
  (esem_new_opens value p1 p2 m).1 = false -> (esem_new_opens value p1 p2 m).2 = [].
Proof. unfold esem_new_opens. by destruct (value <? 0), p1, p2, m. Qed.
