(* ===== verification/UserFs.v ===== *)
(** * UserFs

    What the file systems in user space share: the request they get from
    [_sys_fs_wait] ([src/src/libk/include/camellia/types.h]) and the listing of
    a directory ([src/src/libc/fs/dir.c]).

    A listing is the concatenation of the entries' names, each with its
    terminator; [struct dirbuild] writes the part of it from an offset on.  The
    theorem says so: a directory that is read in pieces reads as one list. *)

From S2P Require Import Prelude Monad Mem Printf CString NetUtil KState Stdio.

(** [struct ufs_request] *)
Record ufs_request := mkUfs {
  q_op : vfs_op;
  q_len : Z;
  q_capacity : Z;
  q_id : ptr;
  q_offset : Z;
  q_flags : Z;
}.

(** ** Listings *)

Record dirbuild := mkDb {
  db_offset : Z;
  db_buf : option (list Z);
  db_bpos : Z;
  db_blen : Z;
  db_error : Z;
}.
#[export] Instance dirbuild_settable : Settable dirbuild := fun d =>
  mkDb (db_offset d) (db_buf d) (db_bpos d) (db_blen d) (db_error d).

Definition dir_start (offset : Z) (buf : option (list Z)) (buflen : Z) : dirbuild :=
  mkDb offset buf 0 buflen (if offset <? 0 then - ENOSYS else 0).

(** [name] is the object the pointer points into; the answer says whether to
    stop.  There is no check against the end of the buffer: writing behind it
    is undefined. *)
Definition dir_appendl (db : dirbuild) (name : list Z) (len : Z) : res (dirbuild * bool) :=
  if negb (db_error db =? 0) then Ok (db, true)
  else if LONG_MAX <? len then Ok (db <| db_error := -1 |>, true)
  else
    let len := len + 1 in
    if db_offset db <? len then
      let len' := len - db_offset db in
      text ← fetch name (db_offset db) (match db_buf db with Some _ => len' - 1 | None => 0 end);
      buf ← match db_buf db with
            | Some buf => b ← store buf (db_bpos db) (text ++ [0]); Ok (Some b)
            | None => Ok None
            end;
      Ok (db <| db_buf := buf |> <| db_bpos := db_bpos db + len' |> <| db_offset := 0 |>, false)
    else Ok (db <| db_offset := db_offset db - len |>, false).

Definition dir_append (db : dirbuild) (name : list Z) : res (dirbuild * bool) :=
  len ← strlen name; dir_appendl db name len.

Definition dir_finish (db : dirbuild) : Z :=
  if db_error db =? 0 then db_bpos db else db_error db.

(** The listing of another directory behind this one; [ret] is an [int]. *)
Definition dir_append_from {K} `{Sys K} (db : dirbuild) (h : Z) : ST K Empty_set (dirbuild * bool) := fun k =>
  if negb (db_error db =? 0) then Val (db, true) k
  else if is_some (db_buf db) && (db_bpos db =? db_blen db) then Val (db, false) k
  else
    let size k :=
      let '(ret, k) := sys_getsize h k in
      let ret := s32 ret in
      if ret <? 0 then Val (db <| db_error := ret |>, true) k
      else if db_offset db <? ret then
        Val (db <| db_bpos := db_bpos db + (ret - db_offset db) |> <| db_offset := 0 |>, false) k
      else Val (db <| db_offset := db_offset db - ret |>, false) k in
    match db_buf db with
    | None => size k
    | Some buf =>
        let '(ret, bytes, k) := sys_read h (db_blen db - db_bpos db) (db_offset db) k in
        let ret := s32 ret in
        if ret <? 0 then Val (db <| db_error := ret |>, true) k
        else if 0 <? ret then
          match store buf (db_bpos db) bytes with
          | Ok buf => Val (db <| db_buf := Some buf |> <| db_offset := 0 |>
                              <| db_bpos := db_bpos db + ret |>, false) k
          | Err x => Fault x
          end
        else size k
    end.

(** Appending the names of a list, until one says stop. *)
Fixpoint dir_append_all (db : dirbuild) (names : list (list Z)) : res dirbuild :=
  match names with
  | [] => Ok db
  | n :: names => '(db, _) ← dir_appendl db n (Z.of_nat (length n)); dir_append_all db names
  end.

(** ** What a listing is *)

Definition listing (names : list (list Z)) : list Z := mjoin ((fun n => n ++ [0]) <$> names).

Lemma listing_cons n names : listing (n :: names) = (n ++ [0]) ++ listing names.
Proof. reflexivity. Qed.

(** The buffer with [l] put where the listing has got to. *)
Definition put_at (pos : Z) (l : list Z) (buf : option (list Z)) : option (list Z) :=
  splice (Z.to_nat pos) l <$> buf.

Definition room (pos : Z) (l : list Z) (buf : option (list Z)) : Prop :=
  match buf with Some b => pos + Z.of_nat (length l) <= Z.of_nat (length b) | None => True end.

Lemma splice_app {A} (i : nat) (a b : list A) l :
  (i + length a + length b <= length l)%nat ->
  splice (i + length a) b (splice i a l) = splice i (a ++ b) l.
Proof.
  intros Hl. unfold splice. assert (Ht : length (take i l) = i) by (rewrite length_take; lia).
  rewrite !app_assoc. rewrite (take_app_le _ _ (i + length a)) by (rewrite length_app; lia).
  rewrite (take_ge (take i l ++ a)) by (rewrite length_app; lia).
  rewrite <- !app_assoc. do 3 f_equal.
  rewrite length_app, drop_app_ge by lia. rewrite drop_app_ge by lia. rewrite drop_drop. f_equal. lia.
Qed.

Lemma put_at_app pos a b buf :
  0 <= pos -> room pos (a ++ b) buf ->
  put_at (pos + Z.of_nat (length a)) b (put_at pos a buf) = put_at pos (a ++ b) buf.
Proof.
  intros Hp Hr. destruct buf as [l|]; [|done]. cbn in *. rewrite length_app in Hr. f_equal.
  rewrite Z2Nat.inj_add, Nat2Z.id by lia. apply splice_app. lia.
Qed.

(** One entry: the part of it from the offset on. *)
Lemma dir_appendl_spec db n :
  db_error db = 0 -> 0 <= db_offset db -> 0 <= db_bpos db -> Z.of_nat (length n) <= LONG_MAX ->
  let l := drop (Z.to_nat (db_offset db)) (n ++ [0]) in
  room (db_bpos db) l (db_buf db) ->
  dir_appendl db n (Z.of_nat (length n)) =
    Ok (mkDb (Z.max 0 (db_offset db - Z.of_nat (length (n ++ [0])))) (put_at (db_bpos db) l (db_buf db))
          (db_bpos db + Z.of_nat (length l)) (db_blen db) 0, false).
Proof.
  intros He Ho Hp Hn l Hr. destruct db as [off buf bpos blen err]. cbn in He, Ho, Hp, l, Hr. subst err.
  unfold dir_appendl. cbn [db_error db_offset db_buf db_bpos db_blen Z.eqb negb].
  rewrite (proj2 (Z.ltb_ge _ _)) by done. rewrite length_app. cbn [length].
  destruct (off <? Z.of_nat (length n) + 1) eqn:E; zbool.
  - assert (Hl : l = drop (Z.to_nat off) n ++ [0]) by (unfold l; rewrite drop_app_le by lia; done).
    assert (Hll : Z.of_nat (length l) = Z.of_nat (length n) + 1 - off)
      by (rewrite Hl, length_app, length_drop; cbn; lia).
    assert (Hoff : Z.max 0 (off - Z.of_nat (length n + 1)) = 0) by lia. rewrite Hoff, Hll.
    destruct buf as [b|]; cbn in Hr |- *.
    + unfold fetch. rewrite (proj2 (Z.leb_le _ _)) by lia. cbn [mbind res_bind].
      rewrite take_ge by (rewrite length_drop; lia). rewrite <- Hl.
      unfold store. rewrite (proj2 (Z.leb_le _ _)) by lia. done.
    + unfold fetch. rewrite (proj2 (Z.leb_le _ _)) by lia. done.
  - assert (Hl : l = []) by (unfold l; apply drop_ge; rewrite length_app; cbn; lia).
    rewrite Hl. cbn [length]. unfold set; cbn. rewrite Z.add_0_r. do 2 f_equal.
    f_equal; [lia|]. destruct buf as [b|]; [|done]. cbn. unfold splice. cbn.
    by rewrite Nat.add_0_r, take_drop.
Qed.

Lemma room_app pos a b buf : room pos (a ++ b) buf -> room pos a buf.
Proof. destruct buf; cbn; [rewrite length_app; lia|done]. Qed.

Lemma dir_append_all_spec names : forall db,
  db_error db = 0 -> 0 <= db_offset db -> 0 <= db_bpos db ->
  Forall (fun n => Z.of_nat (length n) <= LONG_MAX) names ->
  let l := drop (Z.to_nat (db_offset db)) (listing names) in
  room (db_bpos db) l (db_buf db) ->
  exists db', dir_append_all db names = Ok db' /\ db_error db' = 0 /\
    db_bpos db' = db_bpos db + Z.of_nat (length l) /\ db_buf db' = put_at (db_bpos db) l (db_buf db).
Proof.
  induction names as [|n names IH]; intros db He Ho Hp Hn l Hr.
  - exists db. unfold l. cbn. rewrite drop_nil. cbn. rewrite Z.add_0_r. split; [done|].
    split; [done|]. split; [done|]. destruct (db_buf db) as [b|]; [|done]. cbn. unfold splice. cbn.
    by rewrite Nat.add_0_r, take_drop.
  - apply Forall_cons in Hn as [Hn1 Hn].
    assert (Hl : l = drop (Z.to_nat (db_offset db)) (n ++ [0]) ++
                 drop (Z.to_nat (db_offset db) - length (n ++ [0])) (listing names)).
    { unfold l. by rewrite listing_cons, drop_app. }
    set (l1 := drop _ (n ++ [0])) in Hl. set (l2 := drop _ (listing names)) in Hl.
    rewrite Hl in Hr. cbn [dir_append_all].
    rewrite (dir_appendl_spec db n) by (done || exact (room_app _ _ _ _ Hr)). fold l1.
    cbn [mbind res_bind].
    set (off' := Z.max 0 (db_offset db - Z.of_nat (length (n ++ [0])))).
    destruct (IH (mkDb off' (put_at (db_bpos db) l1 (db_buf db)) (db_bpos db + Z.of_nat (length l1))
                    (db_blen db) 0)) as (db'&E&He'&Hb&Hbuf); cbn; try done; try lia.
    + unfold off'. replace (Z.to_nat (Z.max 0 _)) with (Z.to_nat (db_offset db) - length (n ++ [0%Z]))%nat by lia.
      fold l2. destruct (db_buf db) as [b|]; [|done]. cbn in *.
      rewrite length_app in Hr. rewrite length_splice by lia. lia.
    + cbn in Hb, Hbuf. unfold off' in *.
      replace (Z.to_nat (Z.max 0 _)) with (Z.to_nat (db_offset db) - length (n ++ [0%Z]))%nat in * by lia.
      fold l2 in Hb, Hbuf. exists db'. split; [done|]. split; [done|].
      rewrite Hl. split; [rewrite length_app; lia|]. rewrite Hbuf. by apply put_at_app.
Qed.

(** a directory listing read from an offset is the listing from that offset
    on.  [dir_start] with a non-negative offset, [dir_appendl] of any names and
    [dir_finish] answer the number of bytes of the whole listing (the names in
    order, each with a terminator) behind the offset, and put exactly those
    bytes at the start of the buffer, if there is one; it has to have room for
    them.  So reads that continue where the last one ended give the whole
    listing, even if they cut a name in two. *)
Theorem dir_listing offset buf buflen names :
  0 <= offset -> Forall (fun n => Z.of_nat (length n) <= LONG_MAX) names ->
  let l := drop (Z.to_nat offset) (listing names) in
  room 0 l buf ->
  exists db, dir_append_all (dir_start offset buf buflen) names = Ok db /\
    dir_finish db = Z.of_nat (length l) /\ db_buf db = put_at 0 l buf.
Proof.
  intros Ho Hn l Hr.
  destruct (dir_append_all_spec names (dir_start offset buf buflen)) as (db&E&He&Hb&Hbuf);
    cbn; try done; try lia.
  - by rewrite (proj2 (Z.ltb_ge _ _)) by lia.
  - exists db. split; [done|]. unfold dir_finish. by rewrite He, Hb, Hbuf.
Qed.

(** From the third byte on: "ne", "two". *)
Lemma dir_listing_witness :
  exists db, dir_append_all (dir_start 1 (Some (replicate 10 63)) 10) [[111; 110; 101]; [116; 119; 111]] = Ok db /\
    dir_finish db = 7 /\ db_buf db = Some [110; 101; 0; 116; 119; 111; 0; 63; 63; 63].
Proof.
  destruct (dir_listing 1 (Some (replicate 10 63)) 10 [[111; 110; 101]; [116; 119; 111]])
    as (db&E&Hf&Hb); [lia|decide_now|apply Z.leb_le; reflexivity|].
  exists db. split; [exact E|]. split; [exact Hf|exact Hb].
Defined.
