(* ===== verification/Ext2fs.v ===== *)
(** * Ext2fs

    The ext2 file system server ([src/src/cmd/ext2fs/main.c]).  The library that
    knows the format of the disk is not part of the repository; it is the
    interface [Ext2], whose functions may answer anything.  What the server owes
    it is to give back every block that it borrows from the cache; what it owes
    the kernel is one answer to each request. *)

From S2P Require Import Prelude Monad Mem FsUtil Printf CString NetUtil KState Stdio UserFs.

(** An entry of a directory, as the iterator gives it. *)
Record dirent := mkDirent { e_name : list Z; e_type : Z }.

(** Pointers into the cache are positives; [f] is what the library keeps. *)
Class Ext2 (F : Type) := {
  ext2c_walk : list Z -> F -> Z * F;
  ext2_alloc_inode : Z -> F -> Z * F;
  ext2_link : Z -> list Z -> Z -> Z -> F -> Z * F;
  ext2_req_inode : Z -> F -> option positive * F;
  inode_perms : positive -> F -> Z;
  inode_size_lower : positive -> F -> Z;
  set_size_lower : positive -> Z -> F -> F;
  ext2_req_file : Z -> Z -> Z -> F -> option positive * Z * F;     (* node, length, offset; the new length *)
  block_bytes : positive -> F -> list Z;
  ext2_dropreq : positive -> bool -> F -> Z * F;
  (* the iterator over a directory, [{0}] at first: its next entry and itself, and
     the block of the cache that it holds *)
  diriter : Type;
  diriter0 : diriter;
  ext2_diriter : diriter -> Z -> F -> option dirent * diriter * F;
  diriter_block : diriter -> option positive;
  ext2_write : Z -> list Z -> Z -> F -> Z * F;
  e_malloc : F -> bool;
}.

(** What an answer carries. *)
Inductive e_reply := ENull | EBytes (b : list Z) | EId (h : positive).

Inductive e_event :=
| Borrowed (p : positive)
| Returned (p : positive) (dirty : bool)
| Answered (reqh : Z) (r : e_reply) (ret : Z).

(** [struct handle] *)
Record handle := mkHandle { h_n : Z; h_dir : bool }.

Record e2fs (F : Type) := mkE2fs {
  fs : F;
  e_handles : gmap positive handle;
  e_next : positive;
  e_trace : list e_event;
}.
Arguments mkE2fs {F}.
Arguments fs {F}.
Arguments e_handles {F}.
Arguments e_next {F}.
Arguments e_trace {F}.
#[export] Instance e2fs_settable F : Settable (e2fs F) := fun s =>
  mkE2fs (fs s) (e_handles s) (e_next s) (e_trace s).

Section server.
(** [turns] bounds the number of turns over a directory. *)
Context {F : Type} `{Ext2 F} (turns : nat).

Local Abbreviation E := (ST (e2fs F) Empty_set).

Definition ecall {A} (g : F -> A * F) : E A := fun s =>
  let '(a, f) := g (fs s) in Val a (s <| fs := f |>).
Definition emit (e : e_event) : E () := modify (set e_trace (fun l => l ++ [e])).
Definition respond (reqh : Z) (r : e_reply) (ret : Z) : E () := emit (Answered reqh r ret).

(** The library's borrowing and returning. *)
Definition borrowing (p : option positive) : list e_event :=
  match p with Some p => [Borrowed p] | None => [] end.

Definition req_inode (n : Z) : E (option positive) :=
  p ← ecall (ext2_req_inode n);
  match p with Some p => emit (Borrowed p) | None => mret () end;;
  mret p.

Definition req_file (n len off : Z) : E (option positive * Z) :=
  '(p, len) ← ecall (ext2_req_file n len off);
  match p with Some p => emit (Borrowed p) | None => mret () end;;
  mret (p, len).

Definition dropreq (p : positive) (dirty : bool) : E Z :=
  emit (Returned p dirty);; ecall (ext2_dropreq p dirty).

Definition rd_handle (p : positive) : E handle := s ← get_; deref (e_handles s !! p).

(** [malloc] and the fields. *)
Definition new_handle (h : handle) : E (option positive) := fun s =>
  if e_malloc (fs s) then
    let p := e_next s in
    Val (Some p) (s <| e_handles ::= <[p := h]> |> <| e_next := Pos.succ p |>)
  else Val None s.

(** ** Opening *)

(** The new node of a path that was not found, or what to answer instead. *)
Definition do_create (buf : list Z) : E (Z + Z) :=
  tail ← lift (strrchr buf 47);
  tail ← deref tail;
  let name := drop 1 tail in
  dir_n ← ecall (ext2c_walk (take (length buf - length name) buf));
  if dir_n =? 0 then mret (inr (- ENOENT))
  else
    n ← ecall (ext2_alloc_inode 0x81C0);           (* 0100700 *)
    if n =? 0 then mret (inr (-1))
    else
      ret ← ecall (ext2_link dir_n name n 1);
      if ret <? 0 then mret (inr (-1)) else mret (inl n).

(** The checks on a node that was found. *)
Definition check_found (n : Z) (is_dir : bool) : E (Z + Z) :=
  inode ← req_inode n;
  match inode with
  | None => mret (inr (- ENOENT))
  | Some inode =>
      s ← get_;
      let type := Z.land (Z.shiftr (inode_perms inode (fs s)) 12) 0xF in
      _ ← dropreq inode false;
      if ((type =? 0x8) && is_dir) || ((type =? 0x4) && negb is_dir) then mret (inr (- ENOENT))
      else if negb (type =? 0x8) && negb (type =? 0x4) then mret (inr (- ENOSYS))
      else mret (inl n)
  end.

(** [buf] is the buffer of the server: the path, its terminator, and what was
    there before. *)
Definition do_open (reqh : Z) (q : ufs_request) (buf : list Z) : E () :=
  path ← lift (fetch buf 0 (q_len q));
  let is_dir := bool_decide (path = []) || bool_decide (last path = Some 47) in
  n ← ecall (ext2c_walk path);
  r ← (if n =? 0 then if is_dir then mret (inr (- ENOSYS)) else do_create buf
       else check_found n is_dir);
  match r with
  | inr e => respond reqh ENull e
  | inl n =>
      h ← new_handle (mkHandle n is_dir);
      match h with
      | None => respond reqh ENull (-1)
      | Some h => respond reqh (EId h) 0
      end
  end.

(** ** Reading and writing *)

(** [.] and [..] are not listed; directories get a slash, in a buffer with room
    for it: the length of a name is a byte. *)
Definition is_dots (e : dirent) : bool := bool_decide (e_name e = [46]) || bool_decide (e_name e = [46; 46]).
Definition entry_name (e : dirent) : list Z := if e_type e =? 2 then e_name e ++ [47] else e_name e.

Definition returning (p : option positive) : list e_event :=
  match p with Some p => [Returned p false] | None => [] end.

(** A turn of the iterator, which may go on to another block. *)
Definition next_entry (it : diriter) (n : Z) : E (option dirent * diriter) :=
  '(ent, it') ← ecall (ext2_diriter it n);
  (if decide (diriter_block it = diriter_block it') then mret ()
   else modify (set e_trace (fun l => l ++ returning (diriter_block it) ++ borrowing (diriter_block it'))));;
  mret (ent, it').

Definition list_turn (n : Z) (x : diriter * dirbuild) : E (diriter * dirbuild + dirbuild) :=
  let '(it, db) := x in
  '(ent, it) ← next_entry it n;
  match ent with
  | None => mret (inr db)
  | Some e =>
      if is_dots e then mret (inl (it, db))
      else
        '(db, _) ← lift (dir_appendl db (entry_name e) (Z.of_nat (length (entry_name e))));
        mret (inl (it, db))
  end.

Definition buflen : Z := 4096.
Definition ENAMETOOLONG : Z := 201.

Definition do_read (reqh : Z) (q : ufs_request) (buf : list Z) : E () :=
  h ← rd_handle (q_id q);
  if negb (h_dir h) then
    inode ← req_inode (h_n h);
    match inode with
    | None => respond reqh ENull (-1)
    | Some inode =>
        s ← get_;
        '(off, cap) ← lift (fs_normslice (q_offset q) (q_capacity q) (inode_size_lower inode (fs s)) false);
        _ ← dropreq inode false;
        '(b, cap) ← req_file (h_n h) cap off;
        match b with
        | Some b =>
            s ← get_;
            respond reqh (EBytes (take (Z.to_nat cap) (block_bytes b (fs s)))) cap;;
            _ ← dropreq b false;
            mret ()
        | None => if cap =? 0 then respond reqh ENull 0 else respond reqh ENull (-1)
        end
    end
  else
    db ← iter turns (list_turn (h_n h)) (diriter0, dir_start (q_offset q) (Some buf) buflen);
    respond reqh (EBytes (take (Z.to_nat (dir_finish db)) (default [] (db_buf db)))) (dir_finish db).

(** [size_lower] has 32 bits. *)
Definition do_write (reqh : Z) (q : ufs_request) (buf : list Z) : E () :=
  h ← rd_handle (q_id q);
  if h_dir h then respond reqh ENull (-1)
  else
    inode ← req_inode (h_n h);
    match inode with
    | None => respond reqh ENull (-1)
    | Some inode =>
        s ← get_;
        let size := inode_size_lower inode (fs s) in
        '(off, len) ← lift (fs_normslice (q_offset q) (q_len q) size true);
        ok ← (if negb (Z.land (q_flags q) WRITE_TRUNCATE =? 0) || (size <? u64 (off + len)) then
                modify (set fs (set_size_lower inode (u32 (off + len))));;
                ret ← dropreq inode true;
                mret (0 <=? ret)
              else _ ← dropreq inode false; mret true);
        if (ok : bool) then
          data ← lift (fetch buf 0 len);
          ret ← ecall (ext2_write (h_n h) data off);
          respond reqh ENull (s32 ret)
        else respond reqh ENull (-1)
    end.

Definition do_getsize (reqh : Z) (q : ufs_request) : E () :=
  h ← rd_handle (q_id q);
  if h_dir h then respond reqh ENull (-1)
  else
    inode ← req_inode (h_n h);
    match inode with
    | None => respond reqh ENull (-1)
    | Some inode =>
        s ← get_;
        respond reqh ENull (inode_size_lower inode (fs s));;
        _ ← dropreq inode false;
        mret ()
    end.

(** A turn of [main]'s loop, with the buffer that [ufs_wait] has filled. *)
Definition e2_request (buf : list Z) (reqh : Z) (q : ufs_request) : E () :=
  match q_op q with
  | VFSOP_OPEN =>
      if q_len q =? buflen then respond reqh ENull (- ENAMETOOLONG)
      else
        buf ← lift (store buf (q_len q) [0]);
        do_open reqh q buf
  | VFSOP_READ => do_read reqh q buf
  | VFSOP_WRITE => do_write reqh q buf
  | VFSOP_GETSIZE => do_getsize reqh q
  | VFSOP_CLOSE =>
      _ ← rd_handle (q_id q);
      modify (set e_handles (delete (q_id q)));;
      respond reqh ENull (-1)
  | VFSOP_REMOVE => respond reqh ENull (-1)
  end.
End server.

(** ** The disk

    How the library reads and writes it: through the stream that [main] opens. *)

Definition my_read {K} `{Sys K} (fp : positive) (len off : Z) : ST (stdio K) Empty_set (Z * list Z) :=
  ret ← fseek fp off SEEK_SET;
  if ret <? 0 then mret (-1, [])
  else
    '(data, n) ← fread len 1 fp;
    if n =? 1 then mret (0, data) else mret (-1, data).

Definition my_write {K} `{Sys K} (fp : positive) (buf : list Z) (off : Z) : ST (stdio K) Empty_set Z :=
  ret ← fseek fp off SEEK_SET;
  if ret <? 0 then mret (-1)
  else
    n ← fwrite buf (Z.of_nat (length buf)) 1 fp;
    if n =? 1 then mret 0 else mret (-1).

(** ** What the server owes *)

(** Blocks are borrowed one at a time; [None] if one is returned that was not
    borrowed, or a second one is borrowed. *)
Fixpoint lent (out : option positive) (evs : list e_event) : option (option positive) :=
  match evs with
  | [] => Some out
  | Borrowed p :: evs => match out with None => lent (Some p) evs | Some _ => None end
  | Returned p _ :: evs => if decide (out = Some p) then lent None evs else None
  | Answered _ _ _ :: evs => lent out evs
  end.

Fixpoint answers (evs : list e_event) : list Z :=
  match evs with
  | [] => []
  | Answered reqh _ _ :: evs => reqh :: answers evs
  | _ :: evs => answers evs
  end.

Definition settled (reqh : Z) (evs : list e_event) : Prop := lent None evs = Some None /\ answers evs = [reqh].

(** The entries of a directory, if there are less than [k]. *)
Fixpoint entries {F} `{Ext2 F} (k : nat) (it : diriter) (n : Z) (f : F) : option (list dirent) :=
  match k with
  | O => None
  | S k =>
      match ext2_diriter it n f with
      | (None, _, _) => Some []
      | (Some e, it, f) => cons e <$> entries k it n f
      end
  end.

Definition entry_names (ents : list dirent) : list (list Z) :=
  entry_name <$> List.filter (fun e => negb (is_dots e)) ents.

(** The requests that the kernel makes; reading a directory needs room for what is
    left of the listing, and a path an end inside the buffer. *)
Definition req_ok {F} `{Ext2 F} (turns : nat) (buf : list Z) (q : ufs_request) (s : e2fs F) : Prop :=
  length buf = Z.to_nat buflen /\ - 2 ^ 63 <= q_offset q < 2 ^ 63 /\
  match q_op q with
  | VFSOP_OPEN => head buf = Some 47 /\ 0 < q_len q /\ (q_len q < buflen - 1 \/ q_len q = buflen)
  | VFSOP_READ => exists h, e_handles s !! q_id q = Some h /\ is_size (q_capacity q) /\
      (h_dir h = true -> 0 <= q_offset q /\
        exists ents, entries turns diriter0 (h_n h) (fs s) = Some ents /\
          Forall (fun e => Z.of_nat (length (entry_name e)) <= LONG_MAX) ents /\
          Z.of_nat (length (listing (entry_names ents))) - q_offset q <= buflen)
  | VFSOP_WRITE => is_Some (e_handles s !! q_id q) /\ 0 <= q_len q <= buflen
  | VFSOP_GETSIZE | VFSOP_CLOSE => is_Some (e_handles s !! q_id q)
  | VFSOP_REMOVE => True
  end.

Section proofs.
Context {F : Type} `{Ext2 F} (turns : nat).
Local Abbreviation E := (ST (e2fs F) Empty_set).

(** The computation adds events of which [P] holds. *)
Definition adds {A} (P : A -> list e_event -> Prop) (s : e2fs F) (a : A) (s' : e2fs F) : Prop :=
  exists evs, e_trace s' = e_trace s ++ evs /\ P a evs.

Lemma adds_ret {A} (a : A) s (P : A -> list e_event -> Prop) : P a [] -> runs (E := Empty_set) (mret a) s (adds P s).
Proof. intros HP. apply runs_ret. exists []. by rewrite app_nil_r. Qed.

Lemma adds_bind {A B} (m : E A) (f : A -> E B) s P (Q : B -> list e_event -> Prop) :
  runs m s (adds P s) ->
  (forall a evs s', P a evs -> runs (f a) s' (adds (fun b evs' => Q b (evs ++ evs')) s')) ->
  runs (m ≫= f) s (adds Q s).
Proof.
  intros Hm Hf. apply runs_bind. eapply runs_mono; [exact Hm|]. intros a s1 (evs&E1&HP).
  eapply runs_mono; [by apply (Hf a evs)|]. intros b s2 (evs'&E2&HQ). exists (evs ++ evs').
  by rewrite E2, E1, app_assoc.
Qed.

Lemma adds_emit e s (P : () -> list e_event -> Prop) : P () [e] -> runs (emit e) s (adds P s).
Proof. intros HP. apply runs_modify. by exists [e]. Qed.

Lemma adds_ecall {A} (g : F -> A * F) s (P : A -> list e_event -> Prop) :
  (forall f, P (g f).1 []) -> runs (ecall g) s (adds P s).
Proof.
  intros HP. unfold runs, ecall. specialize (HP (fs s)). destruct (g (fs s)) as [a f]. exists [].
  split; [cbn; by rewrite app_nil_r|done].
Qed.

Lemma adds_get {A} (f : e2fs F -> E A) s (P : A -> list e_event -> Prop) :
  runs (f s) s (adds P s) -> runs (x ← get_; f x) s (adds P s).
Proof. intros Hf. by apply runs_bind, runs_get. Qed.

Lemma adds_mono {A} (m : E A) s (P Q : A -> list e_event -> Prop) :
  runs m s (adds P s) -> (forall a evs, P a evs -> Q a evs) -> runs m s (adds Q s).
Proof. intros Hm HPQ. eapply runs_mono; [exact Hm|]. intros a s' (evs&E1&HP). exists evs. auto. Qed.

Lemma borrow_adds {A} (p : option positive) (a : A) s :
  runs (match p with Some p => emit (Borrowed p) | None => mret () end;; mret a) s
    (adds (fun a' evs => a' = a /\ evs = borrowing p) s).
Proof.
  apply adds_bind with (P := fun _ evs => evs = borrowing p).
  - destruct p; [by apply adds_emit|by apply adds_ret].
  - intros [] evs s' ->. apply adds_ret. by rewrite app_nil_r.
Qed.

Lemma req_inode_adds n s : runs (req_inode n) s (adds (fun p evs => evs = borrowing p) s).
Proof.
  unfold req_inode. apply adds_bind with (P := fun _ evs => evs = []); [by apply adds_ecall|].
  intros p evs s' ->. eapply adds_mono; [apply borrow_adds|]. by intros p' evs' [-> ->].
Qed.

Lemma req_file_adds n len off s : runs (req_file n len off) s (adds (fun r evs => evs = borrowing r.1) s).
Proof.
  unfold req_file. apply adds_bind with (P := fun _ evs => evs = []); [by apply adds_ecall|].
  intros [p len'] evs s' ->. eapply adds_mono; [apply borrow_adds|]. by intros p' evs' [-> ->].
Qed.

Lemma dropreq_adds p dirty s : runs (dropreq p dirty) s (adds (fun _ evs => evs = [Returned p dirty]) s).
Proof.
  unfold dropreq. apply adds_bind with (P := fun _ evs => evs = [Returned p dirty]); [by apply adds_emit|].
  intros [] evs s' ->. by apply adds_ecall.
Qed.

(** What a request that is finished leaves. *)
Lemma answer_adds reqh r ret s (P : () -> list e_event -> Prop) :
  P () [Answered reqh r ret] -> runs (respond reqh r ret) s (adds P s).
Proof. apply adds_emit. Qed.

Lemma lent_app_out out mid l1 l2 : lent out l1 = Some mid -> lent out (l1 ++ l2) = lent mid l2.
Proof.
  revert out. induction l1 as [|e l1 IH]; intros out; cbn [lent app].
  - by intros [= ->].
  - destruct e; [destruct out; [done|]|case_decide; [|done]|]; apply IH.
Qed.

Lemma lent_app l1 l2 : lent None l1 = Some None -> lent None (l1 ++ l2) = lent None l2.
Proof. apply lent_app_out. Qed.

Lemma answers_app l1 l2 : answers (l1 ++ l2) = answers l1 ++ answers l2.
Proof. induction l1 as [|[]]; cbn; congruence. Qed.

(** Borrowing and returning before the answer. *)
Definition quiet (evs : list e_event) : Prop := lent None evs = Some None /\ answers evs = [].

Lemma settled_after reqh evs evs' : quiet evs -> settled reqh evs' -> settled reqh (evs ++ evs').
Proof. intros [H1 H2] [H3 H4]. split; [by rewrite lent_app|by rewrite answers_app, H2]. Qed.

Lemma quiet_nil : quiet [].
Proof. done. Qed.

#[local] Hint Resolve quiet_nil : core.

Lemma quiet_pair p d : quiet [Borrowed p; Returned p d].
Proof. split; [cbn; by rewrite decide_True|done]. Qed.

Lemma settled_answer reqh r ret : settled reqh [Answered reqh r ret].
Proof. done. Qed.

Lemma quiet_then {A} (m : E A) (f : A -> E ()) reqh s :
  runs m s (adds (fun _ evs => quiet evs) s) -> (forall a s', runs (f a) s' (adds (fun _ evs => settled reqh evs) s')) ->
  runs (m ≫= f) s (adds (fun _ evs => settled reqh evs) s).
Proof.
  intros Hm Hf. eapply adds_bind; [exact Hm|]. intros a evs s' Hq. eapply adds_mono; [apply Hf|].
  intros b evs' Hs. by apply settled_after.
Qed.

Lemma check_found_quiet n d s : runs (check_found n d) s (adds (fun _ evs => quiet evs) s).
Proof.
  unfold check_found. eapply adds_bind; [apply req_inode_adds|]. intros [p|] evs s1 ->; [|by apply adds_ret].
  apply adds_get. eapply adds_bind; [apply dropreq_adds|]. intros x evs s2 ->.
  repeat case_match; apply adds_ret; rewrite app_nil_r; apply quiet_pair.
Qed.

Lemma strlen_before s k : s !! k = Some 0 -> exists n, strlen s = Ok n /\ 0 <= n <= Z.of_nat k.
Proof.
  revert k; induction s as [|c s IH]; intros k Hk; [done|]. cbn [strlen].
  destruct (Z.eqb_spec c 0) as [->|Hc]; [exists 0; split; [done|lia]|].
  destruct k as [|k]; [cbn in Hk; congruence|]. destruct (IH k Hk) as (n&E1&Hn). rewrite E1. exists (n + 1).
  split; [cbn; f_equal; lia|lia].
Qed.

Lemma strrchr_from_head s i : head s = Some 47 -> (i < length s)%nat ->
  exists t, strrchr_from s 47 i = Ok (Some t).
Proof.
  intros Hs. induction i as [|i IH]; intros Hi; cbn [strrchr_from].
  - destruct s as [|c s]; [done|]. injection Hs as ->. by eexists.
  - destruct (s !! S i) eqn:E0; [|apply lookup_ge_None in E0; lia]. case_match; [by eexists|]. apply IH. lia.
Qed.

(** The path in the buffer of the server has a last slash. *)
Lemma path_slash buf len : head buf = Some 47 -> 0 < len -> len < Z.of_nat (length buf) - 1 ->
  exists buf' t, store buf len [0] = Ok buf' /\ length buf' = length buf /\ strrchr buf' 47 = Ok (Some t).
Proof.
  intros Hh H0 Hlen. destruct buf as [|c buf]; [done|]. injection Hh as ->. unfold store. cbn [length] in *.
  rewrite (proj2 (Z.leb_le _ _)) by lia. eexists. unfold strrchr.
  assert (length (splice (Z.to_nat len) [0] (47 :: buf)) = S (length buf)) as Hl.
  { unfold splice. rewrite !length_app, length_take, length_drop. cbn. lia. }
  destruct (strlen_before (splice (Z.to_nat len) [0] (47 :: buf)) (Z.to_nat len)) as (n&E1&Hn).
  { unfold splice. rewrite lookup_app_r by (rewrite length_take; cbn; lia). rewrite length_take. cbn [length].
    by replace (Z.to_nat len - _)%nat with 0%nat by lia. }
  destruct (strrchr_from_head (splice (Z.to_nat len) [0] (47 :: buf)) (Z.to_nat (n + 1))) as (t&E2).
  - unfold splice. destruct (Z.to_nat len) eqn:El; [lia|done].
  - lia.
  - exists t. split; [done|]. split; [done|]. rewrite E1. exact E2.
Qed.

Lemma do_create_quiet buf t s : strrchr buf 47 = Ok (Some t) -> runs (do_create buf) s (adds (fun _ evs => quiet evs) s).
Proof.
  intros Ht. unfold do_create. apply runs_bind. eapply runs_lift; [exact Ht|]. apply runs_bind. cbn [deref].
  apply runs_ret. eapply adds_bind; [by apply (adds_ecall _ _ (fun _ evs => evs = []))|]. intros dir evs s1 ->.
  case_match; [by apply adds_ret|].
  eapply adds_bind; [by apply (adds_ecall _ _ (fun _ evs => evs = []))|]. intros n evs s2 ->. case_match; [by apply adds_ret|].
  eapply adds_bind; [by apply (adds_ecall _ _ (fun _ evs => evs = []))|]. intros ret evs s3 ->.
  case_match; by apply adds_ret.
Qed.

Lemma new_handle_adds h s : runs (new_handle h) s (adds (fun _ evs => quiet evs) s).
Proof.
  unfold runs, new_handle. destruct (e_malloc (fs s)); exists []; (split; [|apply quiet_nil]);
    by rewrite app_nil_r.
Qed.

Lemma do_open_settles reqh q buf t s :
  q_len q <= Z.of_nat (length buf) -> strrchr buf 47 = Ok (Some t) ->
  runs (do_open reqh q buf) s (adds (fun _ evs => settled reqh evs) s).
Proof.
  intros Hlen Ht. unfold do_open. apply runs_bind. eapply runs_lift; [apply fetch_in; lia|].
  set (path := take _ _). set (is_dir := _ || _).
  apply quiet_then; [by apply adds_ecall|]. intros n s1.
  apply quiet_then.
  { case_match; [case_match; [by apply adds_ret|by eapply do_create_quiet]|apply check_found_quiet]. }
  intros [n'|e] s2; [|by apply answer_adds]. apply quiet_then.
  { apply new_handle_adds. }
  intros [h|] s3; by apply answer_adds.
Qed.

(** What follows once an inode was borrowed, answered about and returned. *)
Lemma answer_return reqh r ret p dirty s (Q : () -> list e_event -> Prop) :
  Q () [Answered reqh r ret; Returned p dirty] ->
  runs (respond reqh r ret;; _ ← dropreq p dirty; mret ()) s (adds Q s).
Proof.
  intros HQ. apply adds_bind with (P := fun _ evs => evs = [Answered reqh r ret]); [by apply answer_adds|].
  intros [] evs s2 ->. eapply adds_bind; [apply dropreq_adds|]. intros x evs s3 ->. by apply adds_ret.
Qed.

Lemma settled_return reqh r ret p dirty : settled reqh [Borrowed p; Answered reqh r ret; Returned p dirty].
Proof. split; [cbn; by rewrite decide_True|done]. Qed.

Lemma rd_handle_bind {A} p h (f : handle -> E A) s Q :
  e_handles s !! p = Some h -> runs (f h) s Q -> runs (h ← rd_handle p; f h) s Q.
Proof. intros Hh Hf. unfold rd_handle. apply runs_bind, runs_bind, runs_get. by rewrite Hh. Qed.

Lemma size_settles reqh q s : is_Some (e_handles s !! q_id q) ->
  runs (do_getsize reqh q) s (adds (fun _ evs => settled reqh evs) s).
Proof.
  intros [h Hh]. unfold do_getsize. eapply rd_handle_bind; [exact Hh|].
  case_match; [by apply answer_adds|]. eapply adds_bind; [apply req_inode_adds|].
  intros [p|] evs s1 ->; [|by apply answer_adds]. apply adds_get. apply answer_return, settled_return.
Qed.

Hypothesis size_range : forall p f, 0 <= inode_size_lower p f < 2 ^ 32.

Lemma file_read_settles reqh q h buf s :
  e_handles s !! q_id q = Some h -> h_dir h = false -> - 2 ^ 63 <= q_offset q < 2 ^ 63 -> is_size (q_capacity q) ->
  runs (do_read turns reqh q buf) s (adds (fun _ evs => settled reqh evs) s).
Proof.
  intros Hh Hd Ho Hc. unfold do_read. eapply rd_handle_bind; [exact Hh|]. rewrite Hd. cbn [negb].
  eapply adds_bind; [apply req_inode_adds|]. intros [p|] evs s1 ->; [|by apply answer_adds]. apply adds_get.
  pose proof (size_range p (fs s1)) as Hr.
  destruct (fs_normslice_spec (q_offset q) (q_capacity q) (inode_size_lower p (fs s1)) false) as [E1 _];
    [done|done|unfold_words; lia|].
  apply runs_bind. eapply runs_lift; [exact E1|]. destruct (slice_spec _ _ _ _) as [off cap].
  apply adds_bind with (P := fun _ evs => evs = [Returned p false]); [apply dropreq_adds|]. intros x evs s2 ->.
  eapply adds_bind; [apply req_file_adds|]. intros [[b|] cap'] evs s3 ->.
  - apply adds_get, answer_return. apply (settled_after reqh [Borrowed p; Returned p false]); [apply quiet_pair|apply settled_return].
  - case_match; apply answer_adds; apply (settled_after reqh [Borrowed p; Returned p false] [_]); done || apply quiet_pair.
Qed.

(** The iterator gives its block back at the end. *)
Hypothesis diriter_starts : diriter_block diriter0 = None.
Hypothesis diriter_ends : forall it n f it' f', ext2_diriter it n f = (None, it', f') -> diriter_block it' = None.

Lemma next_entry_adds it n s ent it' f' :
  ext2_diriter it n (fs s) = (ent, it', f') ->
  runs (next_entry it n) s (fun r s' => r = (ent, it') /\ fs s' = f' /\
    exists evs, e_trace s' = e_trace s ++ evs /\ lent (diriter_block it) evs = Some (diriter_block it') /\ answers evs = []).
Proof.
  intros E1. unfold next_entry, ecall. apply runs_bind. unfold runs at 1. rewrite E1. cbn iota beta.
  case_decide as Hb.
  - apply runs_bind, runs_ret, runs_ret. split; [done|]. split; [done|]. exists []. rewrite Hb. by rewrite app_nil_r.
  - apply runs_bind, runs_modify, runs_ret. split; [done|]. split; [done|]. eexists. split; [reflexivity|].
    destruct (diriter_block it) as [p|], (diriter_block it') as [p'|]; cbn; rewrite ?decide_True by done; done.
Qed.

(** The loop over a directory: the listing, and every block given back. *)
Lemma list_loop_adds k n : forall it db s ents db',
  entries k it n (fs s) = Some ents -> dir_append_all db (entry_names ents) = Ok db' ->
  runs (iter k (list_turn n) (it, db)) s (fun r s' => r = db' /\
    exists evs, e_trace s' = e_trace s ++ evs /\ lent (diriter_block it) evs = Some None /\ answers evs = []).
Proof.
  induction k as [|k IH]; intros it db s ents db' He Hd; [done|]. cbn [entries] in He. cbn [iter].
  destruct (ext2_diriter it n (fs s)) as [[ent it'] f'] eqn:E1. unfold list_turn at 1.
  apply runs_bind, runs_bind. eapply runs_mono; [by eapply next_entry_adds|].
  intros r s1 (->&Hf&evs&Ht&Hl&Ha). destruct ent as [e|].
  - destruct (entries k it' n f') as [ents'|] eqn:E2; [|done]. injection He as <-. rewrite <- Hf in E2.
    assert (Hgo : forall db1, dir_append_all db1 (entry_names ents') = Ok db' ->
      runs (iter k (list_turn n) (it', db1)) s1 (fun r s' => r = db' /\ exists evs, e_trace s' = e_trace s ++ evs /\
        lent (diriter_block it) evs = Some None /\ answers evs = [])).
    { intros db1 Hdb. eapply runs_mono; [by eapply IH|]. intros r s2 (->&evs2&Ht2&Hl2&Ha2). split; [done|].
      exists (evs ++ evs2). rewrite Ht2, Ht, app_assoc. split; [done|].
      split; [by erewrite lent_app_out|by rewrite answers_app, Ha, Ha2]. }
    unfold entry_names in Hd. cbn [List.filter] in Hd. destruct (is_dots e) eqn:Edots; cbn [negb] in Hd.
    + apply runs_ret. by apply Hgo.
    + cbn [fmap list_fmap dir_append_all] in Hd. apply bind_ok in Hd as ([db1 b]&E3&Hd).
      apply runs_bind. eapply runs_lift; [exact E3|]. cbn iota beta. apply runs_ret. by apply Hgo.
  - apply runs_ret, runs_ret. injection He as <-. split; [by injection Hd|]. exists evs. split; [done|].
    split; [|done]. by rewrite Hl, (diriter_ends _ _ _ _ _ E1).
Qed.

Lemma dir_read_settles reqh q h buf s ents :
  e_handles s !! q_id q = Some h -> h_dir h = true -> 0 <= q_offset q -> length buf = Z.to_nat buflen ->
  entries turns diriter0 (h_n h) (fs s) = Some ents ->
  Forall (fun e => Z.of_nat (length (entry_name e)) <= LONG_MAX) ents ->
  Z.of_nat (length (listing (entry_names ents))) - q_offset q <= buflen ->
  runs (do_read turns reqh q buf) s (adds (fun _ evs => settled reqh evs) s).
Proof.
  intros Hh Hd Ho Hb Hents Hn Hroom. unfold do_read. eapply rd_handle_bind; [exact Hh|]. rewrite Hd. cbn [negb].
  destruct (dir_append_all_spec (entry_names ents) (dir_start (q_offset q) (Some buf) buflen)) as (db&E1&_&_&_).
  - unfold dir_start. cbn. by rewrite (proj2 (Z.ltb_ge _ _)).
  - done.
  - done.
  - unfold entry_names. apply Forall_fmap, Forall_forall. intros e He. rewrite Forall_forall in Hn. apply Hn.
    apply list_elem_of_In in He. apply List.filter_In in He as [He _]. by apply list_elem_of_In.
  - cbn. rewrite length_drop, Hb. unfold buflen in *. lia.
  - apply runs_bind. eapply runs_mono; [by eapply list_loop_adds|]. intros r s1 (->&evs&Ht&Hl&Ha).
    apply runs_modify. exists (evs ++ [Answered reqh (EBytes (take (Z.to_nat (dir_finish db)) (default [] (db_buf db))))
      (dir_finish db)]). cbn. rewrite Ht, app_assoc. split; [done|]. rewrite diriter_starts in Hl.
    apply settled_after; [by split|apply settled_answer].
Qed.

Lemma write_settles reqh q buf s :
  is_Some (e_handles s !! q_id q) -> - 2 ^ 63 <= q_offset q < 2 ^ 63 -> 0 <= q_len q <= buflen ->
  length buf = Z.to_nat buflen ->
  runs (do_write reqh q buf) s (adds (fun _ evs => settled reqh evs) s).
Proof.
  intros [h Hh] Ho Hc Hb. unfold do_write. eapply rd_handle_bind; [exact Hh|].
  case_match; [by apply answer_adds|]. eapply adds_bind; [apply req_inode_adds|].
  intros [p|] evs s1 ->; [|by apply answer_adds]. apply adds_get.
  pose proof (size_range p (fs s1)) as Hr.
  destruct (fs_normslice_spec (q_offset q) (q_len q) (inode_size_lower p (fs s1)) true) as [E1 _];
    [done|unfold buflen in *; unfold_words; lia|unfold_words; lia|].
  apply runs_bind. eapply runs_lift; [exact E1|].
  assert (0 <= (slice_spec (q_offset q) (q_len q) (inode_size_lower p (fs s1)) true).2 <= q_len q) as El
    by (unfold slice_spec; repeat case_match; cbn; lia).
  destruct (slice_spec _ _ _ _) as [off len]. cbn [snd] in El.
  apply adds_bind with (P := fun _ evs => exists d, evs = [Returned p d]).
  - case_match.
    + apply runs_bind, runs_modify. match goal with |- runs _ ?s0 _ => change (runs (ret ← dropreq p true; mret (0 <=? ret)) s0
        (adds (fun _ evs => exists d, evs = [Returned p d]) s0)) end.
      eapply adds_bind; [apply dropreq_adds|]. intros x evs s2 ->. apply adds_ret. by exists true.
    + eapply adds_bind; [apply dropreq_adds|]. intros x evs s2 ->. apply adds_ret. by exists false.
  - intros ok evs s2 [d ->]. change (borrowing (Some p)) with [Borrowed p]. cbn [app].
    apply adds_mono with (P := fun _ evs => settled reqh evs); [|intros [] evs' Hs; apply (settled_after reqh [Borrowed p; Returned p d] evs'); [apply quiet_pair|exact Hs]].
    destruct ok; [|by apply answer_adds]. apply runs_bind. eapply runs_lift; [apply fetch_in; unfold buflen in *; lia|].
    apply quiet_then; [by apply adds_ecall|]. intros ret s3. by apply answer_adds.
Qed.
End proofs.

(** C38: the ext2 server answers every request exactly once, and gives back every
    block that it has borrowed from the library's cache: at most one at a time,
    and the one whose bytes it answers with only after the answer.  What the
    iterator over a directory holds from one turn to the next counts as well; it
    is the library's to give it back at the end ([diriter_block]).  This holds
    whatever the library answers, errors included, for every request that the
    kernel can make ([req_ok]): of any file handle at any offset, of directories
    with less than [turns] entries of which the rest of the listing fits the
    buffer, and of paths that leave room for what [strrchr] looks at. *)
Theorem ext2fs_settles {F} `{Ext2 F} turns buf reqh q (s : e2fs F) :
  (forall p f, 0 <= inode_size_lower p f < 2 ^ 32) ->
  diriter_block diriter0 = None ->
  (forall it n f it' f', ext2_diriter it n f = (None, it', f') -> diriter_block it' = None) ->
  req_ok turns buf q s ->
  exists s' evs, e2_request turns buf reqh q s = Val () s' /\ e_trace s' = e_trace s ++ evs /\
    lent None evs = Some None /\ answers evs = [reqh].
Proof.
  intros Hsize Hstart Hend (Hb&Ho&Hq).
  assert (runs (e2_request turns buf reqh q) s (adds (fun _ evs => settled reqh evs) s)) as Hr.
  { unfold e2_request. destruct (q_op q).
    - destruct Hq as (Hh&H0&Hlen). case_match; zbool; [by apply answer_adds|]. destruct Hlen as [Hlen|]; [|done].
      destruct (path_slash buf (q_len q)) as (buf'&t&E1&E2&E3); [done|done|rewrite Hb; unfold buflen in *; lia|].
      apply runs_bind. eapply runs_lift; [exact E1|]. eapply do_open_settles; [|exact E3].
      rewrite E2, Hb. unfold buflen in *. lia.
    - destruct Hq as (h&Hh&Hc&Hdir). destruct (h_dir h) eqn:Hd.
      + destruct (Hdir eq_refl) as (H1&ents&H2&H3&H4). by apply (dir_read_settles turns Hstart Hend reqh q h buf s ents).
      + by apply (file_read_settles turns Hsize reqh q h).
    - destruct Hq as [Hh Hlen]. by apply write_settles.
    - by apply size_settles.
    - by apply answer_adds.
    - destruct Hq as [h Hh]. eapply rd_handle_bind; [exact Hh|]. apply runs_bind, runs_modify.
      match goal with |- runs _ ?s0 _ => change (runs (respond reqh ENull (-1)) s0 (adds (fun _ evs => settled reqh evs) s0)) end.
      by apply answer_adds. }
  destruct (runs_inv _ _ _ Hr) as ([]&s'&E1&evs&E2&E3&E4). by exists s', evs.
Qed.

(** ** A library

    Files in a map, by the path and by the number; a block is the rest of a file. *)

Record tiny := mkTiny {
  t_paths : gmap (list Z) Z;
  t_inodes : gmap Z (Z * list Z);       (* [perms] and the contents *)
  t_off : Z;
}.

Fixpoint before_0 (s : list Z) : list Z :=
  match s with [] => [] | x :: s => if x =? 0 then [] else x :: before_0 s end.

Definition resize (n : Z) (l : list Z) : list Z :=
  take (Z.to_nat n) l ++ replicate (Z.to_nat n - length l) 0.

#[export] Instance tiny_ext2 : Ext2 tiny := {
  ext2c_walk := fun path f => (default 0 (t_paths f !! path), f);
  ext2_alloc_inode := fun perms f =>
    let n := 100 + Z.of_nat (size (t_inodes f)) in (n, mkTiny (t_paths f) (<[n := (perms, [])]> (t_inodes f)) (t_off f));
  ext2_link := fun dir name n _ f => (0, mkTiny (<[47 :: before_0 name := n]> (t_paths f)) (t_inodes f) (t_off f));
  ext2_req_inode := fun n f => (if decide (is_Some (t_inodes f !! n)) then Some (Z.to_pos n) else None, f);
  inode_perms := fun p f => (default (0, []) (t_inodes f !! Z.pos p)).1;
  inode_size_lower := fun p f => Z.of_nat (length (default (0, []) (t_inodes f !! Z.pos p)).2) mod 2 ^ 32;
  set_size_lower := fun p n f => mkTiny (t_paths f) (alter (prod_map id (resize n)) (Z.pos p) (t_inodes f)) (t_off f);
  ext2_req_file := fun n len off f => (if len =? 0 then None else Some (Z.to_pos n), len, mkTiny (t_paths f) (t_inodes f) off);
  block_bytes := fun p f => drop (Z.to_nat (t_off f)) (default (0, []) (t_inodes f !! Z.pos p)).2;
  ext2_dropreq := fun _ _ f => (0, f);
  diriter := option (list dirent) * option positive;
  diriter0 := (None, None);
  ext2_diriter := fun it n f =>
    let l := match it.1 with Some l => l | None => (fun p => mkDirent (match drop 1 p.1 with [] => [46] | l => l end) 1) <$> map_to_list (t_paths f) end in
    match l with [] => (None, (Some [], None), f) | e :: l => (Some e, (Some l, Some (Z.to_pos n)), f) end;
  diriter_block := fun it => it.2;
  ext2_write := fun n data off f => (Z.of_nat (length data), f);
  e_malloc := fun _ => true;
}.

(** The root, and [/a] with "hello". *)
Definition some_disk : e2fs tiny :=
  mkE2fs (mkTiny {[ [47] := 2; [47; 97] := 11 ]} {[ 2 := (0x41ED, []); 11 := (0x8180, [104; 101; 108; 108; 111]) ]} 0)
    {[ 1%positive := mkHandle 11 false; 3%positive := mkHandle 2 true ]} 4 [].

(** The buffer: a path, or data, and what was in it before. *)
Definition some_buf (l before : list Z) : list Z :=
  splice 0 l (splice 0 before (replicate (Z.to_nat buflen) 0)).

(** A read of the file, and one of the directory. *)
Lemma ext2fs_settles_witness :
  let q := mkUfs VFSOP_READ 0 100 1 2 0 in
  let q2 := mkUfs VFSOP_READ 0 100 3 0 0 in
  (exists s' evs, e2_request 10 (some_buf [] []) 7 q some_disk = Val () s' /\ e_trace s' = evs /\
    lent None evs = Some None /\ answers evs = [7]) /\
  exists s' evs, e2_request 10 (some_buf [] []) 8 q2 some_disk = Val () s' /\ e_trace s' = evs /\
    lent None evs = Some None /\ answers evs = [8].
Proof.
  intros q q2.
  assert (forall p (f : tiny), 0 <= inode_size_lower p f < 2 ^ 32) as H1
    by (intros p f; apply Z.mod_pos_bound; lia).
  assert (forall it n (f : tiny) it' f', ext2_diriter it n f = (None, it', f') -> diriter_block it' = None) as H2.
  { intros it n f it' f' E1. cbn in E1. case_match; [|done]. by injection E1 as <- _. }
  split.
  - destruct (ext2fs_settles 10 (some_buf [] []) 7 q some_disk H1 eq_refl H2) as (s'&evs&E1&E2&E3&E4).
    + split_and!; [done|cbn; lia|cbn; lia|]. exists (mkHandle 11 false). split; [done|]. split; [|done].
      unfold_words. cbn. lia.
    + exists s', evs. split_and!; [exact E1|exact E2|exact E3|exact E4].
  - destruct (ext2fs_settles 10 (some_buf [] []) 8 q2 some_disk H1 eq_refl H2) as (s'&evs&E1&E2&E3&E4).
    + split_and!; [done|cbn; lia|cbn; lia|]. exists (mkHandle 2 true). split; [done|]. split; [unfold_words; cbn; lia|].
      intros _. split; [cbn; lia|]. eexists. split; [by vm_compute|]. split; [|by vm_compute].
      repeat constructor; by vm_compute.
    + exists s', evs. split_and!; [exact E1|exact E2|exact E3|exact E4].
Defined.

Lemma read_answers :
  let q := mkUfs VFSOP_READ 0 100 1 2 0 in
  exists s', e2_request 10 (some_buf [] []) 7 q some_disk = Val () s' /\
    e_trace s' = [Borrowed 11; Returned 11 false; Borrowed 11; Answered 7 (EBytes [108; 108; 111]) 3; Returned 11 false].
Proof. eexists. split; by vm_compute. Qed.

(** The directory: the iterator holds its block from the first entry on. *)
Lemma directory_answers :
  let q := mkUfs VFSOP_READ 0 100 3 0 0 in
  exists s', e2_request 10 (some_buf [] []) 8 q some_disk = Val () s' /\
    e_trace s' = [Borrowed 2; Returned 2 false; Answered 8 (EBytes [97; 0]) 2].
Proof. eexists. split; by vm_compute. Qed.

(** ** What goes wrong

    A path that does not exist is created, also if it is opened for reading only. *)
Lemma open_for_reading_creates :
  let q := mkUfs VFSOP_OPEN 4 0 1 0 OPEN_READ in
  exists s', e2_request 10 (some_buf [47; 110; 101; 119] []) 7 q some_disk = Val () s' /\
    e_trace s' = [Answered 7 (EId 4) 0] /\ t_paths (fs s') !! [47; 110; 101; 119] = Some 102.
Proof. eexists. split_and!; by vm_compute. Qed.

(** [strrchr] looks behind the terminator, where the path of an earlier request
    may have left a slash: [/new] after [/dirx/y] is not created. *)
Lemma create_finds_old_slash :
  let q := mkUfs VFSOP_OPEN 4 0 1 0 OPEN_READ in
  exists s', e2_request 10 (some_buf [47; 110; 101; 119] [47; 100; 105; 114; 120; 47; 121]) 7 q some_disk = Val () s' /\
    e_trace s' = [Answered 7 ENull (- ENOENT)].
Proof. eexists. split; by vm_compute. Qed.

(** The size is cut to 32 bits: one byte written behind the first 4 GB leaves a
    file of one byte. *)
Lemma write_behind_4g_truncates :
  let q := mkUfs VFSOP_WRITE 1 0 1 (2 ^ 32) 0 in
  exists s', e2_request 10 (some_buf [33] []) 7 q some_disk = Val () s' /\
    (snd <$> t_inodes (fs s') !! 11) = Some [104].
Proof. eexists. split; by vm_compute. Qed.
