(* ===== verification/Socks.v ===== *)
(** * Socks

    The file system over a SOCKS proxy ([src/src/cmd/socksfs.c]): opening
    [/connect/<source>/<name>/tcp/<port>] opens a connection to the proxy and asks
    it to connect to the name; reads and writes are passed on by child processes,
    so that one that blocks does not hold up the others.  It rests on the
    interface [Sys] of the system calls. *)

From Stdlib Require Import String.
From S2P Require Import Prelude Monad Mem Printf CString NetUtil KState Stdio UserFs Builtins.

Definition ENOMEM : Z := 7.
Definition ENAMETOOLONG : Z := 201.
Definition buflen : Z := 4096.

(** What the server does besides the calls on the proxy's handle: answers, and the
    children that do one call and answer. *)
Inductive socks_event :=
| Answer (reqh : Z) (h : option positive) (ret : Z)
| ReadChild (reqh sock len : Z)
| WriteChild (reqh sock : Z) (data : list Z).

Record socks (K : Type) := mkSocks {
  sk : K;
  s_errno : Z;
  s_handles : gmap positive Z;          (* [h->sock] *)
  s_next : positive;
  s_events : list socks_event;
}.
Arguments mkSocks {K}.
Arguments sk {K}.
Arguments s_errno {K}.
Arguments s_handles {K}.
Arguments s_next {K}.
Arguments s_events {K}.
#[export] Instance socks_settable K : Settable (socks K) := fun s =>
  mkSocks (sk s) (s_errno s) (s_handles s) (s_next s) (s_events s).

Section socks.
Context {K : Type} `{Sys K}.
Context (socks_addr : list Z).

Local Abbreviation S := (ST (socks K) Empty_set).

Definition scall {A} (f : K -> A * K) : S A := fun s =>
  let '(a, k) := f (sk s) in Val a (s <| sk := k |>).
Definition sclose (h : Z) : S () := modify (set sk (sys_close h)).
Definition set_errno (e : Z) : S () := modify (set s_errno (fun _ => e)).

(** [return errno = e, NULL] *)
Definition failed {A} (e : Z) : S (option A) := set_errno e;; mret None.

(** [write] and [read] of [unistd.h]; [errno] stays. *)
Definition write (h : Z) (data : list Z) : S Z := scall (sys_write h data (-1) 0).
Definition read (h len : Z) : S (Z * list Z) := fun s =>
  let '(ret, bytes, k) := sys_read h len (-1) (sk s) in Val (ret, bytes) (s <| sk := k |>).

(** The request for a connection to a name: version, command, a reserved byte, the
    type of the address, its length as a byte, the name, the port. *)
Definition connect_request (dest : list Z) (port : Z) : list Z :=
  [5; 1; 0; 3; u8 (Z.of_nat (List.length dest))] ++ dest ++ [u8 (Z.shiftr port 8); u8 port].

Definition greeting : list Z := [5; 1; 0].
Definition connected_reply : list Z := [5; 0; 0; 1; 0; 0; 0; 0; 0; 0].

(** The conversation with the proxy on [sock]; whether it went well. *)
Definition handshake (sock : Z) (dest : list Z) (port : Z) : S bool :=
  _ ← write sock greeting;
  set_errno 1;;                                    (* EGENERIC *)
  '(ret, buf) ← read sock 2;
  if negb (ret =? 2) then mret false
  else if negb (bool_decide (take 2 buf = [5; 0])) then mret false
  else
    _ ← write sock (connect_request dest port);
    '(ret, buf) ← read sock 10;
    mret ((ret =? 10) && bool_decide (take 10 buf = connected_reply)).

(** A connection, once the path is understood. *)
Definition connect (dest : list Z) (port : Z) : S (option positive) :=
  ok ← scall malloc_ok;
  if negb ok then failed ENOMEM
  else
    sock ← scall (camellia_open socks_addr (Z.lor OPEN_READ OPEN_WRITE));
    _ ← (if sock <? 0 then set_errno (- sock) else mret ());        (* by [camellia_open] *)
    good ← (if sock <? 0 then mret false else handshake sock dest port);
    if (good : bool) then
      s ← get_;
      let h := s_next s in
      put_ (s <| s_handles ::= <[h := sock]> |> <| s_next := Pos.succ h |>);;
      mret (Some h)
    else sclose sock;; mret None.

(** [strtok_r] on the path; [str] is the string at an index. *)
Definition token (buf : list Z) (from : option nat) (state : nat) : S (list Z * nat * option nat) :=
  lift (strtok_r buf from [47; 0] state).

Definition str_at (buf : list Z) (i : nat) : list Z := drop i buf.

Definition fs_open (path : list Z) (flags : Z) : S (option positive) :=
  c ← lift (peek path 0);
  if negb (c =? 47) then failed ENOENT
  else if Z.land flags OPEN_WRITE =? 0 then failed EACCES
  else
    '(path, st, verb) ← token path (Some 1%nat) 0;
    match verb with
    | None => failed ENOENT
    | Some verb =>
        e ← lift (strcmp (str_at path verb) (lit "connect"));
        if negb (e =? 0) then failed ENOSYS
        else
          '(path, st, _) ← token path None st;           (* the source is not looked at *)
          '(path, st, dest) ← token path None st;
          match dest with
          | None => failed ENOENT
          | Some dest =>
              destlen ← lift (strlen (str_at path dest));
              if 256 <=? destlen then failed ENAMETOOLONG
              else
                '(path, st, proto) ← token path None st;
                match proto with
                | None => failed ENOENT
                | Some proto =>
                    e ← lift (strcmp (str_at path proto) (lit "tcp"));
                    if negb (e =? 0) then failed ENOSYS
                    else
                      '(path, st, port_s) ← token path None st;
                      match port_s with
                      | None => failed ENOENT
                      | Some port_s =>
                          '(port, _) ← lift (strtol (str_at path port_s) 0);
                          connect (take (Z.to_nat destlen) (str_at path dest)) (u16 port)
                      end
                end
          end
    end.

(** ** Requests *)

Definition answer (reqh : Z) (h : option positive) (ret : Z) : S () :=
  modify (set s_events (fun l => l ++ [Answer reqh h ret])).
Definition child (e : socks_event) : S () := modify (set s_events (fun l => l ++ [e])).
Definition sock_of (p : positive) : S Z := s ← get_; deref (s_handles s !! p).

(** A turn of [main]'s loop; the parent closes the request of a child. *)
Definition socks_request (buf : list Z) (reqh : Z) (q : ufs_request) : S () :=
  match q_op q with
  | VFSOP_OPEN =>
      if q_len q =? buflen then answer reqh None (- ENAMETOOLONG)
      else
        buf ← lift (store buf (q_len q) [0]);
        ret ← fs_open buf (q_flags q);
        match ret with
        | Some h => answer reqh (Some h) 0
        | None => s ← get_; answer reqh None (- s_errno s)
        end
  | VFSOP_READ => sock ← sock_of (q_id q); child (ReadChild reqh sock (s32 (Z.min buflen (q_capacity q))))
  | VFSOP_WRITE =>
      sock ← sock_of (q_id q);
      data ← lift (fetch buf 0 (q_len q));
      child (WriteChild reqh sock data)
  | VFSOP_CLOSE =>
      sock ← sock_of (q_id q);
      sclose sock;;
      modify (set s_handles (delete (q_id q)));;
      answer reqh None (-1)
  | _ => answer reqh None (-1)
  end.

(** A child: what it answers, and the kernel afterwards. *)
Definition run_child (e : socks_event) (k : K) : option (Z * list Z * K) :=
  match e with
  | ReadChild _ sock len => let '(ret, bytes, k) := sys_read sock len (-1) k in Some (s32 ret, bytes, k)
  | WriteChild _ sock data => let '(ret, k) := sys_write sock data (-1) 0 k in Some (s32 ret, [], k)
  | Answer _ _ _ => None
  end.
End socks.

(** ** The proxy's side

    How a proxy reads a request (RFC 1928), for names. *)
Definition parse_connect (l : list Z) : option (list Z * Z * list Z) :=
  match l with
  | 5 :: 1 :: 0 :: 3 :: n :: l =>
      let dest := take (Z.to_nat n) l in
      match drop (Z.to_nat n) l with
      | hi :: lo :: rest => if bool_decide (List.length dest = Z.to_nat n) then Some (dest, 256 * hi + lo, rest) else None
      | _ => None
      end
  | _ => None
  end.

Lemma connect_request_parses dest port : Z.of_nat (List.length dest) < 256 -> 0 <= port < 2 ^ 16 ->
  parse_connect (connect_request dest port) = Some (dest, port, []).
Proof.
  intros Hd Hp. unfold connect_request, parse_connect. cbn [app].
  replace (Z.to_nat (u8 (Z.of_nat (List.length dest)))) with (List.length dest) by word_lia.
  rewrite drop_app_length, take_app_length, bool_decide_true by done. do 3 f_equal.
  rewrite Z.shiftr_div_pow2 by lia. word_lia.
Qed.

(** What a proxy does that can reach [dest]: it takes what it is sent, accepts the
    greeting, and answers a request for [dest]. *)
Record proxy {K} `{Sys K} (addr dest : list Z) (port : Z) (sock : Z) (sent : K -> list Z) : Prop := {
  px_malloc : forall k, exists k', malloc_ok k = (true, k') /\ sent k' = sent k;
  px_open : forall k, exists k', camellia_open addr (Z.lor OPEN_READ OPEN_WRITE) k = (sock, k') /\ sent k' = [];
  px_sock : 0 <= sock;
  px_write : forall k data, exists k', sys_write sock data (-1) 0 k = (Z.of_nat (List.length data), k') /\ sent k' = sent k ++ data;
  px_hello : forall k, sent k = [5; 1; 0] -> exists k', sys_read sock 2 (-1) k = (2, [5; 0], k') /\ sent k' = sent k;
  px_connect : forall k l, sent k = [5; 1; 0] ++ l -> parse_connect l = Some (dest, port, []) ->
    exists k', sys_read sock 10 (-1) k = (10, connected_reply, k') /\ sent k' = sent k;
}.

(** ** Opening *)

(** A component of a path. *)
Definition component (t : list Z) : Prop :=
  t <> [] /\ Forall (fun b => b <> 0 /\ is_sep [47; 0] b = false) t.

Lemma next_component pre t c rest (st : nat) (from : option nat) :
  component t -> c = 47 \/ c = 0 -> from = Some (List.length pre) \/ (from = None /\ st = List.length pre) ->
  strtok_r (pre ++ t ++ c :: rest) from [47; 0] st =
    Ok (pre ++ t ++ 0 :: rest, (List.length pre + List.length t + (if (c =? 0)%Z then 0 else 1))%nat, Some (List.length pre)).
Proof.
  intros [Hne Ht] Hc Hfrom.
  destruct (strtok_r_cuts pre [] t c rest [47; 0] st) as (H1&H2&_&H4); [by right; left|done|done|destruct Hc as [-> | ->]; auto|].
  cbn [app List.length] in *. rewrite !Nat.add_0_r in *.
  assert (strtok_r (pre ++ t ++ c :: rest) from [47; 0] st = strtok_r (pre ++ t ++ c :: rest) (Some (List.length pre)) [47; 0] st) as ->.
  { destruct Hfrom as [-> | [-> Hst]]; [done|by apply H4]. }
  destruct Hc as [-> | ->]; cbn [Z.eqb].
  - rewrite H1 by done. do 3 f_equal. lia.
  - rewrite H2 by done. do 3 f_equal. lia.
Qed.

Lemma component_no_0 t : component t -> 0 ∉ t.
Proof. intros [_ H] Hin. rewrite Forall_forall in H. by destruct (H 0 Hin). Qed.

Lemma strcmp_same s r1 r2 : 0 ∉ s -> strcmp (s ++ 0 :: r1) (s ++ 0 :: r2) = Ok 0.
Proof.
  induction s as [|c s IH]; intros H0; [done|]. cbn [app strcmp].
  rewrite (proj2 (Z.eqb_neq c 0)) by (intros ->; apply H0; left). rewrite Z.eqb_refl. cbn [negb andb].
  apply IH. intros Hin. apply H0. by right.
Qed.

Lemma strlen_str s r : 0 ∉ s -> strlen (s ++ 0 :: r) = Ok (Z.of_nat (List.length s)).
Proof.
  induction s as [|c s IH]; intros H0; [done|]. cbn [app strlen].
  rewrite (proj2 (Z.eqb_neq c 0)) by (intros ->; apply H0; left).
  rewrite IH by (intros Hin; apply H0; by right). cbn. f_equal. cbn [List.length]. lia.
Qed.

Section opening.
Context {K : Type} `{Sys K} (addr dest : list Z) (port sock : Z) (sent : K -> list Z).
Hypothesis Hpx : proxy addr dest port sock sent.
Hypothesis Hdest : Z.of_nat (List.length dest) < 256.
Hypothesis Hport : 0 <= port < 2 ^ 16.

Lemma runs_scall {A} (f : K -> A * K) s a k (Q : A -> socks K -> Prop) :
  f (sk s) = (a, k) -> Q a (s <| sk := k |>) -> runs (E := Empty_set) (scall f) s Q.
Proof. intros E HQ. unfold runs, scall. by rewrite E. Qed.

Lemma handshake_runs s : sent (sk s) = [] ->
  runs (E := Empty_set) (handshake sock dest port) s (fun r s' => r = true /\
    sent (sk s') = greeting ++ connect_request dest port /\ s_handles s' = s_handles s /\ s_next s' = s_next s /\
    s_events s' = s_events s).
Proof.
  intros H0. unfold handshake, write, read, set_errno.
  destruct (px_write _ _ _ _ _ Hpx (sk s) greeting) as (k1&E1&S1). apply runs_bind. eapply runs_scall; [exact E1|].
  apply runs_bind, runs_modify.
  destruct (px_hello _ _ _ _ _ Hpx k1) as (k2&E2&S2); [by rewrite S1, H0|].
  apply runs_bind. unfold runs at 1. cbn. rewrite E2. cbn.
  destruct (px_write _ _ _ _ _ Hpx k2 (connect_request dest port)) as (k3&E3&S3). apply runs_bind.
  eapply runs_scall; [exact E3|].
  destruct (px_connect _ _ _ _ _ Hpx k3 (connect_request dest port)) as (k4&E4&S4).
  { by rewrite S3, S2, S1, H0. }
  { by apply connect_request_parses. }
  apply runs_bind. unfold runs at 1. cbn -[connected_reply]. rewrite E4.
  apply runs_ret. split_and!; [by vm_compute| |done..]. cbn. by rewrite S4, S3, S2, S1, H0.
Qed.

Lemma connect_runs s :
  runs (E := Empty_set) (connect addr dest port) s (fun r s' => r = Some (s_next s) /\
    s_handles s' = <[s_next s := sock]> (s_handles s) /\ sent (sk s') = greeting ++ connect_request dest port /\
    s_events s' = s_events s).
Proof.
  unfold connect. destruct (px_malloc _ _ _ _ _ Hpx (sk s)) as (k1&E1&_). apply runs_bind. eapply runs_scall; [exact E1|].
  cbn [negb]. destruct (px_open _ _ _ _ _ Hpx k1) as (k2&E2&S2). apply runs_bind. eapply runs_scall; [exact E2|].
  rewrite (proj2 (Z.ltb_ge sock 0)) by apply Hpx. apply runs_bind, runs_ret. apply runs_bind.
  eapply runs_mono; [by apply handshake_runs|]. intros r s1 (->&S&H1&H2&H3). apply runs_bind, runs_get.
  apply runs_bind. unfold runs at 1, put_. apply runs_ret. cbn in *. split_and!; [by rewrite H2|by rewrite H1, H2|done|done].
Qed.
End opening.

(** The string that was cut out, and what is behind it. *)
Lemma str_at_cut pre t rest : str_at ((pre ++ t ++ [0]) ++ rest) (List.length pre) = t ++ 0 :: rest.
Proof. unfold str_at. rewrite <- !app_assoc, drop_app_length. done. Qed.

Lemma token_runs {K} (s : socks K) pre t rest from st Q :
  component t -> from = Some (List.length pre) \/ (from = None /\ st = List.length pre) ->
  Q ((pre ++ t ++ [0]) ++ rest, List.length (pre ++ t ++ [0]), Some (List.length pre)) s ->
  runs (token (pre ++ t ++ 47 :: rest) from st) s Q.
Proof.
  intros Ht Hfrom HQ. unfold token. eapply runs_lift; [apply next_component; [done|by left|done]|].
  cbn [Z.eqb]. rewrite <- !app_assoc in HQ. cbn [app] in HQ. rewrite !length_app in HQ. cbn [List.length] in HQ.
  replace (List.length pre + List.length t + 1)%nat with (List.length pre + (List.length t + 1))%nat by lia. exact HQ.
Qed.

Definition str_connect : list Z := [99; 111; 110; 110; 101; 99; 116].
Definition str_tcp : list Z := [116; 99; 112].

Lemma component_literal t : forallb (fun b => negb (b =? 0) && negb (is_sep [47; 0] b)) t = true -> t <> [] -> component t.
Proof.
  intros Hb Hne. split; [done|]. apply Forall_forall. intros b Hin. rewrite forallb_forall in Hb.
  apply list_elem_of_In in Hin. specialize (Hb b Hin). apply andb_true_iff in Hb as [H1 H2].
  apply negb_true_iff in H1, H2. zbool. done.
Qed.

Lemma digit_component d : 0 <= d < 10 -> digit_char d <> 0 /\ is_sep [47; 0] (digit_char d) = false.
Proof.
  intros Hd. assert (Forall (fun d => digit_char d <> 0 /\ is_sep [47; 0] (digit_char d) = false) (Z.of_nat <$> seq 0 10)) as H
    by decide_now.
  rewrite Forall_forall in H. apply H, list_elem_of_fmap. exists (Z.to_nat d). rewrite elem_of_seq. lia.
Qed.

Lemma numeral_component n : 0 < n < 2 ^ 16 -> component (numeral 10 n).
Proof.
  intros Hn. unfold numeral. destruct (digits_head 10 64 n) as (d&l&El&_); [lia|split; [lia|]; cbn; lia|].
  destruct (digits_value 10 64 n) as [_ Hall]; [lia|split; [lia|]; cbn; lia|]. split; [by rewrite El|].
  apply Forall_fmap. eapply Forall_impl; [exact Hall|]. intros x Hx. by apply digit_component.
Qed.

Section path.
Context {K : Type} `{Sys K} (addr src dest : list Z) (port sock : Z) (sent : K -> list Z).
Hypothesis Hpx : proxy addr dest port sock sent.
Hypothesis Hsrc : component src.
Hypothesis Hdest : component dest.
Hypothesis Hlen : Z.of_nat (List.length dest) < 256.
Hypothesis Hport : 0 < port < 2 ^ 16.

(** The path of a connection; [rest] is whatever follows in the buffer. *)
Definition connection_path (rest : list Z) : list Z :=
  [47] ++ str_connect ++ 47 :: src ++ 47 :: dest ++ 47 :: str_tcp ++ 47 :: numeral 10 port ++ 0 :: rest.

Lemma port_read rest : strtol (numeral 10 port ++ 0 :: rest) 0 = Ok (port, 0 :: rest).
Proof.
  destruct (strtol_reads_numeral [] false 10 port (0 :: rest)) as [_ H2]; [done|unfold_words; lia|done|].
  rewrite Z.mul_1_r in H2. apply H2. lia.
Qed.

Lemma fs_open_runs rest flags s : Z.land flags OPEN_WRITE <> 0 ->
  runs (fs_open addr (connection_path rest) flags) s (fun r s' => r = Some (s_next s) /\
    s_handles s' = <[s_next s := sock]> (s_handles s) /\ sent (sk s') = greeting ++ connect_request dest port /\
    s_events s' = s_events s).
Proof.
  intros Hfl. unfold fs_open, connection_path. apply runs_bind. eapply runs_lift; [done|]. cbn [Z.eqb Pos.eqb negb].
  rewrite (proj2 (Z.eqb_neq _ 0)) by done. apply runs_bind.
  apply (token_runs s [47]); [by apply component_literal|by left|]. apply runs_bind. eapply runs_lift.
  { rewrite str_at_cut. apply (strcmp_same str_connect). by apply component_no_0, component_literal. }
  cbn [Z.eqb negb]. set (p2 := [47] ++ str_connect ++ [0]). apply runs_bind. apply token_runs; [done|by right|].
  set (p3 := p2 ++ src ++ [0]). apply runs_bind. apply token_runs; [done|by right|]. apply runs_bind. eapply runs_lift.
  { rewrite str_at_cut. by apply strlen_str, component_no_0. }
  rewrite (proj2 (Z.leb_gt 256 _)) by done. set (p4 := p3 ++ dest ++ [0]). apply runs_bind.
  apply token_runs; [by apply component_literal|by right|]. apply runs_bind. eapply runs_lift.
  { rewrite str_at_cut. apply (strcmp_same str_tcp). by apply component_no_0, component_literal. }
  cbn [Z.eqb negb]. set (p5 := p4 ++ str_tcp ++ [0]). apply runs_bind. unfold token. eapply runs_lift.
  { apply next_component; [by apply numeral_component|by right|by right]. }
  apply runs_bind. eapply runs_lift.
  { unfold str_at. rewrite drop_app_length. apply port_read. }
  replace (take _ (str_at _ _)) with dest.
  - unfold u16. rewrite Z.mod_small by lia. by eapply connect_runs; try done; lia.
  - rewrite Nat2Z.id. unfold str_at, p5, p4. rewrite <- !app_assoc, drop_app_length. by rewrite take_app_length.
Qed.
End path.

(** C39: opening [/connect/<source>/<name>/tcp/<port>] for writing connects to the
    name: for any components [source] and [name], the name shorter than 256 bytes,
    any port, and any proxy that speaks the protocol and can reach it, the server
    answers with a new handle whose socket is the connection, and what it has sent
    to the proxy is the greeting and a request that a proxy reads as exactly this
    name and this port. *)
Theorem socks_connects {K} `{Sys K} addr src dest port sock sent rest flags (s : socks K) reqh buf q :
  proxy addr dest port sock sent -> component src -> component dest -> Z.of_nat (List.length dest) < 256 ->
  0 < port < 2 ^ 16 -> Z.land flags OPEN_WRITE <> 0 ->
  q_op q = VFSOP_OPEN -> q_flags q = flags -> q_len q <> buflen ->
  store buf (q_len q) [0] = Ok (connection_path src dest port rest) ->
  exists s' request, socks_request addr buf reqh q s = Val () s' /\
    s_events s' = s_events s ++ [Answer reqh (Some (s_next s)) 0] /\ s_handles s' !! s_next s = Some sock /\
    sent (sk s') = greeting ++ request /\ parse_connect request = Some (dest, port, []).
Proof.
  intros Hpx Hsrc Hdest Hlen Hport Hfl Hop Hq Hql Hbuf.
  assert (runs (socks_request addr buf reqh q) s (fun _ s' =>
    s_events s' = s_events s ++ [Answer reqh (Some (s_next s)) 0] /\ s_handles s' !! s_next s = Some sock /\
    sent (sk s') = greeting ++ connect_request dest port)) as Hr.
  { unfold socks_request. rewrite Hop, Hq, (proj2 (Z.eqb_neq _ _)) by done. apply runs_bind. eapply runs_lift; [exact Hbuf|].
    apply runs_bind. eapply runs_mono; [by apply (fs_open_runs addr src dest port sock sent)|].
    intros r s1 (->&H1&H2&H3). apply runs_modify. cbn. by rewrite H3, H1, lookup_insert_eq. }
  destruct (runs_inv _ _ _ Hr) as ([]&s'&E&H1&H2&H3). exists s', (connect_request dest port).
  split_and!; [done..|]. apply connect_request_parses; lia.
Qed.

(** ** A proxy

    The state is what it was sent. *)

Definition proxy_sys (dest : list Z) (port : Z) : Sys (list Z) := {|
  sys_read := fun _ len _ k =>
    if (len =? 2) && bool_decide (k = [5; 1; 0]) then (2, [5; 0], k)
    else match parse_connect (drop 3 k) with
         | Some (d, p, []) => if bool_decide (d = dest) && (p =? port) then (10, connected_reply, k) else (-1, [], k)
         | _ => (-1, [], k)
         end;
  sys_write := fun _ data _ _ k => (Z.of_nat (List.length data), k ++ data);
  sys_dup := fun h _ _ k => (h, k);
  sys_getsize := fun _ k => (0, k);
  sys_close := fun _ k => k;
  camellia_open := fun _ _ _ => (5, []);
  malloc_ok := fun k => (true, k);
|}.

Lemma proxy_sys_proxy addr dest port : @proxy _ (proxy_sys dest port) addr dest port 5 id.
Proof.
  split.
  - intros k. by exists k.
  - intros k. by exists [].
  - lia.
  - intros k data. by exists (k ++ data).
  - intros k Hk. cbn in *. subst. by exists [5; 1; 0].
  - intros k l Hk Hl. cbn -[parse_connect] in *. subst. exists ([5; 1; 0] ++ l). cbn -[parse_connect]. rewrite drop_0, Hl.
    rewrite bool_decide_true, Z.eqb_refl by done. done.
Qed.

(** [/connect/0/a.b/tcp/80] *)
Lemma socks_connects_witness :
  let path := connection_path [48] [97; 46; 98] 80 [] in
  let buf := path ++ [63] in
  exists s' request, @socks_request _ (proxy_sys [97; 46; 98] 80) [] buf 9
      (mkUfs VFSOP_OPEN (Z.of_nat (List.length path) - 1) 0 1 0 OPEN_WRITE) (mkSocks [] 0 ∅ 1 []) = Val () s' /\
    s_events s' = [Answer 9 (Some 1%positive) 0] /\ sk s' = greeting ++ request /\
    parse_connect request = Some ([97; 46; 98], 80, []).
Proof.
  intros path buf.
  destruct (@socks_connects _ (proxy_sys [97; 46; 98] 80) [] [48] [97; 46; 98] 80 5 id [63] OPEN_WRITE (mkSocks [] 0 ∅ 1 []) 9 buf
    (mkUfs VFSOP_OPEN (Z.of_nat (List.length path) - 1) 0 1 0 OPEN_WRITE)) as (s'&request&E&H1&_&H3&H4).
  - apply proxy_sys_proxy.
  - by apply component_literal.
  - by apply component_literal.
  - cbn. lia.
  - lia.
  - done.
  - done.
  - done.
  - done.
  - by vm_compute.
  - exists s', request. split_and!; [exact E|exact H1|exact H3|exact H4].
Defined.

(** ** What goes wrong

    A proxy that takes only a part of the request is not told the rest: the result
    of [write] is not looked at. *)
Lemma short_writes_are_ignored {K} `{Sys K} sock dest port (s : socks K) k1 n1 :
  sys_write sock greeting (-1) 0 (sk s) = (n1, k1) -> sys_read sock 2 (-1) k1 = (2, [5; 0], k1) ->
  forall n2 k2, sys_write sock (connect_request dest port) (-1) 0 k1 = (n2, k2) ->
  exists s', handshake sock dest port s = Val (let '(ret, bytes, _) := sys_read sock 10 (-1) k2 in
    (ret =? 10) && bool_decide (take 10 bytes = connected_reply)) s'.
Proof.
  intros E1 E2 n2 k2 E3. unfold handshake, write, read, set_errno, scall, modify, mbind, st_bind.
  cbn -[connect_request greeting connected_reply]. rewrite E1.
  cbn -[connect_request greeting connected_reply]. rewrite E2. cbv iota. rewrite bool_decide_true by done.
  cbn -[connect_request greeting connected_reply]. rewrite E3. cbn -[connected_reply].
  destruct (sys_read sock 10 (-1) k2) as [[ret bytes] k3]. eexists. reflexivity.
Qed.
