(* ===== verification/Dirent.v ===== *)
(** * Dirent

    Reading directories ([src/src/libc/dirent.c]) and two programs that do:
    [find] ([cmd/find.c]) and the web server ([cmd/httpd.c]).  A directory is a
    file of names with terminators ([UserFs.listing]); [readdir] gives back the
    names one by one. *)

From Stdlib Require Import String.
From S2P Require Import Prelude Monad Mem Ring Printf CString NetUtil KState Stdio StdioSpec UserFs Builtins.

Definition NAME_SIZE : Z := 256.               (* of [d_name] *)
Definition ENAMETOOLONG : Z := 201.

Section dirent.
Context {K : Type} `{Sys K}.
Context (progname : list Z) (fuel : nat).

Local Abbreviation L := (ST (stdio K) Empty_set).

(** ** [dirent.c]

    A [DIR] is the stream that it holds. *)

Definition opendir_f (fp : option positive) : L (option positive) :=
  match fp with
  | None => mret None
  | Some fp =>
      ok ← call malloc_ok;
      if (ok : bool) then mret (Some fp) else _ ← fclose fp; mret None
  end.

Definition opendir (name : list Z) : L (option positive) := fp ← fopen (Some name) (lit "r"); opendir_f fp.

Definition closedir (dir : positive) : L () := _ ← fclose dir; mret ().

(** The rest of a name that is too long. *)
Definition skip_turn (dir : positive) (_ : ()) : L (() + ()) :=
  c ← fgetc dir; if (c =? EOF) || (c =? 0) then mret (inr ()) else mret (inl ()).

Definition readdir_turn (dir : positive) (name : list Z) : L (list Z + option (list Z)) :=
  c ← fgetc dir;
  if c =? EOF then mret (inr (if bool_decide (name = []) then None else Some name))
  else if c =? 0 then mret (inr (Some name))
  else if Z.of_nat (List.length name) =? NAME_SIZE - 1 then
    iter fuel (skip_turn dir) ();;
    set_errno ENAMETOOLONG;;
    mret (inr None)
  else mret (inl (name ++ [u8 c])).

(** The next name; 257 characters are looked at. *)
Definition readdir (dir : positive) : L (option (list Z)) := iter 257 (readdir_turn dir) [].

(** ** [find.c]

    The path is without its terminator, in a buffer of [PATH_MAX] bytes. *)

Definition find_turn (recurse : list Z -> L ()) (path : list Z) (dir : positive) (_ : ()) : L (() + ()) :=
  set_errno 0;;
  dent ← readdir dir;
  match dent with
  | None =>
      e ← get_errno;
      (if e =? 0 then mret () else vwarn progname (Some (lit "when reading %s")) [VStr path]);;
      mret (inr ())
  | Some name =>
      printf (lit "%s%s\n") [VStr path; VStr name];;
      (* in front of an empty name is the 0 of [d_ino] *)
      (if bool_decide (last name = Some 47) then
         if PATH_MAX <? Z.of_nat (List.length path + List.length name) + 1 then fail Undefined
         else recurse (path ++ name)
       else mret ());;
      mret (inl ())
  end.

(** [depth] bounds the nesting. *)
Fixpoint recurse (depth : nat) (path : list Z) : L () :=
  match depth with
  | O => fail OutOfFuel
  | S depth =>
      d ← opendir (path ++ [0]);
      match d with
      | None => vwarn progname (Some (lit "couldn't open %s")) [VStr path]
      | Some d => iter fuel (find_turn (recurse depth) path d) ();; closedir d
      end
  end.

Definition find (depth : nat) (path : list Z) : L () :=
  ok ← call malloc_ok;
  if negb ok || (PATH_MAX <? Z.of_nat (List.length path) + 1) then fail Undefined
  else recurse depth path.

Definition find_main (depth : nat) (args : list (list Z)) : L () :=
  match args with
  | [] => find depth [47]
  | _ => forM args (fun path => find depth (before_nul path))
  end.

(** ** [httpd.c] *)

Definition fprintf (f : positive) (fmt : list Z) (args : list va) : L () := _ ← vfprintf f fmt args; mret ().

(** Carriage returns in a format. *)
Definition crlf : list Z := [13; 10].
Definition http (s : string) : list Z := before_nul (lit s) ++ crlf.

Definition send_turn (f c : positive) (_ : ()) : L (() + ()) :=
  '(data, n) ← fread 1 2048 f;
  let len := s32 n in
  if len <=? 0 then mret (inr ())
  else _ ← fwrite data 1 len c; mret (inl ()).

(** The name in quotes, and again. *)
Definition item : list Z :=
  before_nul (lit "<li><a href=") ++ [34] ++ before_nul (lit "%s") ++ [34] ++ lit ">%s</a></li>".

Definition list_turn (c dir : positive) (_ : ()) : L (() + ()) :=
  d ← readdir dir;
  match d with
  | None => mret (inr ())
  | Some name => fprintf c item [VStr name; VStr name];; mret (inl ())
  end.

(** The path of a request line; [None] if it is no such line. *)
Definition request_path (line : list Z) : option (list Z) :=
  if bool_decide (take 5 line = before_nul (lit "GET /")) then
    let rest := drop 4 (before_nul line) in
    Some (default rest ((fun i => take i.1 rest) <$> list_find (fun b => b = 32) rest))
  else None.

(** [sys_open] has no working directory; it is the argument here. *)
Definition handle (sys_open : list Z -> Z -> K -> Z * K) (c : positive) : L () :=
  line ← fgets 2048 c;
  (* without a line, what is on the stack is printed *)
  line ← deref line;
  printf (lit "%s") [va_str line];;
  match request_path line with
  | None => fprintf c (http "HTTP/1.1 400 Bad Request" ++ crlf ++ [0]) []
  | Some path =>
      h ← call (sys_open path OPEN_READ);
      if h <? 0 then fprintf c (http "HTTP/1.1 404 Not Found" ++ crlf ++ [0]) []
      else if negb (bool_decide (last path = Some 47)) then
        f ← fdopen h (lit "r");
        match f with
        | None => fprintf c (http "HTTP/1.1 500 Internal Server Error" ++ crlf ++ [0]) []
        | Some f =>
            fprintf c (http "HTTP/1.1 200 OK" ++ crlf ++ [0]) [];;
            iter fuel (send_turn f c) ();;
            _ ← fclose f;
            mret ()
        end
      else
        f ← fdopen h (lit "r");
        dir ← opendir_f f;
        match dir with
        | None => fprintf c (http "HTTP/1.1 500 Internal Server Error" ++ crlf ++ [0]) []
        | Some dir =>
            fprintf c (http "HTTP/1.1 200 OK" ++ http "Content-Type: text/html; charset=UTF-8" ++ crlf ++
              lit "<h1>directory listing for %s</h1><hr><ul><li><a href=..>..</a></li>") [VStr path];;
            iter fuel (list_turn c dir) ();;
            closedir dir
        end
  end.
End dirent.

(** ** Reading the names back *)

Section reading.
Context {K : Type} `{Sys K} (h : Z) (holds : list Z -> K -> Prop) (Hread : readable h holds).

Lemma fgetc_next f x l s c r :
  stream h holds f x l s -> Z.of_nat (List.length l) < 2 ^ 63 -> remaining x l = c :: r ->
  runs (fgetc f) s (fun c' s' => c' = schar c /\ exists x', stream h holds f x' l s' /\ remaining x' l = r).
Proof.
  intros Hst Hl Hrem. unfold fgetc. apply runs_bind.
  eapply runs_mono; [apply (fread_spec h holds Hread f x l s 1 1); try done; lia|].
  intros [out n] s1 (Ho&Hn&x'&Hst'&Hrem'&_). rewrite Hrem in Ho, Hrem'. cbn in Ho, Hrem'. subst out n. cbn.
  apply runs_ret. split; [done|]. exists x'. by rewrite Hrem'.
Qed.

Lemma fgetc_end f x l s :
  stream h holds f x l s -> Z.of_nat (List.length l) < 2 ^ 63 -> remaining x l = [] ->
  runs (fgetc f) s (fun c' s' => c' = EOF /\ exists x', stream h holds f x' l s' /\ remaining x' l = []).
Proof.
  intros Hst Hl Hrem. unfold fgetc. apply runs_bind.
  eapply runs_mono; [apply (fread_spec h holds Hread f x l s 1 1); try done; lia|].
  intros [out n] s1 (Ho&Hn&x'&Hst'&Hrem'&_). rewrite Hrem in Ho, Hrem'. cbn in Ho, Hrem'. subst out n. cbn.
  apply runs_ret. split; [done|]. by exists x'.
Qed.

(** A name that can be read: byte 255 is taken for the end of the file. *)
Definition name_ok (n : list Z) : Prop := Forall (fun b => 0 < b < 255) n /\ Z.of_nat (List.length n) < NAME_SIZE.

Lemma schar_byte c : 0 < c < 255 -> schar c <> EOF /\ schar c <> 0 /\ u8 (schar c) = c.
Proof. intros Hc. unfold schar, EOF. split_and!; word_lia. Qed.

Lemma readdir_name fuel f l n : forall k name x s r,
  stream h holds f x l s -> Z.of_nat (List.length l) < 2 ^ 63 -> remaining x l = n ++ 0 :: r ->
  Forall (fun b => 0 < b < 255) n -> Z.of_nat (List.length name + List.length n) < NAME_SIZE -> (List.length n < k)%nat ->
  runs (iter k (readdir_turn fuel f) name) s (fun d s' => d = Some (name ++ n) /\
    exists x', stream h holds f x' l s' /\ remaining x' l = r).
Proof.
  induction n as [|c n IH]; intros [|k] name x s r Hst Hl Hrem Hn Hlen Hk; try (cbn in *; lia); cbn [iter]; apply runs_bind.
  - unfold readdir_turn. apply runs_bind. eapply runs_mono; [by eapply fgetc_next|].
    intros c s1 (->&x'&Hst'&Hrem'). change (schar 0 =? EOF) with false. change (schar 0 =? 0) with true.
    cbv iota. apply runs_ret, runs_ret. split; [by rewrite app_nil_r|].
    by exists x'.
  - apply Forall_cons in Hn as [Hc Hn]. destruct (schar_byte c Hc) as (H1&H2&H3).
    unfold readdir_turn at 1. apply runs_bind. eapply runs_mono; [by eapply fgetc_next|].
    intros c' s1 (->&x'&Hst'&Hrem'). rewrite (proj2 (Z.eqb_neq _ _) H1), (proj2 (Z.eqb_neq _ _) H2).
    cbn [List.length] in Hlen, Hk. rewrite (proj2 (Z.eqb_neq _ _)) by lia. apply runs_ret. rewrite H3.
    eapply runs_mono; [eapply (IH k (name ++ [c]) x' s1 r); try done; [rewrite length_app; cbn [List.length]; lia|lia]|].
    intros d s2 (->&x2&Hst2&Hrem2). split; [by rewrite <- app_assoc|]. by exists x2.
Qed.

Lemma iter_S {A B} n (body : A -> ST (stdio K) Empty_set (A + B)) a :
  iter (S n) body a = x ← body a; match x with inl a => iter n body a | inr b => mret b end.
Proof. reflexivity. Qed.

Lemma readdir_end fuel f x l s :
  stream h holds f x l s -> Z.of_nat (List.length l) < 2 ^ 63 -> remaining x l = [] ->
  runs (readdir fuel f) s (fun d s' => d = None /\ exists x', stream h holds f x' l s' /\ remaining x' l = []).
Proof.
  intros Hst Hl Hrem. unfold readdir. change 257%nat with (S 256). rewrite iter_S. apply runs_bind. unfold readdir_turn at 1. apply runs_bind. eapply runs_mono; [by eapply fgetc_end|].
  intros c s1 (->&x'&Hst'&Hrem'). change (EOF =? EOF) with true. cbv iota. apply runs_ret, runs_ret.
  split; [done|]. by exists x'.
Qed.
End reading.

(** [readdir] until it answers [NULL], at most [n] times. *)
Fixpoint readdir_all {K} `{Sys K} (fuel n : nat) (dir : positive) : ST (stdio K) Empty_set (list (list Z)) :=
  match n with
  | O => fail OutOfFuel
  | S n =>
      d ← readdir fuel dir;
      match d with
      | None => mret []
      | Some name => rest ← readdir_all fuel n dir; mret (name :: rest)
      end
  end.

Lemma readdir_all_runs {K} `{Sys K} h holds (Hread : readable h holds) fuel f l names : forall n x s,
  stream h holds f x l s -> Z.of_nat (List.length l) < 2 ^ 63 -> remaining x l = listing names ->
  Forall name_ok names -> (List.length names < n)%nat ->
  runs (readdir_all fuel n f) s (fun r s' => r = names /\ exists x', stream h holds f x' l s' /\ remaining x' l = []).
Proof.
  induction names as [|name names IH]; intros [|n] x s Hst Hl Hrem Hn Hlen; try (cbn in *; lia); cbn [readdir_all]; apply runs_bind.
  - eapply runs_mono; [by eapply readdir_end|]. intros d s1 (->&Hx). by apply runs_ret.
  - apply Forall_cons in Hn as [[Hb Hsz] Hn]. rewrite listing_cons, <- app_assoc in Hrem. cbn [app] in Hrem.
    unfold NAME_SIZE in *. eapply runs_mono; [eapply (readdir_name h holds Hread fuel f l name 257 []); try done; unfold NAME_SIZE; cbn [List.length]; lia|].
    intros d s1 (->&x1&Hst1&Hrem1). apply runs_bind. cbn [List.length] in Hlen.
    eapply runs_mono; [by eapply (IH n x1 s1); try done; lia|]. intros r s2 (->&Hx). by apply runs_ret.
Qed.

(** C40: reading a directory gives its names back: from a stream at the start of a
    listing, as the servers make it ([UserFs.listing]), whatever the kernel's reads
    answer at a time and whatever is buffered or was pushed back, [readdir] answers
    the names one by one, in order, and then the null pointer.  The names are
    shorter than [d_name] and do not hold the byte 255, which [fgetc] cannot tell
    from the end of the file. *)
Theorem readdir_lists {K} `{Sys K} h (holds : list Z -> K -> Prop) fuel f x l names (s : stdio K) :
  readable h holds -> stream h holds f x l s -> Z.of_nat (List.length l) < 2 ^ 63 ->
  remaining x l = listing names -> Forall name_ok names ->
  exists s', readdir_all fuel (S (List.length names)) f s = Val names s'.
Proof.
  intros Hread Hst Hl Hrem Hn.
  destruct (runs_inv _ _ _ (readdir_all_runs h holds Hread fuel f l names (S (List.length names)) x s Hst Hl Hrem Hn ltac:(lia)))
    as (r&s'&E&->&_). by exists s'.
Qed.

(** "a", "b/", after a read of the first byte of the file and pushing it back. *)
Lemma readdir_lists_witness :
  let x := a_stream <| fpos := 1 |> <| pushedback := true |> <| pushback := 97 |> in
  exists s', @readdir_all _ one_file 5 3 4 (opened x <| kern := listing [[97]; [98; 47]] |>) = Val [[97]; [98; 47]] s'.
Proof.
  intros x.
  destruct (@readdir_lists _ one_file 3 eq 5 4 x (listing [[97]; [98; 47]]) [[97]; [98; 47]]
    (opened x <| kern := listing [[97]; [98; 47]] |>) (one_file_readable 3)) as (s'&E).
  - unfold stream, coherent. split_and!; try reflexivity; cbn; lia.
  - cbn. lia.
  - reflexivity.
  - repeat (apply Forall_cons_2; [split; [repeat (apply Forall_cons_2; [lia|]); apply Forall_nil_2|by vm_compute]|]). apply Forall_nil_2.
  - exists s'. exact E.
Defined.

(** ** Programs

    [find] on a directory with a file and a directory with a file. *)

Definition some_tree : tty := mkTty
  {[ [47] := listing [[97]; [98; 47]]; [47; 98; 47] := listing [[99]] ]} ∅ [].

Lemma find_lists_tree :
  exists s, @find_main _ tty_sys (lit "find") 20 5 [] (stdio0 some_tree) = Val () s /\
    t_out (kern s) = before_nul (lit "/a\n/b/\n/b/c\n").
Proof. eexists. split; [vm_compute; reflexivity|reflexivity]. Qed.

(** The path is put together without regard to the buffer. *)
Lemma find_overflows {K} `{Sys K} progname fuel rec path dir name s s1 s2 s3 :
  set_errno 0 s = Val () s1 -> readdir fuel dir s1 = Val (Some name) s2 ->
  printf (lit "%s%s\n") [VStr path; VStr name] s2 = Val () s3 -> last name = Some 47 ->
  PATH_MAX < Z.of_nat (List.length path + List.length name) + 1 ->
  find_turn (K := K) progname fuel rec path dir () s = Fault Undefined.
Proof.
  intros E1 E2 E3 Hl Hlong. unfold find_turn, mbind, st_bind. rewrite E1, E2, E3.
  rewrite bool_decide_true by done. by rewrite (proj2 (Z.ltb_lt _ _)).
Qed.

(** A request for a file; the kernel writes what it prints and what it sends to
    the same place. *)
Definition some_site : tty := mkTty
  {[ [99] := before_nul (lit "GET /a HTTP/1.1\n"); [47; 97] := [104; 105] ]} ∅ [].

Lemma http_serves_file :
  exists s, (c ← @fopen _ tty_sys (Some [99; 0]) (lit "r"); c ← deref c; @handle _ tty_sys 20 (fun p _ => tty_open p) c)
      (stdio0 some_site) = Val () s /\
    t_out (kern s) = before_nul (lit "GET /a HTTP/1.1\n") ++ before_nul (lit "HTTP/1.1 200 OK") ++ crlf ++ crlf ++ [104; 105].
Proof. eexists. split; [vm_compute; reflexivity|reflexivity]. Qed.

(** A connection that is closed without a line: the server prints what is on its
    stack. *)
Lemma http_empty_request :
  (c ← @fopen _ tty_sys (Some [99; 0]) (lit "r"); c ← deref c; @handle _ tty_sys 20 (fun p _ => tty_open p) c)
      (stdio0 (mkTty {[ [99] := [] ]} ∅ [])) = Fault Undefined.
Proof. vm_compute. reflexivity. Qed.
