(* ===== verification/Iochk.v ===== *)
(** * Iochk

    The checker of file servers ([src/src/cmd/iochk.c]): it reads a file from
    offsets that are close to each other and compares what the blocks have in
    common. *)

From Stdlib Require Import String.
From stdpp Require Import sorting.
From S2P Require Import Prelude Monad Mem Ring Printf CString NetUtil KState Stdio StdioSpec Builtins.

Definition buflen : Z := 4096.

Definition offsets : list Z := [0; 1; 2; 3; 4; 5; 6; 7; 8; 16; 32; 64; 128; 256; 512; 1024; 2048].

Section iochk.
Context {K : Type} `{Sys K}.
Context (progname : list Z) (verbose : bool).

Local Abbreviation L := (ST (stdio K) Empty_set).
Local Abbreviation P := (ST (stdio K) Z).

(** [_sys_read] into a buffer: the result and the buffer afterwards. *)
Definition read_into (h : Z) (buf : list Z) (off : Z) : L (Z * list Z) := fun s =>
  let '(ret, bytes, k) := sys_read h buflen off (kern s) in
  Val (ret, bytes ++ drop (List.length bytes) buf) (s <| kern := k |>).

Definition verbosef (fmt : list Z) (args : list va) : L () := if verbose then printf fmt args else mret ().

(** The loop over the offsets: the block that was read last, where, how much of
    it, and the other buffer. *)
Fixpoint check_from (h : Z) (offs : list Z) (offlast retlast : Z) (buflast bufcur : list Z) : L () :=
  match offs with
  | [] => mret ()
  | offcur :: offs =>
      let diff := offcur - offlast in
      assert (0 <=? diff);;
      if retlast <? diff then mret ()
      else
        '(retcur, bufcur) ← read_into h bufcur offcur;
        if retcur <? 0 then
          (* the result that is printed is the last one *)
          eprintf (lit "error %ld when reading at offset %ld") [VInt retlast; VInt offcur]
        else
          (if retcur <? retlast + offlast - offcur then
             verbosef (lit "warn: unexpected ret %ld < %ld + %ld - %ld\n") [VInt retcur; VInt retlast; VInt offlast; VInt offcur]
           else mret ());;
          a ← lift (fetch buflast diff (retlast - diff));
          b ← lift (fetch bufcur 0 (retlast - diff));
          (if bool_decide (a = b) then mret ()
           else eprintf (lit "inconsistent read from offsets %ld and %ld") [VInt offlast; VInt offcur]);;
          check_from h offs offcur retcur bufcur buflast
  end.

(** The contents of fresh memory are [buflast] and [bufcur]. *)
Definition check (buflast bufcur : list Z) (h : Z) : P () :=
  ok1 ← lib (call malloc_ok);
  ok2 ← lib (call malloc_ok);
  if negb ok1 || negb ok2 then err progname 1 (lit "malloc") []
  else
    '(retlast, buflast) ← lib (read_into h buflast 0);
    if retlast <? 0 then lib (eprintf (lit "error %ld when reading at offset %ld") [VInt retlast; VInt 0])
    else lib (check_from h offsets 0 retlast buflast bufcur).

(** What is behind the options. *)
Definition check_file (buflast bufcur path : list Z) : P () :=
  lib (verbosef (lit "checking %s...\n") [va_str path]);;
  h ← lib (open_ path OPEN_READ);
  if h <? 0 then err progname 1 (lit "open %s") [va_str path]
  else check buflast bufcur h;; lib (close_ h).

Definition iochk_main (buflast bufcur : list Z) (paths : list (list Z)) : P Z :=
  if bool_decide (paths = []) then lib (eprintf (lit "usage: iochk [-v] file [files...]\n") []);; mret 1
  else forM paths (check_file buflast bufcur);; mret 0.
End iochk.

(** ** What it accepts *)

Section sound.
Context {K : Type} `{Sys K} (progname : list Z) (verbose : bool).

(** The handle reads the contents [t], as much as there is. *)
Record serves (h : Z) (t : list Z) : Prop := {
  sv_malloc : forall k, malloc_ok k = (true, k);
  sv_read : forall k off, 0 <= off ->
    sys_read h buflen off k =
      (Z.of_nat (List.length (take (Z.to_nat buflen) (drop (Z.to_nat off) t))), take (Z.to_nat buflen) (drop (Z.to_nat off) t), k);
}.

Context (h : Z) (t : list Z) (Hs : serves h t).

(** The block of the contents at an offset. *)
Definition block (off : Z) : list Z := take (Z.to_nat buflen) (drop (Z.to_nat off) t).

Lemma read_into_block buf off s : 0 <= off ->
  read_into h buf off s = Val (Z.of_nat (List.length (block off)), block off ++ drop (List.length (block off)) buf) s.
Proof. intros Ho. unfold read_into. rewrite (sv_read h t Hs) by done. by destruct s. Qed.

Lemma length_block off : (List.length (block off) <= Z.to_nat buflen)%nat.
Proof. unfold block. rewrite length_take. lia. Qed.

(** A block and a later one agree where both are. *)
Lemma block_overlap o1 o2 n : 0 <= o1 <= o2 -> (n + Z.to_nat (o2 - o1) <= List.length (block o1))%nat ->
  take n (drop (Z.to_nat (o2 - o1)) (block o1)) = take n (block o2) /\ (n <= List.length (block o2))%nat.
Proof.
  intros Ho Hn. unfold block in *. rewrite length_take, length_drop in Hn.
  assert (Z.to_nat o2 = (Z.to_nat o1 + Z.to_nat (o2 - o1))%nat) as E by lia. split.
  - apply list_eq. intros i. destruct (decide (i < n)%nat) as [Hi|Hi].
    + rewrite !lookup_take_lt, !lookup_drop, lookup_take_lt, lookup_drop by lia. f_equal. lia.
    + rewrite !lookup_take_ge by lia. done.
  - rewrite length_take, length_drop. lia.
Qed.

Lemma fetch_block off junk d n : 0 <= d -> 0 <= n -> d + n <= Z.of_nat (List.length (block off)) ->
  fetch (block off ++ junk) d n = Ok (take (Z.to_nat n) (drop (Z.to_nat d) (block off))).
Proof.
  intros Hd Hn Hl. rewrite fetch_in by (rewrite length_app; lia). f_equal.
  rewrite drop_app_le by lia. rewrite take_app_le; [done|]. rewrite length_drop. lia.
Qed.

Lemma check_from_silent offs : forall offlast junk bufcur s,
  0 <= offlast -> Sorted Z.le (offlast :: offs) ->
  check_from verbose h offs offlast (Z.of_nat (List.length (block offlast))) (block offlast ++ junk) bufcur s = Val () s.
Proof.
  induction offs as [|off offs IH]; intros offlast junk bufcur s H0 Hsort; [done|]. cbn [check_from].
  inversion_clear Hsort as [|? ? Hsort' Hle]. inversion_clear Hle as [|? ? Hle'].
  unfold mbind, st_bind, assert, lift, mret, st_ret. rewrite (proj2 (Z.leb_le _ _)) by lia. cbv beta iota.
  destruct (Z.ltb_spec (Z.of_nat (List.length (block offlast))) (off - offlast)) as [Hlt|Hge]; [done|].
  rewrite read_into_block by lia. cbv beta iota. rewrite (proj2 (Z.ltb_ge _ 0)) by lia.
  destruct (block_overlap offlast off (List.length (block offlast) - Z.to_nat (off - offlast))) as [Heq Hn]; [lia|lia|].
  rewrite (proj2 (Z.ltb_ge _ _)) by lia. cbv beta iota. rewrite (fetch_block offlast) by lia. cbv beta iota.
  rewrite (fetch_block off) by lia. cbv beta iota. rewrite bool_decide_true.
  - apply IH; [lia|done].
  - rewrite drop_0. replace (Z.to_nat (_ - (off - offlast))) with (List.length (block offlast) - Z.to_nat (off - offlast))%nat by lia.
    exact Heq.
Qed.
End sound.

(** [check] is silent about a handle whose reads are pieces of one sequence of
    bytes, as many as there are: it changes nothing and prints nothing. *)
Theorem check_accepts {K} `{Sys K} progname verbose h t buf1 buf2 (s : stdio K) :
  serves h t -> check progname verbose buf1 buf2 h s = Val () s.
Proof.
  intros Hs. unfold check, lib, mbind, st_bind, call. rewrite (sv_malloc h t Hs). cbn [kern negb orb].
  rewrite (sv_malloc h t Hs). cbn [kern negb orb]. rewrite (read_into_block h t Hs) by lia. cbv iota beta.
  rewrite (proj2 (Z.ltb_ge _ 0)) by lia. rewrite (check_from_silent verbose h t Hs).
  - by destruct s.
  - lia.
  - by repeat constructor.
Qed.

(** A handle on "hello", whatever was written. *)
Definition hello : list Z := [104; 101; 108; 108; 111].

Definition constant : Sys () := {|
  sys_read := fun _ len off k =>
    let b := take (Z.to_nat len) (drop (Z.to_nat off) hello) in (Z.of_nat (List.length b), b, k);
  sys_write := fun _ data _ _ k => (Z.of_nat (List.length data), k);
  sys_dup := fun h _ _ k => (h, k);
  sys_getsize := fun _ k => (5, k);
  sys_close := fun _ k => k;
  camellia_open := fun _ _ k => (3, k);
  malloc_ok := fun k => (true, k);
|}.

Lemma check_accepts_witness : @check _ constant (lit "iochk") true [] [] 3 (stdio0 ()) = Val () (stdio0 ()).
Proof. apply (@check_accepts _ constant (lit "iochk") true 3 hello). by split. Defined.

(** ** What goes wrong

    A handle that reads less than it could, which is allowed, is called
    inconsistent: the comparison includes what the buffer held before. *)
Definition short_reads : Sys tty := {|
  sys_read := fun h len pos k =>
    let n := (if (pos =? 0)%Z then 4 else 1)%nat in
    let bytes := take n (drop (Z.to_nat pos) (default [] (t_text k !! [47; 97]))) in (Z.of_nat (List.length bytes), bytes, k);
  sys_write := @sys_write _ tty_sys; sys_dup := @sys_dup _ tty_sys; sys_getsize := @sys_getsize _ tty_sys;
  sys_close := @sys_close _ tty_sys; camellia_open := @camellia_open _ tty_sys; malloc_ok := @malloc_ok _ tty_sys;
|}.

Lemma short_reads_reported :
  exists s, @check _ short_reads (lit "iochk") false (repeat 0 4096) (repeat 0 4096) 3 (stdio0 two_files) = Val () s /\
    t_out (kern s) = before_nul (lit "inconsistent read from offsets 0 and 1").
Proof. eexists. split; [vm_compute; reflexivity|reflexivity]. Qed.
