(* ===== verification/Tmpfs.v ===== *)
(** * Tmpfs

    The file system in memory ([src/src/cmd/tmpfs.c]).  Nodes are objects
    behind pointers, linked through [sibling] and [child] and back through
    [ref], which points to the field that refers to the node; the root is
    object 1.  The contents of a file are the [capacity] bytes of its buffer.

    What [malloc] leaves in fresh memory, and whether it succeeds for a size,
    are parameters. *)

From S2P Require Import Prelude Monad Mem FsUtil Printf CString NetUtil KState Stdio UserFs.

(** [struct node **ref]: the [child] or the [sibling] field of a node. *)
Inductive nref := RChild (p : positive) | RSibling (p : positive).

Record node := mkNode {
  n_name : list Z;           (* with the terminator *)
  n_namelen : Z;
  n_directory : bool;
  n_buf : list Z;            (* [capacity] bytes *)
  n_size : Z;
  n_open : Z;
  n_sibling : option positive;
  n_child : option positive;
  n_ref : option nref;
}.
#[export] Instance node_settable : Settable node := fun n =>
  mkNode (n_name n) (n_namelen n) (n_directory n) (n_buf n) (n_size n) (n_open n) (n_sibling n)
    (n_child n) (n_ref n).

(** The answers given: request, bytes or the id of a node, value. *)
Inductive tmpfs_reply := TNull | TBytes (b : list Z) | TId (p : positive).
Definition treply : Type := Z * tmpfs_reply * Z.

Record tmpfs := mkTmpfs {
  t_nodes : gmap positive node;
  t_next : positive;
  t_out : list treply;
}.
#[export] Instance tmpfs_settable : Settable tmpfs := fun t =>
  mkTmpfs (t_nodes t) (t_next t) (t_out t).

Definition node_root : positive := 1.
Definition node0 : node := mkNode [0] 0 true [] 0 0 None None None.
Definition tmpfs0 : tmpfs := mkTmpfs {[ node_root := node0 ]} 2 [].

Local Abbreviation T := (ST tmpfs Empty_set).

Class TEnv := {
  t_fresh : Z;
  t_alloc : Z -> bool;
}.

Definition sizeof_node : Z := 80.
Definition buflen : Z := 4096.
Definition ENOTEMPTY : Z := 9.
Definition ENAMETOOLONG : Z := 201.

Definition rd_node (p : positive) : T node := s ← get_; deref (t_nodes s !! p).
Definition wr_node (p : positive) (f : node -> node) : T () :=
  s ← get_; n ← deref (t_nodes s !! p); put_ (s <| t_nodes ::= <[p := f n]> |>).

Definition new_node (n : node) : T positive :=
  s ← get_;
  let p := t_next s in
  put_ (s <| t_nodes ::= <[p := n]> |> <| t_next := Pos.succ p |>);;
  mret p.

Definition free_node (p : positive) : T () :=
  s ← get_; _ ← deref (t_nodes s !! p); put_ (s <| t_nodes ::= delete p |>).

Definition t_respond (reqh : Z) (r : tmpfs_reply) (val : Z) : T () :=
  modify (set t_out (fun l => l ++ [(reqh, r, val)])).

(** [*ref = v] *)
Definition set_ref (r : nref) (v : option positive) : T () :=
  match r with
  | RChild p => wr_node p (set n_child (fun _ => v))
  | RSibling p => wr_node p (set n_sibling (fun _ => v))
  end.

Definition tnode_count (s : tmpfs) : nat := S (size (t_nodes s)).

(** ** Nodes *)

(** [iter->namelen == len && !memcmp(name, iter->name, len)] *)
Definition name_is (n : node) (name : list Z) : bool :=
  (n_namelen n =? Z.of_nat (length name)) &&
  bool_decide (take (length name) (n_name n) = name).

Definition getchild_turn (name : list Z) (p : option positive) :
    T (option positive + option positive) :=
  match p with
  | None => mret (inr None)
  | Some p =>
      n ← rd_node p;
      if name_is n name then mret (inr (Some p)) else mret (inl (n_sibling n))
  end.

Definition node_getchild (parent : positive) (name : list Z) : T (option positive) :=
  n ← rd_node parent;
  k ← gets tnode_count;
  iter k (getchild_turn name) (n_child n).

(** The node that [tmpfs_open] creates below [parent]; [None] if there is no
    memory for its name. *)
Definition node_create `{TEnv} (parent : positive) (name : list Z) (directory : bool) :
    T (option positive) :=
  (* calloc is not checked *)
  if negb (t_alloc sizeof_node) then fail Undefined
  else
    p ← new_node (node0 <| n_directory := false |>);
    if negb (t_alloc (Z.of_nat (length name) + 1)) then free_node p;; mret None
    else
      wr_node p (fun n : node => n <| n_name := name ++ [0] |> <| n_directory := directory |>
                      <| n_namelen := Z.of_nat (length name) |>);;
      par ← rd_node parent;
      (match n_child par with
       | Some c => wr_node c (set n_ref (fun _ => Some (RSibling p)));; set_ref (RSibling p) (Some c)
       | None => mret ()
       end);;
      wr_node p (set n_ref (fun _ => Some (RChild parent)));;
      set_ref (RChild parent) (Some p);;
      mret (Some p).

(** The length of the next segment, and whether it ends with a slash. *)
Fixpoint seg_length (path : list Z) : nat * bool :=
  match path with
  | [] => (0%nat, false)
  | c :: path => if c =? 47 then (1%nat, true) else let '(n, s) := seg_length path in (S n, s)
  end.

(** The loop over the segments; [path] is what is left. *)
Definition open_turn `{TEnv} (flags : Z) (x : positive * list Z) :
    T ((positive * list Z) + option positive) :=
  let '(parent, path) := x in
  let '(seglen, slash) := seg_length path in
  let name := take seglen path in
  let rest := drop seglen path in
  let more := negb (bool_decide (rest = [])) in
  c ← node_getchild parent name;
  c ← (match c with
       | Some p => mret (Some p)
       | None => if negb more && negb (Z.land flags OPEN_CREATE =? 0)
                 then node_create parent name slash else mret None
       end);
  match c with
  | None => mret (inr None)
  | Some p => if more then mret (inl (p, rest)) else mret (inr (Some p))
  end.

Definition tmpfs_open `{TEnv} (path : list Z) (flags : Z) : T (option positive) :=
  match path with
  | [] => mret None
  | [_] => mret (Some node_root)
  | _ :: path =>
      r ← iter (length path) (open_turn flags) (node_root, path);
      match r with
      | None => mret None
      | Some p => wr_node p (set n_open (fun o => u64 (o + 1)));; mret (Some p)
      end
  end.

Definition node_close (p : positive) : T () :=
  wr_node p (set n_open (fun o => u64 (o - 1)));;
  n ← rd_node p;
  if negb (is_some (n_ref n)) && negb (bool_decide (p = node_root)) && (n_open n =? 0)
  then free_node p else mret ().

Definition node_remove (p : positive) : T Z :=
  if bool_decide (p = node_root) then mret (-1)
  else
    n ← rd_node p;
    match n_ref n with
    | None => mret (-1)
    | Some r =>
        if is_some (n_child n) then mret (- ENOTEMPTY)
        else
          set_ref r (n_sibling n);;
          wr_node p (set n_ref (fun _ => None));;
          node_close p;;
          mret 0
    end.

(** ** Requests *)

(** The names of the entries from [p] on, for a listing: by their length, or up
    to the first 0. *)
Definition children_turn (by_len : bool) (x : option positive * list (list Z)) :
    T ((option positive * list (list Z)) + list (list Z)) :=
  match x.1 with
  | None => mret (inr x.2)
  | Some p =>
      n ← rd_node p;
      len ← (if by_len then mret (n_namelen n) else lift (strlen (n_name n)));
      mret (inl (n_sibling n, x.2 ++ [take (Z.to_nat len) (n_name n)]))
  end.

Definition dir_list (by_len : bool) (db : dirbuild) (n : node) : T dirbuild :=
  k ← gets tnode_count;
  names ← iter k (children_turn by_len) (n_child n, []);
  lift (dir_append_all db names).

Definition tmpfs_read (reqh : Z) (buf : list Z) (q : ufs_request) : T () :=
  n ← rd_node (q_id q);
  if n_directory n then
    db ← dir_list true (dir_start (q_offset q) (Some buf) buflen) n;
    t_respond reqh (TBytes (take (Z.to_nat (dir_finish db)) (default [] (db_buf db)))) (dir_finish db)
  else
    '(off, len) ← lift (fs_normslice (q_offset q) (q_len q) (n_size n) false);
    data ← lift (fetch (n_buf n) off len);
    t_respond reqh (TBytes data) len.

(** [ptr->capacity = (req.offset + req.len + 511) & ~511; realloc] *)
Definition node_grow `{TEnv} (p : positive) (stop : Z) : T () :=
  n ← rd_node p;
  if Z.of_nat (length (n_buf n)) <=? stop then
    let capacity := Z.land (u64 (stop + 511)) (Z.lnot 511) in
    if t_alloc capacity then
      wr_node p (fun n : node => n <| n_buf ::= fun b => take (Z.to_nat capacity) b ++
                      replicate (Z.to_nat capacity - length b) t_fresh |>)
    else fail Undefined              (* the null pointer is written through *)
  else mret ().

Definition tmpfs_write `{TEnv} (reqh : Z) (buf : list Z) (q : ufs_request) : T () :=
  n ← rd_node (q_id q);
  if n_directory n then t_respond reqh TNull (- ENOSYS)
  else
    '(off, len) ← lift (fs_normslice (q_offset q) (q_len q) (n_size n) true);
    node_grow (q_id q) (u64 (off + len));;
    n ← rd_node (q_id q);
    data ← lift (fetch buf 0 len);
    b ← lift (store (n_buf n) off data);
    wr_node (q_id q) (set n_buf (fun _ => b));;
    (if negb (Z.land (q_flags q) WRITE_TRUNCATE =? 0) || (n_size n <? u64 (off + len)) then
       wr_node (q_id q) (set n_size (fun _ => u64 (off + len)))
     else mret ());;
    t_respond reqh TNull len.

Definition tmpfs_getsize (reqh : Z) (q : ufs_request) : T () :=
  n ← rd_node (q_id q);
  if n_directory n then
    db ← dir_list false (dir_start (q_offset q) None buflen) n;
    t_respond reqh TNull (dir_finish db)
  else t_respond reqh TNull (n_size n).

(** A turn of [main]'s loop, with the buffer that [ufs_wait] has filled. *)
Definition tmpfs_request `{TEnv} (buf : list Z) (reqh : Z) (q : ufs_request) : T () :=
  match q_op q with
  | VFSOP_OPEN =>
      (* the first answer is [ufs_wait]'s *)
      if q_len q =? buflen then t_respond reqh TNull (- ENAMETOOLONG)
      else
        path ← lift (fetch buf 0 (q_len q));
        p ← tmpfs_open path (q_flags q);
        match p with
        | Some p => t_respond reqh (TId p) 0
        | None => t_respond reqh TNull (- ENOENT)
        end
  | VFSOP_READ => tmpfs_read reqh buf q
  | VFSOP_WRITE => tmpfs_write reqh buf q
  | VFSOP_GETSIZE => tmpfs_getsize reqh q
  | VFSOP_REMOVE => r ← node_remove (q_id q); t_respond reqh TNull r
  | VFSOP_CLOSE => node_close (q_id q);; t_respond reqh TNull (-1)
  end.

(** ** Files as sequences of bytes

    What reading, writing and asking for the size of one file come to. *)

Inductive file_op :=
| FRead (off len : Z)
| FWrite (off : Z) (data : list Z) (truncate : bool)
| FSize.

(** The answer and the contents afterwards; writing behind the end is left out,
    as the gap holds whatever the memory did. *)
Definition file_step (op : file_op) (l : list Z) : option (tmpfs_reply * Z * list Z) :=
  let size := Z.of_nat (length l) in
  match op with
  | FRead off len =>
      let '(o, n) := slice_spec off len size false in
      Some (TBytes (take (Z.to_nat n) (drop (Z.to_nat o) l)), n, l)
  | FWrite off data truncate =>
      let '(o, n) := slice_spec off (Z.of_nat (length data)) size true in
      let data := take (Z.to_nat n) data in
      if o <=? size then
        Some (TNull, n, take (Z.to_nat o) l ++ data ++
                        (if truncate then [] else drop (Z.to_nat o + length data) l))
      else None
  | FSize => Some (TNull, size, l)
  end.

Fixpoint file_run (ops : list file_op) (l : list Z) : option (list (tmpfs_reply * Z) * list Z) :=
  match ops with
  | [] => Some ([], l)
  | op :: ops =>
      '(r, v, l) ← file_step op l;
      '(rs, l) ← file_run ops l;
      Some ((r, v) :: rs, l)
  end.

(** The request for an operation, and the buffer that comes with it. *)
Definition op_request (p : positive) (op : file_op) : ufs_request :=
  match op with
  | FRead off len => mkUfs VFSOP_READ len len p off 0
  | FWrite off data truncate =>
      mkUfs VFSOP_WRITE (Z.of_nat (length data)) 0 p off (if truncate then WRITE_TRUNCATE else 0)
  | FSize => mkUfs VFSOP_GETSIZE 0 0 p 0 0
  end.

Definition op_buffer (op : file_op) : list Z :=
  let data := match op with FWrite _ data _ => data | _ => [] end in
  data ++ replicate (Z.to_nat buflen - length data) 0.

Definition op_ok (op : file_op) : Prop :=
  match op with
  | FRead off len => - 2 ^ 63 <= off < 2 ^ 63 /\ is_size len
  | FWrite off data _ => - 2 ^ 63 <= off < 2 ^ 63 /\ Z.of_nat (length data) <= buflen
  | FSize => True
  end.

(** The node [p] is a file with the contents [l]. *)
Definition file_at (p : positive) (l : list Z) (s : tmpfs) : Prop :=
  exists n, t_nodes s !! p = Some n /\ n_directory n = false /\
    n_size n = Z.of_nat (length l) /\ take (length l) (n_buf n) = l.

(** ** Rules *)

Lemma runs_rd_node p s n (Q : node -> tmpfs -> Prop) :
  t_nodes s !! p = Some n -> Q n s -> runs (rd_node p) s Q.
Proof. intros E HQ. unfold runs, rd_node, mbind, st_bind, get_, deref. by rewrite E. Qed.

Lemma runs_wr_node p f s n (Q : () -> tmpfs -> Prop) :
  t_nodes s !! p = Some n -> Q () (s <| t_nodes ::= <[p := f n]> |>) -> runs (wr_node p f) s Q.
Proof. intros E HQ. unfold runs, wr_node, mbind, st_bind, get_, deref. by rewrite E. Qed.

Lemma runs_respond reqh r v s (Q : () -> tmpfs -> Prop) :
  Q () (s <| t_out ::= (fun l => l ++ [(reqh, r, v)]) |>) -> runs (t_respond reqh r v) s Q.
Proof. done. Qed.

Lemma fetch_op_buffer off data tr k :
  0 <= k <= Z.of_nat (length data) ->
  fetch (op_buffer (FWrite off data tr)) 0 k = Ok (take (Z.to_nat k) data).
Proof.
  intros Hk. unfold op_buffer. rewrite fetch_in by (rewrite length_app; lia).
  change (Z.to_nat 0) with 0%nat. by rewrite drop_0, take_app_le by lia.
Qed.

(** Rounding up to blocks of 512. *)
Lemma round_up stop :
  0 <= stop < 2 ^ 63 ->
  stop <= Z.land (u64 (stop + 511)) (Z.lnot 511) /\ 0 <= Z.land (u64 (stop + 511)) (Z.lnot 511).
Proof.
  intros Hs. rewrite u64_small by (unfold is_size; lia).
  change (Z.lnot 511) with (Z.lnot (Z.ones 9)). rewrite <- Z.ldiff_land, Z.ldiff_ones_r by lia.
  rewrite Z.shiftl_mul_pow2, Z.shiftr_div_pow2 by lia.
  pose proof (Z.div_mod (stop + 511) (2 ^ 9) ltac:(lia)).
  pose proof (Z.mod_pos_bound (stop + 511) (2 ^ 9) ltac:(lia)). lia.
Qed.

(** ** One operation *)

Section file.
Context {TENV : TEnv} (Halloc : forall size, t_alloc size = true).

(** Other nodes stay as they are. *)
Definition same_but (p : positive) (s s' : tmpfs) : Prop :=
  forall q, q <> p -> t_nodes s' !! q = t_nodes s !! q.

Lemma grow_runs p s n stop (Q : () -> tmpfs -> Prop) :
  t_nodes s !! p = Some n -> 0 <= stop < 2 ^ 63 ->
  (forall k s', t_nodes s' !! p = Some (n <| n_buf := n_buf n ++ k |>) ->
     stop <= Z.of_nat (length (n_buf n ++ k)) -> t_out s' = t_out s -> same_but p s s' -> Q () s') ->
  runs (node_grow p stop) s Q.
Proof.
  intros Hn Hs HQ. unfold node_grow. apply runs_bind. eapply runs_rd_node; [exact Hn|].
  destruct (Z.of_nat (length (n_buf n)) <=? stop) eqn:E; zbool.
  - rewrite Halloc. destruct (round_up stop Hs) as [Hr Hr0].
    eapply runs_wr_node; [exact Hn|].
    apply (HQ (replicate (Z.to_nat (Z.land (u64 (stop + 511)) (Z.lnot 511)) - length (n_buf n)) t_fresh)).
    + etrans; [apply lookup_insert_eq|]. f_equal. unfold set; simpl. f_equal. by rewrite take_ge by lia.
    + rewrite length_app, length_replicate. lia.
    + done.
    + intros q Hq. cbn. by rewrite lookup_insert_ne.
  - apply runs_ret. apply (HQ []); rewrite ?app_nil_r; [by destruct n|lia|done|done].
Qed.

(** The contents after storing [data] at [o] and setting the size. *)
Lemma stored (l b : list Z) (o : nat) (data : list Z) (tr : bool) :
  take (length l) b = l -> (o <= length l)%nat -> (o + length data <= length b)%nat ->
  let l' := take o l ++ data ++ (if tr then [] else drop (o + length data) l) in
  take (length l') (splice o data b) = l' /\
  length l' = if tr then (o + length data)%nat else Nat.max (length l) (o + length data).
Proof.
  intros Hl Ho Hb l'. split.
  - assert (Hto : take o b = take o l) by (rewrite <- Hl, take_take; f_equal; lia).
    unfold splice, l'. rewrite Hto. destruct tr.
    + rewrite app_nil_r, app_assoc. apply take_app_length'. done.
    + set (rest := drop (o + length data) l).
      assert (Hr : take (length rest) (drop (o + length data) b) = rest).
      { unfold rest. rewrite length_drop, <- skipn_firstn_comm. by rewrite Hl. }
      rewrite !app_assoc, (length_app _ rest), take_app_add. by rewrite Hr.
  - unfold l'. rewrite !length_app, length_take. destruct tr; [cbn; lia|].
    rewrite length_drop. lia.
Qed.

(** The state after the answer [r], [v]; the file holds [l'] then. *)
Definition answered (p : positive) (l' : list Z) (reqh : Z) (r : tmpfs_reply) (v : Z)
    (s : tmpfs) (_ : ()) (s' : tmpfs) : Prop :=
  file_at p l' s' /\ t_out s' = t_out s ++ [(reqh, r, v)] /\ same_but p s s'.

Lemma read_step p l s off len reqh r v l' :
  file_at p l s -> op_ok (FRead off len) -> Z.of_nat (length l) + buflen < 2 ^ 62 ->
  file_step (FRead off len) l = Some (r, v, l') ->
  runs (tmpfs_request (op_buffer (FRead off len)) reqh (op_request p (FRead off len))) s (answered p l' reqh r v s).
Proof.
  intros (n&Hn&Hd&Hsize&Hl) Hok Hmax Hst. unfold buflen in *.
  cbn [op_request tmpfs_request q_op]. unfold tmpfs_read. cbn [q_id q_offset q_len].
  destruct Hok as [Hoff Hlen].
  destruct (fs_normslice_spec off len (Z.of_nat (length l)) false) as [Hns Hin]; [done..|unfold LONG_MAX; lia|].
  cbn in Hst. destruct (slice_spec off len (Z.of_nat (length l)) false) as [o k]. injection Hst as <- <- <-.
  specialize (Hin eq_refl). destruct Hin as (Ho&Hk&Hok).
  apply runs_bind. eapply runs_rd_node; [exact Hn|]. rewrite Hd, Hsize.
  apply runs_bind. eapply runs_lift; [exact Hns|]. cbn [fst snd].
  assert (Hlb : (length l <= length (n_buf n))%nat) by (rewrite <- Hl at 1; rewrite length_take; lia).
  apply runs_bind. eapply runs_lift; [apply fetch_in; lia|].
  apply runs_respond. split; [by exists n|]. split; [|done].
  assert (Hd2 : drop (Z.to_nat o) l = take (length l - Z.to_nat o) (drop (Z.to_nat o) (n_buf n)))
    by (rewrite <- skipn_firstn_comm; by rewrite Hl).
  rewrite Hd2, take_take, Nat.min_l by lia. done.
Qed.

(** The end of [tmpfs_write]: the bytes, the size, the answer. *)
Lemma write_end p s s1 n b l' (c : bool) size reqh v :
  t_nodes s1 !! p = Some n -> n_directory n = false -> take (length l') b = l' ->
  (if c then size else n_size n) = Z.of_nat (length l') -> t_out s1 = t_out s -> same_but p s s1 ->
  runs (wr_node p (set n_buf (fun _ => b));;
        (if c then wr_node p (set n_size (fun _ => size)) else mret ());;
        t_respond reqh TNull v) s1 (answered p l' reqh TNull v s).
Proof.
  intros Hn Hd Hb Hsz Hout Hsame. apply runs_bind. eapply runs_wr_node; [exact Hn|].
  apply runs_bind. destruct c;
    [eapply runs_wr_node; [cbn; by rewrite lookup_insert_eq|]|apply runs_ret]; apply runs_respond;
    (split; [eexists; cbn; rewrite lookup_insert_eq; split; [reflexivity|done]|];
     split; [cbn; by rewrite Hout|]; intros q Hq; cbn; rewrite !lookup_insert_ne by done; by apply Hsame).
Qed.

Lemma write_step p l s off data tr reqh r v l' :
  file_at p l s -> op_ok (FWrite off data tr) -> Z.of_nat (length l) + buflen < 2 ^ 62 ->
  file_step (FWrite off data tr) l = Some (r, v, l') ->
  runs (tmpfs_request (op_buffer (FWrite off data tr)) reqh (op_request p (FWrite off data tr))) s (answered p l' reqh r v s).
Proof.
  intros (n&Hn&Hd&Hsize&Hl) Hok Hmax Hst. unfold buflen in *.
  cbn [op_request tmpfs_request q_op]. unfold tmpfs_write. cbn [q_id q_offset q_len q_flags].
  destruct Hok as [Hoff Hlen]. unfold buflen in *.
  destruct (fs_normslice_spec off (Z.of_nat (length data)) (Z.of_nat (length l)) true) as [Hns _];
    [done|unfold is_size; lia|unfold LONG_MAX; lia|].
  cbn [file_step] in Hst.
  destruct (slice_spec off (Z.of_nat (length data)) (Z.of_nat (length l)) true) as [o k] eqn:Esl.
  destruct (o <=? Z.of_nat (length l)) eqn:Eo; [|done]. zbool. injection Hst as <- <- <-.
  assert (Hk : 0 <= k <= Z.of_nat (length data) /\ 0 <= o).
  { unfold slice_spec in Esl. cbn zeta in Esl. destruct (off <? 0) eqn:?; zbool;
      case_match; zbool; injection Esl as <- <-; lia. }
  apply runs_bind. eapply runs_rd_node; [exact Hn|]. rewrite Hd, Hsize.
  apply runs_bind. eapply runs_lift; [exact Hns|]. cbn [fst snd].
  rewrite (u64_small (o + k)) by (unfold is_size; lia).
  apply runs_bind. apply (grow_runs _ _ n); [done|lia|]. intros ext s1 Hn1 Hgrow Hout1 Hsame1.
  apply runs_bind. eapply runs_rd_node; [exact Hn1|]. cbn [n_buf set].
  change (n_buf (n <| n_buf := n_buf n ++ ext |>)) with (n_buf n ++ ext).
  change (n_size (n <| n_buf := n_buf n ++ ext |>)) with (n_size n). rewrite Hsize.
  set (b := n_buf n ++ ext) in *.
  assert (Hlb : (length l <= length (n_buf n))%nat) by (rewrite <- Hl at 1; rewrite length_take; lia).
  assert (Hb : take (length l) b = l) by (unfold b; by rewrite take_app_le).
  set (d := take (Z.to_nat k) data).
  assert (Hdl : length d = Z.to_nat k) by (unfold d; rewrite length_take; lia).
  apply runs_bind. eapply runs_lift.
  { apply fetch_op_buffer. lia. }
  fold d. apply runs_bind. eapply runs_lift.
  { apply store_in. rewrite Hdl. lia. }
  destruct (stored l b (Z.to_nat o) d tr Hb ltac:(lia) ltac:(rewrite Hdl; lia)) as [Hst Hl'].
  assert (Htr : negb (Z.land (if tr then WRITE_TRUNCATE else 0) WRITE_TRUNCATE =? 0) = tr) by (by destruct tr).
  rewrite Htr. eapply write_end; [exact Hn1|done|exact Hst| |done..].
  rewrite Hl', Hdl. change (n_size (n <| n_buf ::= _ |>)) with (n_size n). rewrite Hsize.
  destruct tr; cbn [orb]; [lia|]. destruct (Z.of_nat (length l) <? o + k) eqn:Ec; zbool; lia.
Qed.

(** An operation answers and changes the contents as [file_step] says. *)
Lemma tmpfs_step p l s op reqh r v l' :
  file_at p l s -> op_ok op -> Z.of_nat (length l) + buflen < 2 ^ 62 ->
  file_step op l = Some (r, v, l') ->
  runs (tmpfs_request (op_buffer op) reqh (op_request p op)) s (answered p l' reqh r v s).
Proof.
  destruct op as [off len|off data tr|]; [apply read_step|apply write_step|].
  intros (n&Hn&Hd&Hsize&Hl) _ _ Hst. injection Hst as <- <- <-.
  cbn [op_request tmpfs_request q_op]. unfold tmpfs_getsize. cbn [q_id].
  apply runs_bind. eapply runs_rd_node; [exact Hn|]. rewrite Hd, Hsize.
  apply runs_respond. split; [by exists n|done].
Qed.
End file.

(** ** Sequences of requests *)

(** Serving operations on one file, each under its request handle. *)
Fixpoint tmpfs_serve `{TEnv} (p : positive) (ops : list (Z * file_op)) : T () :=
  match ops with
  | [] => mret ()
  | (reqh, op) :: ops =>
      tmpfs_request (op_buffer op) reqh (op_request p op);; tmpfs_serve p ops
  end.

Definition replies (ops : list (Z * file_op)) (rs : list (tmpfs_reply * Z)) : list treply :=
  zip_with (fun (o : Z * file_op) (r : tmpfs_reply * Z) => (o.1, r.1, r.2)) ops rs.

(** A write adds at most one message. *)
Lemma file_step_length op l r v l' :
  op_ok op -> file_step op l = Some (r, v, l') ->
  Z.of_nat (length l') <= Z.of_nat (length l) + buflen.
Proof.
  destruct op as [off len|off data tr|]; cbn [file_step op_ok]; intros Hok Hst.
  - destruct (slice_spec _ _ _ _). injection Hst as <- <- <-. unfold buflen. lia.
  - destruct (slice_spec _ _ _ _) as [o k]. destruct (o <=? _) eqn:Eo; [|done]. zbool.
    injection Hst as <- <- <-. rewrite !length_app, !length_take.
    destruct tr; rewrite ?length_drop, ?length_take; cbn [length]; lia.
  - injection Hst as <- <- <-. unfold buflen. lia.
Qed.

(** C17: [tmpfs] keeps files as sequences of bytes.  However reads, writes and
    size queries on a file follow each other, the file system answers each
    request with the bytes and the value that [file_run] computes on the plain
    sequence of bytes, in order and one answer for each request, and leaves a
    file holding that sequence; nodes other than the file do not change.  The
    offsets may be negative or lie behind the end, the buffer grows as needed;
    only writes that leave a gap behind the end are excluded. *)
Theorem tmpfs_file_refines `{TEnv} p ops l s rs l' :
  (forall size, t_alloc size = true) ->
  file_at p l s ->
  Forall (fun o : Z * file_op => op_ok o.2) ops ->
  Z.of_nat (length l) + buflen * Z.of_nat (length ops) < 2 ^ 62 ->
  file_run (ops.*2) l = Some (rs, l') ->
  runs (tmpfs_serve p ops) s (fun _ s' =>
    file_at p l' s' /\ t_out s' = t_out s ++ replies ops rs /\ same_but p s s').
Proof.
  intros Halloc. revert l s rs. induction ops as [|[reqh op] ops IH]; intros l s rs Hat Hok Hmax Hrun.
  - injection Hrun as <- <-. apply runs_ret. by rewrite app_nil_r.
  - cbn [fmap list_fmap file_run snd] in Hrun.
    destruct (file_step op l) as [[[r v] l1]|] eqn:Hst; [|done]. cbn in Hrun.
    destruct (file_run (ops.*2) l1) as [[rs1 l2]|] eqn:Hrest; [|done]. injection Hrun as <- <-.
    apply Forall_cons in Hok as [Hop Hok]. cbn [snd] in Hop.
    pose proof (file_step_length _ _ _ _ _ Hop Hst). cbn [length] in Hmax. unfold buflen in *.
    cbn [tmpfs_serve]. apply runs_bind.
    eapply runs_mono; [eapply (tmpfs_step Halloc); [exact Hat|done|unfold buflen; lia|exact Hst]|].
    intros [] s1 (Hat1&Hout1&Hsame1).
    eapply runs_mono; [eapply IH; [exact Hat1|done|lia|exact Hrest]|].
    intros [] s2 (Hat2&Hout2&Hsame2). split; [done|]. split.
    + by rewrite Hout2, Hout1, <- app_assoc.
    + intros q Hq. by rewrite Hsame2, Hsame1.
Qed.

(** ** Scenarios *)

Definition tenv_ok : TEnv := {| t_fresh := 170; t_alloc := fun _ => true |}.

(** ["/a"] and ["/b"] in the order of their creation, nodes 2 and 3. *)
Definition req_open (name : list Z) : ufs_request :=
  mkUfs VFSOP_OPEN (Z.of_nat (length name)) 0 node_root 0 OPEN_CREATE.
Definition req_remove (p : positive) : ufs_request := mkUfs VFSOP_REMOVE 0 0 p 0 0.
Definition two_files : T () :=
  let E := tenv_ok in
  tmpfs_request [47; 97] 1 (req_open [47; 97]);; tmpfs_request [47; 98] 2 (req_open [47; 98]).

Definition final {A} (m : T A) : tmpfs :=
  match m tmpfs0 with Val _ s => s | _ => tmpfs0 end.

Definition some_ops : list (Z * file_op) :=
  [(3, FWrite 0 [1; 2; 3] false); (4, FWrite (-1) [4; 5] false); (5, FRead 1 9);
   (6, FWrite 1 [9] true); (7, FSize); (8, FRead (-2) 5)].

Lemma tmpfs_file_refines_witness :
  runs (@tmpfs_serve tenv_ok 2 some_ops) (final two_files) (fun _ s' =>
    file_at 2 [1; 9] s' /\
    t_out s' = [(1, TId 2, 0); (2, TId 3, 0); (3, TNull, 3); (4, TNull, 2);
                (5, TBytes [2; 3; 4; 5], 4); (6, TNull, 1); (7, TNull, 2); (8, TBytes [9], 1)]).
Proof.
  eapply runs_mono.
  - apply (@tmpfs_file_refines tenv_ok 2 some_ops [] (final two_files)
      [(TNull, 3); (TNull, 2); (TBytes [2; 3; 4; 5], 4); (TNull, 1); (TNull, 2); (TBytes [9], 1)] [1; 9]).
    + done.
    + eexists. by vm_compute.
    + unfold some_ops, op_ok, is_size, buflen.
      repeat (apply Forall_cons_2; [cbn [snd length]; lia|]). by apply Forall_nil_2.
    + unfold buflen. cbn [length some_ops]. lia.
    + reflexivity.
  - intros [] s' (Hat&Hout&_). split; [done|]. rewrite Hout. reflexivity.
Defined.

(** [node_remove] does not tell the next sibling that its [ref] has moved: after
    the removal of ["/b"], which comes first, removing ["/a"] writes through a
    pointer into the freed node. *)
Lemma remove_leaves_stale_ref :
  let E := tenv_ok in
  (two_files;; tmpfs_request [] 3 (req_remove 3);; tmpfs_request [] 4 (req_remove 2)) tmpfs0
  = Fault Undefined.
Proof. reflexivity. Qed.

(** If ["/b"] is open once more it is not freed, the removal of ["/a"] goes to
    the removed node, and the root still leads to the freed ["/a"]: looking up
    a third name follows it. *)
Lemma remove_keeps_dangling_child :
  let E := tenv_ok in
  (two_files;; tmpfs_request [47; 98] 3 (req_open [47; 98]);;
   tmpfs_request [] 4 (req_remove 3);; tmpfs_request [] 5 (req_remove 2);;
   tmpfs_request [47; 99] 6 (req_open [47; 99])) tmpfs0 = Fault Undefined.
Proof. reflexivity. Qed.
