(* ===== verification/Wrap.v ===== *)
(** * Wrap

    The file systems that wrap the one a process already sees
    ([src/src/libc/fs/misc.c], [whitelist.c], [dirinject.c]): they pass an
    [open] on, under another name or not at all, and make up directories.

    Each is a loop around [_sys_fs_wait]; a definition here is one turn of it.
    What a turn does shows in the answers it gives: [Answer] is a call of
    [_sys_fs_respond], [Forward] the process that [forward_open] starts, which
    opens the path itself and delegates the handle.  The system calls are those
    of [Sys] and [_sys_open], on a state of the kernel that is a parameter. *)

From S2P Require Import Prelude Monad Mem Path Printf CString NetUtil KState Stdio UserFs.

Class OpenSys (K : Type) := {
  open_sys :: Sys K;
  sys_open : list Z -> Z -> K -> Z * K;       (* path, flags *)
}.

Inductive wreply := WNull | WBytes (b : list Z) | WId (p : positive).

Inductive wevent :=
| Answer (reqh : Z) (r : wreply) (val flags : Z)
| Forward (reqh : Z) (path : list Z) (flags : Z).

(** What the ids of open files point to: the path of an injected directory
    ([fs_whitelist]) or a [Handle] ([fs_dirinject2]). *)
Inductive wobj :=
| WPath (path : list Z)
| WHandle (delegate : Z) (path : list Z).

Record wrap (K : Type) := mkWrap {
  w_kern : K;
  w_objs : gmap positive wobj;
  w_next : positive;
  w_out : list wevent;
}.
Arguments mkWrap {K}.
Arguments w_kern {K}.
Arguments w_objs {K}.
Arguments w_next {K}.
Arguments w_out {K}.
#[export] Instance wrap_settable K : Settable (wrap K) := fun w =>
  mkWrap (w_kern w) (w_objs w) (w_next w) (w_out w).

Definition wrap0 {K} (k : K) : wrap K := mkWrap k ∅ 1 [].

(** [":ro"] *)
Definition str_ro : list Z := [58; 114; 111].

Definition dir_seglen2 (path : list Z) : nat :=
  match list_find (fun c => c = slash) path with
  | Some (i, _) => S i
  | None => length path
  end.

Fixpoint dir_seglen (path : list Z) : nat :=
  match path with
  | [] => 0
  | c :: path => if c =? slash then 1 else S (dir_seglen path)
  end.

(** The length without the suffix, and whether there is one. *)
Definition suffix_parse (path : list Z) : nat * bool :=
  if (3 <=? length path)%nat && bool_decide (drop (length path - 3) path = str_ro)
  then ((length path - 3)%nat, true) else (length path, false).

(** [memcmp(a, b, n) == 0] *)
Definition same_start (n : nat) (a b : list Z) : bool := bool_decide (take n a = take n b).

Definition prefix_match (prefix full : list Z) : bool :=
  let plen := length prefix in
  let flen := length full in
  if (flen <? plen)%nat then false
  else if (flen =? plen)%nat then same_start flen full prefix
  else (1 <=? plen)%nat && bool_decide (last prefix = Some slash) && same_start plen full prefix.

Section wrap.
Context {K : Type} {KS : OpenSys K}.
Local Abbreviation W := (ST (wrap K) Empty_set).

Definition wcall {A} (f : K -> A * K) : W A := fun s =>
  let '(a, k) := f (w_kern s) in Val a (s <| w_kern := k |>).

Definition emit (e : wevent) : W () := modify (set w_out (fun l => l ++ [e])).
Definition answer (reqh : Z) (r : wreply) (val : Z) : W () := emit (Answer reqh r val 0).

Definition forward_open (reqh : Z) (path : list Z) (flags : Z) : W () :=
  emit (Forward reqh path flags).

Definition wnew (o : wobj) : W positive :=
  s ← get_;
  put_ (s <| w_objs ::= <[w_next s := o]> |> <| w_next := Pos.succ (w_next s) |>);;
  mret (w_next s).
Definition wget (p : positive) : W wobj := s ← get_; deref (w_objs s !! p).
Definition wfree (p : positive) : W () := _ ← wget p; modify (set w_objs (delete p)).

(** ** [fs_passthru] *)

Definition passthru_buflen : Z := 1024.

(** [buf] is the buffer after [_sys_fs_wait]. *)
Definition fs_passthru (prefix : option (list Z)) (buf : list Z) (reqh : Z) (q : ufs_request) : W () :=
  match q_op q with
  | VFSOP_OPEN =>
      match prefix with
      | Some prefix =>
          let prefix_len := Z.of_nat (length prefix) in
          if passthru_buflen <? prefix_len + q_len q then answer reqh WNull (-1)
          else
            path ← lift (fetch buf 0 (q_len q));
            buf ← lift (store buf prefix_len path);
            buf ← lift (store buf 0 prefix);
            path ← lift (fetch buf 0 (q_len q + prefix_len));
            forward_open reqh path (q_flags q)
      | None => path ← lift (fetch buf 0 (q_len q)); forward_open reqh path (q_flags q)
      end
  | _ => answer reqh WNull (-1)
  end.

(** ** [fs_union] *)

Definition union_buflen : Z := 1024.
Definition prelen : Z := 512.

(** The loop over the prefixes for an [open]; [buf] is both halves. *)
Fixpoint union_open (list_ : list (list Z)) (buf : list Z) (q : ufs_request) (ret : Z) : W Z :=
  match list_ with
  | [] => mret ret
  | prefix :: list_ =>
      if negb (ret <? 0) then mret ret
      else
        let prefixlen := Z.of_nat (length prefix) in
        if prelen <? prefixlen then union_open list_ buf q ret
        else
          buf ← lift (store buf (prelen - prefixlen) prefix);
          path ← lift (fetch buf (prelen - prefixlen) (prefixlen + q_len q));
          ret ← wcall (sys_open path (q_flags q));
          buf ← lift (store buf (prelen + q_len q) [0]);
          union_open list_ buf q ret
  end.

(** [dir_append_from] on the state of the kernel. *)
Definition append_from (db : dirbuild) (h : Z) : W (dirbuild * bool) := fun s =>
  match dir_append_from db h (w_kern s) with
  | Val a k => Val a (s <| w_kern := k |>)
  | Exit e _ => match e : Empty_set with end
  | Fault x => Fault x
  end.

(** The loop over the prefixes for a listing. *)
Fixpoint union_list (list_ : list (list Z)) (db : dirbuild) (end_ : bool) : W dirbuild :=
  match list_ with
  | [] => mret db
  | prefix :: list_ =>
      if end_ then mret db
      else
        h ← wcall (sys_open prefix OPEN_READ);
        if h <? 0 then union_list list_ db end_
        else
          '(db, stop) ← append_from db h;
          modify (set w_kern (sys_close h));;
          union_list list_ db stop
  end.

Definition listing_reply (op : vfs_op) (db : dirbuild) : wreply :=
  match op, db_buf db with
  | VFSOP_READ, Some b => WBytes (take (Z.to_nat (dir_finish db)) b)
  | _, _ => WNull
  end.

Definition fs_union (list_ : list (list Z)) (buf : list Z) (reqh : Z) (q : ufs_request) : W () :=
  match q_op q with
  | VFSOP_OPEN =>
      if q_len q =? 1 then answer reqh WNull 0
      else
        ret ← union_open list_ buf q (-1);
        emit (Answer reqh WNull (if ret <? 0 then -1 else ret) FSR_DELEGATE)
  | VFSOP_READ | VFSOP_GETSIZE =>
      let capacity := Z.min (q_capacity q) union_buflen in
      let target := match q_op q with VFSOP_READ => Some buf | _ => None end in
      db ← union_list list_ (dir_start (q_offset q) target capacity) false;
      answer reqh (listing_reply (q_op q) db) (dir_finish db)
  | _ => answer reqh WNull (-1)
  end.

(** ** [fs_whitelist]

    An entry is a path, without its terminator. *)

Inductive verdict := VError | VPass | VInject | VNone.

(** The loop over the entries. *)
Fixpoint whitelist_loop (whitelist : list (list Z)) (path : list Z) (flags : Z) (inject : bool) : verdict :=
  match whitelist with
  | [] => if inject then VInject else VNone
  | entry :: whitelist =>
      let '(entry_len, ro) := suffix_parse entry in
      let name := take entry_len entry in
      if prefix_match name path then
        if ro && OPEN_WRITEABLE flags then VError else VPass
      else whitelist_loop whitelist path flags (inject || prefix_match path name)
  end.

Definition whitelist_buflen : Z := 1024.

(** The loop over the entries for a listing. *)
Fixpoint whitelist_list (whitelist : list (list Z)) (ipath : list Z) (db : dirbuild) : res dirbuild :=
  match whitelist with
  | [] => Ok db
  | entry :: whitelist =>
      let ilen := length ipath in
      let elen := (suffix_parse entry).1 in
      db ← (if (ilen <? elen)%nat && same_start ilen ipath entry then
              let rest := drop ilen entry in
              x ← dir_appendl db rest (Z.of_nat (dir_seglen2 (take (elen - ilen) rest)));
              Ok x.1
            else Ok db);
      whitelist_list whitelist ipath db
  end.

Definition fs_whitelist (whitelist : list (list Z)) (buf : list Z) (reqh : Z) (q : ufs_request) : W () :=
  match q_op q with
  | VFSOP_OPEN =>
      path ← lift (fetch buf 0 (q_len q));
      match whitelist_loop whitelist path (q_flags q) false with
      | VError => answer reqh WNull (- EACCES)
      | VPass => forward_open reqh path (q_flags q)
      | VInject =>
          ok ← wcall malloc_ok;
          if negb ok then fail Undefined       (* the result is not checked *)
          else p ← wnew (WPath path); answer reqh (WId p) 0
      | VNone => answer reqh WNull (-1)
      end
  | VFSOP_READ | VFSOP_GETSIZE =>
      o ← wget (q_id q);
      match o with
      | WPath ipath =>
          let target := match q_op q with VFSOP_READ => Some buf | _ => None end in
          db ← lift (whitelist_list whitelist ipath (dir_start (q_offset q) target whitelist_buflen));
          answer reqh (listing_reply (q_op q) db) (dir_finish db)
      | WHandle _ _ => fail Undefined
      end
  | VFSOP_CLOSE => wfree (q_id q);; answer reqh WNull 0
  | _ => answer reqh WNull (-1)
  end.

(** ** [fs_dirinject2] *)

Definition dirinject_buflen : Z := 4096.

(** A directory of [injects] below [path], and its next segment. *)
Definition injected (path inj : list Z) : bool :=
  (length path <? length inj)%nat && same_start (length path) path inj.

Fixpoint find_injects_loop (injects : list (list Z)) (path : list Z) (db : option dirbuild) (matches : Z) :
    res (option dirbuild * Z) :=
  match injects with
  | [] => Ok (db, matches)
  | inj :: injects =>
      if injected path inj then
        let ent := drop (length path) inj in
        db ← match db with
             | Some db => x ← dir_appendl db ent (Z.of_nat (dir_seglen ent)); Ok (Some x.1)
             | None => Ok None
             end;
        find_injects_loop injects path db (matches + 1)
      else find_injects_loop injects path db matches
  end.

Definition find_injects (injects : list (list Z)) (path : list Z) (db : option dirbuild) :
    W (option dirbuild * Z) :=
  assert (1 <=? length path)%nat;;
  assert (bool_decide (last path = Some slash));;
  lift (find_injects_loop injects path db 0).

Definition fs_dirinject2 (injects : list (list Z)) (buf : list Z) (reqh : Z) (q : ufs_request) : W () :=
  match q_op q with
  | VFSOP_OPEN =>
      path ← lift (fetch buf 0 (q_len q));
      (* [buf[req.len - 1]] *)
      last_ ← lift (if q_len q =? 0 then Err Undefined else peek buf (q_len q - 1));
      n ← (if last_ =? slash then '(_, n) ← find_injects injects path None; mret n else mret 0);
      if 0 <? n then
        ok ← wcall malloc_ok;
        if negb ok then answer reqh WNull (- EGENERIC)
        else
          h ← wcall (sys_open path (q_flags q));
          p ← wnew (WHandle h path);
          answer reqh (WId p) 0
      else forward_open reqh path (q_flags q)
  | VFSOP_CLOSE =>
      o ← wget (q_id q);
      match o with
      | WHandle delegate _ =>
          (if 0 <=? delegate then modify (set w_kern (sys_close delegate)) else mret ());;
          wfree (q_id q);;
          answer reqh WNull 0
      | WPath _ => fail Undefined
      end
  | VFSOP_READ | VFSOP_GETSIZE =>
      o ← wget (q_id q);
      match o with
      | WHandle delegate path =>
          let target := match q_op q with VFSOP_READ => Some buf | _ => None end in
          let capacity := Z.min (q_capacity q) dirinject_buflen in
          '(db, _) ← find_injects injects path (Some (dir_start (q_offset q) target capacity));
          match db with
          | None => fail Undefined
          | Some db =>
              db ← (if 0 <=? delegate then '(db, _) ← append_from db delegate; mret db else mret db);
              answer reqh (listing_reply (q_op q) db) (dir_finish db)
          end
      | WPath _ => fail Undefined
      end
  | _ => answer reqh WNull (-1)
  end.

Definition fs_dirinject (path : list Z) : list Z -> Z -> ufs_request -> W () := fs_dirinject2 [path].
End wrap.

(** ** What the whitelist permits *)

(** The path an entry names, and whether it is read-only. *)
Definition entry_name (entry : list Z) : list Z := take (suffix_parse entry).1 entry.
Definition entry_ro (entry : list Z) : bool := (suffix_parse entry).2.

(** An entry is for itself, and for everything below it if it is a directory. *)
Definition covers (name path : list Z) : Prop :=
  path = name \/ last name = Some slash /\ name `prefix_of` path.
#[export] Instance covers_dec name path : Decision (covers name path).
Proof. unfold covers. apply _. Defined.

Definition permitted (whitelist : list (list Z)) (path : list Z) (flags : Z) : verdict :=
  match list_find (fun e => covers (entry_name e) path) whitelist with
  | Some (_, e) => if entry_ro e && OPEN_WRITEABLE flags then VError else VPass
  | None => if decide (Exists (fun e => covers path (entry_name e)) whitelist) then VInject else VNone
  end.

Lemma suffix_parse_spec entry :
  if entry_ro entry then entry = entry_name entry ++ str_ro else entry_name entry = entry.
Proof.
  unfold entry_ro, entry_name, suffix_parse.
  destruct ((3 <=? length entry)%nat && _) eqn:E; cbn; [|by rewrite firstn_all].
  apply andb_true_iff in E as [_ E%bool_decide_eq_true]. rewrite <- E. by rewrite take_drop.
Qed.

Lemma same_start_spec n a b :
  n = length b -> (n <= length a)%nat -> same_start n a b = bool_decide (b `prefix_of` a).
Proof.
  intros -> Hn. unfold same_start. rewrite firstn_all. apply bool_decide_ext. split.
  - intros E. exists (drop (length b) a). rewrite <- E at 1. by rewrite take_drop.
  - intros [k ->]. by rewrite take_app_length.
Qed.

Lemma prefix_match_spec name path : prefix_match name path = bool_decide (covers name path).
Proof.
  unfold prefix_match, covers. symmetry. destruct (Nat.ltb_spec (length path) (length name)) as [Hlt|Hge].
  - apply bool_decide_eq_false. intros [->|[_ Hp%prefix_length]]; lia.
  - destruct (Nat.eqb_spec (length path) (length name)) as [He|He].
    + rewrite same_start_spec by lia. apply bool_decide_ext. split.
      * intros [->|[_ H]]; done.
      * intros [k ->]. left. rewrite length_app in He. destruct k; [by rewrite app_nil_r|cbn in He; lia].
    + rewrite same_start_spec by lia. rewrite (bool_decide_ext _ (last name = Some slash /\ name `prefix_of` path)).
      * rewrite bool_decide_and. destruct name as [|c name]; [by rewrite bool_decide_eq_false_2|done].
      * split; [intros [->|]; done|by right].
Qed.

Lemma whitelist_loop_spec whitelist path flags inject :
  whitelist_loop whitelist path flags inject =
  match permitted whitelist path flags with VNone => if inject then VInject else VNone | v => v end.
Proof.
  unfold permitted. revert inject. induction whitelist as [|e l IH]; intros inject; [by destruct inject|].
  cbn [whitelist_loop list_find]. unfold entry_name, entry_ro in *. destruct (suffix_parse e) as [n ro] eqn:Ee.
  rewrite prefix_match_spec. cbn [fst snd] in *.
  destruct (decide (covers (take n e) path)) as [Hc|Hc].
  - rewrite bool_decide_eq_true_2 by done. rewrite Ee. cbn [snd]. by destruct (ro && _).
  - rewrite bool_decide_eq_false_2 by done. rewrite IH, prefix_match_spec.
    destruct (list_find _ l) as [[i e']|] eqn:Ef; cbn; [by destruct (_ && _)|].
    destruct (decide (Exists _ l)) as [Hx|Hx].
    + rewrite decide_True; [done|]. by apply Exists_cons_tl.
    + destruct (bool_decide (covers path (take n e))) eqn:Eb.
      * apply bool_decide_eq_true in Eb. rewrite orb_true_r, decide_True; [done|]. apply Exists_cons_hd.
        by rewrite Ee.
      * apply bool_decide_eq_false in Eb. rewrite orb_false_r, decide_False; [done|].
        intros [H|H]%Exists_cons; [rewrite Ee in H; done|done].
Qed.

Section proofs.
Context {K : Type} {KS : OpenSys K}.
Implicit Type s : wrap K.

(** The answer to an [open] of [path]. *)
Definition opened_as (v : verdict) (reqh : Z) (path : list Z) (flags : Z) s s' : Prop :=
  match v with
  | VPass => w_out s' = w_out s ++ [Forward reqh path flags] /\ w_objs s' = w_objs s
  | VError => w_out s' = w_out s ++ [Answer reqh WNull (- EACCES) 0] /\ w_objs s' = w_objs s
  | VNone => w_out s' = w_out s ++ [Answer reqh WNull (-1) 0] /\ w_objs s' = w_objs s
  | VInject => exists p, w_out s' = w_out s ++ [Answer reqh (WId p) 0 0] /\ w_objs s' !! p = Some (WPath path)
  end.

Lemma whitelist_open whitelist buf reqh q s :
  q_op q = VFSOP_OPEN -> 0 <= q_len q <= Z.of_nat (length buf) ->
  (forall k, (malloc_ok k).1 = true) ->
  let path := take (Z.to_nat (q_len q)) buf in
  runs (fs_whitelist whitelist buf reqh q) s (fun _ s' =>
    opened_as (permitted whitelist path (q_flags q)) reqh path (q_flags q) s s').
Proof.
  intros Hop Hlen Hm path. unfold fs_whitelist. rewrite Hop. apply runs_bind.
  eapply runs_lift; [apply fetch_in; lia|]. change (take (Z.to_nat (q_len q)) (drop _ buf)) with path.
  rewrite whitelist_loop_spec. unfold opened_as.
  destruct (permitted whitelist path (q_flags q)); [by split..| |by split].
  unfold runs, wcall, mbind, st_bind. specialize (Hm (w_kern s)). destruct (malloc_ok (w_kern s)) as [ok k].
  cbn in Hm. subst ok. cbn. eexists. split; [reflexivity|]. apply lookup_insert_eq.
Qed.

(** The other requests are answered, and pass nothing on. *)
Lemma whitelist_other whitelist buf reqh q s s' :
  q_op q <> VFSOP_OPEN -> fs_whitelist whitelist buf reqh q s = Val () s' ->
  exists r v, w_out s' = w_out s ++ [Answer reqh r v 0].
Proof.
  intros Hop. unfold fs_whitelist, wfree, wget, mbind, st_bind, get_, deref, answer, emit, modify, lift.
  destruct (q_op q); [done| | | | |];
    repeat (cbn; match goal with
    | |- context [w_objs ?w !! ?p] => destruct (w_objs w !! p) as [[]|]
    | |- context [whitelist_list ?a ?b ?c] => destruct (whitelist_list a b c)
    end); try done; cbn; try done; intros [= <-]; by repeat eexists.
Qed.

(** C19: a whitelist confines.  An [open] is passed on, unchanged, exactly if an
    entry of the list is the path or a directory above it and the first such
    entry does not forbid writing while the [open] asks for it; it is refused
    with [EACCES] if the first such entry is read-only, answered by a made-up
    directory if the path is one above an entry, and refused otherwise.  Every
    [open] is answered, and no other request passes anything on. *)
Theorem whitelist_confines whitelist buf reqh q s :
  (q_op q = VFSOP_OPEN -> 0 <= q_len q <= Z.of_nat (length buf) ->
   (forall k, (malloc_ok k).1 = true) ->
   let path := take (Z.to_nat (q_len q)) buf in
   runs (fs_whitelist whitelist buf reqh q) s (fun _ s' =>
     opened_as (permitted whitelist path (q_flags q)) reqh path (q_flags q) s s')) /\
  (q_op q <> VFSOP_OPEN -> forall s', fs_whitelist whitelist buf reqh q s = Val () s' ->
   exists r v, w_out s' = w_out s ++ [Answer reqh r v 0]).
Proof. split; [apply whitelist_open|intros H s'; by apply whitelist_other]. Qed.

(** [fs_passthru] opens below its prefix. *)
Lemma passthru_prefixes prefix buf reqh q s :
  q_op q = VFSOP_OPEN -> Z.of_nat (length buf) = passthru_buflen ->
  0 <= q_len q -> Z.of_nat (length prefix) + q_len q <= passthru_buflen ->
  runs (fs_passthru (Some prefix) buf reqh q) s (fun _ s' =>
    w_out s' = w_out s ++ [Forward reqh (prefix ++ take (Z.to_nat (q_len q)) buf) (q_flags q)]).
Proof.
  intros Hop Hb Hl Hp. unfold fs_passthru. rewrite Hop, (proj2 (Z.ltb_ge _ _)) by lia.
  set (path := take (Z.to_nat (q_len q)) buf).
  assert (Hpl : Z.of_nat (length path) = q_len q) by (unfold path; rewrite length_take; lia).
  apply runs_bind. eapply runs_lift; [apply fetch_in; lia|].
  change (take (Z.to_nat (q_len q)) (drop _ buf)) with path.
  apply runs_bind. eapply runs_lift; [apply store_in; lia|]. rewrite Nat2Z.id.
  set (b2 := splice (length prefix) path buf).
  assert (Hb2 : length b2 = length buf) by (unfold b2; rewrite length_splice; lia).
  assert (Hd : drop (length prefix) b2 = path ++ drop (length prefix + length path) buf)
    by (unfold b2, splice; by rewrite drop_app_length' by (rewrite length_take; lia)).
  apply runs_bind. eapply runs_lift; [apply store_in; lia|].
  unfold splice. change (Z.to_nat 0) with 0%nat. rewrite take_0. cbn [app plus]. rewrite Hd.
  apply runs_bind. eapply runs_lift; [apply fetch_in; rewrite !length_app, length_drop; lia|].
  change (Z.to_nat 0) with 0%nat. rewrite drop_0, (app_assoc prefix path).
  rewrite (take_app_length' (prefix ++ path)) by (rewrite length_app; lia). done.
Qed.
End proofs.

(** ** Scenarios *)

(** A kernel without state, in which every [open] gives handle 3. *)
#[export] Instance still : OpenSys () := {|
  open_sys := {| sys_read := fun _ _ _ k => (0, [], k); sys_write := fun _ _ _ _ k => (0, k);
    sys_dup := fun _ _ _ k => (-1, k); sys_getsize := fun _ k => (0, k); sys_close := fun _ k => k;
    camellia_open := fun _ _ k => (3, k); malloc_ok := fun k => (true, k) |};
  sys_open := fun _ _ k => (3, k) |}.

(** ["/a/"], and ["/b"] for reading only. *)
Definition some_whitelist : list (list Z) := [[47; 97; 47]; [47; 98] ++ str_ro].

Definition open_of (path : list Z) (flags : Z) : ufs_request :=
  mkUfs VFSOP_OPEN (Z.of_nat (length path)) 0 1 0 flags.

Definition after_open (path : list Z) (flags : Z) : list wevent :=
  match fs_whitelist some_whitelist path 7 (open_of path flags) (wrap0 ()) with
  | Val _ s => w_out s
  | _ => []
  end.

Example whitelist_examples :
  after_open [47; 97; 47; 99] OPEN_WRITE = [Forward 7 [47; 97; 47; 99] OPEN_WRITE] /\
  after_open [47; 97; 99] OPEN_READ = [Answer 7 WNull (-1) 0] /\
  after_open [47; 98] OPEN_READ = [Forward 7 [47; 98] OPEN_READ] /\
  after_open [47; 98] OPEN_WRITE = [Answer 7 WNull (- EACCES) 0] /\
  after_open [47] OPEN_READ = [Answer 7 (WId 1) 0 0].
Proof. by vm_compute. Qed.

(** What whitelist_confines comes to for a write to ["/b"]. *)
Lemma whitelist_confines_witness :
  runs (fs_whitelist some_whitelist [47; 98] 7 (open_of [47; 98] OPEN_WRITE)) (wrap0 ()) (fun _ s' =>
    w_out s' = [Answer 7 WNull (- EACCES) 0]).
Proof.
  destruct (whitelist_confines some_whitelist [47; 98] 7 (open_of [47; 98] OPEN_WRITE) (wrap0 ())) as [H _].
  specialize (H eq_refl ltac:(cbn; lia) (fun _ => eq_refl)). by destruct H.
Defined.

(** A path of 512 bytes fills the second half of the buffer of [fs_union], and
    its terminator is written behind it. *)
Lemma union_terminator_overflows :
  fs_union [[47]] (replicate 1024 97) 7 (mkUfs VFSOP_OPEN 512 0 1 0 OPEN_READ) (wrap0 ()) = Fault Undefined.
Proof. by vm_compute. Qed.

(** Two entries below the same directory make it appear twice. *)
Lemma whitelist_lists_twice :
  (db ← whitelist_list [[47; 97; 47; 98]; [47; 97; 47; 99]] [47]
     (dir_start 0 (Some (replicate 8 0)) 8); Ok (db_buf db)) = Ok (Some [97; 47; 0; 97; 47; 0; 0; 0]).
Proof. by vm_compute. Qed.
