(* ===== verification/Cwd.v ===== *)
(** * Cwd

    The working directory and the opening of relative paths
    ([src/src/libc/unistd/cwd.c], [camellia_open] of [libc/camellia.c]).

    A string is the list of its bytes without the terminator where the code
    only reads it, and an object with its terminator where it is written; an
    object is as long as its allocation, and writing behind it is undefined.
    What [malloc] leaves in fresh memory is a parameter. *)

From S2P Require Import Prelude Monad Mem Path CString NetUtil KState Stdio Wrap.

Definition ERANGE : Z := 6.

(** The static variables of [cwd.c], [__initialcwd] and [errno]. *)
Record cwds (K : Type) := mkCwds {
  cw_kern : K;
  cw_cwd : option (list Z);
  cw_cwd2 : option (list Z);
  cw_capacity : Z;
  cw_initial : option (list Z);
  cw_errno : Z;
}.
Arguments mkCwds {K}.
Arguments cw_kern {K}.
Arguments cw_cwd {K}.
Arguments cw_cwd2 {K}.
Arguments cw_capacity {K}.
Arguments cw_initial {K}.
Arguments cw_errno {K}.
#[export] Instance cwds_settable K : Settable (cwds K) := fun c =>
  mkCwds (cw_kern c) (cw_cwd c) (cw_cwd2 c) (cw_capacity c) (cw_initial c) (cw_errno c).

(** The string an object holds. *)
Definition c_string (obj : list Z) : res (list Z) :=
  n ← strlen obj; Ok (take (Z.to_nat n) obj).

(** [path_simplify(out, out, pos)] on a buffer of its own. *)
Definition simplify_buffer (out : list Z) (pos : Z) : res (list Z * Z) :=
  let n := Z.to_nat pos in
  '(m, r) ← path_simplify (write_bytes ∅ 0 (take n out)) 0 0 pos;
  Ok (bytes_at m 0 n ++ drop n out, r).

(** [if (pos + len <= size) memcpy(out + pos, bs, len)] *)
Definition put (size : Z) (out : list Z) (pos : Z) (bs : list Z) : res (list Z) :=
  if pos + Z.of_nat (length bs) <=? size then store out pos bs else Ok out.

(** The beginning of [absolutepath]: the working directory and a slash, unless
    the path is absolute; the answer is the buffer and [pos]. *)
Definition put_cwd (realcwd : list Z) (same : bool) (out in_ : list Z) (size : Z) : res (list Z * Z) :=
  if bool_decide (head in_ = Some slash) then Ok (out, 0)
  else
    let len := Z.of_nat (length realcwd) in
    out ← (if same then Ok out else put size out 0 realcwd);
    match last realcwd with
    | None => Err Undefined                     (* [realcwd[len - 1]] *)
    | Some c => if c =? slash then Ok (out, len) else out ← put size out len [slash]; Ok (out, len + 1)
    end.

(** [absolutepath] for a path; [realcwd] is the string [getrealcwd] gives, [out]
    the buffer, and [same] whether it is that string. *)
Definition absolutepath (realcwd : list Z) (same : bool) (out in_ : list Z) (size : Z) :
    res (list Z * Z) :=
  '(out, pos) ← put_cwd realcwd same out in_ size;
  out ← put size out pos in_;
  let pos := pos + Z.of_nat (length in_) in
  '(out, pos') ← (if pos <=? size then simplify_buffer out pos else Ok (out, pos));
  if (pos <=? size) && (pos' =? 0) then Ok (out, 0)
  else
    out ← put size out pos' [0];
    Ok (out, pos' + 1).

Section cwd.
Context {K : Type} {KS : OpenSys K} (fresh : Z).
Local Abbreviation C := (ST (cwds K) Empty_set).

Definition set_errno (e : Z) : C () := modify (set cw_errno (fun _ => e)).

Definition getrealcwd : C (list Z) :=
  s ← get_;
  match cw_cwd s with
  | Some obj => lift (c_string obj)
  | None => mret (default [slash] (cw_initial s))
  end.

(** [malloc]; a request of any size succeeds or not. *)
Definition alloc (len : Z) : C (option (list Z)) := fun s =>
  let '(ok, k) := malloc_ok (cw_kern s) in
  Val (if ok : bool then Some (replicate (Z.to_nat len) fresh) else None) (s <| cw_kern := k |>).

(** A call of [_sys_open]. *)
Definition do_open (path : list Z) (flags : Z) : C Z := fun s =>
  let '(r, k) := sys_open path flags (cw_kern s) in Val r (s <| cw_kern := k |>).

Definition camellia_open (path : option (list Z)) (flags : Z) : C Z :=
  match path with
  | None => set_errno EINVAL;; mret (- EINVAL)
  | Some path =>
      let flags := if Z.land flags OPEN_CREATE =? 0 then flags else Z.lor flags OPEN_WRITE in
      rc ← getrealcwd;
      '(_, len) ← lift (absolutepath rc false [] path 0);
      buf ← alloc len;
      match buf with
      | None => s ← get_; mret (- cw_errno s)
      | Some buf =>
          rc ← getrealcwd;
          '(buf, _) ← lift (absolutepath rc false buf path len);
          p ← lift (c_string buf);
          ret ← do_open p flags;
          (if ret <? 0 then set_errno (- ret) else mret ());;
          mret ret
      end
  end.

(** [realloc] to a larger size. *)
Definition grown (obj : list Z) (len : Z) : list Z :=
  obj ++ replicate (Z.to_nat len - length obj) fresh.

(** The buffers of [chdir]; both allocations succeed.  The first time the
    buffers get [initlen] bytes, whatever [len] is. *)
Definition chdir_grow (len : Z) : C () :=
  s ← get_;
  if cw_capacity s <? len then
    modify (set cw_capacity (fun _ => len));;
    match cw_cwd s, cw_cwd2 s with
    | Some a, Some b => modify (fun s => s <| cw_cwd := Some (grown a len) |> <| cw_cwd2 := Some (grown b len) |>)
    | Some _, None => fail Undefined
    | None, _ =>
        match cw_initial s with
        | None => fail Undefined                     (* [strlen(NULL)] *)
        | Some i =>
            modify (fun s => s <| cw_cwd := Some (i ++ [0]) |>
                               <| cw_cwd2 := Some (replicate (length i + 1) fresh) |>)
        end
    end
  else mret ().

Definition chdir (path : list Z) : C Z :=
  rc ← getrealcwd;
  '(_, len) ← lift (absolutepath rc false [] path 0);
  chdir_grow (len + 1);;
  s ← get_;
  rc ← getrealcwd;
  cwd2 ← deref (cw_cwd2 s);
  '(cwd2, _) ← lift (absolutepath rc false cwd2 path (cw_capacity s));
  p ← lift (c_string cwd2);
  let n := Z.of_nat (length p) in
  c ← deref (last p);
  cwd2 ← (if c =? slash then mret cwd2 else lift (store cwd2 n [slash; 0]));
  modify (set cw_cwd2 (fun _ => Some cwd2));;
  p ← lift (c_string cwd2);
  h ← camellia_open (Some p) OPEN_READ;
  if h <? 0 then set_errno ENOENT;; mret (-1)
  else
    modify (set cw_kern (sys_close h));;
    modify (fun s => s <| cw_cwd := cw_cwd2 s |> <| cw_cwd2 := cw_cwd s |>);;
    mret 0.

(** The buffer after the call, if it succeeds. *)
Definition getcwd (buf : list Z) (capacity : Z) : C (option (list Z)) :=
  rc ← getrealcwd;
  let len := Z.of_nat (length rc) + 1 in
  if capacity <? len then set_errno (if capacity =? 0 then EINVAL else ERANGE);; mret None
  else b ← lift (store buf 0 (rc ++ [0])); mret (Some b).
End cwd.

(** ** What a path means *)

(** The path from the root, not simplified. *)
Definition full_path (rc path : list Z) : list Z :=
  if bool_decide (head path = Some slash) then path
  else rc ++ (if bool_decide (last rc = Some slash) then [] else [slash]) ++ path.

Lemma split_chars p c : c ∉ p -> Forall (fun s => c ∉ s) (Spec.split p).
Proof.
  induction p as [|d p IH]; intros Hc; cbn [Spec.split]; [by repeat constructor; apply not_elem_of_nil|].
  apply not_elem_of_cons in Hc as [Hd Hc]. specialize (IH Hc).
  destruct (d =? slash); [constructor; [apply not_elem_of_nil|done]|].
  destruct (Spec.split p) as [|s ss]; [by repeat constructor; apply not_elem_of_cons; split; [|apply not_elem_of_nil]|].
  apply Forall_cons in IH as [Hs Hss]. constructor; [by apply not_elem_of_cons|done].
Qed.

Lemma norm_chars c ss stack k :
  Forall (fun s => c ∉ s) ss -> Forall (fun s => c ∉ s) stack ->
  Spec.norm stack ss = Some k -> Forall (fun s => c ∉ s) k.
Proof.
  revert stack. induction ss as [|s ss IH]; intros stack Hss Hst; cbn [Spec.norm]; [by intros [= <-]|].
  apply Forall_cons in Hss as [Hs Hss]. destruct (Spec.step stack s) as [st|] eqn:E; [|done].
  apply IH; [done|]. unfold Spec.step in E. repeat case_bool_decide; simplify_eq; [done| |by constructor].
  destruct stack; [done|]. injection E as <-. by apply Forall_cons in Hst as [].
Qed.

Lemma render_chars c k : c <> slash -> Forall (fun s => c ∉ s) k -> c ∉ Spec.render k.
Proof.
  intros Hc. induction 1 as [|s k Hs _ IH]; cbn; [apply not_elem_of_nil|].
  rewrite not_elem_of_app, not_elem_of_cons. by repeat split.
Qed.

(** Simplifying does not make up characters. *)
Lemma simplify_chars c p q : c <> slash -> c ∉ p -> Spec.simplify p = Some q -> c ∉ q.
Proof.
  intros Hc Hp. destruct p as [|d p]; [done|]. cbn [Spec.simplify].
  apply not_elem_of_cons in Hp as [_ Hp]. destruct (d =? slash); [|done].
  destruct (Spec.norm [] (Spec.split p)) as [k|] eqn:E; [|done]. cbn. intros [= <-].
  apply not_elem_of_app. split.
  - apply render_chars; [done|]. eapply norm_chars; [|apply Forall_nil_2|exact E]. by apply split_chars.
  - destruct (Spec.special _); [|apply not_elem_of_nil]. apply not_elem_of_cons. split; [done|apply not_elem_of_nil].
Qed.

Lemma c_string_at p t : 0 ∉ p -> c_string (p ++ 0 :: t) = Ok p.
Proof.
  intros Hp. unfold c_string. assert (E : strlen (p ++ 0 :: t) = Ok (Z.of_nat (length p))).
  { induction p as [|c p IH]; [done|]. apply not_elem_of_cons in Hp as [Hc Hp]. cbn [app strlen].
    rewrite (proj2 (Z.eqb_neq c 0)), IH by done. cbn [mbind res_bind length]. f_equal. lia. }
  rewrite E. cbn [mbind res_bind]. by rewrite Nat2Z.id, take_app_length.
Qed.

(** ** The buffer *)

Lemma simplify_buffer_spec p rest q :
  Spec.simplify p = Some q -> Z.of_nat (length p) < 2 ^ 31 ->
  exists rest', simplify_buffer (p ++ rest) (Z.of_nat (length p)) = Ok (q ++ rest', Z.of_nat (length q)) /\
    (length q + length rest' = length p + length rest)%nat /\ 0 < Z.of_nat (length q) <= Z.of_nat (length p).
Proof.
  intros Hq Hn. unfold simplify_buffer. rewrite Nat2Z.id, take_app_length, drop_app_length.
  destruct (path_simplify_spec (write_bytes ∅ 0 p) 0 0 (length p)) as (m'&r&E&_&Hr); [by left|done|].
  rewrite bytes_at_write_bytes, Hq in Hr. destruct Hr as (->&Hlen&Hb). rewrite E. cbn [mbind res_bind].
  exists (bytes_at m' (0 + Z.of_nat (length q)) (length p - length q) ++ rest).
  split; [|split; [rewrite length_app, length_bytes_at; lia|done]].
  rewrite app_assoc. do 3 f_equal. replace (length p) with (length q + (length p - length q))%nat at 1 by lia.
  by rewrite bytes_at_app, Hb.
Qed.

Lemma put_over (pre x post bs : list Z) size pos :
  pos = Z.of_nat (length pre) -> length bs = length x -> Z.of_nat (length (pre ++ x)) <= size ->
  put size (pre ++ x ++ post) pos bs = Ok (pre ++ bs ++ post).
Proof.
  intros -> Hl Hs. rewrite length_app in Hs. unfold put. rewrite (proj2 (Z.leb_le (_ + _) _)) by lia.
  rewrite store_in by (rewrite !length_app; lia). unfold splice.
  rewrite Nat2Z.id, take_app_length. do 3 f_equal.
  rewrite (app_assoc pre x), drop_app_length' by (rewrite length_app; lia). done.
Qed.

(** A buffer that is too small for anything stays as it is. *)
Lemma put_none out pos bs : 0 < pos + Z.of_nat (length bs) -> put 0 out pos bs = Ok out.
Proof. intros H. unfold put. by rewrite (proj2 (Z.leb_gt _ _)). Qed.

(** What the path begins with. *)
Definition cwd_part (rc path : list Z) : list Z :=
  if bool_decide (head path = Some slash) then []
  else rc ++ (if bool_decide (last rc = Some slash) then [] else [slash]).

Lemma full_path_split rc path : full_path rc path = cwd_part rc path ++ path.
Proof. unfold full_path, cwd_part. case_bool_decide; [done|]. by rewrite <- app_assoc. Qed.

Lemma put_cwd_fits rc path x post size :
  rc <> [] -> length x = length (cwd_part rc path) -> Z.of_nat (length x) <= size ->
  put_cwd rc false (x ++ post) path size = Ok (cwd_part rc path ++ post, Z.of_nat (length (cwd_part rc path))).
Proof.
  intros Hrc Hx Hs. unfold put_cwd, cwd_part in *. case_bool_decide; [by destruct x|].
  destruct (last rc) as [c|] eqn:El; [|by apply last_None in El].
  assert (exists x1 x2, x = x1 ++ x2 /\ length x1 = length rc) as (x1&x2&->&Hx1).
  { exists (take (length rc) x), (drop (length rc) x). rewrite take_drop, length_take. split; [done|].
    rewrite Hx, length_app. lia. }
  rewrite !length_app in *. rewrite <- app_assoc.
  rewrite (put_over [] x1 (x2 ++ post) rc) by (cbn; lia). cbn [mbind res_bind app].
  destruct (Z.eqb_spec c slash) as [->|Hc].
  - rewrite bool_decide_eq_true_2 in * by done. cbn in Hx. destruct x2; [|cbn in Hx; lia]. rewrite app_nil_r, Nat.add_0_r. done.
  - rewrite bool_decide_eq_false_2 in * by congruence. cbn in Hx.
    rewrite (put_over rc x2 post [slash]) by (rewrite ?length_app; cbn; lia). cbn [mbind res_bind].
    rewrite <- app_assoc. cbn [length]. do 2 f_equal. lia.
Qed.

Lemma put_cwd_none rc path : rc <> [] ->
  put_cwd rc false [] path 0 = Ok ([], Z.of_nat (length (cwd_part rc path))).
Proof.
  intros Hrc. unfold put_cwd, cwd_part. case_bool_decide; [done|].
  destruct (last rc) as [c|] eqn:El; [|by apply last_None in El].
  rewrite put_none by (destruct rc; [done|cbn; lia]). cbn [mbind res_bind].
  destruct (Z.eqb_spec c slash) as [->|Hc].
  - by rewrite bool_decide_eq_true_2, app_nil_r.
  - rewrite bool_decide_eq_false_2 by congruence. rewrite put_none by (cbn; lia). cbn [mbind res_bind].
    rewrite length_app. do 2 f_equal. cbn. lia.
Qed.

(** The length that is needed. *)
Lemma absolutepath_length rc path : rc <> [] ->
  absolutepath rc false [] path 0 = Ok ([], Z.of_nat (length (full_path rc path)) + 1).
Proof.
  intros Hrc. assert (Hpos : 0 < Z.of_nat (length (full_path rc path))).
  { unfold full_path. case_bool_decide; [destruct path; [done|cbn; lia]|].
    rewrite length_app. destruct rc; [done|cbn; lia]. }
  unfold absolutepath. rewrite put_cwd_none by done. cbn [mbind res_bind].
  rewrite full_path_split, length_app, Nat2Z.inj_add in *.
  rewrite put_none by done. cbn [mbind res_bind]. rewrite (proj2 (Z.leb_gt _ 0)) by done.
  cbn [mbind res_bind andb]. rewrite put_none by (cbn; lia). done.
Qed.

(** With a buffer of that length. *)
Lemma absolutepath_fits rc path buf q :
  rc <> [] -> Spec.simplify (full_path rc path) = Some q ->
  Z.of_nat (length (full_path rc path)) < 2 ^ 31 -> length buf = S (length (full_path rc path)) ->
  exists rest, absolutepath rc false buf path (Z.of_nat (length buf)) = Ok (q ++ 0 :: rest, Z.of_nat (length q) + 1).
Proof.
  intros Hrc Hq Hint Hlen. rewrite full_path_split in *. set (pre := cwd_part rc path) in *. rewrite length_app in Hlen.
  set (size := Z.of_nat (length buf)).
  rewrite <- (take_drop (length pre) buf). set (x := take (length pre) buf).
  assert (Hx : length x = length pre) by (unfold x; rewrite length_take; lia).
  assert (Hr : length (drop (length pre) buf) = S (length path)) by (rewrite length_drop; lia).
  rewrite <- (take_drop (length path) (drop (length pre) buf)).
  set (y := take (length path) _). set (z := drop (length path) _).
  assert (Hy : length y = length path) by (unfold y; rewrite length_take; lia).
  assert (Hz : length z = 1%nat) by (unfold z; rewrite length_drop; lia).
  unfold absolutepath. rewrite (put_cwd_fits rc path x (y ++ z)) by (done || unfold size; lia).
  cbn [mbind res_bind]. fold pre.
  rewrite (put_over pre y z path) by (done || rewrite length_app; unfold size; lia). cbn [mbind res_bind].
  rewrite <- Nat2Z.inj_add, <- length_app, app_assoc.
  rewrite (proj2 (Z.leb_le (Z.of_nat (length (pre ++ path))) size)) by (rewrite length_app; unfold size; lia).
  destruct (simplify_buffer_spec (pre ++ path) z q Hq Hint) as (rest&E&Hl&Hqp). rewrite E. cbn [mbind res_bind andb].
  rewrite (proj2 (Z.eqb_neq (Z.of_nat (length q)) 0)) by lia.
  destruct rest as [|d rest]; [rewrite length_app in *; cbn in Hl; lia|]. exists rest.
  change (q ++ d :: rest) with (q ++ [d] ++ rest). rewrite length_app in Hl, Hqp.
  rewrite (put_over q [d] rest [0]) by (done || rewrite length_app; cbn; unfold size; lia). done.
Qed.

(** ** Opening *)

Section opening.
Context {K : Type} {KS : OpenSys K} (fresh : Z).
Implicit Type s : cwds K.

(** The string that [getrealcwd] gives. *)
Definition realcwd_is s (rc : list Z) : Prop :=
  match cw_cwd s with
  | Some obj => c_string obj = Ok rc
  | None => rc = default [slash] (cw_initial s)
  end.

Lemma runs_getrealcwd s rc (Q : list Z -> cwds K -> Prop) :
  realcwd_is s rc -> Q rc s -> runs getrealcwd s Q.
Proof.
  unfold realcwd_is, runs, getrealcwd, mbind, st_bind, get_, lift. intros H HQ.
  destruct (cw_cwd s); [by rewrite H|by subst].
Qed.

Definition open_flags_of (flags : Z) : Z :=
  if Z.land flags OPEN_CREATE =? 0 then flags else Z.lor flags OPEN_WRITE.

(** C23: [camellia_open] opens the canonical form of the path from the working
    directory.  If the working directory followed by the path, or the path alone
    if it is absolute, is shorter than 2 GiB and does not lead behind the root, the buffer has the right
    size, and exactly one [open] is made, of the simplified path; creating a file
    implies writing to it.  The result is handed on, and [errno] set if it is an
    error. *)
Theorem camellia_open_resolves s rc path flags q :
  realcwd_is s rc -> rc <> [] -> 0 ∉ rc -> 0 ∉ path ->
  Spec.simplify (full_path rc path) = Some q -> Z.of_nat (length (full_path rc path)) < 2 ^ 31 ->
  (malloc_ok (cw_kern s)).1 = true ->
  runs (camellia_open fresh (Some path) flags) s (fun ret s' =>
    (ret, cw_kern s') = sys_open q (open_flags_of flags) (malloc_ok (cw_kern s)).2 /\
    cw_errno s' = if ret <? 0 then - ret else cw_errno s).
Proof.
  intros Hcwd Hrc H0 Hp Hq Hint Hm. unfold camellia_open. fold (open_flags_of flags).
  apply runs_bind. eapply runs_getrealcwd; [exact Hcwd|].
  apply runs_bind. eapply runs_lift; [by apply absolutepath_length|]. cbn iota beta.
  unfold alloc. destruct (malloc_ok (cw_kern s)) as [ok k] eqn:Em. cbn in Hm. subst ok.
  apply runs_bind. unfold runs at 1. rewrite Em. cbn iota.
  apply runs_bind. eapply runs_getrealcwd; [exact Hcwd|].
  set (buf := replicate _ fresh).
  assert (Hlen : length buf = S (length (full_path rc path))) by (unfold buf; rewrite length_replicate; lia).
  destruct (absolutepath_fits rc path buf q Hrc Hq Hint Hlen) as (rest&Habs).
  replace (Z.of_nat (length buf)) with (Z.of_nat (length (full_path rc path)) + 1) in Habs by lia.
  apply runs_bind. eapply runs_lift; [exact Habs|]. cbn iota beta.
  assert (Hq0 : 0 ∉ q).
  { apply (simplify_chars 0 (full_path rc path)); [done| |done]. unfold full_path. case_bool_decide; [done|].
    rewrite !not_elem_of_app. split; [done|]. split; [|done]. case_bool_decide; [apply not_elem_of_nil|].
    apply not_elem_of_cons. split; [done|apply not_elem_of_nil]. }
  apply runs_bind. eapply runs_lift; [by apply c_string_at|].
  unfold do_open, runs, mbind, st_bind. cbn [cw_kern]. cbn.
  destruct (sys_open q (open_flags_of flags) k) as [r k'] eqn:Eo. cbn.
  destruct (r <? 0) eqn:Er; cbn; by rewrite Er.
Qed.
End opening.

(** ** Scenarios *)

Definition in_dir (d : list Z) : cwds () := mkCwds () None None 0 (Some d) 0.

(** ["../x"] from ["/a/b/"] is ["/a/x"]. *)
Lemma camellia_open_resolves_witness :
  runs (camellia_open 170 (Some [46; 46; 47; 120]) OPEN_READ) (in_dir [47; 97; 47; 98; 47]) (fun ret s' =>
    (ret, cw_kern s') = sys_open [47; 97; 47; 120] OPEN_READ ()).
Proof.
  eapply runs_mono.
  - apply (camellia_open_resolves 170 (in_dir [47; 97; 47; 98; 47]) [47; 97; 47; 98; 47] [46; 46; 47; 120]
      OPEN_READ [47; 97; 47; 120]).
    + reflexivity.
    + done.
    + apply (bool_decide_unpack _). by vm_compute.
    + apply (bool_decide_unpack _). by vm_compute.
    + by vm_compute.
    + done.
    + reflexivity.
  - intros ret s' [H _]. exact H.
Defined.

(** A path that leads behind the root: [absolutepath] fails, which is not
    noticed, and what [malloc] left in the buffer is taken for a string. *)
Lemma open_behind_root_undefined :
  camellia_open 170 (Some [46; 46]) OPEN_READ (in_dir [47]) = Fault Undefined.
Proof. by vm_compute. Qed.

(** The first [chdir] to a path that is longer than the initial directory writes
    behind the buffers: they have the size of the initial one. *)
Lemma chdir_overflows : chdir 170 [47; 97; 47; 98] (in_dir [47]) = Fault Undefined.
Proof. by vm_compute. Qed.

(** With a long enough initial directory it works: from ["/home/u/"] to ["/a"],
    which gets its slash. *)
Example chdir_shorter :
  match chdir 170 [47; 97] (in_dir [47; 104; 111; 109; 101; 47; 117; 47]) with
  | Val r s => (r, c_string (default [] (cw_cwd s)))
  | _ => (-2, Ok [])
  end = (0, Ok [47; 97; 47]).
Proof. by vm_compute. Qed.
