(* ===== verification/Tar.v ===== *)
(** * Tar

    The read-only file system over a tar archive in memory
    ([src/src/bootstrap/tar.c]), from which the system boots.  The archive is
    the list of the bytes at [base]; reading past them is undefined.  A file is
    identified by the address of its header, the root directory by that of a
    string of its own.

    The theorem is a round trip: on the archive of a list of entries, opening a
    path finds the entry, and reading it gives its contents. *)

From S2P Require Import Prelude Mem FsUtil CString NetUtil KState UserFs.

(** [root_fakemeta], or the offset of a header from [base]. *)
Inductive tar_meta := Root | Entry (off : Z).

#[export] Instance tar_meta_eq_dec : EqDecision tar_meta.
Proof. solve_decision. Defined.

(** What a request is answered with, besides a value. *)
Inductive tar_reply := RNull | RId (m : tar_meta) | RData (bytes : list Z).

Definition BUF_SIZE : Z := 64.
Definition ustar : list Z := [117; 115; 116; 97; 114].

Fixpoint res_iter {A B} (n : nat) (body : A -> res (A + B)) (a : A) : res B :=
  match n with
  | O => Err OutOfFuel
  | S n => x ← body a; match x with inl a => res_iter n body a | inr b => Ok b end
  end.

(** ** Headers *)

Fixpoint oct_parse (str : list Z) (len : nat) (res : Z) {struct len} : Prelude.res Z :=
  match len, str with
  | O, _ => Ok res
  | S len, c :: str => r ← int_ (res * 8); r ← int_ (r + (schar c - 48)); oct_parse str len r
  | S _, [] => Err Undefined
  end.

Definition tar_size (base : list Z) (sector : Z) : res Z :=
  oct_parse (advance base (sector + 124)) 11 0.

Definition tar_type (base : list Z) (m : tar_meta) : res Z :=
  match m with
  | Root => Ok 53
  | Entry off => c ← peek base (off + 156); Ok (schar c)
  end.

Definition is_header (base : list Z) (off : Z) : res bool :=
  m ← fetch base (off + 257) 5; Ok (bool_decide (m = ustar)).

(** The offset of the header behind this one. *)
Definition next_header (base : list Z) (off : Z) : res Z :=
  size ← tar_size base off;
  n ← int_ (size + 511);
  Ok (u64 (u64 (off + 512) + Z.land n (Z.lnot 511))).

(** A turn of the loop of [tar_find]. *)
Definition find_turn (path : list Z) (path_len : Z) (base : list Z) (base_len : Z) (off : Z) :
    res (Z + option Z) :=
  if negb (off <? base_len) then Ok (inr None)
  else
    h ← is_header base off;
    if negb h then Ok (inr None)
    else
      name ← fetch base off path_len;
      p ← fetch path 0 path_len;
      found ← (if bool_decide (name = p) then c ← peek base (off + path_len); Ok (c =? 0)
               else Ok false);
      if found : bool then Ok (inr (Some off))
      else off ← next_header base off; Ok (inl off).

(** A loop that takes more turns than there are bytes comes back to a header it
    has seen, and never ends. *)
Definition tar_find (path : list Z) (path_len : Z) (base : list Z) (base_len : Z) :
    res (option Z) :=
  if 100 <? path_len then Ok None
  else res_iter (S (length base)) (find_turn path path_len base base_len) 0.

(** ** Requests *)

Definition tar_open (path : list Z) (len : Z) (base : list Z) (base_len : Z) :
    res (option tar_meta) :=
  if len <=? 0 then Ok None
  else
    c ← peek path 0;
    let path := if c =? 47 then advance path 1 else path in
    let len := if c =? 47 then len - 1 else len in
    if len =? 0 then Ok (Some Root)
    else
      m ← tar_find path len base base_len;
      match m with
      | None => Ok None
      | Some off =>
          t ← tar_type base (Entry off);
          if t =? 49 then
            let link := advance base (off + 157) in
            n ← strnlen link 100;
            m ← tar_find link n base base_len;
            Ok (Entry <$> (m : option Z))
          else Ok (Some (Entry off))
      end.

(** A turn of the loop of [tar_dirbuild]. *)
Definition dirbuild_turn (meta : list Z) (meta_len : Z) (base : list Z) (base_len : Z)
    (x : Z * dirbuild) : res (Z * dirbuild + dirbuild) :=
  let '(off, db) := x in
  if negb (off <? base_len) then Ok (inr db)
  else
    h ← is_header base off;
    if negb h then Ok (inr db)
    else
      name ← fetch base off meta_len;
      p ← fetch meta 0 meta_len;
      below ← (if bool_decide (name = p) then c ← peek base (off + meta_len); Ok (negb (c =? 0))
               else Ok false);
      r ← (if below : bool then
             let suffix := advance base (off + meta_len) in
             slash ← strchr suffix 47;
             last ← (match slash with
                     | None => Ok true
                     | Some s => c ← peek s 1; Ok (c =? 0)
                     end);
             if last : bool then dir_append db suffix else Ok (db, false)
           else Ok (db, false));
      let '(db, stop) := r in
      if stop : bool then Ok (inr db)
      else off ← next_header base off; Ok (inl (off, db)).

(** The string at a header: the name of the entry. *)
Definition meta_string (base : list Z) (m : tar_meta) : list Z :=
  match m with Root => [0] | Entry off => advance base off end.

Definition tar_dirbuild (db : dirbuild) (m : tar_meta) (base : list Z) (base_len : Z) : res dirbuild :=
  let meta := meta_string base m in
  meta_len ← strlen meta;
  res_iter (S (length base)) (dirbuild_turn meta meta_len base base_len) (0, db).

(** [buf] is the static buffer of the function. *)
Definition tar_read (buf : list Z) (m : tar_meta) (q : ufs_request) (base : list Z) (base_len : Z) :
    res (tar_reply * Z) :=
  t ← tar_type base m;
  if (t =? 0) || (t =? 48) then
    match m with
    | Root => Err Undefined
    | Entry off =>
        size ← tar_size base off;
        '(o, len) ← fs_normslice (q_offset q) (q_len q) (u64 size) false;
        data ← fetch base (off + 512 + o) len;
        Ok (RData data, len)
    end
  else if t =? 53 then
    db ← tar_dirbuild (dir_start (q_offset q) (Some buf) BUF_SIZE) m base base_len;
    Ok (RData (take (Z.to_nat (dir_finish db)) (default [] (db_buf db))), dir_finish db)
  else Ok (RNull, -1).

Definition tar_getsize (m : tar_meta) (q : ufs_request) (base : list Z) (base_len : Z) :
    res (tar_reply * Z) :=
  t ← tar_type base m;
  if negb (t =? 53) then
    match m with
    | Root => Err Undefined
    | Entry off => size ← tar_size base off; Ok (RNull, size)
    end
  else
    db ← tar_dirbuild (dir_start (q_offset q) None 0) m base base_len;
    Ok (RNull, dir_finish db).

(** A turn of [tar_driver]; [path] is what [c0_fs_wait] has put into its buffer,
    [buf] the buffer of [tar_read]. *)
Definition tar_request (path buf : list Z) (m : tar_meta) (q : ufs_request) (base : list Z) :
    res (tar_reply * Z) :=
  let base_len := u64 (-1) in
  match q_op q with
  | VFSOP_OPEN =>
      r ← tar_open path (s32 (q_len q)) base base_len;
      Ok (match r with Some m => (RId m, 0) | None => (RNull, -1) end)
  | VFSOP_READ => tar_read buf m q base base_len
  | VFSOP_GETSIZE => tar_getsize m q base base_len
  | _ => Ok (RNull, -1)
  end.

(** ** Archives *)

Record entry := mkEntry {
  e_name : list Z;
  e_mode : list Z;        (* mode, owner, group *)
  e_gap : list Z;         (* time, checksum *)
  e_type : Z;
  e_link : list Z;
  e_rest : list Z;
  e_data : list Z;
  e_fill : list Z;
}.

Definition pad (n : nat) (l : list Z) : list Z := l ++ replicate (n - length l) 0.

(** [n] octal digits. *)
Fixpoint octal (n : nat) (z : Z) : list Z :=
  match n with O => [] | S n => octal n (z / 8) ++ [48 + z mod 8] end.

Definition e_size (e : entry) : Z := Z.of_nat (length (e_data e)).

Definition header (e : entry) : list Z :=
  pad 100 (e_name e) ++ e_mode e ++ octal 11 (e_size e) ++ e_gap e ++ [e_type e] ++
  pad 100 (e_link e) ++ ustar ++ e_rest e.

Definition entry_bytes (e : entry) : list Z := header e ++ e_data e ++ e_fill e.

(** A string that fits a field and leaves room for the terminator. *)
Definition field (l : list Z) : Prop := (length l < 100)%nat /\ 0 ∉ l.

Definition entry_ok (e : entry) : Prop :=
  field (e_name e) /\ field (e_link e) /\ length (e_mode e) = 24%nat /\
  length (e_gap e) = 21%nat /\ length (e_rest e) = 250%nat /\ e_size e + 511 < 2 ^ 31 /\
  Z.of_nat (length (e_fill e)) = Z.land (e_size e + 511) (Z.lnot 511) - e_size e.

#[export] Instance entry_ok_dec e : Decision (entry_ok e).
Proof. unfold entry_ok, field. apply _. Defined.

Definition archive (es : list entry) (end_ : list Z) : list Z :=
  mjoin (entry_bytes <$> es) ++ end_.

(** What follows the last entry: a sector that is not a header. *)
Definition end_ok (end_ : list Z) : Prop :=
  (262 <= length end_)%nat /\ take 5 (drop 257 end_) <> ustar.

(** The first entry with a name, and where it is. *)
Fixpoint lookup_entry (name : list Z) (es : list entry) (off : Z) : option (Z * entry) :=
  match es with
  | [] => None
  | e :: es =>
      if bool_decide (e_name e = name) then Some (off, e)
      else lookup_entry name es (off + Z.of_nat (length (entry_bytes e)))
  end.

(** The entry a path leads to; hard links are followed once. *)
Definition resolve (es : list entry) (name : list Z) : option (Z * entry) :=
  '(off, e) ← lookup_entry name es 0;
  if schar (e_type e) =? 49 then lookup_entry (e_link e) es 0 else Some (off, e).

(** ** Fields *)

Lemma length_octal n z : length (octal n z) = n.
Proof. revert z. induction n as [|n IH]; intros z; [done|]. cbn. rewrite length_app, IH. cbn. lia. Qed.

Lemma length_pad n l : (length l <= n)%nat -> length (pad n l) = n.
Proof. intros. unfold pad. rewrite length_app, length_replicate. lia. Qed.

Lemma length_header e : entry_ok e -> length (header e) = 512%nat.
Proof.
  intros ([Hn _]&[Hl _]&Hm&Hg&Hr&_). unfold header.
  rewrite !length_app, !length_pad, length_octal, Hm, Hg, Hr by lia. done.
Qed.

Lemma oct_parse_app a b m acc :
  oct_parse (a ++ b) (length a + m) acc = r ← oct_parse a (length a) acc; oct_parse b m r.
Proof.
  revert acc. induction a as [|c a IH]; intros acc; [done|].
  cbn [app length plus oct_parse]. destruct (int_ (acc * 8)) as [r|]; [|done]. cbn.
  destruct (int_ (r + (schar c - 48))) as [r'|]; [|done]. cbn. apply IH.
Qed.

Lemma oct_parse_octal n z : 0 <= z < 2 ^ 31 -> z < 8 ^ Z.of_nat n -> oct_parse (octal n z) n 0 = Ok z.
Proof.
  revert z. induction n as [|n IH]; intros z Hz Hn; [cbn in *; f_equal; lia|].
  cbn [octal]. pose proof (Z.div_mod z 8 ltac:(lia)). pose proof (Z.mod_pos_bound z 8 ltac:(lia)).
  rewrite Nat2Z.inj_succ, Z.pow_succ_r in Hn by lia.
  replace (S n) with (length (octal n (z / 8)) + 1)%nat by (rewrite length_octal; lia).
  rewrite oct_parse_app, length_octal, IH by lia. cbn [mbind res_bind oct_parse].
  rewrite int_ok by lia. cbn [mbind res_bind].
  assert (E : schar (48 + z mod 8) = 48 + z mod 8) by (unfold schar; rewrite Z.mod_small; lia).
  rewrite E, int_ok by lia. cbn [mbind res_bind]. f_equal. lia.
Qed.

Lemma fetch_mid (pre x post : list Z) off len :
  off = Z.of_nat (length pre) -> len = Z.of_nat (length x) -> fetch (pre ++ x ++ post) off len = Ok x.
Proof.
  intros -> ->. unfold fetch. rewrite !length_app, (proj2 (Z.leb_le _ _)) by lia.
  rewrite !Nat2Z.id, drop_app_length, take_app_length. done.
Qed.

Lemma strnlen_stop l t n : 0 ∉ l -> (length l < n)%nat -> strnlen (l ++ 0 :: t) n = Ok (Z.of_nat (length l)).
Proof.
  revert n. induction l as [|c l IH]; intros n H0 Hn; (destruct n as [|n]; [cbn in *; lia|]); [done|].
  apply not_elem_of_cons in H0 as [Hc H0]. cbn [app strnlen].
  rewrite (proj2 (Z.eqb_neq c 0)) by done. rewrite IH; [|done|cbn in Hn; lia].
  cbn [mbind res_bind length]. f_equal. lia.
Qed.

(** [base] holds the entry [e] at [off]. *)
Definition entry_at (base : list Z) (off : Z) (e : entry) : Prop :=
  exists pre post, base = pre ++ entry_bytes e ++ post /\ off = Z.of_nat (length pre).

Lemma fetch_at base off e a x b o n :
  entry_at base off e -> entry_bytes e = a ++ x ++ b ->
  o = off + Z.of_nat (length a) -> n = Z.of_nat (length x) -> fetch base o n = Ok x.
Proof.
  intros (pre&post&->&->) -> -> ->.
  replace (pre ++ (a ++ x ++ b) ++ post) with ((pre ++ a) ++ x ++ b ++ post) by (by rewrite <- !app_assoc).
  apply fetch_mid; rewrite ?length_app; lia.
Qed.

Lemma advance_at base off e a b o :
  entry_at base off e -> entry_bytes e = a ++ b -> o = off + Z.of_nat (length a) ->
  exists post, advance base o = b ++ post.
Proof.
  intros (pre&post&->&->) -> ->. exists post. unfold advance.
  replace (pre ++ (a ++ b) ++ post) with ((pre ++ a) ++ b ++ post) by (by rewrite <- !app_assoc).
  rewrite drop_app_length' by (rewrite length_app; lia). done.
Qed.

Lemma peek_at base off e a c b o :
  entry_at base off e -> entry_bytes e = a ++ [c] ++ b -> o = off + Z.of_nat (length a) ->
  peek base o = Ok c.
Proof.
  intros (pre&post&->&->) -> ->. unfold peek.
  replace (pre ++ (a ++ [c] ++ b) ++ post) with ((pre ++ a) ++ c :: b ++ post)
    by (by rewrite <- !app_assoc).
  by rewrite list_lookup_middle by (rewrite length_app; lia).
Qed.

(** A string agrees with a field, terminator included, only if it is the field's. *)
Lemma field_name l name :
  field l -> (length name < 100)%nat -> 0 ∉ name ->
  (if bool_decide (take (length name) (pad 100 l) = name)
   then default 0 (pad 100 l !! length name) =? 0 else false) = bool_decide (l = name).
Proof.
  intros [Hl H0] Hlen Hn. unfold pad. destruct (decide (l = name)) as [->|Hne].
  - rewrite take_app_length, !bool_decide_eq_true_2 by done.
    rewrite lookup_app_r, Nat.sub_diag by lia. by rewrite lookup_replicate_2 by lia.
  - rewrite (bool_decide_eq_false_2 (l = name)) by done. case_bool_decide as Ht; [|done].
    destruct (decide (length name < length l)%nat) as [Hlt|Hge].
    + rewrite lookup_app_l by lia. destruct (lookup_lt_is_Some_2 l (length name) Hlt) as [c Hc].
      rewrite Hc. cbn. apply Z.eqb_neq. intros ->. apply H0. by eapply list_elem_of_lookup_2.
    + exfalso. rewrite take_app_ge in Ht by lia. destruct (length name - length l)%nat as [|k] eqn:Ek.
      * rewrite take_0, app_nil_r in Ht. done.
      * apply Hn. rewrite <- Ht. apply elem_of_app. right.
        destruct (100 - length l)%nat as [|j] eqn:Ej; [lia|]. cbn. left.
Qed.

Section at_entry.
Variables (base : list Z) (off : Z) (e : entry).
Hypotheses (Hat : entry_at base off e) (Hok : entry_ok e).

(** The lengths of the fields in front of another. *)
Local Ltac field_pos :=
  destruct Hok as ([Hn _]&[Hl _]&Hm&Hg&Hr&_);
  rewrite ?length_app, ?length_pad, ?length_octal, ?Hm, ?Hg, ?Hr by lia; cbn [length ustar]; lia.

Lemma is_header_at : is_header base off = Ok true.
Proof.
  unfold is_header. rewrite (fetch_at _ off e
    (pad 100 (e_name e) ++ e_mode e ++ octal 11 (e_size e) ++ e_gap e ++ [e_type e] ++ pad 100 (e_link e))
    ustar (e_rest e ++ e_data e ++ e_fill e)); [reflexivity|done| |field_pos|done].
  unfold entry_bytes, header. by rewrite <- !app_assoc.
Qed.

Lemma tar_type_at : tar_type base (Entry off) = Ok (schar (e_type e)).
Proof.
  unfold tar_type. rewrite (peek_at _ off e
    (pad 100 (e_name e) ++ e_mode e ++ octal 11 (e_size e) ++ e_gap e) (e_type e)
    (pad 100 (e_link e) ++ ustar ++ e_rest e ++ e_data e ++ e_fill e)); [reflexivity|done| |field_pos].
  unfold entry_bytes, header. by rewrite <- !app_assoc.
Qed.

Lemma tar_size_at : tar_size base off = Ok (e_size e).
Proof.
  unfold tar_size.
  destruct (advance_at _ off e (pad 100 (e_name e) ++ e_mode e)
    (octal 11 (e_size e) ++ e_gap e ++ [e_type e] ++ pad 100 (e_link e) ++ ustar ++ e_rest e ++
     e_data e ++ e_fill e) (off + 124) Hat) as [post ->].
  - unfold entry_bytes, header. by rewrite <- !app_assoc.
  - field_pos.
  - rewrite <- app_assoc. set (tail := _ ++ post).
    pose proof (oct_parse_app (octal 11 (e_size e)) tail 0 0) as E.
    rewrite length_octal in E. change (11 + 0)%nat with 11%nat in E.
    rewrite E, oct_parse_octal; [reflexivity| |].
    all: unfold e_size; destruct Hok as (_&_&_&_&_&Hs&_); unfold e_size in Hs; lia.
Qed.

Lemma next_header_at :
  off + Z.of_nat (length (entry_bytes e)) < 2 ^ 64 -> 
  next_header base off = Ok (off + Z.of_nat (length (entry_bytes e))).
Proof.
  intros Hlt. pose proof (length_header e Hok) as Hh. unfold next_header. rewrite tar_size_at. cbn [mbind res_bind].
  destruct Hok as (_&_&_&_&_&Hs&Hf). unfold entry_bytes in *. rewrite !length_app, Hh in *.
  destruct Hat as (pre&post&_&->). unfold e_size in *.
  rewrite int_ok by lia. cbn [mbind res_bind]. f_equal.
  rewrite (u64_small (_ + 512)) by (unfold is_size; lia). rewrite u64_small by (unfold is_size; lia). lia.
Qed.

(** The name in a header is compared with its terminator. *)
Lemma name_matches name :
  (length name < 100)%nat -> 0 ∉ name ->
  exists bs, fetch base off (Z.of_nat (length name)) = Ok bs /\
    (if bool_decide (bs = name) then c ← peek base (off + Z.of_nat (length name)); Ok (c =? 0) else Ok false)
    = Ok (bool_decide (e_name e = name)).
Proof.
  intros Hlen H0.
  set (n := length name). set (field := pad 100 (e_name e)).
  assert (Hfl : length field = 100%nat) by (apply length_pad; destruct Hok as ([]&_); lia).
  assert (Hsplit : field = take n field ++ [default 0 (field !! n)] ++ drop (S n) field).
  { rewrite <- (take_drop_middle field n (default 0 (field !! n))) at 1; [done|].
    destruct (lookup_lt_is_Some_2 field n) as [c ->]; [unfold n; lia|done]. }
  exists (take n field). split.
  - apply (fetch_at _ off e [] (take n field) (drop n field ++ drop 100 (entry_bytes e))); [done| |cbn; lia|].
    + cbn [app]. rewrite app_assoc, take_drop. unfold entry_bytes, header. fold field.
      rewrite <- !app_assoc, drop_app_length' by done. done.
    + rewrite length_take. unfold n in *. lia.
  - rewrite (peek_at _ off e (take n field) (default 0 (field !! n))
      (drop (S n) field ++ drop 100 (entry_bytes e))); [|done| |rewrite length_take; unfold n in *; lia].
    + cbn [mbind res_bind]. unfold field. rewrite <- (field_name _ _ (proj1 Hok) Hlen H0).
      fold n. by destruct (bool_decide (take n (pad 100 (e_name e)) = name)).
    + rewrite (app_assoc [_]), app_assoc, <- Hsplit. unfold entry_bytes, header. fold field.
      rewrite <- !app_assoc, drop_app_length' by done. done.
Qed.

Lemma data_at o len :
  0 <= o -> 0 <= len -> o + len <= e_size e ->
  fetch base (off + 512 + o) len = Ok (take (Z.to_nat len) (drop (Z.to_nat o) (e_data e))).
Proof.
  intros Ho Hlen Hend. unfold e_size in Hend.
  apply (fetch_at _ off e (header e ++ take (Z.to_nat o) (e_data e))
    (take (Z.to_nat len) (drop (Z.to_nat o) (e_data e)))
    (drop (Z.to_nat len) (drop (Z.to_nat o) (e_data e)) ++ e_fill e)); [done| | |].
  - rewrite <- app_assoc. rewrite (app_assoc (take (Z.to_nat len) _)), take_drop.
    rewrite (app_assoc (take (Z.to_nat o) _)), take_drop. done.
  - rewrite length_app, length_header, length_take by done. lia.
  - rewrite length_take, length_drop. lia.
Qed.

(** The link's name, read as the argument of [tar_find]. *)
Lemma link_at :
  exists link, advance base (off + 157) = link /\
    strnlen link 100 = Ok (Z.of_nat (length (e_link e))) /\
    fetch link 0 (Z.of_nat (length (e_link e))) = Ok (e_link e).
Proof.
  destruct (advance_at _ off e (pad 100 (e_name e) ++ e_mode e ++ octal 11 (e_size e) ++ e_gap e ++ [e_type e])
    (pad 100 (e_link e) ++ ustar ++ e_rest e ++ e_data e ++ e_fill e) (off + 157) Hat) as [post ->].
  - unfold entry_bytes, header. by rewrite <- !app_assoc.
  - field_pos.
  - destruct Hok as (_&[Hll Hl0]&_). eexists. split; [reflexivity|].
    unfold pad. destruct (100 - length (e_link e))%nat as [|k] eqn:Ek; [lia|]. cbn [replicate].
    rewrite <- !app_assoc. cbn [app]. split.
    + apply strnlen_stop; [done|lia].
    + apply (fetch_mid []); done.
Qed.
End at_entry.

(** ** Searching *)

Section search.
Variables (es : list entry) (end_ : list Z).
Hypotheses (Hes : Forall entry_ok es) (Hend : end_ok end_)
  (Hsize : Z.of_nat (length (archive es end_)) < u64 (-1)).
Local Abbreviation base := (archive es end_).

Lemma archive_app a b : archive (a ++ b) end_ = mjoin (entry_bytes <$> a) ++ archive b end_.
Proof. unfold archive. by rewrite fmap_app, join_app, app_assoc. Qed.

Lemma turn_at name path off e :
  entry_at base off e -> entry_ok e -> (length name < 100)%nat -> 0 ∉ name ->
  fetch path 0 (Z.of_nat (length name)) = Ok name ->
  find_turn path (Z.of_nat (length name)) base (u64 (-1)) off =
  Ok (if bool_decide (e_name e = name) then inr (Some off)
      else inl (off + Z.of_nat (length (entry_bytes e)))).
Proof.
  intros Hat Hok Hlen H0 Hp. unfold find_turn.
  assert (Hin : off + Z.of_nat (length (entry_bytes e)) <= Z.of_nat (length base)).
  { destruct Hat as (pre&post&->&->). rewrite !length_app. lia. }
  change (u64 (-1)) with (2 ^ 64 - 1) in *. rewrite (proj2 (Z.ltb_lt off _)) by lia.
  rewrite (is_header_at _ _ _ Hat Hok). cbn [mbind res_bind negb].
  destruct (name_matches _ _ _ Hat Hok name Hlen H0) as (bs&->&Hm). cbn [mbind res_bind].
  rewrite Hp. cbn [mbind res_bind] in *. rewrite Hm. cbn [mbind res_bind].
  destruct (bool_decide (e_name e = name)); [done|]. by rewrite (next_header_at _ _ _ Hat Hok) by lia.
Qed.

Lemma find_from name path a b n :
  es = a ++ b -> (length b < n)%nat -> (length name < 100)%nat -> 0 ∉ name ->
  fetch path 0 (Z.of_nat (length name)) = Ok name ->
  res_iter n (find_turn path (Z.of_nat (length name)) base (u64 (-1)))
    (Z.of_nat (length (mjoin (entry_bytes <$> a)))) =
  Ok (fst <$> lookup_entry name b (Z.of_nat (length (mjoin (entry_bytes <$> a))))).
Proof.
  intros Heq Hn Hlen H0 Hp. revert a n Heq Hn. induction b as [|e b IH]; intros a n Heq Hn;
    (destruct n as [|n]; [cbn in Hn; lia|]); cbn [res_iter].
  - assert (Hturn : find_turn path (Z.of_nat (length name)) base (u64 (-1))
        (Z.of_nat (length (mjoin (entry_bytes <$> a)))) = Ok (inr None)); [|by rewrite Hturn].
    rewrite app_nil_r in Heq. subst a. unfold find_turn.
    rewrite (proj2 (Z.ltb_lt _ _)) by (unfold archive in Hsize; rewrite length_app in Hsize; lia).
    unfold is_header. destruct Hend as [Hel Hne].
    assert (Hf : fetch base (Z.of_nat (length (mjoin (entry_bytes <$> es))) + 257) 5
                 = Ok (take 5 (drop 257 end_))).
    { unfold archive. rewrite <- (take_drop 257 end_) at 1. rewrite <- (take_drop 5 (drop 257 end_)) at 1.
      rewrite app_assoc. apply fetch_mid; rewrite ?length_app, length_take, ?length_drop; lia. }
    rewrite Hf. cbn [mbind res_bind]. by rewrite bool_decide_eq_false_2.
  - assert (Hin : e ∈ es) by (rewrite Heq; set_solver).
    assert (Hat : entry_at base (Z.of_nat (length (mjoin (entry_bytes <$> a)))) e).
    { exists (mjoin (entry_bytes <$> a)), (archive b end_). split; [|done].
      rewrite Heq, archive_app. unfold archive. cbn. by rewrite <- app_assoc. }
    rewrite (turn_at name path _ e); [|done|by eapply Forall_forall|done..]. cbn [mbind res_bind].
    cbn [lookup_entry]. case_bool_decide; [done|].
    specialize (IH (a ++ [e]) n). rewrite fmap_app, join_app, length_app in IH. cbn in IH.
    rewrite app_nil_r, Nat2Z.inj_add in IH. apply IH; [by rewrite <- app_assoc|cbn in Hn; lia].
Qed.

(** Every entry has at least a header, so there are turns enough. *)
Lemma archive_long : (length es <= length base)%nat.
Proof.
  unfold archive. rewrite length_app. clear Hsize. induction es as [|e l IH]; [cbn; lia|].
  apply Forall_cons in Hes as [He Hl]. specialize (IH Hl). rewrite ?length_app in IH.
  change (mjoin (entry_bytes <$> e :: l)) with (entry_bytes e ++ mjoin (entry_bytes <$> l)).
  cbn [length]. unfold entry_bytes at 1. rewrite !length_app, length_header by done. lia.
Qed.

Lemma tar_find_spec name path :
  (length name < 100)%nat -> 0 ∉ name -> fetch path 0 (Z.of_nat (length name)) = Ok name ->
  tar_find path (Z.of_nat (length name)) base (u64 (-1)) = Ok (fst <$> lookup_entry name es 0).
Proof.
  intros Hlen H0 Hp. unfold tar_find. rewrite (proj2 (Z.ltb_ge 100 _)) by lia.
  apply (find_from name path [] es); [done| |done..]. pose proof archive_long. lia.
Qed.

Lemma lookup_entry_at name a b off e :
  es = a ++ b -> lookup_entry name b (Z.of_nat (length (mjoin (entry_bytes <$> a)))) = Some (off, e) ->
  entry_at base off e /\ e ∈ es.
Proof.
  revert a. induction b as [|e' b IH]; intros a Heq Hl; [done|]. cbn [lookup_entry] in Hl.
  case_bool_decide as Hn.
  - injection Hl as <- <-. split; [|rewrite Heq; set_solver].
    exists (mjoin (entry_bytes <$> a)), (archive b end_). split; [|done].
    rewrite Heq, archive_app. unfold archive. cbn. by rewrite <- app_assoc.
  - apply (IH (a ++ [e'])); [by rewrite <- app_assoc|].
    rewrite fmap_app, join_app, length_app. cbn. by rewrite app_nil_r, Nat2Z.inj_add.
Qed.

Lemma resolve_at name off e :
  resolve es name = Some (off, e) -> entry_at base off e /\ e ∈ es.
Proof.
  unfold resolve. destruct (lookup_entry name es 0) as [[off' e']|] eqn:El; [|done].
  cbn [mbind option_bind]. destruct (schar (e_type e') =? 49).
  - apply (lookup_entry_at _ [] es); done.
  - intros [= <- <-]. by apply (lookup_entry_at name [] es).
Qed.

(** [tar_open] of an absolute path. *)
Lemma tar_open_spec name :
  name <> [] -> (length name < 100)%nat -> 0 ∉ name ->
  tar_open (47 :: name) (Z.of_nat (length (47 :: name))) base (u64 (-1)) =
  Ok (Entry ∘ fst <$> resolve es name).
Proof.
  intros Hne Hlen H0. unfold tar_open. cbn [length]. rewrite (proj2 (Z.leb_gt _ 0)) by lia.
  change (peek (47 :: name) 0) with (Ok 47 : res Z). cbn [mbind res_bind].
  change (47 =? 47) with true. cbv beta iota zeta.
  replace (Z.of_nat (S (length name)) - 1) with (Z.of_nat (length name)) by lia.
  rewrite (proj2 (Z.eqb_neq _ 0)) by (destruct name; [done|cbn; lia]).
  change (advance (47 :: name) 1) with name.
  rewrite tar_find_spec; [|done..|unfold fetch; rewrite (proj2 (Z.leb_le _ _)) by lia;
                           by rewrite Nat2Z.id, firstn_all]. cbn [mbind res_bind].
  unfold resolve. destruct (lookup_entry name es 0) as [[off e]|] eqn:El; [|done].
  destruct (lookup_entry_at name [] es off e eq_refl El) as [Hat Hin].
  assert (Hok : entry_ok e) by (by eapply Forall_forall).
  cbn [fmap option_fmap option_map fst mbind option_bind].
  rewrite (tar_type_at _ _ _ Hat Hok). cbn [mbind res_bind].
  destruct (schar (e_type e) =? 49); [|done].
  destruct (link_at _ _ _ Hat Hok) as (link&->&->&Hlink). cbn [mbind res_bind].
  destruct Hok as (_&[Hll Hl0]&_). rewrite tar_find_spec by done. cbn [mbind res_bind].
  by destruct (lookup_entry (e_link e) es 0) as [[]|].
Qed.
End search.

(** ** What the file system serves *)

Definition open_request (path : list Z) : ufs_request :=
  mkUfs VFSOP_OPEN (Z.of_nat (length path)) 0 1 0 1.
Definition read_request (offset len : Z) : ufs_request := mkUfs VFSOP_READ len len 1 offset 0.
Definition getsize_request : ufs_request := mkUfs VFSOP_GETSIZE 0 0 1 0 0.

(** C18: the file system over an archive serves what was packed.  For any list of
    entries, opening an absolute path answers with the first entry of that name
    (of the name it links to, if it is a hard link), or with an error if there
    is none; the size of what was opened is the length of its contents, and
    reading a file from any offset, also a negative one, gives exactly that part
    of its contents.  The search ends on every such archive, and no access
    leaves it. *)
Theorem tar_serves_archive es end_ name m buf :
  Forall entry_ok es -> end_ok end_ -> Z.of_nat (length (archive es end_)) < u64 (-1) ->
  name <> [] -> (length name < 100)%nat -> 0 ∉ name ->
  let base := archive es end_ in
  match resolve es name with
  | None => tar_request (47 :: name) buf m (open_request (47 :: name)) base = Ok (RNull, -1)
  | Some (at_, e) =>
      tar_request (47 :: name) buf m (open_request (47 :: name)) base = Ok (RId (Entry at_), 0) /\
      (schar (e_type e) <> 53 ->
       tar_request [] buf (Entry at_) getsize_request base = Ok (RNull, e_size e)) /\
      (schar (e_type e) = 0 \/ schar (e_type e) = 48 ->
       forall offset len, - 2 ^ 63 <= offset < 2 ^ 63 -> is_size len ->
       let '(o, n) := slice_spec offset len (e_size e) false in
       tar_request [] buf (Entry at_) (read_request offset len) base =
       Ok (RData (take (Z.to_nat n) (drop (Z.to_nat o) (e_data e))), n))
  end.
Proof.
  intros Hes Hend Hsize Hne Hlen H0. cbv zeta.
  pose proof (tar_open_spec es end_ Hes Hend Hsize name Hne Hlen H0) as Hopen.
  assert (Hs32 : s32 (Z.of_nat (length (47 :: name))) = Z.of_nat (length (47 :: name)))
    by (apply s32_small; cbn [length]; lia).
  destruct (resolve es name) as [[at_ e]|] eqn:Hr.
  2: { unfold tar_request. cbn [q_op q_len open_request]. by rewrite Hs32, Hopen. }
  destruct (resolve_at es end_ Hes Hend Hsize name at_ e Hr) as [Hat Hin].
  assert (Hok : entry_ok e) by (by eapply Forall_forall).
  split; [|split].
  - unfold tar_request. cbn [q_op q_len open_request]. by rewrite Hs32, Hopen.
  - intros Ht. unfold tar_request, tar_getsize. cbn [q_op getsize_request].
    rewrite (tar_type_at _ _ _ Hat Hok). cbn [mbind res_bind].
    rewrite (proj2 (Z.eqb_neq _ 53)) by done. by rewrite (tar_size_at _ _ _ Hat Hok).
  - intros Ht offset len Ho Hl. unfold tar_request, tar_read. cbn [q_op q_offset q_len read_request].
    assert (Hes0 : 0 <= e_size e < 2 ^ 31) by (destruct Hok as (_&_&_&_&_&?&_); unfold e_size in *; lia).
    destruct (fs_normslice_spec offset len (e_size e) false) as [Hns Hb]; [done|done|unfold LONG_MAX; lia|].
    specialize (Hb eq_refl). destruct (slice_spec _ _ _ _) as [o n]. destruct Hb as (?&?&?).
    rewrite (tar_type_at _ _ _ Hat Hok). cbn [mbind res_bind].
    assert (Hreg : (schar (e_type e) =? 0) || (schar (e_type e) =? 48) = true)
      by (destruct Ht as [->| ->]; done).
    rewrite Hreg, (tar_size_at _ _ _ Hat Hok). cbn [mbind res_bind].
    rewrite u64_small by (unfold is_size; lia). rewrite Hns. cbn [mbind res_bind].
    by rewrite (data_at _ _ _ Hat Hok) by lia.
Qed.

Definition simple_entry (name : list Z) (type : Z) (link data : list Z) : entry :=
  mkEntry name (replicate 24 48) (replicate 21 48) type link (replicate 250 0) data
    (replicate (Z.to_nat (Z.land (Z.of_nat (length data) + 511) (Z.lnot 511)) - length data) 0).

Definition some_entries : list entry :=
  [simple_entry [100; 47] 53 [] []; simple_entry [100; 47; 97] 48 [] [104; 105; 33];
   simple_entry [98] 49 [100; 47; 97] []].

Definition end_of_archive : list Z := replicate 512 0.

(** ["/b"] is a link to ["/d/a"], which holds "hi!". *)
Lemma tar_serves_archive_witness :
  let base := archive some_entries end_of_archive in
  tar_request [47; 98] [] Root (open_request [47; 98]) base = Ok (RId (Entry 512), 0) /\
  tar_request [] [] (Entry 512) getsize_request base = Ok (RNull, 3) /\
  tar_request [] [] (Entry 512) (read_request (-3) 10) base = Ok (RData [105; 33], 2).
Proof.
  destruct (tar_serves_archive some_entries end_of_archive [98] Root []) as (Ho&Hs&Hr).
  - apply (bool_decide_unpack _). by vm_compute.
  - split; [vm_compute; lia|by vm_compute].
  - by vm_compute.
  - done.
  - cbn. lia.
  - apply not_elem_of_cons. split; [done|apply not_elem_of_nil].
  - split; [exact Ho|]. split; [by apply Hs|].
    apply (Hr (or_intror eq_refl) (-3) 10); unfold is_size; lia.
Defined.

(** ** What goes wrong *)

(** A size of 2 GiB or more overflows the [int]. *)
Lemma oct_parse_overflows : oct_parse (octal 11 (2 ^ 31)) 11 0 = Err Undefined.
Proof. reflexivity. Qed.

(** A name that fills its field is not terminated; the byte behind it is the
    first digit of the mode, and the entry is never found. *)
Lemma full_name_not_found :
  let name := replicate 100 97 in
  tar_find name 100 (archive [simple_entry name 48 [] []] end_of_archive) (u64 (-1)) = Ok None.
Proof. by vm_compute. Qed.

(** The listing of a directory is built in a buffer of 64 bytes, whatever its
    length: with names longer than that together it is written past its end. *)
Lemma long_listing_overflows :
  let es := (fun c => simple_entry (replicate 40 c) 48 [] []) <$> [97; 98] in
  tar_request [] (replicate 64 0) Root (read_request 0 64) (archive es end_of_archive) = Err Undefined.
Proof. by vm_compute. Qed.

(** Digits are not checked: a size field that comes out as -512 leads back to
    the same header, for ever. *)
Lemma bad_size_loops :
  let sector := replicate 124 97 ++ [48; 48; 48; 48; 48; 48; 48; 48; 40; 48; 48] ++
                replicate 122 48 ++ ustar ++ replicate 250 0 in
  tar_find [98] 1 sector (u64 (-1)) = Err OutOfFuel.
Proof. by vm_compute. Qed.
