(* ===== verification/Shell.v ===== *)
(** * Shell

    The parser of the shell ([src/src/cmd/shell/parser.c]).  It cuts a line into
    arguments in place: what it gives out are pointers into the line, which are
    positions here, and it ends every argument by writing a terminator over the
    byte behind it. *)

From S2P Require Import Prelude Mem CString NetUtil.

Definition quote : Z := 34.
Definition hash : Z := 35.
Definition gt : Z := 62.

(** The loops that advance the pointer up to the end of the string or a byte
    that [p] does not hold of: how far. *)
Fixpoint scan (p : Z -> bool) (l : list Z) : res nat :=
  match l with
  | [] => Err Undefined
  | c :: l => if (c =? 0) || negb (p (schar c)) then Ok 0%nat else n ← scan p l; Ok (S n)
  end.

Definition skipspace (buf : list Z) (s : nat) : res nat :=
  n ← scan isspace (drop s buf); Ok (s + n)%nat.

Definition isspecial (c : Z) : bool := (c =? gt) || (c =? hash).

(** The end of [parg]: a terminator over the byte at [s], unless it is one. *)
Definition cut (buf : list Z) (s : nat) : res (list Z * nat) :=
  c ← peek buf (Z.of_nat s);
  Ok (if c =? 0 then (buf, s) else (<[s := 0]> buf, S s)).

(** The line, the position behind the argument, the argument. *)
Definition parg (buf : list Z) (s : nat) : res (list Z * nat * option nat) :=
  s ← skipspace buf s;
  c ← peek buf (Z.of_nat s);
  if c =? 0 then Ok (buf, s, None)
  else if c =? quote then
    let start := S s in
    n ← scan (fun c => negb (c =? quote)) (drop start buf);
    x ← cut buf (start + n)%nat;
    Ok (x, Some start)
  else
    n ← scan (fun c => negb (isspace c) && negb (isspecial c)) (drop s buf);
    let e := (s + n)%nat in
    c ← peek buf (Z.of_nat e);
    if c =? hash then Ok (<[e := 0]> buf, e, if bool_decide (e = s) then None else Some s)
    else x ← cut buf e; Ok (x, Some s).

Record redir := mkRedir { rd_stdout : option nat; rd_append : bool }.

Record parser := mkParser {
  ps_buf : list Z;
  ps_pos : nat;
  ps_argv : list (option nat);       (* the first [argc] entries *)
  ps_redir : redir;
}.

(** A turn of the loop of [parse]; the answer is its return value. *)
Definition parse_turn (argvlen : nat) (p : parser) : res (parser + parser * Z) :=
  s ← skipspace (ps_buf p) (ps_pos p);
  c ← peek (ps_buf p) (Z.of_nat s);
  if c =? 0 then Ok (inr (mkParser (ps_buf p) s (ps_argv p) (ps_redir p), Z.of_nat (length (ps_argv p))))
  else if c =? gt then
    c ← peek (ps_buf p) (Z.of_nat (S s));
    let append := rd_append (ps_redir p) || (c =? gt) in
    x ← parg (ps_buf p) (if c =? gt then S (S s) else S s);
    let '(buf, s, arg) := (x : list Z * nat * option nat) in
    Ok (inl (mkParser buf s (ps_argv p) (mkRedir arg append)))
  else
    x ← parg (ps_buf p) s;
    let '(buf, s, arg) := (x : list Z * nat * option nat) in
    let p := mkParser buf s (ps_argv p ++ [arg]) (ps_redir p) in
    Ok (if (argvlen <=? length (ps_argv p))%nat then inr (p, -1) else inl p).

Fixpoint parse_loop (n : nat) (argvlen : nat) (p : parser) : res (parser * Z) :=
  match n with
  | O => Err OutOfFuel
  | S n => x ← parse_turn argvlen p; match x with inl p => parse_loop n argvlen p | inr r => Ok r end
  end.

Definition parser0 (s : list Z) : parser := mkParser s 0 [] (mkRedir None false).

(** Every turn but the last consumes a byte. *)
Definition parse (s : list Z) (argvlen : nat) : res (parser * Z) :=
  if (argvlen =? 0)%nat then Ok (parser0 s, -1)
  else parse_loop (S (length s)) argvlen (parser0 s).

(** ** Lines

    A line as a user writes it: words, bare or quoted, separated by blanks, and
    at the end perhaps a redirection. *)

Inductive word := Bare (t : list Z) | Quoted (t : list Z).

Definition text (w : word) : list Z := match w with Bare t | Quoted t => t end.
Definition mark (w : word) : list Z := match w with Bare _ => [] | Quoted _ => [quote] end.
Definition render (w : word) : list Z :=
  match w with Bare t => t | Quoted t => quote :: t ++ [quote] end.

Definition blank (c : Z) : Prop := c <> 0 /\ isspace (schar c) = true.
Definition plain (c : Z) : Prop :=
  c <> 0 /\ isspace (schar c) = false /\ isspecial (schar c) = false.

Definition word_ok (w : word) : Prop :=
  match w with
  | Bare t => Forall (fun c => plain c /\ is_byte c) t /\ t <> [] /\ head t <> Some quote
  | Quoted t => Forall (fun c => c <> 0 /\ schar c <> quote) t
  end.

(** A word with the blanks behind it. *)
Record item := mkItem { it_word : word; it_sep : Z; it_seps : list Z }.
Definition item_ok (i : item) : Prop :=
  word_ok (it_word i) /\ blank (it_sep i) /\ Forall blank (it_seps i).

(** [> file] or [>> file], with the blanks before and behind the name. *)
Record target := mkTarget { tg_append : bool; tg_blanks : list Z; tg_word : word; tg_end : list Z }.
Definition target_ok (t : target) : Prop :=
  Forall blank (tg_blanks t) /\ word_ok (tg_word t) /\ Forall blank (tg_end t).

Definition tail_of (t : option target) : list Z :=
  match t with
  | None => [0]
  | Some t => gt :: (if tg_append t then [gt] else []) ++ tg_blanks t ++ render (tg_word t) ++ tg_end t ++ [0]
  end.

Fixpoint body (l : list item) (t : option target) : list Z :=
  match l with
  | [] => tail_of t
  | i :: l => render (it_word i) ++ it_sep i :: it_seps i ++ body l t
  end.

(** The string at a position. *)
Definition string_at (buf : list Z) (i : nat) (s : list Z) : Prop :=
  exists a b, buf = a ++ s ++ 0 :: b /\ i = length a.

Definition points_to (buf : list Z) (p : option nat) (w : word) : Prop :=
  exists i, p = Some i /\ string_at buf i (text w).

(** A line has more bytes than words. *)
Lemma body_long l t : (length l < length (body l t))%nat.
Proof.
  induction l as [|i l IH]; cbn [body length].
  - destruct t; cbn; lia.
  - rewrite length_app. cbn [length]. rewrite length_app. lia.
Qed.

(** ** Steps *)

Lemma scan_stop p a c rest :
  Forall (fun c => c <> 0 /\ p (schar c) = true) a -> c = 0 \/ p (schar c) = false ->
  scan p (a ++ c :: rest) = Ok (length a).
Proof.
  intros Ha Hc. induction Ha as [|b a [Hb Hp] _ IH]; cbn [app scan length].
  - destruct Hc as [-> | ->]; [done|]. by rewrite orb_true_r.
  - rewrite (proj2 (Z.eqb_neq b 0)), Hp by done. cbn. by rewrite IH.
Qed.

Lemma peek_at_pos pre c post n : n = length pre -> peek (pre ++ c :: post) (Z.of_nat n) = Ok c.
Proof. intros ->. unfold peek. by rewrite Nat2Z.id, list_lookup_middle. Qed.

Lemma skipspace_at pre bl c rest n :
  n = length pre -> Forall blank bl -> c = 0 \/ isspace (schar c) = false ->
  skipspace (pre ++ bl ++ c :: rest) n = Ok (n + length bl)%nat.
Proof.
  intros -> Hb Hc. unfold skipspace. rewrite drop_app_length. by rewrite scan_stop.
Qed.

Lemma cut_at pre c post n :
  n = length pre ->
  cut (pre ++ c :: post) n = Ok (if c =? 0 then (pre ++ c :: post, n) else (pre ++ 0 :: post, S n)).
Proof.
  intros ->. unfold cut. rewrite peek_at_pos by done. cbn [mbind res_bind].
  destruct (c =? 0); [done|]. do 2 f_equal. by rewrite insert_app_r_alt, Nat.sub_diag by lia.
Qed.

(** The first byte of a word. *)
Lemma render_head w : word_ok w -> exists c l,
  render w = c :: l /\ c <> 0 /\ isspace (schar c) = false /\ c <> gt /\
  (c =? quote) = match w with Bare _ => false | Quoted _ => true end.
Proof.
  destruct w as [[|c t]|t]; intros Hw; [by destruct Hw as (_&?&_)| |].
  - destruct Hw as ([[(?&?&Hs) Hb] _]%Forall_cons&_&Hq). exists c, t. repeat split; try done.
    + intros ->. done.
    + apply Z.eqb_neq. intros ->. done.
  - exists quote, (t ++ [quote]). done.
Qed.

(** An argument with a blank behind it. *)
Definition rest_of (w : word) (c : Z) (rest : list Z) : list Z :=
  match w with Bare _ => rest | Quoted _ => c :: rest end.

Lemma parg_word pre bl w c rest n :
  n = length pre -> Forall blank bl -> word_ok w -> blank c ->
  let pre' := pre ++ bl ++ mark w ++ text w ++ [0] in
  parg (pre ++ bl ++ render w ++ c :: rest) n =
  Ok (pre' ++ rest_of w c rest, length pre', Some (length (pre ++ bl ++ mark w))).
Proof.
  intros -> Hbl Hw [Hc Hsp] pre'. destruct (render_head w Hw) as (h&l&Hr&Hh&Hhs&_&Hq).
  unfold parg. rewrite Hr. cbn [app]. rewrite skipspace_at by (done || by right). cbn [mbind res_bind].
  rewrite (app_assoc pre bl). rewrite peek_at_pos by (rewrite length_app; done). cbn [mbind res_bind].
  rewrite (proj2 (Z.eqb_neq h 0)) by done. rewrite Hq. subst pre'. destruct w as [t|t]; cbn [mark text rest_of app].
  - cbn [render] in Hr. destruct Hw as (Ht&_&_).
    rewrite <- length_app, drop_app_length. cbn [app]. change (h :: l ++ c :: rest) with ((h :: l) ++ c :: rest).
    rewrite <- Hr.
    rewrite scan_stop; [cbn [mbind res_bind]| |right; by rewrite Hsp].
    2: { eapply Forall_impl; [exact Ht|]. intros x [(?&->&->) _]. done. }
    rewrite (app_assoc (pre ++ bl)), <- length_app. rewrite peek_at_pos by done. cbn [mbind res_bind].
    assert (Hch : c =? hash = false) by (apply Z.eqb_neq; intros ->; done).
    rewrite Hch, cut_at by done. cbn [mbind res_bind]. rewrite (proj2 (Z.eqb_neq c 0)) by done.
    do 2 f_equal; [|by rewrite app_nil_r]. f_equal; [by rewrite <- !app_assoc|].
    rewrite !length_app. cbn. lia.
  - injection Hr as <- <-.
    replace ((pre ++ bl) ++ quote :: (t ++ [quote]) ++ c :: rest)
      with ((pre ++ bl ++ [quote]) ++ t ++ quote :: c :: rest) by (by rewrite <- !app_assoc).
    assert (Hn : S (length pre + length bl) = length (pre ++ bl ++ [quote]))
      by (rewrite !length_app; cbn; lia).
    rewrite Hn, drop_app_length, scan_stop; [cbn [mbind res_bind]| |by right].
    2: { eapply Forall_impl; [exact Hw|]. intros x [? ?%Z.eqb_neq]. split; [done|]. by apply negb_true_iff. }
    rewrite (app_assoc (pre ++ bl ++ [quote])), <- length_app, cut_at by done.
    change (quote =? 0) with false. cbn [mbind res_bind].
    do 2 f_equal. f_equal; [by rewrite <- !app_assoc; cbn [app]; rewrite <- !app_assoc|]. rewrite !length_app. cbn [length]. rewrite !length_app. cbn [length]. lia.
Qed.

(** An argument at the end of the line. *)
Lemma parg_last pre bl w n :
  n = length pre -> Forall blank bl -> word_ok w ->
  exists held i, parg (pre ++ bl ++ render w ++ [0]) n =
    Ok ((pre ++ held) ++ [0], length (pre ++ held), Some i) /\
    string_at ((pre ++ held) ++ [0]) i (text w).
Proof.
  intros -> Hbl Hw. destruct (render_head w Hw) as (h&l&Hr&Hh&Hhs&_&Hq).
  unfold parg. rewrite Hr. cbn [app]. rewrite skipspace_at by (done || by right). cbn [mbind res_bind].
  rewrite (app_assoc pre bl). rewrite peek_at_pos by (rewrite length_app; done). cbn [mbind res_bind].
  rewrite (proj2 (Z.eqb_neq h 0)) by done. rewrite Hq. destruct w as [t|t].
  - exists (bl ++ t), (length pre + length bl)%nat. cbn [render] in Hr. destruct Hw as (Ht&_&_).
    rewrite <- length_app, drop_app_length. change (h :: l ++ [0]) with ((h :: l) ++ [0]). rewrite <- Hr.
    rewrite scan_stop; [cbn [mbind res_bind]| |by left].
    2: { eapply Forall_impl; [exact Ht|]. intros x [(?&->&->) _]. done. }
    rewrite (app_assoc (pre ++ bl)), <- length_app. rewrite peek_at_pos by done. cbn [mbind res_bind].
    change (0 =? hash) with false. rewrite cut_at by done. cbn. rewrite !(app_assoc pre). split; [done|].
    exists (pre ++ bl), []. by rewrite <- !app_assoc.
  - injection Hr as <- <-. exists (bl ++ quote :: t ++ [0]), (length (pre ++ bl ++ [quote])).
    replace ((pre ++ bl) ++ quote :: (t ++ [quote]) ++ [0])
      with ((pre ++ bl ++ [quote]) ++ t ++ quote :: [0]) by (by rewrite <- !app_assoc).
    assert (Hn : S (length pre + length bl) = length (pre ++ bl ++ [quote]))
      by (rewrite !length_app; cbn; lia).
    rewrite Hn, drop_app_length, scan_stop; [cbn [mbind res_bind]| |by right].
    2: { eapply Forall_impl; [exact Hw|]. intros x [? ?%Z.eqb_neq]. split; [done|]. by apply negb_true_iff. }
    rewrite (app_assoc (pre ++ bl ++ [quote])), <- length_app, cut_at by done.
    change (quote =? 0) with false. cbn [mbind res_bind]. split.
    + do 3 f_equal; [by rewrite <- !app_assoc; cbn [app]; rewrite <- !app_assoc|].
      rewrite !length_app. cbn [length]. rewrite !length_app. cbn [length]. lia.
    + exists (pre ++ bl ++ [quote]), [0]. split; [|done].
      by rewrite <- !app_assoc; cbn [app]; rewrite <- !app_assoc.
Qed.

(** ** The loop *)

Lemma string_at_app buf i s b : string_at buf i s -> string_at (buf ++ b) i s.
Proof. intros (a&c&->&->). exists a, (c ++ b). by rewrite <- !app_assoc. Qed.

Lemma points_to_app buf b p w : points_to buf p w -> points_to (buf ++ b) p w.
Proof. intros (i&->&H). exists i. split; [done|]. by apply string_at_app. Qed.

(** The turns over the words. *)
Lemma parse_words l t argvlen :
  Forall item_ok l -> forall pre sp n argv rd,
  Forall blank sp -> (length argv + length l < argvlen)%nat ->
  exists pre' sp' args,
    parse_loop (length l + n) argvlen (mkParser (pre ++ sp ++ body l t) (length pre) argv rd) =
    parse_loop n argvlen (mkParser ((pre ++ pre') ++ sp' ++ tail_of t) (length (pre ++ pre')) (argv ++ args) rd) /\
    Forall blank sp' /\ Forall2 (points_to (pre ++ pre')) args (it_word <$> l).
Proof.
  induction 1 as [|[w c seps] l (Hw&Hc&Hseps) Hl IH]; intros pre sp n argv rd Hsp Hlen.
  - exists [], sp, []. rewrite !app_nil_r. by repeat split.
  - cbn [it_word it_sep it_seps] in *. cbn [length plus parse_loop body it_word it_sep it_seps].
    destruct (render_head w Hw) as (h&r&Hr&Hh&Hhs&Hgt&_).
    assert (Hturn : parse_turn argvlen (mkParser (pre ++ sp ++ render w ++ c :: seps ++ body l t) (length pre) argv rd) =
      let pre' := (pre ++ sp) ++ mark w ++ text w ++ [0] in
      Ok (inl (mkParser (pre' ++ rest_of w c (seps ++ body l t)) (length pre')
            (argv ++ [Some (length ((pre ++ sp) ++ mark w))]) rd))).
    { unfold parse_turn. cbn [ps_buf ps_pos ps_argv ps_redir]. rewrite Hr at 1. cbn [app].
      rewrite skipspace_at by (done || by right). cbn [mbind res_bind]. rewrite (app_assoc pre sp).
      rewrite Hr at 1. cbn [app]. rewrite peek_at_pos by (by rewrite length_app). cbn [mbind res_bind].
      rewrite (proj2 (Z.eqb_neq h 0)), (proj2 (Z.eqb_neq h gt)) by done.
      change ((pre ++ sp) ++ render w ++ c :: seps ++ body l t)
        with ((pre ++ sp) ++ [] ++ render w ++ c :: seps ++ body l t).
      rewrite parg_word by (done || by rewrite length_app). cbn [mbind res_bind app ps_argv].
      rewrite (proj2 (Nat.leb_gt _ _)); [done|]. rewrite length_app. cbn in *. lia. }
    rewrite Hturn. cbn [mbind res_bind]. cbv zeta.
    set (pre1 := (pre ++ sp) ++ mark w ++ text w ++ [0]). set (i := length ((pre ++ sp) ++ mark w)).
    assert (Hrest : exists sp1, Forall blank sp1 /\ rest_of w c (seps ++ body l t) = sp1 ++ body l t).
    { destruct w; [by exists seps|]. exists (c :: seps). by split; [constructor|]. }
    destruct Hrest as (sp1&Hsp1&->).
    destruct (IH pre1 sp1 n (argv ++ [Some i]) rd Hsp1) as (pre'&sp'&args&E&Hsp'&Hargs);
      [rewrite length_app; cbn in *; lia|].
    exists (sp ++ mark w ++ text w ++ [0] ++ pre'), sp', (Some i :: args).
    assert (Hpre : pre ++ sp ++ mark w ++ text w ++ [0] ++ pre' = pre1 ++ pre')
      by (unfold pre1; by rewrite <- !app_assoc).
    rewrite E, Hpre, <- !app_assoc. cbn [app]. split; [done|]. split; [done|]. constructor; [|done].
    exists i. split; [done|]. apply string_at_app. exists ((pre ++ sp) ++ mark w), [].
    split; [|done]. unfold pre1. by rewrite <- !app_assoc.
Qed.

Definition marks (two : bool) : list Z := gt :: (if two then [gt] else []).

(** The byte behind the first [>]. *)
Lemma peek_marks pre two rest c :
  head rest = Some c -> c <> gt ->
  exists d, peek (pre ++ marks two ++ rest) (Z.of_nat (S (length pre))) = Ok d /\ (d =? gt) = two.
Proof.
  intros Hc Hne. destruct rest as [|c' rest]; [done|]. injection Hc as ->.
  assert (Hn : S (length pre) = length (pre ++ [gt])) by (rewrite length_app; cbn; lia).
  rewrite Hn. unfold marks. destruct two; cbn [app].
  - exists gt. split; [|done]. 
    pose proof (peek_at_pos (pre ++ [gt]) gt (c :: rest) _ eq_refl) as H. by rewrite <- app_assoc in H.
  - exists c. split; [|by apply Z.eqb_neq].
    pose proof (peek_at_pos (pre ++ [gt]) c rest _ eq_refl) as H. by rewrite <- app_assoc in H.
Qed.

(** The argument of a redirection, with or without blanks behind it. *)
Lemma parg_target pre bl w e n :
  n = length pre -> Forall blank bl -> word_ok w -> Forall blank e ->
  exists held e' i, parg (pre ++ bl ++ render w ++ e ++ [0]) n =
    Ok ((pre ++ held) ++ e' ++ [0], length (pre ++ held), Some i) /\ Forall blank e' /\
    string_at ((pre ++ held) ++ e' ++ [0]) i (text w).
Proof.
  intros Hn Hbl Hw He. destruct e as [|c e].
  - destruct (parg_last pre bl w n Hn Hbl Hw) as (held&i&E&Hs). by exists held, [], i.
  - apply Forall_cons in He as [Hc He]. cbn [app].
    assert (exists e', Forall blank e' /\ rest_of w c (e ++ [0]) = e' ++ [0]) as (e'&He'&Hrest).
    { destruct w; [by exists e|]. exists (c :: e). by split; [constructor|]. }
    exists (bl ++ mark w ++ text w ++ [0]), e', (length (pre ++ bl ++ mark w)).
    rewrite (parg_word pre bl w c (e ++ [0]) n Hn Hbl Hw Hc). cbv zeta. rewrite Hrest. split; [done|]. split; [done|].
    exists (pre ++ bl ++ mark w), (e' ++ [0]). split; [|done]. by rewrite <- !app_assoc.
Qed.

(** The turn over a redirection. *)
Lemma parse_redirect argvlen pre sp two bl w e argv :
  Forall blank sp -> Forall blank bl -> word_ok w -> Forall blank e ->
  exists held e' i, string_at ((pre ++ held) ++ e' ++ [0]) i (text w) /\ Forall blank e' /\
  parse_turn argvlen (mkParser (pre ++ sp ++ marks two ++ bl ++ render w ++ e ++ [0]) (length pre) argv (mkRedir None false)) =
  Ok (inl (mkParser ((pre ++ held) ++ e' ++ [0]) (length (pre ++ held)) argv (mkRedir (Some i) two))).
Proof.
  intros Hsp Hbl Hw He.
  destruct (parg_target ((pre ++ sp) ++ marks two) bl w e _ eq_refl Hbl Hw He) as (held&e'&i&Hparg&He'&Hs).
  exists (sp ++ marks two ++ held), e', i. rewrite (app_assoc pre), (app_assoc (pre ++ sp)). split; [done|]. split; [done|].
  assert (Hnext : exists c, head (bl ++ render w ++ e ++ [0]) = Some c /\ c <> gt).
  { destruct bl as [|b bl]; cbn.
    - destruct (render_head w Hw) as (h&l&->&_&_&?&_). by exists h.
    - exists b. split; [done|]. apply Forall_cons in Hbl as [[_ Hb] _]. by intros ->. }
  destruct Hnext as (c&Hc&Hne).
  destruct (peek_marks (pre ++ sp) two (bl ++ render w ++ e ++ [0]) c Hc Hne) as (d&Hd&Htwo).
  unfold parse_turn. cbn [ps_buf ps_pos ps_argv ps_redir rd_append orb].
  rewrite (skipspace_at pre sp gt ((if two then [gt] else []) ++ bl ++ render w ++ e ++ [0]))
    by (done || by right).
  cbn [mbind res_bind]. rewrite <- length_app, (app_assoc pre sp).
  assert (Hp : peek ((pre ++ sp) ++ marks two ++ bl ++ render w ++ e ++ [0]) (Z.of_nat (length (pre ++ sp))) = Ok gt)
    by (by apply (peek_at_pos (pre ++ sp) gt ((if two then [gt] else []) ++ bl ++ render w ++ e ++ [0]))).
  rewrite Hp.
  cbn [mbind res_bind]. change (gt =? 0) with false. change (gt =? gt) with true. cbv iota.
  rewrite Hd. cbn [mbind res_bind]. rewrite Htwo, (app_assoc (pre ++ sp)).
  assert (Hpos : (if two then S (S (length (pre ++ sp))) else S (length (pre ++ sp))) = length ((pre ++ sp) ++ marks two))
    by (rewrite (length_app _ (marks two)); unfold marks; destruct two; cbn; lia).
  by rewrite Hpos, Hparg.
Qed.

(** Blanks at the end of the line. *)
Lemma parse_blanks n argvlen pre sp argv rd : Forall blank sp ->
  parse_loop (S n) argvlen (mkParser (pre ++ sp ++ [0]) (length pre) argv rd) =
  Ok (mkParser (pre ++ sp ++ [0]) (length (pre ++ sp)) argv rd, Z.of_nat (length argv)).
Proof.
  intros Hsp. cbn [parse_loop]. unfold parse_turn. cbn [ps_buf ps_pos ps_argv ps_redir].
  rewrite (skipspace_at pre sp 0 []) by (done || by left). cbn [mbind res_bind]. rewrite <- length_app.
  by rewrite (app_assoc pre sp), (peek_at_pos (pre ++ sp) 0 [] _ eq_refl).
Qed.

(** The turns over a redirection, if there is one, and the end of the line. *)
Lemma parse_tail n argvlen pre sp argv t :
  Forall blank sp -> match t with Some t => target_ok t | None => True end ->
  exists p, parse_loop (S (S n)) argvlen (mkParser (pre ++ sp ++ tail_of t) (length pre) argv (mkRedir None false)) =
    Ok (p, Z.of_nat (length argv)) /\ ps_argv p = argv /\
    (exists post, ps_buf p = pre ++ post) /\
    match t with
    | None => ps_redir p = mkRedir None false
    | Some t => rd_append (ps_redir p) = tg_append t /\
                points_to (ps_buf p) (rd_stdout (ps_redir p)) (tg_word t)
    end.
Proof.
  intros Hsp Ht. destruct t as [[two bl w e]|].
  - destruct Ht as (Hbl&Hw&He).
    destruct (parse_redirect argvlen pre sp two bl w e argv Hsp Hbl Hw He) as (held&e'&i&Hs&He'&Hturn).
    change (tail_of _) with (marks two ++ bl ++ render w ++ e ++ [0]).
    exists (mkParser ((pre ++ held) ++ e' ++ [0]) (length ((pre ++ held) ++ e')) argv (mkRedir (Some i) two)).
    set (m := S n). cbn [parse_loop]. rewrite Hturn. cbn [mbind res_bind]. unfold m. rewrite parse_blanks by done.
    split; [done|]. cbn. split; [done|]. split; [|by split; [|exists i]].
    exists (held ++ e' ++ [0]). by rewrite <- !app_assoc.
  - exists (mkParser (pre ++ sp ++ [0]) (length (pre ++ sp)) argv (mkRedir None false)).
    cbn [tail_of]. rewrite parse_blanks by done. split; [done|]. split; [done|]. split; [|done]. by exists (sp ++ [0]).
Qed.

(** What is read of a line. *)
Lemma parse_line lead l t argvlen :
  Forall blank lead -> Forall item_ok l -> match t with Some t => target_ok t | None => True end ->
  (length l < argvlen)%nat ->
  exists p, parse (lead ++ body l t) argvlen = Ok (p, Z.of_nat (length l)) /\
    Forall2 (points_to (ps_buf p)) (ps_argv p) (it_word <$> l) /\
    match t with
    | None => ps_redir p = mkRedir None false
    | Some t => rd_append (ps_redir p) = tg_append t /\
                points_to (ps_buf p) (rd_stdout (ps_redir p)) (tg_word t)
    end.
Proof.
  intros Hlead Hl Ht Hlen.
  assert (Hn : exists n, S (length (lead ++ body l t)) = (length l + S (S n))%nat).
  { exists (S (length (lead ++ body l t)) - length l - 2)%nat. rewrite length_app.
    pose proof (body_long l t). lia. }
  destruct Hn as [n Hn]. unfold parse. rewrite (proj2 (Nat.eqb_neq argvlen 0)), Hn by lia.
  destruct (parse_words l t argvlen Hl [] lead (S (S n)) [] (mkRedir None false) Hlead)
    as (pre&sp&args&E&Hsp&Hargs); [cbn; lia|].
  cbn [app length] in *. unfold parser0. rewrite E.
  destruct (parse_tail n argvlen pre sp args t Hsp Ht) as (p&->&Hargv&[post Hbuf]&Hrd).
  exists p. split; [|split; [|done]].
  - apply Forall2_length in Hargs. rewrite length_fmap in Hargs. by rewrite Hargs.
  - rewrite Hargv, Hbuf. eapply Forall2_impl; [exact Hargs|]. intros a w. apply points_to_app.
Qed.

(** C33: [parse] reads back a command line.  A line of words, bare or in double
    quotes, each followed by blanks, with blanks in front and perhaps a
    redirection at the end, is cut into exactly these words in their order; the
    pointers it gives out lead to strings in the line that are terminated and are
    the words' texts, and the redirection has its file and its mode.  Fewer words
    than the array has entries never fail. *)
Theorem parse_reads_words lead l t argvlen :
  Forall blank lead -> Forall item_ok l -> match t with Some t => target_ok t | None => True end ->
  (length l < argvlen)%nat ->
  exists p, parse (lead ++ body l t) argvlen = Ok (p, Z.of_nat (length l)) /\
    Forall2 (points_to (ps_buf p)) (ps_argv p) (it_word <$> l) /\
    match t with
    | None => ps_redir p = mkRedir None false
    | Some t => rd_append (ps_redir p) = tg_append t /\
                points_to (ps_buf p) (rd_stdout (ps_redir p)) (tg_word t)
    end.
Proof. apply parse_line. Qed.

(** [echo "a b" c >> f], with a leading blank and a newline. *)
Definition some_items : list item :=
  [mkItem (Bare [101; 99; 104; 111]) 32 []; mkItem (Quoted [97; 32; 98]) 32 [9]; mkItem (Bare [99]) 32 []].
Definition some_target : target := mkTarget true [32] (Bare [102]) [10].

Lemma parse_reads_words_witness :
  exists p, parse ([32] ++ body some_items (Some some_target)) 16 = Ok (p, 3) /\
    Forall2 (points_to (ps_buf p)) (ps_argv p) (it_word <$> some_items) /\
    rd_append (ps_redir p) = true /\ points_to (ps_buf p) (rd_stdout (ps_redir p)) (Bare [102]).
Proof.
  destruct (parse_reads_words [32] some_items (Some some_target) 16) as (p&E&Hargv&Ha&Hs).
  - by repeat constructor.
  - repeat (apply Forall_cons_2; [|by apply Forall_nil_2] || apply Forall_cons_2);
      unfold item_ok, word_ok, blank, plain; cbn [it_word it_sep it_seps];
      repeat split; (apply (bool_decide_unpack _); by vm_compute) || done.
  - unfold target_ok, word_ok, blank, plain; cbn [tg_blanks tg_word tg_end].
    repeat split; (apply (bool_decide_unpack _); by vm_compute) || done.
  - cbn. lia.
  - exists p. by rewrite E.
Defined.

(** ** What goes wrong

    An argument is ended by writing over the byte behind it, also if that is the
    [>] of a redirection: in [a>b] it is lost, and [b] becomes an argument. *)
Lemma redirect_without_blank_lost :
  exists p, parse [97; gt; 98; 0] 16 = Ok (p, 2) /\ rd_stdout (ps_redir p) = None.
Proof. eexists. by vm_compute. Qed.

(** A comment after a blank counts as an argument, which is null: the command
    [shadow #] has two, and [strlen] is called with the second. *)
Lemma comment_is_null_argument :
  exists p, parse [97; 32; hash; 98; 0] 16 = Ok (p, 2) /\ ps_argv p = [Some 0%nat; None].
Proof. eexists. by vm_compute. Qed.
