(* ===== verification/Commands.v ===== *)
(** * Commands

    How the shell runs a line ([src/src/cmd/shell/shell.c]): its own commands, the
    built-in ones, and programs that are loaded from a file ([execve] of
    [unistd/unistd.c], [elf_execf] of [elfload.c]), with the output sent to a file
    if the line says so.  The shell waits for what it has started ([waitpid] of
    [syswait.c]).

    A process that is forked and waited for is run to its end before its parent
    goes on; one that is forked to serve a file system goes on beside it, and is
    handed to the kernel as a value that says what it runs. *)

From Stdlib Require Import String Ascii.
From S2P Require Import Shell.
From S2P Require Import Prelude Monad Mem Printf CString NetUtil KState Stdio StdioSpec Builtins.

Local Open Scope list_scope.

(** Where the output of a command goes. *)
Record redirection := mkRedirection { rd_to : option (list Z); rd_appends : bool }.

(** What a process runs that serves a file system. *)
Inductive server :=
| ServeDirinject (path : list Z)                     (* [fs_dirinject] *)
| ServeWhitelist (paths : list (list Z))             (* [fs_whitelist] *)
| ServeCommand (argv : list (list Z)) (redir : option redirection).

(** What the shell uses of the kernel beyond files, and of the library's working
    directory. *)
Class Procs (K : Type) := {
  sys_fork : K -> Z * K * K;                 (* the parent's result and kernel, the child's kernel *)
  sys_fork_fs : server -> K -> Z * Z * K;    (* FORK_NEWFS: the parent's result, the handle of the file system *)
  sys_wait2 : Z -> Z -> K -> K -> Z * K;     (* pid; the child's exit code and kernel at its end; the parent's *)
  sys_mount : Z -> list Z -> K -> K;
  sys_getprocfs : K -> Z * K;
  sys_getpid : K -> Z * K;
  sys_getppid : K -> Z * K;
  elf_exec : list Z -> list (list Z) -> K -> option (Z * K);  (* what the program does until it exits; [None]: it cannot be loaded *)
  libc_chdir : list Z -> K -> Z * K;         (* 0, or the error *)
  libc_getcwd : Z -> K -> option (list Z) * K;
  rdtsc : K -> Z * K;
  getopt : list (list Z) -> list Z -> list (Z * list Z) * list (list Z);  (* the options with their arguments; the rest *)
}.

Section commands.
Context {K : Type} `{Sys K, Sys2 K, Procs K}.
(** [getprogname()], and a bound on the loops that run until the end of a file. *)
Context (progname : list Z) (fuel : nat).

Local Abbreviation L := (ST (stdio K) Empty_set).
Local Abbreviation P := (ST (stdio K) Z).

(** ** Loading programs *)

Definition elf_execf (f : positive) (argv : list (list Z)) : P () :=
  _ ← lib (fseek f 0 SEEK_END);
  buflen ← lib (ftello f);
  if buflen <? 0 then mret ()
  else
    buf ← lib (call malloc_ok);
    _ ← lib (fseek f 0 SEEK_SET);
    if negb buf then mret ()
    else
      '(data, ret) ← lib (fread buflen 1 f);
      _ ← lib (fclose f);
      if ret =? 1 then
        s ← get_;
        match elf_exec data argv (kern s) with
        | Some (code, k) => put_ (s <| kern := k |>);; exit_ code
        | None => mret ()
        end
      else mret ().

Definition ELF : list Z := [0x7f; 69; 76; 70].

(** [n] bounds the number of interpreters in a row. *)
Fixpoint execve (n : nat) (path : list Z) (argv : list (list Z)) : P Z :=
  match n with
  | O => fail OutOfFuel
  | S n =>
      file ← lib (fopen (Some path) (lit "e"));
      match file with
      | None => mret (-1)
      | Some file =>
          '(data, _) ← lib (fread 1 4 file);
          let hdr := data ++ drop (List.length data) (replicate 4 0) in
          _ ← lib (fseek file 0 SEEK_SET);
          (if bool_decide (take 4 hdr = ELF) then
             elf_execf file argv;;
             _ ← lib (fclose file); mret ()            (* which [elf_execf] may have done *)
           else if bool_decide (take 2 hdr = [35; 33]) then
             _ ← lib (fseek file 2 SEEK_SET);
             buf ← lib (fgets 256 file);
             match buf with
             | None => mret ()
             | Some buf =>
                 let text := before_nul buf in
                 let buf := default text ((fun i => take i.1 text) <$> list_find (fun c => c = 10) text) ++ [0] in
                 _ ← execve n buf [buf; path]; mret ()
             end
           else mret ());;
          lib (set_errno EINVAL);;
          mret (-1)
      end
  end.

Definition execv (path : list Z) (argv : list (list Z)) : P Z := execve fuel path argv.
Definition execvp (path : list Z) (argv : list (list Z)) : P Z := execve fuel path argv.

(** [malloc] is not checked. *)
Definition execvpe (path : list Z) (argv : list (list Z)) : P Z :=
  c ← lib (lift (peek path 0));
  if c =? 47 then execve fuel path argv
  else
    _ ← lib (lift (strlen path));
    ok ← lib (call malloc_ok);
    if negb ok then lib (fail Undefined) else execve fuel (before_nul (lit "/bin/") ++ path) argv.

(** [execp] *)
Definition starts (s prefix : list Z) : P bool :=
  n ← lib (lift (strncmp s prefix (List.length prefix - 1))); mret (n =? 0).

Definition execp (argv : list (list Z)) : P () :=
  match argv with
  | [] => mret ()
  | a :: _ =>
      p1 ← starts a (lit "/");
      p2 ← (if (p1 : bool) then mret true else starts a (lit "./"));
      p3 ← (if (p2 : bool) then mret true else starts a (lit "../"));
      if (p3 : bool) then _ ← execv a argv; mret ()
      else
        _ ← lib (lift (strlen a));
        ok ← lib (call malloc_ok);
        if negb ok then err progname 1 (lit "malloc") []
        else _ ← execv (before_nul (lit "/bin/") ++ a) argv; mret ()
  end.

(** ** Processes *)

(** [waitpid(pid, NULL, 0)] for a process that has ended. *)
Definition waitpid (pid code : Z) (kc : K) : P Z :=
  ret ← lib (call (sys_wait2 pid code kc));
  if ret <? 0 then lib (set_errno (- ret));; mret (-1) else mret ret.

(** [fork], the child's part, and the wait for it.  What is undefined in the child
    is so here. *)
Definition fork_wait (child : P Empty_set) : P () := fun s =>
  let '(pid, kp, kc) := sys_fork (kern s) in
  let s1 := s <| kern := kp |> in
  if pid <? 0 then warn progname (lit "fork") [] s1
  else
    match child (s <| kern := kc |>) with
    | Val e _ => match e with end
    | Exit code s' => (_ ← waitpid pid code (kern s'); mret ()) s1
    | Fault x => Fault x
    end.

(** [mount_at], in the parent; the child runs [sv]. *)
Definition mount_at (sv : server) (path : list Z) : P Z :=
  '(ret, h) ← lib (call (fun k => let '(ret, h, k) := sys_fork_fs sv k in ((ret, h), k)));
  (if 0 <? ret then
     lib (modify (set kern (sys_mount h path)));; lib (close_ h)
   else lib (modify (set kern (sys_mount HANDLE_NULLFS path))));;
  mret ret.

Definition camellia_procfs (path : list Z) : P Z :=
  hid ← lib (call sys_getprocfs);
  if hid <? 0 then lib (set_errno (- hid));; mret (-1)
  else
    lib (modify (set kern (sys_mount hid path)));;
    lib (close_ hid);;
    mret 0.

(** ** The built-in commands with options *)

(** [canonical], [readlen], [pos], [raw] *)
Record hexopts := mkHexopts { x_canonical : bool; x_readlen : Z; x_pos : Z; x_raw : bool }.

#[export] Instance hexopts_settable : Settable hexopts := fun o =>
  mkHexopts (x_canonical o) (x_readlen o) (x_pos o) (x_raw o).

(** [None]: an option that is not known ends the command. *)
Fixpoint hex_options (l : list (Z * list Z)) (o : hexopts) : res (option hexopts) :=
  match l with
  | [] => Ok (Some o)
  | (c, arg) :: l =>
      if c =? 67 then hex_options l (o <| x_canonical := true |>)
      else if c =? 110 then '(n, _) ← strtol arg 0; hex_options l (o <| x_readlen := u64 n |>)
      else if c =? 115 then '(n, _) ← strtol arg 0; hex_options l (o <| x_pos := u64 n |>)
      else if c =? 114 then hex_options l (o <| x_raw := true |>)
      else Ok None
  end.

(** [buf] is what fresh memory holds. *)
Definition cmd_hexdump (buf : list Z) (argv : list (list Z)) : P () :=
  let argv := default_argv argv (lit "!stdin") in
  ok ← lib (call malloc_ok);
  a ← lib (deref (head argv));
  hd ← lib (lift (strcmp a (lit "hd")));
  let '(opts, rest) := getopt argv (lit "Cn:s:r") in
  o ← lib (lift (hex_options opts (mkHexopts (hd =? 0) (u64 (-1)) 0 false)));
  match o with
  | None => mret ()
  | Some o =>
      let readlen := if x_readlen o =? u64 (-1) then u64 (-1) else u64 (x_readlen o + x_pos o) in
      (* without memory the model stops before the first file *)
      if negb ok && negb (bool_decide (rest = [])) then lib (fail Undefined)
      else lib (hex_files progname fuel (x_canonical o) (x_raw o) readlen (x_pos o) buf rest)
  end.

Definition cmd_whitelist (run_args : list (list Z) -> option redirection -> P ()) (argv : list (list Z)) : P () :=
  let dashes := list_find (fun a => before_nul a = [45; 45]) (drop 1 argv) in
  let split := from_option (fun i => S i.1) (List.length argv) dashes in
  _ ← mount_at (ServeWhitelist (drop 1 (take split argv))) (lit "/");
  if is_some dashes then run_args (drop (S split) argv) None
  else run_args [lit "shell"] None.

(** ** The shell's own commands *)

Definition is_cmd (a : list Z) (s : string) : P bool :=
  n ← lib (lift (strcmp a (lit s))); mret (n =? 0).

(** The first name of the table of built-in commands that is the command's. *)
Fixpoint find_builtin (a : list Z) (l : list (string * (list (list Z) -> P ()))) :
    P (option (list (list Z) -> P ())) :=
  match l with
  | [] => mret None
  | (s, f) :: l => e ← is_cmd a s; if (e : bool) then mret (Some f) else find_builtin a l
  end.

Definition redirect (r : option redirection) : P () :=
  match r ≫= rd_to with
  | None => mret ()
  | Some to =>
      f ← lib (fopen (Some to) (if from_option rd_appends false r then lit "a" else lit "w"));
      match f with
      | None => err progname 1 (lit "couldn't open %s for redirection") [va_str to]
      | Some f =>
          h ← lib (fileno f);
          r ← lib (call (sys_dup h 1 0));
          if r <? 0 then errx progname 1 (lit "dup() failed when redirecting") [] else mret ()
      end
  end.

(** The child: its output, and what it runs. *)
Definition child (builtins : list (string * (list (list Z) -> P ()))) (a : list Z) (argv : list (list Z))
    (r : option redirection) : P Empty_set :=
  redirect r;;
  b ← find_builtin a builtins;
  match b with
  | Some f => f argv;; exit_ 0
  | None =>
      execp argv;;
      e ← lib get_errno;
      if e =? EINVAL then errx progname 1 (lit "%s isn't a valid executable") [va_str a]
      else errx progname 1 (lit "unknown command: %s") [va_str a]
  end.
End commands.

Section shell.
Context {K : Type} `{Sys K, Sys2 K, Procs K}.
(** The bound on loops, and what fresh memory holds. *)
Context (fuel : nat) (junk : list Z).

Local Abbreviation L := (ST (stdio K) Empty_set).
Local Abbreviation P := (ST (stdio K) Z).

(** [builtins]; the name that their messages begin with is the command's. *)
Definition builtins (run_args : list (list Z) -> option redirection -> P ()) (name : list Z) :
    list (string * (list (list Z) -> P ())) :=
  [("cat", fun argv => lib (cmd_cat fuel argv)); ("echo", fun argv => lib (cmd_echo argv));
   ("getsize", cmd_getsize name); ("hd", cmd_hexdump name fuel junk); ("hexdump", cmd_hexdump name fuel junk);
   ("ls", fun argv => lib (cmd_ls name fuel argv)); ("mkdir", cmd_mkdir name); ("rm", cmd_rm name);
   ("sleep", cmd_sleep name); ("touch", cmd_touch name); ("whitelist", cmd_whitelist run_args)]%string.

Definition tab : list Z := [9].

(** [n] bounds the commands that run another one; [progname] is [getprogname()]. *)
Fixpoint run_args (n : nat) (progname : list Z) (argv : list (list Z)) (redir : option redirection) : P () :=
  match n, argv with
  | O, _ => fail OutOfFuel
  | _, [] => mret ()
  | S n, a :: rest =>
      mount ← is_cmd a "mount";
      if (mount : bool) then
        match rest with
        | dir :: (_ :: _) as cmd =>
            _ ← mount_at (ServeDirinject dir) (lit "/");
            _ ← mount_at (ServeCommand (drop 1 cmd) redir) dir;
            mret ()
        | _ => lib (eprintf (lit "mount: not enough arguments\n") [])
        end
      else
        shadow ← is_cmd a "shadow";
        if (shadow : bool) then
          match rest with
          | [] => lib (eprintf (lit "shadow: missing path\n") [])
          | path :: _ => lib (modify (set kern (sys_mount HANDLE_NULLFS path)))
          end;;
          (* no return here *)
          fork_wait progname (child progname fuel (builtins (run_args n a) a) a argv redir)
        else
          procmnt ← is_cmd a "procmnt";
          if (procmnt : bool) then
            match rest with
            | [] => lib (eprintf (lit "procmnt: missing mountpoint\n") [])
            | path :: _ => _ ← camellia_procfs path; mret ()
            end
          else
            cd ← is_cmd a "cd";
            if (cd : bool) then
              e ← lib (call (libc_chdir (default (lit "/") (head rest))));
              if e =? 0 then mret () else lib (set_errno e);; lib (perror (Some (lit "cd")))
            else
              time ← is_cmd a "time";
              if (time : bool) then
                t ← lib (call rdtsc);
                run_args n progname rest redir;;
                t' ← lib (call rdtsc);
                lib (printf (lit "%lu ns (assuming 3GHz)\n") [VInt (u64 (t' - t) / 3000)])
              else
                exit ← is_cmd a "exit";
                if (exit : bool) then exit_ 0
                else
                  getpid ← is_cmd a "getpid";
                  if (getpid : bool) then
                    my ← lib (call sys_getpid);
                    parent ← lib (call sys_getppid);
                    lib (printf (before_nul (lit "my") ++ tab ++ before_nul (lit "%d\nparent") ++ tab ++ lit "%d\n")
                      [VInt my; VInt parent])
                  else fork_wait progname (child progname fuel (builtins (run_args n a) a) a argv redir)
  end.

(** What a process runs that a [mount] has started. *)
Definition serve_command (n : nat) (progname : list Z) (argv : list (list Z)) (redir : option redirection) : P () :=
  run_args n progname argv redir;; exit_ 1.

(** The string at a position of the line. *)
Definition c_string (buf : list Z) (i : nat) : list Z := before_nul (drop i buf) ++ [0].

(** Null pointers among the arguments (those of comments) are followed by nobody
    who could be asked: the model stops there. *)
Fixpoint strings (buf : list Z) (l : list (option nat)) : L (list (list Z)) :=
  match l with
  | [] => mret []
  | a :: l => i ← deref a; r ← strings buf l; mret (c_string buf i :: r)
  end.

(** A line of at most 255 bytes has fewer words than [fuel]. *)
Definition run (progname cmd : list Z) : P () :=
  '(p, argc) ← lib (lift (parse cmd 16));
  if argc <? 0 then warn progname (lit "parsing error") []
  else
    match ps_argv p with
    | [] | None :: _ => mret ()
    | l =>
        argv ← lib (strings (ps_buf p) l);
        run_args (S (S (List.length argv))) progname argv
          (Some (mkRedirection (c_string (ps_buf p) <$> rd_stdout (ps_redir p)) (rd_append (ps_redir p))))
    end.

(** One turn of [main]'s loop; [inr] is the end of the input. *)
Definition shell_turn (progname : list Z) (f : positive) (_ : ()) : P (() + Z) :=
  (if bool_decide (f = stdin) then
     cwd ← lib (call (libc_getcwd 256));
     lib (printf (lit "%s $ ") [from_option va_str VNull cwd])
   else mret ());;
  line ← lib (fgets 256 f);
  match line with
  | None => mret (inr 0)
  | Some line => run progname line;; mret (inl ())
  end.

Definition shell_main (progname : list Z) (argv : list (list Z)) : P Z :=
  match argv !! 1%nat with
  | None => iter fuel (shell_turn progname stdin) ()
  | Some path =>
      f ← lib (fopen (Some path) (lit "r"));
      match f with
      | None => err progname 1 (lit "couldn't open %s") [va_str path]
      | Some f => iter fuel (shell_turn progname f) ()
      end
  end.
End shell.

(** ** Kernels with processes

    [text] are the files, [screen] what was sent to the terminal, [open_at] the
    handles of the process that are files, and [sink] the file behind its handle 1,
    if that is not the terminal. *)

Section processes.
Context {K : Type} `{Sys K, Sys2 K, Procs K}.
Context (text : K -> gmap (list Z) (list Z)) (screen : K -> list Z).
Context (open_at : K -> gmap Z (list Z)) (sink : K -> option (list Z)).

(** What the process prints goes to its sink, whose contents it does not see as a
    file.  What it cannot change at all is put under names that no file has. *)
Definition output (k : K) : list Z :=
  match sink k with Some q => default [] (text k !! q) | None => screen k end.

Definition visible (k : K) : gmap (list Z) (list Z) :=
  match sink k with
  | Some q => <[[0] := screen k]> (<[[0; 0] := 1 :: q]> (delete q (text k)))
  | None => <[[0; 0] := []]> (text k)
  end.

Definition same (k k' : K) : Prop :=
  text k' = text k /\ screen k' = screen k /\ open_at k' = open_at k /\ sink k' = sink k.

(** A process that was forked is a copy; who waits for it sees the files and the
    terminal as it has left them, and keeps its own handles. *)
Record processes : Prop := {
  pr_console : console visible open_at output;
  pr_names : forall k p, is_Some (text k !! p) -> 0 ∉ p;
  pr_sink : forall k q, sink k = Some q -> is_Some (text k !! q);
  pr_fork : forall k, exists pid kp kc, sys_fork k = (pid, kp, kc) /\ 0 < pid /\ same k kp /\ same k kc;
  pr_wait : forall pid code kc kp, 0 < pid -> sink kp = None ->
    exists ret k', sys_wait2 pid code kc kp = (ret, k') /\ 0 <= ret /\
    text k' = text kc /\ screen k' = screen kc /\ open_at k' = open_at kp /\ sink k' = None;
  pr_create : forall k q rest, 0 ∉ q -> sink k = None ->
    exists h k', camellia_open (q ++ 0 :: rest) (Z.lor OPEN_WRITE OPEN_CREATE) k = (h, k') /\ 2 < h /\
      open_at k !! h = None /\ open_at k' = <[h := q]> (open_at k) /\ sink k' = None /\
      text k' = <[q := default [] (text k !! q)]> (text k) /\ screen k' = screen k;
  pr_truncate : forall k h q, open_at k !! h = Some q -> sink k = None ->
    exists r k', sys_write h [] 0 WRITE_TRUNCATE k = (r, k') /\ open_at k' = open_at k /\ sink k' = None /\
      text k' = <[q := []]> (text k) /\ screen k' = screen k;
  pr_dup : forall k h q, open_at k !! h = Some q -> is_Some (text k !! q) -> sink k = None ->
    exists r k', sys_dup h 1 0 k = (r, k') /\ 0 <= r /\ open_at k' = open_at k /\ sink k' = Some q /\
      text k' = text k /\ screen k' = screen k;
}.

Context (Hpr : processes).
Local Abbreviation L := (ST (stdio K) Empty_set).
Local Abbreviation P := (ST (stdio K) Z).

Lemma no_name k p : 0 ∈ p -> text k !! p = None.
Proof. intros Hp. apply eq_None_not_Some. intros Hs. by apply (pr_names Hpr k p). Qed.

Lemma visible_sink k : visible k !! [0; 0] = Some (from_option (cons 1) [] (sink k)).
Proof. unfold visible. destruct (sink k); [rewrite lookup_insert_ne by done|]; by rewrite lookup_insert_eq. Qed.

(** What is left of a change that a process does not see. *)
Lemma visible_same k k' : visible k' = visible k -> sink k' = sink k /\
  match sink k with
  | Some q => screen k' = screen k /\ delete q (text k') = delete q (text k)
  | None => text k' = text k
  end.
Proof.
  intros E. pose proof (visible_sink k') as E1. rewrite E, visible_sink in E1.
  assert (sink k' = sink k) as Es by (destruct (sink k), (sink k'); cbn in E1; congruence).
  split; [done|]. unfold visible in E. rewrite Es in E. destruct (sink k) as [q|].
  - assert (screen k' = screen k) as Hs.
    { apply (f_equal (lookup [0])) in E. rewrite !lookup_insert_eq in E. by injection E. }
    split; [done|]. apply map_eq. intros p. destruct (decide (p = q)) as [->|Hq]; [by rewrite !lookup_delete_eq|].
    rewrite !lookup_delete_ne by done. destruct (decide (0 ∈ p)) as [Hp|Hp]; [by rewrite !no_name|].
    apply (f_equal (lookup p)) in E. rewrite !lookup_insert_ne in E by (intros <-; apply Hp; left).
    by rewrite !lookup_delete_ne in E.
  - apply map_eq. intros p. destruct (decide (0 ∈ p)) as [Hp|Hp]; [by rewrite !no_name|].
    apply (f_equal (lookup p)) in E. by rewrite !lookup_insert_ne in E by (intros <-; apply Hp; left).
Qed.

Lemma unchanged_same k k' : sink k = None -> unchanged visible open_at output k k' -> same k k'.
Proof.
  intros Hs (Hv&Ho&Hout). destruct (visible_same _ _ Hv) as [Es Et]. rewrite Hs in Et.
  unfold output in Hout. rewrite Es, Hs in Hout. by split_and!.
Qed.

Lemma visible_file k p : (0 ∉ p) -> sink k <> Some p -> visible k !! p = text k !! p.
Proof.
  intros Hp Hne. unfold visible. destruct (sink k) as [q|].
  - rewrite !lookup_insert_ne by (intros <-; apply Hp; left). apply lookup_delete_ne. congruence.
  - apply lookup_insert_ne. intros <-; apply Hp; left.
Qed.

(** ** Opening the file that takes the output *)

(** What is in it at first. *)
Definition initial (appends : bool) (q : list Z) (k : K) : list Z :=
  if appends then default [] (text k !! q) else [].

Definition other_streams (s s' : stdio K) : Prop :=
  next_file s' = Pos.succ (next_file s) /\ forall f, f <> next_file s -> files s' !! f = files s !! f.

Lemma fopen_creates (appends : bool) q s :
  plain_name q -> sink (kern s) = None ->
  runs (fopen (Some (q ++ [0])) (if appends then lit "a" else lit "w")) s (fun r s' => r = Some (next_file s) /\
    (exists x, files s' !! next_file s = Some x /\ open_at (kern s') !! fd x = Some q) /\ other_streams s s' /\
    text (kern s') = <[q := initial appends q (kern s)]> (text (kern s)) /\
    screen (kern s') = screen (kern s) /\ sink (kern s') = None).
Proof.
  intros Hq Hs. destruct (peek_name q Hq) as (c&Hc&Hc33). unfold fopen.
  apply runs_bind. eapply runs_lift; [exact Hc|]. rewrite Hc33. apply runs_bind.
  eapply (runs_lift _ (Z.lor OPEN_WRITE OPEN_CREATE)); [by destruct appends|].
  destruct (pr_create Hpr (kern s) q [] (proj1 Hq) Hs) as (h&k1&Eo&Hh&_&Hop&Hs1&Ht1&Hsc1).
  apply runs_bind. eapply runs_open; [exact Eo|lia|]. rewrite (proj2 (Z.ltb_ge h 0)) by lia.
  apply runs_bind. eapply (runs_lift _ (if appends then 97 else 119)); [by destruct appends|].
  apply runs_bind.
  assert (open_at k1 !! h = Some q) as Ho1 by (by rewrite Hop, lookup_insert_eq).
  assert (exists k2, open_at k2 !! h = Some q /\ sink k2 = None /\ screen k2 = screen (kern s) /\
    text k2 = <[q := initial appends q (kern s)]> (text (kern s)) /\
    forall Q : () -> stdio K -> Prop, Q () (s <| kern := k2 |>) ->
    runs (E := Empty_set) (if (if appends then 97 else 119) =? 119 then _ ← call (sys_write h [] 0 WRITE_TRUNCATE); mret () else mret ())
      (s <| kern := k1 |>) Q) as (k2&Ho2&Hs2&Hsc2&Ht2&Htrunc).
  { destruct appends; cbn [Z.eqb Pos.eqb].
    - exists k1. split_and!; try done.
    - destruct (pr_truncate Hpr k1 h q Ho1 Hs1) as (r&k2&Ew&Ho2&Hs2&Ht2&Hsc2). exists k2.
      split_and!; try congruence; [by rewrite Ht2, Ht1, insert_insert_eq|]. intros Q HQ.
      apply runs_bind. eapply runs_call; [exact Ew|]. by fstep. }
  apply Htrunc. clear Htrunc.
  destruct (co_malloc _ _ _ (pr_console Hpr) k2) as (k3&Em3&U3%unchanged_same); [|done].
  unfold fdopen. do 2 fstep. eapply runs_call; [exact Em3|]. apply runs_bind.
  eapply (runs_lift _ (if appends then 97 else 119)); [by destruct appends|].
  apply runs_bind, runs_get. apply runs_bind, runs_put. fstep. cbn [is_some]. do 2 fstep.
  apply runs_bind, runs_deref. unfold setvbuf. cbn [Z.eqb Pos.eqb IOFBF IONBF andb].
  destruct U3 as (Ut3&Usc3&Uo3&Us3).
  destruct (co_malloc _ _ _ (pr_console Hpr) k3) as (k4&Em4&U4%unchanged_same); [|congruence].
  destruct U4 as (Ut4&Usc4&Uo4&Us4).
  do 2 fstep. eapply runs_call; [exact Em4|]. apply runs_bind. eapply runs_wr_file; [cbn; by rewrite lookup_insert_eq|].
  do 2 fstep. split; [done|]. cbn [kern files next_file]. split.
  { eexists. cbn. rewrite lookup_insert_eq. split; [done|]. cbn. congruence. }
  split. { split; [done|]. intros f Hf. cbn. by rewrite !lookup_insert_ne. }
  cbn. split_and!; congruence.
Qed.

Lemma ready_next s s' : ready s -> other_streams s s' -> ready s'.
Proof.
  intros ((x&Hx&Hfd)&Hn&Hfree) [En Hoth].
  assert (next_file s <> stdout) as Hne by (intros E0; rewrite E0 in Hn; unfold stdout in Hn; lia).
  split; [exists x; by rewrite Hoth|]. split; [lia|]. intros f Hf. rewrite Hoth by (intros ->; lia). apply Hfree. lia.
Qed.

Lemma runs_libm {A} (m : L A) s Q : runs m s Q -> runs (lib m) s Q.
Proof. unfold runs, lib. by destruct (m s). Qed.

(** The redirection of a line, if there is one. *)
Record aim := mkAim { a_appends : bool; a_file : list Z }.

Definition redirection_of (a : option aim) : option redirection :=
  Some (match a with
        | Some a => mkRedirection (Some (a_file a ++ [0])) (a_appends a)
        | None => mkRedirection None false
        end).

(** The files once the output is sent elsewhere. *)
Definition prepared (a : option aim) (k : K) : gmap (list Z) (list Z) :=
  match a with
  | Some a => <[a_file a := initial (a_appends a) (a_file a) k]> (text k)
  | None => text k
  end.

Lemma redirect_runs progname a s :
  ready s -> sink (kern s) = None -> match a with Some a => plain_name (a_file a) | None => True end ->
  runs (redirect progname (redirection_of a)) s (fun _ s' => ready s' /\
    text (kern s') = prepared a (kern s) /\ screen (kern s') = screen (kern s) /\ sink (kern s') = a_file <$> a).
Proof.
  intros Hr Hs Ha. destruct a as [[app q]|]; [|by apply runs_ret]. cbn [a_appends a_file redirection_of] in *.
  unfold redirect. cbn [mbind option_bind rd_to rd_appends from_option].
  apply runs_bind, runs_libm. eapply runs_mono; [by apply (fopen_creates app q s)|].
  intros r s1 (->&(x&Hx&Ho)&Hoth&Ht1&Hsc1&Hs1).
  apply runs_bind, runs_libm. unfold fileno. fstep. eapply runs_rd_file; [exact Hx|]. fstep.
  destruct (pr_dup Hpr (kern s1) (fd x) q Ho ltac:(rewrite Ht1, lookup_insert_eq; by eexists) Hs1) as (r&k2&Ed&Hr2&Ho2&Hs2&Ht2&Hsc2).
  apply runs_bind, runs_libm. eapply runs_call; [exact Ed|]. rewrite (proj2 (Z.ltb_ge r 0)) by lia.
  apply runs_ret. split; [by eapply ready_next|]. cbn. split_and!; congruence.
Qed.

(** The built-in command [cat] is found, and is no command of the shell's own. *)
Lemma finds_cat fuel junk ra s :
  find_builtin (K := K) (lit "cat") (builtins fuel junk ra (lit "cat")) s =
  Val (Some (fun argv => lib (cmd_cat fuel argv))) s.
Proof. reflexivity. Qed.

Lemma run_args_cat progname fuel junk n args r s :
  run_args fuel junk (S n) progname (lit "cat" :: args) r s =
  fork_wait progname (child progname fuel (builtins fuel junk (run_args fuel junk n (lit "cat")) (lit "cat"))
    (lit "cat") (lit "cat" :: args) r) s.
Proof. reflexivity. Qed.

(** A file that can be read in the child. *)
Definition readable_file (fuel : nat) (a : option aim) (k : K) (p t : list Z) : Prop :=
  text k !! p = Some t /\ plain_name p /\ Z.of_nat (List.length t) < 2 ^ 63 /\ (List.length t < fuel)%nat /\
  a_file <$> a <> Some p.

(** The output at its end. *)
Definition received (a : option aim) (d : list Z) (k k' : K) : Prop :=
  match a with
  | Some a => text k' = <[a_file a := initial (a_appends a) (a_file a) k ++ d]> (text k) /\ screen k' = screen k
  | None => text k' = text k /\ screen k' = screen k ++ d
  end.

Lemma child_copies progname fuel junk ra a paths texts s :
  ready s -> sink (kern s) = None -> match a with Some a => plain_name (a_file a) | None => True end ->
  paths <> [] -> Forall2 (readable_file fuel a (kern s)) paths texts ->
  exists s', child progname fuel (builtins fuel junk ra (lit "cat")) (lit "cat")
      (lit "cat" :: ((fun p => p ++ [0]) <$> paths)) (redirection_of a) s = Exit 0 s' /\
    received a (concat texts) (kern s) (kern s').
Proof.
  intros Hr Hs Ha Hne Hall.
  destruct (runs_inv _ _ _ (redirect_runs progname a s Hr Hs Ha)) as ([]&s1&E1&Hr1&Ht1&Hsc1&Hs1).
  destruct (cat_copies visible open_at output fuel (lit "cat") paths texts s1 (pr_console Hpr) Hr1 Hne)
    as (s2&E2&Hout&_&Hvis&_).
  { eapply Forall2_impl; [exact Hall|]. intros p t (Hp&Hn&Hl&Hf&Hq). split_and!; try done.
    rewrite visible_file; [|by apply Hn|by rewrite Hs1]. rewrite Ht1. destruct a as [a|]; [|done].
    unfold prepared. rewrite lookup_insert_ne; [done|]. intros E0. apply Hq. by rewrite <- E0. }
  exists s2. unfold child. split.
  - erewrite after_val by exact E1. erewrite after_val by apply finds_cat. cbv beta iota.
    erewrite after_val by (unfold lib; rewrite E2; reflexivity). done.
  - destruct (visible_same _ _ Hvis) as [Es2 Hsame]. rewrite Hs1 in *. unfold output in Hout. rewrite Es2, Hs1 in Hout.
    clear E1 E2. destruct a as [[app q]|]; cbn in *.
    + destruct Hsame as [Hsc2 Hd]. split; [|congruence].
      destruct (pr_sink Hpr (kern s2) q Es2) as [t2 Hq2]. rewrite Hq2 in Hout. cbn in Hout.
      rewrite Ht1, lookup_insert_eq in Hout. cbn in Hout. rewrite <- Hout.
      apply map_eq. intros p. destruct (decide (p = q)) as [->|Hp]; [by rewrite lookup_insert_eq|].
      apply (f_equal (lookup p)) in Hd. rewrite !lookup_delete_ne in Hd by done.
      by rewrite Hd, Ht1, !lookup_insert_ne.
    + split; congruence.
Qed.

(** The parent goes on where it was, with what the child has done to the files and
    the terminal. *)
Definition resumed (s s' : stdio K) : Prop :=
  files s' = files s /\ next_file s' = next_file s /\ errno s' = errno s /\
  open_at (kern s') = open_at (kern s) /\ sink (kern s') = sink (kern s).

Lemma received_same a d k0 k1 k k' : same k0 k1 -> text k' = text k -> screen k' = screen k ->
  received a d k1 k -> received a d k0 k'.
Proof.
  intros (Ht&Hs&_) Et Es. unfold received, initial. destruct a; rewrite Et, Es, Ht, Hs; done.
Qed.

Lemma fork_copies progname fuel junk ra a paths texts s :
  ready s -> sink (kern s) = None -> match a with Some a => plain_name (a_file a) | None => True end ->
  paths <> [] -> Forall2 (readable_file fuel a (kern s)) paths texts ->
  runs (fork_wait progname (child progname fuel (builtins fuel junk ra (lit "cat")) (lit "cat")
      (lit "cat" :: ((fun p => p ++ [0]) <$> paths)) (redirection_of a))) s
    (fun _ s' => resumed s s' /\ received a (concat texts) (kern s) (kern s')).
Proof.
  intros Hr Hs Ha Hne Hall.
  destruct (pr_fork Hpr (kern s)) as (pid&kp&kc&Ef&Hpid&(P1&P2&P3&P4)&Hc). pose proof Hc as (C1&C2&C3&C4).
  destruct (child_copies progname fuel junk ra a paths texts (s <| kern := kc |>)) as (s2&E2&Hrec); try done.
  { cbn [kern set stdio_settable]. by rewrite C4. }
  { eapply Forall2_impl; [exact Hall|]. intros p t (Hp&?). split; [|done]. change (text kc !! p = Some t). by rewrite C1. }
  unfold runs, fork_wait. rewrite Ef. rewrite (proj2 (Z.ltb_ge pid 0)) by lia. rewrite E2.
  destruct (pr_wait Hpr pid 0 (kern s2) kp Hpid ltac:(congruence)) as (ret&k'&Ew&Hret&W1&W2&W3&W4).
  erewrite after_val.
  2: { unfold waitpid. erewrite after_val.
       2: { unfold lib, call. cbn [kern set stdio_settable]. rewrite Ew. reflexivity. }
       rewrite (proj2 (Z.ltb_ge ret 0)) by lia. reflexivity. }
  split.
  - split_and!; try done; cbn [kern set stdio_settable]; congruence.
  - eapply received_same; [exact Hc|..|exact Hrec]; done.
Qed.

(** ** Lines *)

Lemma word_no_nul w : word_ok w -> 0 ∉ Shell.text w.
Proof.
  intros Hw Hin. destruct w as [t|t]; cbn in *.
  - destruct Hw as [Ht _]. rewrite Forall_forall in Ht. by destruct (Ht 0 Hin) as [[? _] _].
  - rewrite Forall_forall in Hw. by destruct (Hw 0 Hin).
Qed.

Lemma word_string buf p w : word_ok w -> points_to buf p w ->
  exists i, p = Some i /\ c_string buf i = Shell.text w ++ [0].
Proof.
  intros Hw (i&->&(a&b&->&->)). exists (List.length a). split; [done|].
  unfold c_string. rewrite drop_app_length. by rewrite before_nul_app by (by apply word_no_nul).
Qed.

Lemma word_strings buf ps ws (s : stdio K) : Forall word_ok ws -> Forall2 (points_to buf) ps ws ->
  strings buf ps s = Val ((fun w => Shell.text w ++ [0]) <$> ws) s.
Proof.
  intros Hok Hall. induction Hall as [|p w ps ws Hp _ IH]; [done|]. apply Forall_cons in Hok as [Hw Hok].
  destruct (word_string _ _ _ Hw Hp) as (i&->&E). cbn [strings]. erewrite after_val by reflexivity.
  erewrite after_val by (by apply IH). rewrite E. done.
Qed.
End processes.

Definition aim_of (t : option target) : option aim :=
  (fun t => mkAim (tg_append t) (Shell.text (tg_word t))) <$> t.

(** C25: [cat a b > c] copies files.  The shell is given a line of the words [cat]
    and the names of files that can be read, bare or quoted, with blanks between
    them, and perhaps a redirection.  Then the file behind the redirection holds
    the texts of the files, one after the other - behind what it held before if the
    redirection appends - or without one the terminal shows them.  No other file
    changes, and the shell's streams and handles are what they were: parser, fork,
    redirection, the built-in command and the wait work together. *)
Theorem shell_copies_files {K} `{Sys K, Sys2 K, Procs K} text screen open_at sink progname fuel junk
    lead l t paths texts (s : stdio K) :
  processes text screen open_at sink -> ready s -> sink (kern s) = None ->
  Forall blank lead -> Forall item_ok l -> match t with Some t => target_ok t | None => True end ->
  Shell.text <$> (it_word <$> l) = before_nul (lit "cat") :: paths -> paths <> [] -> (List.length l < 16)%nat ->
  match aim_of t with Some a => plain_name (a_file a) | None => True end ->
  Forall2 (readable_file text fuel (aim_of t) (kern s)) paths texts ->
  runs (run fuel junk progname (lead ++ body l t)) s (fun _ s' =>
    resumed open_at sink s s' /\ received text screen (aim_of t) (concat texts) (kern s) (kern s')).
Proof.
  intros Hpr Hr Hs Hlead Hl Ht Hw Hne Hlen Ha Hall.
  destruct (parse_line lead l t 16 Hlead Hl Ht Hlen) as (p&Ep&Hargs&Hredir).
  assert (Forall word_ok (it_word <$> l)) as Hok.
  { apply Forall_fmap. eapply Forall_impl; [exact Hl|]. by intros i [? _]. }
  assert ((fun w => Shell.text w ++ [0]) <$> (it_word <$> l) = lit "cat" :: ((fun p => p ++ [0]) <$> paths)) as Hstr.
  { transitivity ((fun p => p ++ [0]) <$> (Shell.text <$> (it_word <$> l))); [by rewrite <- (list_fmap_compose Shell.text (fun p => p ++ [0]))|].
    by rewrite Hw. }
  assert (mkRedirection (c_string (ps_buf p) <$> rd_stdout (ps_redir p)) (rd_append (ps_redir p)) =
    default (mkRedirection None false) (redirection_of (aim_of t))) as Hrd.
  { destruct t as [t|]; [|by rewrite Hredir]. destruct Hredir as [-> Hp].
    destruct (word_string _ _ _ (proj1 (proj2 Ht)) Hp) as (i&->&E). cbn. by rewrite E. }
  unfold run. apply runs_bind, runs_libm. eapply runs_lift; [exact Ep|]. cbv beta iota.
  rewrite (proj2 (Z.ltb_ge (Z.of_nat (List.length l)) 0)) by lia.
  pose proof (word_strings (ps_buf p) _ _ s Hok Hargs) as Estr. rewrite Hstr in Estr.
  destruct (ps_argv p) as [|[i|] ps] eqn:Eargv.
  { apply Forall2_nil_inv_l in Hargs. rewrite Hargs in Hw. done. }
  2: { inversion Hargs as [|? ? ? ? Hp]; subst. by destruct Hp as (?&?&_). }
  apply runs_bind, runs_libm. unfold runs at 1. rewrite Estr. cbv beta iota. rewrite Hrd.
  replace (Some (default _ _)) with (redirection_of (aim_of t)) by (by destruct t).
  unfold runs. rewrite run_args_cat. by apply (fork_copies _ _ _ _ Hpr).
Qed.

(** ** A kernel

    It reads at most three bytes at a time and writes at most two.  Files with a
    terminator in their names are not seen, nor are handles of such, nor is a sink
    that is no file. *)

Record ptty := mkPtty {
  y_text : gmap (list Z) (list Z); y_screen : list Z; y_open : gmap Z (list Z); y_sink : option (list Z);
}.

Definition p_text (k : ptty) : gmap (list Z) (list Z) := filter (fun x => 0 ∉ x.1) (y_text k).
Definition p_open (k : ptty) : gmap Z (list Z) := filter (fun x => 0 ∉ x.2) (y_open k).
Definition p_sink (k : ptty) : option (list Z) := q ← y_sink k; _ ← p_text k !! q; Some q.

Definition p_file (p : list Z) (k : ptty) : Z * ptty :=
  let h := free_handle (S (size (y_open k))) 3 (y_open k) in
  (h, mkPtty (<[p := default [] (p_text k !! p)]> (y_text k)) (y_screen k) (<[h := p]> (y_open k)) (p_sink k)).

Definition p_sys : Sys ptty := {|
  sys_read := fun h len pos k =>
    match y_open k !! h with
    | Some p =>
        let t := default [] (y_text k !! p) in
        let res := Z.min (Z.min len 3) (Z.max 0 (Z.of_nat (List.length t) - pos)) in
        (res, take (Z.to_nat res) (drop (Z.to_nat pos) t), k)
    | None => (-3, [], k)
    end;
  sys_write := fun h data _ flags k =>
    if flags =? WRITE_TRUNCATE then
      match y_open k !! h with
      | Some p => (0, mkPtty (<[p := []]> (y_text k)) (y_screen k) (y_open k) (p_sink k))
      | None => (-3, k)
      end
    else
      let res := Z.min 2 (Z.of_nat (List.length data)) in
      let data := take (Z.to_nat res) data in
      (res, match p_sink k with
            | Some q => mkPtty (<[q := default [] (y_text k !! q) ++ data]> (y_text k)) (y_screen k) (y_open k) (y_sink k)
            | None => mkPtty (y_text k) (y_screen k ++ data) (y_open k) (y_sink k)
            end);
  sys_dup := fun h _ _ k =>
    match y_open k !! h with
    | Some q => (1, mkPtty (y_text k) (y_screen k) (y_open k) (Some q))
    | None => (-3, k)
    end;
  sys_getsize := fun _ k => (0, k);
  sys_close := fun h k => mkPtty (y_text k) (y_screen k) (delete h (y_open k)) (y_sink k);
  camellia_open := fun path flags k =>
    let p := before_nul path in
    if is_some (p_text k !! p) || negb (Z.land flags OPEN_CREATE =? 0) then p_file p k else (- ENOENT, k);
  malloc_ok := fun k => (true, k);
|}.

Definition p_sys2 : Sys2 ptty := {| sys_remove := fun _ k => (0, k); sys_sleep := fun _ k => k |}.

Definition p_procs : Procs ptty := {|
  sys_fork := fun k => (1, k, k);
  sys_fork_fs := fun _ k => (1, 9, k);
  sys_wait2 := fun pid _ kc kp => (pid, mkPtty (y_text kc) (y_screen kc) (y_open kp) (p_sink kp));
  sys_mount := fun _ _ k => k;
  sys_getprocfs := fun k => (9, k);
  sys_getpid := fun k => (2, k);
  sys_getppid := fun k => (1, k);
  elf_exec := fun _ _ k => None;
  libc_chdir := fun _ k => (0, k);
  libc_getcwd := fun _ k => (Some (lit "/"), k);
  rdtsc := fun k => (0, k);
  getopt := fun argv _ => ([], drop 1 argv);
|}.

(** What the views show of a kernel. *)
Lemma p_text_insert q t tx sc op sk : 0 ∉ q ->
  p_text (mkPtty (<[q := t]> tx) sc op sk) = <[q := t]> (filter (fun x => 0 ∉ x.1) tx).
Proof. intros Hq. unfold p_text. cbn. by rewrite map_filter_insert_True. Qed.

Lemma p_open_insert h p tx sc op sk : 0 ∉ p ->
  p_open (mkPtty tx sc (<[h := p]> op) sk) = <[h := p]> (filter (fun x => 0 ∉ x.2) op).
Proof. intros Hp. unfold p_open. cbn. by rewrite map_filter_insert_True. Qed.

Lemma p_text_some k p t : p_text k !! p = Some t -> y_text k !! p = Some t /\ 0 ∉ p.
Proof. apply map_lookup_filter_Some. Qed.

Lemma p_open_some k h p : p_open k !! h = Some p -> y_open k !! h = Some p /\ 0 ∉ p.
Proof. apply map_lookup_filter_Some. Qed.

Lemma p_sink_some k q : p_sink k = Some q -> y_sink k = Some q /\ is_Some (p_text k !! q).
Proof.
  unfold p_sink. destruct (y_sink k) as [q'|]; [|done]. cbn. destruct (p_text k !! q') eqn:E; [|done].
  intros [= ->]. rewrite E. by split.
Qed.

(** The sink stays where it is while no file goes. *)
Lemma p_sink_keep k k' : y_sink k' = y_sink k -> dom (p_text k') = dom (p_text k) -> p_sink k' = p_sink k.
Proof.
  intros Es Ed. unfold p_sink. rewrite Es. destruct (y_sink k) as [q|]; [|done]. cbn.
  assert (is_Some (p_text k' !! q) <-> is_Some (p_text k !! q)) as Hq by (by rewrite <- !elem_of_dom, Ed).
  destruct (p_text k' !! q), (p_text k !! q); try done.
  - by destruct (proj1 Hq (ex_intro _ _ eq_refl)).
  - by destruct (proj2 Hq (ex_intro _ _ eq_refl)).
Qed.

Lemma p_sink_norm k k' : y_sink k' = p_sink k -> dom (p_text k) ⊆ dom (p_text k') -> p_sink k' = p_sink k.
Proof.
  intros Es Ed. unfold p_sink at 1. rewrite Es. destruct (p_sink k) as [q|] eqn:Eq; [|done]. cbn.
  apply p_sink_some in Eq as [_ Hq]. apply elem_of_dom, Ed, elem_of_dom in Hq as [t ->]. done.
Qed.

Lemma p_file_spec p k : (0 ∉ p) -> exists h k', p_file p k = (h, k') /\ 2 < h /\ p_open k !! h = None /\
  p_open k' = <[h := p]> (p_open k) /\ p_text k' = <[p := default [] (p_text k !! p)]> (p_text k) /\
  y_screen k' = y_screen k /\ p_sink k' = p_sink k.
Proof.
  intros Hp. destruct (free_handle_free (S (size (y_open k))) 3 (y_open k)) as [Hh Hf].
  { pose proof (map_size_filter (fun x : Z * list Z => (3 <= x.1)%Z) (y_open k)). lia. }
  eexists _, _. split; [reflexivity|]. split; [lia|]. split; [by apply map_lookup_filter_None; left|].
  split; [by apply p_open_insert|]. split; [by apply p_text_insert|]. split; [done|].
  apply p_sink_norm; [done|]. rewrite p_text_insert by done. change (filter _ (y_text k)) with (p_text k). set_solver.
Qed.

Lemma p_visible_file k p t : visible p_text y_screen p_sink k !! p = Some t -> 0 ∉ p ->
  p_text k !! p = Some t /\ p_sink k <> Some p.
Proof.
  unfold visible. intros Hv Hp. destruct (p_sink k) as [q|].
  - rewrite !lookup_insert_ne in Hv by (intros <-; apply Hp; left).
    apply lookup_delete_Some in Hv as [Hq Hv]. split; [done|congruence].
  - rewrite lookup_insert_ne in Hv by (intros <-; apply Hp; left). done.
Qed.

Lemma p_console : @console _ p_sys (visible p_text y_screen p_sink) p_open (output p_text y_screen p_sink).
Proof.
  split.
  - intros k. by exists k.
  - intros k p t rest Hv Hp. apply p_visible_file in Hv as [Ht Hq]; [|done].
    destruct (p_file_spec p k Hp) as (h&k'&E&Hh&Hn&Ho&Htx&Hsc&Hs). cbn. rewrite before_nul_app, Ht by done. cbn.
    exists h, k'. rewrite Ht in Htx. cbn in Htx. rewrite insert_id in Htx by done.
    unfold visible, output. rewrite Hs, Htx, Hsc. by split_and!.
  - intros k h p t len pos res bytes k' [Ho Hp]%p_open_some Hv Hl Hpos E.
    apply p_visible_file in Hv as [[Ht _]%p_text_some Hq]; [|done].
    cbn in E. rewrite Ho, Ht in E. cbn in E.
    injection E as <- <- <-. split; [done|]. case_match; zbool; [split; [lia|done]|lia].
  - intros k data res k' Hne [= <- <-]. split; [destruct data; [done|cbn; lia]|].
    unfold visible, output. destruct (p_sink k) as [q|] eqn:Eq.
    + apply p_sink_some in Eq as Hq. destruct Hq as [Hq [t Ht]]. apply p_text_some in Ht as Hy. destruct Hy as [Hy Hz].
      rewrite Hy. cbn [default]. set (k' := mkPtty _ _ _ _).
      assert (p_text k' = <[q := t ++ take (Z.to_nat (Z.min 2 (Z.of_nat (List.length data)))) data]> (p_text k)) as Etx
        by (by apply p_text_insert).
      assert (p_sink k' = Some q) as ->.
      { rewrite <- Eq. apply p_sink_keep; [done|]. rewrite Etx, dom_insert_lookup_L by done. done. }
      rewrite Etx, lookup_insert_eq, Ht. split_and!; try done. by rewrite delete_insert_eq.
    + set (k' := mkPtty _ _ _ _). assert (p_sink k' = None) as -> by (by rewrite <- Eq). done.
  - intros k h. split_and!; try done. unfold p_open. cbn. apply map_filter_delete.
Qed.

Lemma ptty_processes : @processes _ p_sys p_procs p_text y_screen p_open p_sink.
Proof.
  split.
  - apply p_console.
  - intros k p [t Ht]. by apply p_text_some in Ht as [_ ?].
  - intros k q Hs. by apply p_sink_some in Hs as [_ ?].
  - intros k. exists 1, k, k. by split_and!.
  - intros pid code kc kp Hpid Hs. cbn. rewrite Hs. eexists _, _. split; [reflexivity|].
    split_and!; try done. lia.
  - intros k q rest Hq Hs. cbn. rewrite before_nul_app by done. rewrite orb_true_r.
    destruct (p_file_spec q k Hq) as (h&k'&E&Hh&Hn&Ho&Htx&Hsc&Hk). exists h, k'. rewrite Hs in Hk. by split_and!.
  - intros k h q [Ho Hq]%p_open_some Hs. cbn. rewrite Ho. eexists _, _. split; [reflexivity|].
    split_and!; try done. { unfold p_sink at 1. cbn. by rewrite Hs. } by apply p_text_insert.
  - intros k h q [Ho Hq]%p_open_some [t Ht] Hs. cbn. rewrite Ho. eexists _, _. split; [reflexivity|].
    split_and!; try done. unfold p_sink. cbn. change (p_text _) with (p_text k). by rewrite Ht.
Qed.

Lemma ready_stdio0 {K} (k : K) : ready (stdio0 k).
Proof.
  split_and!; [by eexists|done|]. intros q Hq. cbn in Hq. unfold stdio0, stdin, stdout, stderr. cbn [files].
  by rewrite !lookup_insert_ne, lookup_singleton_ne by lia.
Qed.

(** Two files. *)
Definition p_files : ptty := mkPtty
  {[ [47; 97] := [104; 101; 108; 108; 111; 0; 255; 10]; [47; 98] := [33] ]} [] ∅ None.

(** [cat /a '/b' >> /c], with a blank in front and a newline behind. *)
Definition p_words : list item := [
  mkItem (Bare [99; 97; 116]) 32 []; mkItem (Bare [47; 97]) 32 [32]; mkItem (Quoted [47; 98]) 32 []].
Definition p_target : target := mkTarget true [32] (Bare [47; 99]) [10].

Definition p_line : list Z := [32] ++ body p_words (Some p_target).

Ltac plain_tac :=
  unfold item_ok, target_ok, word_ok, blank, plain, plain_name;
  cbn [it_word it_sep it_seps tg_blanks tg_word tg_end];
  repeat split; (apply (bool_decide_unpack _); by vm_compute) || done.

Lemma shell_copies_files_witness :
  exists s', @run _ p_sys p_sys2 p_procs 20 [] (lit "shell") p_line (stdio0 p_files) = Val () s' /\
    p_text (kern s') !! [47; 99] = Some [104; 101; 108; 108; 111; 0; 255; 10; 33] /\ y_screen (kern s') = [].
Proof.
  destruct (runs_inv _ _ _ (@shell_copies_files _ p_sys p_sys2 p_procs p_text y_screen p_open p_sink (lit "shell") 20 []
    [32] p_words (Some p_target) [[47; 97]; [47; 98]] [[104; 101; 108; 108; 111; 0; 255; 10]; [33]] (stdio0 p_files)
    ptty_processes (ready_stdio0 p_files) eq_refl ltac:(by repeat constructor)
    ltac:(repeat (apply Forall_cons_2; [plain_tac|]); apply Forall_nil_2) ltac:(plain_tac) eq_refl ltac:(done)
    ltac:(cbn; lia) ltac:(plain_tac)
    ltac:(repeat (apply Forall2_cons_2; [split_and!; [done|plain_tac|cbn; lia|cbn; lia|done]|]); apply Forall2_nil_2)))
    as ([]&s'&E&_&Htx&Hsc).
  exists s'. split; [exact E|]. split; [by rewrite Htx|done].
Defined.

(** ** What goes wrong

    [shadow] goes on, and is then run like any other command: there is no program
    of that name, so that the shell complains about a command that it has carried
    out. *)
Lemma shadow_falls_through :
  exists s, @run _ p_sys p_sys2 p_procs 20 [] (lit "shell") (lit "shadow /a") (stdio0 p_files) = Val () s /\
    y_screen (kern s) = before_nul (lit "shell: unknown command: shadow\n").
Proof. eexists. split; [vm_compute; reflexivity|reflexivity]. Qed.

(** A program that is read but cannot be loaded: [elf_execf] has closed the stream,
    and [execve] closes it again. *)
Lemma execve_closes_twice :
  @run _ p_sys p_sys2 p_procs 20 [] (lit "shell") (lit "/x") (stdio0 (mkPtty {[ [47; 120] := ELF ]} [] ∅ None)) = Fault Undefined.
Proof. vm_compute. reflexivity. Qed.

(** A comment behind a blank is an argument that is null, and [cat] opens it. *)
Lemma comment_word_followed :
  @run _ p_sys p_sys2 p_procs 20 [] (lit "shell") (lit "cat #") (stdio0 p_files) = Fault Undefined.
Proof. vm_compute. reflexivity. Qed.
