(* ===== verification/Draw.v ===== *)
(** * Draw

    Drawing into a frame buffer ([src/src/libc/draw/draw.c], [flush.c]): a
    program keeps a copy of the screen, marks what it changes, and writes the
    marked part to the device.  The buffer is the list of its bytes. *)

From S2P Require Import Prelude Mem Printf CString KState Buf.

Record framebuf := mkFb {
  f_len : Z; f_width : Z; f_height : Z; f_pitch : Z;
  f_bpp : Z;
  f_b : list Z;
}.
#[export] Instance framebuf_settable : Settable framebuf := fun f =>
  mkFb (f_len f) (f_width f) (f_height f) (f_pitch f) (f_bpp f) (f_b f).

Record rect := mkRect { x1 : Z; y1 : Z; x2 : Z; y2 : Z }.
#[export] Instance rect_settable : Settable rect := fun r => mkRect (x1 r) (y1 r) (x2 r) (y2 r).

(** ** Marks *)

(** [~0] *)
Definition UINT32_MAX : Z := 2 ^ 32 - 1.

Definition dirty_reset : rect := mkRect UINT32_MAX UINT32_MAX 0 0.

Definition dirty_mark (d : rect) (x y : Z) : rect :=
  let d := if x <? x1 d then d <| x1 := x |> else d in
  let d := if x2 d <? x then d <| x2 := x |> else d in
  let d := if y <? y1 d then d <| y1 := y |> else d in
  if y2 d <? y then d <| y2 := y |> else d.

(** ** Frame buffers *)

(** What [fb_setup] reads off the name of the device, [<w>x<h>x<bpp>]; [None] is
    [-EINVAL].  [len] is what [_sys_getsize] answers and [b] what the read of
    the device leaves in the fresh buffer. *)
Definition fb_spec (spec : list Z) : res (option (Z * Z)) :=
  '(w, spec) ← strtol spec 0;
  c ← bget spec 0;
  if negb (c =? 120) then Ok None
  else
    '(h, spec) ← strtol (tail spec) 0;
    c ← bget spec 0;
    if negb (c =? 120) then Ok None
    else
      '(bpp, _) ← strtol (tail spec) 0;
      if negb (u8 bpp =? 32) then Ok None else Ok (Some (u64 w, u64 h)).

Definition fb_setup (spec : list Z) (len : Z) (b : list Z) : res (option framebuf) :=
  wh ← fb_spec spec;
  match wh with
  | None => Ok None
  | Some (w, h) =>
      if h =? 0 then Err Undefined
      else Ok (Some (mkFb (u64 len) w h (u64 len / h) 32 b))
  end.

(** [malloc] leaves [junk] in the buffer. *)
Definition fb_anon (w h : Z) (junk : list Z) : framebuf :=
  let pitch := u64 (w * 32) / 8 in mkFb (u64 (pitch * h)) w h pitch 32 junk.

(** The pixel's offset in the buffer; [None] is a null pointer. *)
Definition fb_pixel (f : framebuf) (x y : Z) : option Z :=
  if (x <? f_width f) && (y <? f_height f) then Some (u64 (f_pitch f * y + u32 (4 * x))) else None.

Definition deref_ {A} (p : option A) : res A :=
  match p with Some a => Ok a | None => Err Undefined end.

Definition fb_cpy_row (src : framebuf) (xd yd xs ys w : Z) (y : Z) (dest : framebuf) : res framebuf :=
  d ← deref_ (fb_pixel dest (u32 xd) (u32 (yd + y)));
  s ← deref_ (fb_pixel src (u32 xs) (u32 (ys + y)));
  row ← bload (f_b src) s (u64 (w * 4));
  b ← bstore (f_b dest) d row;
  Ok (dest <| f_b := b |>).

(** [dest] and [src] are different buffers. *)
Definition fb_cpy (dest src : framebuf) (xd yd xs ys w h : Z) : res framebuf :=
  for_from (fb_cpy_row src xd yd xs ys w) 0 (Z.to_nat h) dest.

(** ** Flushing *)

(** The writes to the device, as offsets and data. *)
Abbreviation writes := (list (Z * list Z)) (only parsing).

Definition flush_combined (pix : rect) (f : framebuf) : res writes :=
  let low := u64 (f_pitch f * y1 pix + u32 (4 * x1 pix)) in
  let high := u64 (f_pitch f * y2 pix + u32 (4 * y2 pix) + 4) in
  data ← bload (f_b f) low (u64 (high - low));
  Ok [(low, data)].

(** A write takes seven words of the execbuf, which the kernel then runs from
    the first to the last. *)
Definition flush_row (pix : rect) (f : framebuf) (y : Z) (out : writes) : res writes :=
  let low := u64 (f_pitch f * y + u32 (4 * x1 pix)) in
  let high := u64 (f_pitch f * y + u32 (4 * x2 pix) + 4) in
  data ← bload (f_b f) low (u64 (high - low));
  Ok (out ++ [(low, data)]).

Definition flush_split (pix : rect) (f : framebuf) : res writes :=
  if EXECBUF_MAX_LEN <=? u64 (u32 (7 * (y2 pix - y1 pix)) * 8) then flush_combined pix f
  else for_from (flush_row pix f) (y1 pix) (Z.to_nat (y2 pix - y1 pix)) [].

Definition dirty_flush (d : rect) (f : framebuf) : res (rect * writes) :=
  if x1 d =? UINT32_MAX then Ok (d, [])
  else
    let d := if f_width f <=? x2 d then d <| x2 := u32 (f_width f - 1) |> else d in
    let d := if f_height f <=? y2 d then d <| y2 := u32 (f_height f - 1) |> else d in
    out ← (if u64 (f_width f - 600) <? u32 (x2 d - x1 d) then flush_combined d f else flush_split d f);
    Ok (dirty_reset, out).

(** ** Well-formed buffers *)

(** Rows of at least [width] pixels, one after the other, in coordinates that
    fit the machine's words. *)
Record fb_wf (f : framebuf) : Prop := {
  wf_size : 0 < f_width f < 2 ^ 24 /\ 0 < f_height f < 2 ^ 24;
  wf_pitch : 4 * f_width f <= f_pitch f < 2 ^ 28;
  wf_len : f_len f = f_pitch f * f_height f;
  wf_b : Z.of_nat (length (f_b f)) = f_len f;
}.

(** The four bytes of a pixel. *)
Definition addr (f : framebuf) (x y : Z) : Z := f_pitch f * y + 4 * x.

Definition pixel (f : framebuf) (x y : Z) : list Z :=
  take 4 (drop (Z.to_nat (addr f x y)) (f_b f)).

Definition on_screen (f : framebuf) (x y : Z) : Prop :=
  0 <= x < f_width f /\ 0 <= y < f_height f.

Lemma addr_range f x y : fb_wf f -> on_screen f x y -> 0 <= addr f x y /\ addr f x y + 4 <= f_len f.
Proof.
  intros [[Hw Hh] [Hp Hp2] Hl _] [Hx Hy]. unfold addr. rewrite Hl.
  assert (f_pitch f * (y + 1) <= f_pitch f * f_height f) by (apply Z.mul_le_mono_nonneg_l; lia).
  assert (0 <= f_pitch f * y) by (apply Z.mul_nonneg_nonneg; lia). lia.
Qed.

Lemma row_disjoint f y y' :
  fb_wf f -> y' <> y ->
  f_pitch f * y + 4 * f_width f <= f_pitch f * y' \/ f_pitch f * y' + 4 * f_width f <= f_pitch f * y.
Proof.
  intros [[Hw Hh] [Hp _] _ _] Hne. assert (y < y' \/ y' < y) as [?|?] by lia; [left|right].
  - assert (f_pitch f * (y + 1) <= f_pitch f * y') by (apply Z.mul_le_mono_nonneg_l; lia). lia.
  - assert (f_pitch f * (y' + 1) <= f_pitch f * y) by (apply Z.mul_le_mono_nonneg_l; lia). lia.
Qed.

Lemma addr_disjoint f x y x' y' :
  fb_wf f -> on_screen f x y -> on_screen f x' y' -> (x, y) <> (x', y') ->
  addr f x y + 4 <= addr f x' y' \/ addr f x' y' + 4 <= addr f x y.
Proof.
  intros Hf [Hx Hy] [Hx' Hy'] Hne. unfold addr. destruct (decide (y' = y)) as [->|Hyy].
  - assert (x <> x') by congruence. lia.
  - destruct (row_disjoint f y y' Hf Hyy); lia.
Qed.

(** A store of a pixel changes this pixel only. *)
Lemma pixel_store f x y v :
  fb_wf f -> on_screen f x y -> length v = 4%nat ->
  exists b, bstore (f_b f) (addr f x y) v = Ok b /\
    fb_wf (f <| f_b := b |>) /\
    forall x' y', on_screen f x' y' ->
      pixel (f <| f_b := b |>) x' y' = if decide ((x, y) = (x', y')) then v else pixel f x' y'.
Proof.
  intros Hwf Hon Hv. destruct (addr_range f x y Hwf Hon) as [H0 H1]. pose proof Hwf as [_ _ _ Hb].
  eexists. split; [apply bstore_in; lia|]. split.
  { destruct Hwf. split; try done. cbn. rewrite length_splice; lia. }
  intros x' y' Hon'. unfold pixel. cbn. fold (addr f x' y'). case_decide as Hd.
  - injection Hd as <- <-. rewrite <- Hv. apply sub_splice_eq. lia.
  - destruct (addr_range f x' y' Hwf Hon'). pose proof (addr_disjoint f x y x' y' Hwf Hon Hon' Hd).
    apply sub_splice_out; lia.
Qed.

(** ** Marks cover what was changed *)

Definition covered (d : rect) (x y : Z) : Prop := x1 d <= x <= x2 d /\ y1 d <= y <= y2 d.

Definition rect_le (d d' : rect) : Prop :=
  x1 d' <= x1 d /\ y1 d' <= y1 d /\ x2 d <= x2 d' /\ y2 d <= y2 d'.

#[export] Instance rect_le_preorder : PreOrder rect_le.
Proof. split; [intros d|intros d1 d2 d3]; unfold rect_le; lia. Qed.

Lemma dirty_mark_spec d x y :
  dirty_mark d x y = mkRect (Z.min (x1 d) x) (Z.min (y1 d) y) (Z.max (x2 d) x) (Z.max (y2 d) y).
Proof.
  unfold dirty_mark. destruct d as [a b c e]. cbn [x1].
  destruct (x <? a) eqn:?; cbn; destruct (c <? x) eqn:?; cbn; destruct (y <? b) eqn:?; cbn;
    destruct (e <? y) eqn:?; zbool; unfold set; cbn; f_equal; lia.
Qed.

Lemma dirty_mark_le d x y : rect_le d (dirty_mark d x y).
Proof. rewrite dirty_mark_spec. unfold rect_le. cbn. lia. Qed.

Lemma covered_le d d' x y : rect_le d d' -> covered d x y -> covered d' x y.
Proof. unfold rect_le, covered. lia. Qed.

(** Marking two corners covers what is between them. *)
Lemma covered_corners d xa ya xb yb x y :
  xa <= x <= xb -> ya <= y <= yb -> covered (dirty_mark (dirty_mark d xa ya) xb yb) x y.
Proof. intros. rewrite !dirty_mark_spec. unfold covered. cbn. lia. Qed.

(** ** What a flush does to the device *)

Fixpoint apply_writes (out : writes) (dev : list Z) : res (list Z) :=
  match out with
  | [] => Ok dev
  | (off, data) :: out => dev ← bstore dev off data; apply_writes out dev
  end.

Lemma apply_writes_app out out' dev :
  apply_writes (out ++ out') dev = (dev ← apply_writes out dev; apply_writes out' dev).
Proof.
  revert dev; induction out as [|[off data] out IH]; intros dev; [done|]. cbn.
  destruct (bstore dev off data); [apply IH|done].
Qed.

Lemma sub_splice_in (b : list Z) i bs off n :
  (i + length bs <= length b)%nat -> (i <= off)%nat -> (off + n <= i + length bs)%nat ->
  take n (drop off (splice i bs b)) = take n (drop (off - i) bs).
Proof.
  intros Hl H0 H1. apply list_eq; intros j. rewrite !sub_lookup. case_decide; [|done].
  rewrite splice_lookup_in by lia. f_equal. lia.
Qed.

(** A run of [n] pixels of [g] stored in a row of [f]. *)
Lemma run_copy g xs ys f xd yd n :
  fb_wf g -> fb_wf f -> 0 < n ->
  0 <= xs -> xs + n <= f_width g -> 0 <= ys < f_height g ->
  0 <= xd -> xd + n <= f_width f -> 0 <= yd < f_height f ->
  let data := take (Z.to_nat (4 * n)) (drop (Z.to_nat (addr g xs ys)) (f_b g)) in
  exists b, bstore (f_b f) (addr f xd yd) data = Ok b /\ fb_wf (f <| f_b := b |>) /\
    forall x y, on_screen f x y ->
      pixel (f <| f_b := b |>) x y =
      if decide (xd <= x < xd + n /\ y = yd) then pixel g (x - xd + xs) ys else pixel f x y.
Proof.
  intros Hg Hf Hn Hxs Hxsn Hys Hxd Hxdn Hyd data.
  destruct (addr_range g xs ys Hg) as [C0 _]; [unfold on_screen; lia|].
  destruct (addr_range g (xs + n - 1) ys Hg) as [_ C1]; [unfold on_screen; lia|].
  destruct (addr_range f xd yd Hf) as [A0 _]; [unfold on_screen; lia|].
  destruct (addr_range f (xd + n - 1) yd Hf) as [_ A1]; [unfold on_screen; lia|].
  pose proof (wf_b _ Hg) as Hgb. pose proof (wf_b _ Hf) as Hb.
  assert (Ld : Z.of_nat (length data) = 4 * n).
  { unfold data. rewrite length_take, length_drop. unfold addr in *. lia. }
  assert (Hend : addr f xd yd + 4 * n = addr f (xd + n - 1) yd + 4) by (unfold addr; lia).
  eexists. split; [apply bstore_in; lia|]. split.
  { destruct Hf. split; try done. cbn. rewrite length_splice; lia. }
  intros x y Hon. destruct (addr_range f x y Hf Hon) as [B0 B1].
  unfold pixel at 1. cbn. change (addr (f <| f_b := _ |>) x y) with (addr f x y).
  case_decide as Hc.
  - destruct Hc as [Hc ->]. assert (addr f x yd = addr f xd yd + 4 * (x - xd)) as Ea by (unfold addr; lia).
    rewrite sub_splice_in by lia. unfold data, pixel. apply list_eq; intros j. rewrite !sub_lookup.
    case_decide; [|done]. rewrite decide_True by lia. f_equal. unfold addr in *. lia.
  - apply sub_splice_out; [lia|].
    assert (x < xd /\ y = yd \/ xd + n <= x /\ y = yd \/ y <> yd) as [[Hl ->]|[[Hl ->]|Hl]] by lia.
    + unfold addr in *. lia.
    + unfold addr in *. lia.
    + destruct (row_disjoint f yd y Hf Hl) as [H|H]; destruct Hon; unfold addr in *; lia.
Qed.

(** The bytes of the pixels [xa] to [xb] of row [y], stored in the device. *)
Lemma run_store f dev xa xb y :
  fb_wf f -> fb_wf (f <| f_b := dev |>) -> 0 <= xa <= xb -> xb < f_width f -> 0 <= y < f_height f ->
  let data := take (Z.to_nat (4 * (xb - xa + 1))) (drop (Z.to_nat (addr f xa y)) (f_b f)) in
  exists dev', bstore dev (addr f xa y) data = Ok dev' /\ fb_wf (f <| f_b := dev' |>) /\
    forall x' y', on_screen f x' y' ->
      pixel (f <| f_b := dev' |>) x' y' =
      if decide (xa <= x' <= xb /\ y' = y) then pixel f x' y' else pixel (f <| f_b := dev |>) x' y'.
Proof.
  intros Hf Hd Hx Hxb Hy data.
  destruct (run_copy f xa y (f <| f_b := dev |>) xa y (xb - xa + 1) Hf Hd) as (b&E&Hwf&Hpx);
    [lia|lia|lia|lia|lia|cbn; lia|cbn; lia|].
  exists b. split; [exact E|]. split; [exact Hwf|]. intros x' y' Hon. etrans; [exact (Hpx x' y' Hon)|].
  destruct (decide (xa <= x' <= xb /\ y' = y)) as [[H1 ->]|H1].
  - rewrite decide_True by lia. f_equal. lia.
  - by rewrite decide_False by lia.
Qed.

(** The marked rectangle, inside the screen. *)
Definition rect_wf (f : framebuf) (d : rect) : Prop :=
  0 <= x1 d <= x2 d /\ x2 d < f_width f /\ 0 <= y1 d <= y2 d /\ y2 d < f_height f.

Lemma addr_u64 f x y :
  fb_wf f -> on_screen f x y -> u64 (f_pitch f * y + u32 (4 * x)) = addr f x y.
Proof.
  intros Hf Hon. destruct (addr_range f x y Hf Hon) as [A0 A1]. destruct Hf as [[Hw Hh] [_ Hp] Hl _].
  destruct Hon as [Hx Hy]. rewrite u32_small by lia. apply u64_small. unfold is_size. unfold addr in *.
  assert (f_pitch f * f_height f <= 2 ^ 28 * 2 ^ 24) by (apply Z.mul_le_mono_nonneg; lia). lia.
Qed.

Lemma flush_row_spec d f y out :
  fb_wf f -> rect_wf f d -> 0 <= y < f_height f ->
  flush_row d f y out =
  Ok (out ++ [(addr f (x1 d) y,
               take (Z.to_nat (4 * (x2 d - x1 d + 1))) (drop (Z.to_nat (addr f (x1 d) y)) (f_b f)))]).
Proof.
  intros Hf (Hx&Hx2&_) Hy. unfold flush_row.
  assert (O1 : on_screen f (x1 d) y) by (unfold on_screen; lia).
  assert (O2 : on_screen f (x2 d) y) by (unfold on_screen; lia).
  destruct (addr_range f _ _ Hf O1) as [A0 _]. destruct (addr_range f _ _ Hf O2) as [_ A1].
  pose proof (addr_u64 f _ _ Hf O2) as E2. rewrite (addr_u64 f _ _ Hf O1).
  pose proof Hf as [[Hw Hh] [_ Hp] Hl Hb].
  assert (f_pitch f * f_height f <= 2 ^ 28 * 2 ^ 24) by (apply Z.mul_le_mono_nonneg; lia).
  rewrite (u32_small (4 * x2 d)) by lia.
  assert (u64 (f_pitch f * y + 4 * x2 d + 4) = addr f (x2 d) y + 4) as ->.
  { apply u64_small. unfold is_size, addr in *. lia. }
  rewrite u64_small by (unfold is_size, addr in *; lia).
  replace (addr f (x2 d) y + 4 - addr f (x1 d) y) with (4 * (x2 d - x1 d + 1)) by (unfold addr; lia).
  rewrite bload_in; [done|lia|lia|]. unfold addr in *. lia.
Qed.

(** The rows from [y1] on, up to but without [y2]. *)
Lemma flush_rows d f dev :
  fb_wf f -> rect_wf f d -> fb_wf (f <| f_b := dev |>) ->
  exists out dev', for_from (flush_row d f) (y1 d) (Z.to_nat (y2 d - y1 d)) [] = Ok out /\
    apply_writes out dev = Ok dev' /\ fb_wf (f <| f_b := dev' |>) /\
    forall x y, on_screen f x y -> pixel (f <| f_b := dev' |>) x y =
      if decide (x1 d <= x <= x2 d /\ y1 d <= y < y2 d) then pixel f x y
      else pixel (f <| f_b := dev |>) x y.
Proof.
  intros Hf Hd Hdev. pose proof Hd as (Hx&Hx2&Hy&Hy2).
  destruct (for_from_rule (flush_row d f) (fun k out => exists dev', apply_writes out dev = Ok dev' /\
     fb_wf (f <| f_b := dev' |>) /\
     forall x y, on_screen f x y -> pixel (f <| f_b := dev' |>) x y =
      if decide (x1 d <= x <= x2 d /\ y1 d <= y < k) then pixel f x y
      else pixel (f <| f_b := dev |>) x y) (Z.to_nat (y2 d - y1 d)) (y1 d) []) as (out&E&dev'&H).
  - intros k out Hk (dk&Ek&Hdk&Hpx). rewrite flush_row_spec by (done || lia). eexists. split; [done|].
    destruct (run_store f dk (x1 d) (x2 d) k Hf Hdk) as (dk'&Es&Hwf'&Hpx'); [lia..|].
    exists dk'. rewrite apply_writes_app, Ek. cbn [mbind res_bind apply_writes].
    rewrite Es. split; [done|]. split; [done|]. intros x y Hon. rewrite Hpx', Hpx by done.
    repeat case_decide; try done; lia.
  - exists dev. split; [done|]. split; [done|]. intros x y Hon. rewrite decide_False by lia. done.
  - exists out, dev'. replace (y1 d + Z.of_nat (Z.to_nat (y2 d - y1 d))) with (y2 d) in H by lia. done.
Qed.

(** The rectangle is flushed row by row if it is neither wide nor high. *)
Definition row_by_row (d : rect) (f : framebuf) : Prop :=
  x2 d - x1 d <= (f_width f - 600) mod 2 ^ 64 /\ 7 * (y2 d - y1 d) * 8 < EXECBUF_MAX_LEN.

(** flushing copies the marked pixels to the device, except the bottom row
    of the mark.  When the rectangle is flushed row by row, the writes it
    produces all lie in the device's buffer, and afterwards the device shows
    the program's pixels inside the columns of the rectangle in the rows from
    [y1] up to but without [y2], and what it showed before everywhere else;
    the mark is reset.  [y2] is the last row that was marked. *)
Theorem dirty_flush_rows d f dev :
  fb_wf f -> rect_wf f d -> row_by_row d f -> fb_wf (f <| f_b := dev |>) ->
  exists out dev', dirty_flush d f = Ok (dirty_reset, out) /\ apply_writes out dev = Ok dev' /\
    forall x y, on_screen f x y -> pixel (f <| f_b := dev' |>) x y =
      if decide (x1 d <= x <= x2 d /\ y1 d <= y < y2 d) then pixel f x y
      else pixel (f <| f_b := dev |>) x y.
Proof.
  intros Hf Hd [Hc Hs] Hdev. pose proof Hd as (Hx&Hx2&Hy&Hy2). pose proof Hf as [[Hw Hh] _ _ _].
  destruct (flush_rows d f dev Hf Hd Hdev) as (out&dev'&E&Ea&_&Hpx).
  exists out, dev'. split_and!; [|done|done]. unfold dirty_flush.
  rewrite (proj2 (Z.eqb_neq _ _)) by (unfold UINT32_MAX; lia).
  rewrite (proj2 (Z.leb_gt (f_width f) (x2 d)) Hx2), (proj2 (Z.leb_gt (f_height f) (y2 d)) Hy2). cbv zeta.
  rewrite (u32_small (x2 d - x1 d)) by lia. unfold u64 at 1.
  rewrite (proj2 (Z.ltb_ge _ _)) by lia.
  unfold flush_split. unfold EXECBUF_MAX_LEN in Hs. rewrite (proj2 (Z.leb_gt _ _)).
  - rewrite E. done.
  - rewrite u32_small, u64_small by (unfold is_size; lia). unfold EXECBUF_MAX_LEN. lia.
Qed.

Definition small_fb (b : list Z) : framebuf := mkFb 256 8 8 32 32 b.

Lemma small_fb_wf b : length b = 256%nat -> fb_wf (small_fb b).
Proof. intros H. split; cbn; lia. Qed.

(** A white screen, of which a rectangle of three by three pixels is marked. *)
Lemma dirty_flush_rows_witness :
  exists out dev', dirty_flush (mkRect 1 1 3 3) (small_fb (replicate 256 255)) = Ok (dirty_reset, out) /\
    apply_writes out (replicate 256 0) = Ok dev' /\
    pixel (small_fb dev') 3 2 = [255; 255; 255; 255] /\ pixel (small_fb dev') 3 3 = [0; 0; 0; 0].
Proof.
  destruct (dirty_flush_rows (mkRect 1 1 3 3) (small_fb (replicate 256 255)) (replicate 256 0))
    as (out&dev'&E&Ea&Hpx).
  - by apply small_fb_wf.
  - unfold rect_wf. cbn. lia.
  - split; by vm_compute.
  - by apply (small_fb_wf (replicate 256 0)).
  - exists out, dev'. split; [exact E|]. split; [exact Ea|].
    split; [apply (Hpx 3 2); unfold on_screen; cbn; lia|apply (Hpx 3 3); unfold on_screen; cbn; lia].
Defined.

(** ** The name of the device *)

(** "%ux%ux%u", with which [video_init] ([kernel/arch/amd64/driver/video.c])
    names the frame buffer. *)
Definition video_fmt : list Z := [37; 117; 120; 37; 117; 120; 37; 117; 0].

Definition video_pieces (w h bpp : Z) : list piece :=
  let u z := Num (mkSpec false 0 None false) Mint Cu z in [u w; Lit [120]; u h; Lit [120]; u bpp].

Lemma video_text w h bpp :
  exists r, text video_fmt [VInt w; VInt h; VInt bpp] = Ok (r, render (video_pieces w h bpp)).
Proof.
  destruct (text_renders (video_pieces w h bpp)) as [r Hr].
  - assert (Hu : forall z, piece_ok (Num (mkSpec false 0 None false) Mint Cu z)).
    { intros z. cbn. repeat split; cbn; lia. }
    repeat (apply Forall_cons; split; [first [apply Hu|decide_now]|]). apply Forall_nil, I.
  - exists r. exact Hr.
Qed.

Lemma render_u z : 0 <= z < 2 ^ 32 ->
  render_piece (Num (mkSpec false 0 None false) Mint Cu z) = numeral 10 z.
Proof. intros Hz. cbn. by rewrite u32_small. Qed.

Lemma video_render w h bpp :
  0 <= w < 2 ^ 32 -> 0 <= h < 2 ^ 32 -> 0 <= bpp < 2 ^ 32 ->
  render (video_pieces w h bpp) = numeral 10 w ++ 120 :: numeral 10 h ++ 120 :: numeral 10 bpp.
Proof.
  intros Hw Hh Hb. unfold render, video_pieces.
  cbn [fmap list_fmap mjoin list_join]. rewrite !render_u by done. by rewrite app_nil_r.
Qed.

(** A positive number that ends at an [x] or at the end of the string. *)
Lemma strtol_u n c t :
  0 < n < 2 ^ 32 -> c = 120 \/ c = 0 -> strtol (numeral 10 n ++ c :: t) 0 = Ok (n, c :: t).
Proof.
  intros Hn Hc. pose proof (strtol_auto [] false 10 n (c :: t)) as H. cbn [app sign_of] in H.
  change (prefix 10) with (@nil Z) in H. cbn [app] in H.
  rewrite H; [by rewrite Z.mul_1_r|constructor|lia|unfold LONG_MAX; lia|by destruct Hc as [-> | ->]].
Qed.

(** A program learns the size of the screen from the kernel.  What
    [video_init] formats as the name of the frame buffer of [w] by [h] pixels
    with 32 bits each, followed by the terminator with which the directory is
    read, [fb_setup] reads back as [w] and [h]; of a buffer of whole rows it
    finds the length of a row. *)
Theorem fb_setup_reads_name w h pitch b rest :
  0 < w < 2 ^ 24 -> 0 < h < 2 ^ 24 -> 4 * w <= pitch < 2 ^ 28 ->
  Z.of_nat (length b) = pitch * h ->
  exists r name, text video_fmt [VInt w; VInt h; VInt 32] = Ok (r, name) /\
    exists f, fb_setup (name ++ 0 :: rest) (pitch * h) b = Ok (Some f) /\
      f_width f = w /\ f_height f = h /\ f_pitch f = pitch /\ fb_wf f.
Proof.
  intros Hw Hh Hp Hb. destruct (video_text w h 32) as [r Hr]. eexists r, _. split; [exact Hr|].
  rewrite video_render by lia.
  assert (pitch * h <= 2 ^ 28 * 2 ^ 24) by (apply Z.mul_le_mono_nonneg; lia).
  assert (0 <= pitch * h) by (apply Z.mul_nonneg_nonneg; lia).
  assert (Es : fb_spec ((numeral 10 w ++ 120 :: numeral 10 h ++ 120 :: numeral 10 32) ++ 0 :: rest)
    = Ok (Some (w, h))).
  { unfold fb_spec. rewrite <- app_assoc. cbn [app]. rewrite <- app_assoc. cbn [app].
    rewrite strtol_u by (lia || auto). cbn [mbind res_bind bget Z.leb Z.compare Z.to_nat lookup list_lookup].
    cbn [negb Z.eqb Pos.eqb tail]. rewrite strtol_u by (lia || auto).
    cbn [mbind res_bind bget Z.leb Z.compare Z.to_nat lookup list_lookup negb Z.eqb Pos.eqb tail].
    rewrite strtol_u by (lia || auto). cbn [mbind res_bind].
    change (negb (u8 32 =? 32)) with false. cbv iota.
    rewrite !u64_small by (unfold is_size; lia). done. }
  eexists. unfold fb_setup. rewrite Es. cbn [mbind res_bind].
  rewrite (proj2 (Z.eqb_neq h 0)) by lia. split; [reflexivity|].
  cbn. rewrite u64_small by (unfold is_size; lia). rewrite Z.div_mul by lia.
  split_and!; done.
Qed.

Lemma fb_setup_reads_name_witness :
  exists r name, text video_fmt [VInt 8; VInt 8; VInt 32] = Ok (r, name) /\
    exists f, fb_setup (name ++ [0]) 256 (replicate 256 7) = Ok (Some f) /\
      f_width f = 8 /\ f_height f = 8 /\ f_pitch f = 32 /\ fb_wf f.
Proof. apply (fb_setup_reads_name 8 8 32 (replicate 256 7) []); [lia|lia|lia|reflexivity]. Defined.

(** A wide rectangle is flushed in one write, which ends in the last row at the
    column [y2] instead of [x2]: what is to the right of it stays out. *)
Lemma flush_combined_cuts d f low data :
  fb_wf f -> rect_wf f d -> y2 d < x2 d -> flush_combined d f = Ok [(low, data)] ->
  low = addr f (x1 d) (y1 d) /\
  low + Z.of_nat (length data) = addr f (y2 d) (y2 d) + 4 /\
  low + Z.of_nat (length data) <= addr f (x2 d) (y2 d).
Proof.
  intros Hf (Hx&Hx2&Hy&Hy2) Hlt H. unfold flush_combined in H.
  assert (O1 : on_screen f (x1 d) (y1 d)) by (unfold on_screen; lia).
  assert (O2 : on_screen f (y2 d) (y2 d)) by (unfold on_screen; lia).
  destruct (addr_range f _ _ Hf O1) as [A0 A1]. destruct (addr_range f _ _ Hf O2) as [B0 B1].
  rewrite (addr_u64 f _ _ Hf O1) in H. pose proof Hf as [[Hw Hh] [_ Hp] Hl Hb].
  assert (f_pitch f * f_height f <= 2 ^ 28 * 2 ^ 24) by (apply Z.mul_le_mono_nonneg; lia).
  rewrite (u32_small (4 * y2 d)) in H by lia.
  assert (u64 (f_pitch f * y2 d + 4 * y2 d + 4) = addr f (y2 d) (y2 d) + 4) as E.
  { apply u64_small. unfold is_size, addr in *. lia. }
  rewrite E in H. unfold bload in H. destruct (_ && _) eqn:Ec; [|done].
  zbool. injection H as <- <-. rewrite length_take, length_drop.
  pose proof (u64_range (addr f (y2 d) (y2 d) + 4 - addr f (x1 d) (y1 d))) as Hr. unfold is_size in Hr.
  assert (addr f (x1 d) (y1 d) <= addr f (y2 d) (y2 d) + 4).
  { destruct (decide (addr f (x1 d) (y1 d) <= addr f (y2 d) (y2 d) + 4)); [done|].
    unfold u64 in *. rewrite <- (Z.mod_unique (addr f (y2 d) (y2 d) + 4 - addr f (x1 d) (y1 d)) (2 ^ 64) (-1)
      (addr f (y2 d) (y2 d) + 4 - addr f (x1 d) (y1 d) + 2 ^ 64)) in * by (try left; lia). lia. }
  rewrite u64_small in * by (unfold is_size; lia).
  split_and!; [done|lia|]. unfold addr in *. lia.
Qed.
