(* ===== verification/Vterm.v ===== *)
(** * Vterm

    The terminal emulator ([src/src/cmd/vterm]): it draws the characters it is
    sent into a copy of the screen with the glyphs of a font, scrolls, and
    flushes what has changed.  An abstract screen of character cells says what
    is to be seen. *)

From S2P Require Import Prelude Mem KState UserFs Buf Draw.

(** ** Fonts ([font.c]) *)

Record psf2 := mkPsf {
  glyph_offset : Z;
  glyph_amt : Z;
  glyph_size : Z;
  g_h : Z; g_w : Z;
}.

Definition le_value (l : list Z) : Z := foldr (fun b a => b + 256 * a) 0 l.

Definition word_at (buf : list Z) (off : Z) : res Z := w ← bload buf off 4; Ok (le_value w).

Definition PSF2_MAGIC : list Z := [0x72; 0xb5; 0x4a; 0x86].
Definition PSF1_MAGIC : list Z := [0x36; 0x04].

(** The part of [font_load] behind reading the file: the header and the data
    behind it, or [None] where the program gives up. *)
Definition font_load (buf : list Z) : res (option (psf2 * list Z)) :=
  m ← bload buf 0 4;
  if bool_decide (m = PSF2_MAGIC) then
    _ ← bload buf 0 32;
    off ← word_at buf 8;
    amt ← word_at buf 16;
    size ← word_at buf 20;
    h ← word_at buf 24;
    w ← word_at buf 28;
    Ok (Some (mkPsf off amt size h w, drop (Z.to_nat off) buf))
  else if bool_decide (take 2 m = PSF1_MAGIC) then
    h ← bget buf 3;
    Ok (Some (mkPsf 0 256 h h 8, drop 4 buf))
  else Ok None.

(** ** The terminal *)

Record vterm := mkVt {
  fb : framebuf;
  font : psf2;
  font_data : list Z;
  cur_x : Z; cur_y : Z;         (* uint32_t *)
  dirty : rect;
}.
#[export] Instance vterm_settable : Settable vterm := fun v =>
  mkVt (fb v) (font v) (font_data v) (cur_x v) (cur_y v) (dirty v).

(** A pixel of a glyph: the bit of [bitmap], bit 7 of a byte first. *)
Definition glyph_bit (data : list Z) (base idx : Z) : res Z :=
  byte ← bget data (base + idx / 8);
  Ok (Z.land (Z.shiftr (schar byte) (7 - Z.land idx 7)) 1).

Definition blit_pixel (f : psf2) (data : list Z) (base x y : Z) (i j : Z) (fb : framebuf) :
    res framebuf :=
  bit ← glyph_bit data base (j * g_w f + i);
  b ← bstore (f_b fb) (u64 (f_pitch fb * (u32 (y * g_h f) + j) + 4 * (u32 (x * g_w f) + i)))
        (le_bytes 4 (bit * 0xB0B0B0));
  Ok (fb <| f_b := b |>).

Definition font_blit (glyph x y : Z) (v : vterm) : res vterm :=
  let f := font v in
  let glyph := if glyph_amt f <=? glyph then 0 else glyph in
  let x := s32 x in
  let y := s32 y in
  if (x <? 0) || (f_width (fb v) <=? u32 ((x + 1) * g_w f)) ||
     (y <? 0) || (f_height (fb v) <=? u32 ((y + 1) * g_h f)) then Ok v
  else
    let d := dirty_mark (dirty v) (u32 (x * g_w f)) (u32 (y * g_h f)) in
    let d := dirty_mark d (u32 ((x + 1) * g_w f - 1)) (u32 ((y + 1) * g_h f - 1)) in
    let base := u32 (glyph_size f * glyph) in
    fb' ← for_from (fun i fb =>
            for_from (fun j fb => blit_pixel f (font_data v) base x y i j fb)
              0 (Z.to_nat (g_h f)) fb) 0 (Z.to_nat (g_w f)) (fb v);
    Ok (v <| dirty := d |> <| fb := fb' |>).

(** [memmove] up by a row of text; the row at the bottom is cleared. *)
Definition scroll (v : vterm) : res vterm :=
  let f := fb v in
  let row_len := u64 (f_pitch f * g_h (font v)) in
  up ← bload (f_b f) row_len (u64 (f_len f - row_len));
  b ← bstore (f_b f) 0 up;
  b ← bstore b (u64 (f_len f - row_len)) (replicate (Z.to_nat row_len) 0);
  Ok (v <| fb := f <| f_b := b |> |> <| cur_y := u32 (cur_y v - 1) |>
        <| dirty := mkRect 0 0 UINT32_MAX UINT32_MAX |>).

(** [while ((cursor.y + 1) * font.h >= fb.height) scroll();] a turn brings the
    cursor up by one. *)
Fixpoint scroll_loop (fuel : nat) (v : vterm) : res vterm :=
  if f_height (fb v) <=? u32 (u32 (cur_y v + 1) * g_h (font v)) then
    match fuel with
    | O => Err OutOfFuel
    | S n => v ← scroll v; scroll_loop n v
    end
  else Ok v.

Definition in_char (c : Z) (v : vterm) : res vterm :=
  v ← (if c =? 10 then Ok (v <| cur_x := 0 |> <| cur_y := u32 (cur_y v + 1) |>)
       else if c =? 8 then Ok (if 0 <? cur_x v then v <| cur_x := cur_x v - 1 |> else v)
       else if c =? 9 then Ok (v <| cur_x := u32 (Z.land (cur_x v) (Z.lnot 7) + 8) |>)
       else
         v ← font_blit (u32 (schar c)) (cur_x v) (cur_y v) v;
         Ok (v <| cur_x := u32 (cur_x v + 1) |>));
  let v := if f_width (fb v) <=? u32 (cur_x v * g_w (font v))
           then v <| cur_x := 0 |> <| cur_y := u32 (cur_y v + 1) |> else v in
  scroll_loop (S (Z.to_nat (cur_y v))) v.

(** A write request: its characters, then the flush.  The other requests are
    answered without an effect. *)
Definition vterm_write (buf : list Z) (v : vterm) : res (vterm * list (Z * list Z)) :=
  v ← each in_char buf v;
  '(d, out) ← dirty_flush (dirty v) (fb v);
  Ok (v <| dirty := d |>, out).

Definition vterm_request (buf : list Z) (q : ufs_request) (v : vterm) :
    res (vterm * list (Z * list Z) * Z) :=
  match q_op q with
  | VFSOP_OPEN => Ok (v, [], 0)
  | VFSOP_WRITE =>
      if negb (q_flags q =? 0) then Ok (v, [], -1)
      else
        data ← bload buf 0 (q_len q);
        '(v, out) ← vterm_write data v;
        Ok (v, out, q_len q)
  | _ => Ok (v, [], -1)
  end.

(** ** The screen it shows *)

Record screen := mkScreen {
  cells : Z -> Z -> option Z;   (* column and row; the glyph there *)
  sx : Z; sy : Z;
}.

Section screen.
Context (width height w h amt : Z).

(** Glyphs are drawn in the columns below [cols] and the rows below [rows]. *)
Definition cols : Z := (width - 1) / w.
Definition rows : Z := (height - 1) / h.

Definition glyph_of (c : Z) : Z :=
  if (c <? 128) && (c <? amt) then c else 0.

(** The cursor also stands in column [cols], where nothing is drawn. *)
Definition put_glyph (c : Z) (s : screen) : screen :=
  if sx s <? cols then
    mkScreen (fun x y => if (x =? sx s) && (y =? sy s) then Some (glyph_of c) else cells s x y)
      (sx s + 1) (sy s)
  else mkScreen (cells s) (sx s + 1) (sy s).

Definition newline (s : screen) : screen := mkScreen (cells s) 0 (sy s + 1).

Definition wrap_line (s : screen) : screen := if cols <? sx s then newline s else s.

Definition scroll_up (s : screen) : screen :=
  if rows <=? sy s then mkScreen (fun x y => cells s x (y + 1)) (sx s) (sy s - 1) else s.

Definition type_char (c : Z) (s : screen) : screen :=
  scroll_up (wrap_line
    (if c =? 10 then newline s
     else if c =? 8 then mkScreen (cells s) (if 0 <? sx s then sx s - 1 else sx s) (sy s)
     else if c =? 9 then mkScreen (cells s) (sx s / 8 * 8 + 8) (sy s)
     else put_glyph c s)).
End screen.

Definition blank : screen := mkScreen (fun _ _ => None) 0 0.

(** ** Drawing a glyph *)

(** A pixel of the glyph [g]: white or black. *)
Definition ink (f : psf2) (data : list Z) (g i j : Z) : list Z :=
  let idx := j * g_w f + i in
  let byte := default 0 (data !! Z.to_nat (glyph_size f * g + idx / 8)) in
  le_bytes 4 (Z.b2z (Z.testbit byte (7 - idx mod 8)) * 0xB0B0B0).

Record font_wf (f : psf2) (data : list Z) : Prop := {
  fw_cell : 0 < g_w f /\ 0 < g_h f;
  fw_amt : 0 < glyph_amt f <= 2 ^ 24;
  fw_size : g_w f * g_h f <= 8 * glyph_size f /\ glyph_size f < 2 ^ 32;
  fw_data : glyph_amt f * glyph_size f <= Z.of_nat (length data) < 2 ^ 32;
  fw_bytes : Forall is_byte data;
}.

(** The screen holds more than one cell in each direction. *)
Record vterm_wf (v : vterm) : Prop := {
  vw_fb : fb_wf (fb v);
  vw_font : font_wf (font v) (font_data v);
  vw_fits : g_w (font v) < f_width (fb v) /\ g_h (font v) < f_height (fb v);
}.

Lemma schar_bit b k : is_byte b -> 0 <= k < 8 -> Z.land (Z.shiftr (schar b) k) 1 = Z.b2z (Z.testbit b k).
Proof.
  intros Hb Hk. change 1 with (Z.ones 1) at 1. rewrite Z.land_ones, Z.pow_1_r by lia.
  rewrite <- Z.bit0_mod, Z.shiftr_spec, Z.add_0_l by lia. f_equal.
  rewrite <- (Z.mod_pow2_bits_low (schar b) 8 k) by lia. f_equal.
  unfold schar. change (2 ^ 8) with 256. unfold is_byte in Hb. Z.div_mod_to_equations. lia.
Qed.

Section blit.
Context (f : psf2) (data : list Z) (Hfont : font_wf f data).

Lemma idx_range g i j :
  0 <= g < glyph_amt f -> 0 <= i < g_w f -> 0 <= j < g_h f ->
  0 <= (j * g_w f + i) / 8 < glyph_size f /\
  0 <= glyph_size f * g + (j * g_w f + i) / 8 < Z.of_nat (length data).
Proof.
  intros Hg Hi Hj. destruct Hfont as [[Hw Hh] Ha [Hs Hs2] [Hd _] _].
  assert (0 <= j * g_w f + i < g_w f * g_h f) as Hidx.
  { assert (j * g_w f <= (g_h f - 1) * g_w f) by (apply Z.mul_le_mono_nonneg_r; lia).
    assert (0 <= j * g_w f) by (apply Z.mul_nonneg_nonneg; lia). lia. }
  assert (0 <= (j * g_w f + i) / 8 < glyph_size f) as Hq.
  { split; [apply Z.div_pos; lia|apply Z.div_lt_upper_bound; lia]. }
  split; [done|].
  assert (glyph_size f * g <= glyph_size f * (glyph_amt f - 1)) by (apply Z.mul_le_mono_nonneg_l; lia).
  assert (0 <= glyph_size f * g) by (apply Z.mul_nonneg_nonneg; lia). lia.
Qed.

Lemma base_u32 g : 0 <= g < glyph_amt f -> u32 (glyph_size f * g) = glyph_size f * g.
Proof.
  intros Hg. destruct Hfont as [_ Ha [_ Hs2] [Hd Hd2] _].
  destruct (idx_range g 0 0) as [Hi _]; [done|destruct Hfont; lia..|].
  apply u32_small. assert (glyph_size f * g <= glyph_size f * glyph_amt f) by (apply Z.mul_le_mono_nonneg_l; lia).
  assert (0 <= glyph_size f * g) by (apply Z.mul_nonneg_nonneg; lia). lia.
Qed.

Lemma glyph_bit_spec g i j :
  0 <= g < glyph_amt f -> 0 <= i < g_w f -> 0 <= j < g_h f ->
  exists bit, glyph_bit data (u32 (glyph_size f * g)) (j * g_w f + i) = Ok bit /\
    le_bytes 4 (bit * 0xB0B0B0) = ink f data g i j.
Proof.
  intros Hg Hi Hj. destruct (idx_range g i j Hg Hi Hj) as [Hq Hr]. rewrite base_u32 by done.
  unfold glyph_bit. destruct (bget_in data _ Hr) as (b&->&Hb). cbn [mbind res_bind].
  eexists. split; [reflexivity|]. unfold ink. rewrite Hb. cbn [default].
  change 7 with (Z.ones 3) at 2. rewrite Z.land_ones by lia. change (2 ^ 3) with 8.
  assert (is_byte b) by exact (Forall_lookup_1 _ _ _ _ (fw_bytes _ _ Hfont) Hb).
  rewrite schar_bit; [done|done|]. pose proof (Z.mod_pos_bound (j * g_w f + i) 8). lia.
Qed.

Context (v0 : framebuf) (x y g : Z).
Context (Hv0 : fb_wf v0) (Hx : 0 <= x) (Hy : 0 <= y) (Hg : 0 <= g < glyph_amt f).
Context (Hxw : (x + 1) * g_w f < f_width v0) (Hyh : (y + 1) * g_h f < f_height v0).

(** The pixels [i], [j] of the cell with [P i j] are drawn. *)
Definition drawn (P : Z -> Z -> bool) (fb : framebuf) : Prop :=
  exists b, fb = v0 <| f_b := b |> /\ fb_wf fb /\
  forall X Y, on_screen v0 X Y ->
    pixel fb X Y =
    if bool_decide (0 <= X - x * g_w f < g_w f /\ 0 <= Y - y * g_h f < g_h f) &&
       P (X - x * g_w f) (Y - y * g_h f)
    then ink f data g (X - x * g_w f) (Y - y * g_h f) else pixel v0 X Y.

Lemma drawn_ext P P' fb :
  (forall i j, 0 <= i < g_w f -> 0 <= j < g_h f -> P i j = P' i j) -> drawn P fb -> drawn P' fb.
Proof.
  intros HP (b&->&Hwf&Hpx). exists b. split; [done|]. split; [done|]. intros X Y Hon.
  rewrite Hpx by done. case_bool_decide as Hc; [|done]. cbn [andb]. by rewrite HP by lia.
Qed.

Lemma blit_pixel_spec P i j fb :
  0 <= i < g_w f -> 0 <= j < g_h f -> drawn P fb ->
  exists fb', blit_pixel f data (u32 (glyph_size f * g)) x y i j fb = Ok fb' /\
    drawn (fun i' j' => (i' =? i) && (j' =? j) || P i' j') fb'.
Proof.
  intros Hi Hj (b&->&Hwf&Hpx). unfold blit_pixel.
  destruct (glyph_bit_spec g i j Hg Hi Hj) as (bit&->&Hink). cbn [mbind res_bind].
  set (X0 := x * g_w f + i). set (Y0 := y * g_h f + j).
  assert (0 <= x * g_w f /\ 0 <= y * g_h f) as [Hxp Hyp] by (split; apply Z.mul_nonneg_nonneg; lia).
  assert (Hon0 : on_screen v0 X0 Y0) by (unfold on_screen, X0, Y0; lia).
  pose proof (wf_size _ Hv0) as [[_ Hw24] [_ Hh24]].
  destruct (addr_range v0 X0 Y0 Hv0 Hon0) as [A0 A1].
  pose proof (addr_u64 v0 X0 Y0 Hv0 Hon0) as Eu. rewrite (u32_small (4 * X0)) in Eu by (unfold X0; lia).
  rewrite (u32_small (y * g_h f)), (u32_small (x * g_w f)) by lia.
  cbn [f_b f_pitch set framebuf_settable]. fold X0 Y0. rewrite Eu.
  destruct (pixel_store (v0 <| f_b := b |>) X0 Y0 (ink f data g i j) Hwf Hon0) as (b'&Eb&Hwf'&Hpx'); [done|].
  change (addr (v0 <| f_b := b |>) X0 Y0) with (addr v0 X0 Y0) in Eb. cbn [f_b set framebuf_settable] in Eb.
  rewrite Hink, Eb. cbn [mbind res_bind]. eexists. split; [reflexivity|]. exists b'. split; [done|].
  split; [exact Hwf'|]. intros X Y Hon. etrans; [exact (Hpx' X Y Hon)|]. rewrite Hpx by done.
  destruct (decide ((X0, Y0) = (X, Y))) as [[= <- <-]|Hne].
  - unfold X0, Y0. replace (x * g_w f + i - x * g_w f) with i by lia.
    replace (y * g_h f + j - y * g_h f) with j by lia.
    rewrite bool_decide_eq_true_2 by lia. by rewrite !Z.eqb_refl.
  - case_bool_decide; [|done]. cbn [andb].
    assert ((X - x * g_w f =? i) && (Y - y * g_h f =? j) = false) as ->; [|done].
    apply andb_false_iff. destruct (decide (X = X0)) as [->|].
    + right. apply Z.eqb_neq. intros E. apply Hne. f_equal. unfold Y0. lia.
    + left. apply Z.eqb_neq. unfold X0 in *. lia.
Qed.

Lemma blit_loops :
  exists fb', for_from (fun i fb =>
      for_from (fun j fb => blit_pixel f data (u32 (glyph_size f * g)) x y i j fb)
        0 (Z.to_nat (g_h f)) fb) 0 (Z.to_nat (g_w f)) v0 = Ok fb' /\ drawn (fun _ _ => true) fb'.
Proof.
  pose proof (fw_cell _ _ Hfont) as [Hw Hh].
  destruct (for_from_rule (fun i fb =>
      for_from (fun j fb => blit_pixel f data (u32 (glyph_size f * g)) x y i j fb)
        0 (Z.to_nat (g_h f)) fb) (fun i => drawn (fun i' _ => i' <? i)) (Z.to_nat (g_w f)) 0 v0)
    as (fb'&E&H).
  - intros i fb Hi H. rewrite Z2Nat.id in Hi by lia.
    destruct (for_from_rule (fun j fb => blit_pixel f data (u32 (glyph_size f * g)) x y i j fb)
      (fun j => drawn (fun i' j' => (i' <? i) || (i' =? i) && (j' <? j))) (Z.to_nat (g_h f)) 0 fb)
      as (fb'&E&H').
    + intros j fb1 Hj H1. rewrite Z2Nat.id in Hj by lia.
      destruct (blit_pixel_spec _ i j fb1 ltac:(lia) ltac:(lia) H1) as (fb2&E2&H2).
      exists fb2. split; [done|]. eapply drawn_ext; [|exact H2]. intros i' j' _ _. cbn.
      destruct (i' =? i) eqn:?, (j' =? j) eqn:?, (i' <? i) eqn:?, (j' <? j) eqn:?, (j' <? j + 1) eqn:?;
        zbool; try done; lia.
    + eapply drawn_ext; [|exact H]. intros i' j' _ Hj. cbn.
      destruct (j' <? 0) eqn:?; zbool; [lia|]. by rewrite andb_false_r, orb_false_r.
    + exists fb'. split; [done|]. eapply drawn_ext; [|exact H']. intros i' j' _ Hj. cbn.
      rewrite Z2Nat.id by lia. destruct (j' <? g_h f) eqn:?; zbool; [|lia].
      destruct (i' <? i) eqn:?, (i' =? i) eqn:?, (i' <? i + 1) eqn:?; zbool; try done; lia.
  - exists (f_b v0). split; [by destruct v0|]. split; [done|]. intros X Y Hon.
    case_bool_decide; [|done]. cbn [andb]. by rewrite (proj2 (Z.ltb_ge _ _)) by lia.
  - exists fb'. split; [done|]. eapply drawn_ext; [|exact H]. intros i j Hi _. cbn.
    rewrite Z2Nat.id by lia. apply Z.ltb_lt. lia.
Qed.
End blit.

(** ** What is to be seen *)

(** The pixel of a screen of cells. *)
Definition look (f : psf2) (data : list Z) (cl : Z -> Z -> option Z) (X Y : Z) : list Z :=
  match cl (X / g_w f) (Y / g_h f) with
  | Some g => ink f data g (X mod g_w f) (Y mod g_h f)
  | None => [0; 0; 0; 0]
  end.

Definition vcols (v : vterm) : Z := cols (f_width (fb v)) (g_w (font v)).
Definition vrows (v : vterm) : Z := rows (f_height (fb v)) (g_h (font v)).

Record paints (cl : Z -> Z -> option Z) (v : vterm) : Prop := {
  pt_wf : vterm_wf v;
  pt_cells : forall x y g, cl x y = Some g ->
    x < vcols v /\ y < vrows v /\ 0 <= g < glyph_amt (font v);
  pt_px : forall X Y, on_screen (fb v) X Y ->
    pixel (fb v) X Y = look (font v) (font_data v) cl X Y;
  pt_dirty : 0 <= x1 (dirty v) /\ 0 <= y1 (dirty v) /\
    x2 (dirty v) <= UINT32_MAX /\ y2 (dirty v) <= UINT32_MAX;
}.

(** Only the contents of the buffer, the cursor and the mark change, and what
    changes is marked. *)
Record touches (v v' : vterm) : Prop := {
  tc_font : font v' = font v /\ font_data v' = font_data v;
  tc_geo : exists b, fb v' = fb v <| f_b := b |>;
  tc_dirty : rect_le (dirty v) (dirty v');
  tc_px : forall X Y, on_screen (fb v) X Y ->
    pixel (fb v') X Y <> pixel (fb v) X Y -> covered (dirty v') X Y;
}.

#[export] Instance touches_preorder : PreOrder touches.
Proof.
  split.
  - intros v. split; [done|exists (f_b (fb v)); by destruct v as [[]]|reflexivity|done].
  - intros v1 v2 v3 [[F1 D1] [b1 G1] R1 P1] [[F2 D2] [b2 G2] R2 P2]. split.
    + split; congruence.
    + exists b2. rewrite G2, G1. done.
    + by etrans.
    + intros X Y Hon Hne. destruct (decide (pixel (fb v2) X Y = pixel (fb v1) X Y)) as [E|E].
      * apply P2; [rewrite G1; exact Hon|congruence].
      * eapply covered_le; [exact R2|by apply P1].
Qed.

Lemma touches_cursor v x y : touches v (v <| cur_x := x |> <| cur_y := y |>).
Proof. split; [done|exists (f_b (fb v)); by destruct v as [[]]|reflexivity|done]. Qed.

Lemma paints_cursor cl v x y : paints cl v -> paints cl (v <| cur_x := x |> <| cur_y := y |>).
Proof. intros [[? ? ?] ? ? ?]. split; [by split|done..]. Qed.

Lemma touches_geo v v' :
  touches v v' -> vcols v' = vcols v /\ vrows v' = vrows v /\ f_width (fb v') = f_width (fb v) /\
    f_height (fb v') = f_height (fb v).
Proof. intros [[F _] [b G] _ _]. unfold vcols, vrows. by rewrite F, G. Qed.

(** *** Cells *)

Lemma lt_cells x W w : 0 < w -> x < (W - 1) / w <-> (x + 1) * w < W.
Proof.
  intros Hw. split; intros H.
  - assert (x + 1 <= (W - 1) / w) by lia.
    assert ((x + 1) * w <= (W - 1) / w * w) by (apply Z.mul_le_mono_nonneg_r; lia).
    pose proof (Z.mul_div_le (W - 1) w Hw). lia.
  - assert (x + 1 <= (W - 1) / w); [|lia]. apply Z.div_le_lower_bound; lia.
Qed.

Lemma cell_of X x w : 0 < w -> 0 <= X - x * w < w <-> X / w = x.
Proof.
  intros Hw. pose proof (Z.div_mod X w ltac:(lia)) as E. pose proof (Z.mod_pos_bound X w Hw).
  split; [|intros <-; lia]. intros H1. symmetry. apply (Z.div_unique X w x (X - x * w)); lia.
Qed.

Lemma cell_mod X w : 0 < w -> X - X / w * w = X mod w.
Proof. intros Hw. rewrite Z.mod_eq by lia. lia. Qed.

Lemma cols_bound v :
  vterm_wf v -> 0 < vcols v < 2 ^ 24 /\ 0 < vrows v < 2 ^ 24 /\
    0 <= vcols v * g_w (font v) < f_width (fb v) /\ 0 <= vrows v * g_h (font v) < f_height (fb v).
Proof.
  intros [[[Hw Hh] _ _ _] [[Hcw Hch] _ _ _ _] [Fw Fh]]. unfold vcols, vrows, cols, rows.
  assert (H : forall W w, 0 < w < W -> W < 2 ^ 24 -> 0 < (W - 1) / w < 2 ^ 24 /\ 0 <= (W - 1) / w * w < W).
  { intros W w Hwr HW. pose proof (Z.mul_div_le (W - 1) w ltac:(lia)).
    assert (1 <= (W - 1) / w) by (apply Z.div_le_lower_bound; lia).
    assert ((W - 1) / w <= W - 1) by (apply Z.div_le_upper_bound; nia). nia. }
  destruct (H (f_width (fb v)) (g_w (font v))) as [? ?]; [lia..|].
  destruct (H (f_height (fb v)) (g_h (font v))) as [? ?]; [lia..|]. done.
Qed.

Definition with_glyph (cl : Z -> Z -> option Z) (x0 y0 g : Z) : Z -> Z -> option Z :=
  fun x y => if (x =? x0) && (y =? y0) then Some g else cl x y.

Definition glyph_for (v : vterm) (c : Z) : Z := glyph_of (glyph_amt (font v)) c.

Lemma glyph_for_range v c : vterm_wf v -> 0 <= c -> 0 <= glyph_for v c < glyph_amt (font v).
Proof.
  intros [_ [_ [Ha _] _ _ _] _] Hc. unfold glyph_for, glyph_of. case_match eqn:E; zbool; lia.
Qed.

(** The glyph index of a character: negative ones are out of range. *)
Lemma glyph_index v c :
  vterm_wf v -> is_byte c ->
  (if glyph_amt (font v) <=? u32 (schar c) then 0 else u32 (schar c)) = glyph_for v c.
Proof.
  intros [_ [_ [_ Ha] _ _ _] _] Hc. unfold glyph_for, glyph_of. unfold is_byte in Hc.
  destruct (decide (c < 128)).
  - assert (u32 (schar c) = c) as -> by (unfold schar; rewrite Z.mod_small by lia; word_lia).
    rewrite (proj2 (Z.ltb_lt c 128)) by lia. cbn [andb].
    destruct (glyph_amt (font v) <=? c) eqn:E1, (c <? glyph_amt (font v)) eqn:E2; zbool; try lia; done.
  - assert (u32 (schar c) = 2 ^ 32 + c - 256) as ->.
    { unfold schar. assert ((c + 128) mod 256 = c - 128) as -> by (Z.div_mod_to_equations; lia). word_lia. }
    rewrite (proj2 (Z.ltb_ge c 128)) by lia. rewrite (proj2 (Z.leb_le _ _)) by lia. done.
Qed.

(** *** The steps of a character *)

Lemma blit_paints cl c v :
  paints cl v -> is_byte c -> 0 <= cur_x v <= vcols v -> 0 <= cur_y v < vrows v ->
  exists v', font_blit (u32 (schar c)) (cur_x v) (cur_y v) v = Ok v' /\ touches v v' /\
    cur_x v' = cur_x v /\ cur_y v' = cur_y v /\
    paints (if cur_x v <? vcols v then with_glyph cl (cur_x v) (cur_y v) (glyph_for v c) else cl) v'.
Proof.
  intros Hp Hc Hx Hy. pose proof Hp as [Hwf Hcl Hpx Hd]. pose proof Hwf as [Hfb Hfont Hfit].
  pose proof (cols_bound v Hwf) as (Hcb&Hrb&Hcw&Hrh). pose proof (fw_cell _ _ Hfont) as [Hw Hh].
  pose proof (wf_size _ Hfb) as [[_ HW] [_ HH]].
  unfold font_blit. rewrite (glyph_index v c Hwf Hc). rewrite !s32_small by lia.
  rewrite (proj2 (Z.ltb_ge (cur_x v) 0)), (proj2 (Z.ltb_ge (cur_y v) 0)) by lia. cbn [orb].
  rewrite !(u32_small ((_ + 1) * _)) by nia.
  assert (Hyh : (cur_y v + 1) * g_h (font v) < f_height (fb v)) by (apply lt_cells; [lia|apply Hy]).
  rewrite (proj2 (Z.leb_gt (f_height (fb v)) _)) by lia. rewrite orb_false_r.
  destruct (cur_x v <? vcols v) eqn:Ec; zbool.
  2:{ rewrite (proj2 (Z.leb_le _ _)).
      - exists v. by split_and!.
      - destruct (decide (f_width (fb v) <= (cur_x v + 1) * g_w (font v))); [done|].
        assert (cur_x v < vcols v) by (apply lt_cells; lia). lia. }
  assert (Hxw : (cur_x v + 1) * g_w (font v) < f_width (fb v)) by (apply lt_cells; [lia|done]).
  rewrite (proj2 (Z.leb_gt _ _)) by lia.
  pose proof (glyph_for_range v c Hwf ltac:(unfold is_byte in Hc; lia)) as Hg.
  destruct (blit_loops (font v) (font_data v) Hfont (fb v) (cur_x v) (cur_y v) (glyph_for v c) Hfb
    ltac:(lia) ltac:(lia) Hg Hxw Hyh) as (fb'&E&b&->&Hwf'&Hpx'). rewrite E. cbn [mbind res_bind].
  rewrite (u32_small (cur_x v * _)), (u32_small (cur_y v * _)), (u32_small (_ - 1)), (u32_small (_ - 1)) by nia.
  set (d := dirty_mark (dirty_mark _ _ _) _ _).
  assert (Hcell : forall X Y, bool_decide (0 <= X - cur_x v * g_w (font v) < g_w (font v) /\
      0 <= Y - cur_y v * g_h (font v) < g_h (font v)) = (X / g_w (font v) =? cur_x v) && (Y / g_h (font v) =? cur_y v)).
  { intros X Y. apply eq_true_iff_eq. rewrite bool_decide_eq_true, andb_true_iff, !Z.eqb_eq.
    by rewrite <- !cell_of by lia. }
  eexists. split; [reflexivity|]. split_and!; [|done|done|].
  - split; [done|by exists b| |].
    + unfold d. etrans; apply dirty_mark_le.
    + intros X Y Hon Hne. cbn in Hne. rewrite Hpx' in Hne by done.
      destruct (bool_decide _) eqn:Eb; [|done]. apply bool_decide_eq_true in Eb.
      cbn. apply covered_corners; lia.
  - split.
    + by split.
    + unfold with_glyph. intros x y g. case_match eqn:Exy; [|apply Hcl]. zbool. intros [= <-].
      change (x < vcols v /\ y < vrows v /\ 0 <= glyph_for v c < glyph_amt (font v)). lia.
    + intros X Y Hon. cbn. etrans; [by apply Hpx'|]. rewrite Hcell, andb_true_r. unfold look, with_glyph.
      case_match eqn:Exy; [|by apply Hpx]. zbool. subst.
      rewrite <- !cell_mod by lia. congruence.
    + cbn. unfold d. rewrite !dirty_mark_spec. cbn. unfold UINT32_MAX in *. nia.
Qed.

Lemma scroll_bytes (b : list Z) (n : nat) z :
  (n <= length b)%nat -> length z = n ->
  splice (length b - n) z (splice 0 (drop n b) b) = drop n b ++ z.
Proof.
  intros Hn Hz. unfold splice. change (take 0 b) with (@nil Z). cbn [app]. rewrite Nat.add_0_l.
  assert (Ld : length (drop n b) = (length b - n)%nat) by apply length_drop.
  set (up := drop n b) in *. rewrite take_app_length' by done.
  rewrite (drop_ge (up ++ _)); [by rewrite app_nil_r|].
  rewrite length_app, length_drop. lia.
Qed.

Lemma scroll_spec v :
  vterm_wf v ->
  let row := Z.to_nat (f_pitch (fb v) * g_h (font v)) in
  scroll v = Ok (v <| fb := fb v <| f_b := drop row (f_b (fb v)) ++ replicate row 0 |> |>
                   <| cur_y := u32 (cur_y v - 1) |> <| dirty := mkRect 0 0 UINT32_MAX UINT32_MAX |>) /\
  0 <= f_pitch (fb v) * g_h (font v) <= f_len (fb v).
Proof.
  intros [[[Hw Hh] [Hp1 Hp2] Hl Hb] [[Hcw Hch] _ _ _ _] [Fw Fh]] row.
  set (n := f_pitch (fb v) * g_h (font v)) in *.
  assert (Hn : 0 <= n <= f_len (fb v)).
  { rewrite Hl. unfold n. split; [apply Z.mul_nonneg_nonneg; lia|apply Z.mul_le_mono_nonneg_l; lia]. }
  split; [|done].
  assert (f_len (fb v) <= 2 ^ 28 * 2 ^ 24) by (rewrite Hl; apply Z.mul_le_mono_nonneg; lia).
  unfold scroll. fold n. rewrite (u64_small n), (u64_small (f_len (fb v) - n)) by (unfold is_size; lia).
  rewrite bload_in by lia. cbn [mbind res_bind].
  assert (take (Z.to_nat (f_len (fb v) - n)) (drop (Z.to_nat n) (f_b (fb v))) = drop row (f_b (fb v))) as ->.
  { apply take_ge. rewrite length_drop. lia. }
  assert (Ld : length (drop row (f_b (fb v))) = Z.to_nat (f_len (fb v) - n)).
  { rewrite length_drop. unfold row. lia. }
  rewrite bstore_in by lia. cbn [mbind res_bind].
  rewrite bstore_in by (rewrite ?length_splice, ?length_replicate; lia). cbn [mbind res_bind].
  replace (Z.to_nat (f_len (fb v) - n)) with (length (f_b (fb v)) - row)%nat by (unfold row; lia).
  rewrite scroll_bytes; [done|unfold row; lia|by rewrite length_replicate].
Qed.

Lemma scroll_paints cl v :
  paints cl v -> 0 < cur_y v < 2 ^ 31 ->
  exists v', scroll v = Ok v' /\ touches v v' /\ cur_x v' = cur_x v /\ cur_y v' = cur_y v - 1 /\
    paints (fun x y => cl x (y + 1)) v'.
Proof.
  intros Hp Hy. pose proof Hp as [Hwf Hcl Hpx Hd]. pose proof Hwf as [Hfb Hfont [Fw Fh]].
  destruct (scroll_spec v Hwf) as [Es Hn]. eexists. split; [exact Es|].
  set (n := f_pitch (fb v) * g_h (font v)) in *. pose proof Hfb as [[Hw Hh] [Hp1 Hp2] Hl Hb].
  pose proof (fw_cell _ _ Hfont) as [Hcw Hch]. pose proof (cols_bound v Hwf) as (_&_&_&Hrows).
  assert (Hwf' : fb_wf (fb v <| f_b := drop (Z.to_nat n) (f_b (fb v)) ++ replicate (Z.to_nat n) 0 |>)).
  { split; try done. cbn. rewrite length_app, length_drop, length_replicate. lia. }
  split_and!; [|done|cbn; by rewrite u32_small by lia|].
  - split; [done|by eexists| |].
    + cbn. unfold rect_le. cbn. lia.
    + intros X Y [Hx HY] _. cbn. unfold covered, UINT32_MAX. cbn. lia.
  - split; [by split| |..].
    + intros x y g Hg. specialize (Hcl _ _ _ Hg). change (vcols (_ <| dirty := _ |>)) with (vcols v).
      change (vrows (_ <| dirty := _ |>)) with (vrows v). cbn. lia.
    + intros X Y Hon. change (on_screen (fb v) X Y) in Hon.
      destruct (addr_range _ X Y Hfb Hon) as [A0 A1]. pose proof Hon as [HX HY].
      cbn. unfold pixel. cbn. change (addr (_ <| f_b := _ |>) X Y) with (addr (fb v) X Y).
      destruct (decide (Y + g_h (font v) < f_height (fb v))) as [Hin|Hout].
      * assert (Ea : addr (fb v) X (Y + g_h (font v)) = addr (fb v) X Y + n) by (unfold addr, n; lia).
        destruct (addr_range _ X (Y + g_h (font v)) Hfb) as [_ B1]; [unfold on_screen; lia|].
        assert (look (font v) (font_data v) (fun x y => cl x (y + 1)) X Y
          = look (font v) (font_data v) cl X (Y + g_h (font v))) as ->.
        { unfold look. set (h := g_h (font v)) in *.
          assert ((Y + h) / h = Y / h + 1) as -> by (rewrite <- (Z.div_add Y 1 h) by lia; f_equal; lia).
          assert ((Y + h) mod h = Y mod h) as -> by (rewrite <- (Z.mod_add Y 1 h) by lia; f_equal; lia).
          done. }
        rewrite <- Hpx by (unfold on_screen; lia). unfold pixel. rewrite Ea.
        apply list_eq; intros j. rewrite !sub_lookup. case_decide; [|done].
        rewrite lookup_app_l by (rewrite length_drop; lia). rewrite lookup_drop. f_equal. lia.
      * assert (Hrow : f_pitch (fb v) * (f_height (fb v) - g_h (font v)) <= f_pitch (fb v) * Y)
          by (apply Z.mul_le_mono_nonneg_l; lia).
        unfold look. destruct (cl _ _) as [g|] eqn:Eg.
        { apply Hcl in Eg as (_&Hr&_). exfalso.
          assert ((f_height (fb v) - 1) / g_h (font v) <= (Y + 1 * g_h (font v)) / g_h (font v))
            by (apply Z.div_le_mono; lia).
          rewrite Z.div_add in * by lia. unfold vrows, rows in Hr. lia. }
        apply list_eq; intros j. rewrite sub_lookup. case_decide.
        -- rewrite lookup_app_r by (rewrite length_drop; unfold addr in *; lia).
           rewrite lookup_replicate_2 by (rewrite length_drop; unfold addr in *; lia).
           by destruct j as [|[|[|[|]]]]; try lia.
        -- symmetry. apply lookup_ge_None. cbn. lia.
    + cbn. unfold UINT32_MAX. lia.
Qed.

(** *** Characters *)

Record shows (s : screen) (v : vterm) : Prop := {
  sw_paints : paints (cells s) v;
  sw_x : cur_x v = sx s /\ 0 <= sx s <= vcols v;
  sw_y : cur_y v = sy s /\ 0 <= sy s < vrows v;
}.

(** [type_char] with the terminal's measures. *)
Definition vtype (v : vterm) (c : Z) (s : screen) : screen :=
  type_char (f_width (fb v)) (f_height (fb v)) (g_w (font v)) (g_h (font v)) (glyph_amt (font v)) c s.

(** Before the wrap and the scrolling. *)
Definition vmove (v : vterm) (c : Z) (s : screen) : screen :=
  if c =? 10 then newline s
  else if c =? 8 then mkScreen (cells s) (if 0 <? sx s then sx s - 1 else sx s) (sy s)
  else if c =? 9 then mkScreen (cells s) (sx s / 8 * 8 + 8) (sy s)
  else put_glyph (f_width (fb v)) (g_w (font v)) (glyph_amt (font v)) c s.

Definition move_char (c : Z) (v : vterm) : res vterm :=
  if c =? 10 then Ok (v <| cur_x := 0 |> <| cur_y := u32 (cur_y v + 1) |>)
  else if c =? 8 then Ok (if 0 <? cur_x v then v <| cur_x := cur_x v - 1 |> else v)
  else if c =? 9 then Ok (v <| cur_x := u32 (Z.land (cur_x v) (Z.lnot 7) + 8) |>)
  else v ← font_blit (u32 (schar c)) (cur_x v) (cur_y v) v; Ok (v <| cur_x := u32 (cur_x v + 1) |>).

Lemma tab_stop x : 0 <= x -> Z.land x (Z.lnot 7) = x / 8 * 8.
Proof.
  intros Hx. rewrite <- Z.ldiff_land. change 7 with (Z.ones 3). rewrite Z.ldiff_ones_r by lia.
  rewrite Z.shiftl_mul_pow2, Z.shiftr_div_pow2 by lia. done.
Qed.

Lemma move_shows c s v :
  shows s v -> is_byte c ->
  let s1 := vmove v c s in
  exists v1, move_char c v = Ok v1 /\ touches v v1 /\ paints (cells s1) v1 /\
    cur_x v1 = sx s1 /\ cur_y v1 = sy s1 /\ 0 <= sx s1 <= vcols v + 8 /\ 0 <= sy s1 <= vrows v /\
    (sy s1 = vrows v -> sx s1 = 0).
Proof.
  intros [Hp [Ex Hx] [Ey Hy]] Hc. pose proof (cols_bound v (pt_wf _ _ Hp)) as (Hcb&Hrb&_).
  assert (Hcur : forall x y, touches v (v <| cur_x := x |> <| cur_y := y |>) /\
    paints (cells s) (v <| cur_x := x |> <| cur_y := y |>))
    by (intros x y; split; [apply touches_cursor|by apply paints_cursor]).
  unfold move_char, vmove. destruct (c =? 10) eqn:E10; [|destruct (c =? 8) eqn:E8; [|destruct (c =? 9) eqn:E9]].
  - destruct (Hcur 0 (u32 (cur_y v + 1))) as [Ht Hp']. eexists. split; [reflexivity|].
    split_and!; try done; cbn; try lia. rewrite u32_small by lia. lia.
  - destruct (Hcur (if 0 <? cur_x v then cur_x v - 1 else cur_x v) (cur_y v)) as [Ht Hp'].
    assert ((if 0 <? cur_x v then v <| cur_x := cur_x v - 1 |> else v)
      = v <| cur_x := if 0 <? cur_x v then cur_x v - 1 else cur_x v |> <| cur_y := cur_y v |>) as ->
      by (destruct v; case_match; done).
    eexists. split; [reflexivity|]. rewrite <- Ex. split_and!; try done; cbn; try case_match; zbool; lia.
  - destruct (Hcur (u32 (Z.land (cur_x v) (Z.lnot 7) + 8)) (cur_y v)) as [Ht Hp'].
    assert (v <| cur_x := u32 (Z.land (cur_x v) (Z.lnot 7) + 8) |>
      = v <| cur_x := u32 (Z.land (cur_x v) (Z.lnot 7) + 8) |> <| cur_y := cur_y v |>) as -> by by destruct v.
    eexists. split; [reflexivity|]. rewrite tab_stop in * by lia.
    pose proof (Z.mul_div_le (cur_x v) 8 ltac:(lia)). pose proof (Z.div_pos (cur_x v) 8 ltac:(lia) ltac:(lia)).
    rewrite u32_small in * by lia. rewrite <- Ex. split_and!; try done; cbn; lia.
  - destruct (blit_paints (cells s) c v Hp Hc) as (v1&E&Ht&Ex1&Ey1&Hp1); [lia..|].
    rewrite E. cbn [mbind res_bind]. rewrite Ex1, u32_small by lia.
    assert (v1 <| cur_x := cur_x v + 1 |> = v1 <| cur_x := cur_x v + 1 |> <| cur_y := cur_y v1 |>) as ->
      by by destruct v1.
    eexists. split; [reflexivity|]. split; [etrans; [exact Ht|apply touches_cursor]|].
    rewrite Ex in *. rewrite Ey in *.
    assert (cells (put_glyph (f_width (fb v)) (g_w (font v)) (glyph_amt (font v)) c s)
      = (if sx s <? vcols v then with_glyph (cells s) (sx s) (sy s) (glyph_for v c) else cells s)) as ->.
    { unfold put_glyph. fold (vcols v). by destruct (sx s <? vcols v). }
    split; [by apply paints_cursor|].
    assert (sx (put_glyph (f_width (fb v)) (g_w (font v)) (glyph_amt (font v)) c s) = sx s + 1) as ->
      by (unfold put_glyph; by destruct (sx s <? cols _ _)).
    assert (sy (put_glyph (f_width (fb v)) (g_w (font v)) (glyph_amt (font v)) c s) = sy s) as ->
      by (unfold put_glyph; by destruct (sx s <? cols _ _)).
    split_and!; try done; cbn; lia.
Qed.

Lemma scroll_loop_spec s v :
  paints (cells s) v -> cur_y v = sy s -> 0 <= sy s <= vrows v ->
  let s' := scroll_up (f_height (fb v)) (g_h (font v)) s in
  exists v', scroll_loop (S (Z.to_nat (cur_y v))) v = Ok v' /\ touches v v' /\ paints (cells s') v' /\
    cur_x v' = cur_x v /\ cur_y v' = sy s' /\ 0 <= sy s' < vrows v.
Proof.
  intros Hp Ey Hy. pose proof (pt_wf _ _ Hp) as Hwf. pose proof (cols_bound v Hwf) as (_&Hrb&_&Hrh).
  pose proof Hwf as [[[_ HH] _ _ _] [[_ Hh] _ _ _ _] [_ Fh]].
  assert (Hcond : forall w, touches v w -> 0 <= cur_y w <= vrows v ->
    (f_height (fb w) <=? u32 (u32 (cur_y w + 1) * g_h (font w))) = (vrows v <=? cur_y w)).
  { intros w Hw Hyw. destruct (touches_geo v w Hw) as (_&_&_&->). pose proof Hw as [[-> _] _ _ _].
    rewrite (u32_small (cur_y w + 1)), u32_small by nia.
    apply eq_true_iff_eq. rewrite !Z.leb_le.
    pose proof (lt_cells (cur_y w) (f_height (fb v)) (g_h (font v)) Hh) as Hlt.
    change ((f_height (fb v) - 1) / g_h (font v)) with (vrows v) in Hlt. lia. }
  unfold scroll_up. fold (vrows v). cbn [scroll_loop]. rewrite Hcond by (done || lia). rewrite Ey.
  destruct (vrows v <=? sy s) eqn:E; zbool.
  2:{ exists v. by split_and!; try lia. }
  destruct (scroll_paints (cells s) v Hp) as (v'&->&Ht&Ex&Ey'&Hp'); [lia|]. cbn [mbind res_bind].
  exists v'. split_and!; try done; cbn; try lia.
  assert (Hc' : (f_height (fb v') <=? u32 (u32 (cur_y v' + 1) * g_h (font v'))) = false).
  { rewrite Hcond by (done || lia). apply Z.leb_gt. lia. }
  replace (Z.to_nat (sy s)) with (S (Z.to_nat (sy s - 1))) by lia. cbn [scroll_loop]. by rewrite Hc'.
Qed.

Lemma in_char_shows c s v :
  shows s v -> is_byte c -> exists v', in_char c v = Ok v' /\ touches v v' /\ shows (vtype v c s) v'.
Proof.
  intros Hs Hc. destruct (move_shows c s v Hs Hc) as (v1&E1&T1&P1&X1&Y1&Hx1&Hy1&Hn1).
  unfold in_char. change (exists v', (v0 ← move_char c v;
    let v0 := if f_width (fb v0) <=? u32 (cur_x v0 * g_w (font v0))
              then v0 <| cur_x := 0 |> <| cur_y := u32 (cur_y v0 + 1) |> else v0 in
    scroll_loop (S (Z.to_nat (cur_y v0))) v0) = Ok v' /\ touches v v' /\ shows (vtype v c s) v').
  rewrite E1. cbn [mbind res_bind]. cbv zeta.
  pose proof (cols_bound v (pt_wf _ _ (sw_paints _ _ Hs))) as (Hcb&Hrb&Hcw&_).
  destruct (touches_geo v v1 T1) as (Ec&Er&->&_). pose proof T1 as [[-> _] _ _ _].
  pose proof (sw_paints _ _ Hs) as Hp. pose proof (pt_wf _ _ Hp) as [[[HW _] _ _ _] [[Hw _] _ _ _ _] [Fw _]].
  set (s1 := vmove v c s) in *. set (s2 := wrap_line (f_width (fb v)) (g_w (font v)) s1).
  assert (Hwrap : (f_width (fb v) <=? u32 (cur_x v1 * g_w (font v))) = (vcols v <? sx s1)).
  { rewrite X1, u32_small by nia. apply eq_true_iff_eq. rewrite Z.leb_le, Z.ltb_lt.
    pose proof (lt_cells (sx s1 - 1) (f_width (fb v)) (g_w (font v)) Hw) as Hlt.
    change ((f_width (fb v) - 1) / g_w (font v)) with (vcols v) in Hlt.
    replace (sx s1 - 1 + 1) with (sx s1) in Hlt by lia. lia. }
  rewrite Hwrap.
  assert (Hw2 : exists v2, (if vcols v <? sx s1 then v1 <| cur_x := 0 |> <| cur_y := u32 (cur_y v1 + 1) |> else v1) = v2
    /\ touches v v2 /\ paints (cells s2) v2 /\ cur_x v2 = sx s2 /\ cur_y v2 = sy s2 /\
    0 <= sx s2 <= vcols v /\ 0 <= sy s2 <= vrows v).
  { unfold s2, wrap_line. fold (vcols v). destruct (vcols v <? sx s1) eqn:E; zbool.
    - eexists. split; [reflexivity|]. split; [etrans; [exact T1|apply touches_cursor]|].
      split; [by apply paints_cursor|]. cbn. rewrite u32_small by lia. lia.
    - exists v1. split_and!; try done; lia. }
  destruct Hw2 as (v2&->&T2&P2&X2&Y2&Hx2&Hy2).
  destruct (touches_geo v v2 T2) as (Ec2&Er2&_&Eh2). pose proof T2 as [[Ef2 _] _ _ _].
  destruct (scroll_loop_spec s2 v2 P2 Y2) as (v3&E3&T3&P3&X3&Y3&Hy3); [lia|]. rewrite Eh2, Ef2 in *.
  exists v3. split; [exact E3|]. split; [by etrans|].
  destruct (touches_geo v2 v3 T3) as (Ec3&Er3&_).
  split; [exact P3| |]; change (vtype v c s) with (scroll_up (f_height (fb v)) (g_h (font v)) s2).
  - rewrite Ec3, Ec2, X3, X2. unfold scroll_up. by case_match.
  - rewrite Er3, Er2. split; [done|lia].
Qed.

(** ** Texts *)

Lemma each_app {A B} (g : B -> A -> res A) l k a :
  each g (l ++ k) a = (a' ← each g l a; each g k a').
Proof. revert a; induction l as [|x l IH]; intros a; [done|]. cbn. destruct (g x a); [apply IH|done]. Qed.

Lemma text_shows text v s :
  shows s v -> Forall is_byte text ->
  exists v', each in_char text v = Ok v' /\ touches v v' /\
    shows (foldl (fun s c => vtype v c s) s text) v'.
Proof.
  intros Hs Ht. revert v s Hs. induction Ht as [|c text Hc _ IH]; intros v s Hs.
  { exists v. split_and!; done. }
  cbn [each foldl]. destruct (in_char_shows c s v Hs Hc) as (v1&->&T1&S1). cbn [mbind res_bind].
  destruct (IH v1 _ S1) as (v'&E&T&S). exists v'. split; [done|]. split; [by etrans|].
  assert (Hv : forall c s, vtype v1 c s = vtype v c s).
  { intros c' s'. unfold vtype. destruct (touches_geo v v1 T1) as (_&_&->&->). by destruct T1 as [[-> _] _ _ _]. }
  assert (foldl (fun s c => vtype v1 c s) (vtype v c s) text
    = foldl (fun s c => vtype v c s) (vtype v c s) text) as <-; [|exact S].
  clear -Hv. revert s c. induction text as [|d text IH]; intros s c; [done|]. cbn. rewrite Hv. apply IH.
Qed.

(** A terminal that has just been started, on a black screen. *)
Record fresh (v : vterm) : Prop := {
  fr_wf : vterm_wf v;
  fr_black : forall X Y, on_screen (fb v) X Y -> pixel (fb v) X Y = [0; 0; 0; 0];
  fr_cursor : cur_x v = 0 /\ cur_y v = 0;
  fr_dirty : dirty v = dirty_reset;
}.

(** C20: the terminal shows what it was sent.  Started on a black screen that
    holds more than one cell in each direction, with a font whose glyphs are
    all there, it handles every text (no access outside the frame buffer or the
    font, and the scrolling loop ends).  The screen it leaves is the picture of
    the abstract screen that the text gives: each pixel belongs to the cell at
    its coordinates divided by the size of a glyph, and is the pixel of the
    glyph there, or black.  Text runs from left to right, line feeds, backspaces
    and tabs move the cursor, a full line wraps, and past the last row the rows
    move up.  Every pixel that changed is inside the rectangle that is going to
    be flushed. *)
Theorem vterm_shows_text text v :
  fresh v -> Forall is_byte text ->
  let s := foldl (fun s c => vtype v c s) blank text in
  exists v', each in_char text v = Ok v' /\
    cur_x v' = sx s /\ cur_y v' = sy s /\
    forall X Y, on_screen (fb v) X Y ->
      pixel (fb v') X Y = look (font v) (font_data v) (cells s) X Y /\
      (pixel (fb v') X Y <> pixel (fb v) X Y -> covered (dirty v') X Y).
Proof.
  intros [Hwf Hb [Hx Hy] Hd] Ht s. pose proof (cols_bound v Hwf) as (Hcb&Hrb&_).
  destruct (text_shows text v blank) as (v'&E&[[F D] [b G] _ P]&[Sp [Sx _] [Sy _]]); [|done|].
  - split.
    + split; [done|done|exact Hb|]. rewrite Hd. cbn. unfold UINT32_MAX. lia.
    + split; [done|cbn; lia].
    + split; [done|cbn; lia].
  - exists v'. split_and!; [done..|]. intros X Y Hon. split; [|by apply P].
    rewrite <- F, <- D. apply (pt_px _ _ Sp). by rewrite G.
Qed.

(** Three glyphs of two by two pixels on a screen of three by two cells. *)
Definition some_vterm : vterm :=
  mkVt (mkFb 140 7 5 28 32 (replicate 140 0)) (mkPsf 32 3 1 2 2) [0; 0xF0; 0x90] 0 0 dirty_reset.

Lemma some_vterm_fresh : fresh some_vterm.
Proof.
  split; [split| |done|done].
  - split; cbn; lia.
  - split; cbn; try lia. decide_now.
  - cbn. lia.
  - intros X Y Hon. destruct (addr_range (fb some_vterm) X Y) as [A0 A1]; [split; cbn; lia|done|].
    unfold pixel. change (f_b (fb some_vterm)) with (replicate 140 0).
    change (f_len (fb some_vterm)) with 140 in A1. rewrite drop_replicate, take_replicate.
    by replace (4 `min` (140 - Z.to_nat (addr (fb some_vterm) X Y)))%nat with 4%nat by lia.
Qed.

(** Five lines of one character: the last two are to be seen. *)
Lemma vterm_shows_text_witness :
  exists v', each in_char [1; 10; 1; 10; 2; 10; 1] some_vterm = Ok v' /\
    pixel (fb v') 0 0 = le_bytes 4 0xB0B0B0 /\ pixel (fb v') 1 0 = le_bytes 4 0 /\
    pixel (fb v') 1 2 = le_bytes 4 0xB0B0B0.
Proof.
  destruct (vterm_shows_text [1; 10; 1; 10; 2; 10; 1] some_vterm some_vterm_fresh)
    as (v'&E&_&_&Hpx); [repeat (apply Forall_cons; split; [unfold is_byte; lia|]); apply Forall_nil, I|].
  exists v'. split; [exact E|].
  split; [|split]; etrans; try (apply Hpx; unfold on_screen; cbn; lia); vm_compute; reflexivity.
Defined.

(** In the last column there would be room for a glyph when the width of the
    screen is a multiple of the glyph's; it is not drawn, and the character is
    lost: it acts like a line feed. *)
Lemma last_column_lost W H w h amt c s :
  0 < w < W -> (w | W) -> sx s = cols W w -> c <> 8 -> c <> 9 -> c <> 10 ->
  (cols W w + 1) * w = W /\ type_char W H w h amt c s = type_char W H w h amt 10 s.
Proof.
  intros Hw [k ->] Hx H8 H9 H10. unfold cols in *.
  assert ((k * w - 1) / w = k - 1) as Ek.
  { symmetry. apply (Z.div_unique _ _ _ (w - 1)); lia. }
  split; [lia|]. unfold type_char. rewrite !(proj2 (Z.eqb_neq c _)) by done.
  rewrite (proj2 (Z.eqb_eq 10 10)) by done. f_equal.
  unfold put_glyph, wrap_line, newline, cols. cbn. rewrite Hx, Z.ltb_irrefl. cbn.
  rewrite (proj2 (Z.ltb_lt _ _)) by lia. by rewrite (proj2 (Z.ltb_ge ((k * w - 1) / w) 0)) by nia.
Qed.
