(* ===== verification/Mouse.v ===== *)
(** * Mouse

    The mouse pointer ([src/src/cmd/drawmouse.c]): it is drawn over the screen
    by inverting pixels, what was behind it is kept in a buffer of its own and
    put back before the pointer is drawn elsewhere. *)

From S2P Require Import Prelude Mem Ring Buf Draw.

Definition MOUSE_SIZE : Z := 10.

Record mouse := mkMouse {
  m_fb : framebuf;
  lastbehind : framebuf;
  cur : Z * Z;
  lastcur : Z * Z;
  m_drawn : bool;
  m_dirty : rect;
  m_ring : ring_t;
}.
#[export] Instance mouse_settable : Settable mouse := fun m =>
  mkMouse (m_fb m) (lastbehind m) (cur m) (lastcur m) (m_drawn m) (m_dirty m) (m_ring m).

(** ** Drawing *)

(** [*px ^= 0x808080] *)
Definition invert (px : list Z) : list Z := zip_with Z.lxor px [0x80; 0x80; 0x80; 0].

Definition mouse_pixel (cx cy i j : Z) (x : framebuf * rect) : res (framebuf * rect) :=
  let '(f, d) := x in
  match fb_pixel f (u32 (cx + i)) (u32 (cy + j)) with
  | Some off =>
      px ← bload (f_b f) off 4;
      b ← bstore (f_b f) off (invert px);
      Ok (f <| f_b := b |>, dirty_mark d (u32 (cx + i)) (u32 (cy + j)))
  | None => Ok (f, d)
  end.

Definition draw_mouse (m : mouse) : res mouse :=
  let '(lx, ly) := lastcur m in
  let '(cx, cy) := cur m in
  f ← (if m_drawn m then fb_cpy (m_fb m) (lastbehind m) lx ly 0 0 MOUSE_SIZE MOUSE_SIZE
       else Ok (m_fb m));
  let d := dirty_mark (m_dirty m) lx ly in
  let d := dirty_mark d (u32 (lx + MOUSE_SIZE)) (u32 (ly + MOUSE_SIZE)) in
  behind ← fb_cpy (lastbehind m) f 0 0 cx cy MOUSE_SIZE MOUSE_SIZE;
  '(f, d) ← for_from (fun i x =>
      for_from (fun j x => mouse_pixel cx cy i j x) 0 (Z.to_nat (MOUSE_SIZE - i)) x)
    0 (Z.to_nat MOUSE_SIZE) (f, d);
  Ok (m <| m_fb := f |> <| lastbehind := behind |> <| m_drawn := true |> <| m_dirty := d |>
        <| lastcur := (cx, cy) |>).

(** ** Packets *)

Definition s8 (z : Z) : Z := (z + 2 ^ 7) mod 2 ^ 8 - 2 ^ 7.

(** The new position; [dx] and [dy] are bytes of the packet. *)
Definition move_axis (pos delta size : Z) : Z :=
  let delta := if s32 pos <? - delta then s8 (- pos) else delta in
  let pos := u32 (pos + delta) in
  if size <=? pos then u32 (size - 1) else pos.

Definition mouse_move (m : mouse) (dx dy : Z) : mouse :=
  let dx := s8 dx in
  let dy := s8 (- s8 dy) in
  m <| cur := (move_axis (cur m).1 dx (f_width (m_fb m)), move_axis (cur m).2 dy (f_height (m_fb m))) |>.

(** The loop over the packets in the ring; [inr] when both buttons are down,
    which ends the program. *)
Fixpoint mouse_packets (fuel : nat) (m : mouse) : res (mouse + mouse) :=
  if 3 <=? ring_used (m_ring m) then
    match fuel with
    | O => Err OutOfFuel
    | S n =>
        let '(r, p) := ring_get (m_ring m) 3 in
        match p with
        | [buttons; dx; dy] =>
            m ← draw_mouse (mouse_move (m <| m_ring := r |>) dx dy);
            if Z.testbit buttons 0 && Z.testbit buttons 1 then Ok (inr m) else mouse_packets n m
        | _ => Err Undefined
        end
    end
  else Ok (inl m).

(** A read from the device, at most 64 bytes. *)
Definition mouse_input (buf : list Z) (m : mouse) : res ((mouse + mouse) * list (Z * list Z)) :=
  r ← mouse_packets 64 (m <| m_ring := ring_put (m_ring m) buf |>);
  match r with
  | inr m => Ok (inr m, [])
  | inl m => '(d, out) ← dirty_flush (m_dirty m) (m_fb m); Ok (inl (m <| m_dirty := d |>), out)
  end.

(** ** Copies *)

Definition inside (f : framebuf) (x y w h : Z) : Prop :=
  0 <= x /\ x + w <= f_width f /\ 0 <= y /\ y + h <= f_height f.

Lemma fb_pixel_on f x y : fb_wf f -> on_screen f x y -> fb_pixel f x y = Some (addr f x y).
Proof.
  intros Hf Hon. unfold fb_pixel. destruct Hon as [Hx Hy].
  rewrite !(proj2 (Z.ltb_lt _ _)) by lia. cbn [andb]. by rewrite addr_u64.
Qed.

Lemma fb_cpy_spec dest src xd yd xs ys w h :
  fb_wf dest -> fb_wf src -> 0 < w -> 0 <= h -> inside dest xd yd w h -> inside src xs ys w h ->
  exists b, fb_cpy dest src xd yd xs ys w h = Ok (dest <| f_b := b |>) /\ fb_wf (dest <| f_b := b |>) /\
    forall x y, on_screen dest x y -> pixel (dest <| f_b := b |>) x y =
      if decide (xd <= x < xd + w /\ yd <= y < yd + h) then pixel src (x - xd + xs) (y - yd + ys)
      else pixel dest x y.
Proof.
  intros Hd Hs Hw Hh (Dx&Dw&Dy&Dh) (Sx&Sw&Sy&Sh).
  pose proof (wf_size _ Hd) as [[_ DW] [_ DH]]. pose proof (wf_size _ Hs) as [[_ SW] [_ SH]].
  destruct (for_from_rule (fb_cpy_row src xd yd xs ys w) (fun k f => exists b, f = dest <| f_b := b |> /\
     fb_wf f /\ forall x y, on_screen dest x y -> pixel f x y =
      if decide (xd <= x < xd + w /\ yd <= y < yd + k) then pixel src (x - xd + xs) (y - yd + ys)
      else pixel dest x y) (Z.to_nat h) 0 dest) as (f&E&b&->&Hwf&Hpx).
  - intros k f Hk (b&->&Hwf&Hpx). rewrite Z2Nat.id in Hk by lia. unfold fb_cpy_row.
    rewrite !u32_small by lia.
    rewrite (fb_pixel_on _ xd (yd + k)), (fb_pixel_on src xs (ys + k)); [|done|unfold on_screen; lia|done|unfold on_screen; cbn; lia].
    cbn [deref_ mbind res_bind].
    destruct (run_copy src xs (ys + k) (dest <| f_b := b |>) xd (yd + k) w Hs Hwf) as (b'&Eb&Hwf'&Hpx');
      [lia|lia|lia|lia|lia|cbn; lia|cbn; lia|].
    destruct (addr_range src xs (ys + k) Hs) as [A0 _]; [unfold on_screen; lia|].
    destruct (addr_range src (xs + w - 1) (ys + k) Hs) as [_ A1]; [unfold on_screen; lia|].
    pose proof (wf_b _ Hs). rewrite u64_small by (unfold is_size; lia).
    rewrite bload_in by (unfold addr in *; lia). cbn [mbind res_bind].
    rewrite (Z.mul_comm w 4), Eb. cbn [mbind res_bind]. eexists. split; [reflexivity|]. exists b'. split; [done|].
    split; [exact Hwf'|]. intros x y Hon. etrans; [exact (Hpx' x y Hon)|]. rewrite Hpx by done.
    repeat case_decide; try lia; try done. f_equal. lia.
  - exists (f_b dest). split; [by destruct dest|]. split; [done|]. intros x y Hon. by rewrite decide_False by lia.
  - exists b. split; [exact E|]. split; [done|]. intros x y Hon. rewrite Hpx by done.
    by rewrite Z.add_0_l, Z2Nat.id by lia.
Qed.

(** ** The pointer over a picture *)

(** The triangle of the pointer. *)
Definition pointer (i j : Z) : bool := (0 <=? i) && (0 <=? j) && (i + j <? MOUSE_SIZE).

Lemma length_pixel f x y : fb_wf f -> on_screen f x y -> length (pixel f x y) = 4%nat.
Proof.
  intros Hf Hon. destruct (addr_range f x y Hf Hon). pose proof (wf_b _ Hf).
  unfold pixel. rewrite length_take, length_drop. lia.
Qed.

Section invert.
Context (f1 : framebuf) (cx cy : Z) (Hf1 : fb_wf f1) (Hin : inside f1 cx cy MOUSE_SIZE MOUSE_SIZE).

(** The pixels [P] of the pointer are inverted. *)
Definition inverted (P : Z -> Z -> bool) (x : framebuf * rect) : Prop :=
  exists b, x.1 = f1 <| f_b := b |> /\ fb_wf x.1 /\
    forall X Y, on_screen f1 X Y -> pixel x.1 X Y =
      if P (X - cx) (Y - cy) then invert (pixel f1 X Y) else pixel f1 X Y.

Lemma inverted_ext P P' x : (forall i j, P i j = P' i j) -> inverted P x -> inverted P' x.
Proof.
  intros HP (b&E&Hwf&Hpx). exists b. split; [done|]. split; [done|]. intros X Y Hon.
  rewrite Hpx by done. by rewrite HP.
Qed.

Lemma mouse_pixel_spec P i j x :
  0 <= i < MOUSE_SIZE -> 0 <= j < MOUSE_SIZE -> P i j = false -> inverted P x ->
  exists x', mouse_pixel cx cy i j x = Ok x' /\
    inverted (fun i' j' => (i' =? i) && (j' =? j) || P i' j') x'.
Proof.
  destruct x as [f d]. intros Hi Hj HP (b&E&Hwf&Hpx). cbn [fst] in *. subst f.
  pose proof Hin as (Ix&Iw&Iy&Ih). pose proof (wf_size _ Hf1) as [[_ W] [_ H]].
  assert (Hon : on_screen f1 (cx + i) (cy + j)) by (unfold on_screen; lia).
  unfold mouse_pixel. rewrite !u32_small by lia. rewrite (fb_pixel_on _ _ _ Hwf Hon).
  destruct (addr_range (f1 <| f_b := b |>) (cx + i) (cy + j) Hwf Hon) as [A0 A1].
  pose proof (wf_b _ Hwf) as Hb. rewrite bload_in by lia. cbn [mbind res_bind].
  change (take (Z.to_nat 4) _) with (pixel (f1 <| f_b := b |>) (cx + i) (cy + j)).
  rewrite Hpx by done. replace (cx + i - cx) with i by lia. replace (cy + j - cy) with j by lia. rewrite HP.
  destruct (pixel_store (f1 <| f_b := b |>) (cx + i) (cy + j) (invert (pixel f1 (cx + i) (cy + j))) Hwf Hon)
    as (b'&Eb&Hwf'&Hpx').
  { unfold invert. by rewrite length_zip_with, (length_pixel f1 _ _ Hf1 Hon). }
  rewrite Eb. cbn [mbind res_bind]. eexists. split; [reflexivity|]. exists b'. split; [done|]. split; [exact Hwf'|].
  intros X Y HXY. etrans; [exact (Hpx' X Y HXY)|]. rewrite Hpx by done. case_decide as Hd.
  - injection Hd as <- <-. replace (cx + i - cx) with i by lia. replace (cy + j - cy) with j by lia.
    by rewrite !Z.eqb_refl.
  - assert ((X - cx =? i) && (Y - cy =? j) = false) as ->; [|done].
    apply andb_false_iff. destruct (decide (X = cx + i)) as [->|].
    + right. apply Z.eqb_neq. intros E. apply Hd. f_equal. lia.
    + left. apply Z.eqb_neq. lia.
Qed.

Lemma invert_loops d :
  exists x, for_from (fun i x =>
      for_from (fun j x => mouse_pixel cx cy i j x) 0 (Z.to_nat (MOUSE_SIZE - i)) x)
    0 (Z.to_nat MOUSE_SIZE) (f1, d) = Ok x /\ inverted pointer x.
Proof.
  destruct (for_from_rule (fun i x =>
      for_from (fun j x => mouse_pixel cx cy i j x) 0 (Z.to_nat (MOUSE_SIZE - i)) x)
    (fun i => inverted (fun i' j' => (i' <? i) && pointer i' j')) (Z.to_nat MOUSE_SIZE) 0 (f1, d))
    as (x&E&H).
  - intros i x Hi H. change (Z.of_nat (Z.to_nat MOUSE_SIZE)) with 10 in Hi.
    destruct (for_from_rule (fun j x => mouse_pixel cx cy i j x)
      (fun j => inverted (fun i' j' => (i' <? i) && pointer i' j' || (i' =? i) && (0 <=? j') && (j' <? j)))
      (Z.to_nat (MOUSE_SIZE - i)) 0 x) as (x'&E&H').
    + intros j y Hj Hy. unfold MOUSE_SIZE in Hj.
      pose proof (fun Hi' Hj' HP => mouse_pixel_spec _ i j y Hi' Hj' HP Hy) as Hstep.
      destruct Hstep as (y'&Ey&Hy'); [unfold MOUSE_SIZE; lia..| |].
      { by rewrite !Z.ltb_irrefl, !andb_false_r. }
      exists y'. split; [done|]. eapply inverted_ext; [|exact Hy']. intros i' j'. cbv beta.
      destruct (i' =? i) eqn:?, (j' =? j) eqn:?, (i' <? i) eqn:?, (0 <=? j') eqn:?, (j' <? j) eqn:?,
        (j' <? j + 1) eqn:?; zbool; try lia; cbn; by rewrite ?orb_true_r, ?orb_false_r.
    + eapply inverted_ext; [|exact H]. intros i' j'. cbv beta.
      destruct (0 <=? j') eqn:?, (j' <? 0) eqn:?; zbool; try lia; by rewrite ?andb_false_r, ?orb_false_r.
    + exists x'. split; [done|]. eapply inverted_ext; [|exact H']. intros i' j'. cbv beta. unfold pointer.
      unfold MOUSE_SIZE in *.
      destruct (i' <? i) eqn:?, (i' =? i) eqn:?, (i' <? i + 1) eqn:?, (0 <=? i') eqn:?, (0 <=? j') eqn:?,
        (i' + j' <? 10) eqn:?, (j' <? 0 + Z.of_nat (Z.to_nat (10 - i))) eqn:?; zbool; try lia; done.
  - exists (f_b f1). split; [by destruct f1|]. split; [done|]. intros X Y Hon. unfold pointer.
    destruct (X - cx <? 0) eqn:?, (0 <=? X - cx) eqn:?; zbool; try lia; done.
  - exists x. split; [done|]. eapply inverted_ext; [|exact H]. intros i j. unfold pointer, MOUSE_SIZE.
    destruct (i <? 0 + Z.of_nat (Z.to_nat 10)) eqn:?, (0 <=? i) eqn:?, (0 <=? j) eqn:?, (i + j <? 10) eqn:?;
      zbool; try lia; done.
Qed.
End invert.

(** The screen shows [f0] with the pointer over it, if it has been drawn, and
    the buffer behind has what the pointer hides. *)
Record over (f0 : framebuf) (m : mouse) : Prop := {
  ov_fb : exists b, m_fb m = f0 <| f_b := b |> /\ fb_wf (m_fb m);
  ov_behind : fb_wf (lastbehind m) /\ f_width (lastbehind m) = MOUSE_SIZE /\
    f_height (lastbehind m) = MOUSE_SIZE;
  ov_drawn : let '(lx, ly) := lastcur m in
    if m_drawn m then
      inside f0 lx ly MOUSE_SIZE MOUSE_SIZE /\
      (forall X Y, on_screen f0 X Y -> pixel (m_fb m) X Y =
        if pointer (X - lx) (Y - ly) then invert (pixel f0 X Y) else pixel f0 X Y) /\
      (forall i j, on_screen (lastbehind m) i j -> pixel (lastbehind m) i j = pixel f0 (lx + i) (ly + j))
    else forall X Y, on_screen f0 X Y -> pixel (m_fb m) X Y = pixel f0 X Y;
}.

(** Putting back what was behind gives the picture. *)
Lemma restored f0 m :
  fb_wf f0 -> over f0 m ->
  exists b, (if m_drawn m then fb_cpy (m_fb m) (lastbehind m) (lastcur m).1 (lastcur m).2 0 0 MOUSE_SIZE MOUSE_SIZE
             else Ok (m_fb m)) = Ok (f0 <| f_b := b |>) /\ fb_wf (f0 <| f_b := b |>) /\
    forall X Y, on_screen f0 X Y -> pixel (f0 <| f_b := b |>) X Y = pixel f0 X Y.
Proof.
  intros H0 [(b&Eb&Hwf) (Hbw&Hw&Hh) Hd]. destruct (lastcur m) as [lx ly]. cbn [fst snd].
  destruct (m_drawn m).
  - destruct Hd as (Hin&Hpx&Hbehind). pose proof Hin as (Ix&Iw&Iy&Ih).
    destruct (fb_cpy_spec (m_fb m) (lastbehind m) lx ly 0 0 MOUSE_SIZE MOUSE_SIZE) as (b'&E&Hwf'&Hpx');
      [done|done|unfold MOUSE_SIZE; lia|unfold MOUSE_SIZE; lia|by rewrite Eb|unfold inside; lia|].
    rewrite Eb in *. exists b'. split; [exact E|]. split; [exact Hwf'|]. intros X Y Hon.
    etrans; [exact (Hpx' X Y Hon)|]. case_decide as Hc.
    + rewrite Hbehind by (unfold on_screen; rewrite Hw, Hh; lia). f_equal; lia.
    + rewrite Hpx by done. unfold pointer, MOUSE_SIZE in *.
      destruct (0 <=? X - lx) eqn:?, (0 <=? Y - ly) eqn:?, (X - lx + (Y - ly) <? 10) eqn:?; zbool; try done.
      exfalso. apply Hc. lia.
  - exists b. by rewrite <- Eb.
Qed.

Lemma draw_mouse_over f0 m :
  fb_wf f0 -> over f0 m -> inside f0 (cur m).1 (cur m).2 MOUSE_SIZE MOUSE_SIZE ->
  exists m', draw_mouse m = Ok m' /\ over f0 m' /\ m_drawn m' = true /\ lastcur m' = cur m.
Proof.
  intros H0 Hm Hin. destruct (restored f0 m H0 Hm) as (b1&E1&Hwf1&Hpx1).
  destruct Hm as [_ (Hbw&Hw&Hh) _]. unfold draw_mouse.
  destruct (lastcur m) as [lx ly]. destruct (cur m) as [cx cy]. cbn [fst snd] in *. rewrite E1.
  cbn [mbind res_bind].
  set (f1 := f0 <| f_b := b1 |>) in *. pose proof Hin as (Ix&Iw&Iy&Ih).
  destruct (fb_cpy_spec (lastbehind m) f1 0 0 cx cy MOUSE_SIZE MOUSE_SIZE) as (b2&E2&Hwf2&Hpx2);
    [done|done|unfold MOUSE_SIZE; lia|unfold MOUSE_SIZE; lia|unfold inside; lia|done|].
  rewrite E2. cbn [mbind res_bind]. set (d := dirty_mark (dirty_mark _ _ _) _ _).
  destruct (invert_loops f1 cx cy Hwf1 Hin d) as ([f3 d3]&E3&b3&Ef3&Hwf3&Hpx3).
  rewrite E3. cbn [mbind res_bind fst] in *. eexists. split; [reflexivity|]. split; [|done].
  split.
  - exists b3. split; [exact Ef3|exact Hwf3].
  - done.
  - split_and!; [done| |].
    + intros X Y Hon. cbn. rewrite (Hpx3 X Y Hon). by rewrite Hpx1.
    + intros i j Hon. change (on_screen (lastbehind m) i j) in Hon. destruct Hon as [Hi Hj].
      rewrite Hw in Hi. rewrite Hh in Hj.
      etrans; [apply Hpx2; unfold on_screen; lia|]. rewrite decide_True by lia.
      rewrite Hpx1 by (unfold on_screen; lia). f_equal; lia.
Qed.

(** ** Movement *)

(** A movement is clamped to the screen. *)
Lemma move_axis_clamps pos delta size :
  0 <= pos < size -> size < 2 ^ 24 -> - 2 ^ 7 <= delta < 2 ^ 7 ->
  move_axis pos delta size = Z.max 0 (Z.min (size - 1) (pos + delta)).
Proof.
  intros Hp Hs Hd. unfold move_axis. rewrite s32_small by lia.
  destruct (pos <? - delta) eqn:E; zbool.
  - assert (s8 (- pos) = - pos) as -> by (unfold s8; rewrite Z.mod_small; lia).
    rewrite u32_small by lia. case_match; zbool; lia.
  - rewrite u32_small by lia. case_match eqn:E2; zbool; [rewrite u32_small by lia|]; lia.
Qed.

(** Within ten pixels of the bottom the pointer cannot be drawn: the row below
    the screen has no address, and the program copies from a null pointer. *)
Lemma bottom_crashes f0 m :
  fb_wf f0 -> over f0 m -> 0 <= (cur m).1 < f_width f0 -> (cur m).2 < f_height f0 ->
  f_height f0 < (cur m).2 + MOUSE_SIZE -> 0 <= (cur m).2 ->
  draw_mouse m = Err Undefined.
Proof.
  intros H0 Hm Hx Hy1 Hy2 Hy. destruct (restored f0 m H0 Hm) as (b1&E1&Hwf1&_).
  destruct Hm as [_ (Hbw&Hw&Hh) _]. unfold draw_mouse.
  destruct (lastcur m) as [lx ly]. destruct (cur m) as [cx cy]. cbn [fst snd] in *. rewrite E1.
  cbn [mbind res_bind]. pose proof (wf_size _ H0) as [_ [_ H24]].
  set (f1 := f0 <| f_b := b1 |>) in *.
  assert (E : fb_cpy (lastbehind m) f1 0 0 cx cy MOUSE_SIZE MOUSE_SIZE = Err Undefined); [|by rewrite E].
  unfold fb_cpy. set (n := Z.to_nat (f_height f0 - cy)).
  assert (Z.to_nat MOUSE_SIZE = n + S (Z.to_nat (MOUSE_SIZE - 1) - n))%nat as -> by (unfold n, MOUSE_SIZE in *; lia).
  assert (Hrows : forall k lo f, lo + Z.of_nat k = f_height f0 - cy ->
    for_from (fb_cpy_row f1 0 0 cx cy MOUSE_SIZE) lo (k + S (Z.to_nat (MOUSE_SIZE - 1) - n)) f = Err Undefined);
    [|apply Hrows; unfold n; lia].
  intros k. induction k as [|k IH]; intros lo f Hlo; cbn [Nat.add for_from].
  - assert (fb_cpy_row f1 0 0 cx cy MOUSE_SIZE lo f = Err Undefined) as ->; [|done].
    unfold fb_cpy_row. destruct (fb_pixel f (u32 0) (u32 (0 + lo))) as [o|]; [|done]. cbn [deref_ mbind res_bind].
    unfold fb_pixel. rewrite (u32_small (cy + lo)) by lia. change (f_height f1) with (f_height f0).
    rewrite (proj2 (Z.ltb_ge (cy + lo) _)) by lia. by rewrite andb_false_r.
  - destruct (fb_cpy_row _ _ _ _ _ _ lo f) as [f'|e] eqn:Er; cbn [mbind res_bind]; [apply IH; lia|].
    f_equal. unfold fb_cpy_row, deref_, bload, bstore in Er.
    repeat (case_match; cbn [mbind res_bind] in Er; simplify_eq; try done).
Qed.

(** A read of 64 bytes does not fit the ring: a byte is lost, and the packets
    are cut in the wrong places from then on. *)
Lemma full_read_shifts_packets :
  let buf := mjoin (replicate 21 [1; 2; 3]) ++ [1] in
  let r := ring_put (mkRing (replicate 64 0) 64 0 0) buf in
  length buf = 64%nat /\ ring_used r = 63 /\
  (ring_get (ring_put (ring_get r 63).1 [2; 3; 1; 2; 3]) 3).2 = [2; 3; 1].
Proof. by vm_compute. Qed.

(** C27: the pointer leaves no trace.  Over any picture, drawing the pointer at
    one position after the other, all of them with the pointer inside the
    screen, succeeds, and at the end the screen shows the picture with the
    triangle of the pointer inverted at the last position and nowhere else. *)
Theorem mouse_leaves_no_trace f0 m moves x y :
  fb_wf f0 -> over f0 m ->
  Forall (fun c => inside f0 c.1 c.2 MOUSE_SIZE MOUSE_SIZE) (moves ++ [(x, y)]) ->
  exists m', each (fun c m => draw_mouse (m <| cur := c |>)) (moves ++ [(x, y)]) m = Ok m' /\
    forall X Y, on_screen f0 X Y -> pixel (m_fb m') X Y =
      if pointer (X - x) (Y - y) then invert (pixel f0 X Y) else pixel f0 X Y.
Proof.
  intros H0 Hm Hin. revert m Hm. induction moves as [|c moves IH]; intros m Hm; cbn [app each] in *;
    apply Forall_cons in Hin as [Hc Hin].
  - destruct (draw_mouse_over f0 (m <| cur := (x, y) |>) H0) as (m'&->&[_ _ Hd]&Ed&El); [by destruct Hm; split|done|].
    exists m'. split; [done|]. rewrite El, Ed in Hd. by destruct Hd as (_&Hpx&_).
  - destruct (draw_mouse_over f0 (m <| cur := c |>) H0) as (m1&->&Hm1&_); [by destruct Hm; split|done|].
    cbn [mbind res_bind]. by apply IH.
Qed.

(** A white screen of 16 by 16 pixels. *)
Definition white : framebuf := mkFb 1024 16 16 64 32 (replicate 1024 255).

Definition some_mouse : mouse :=
  mkMouse white (fb_anon 10 10 (replicate 400 7)) (0, 0) (0, 0) false dirty_reset
    (mkRing (replicate 64 0) 64 0 0).

Lemma white_wf : fb_wf white.
Proof. split; [decide_now|decide_now|done|by vm_compute]. Qed.

Lemma some_mouse_over : over white some_mouse.
Proof.
  split.
  - exists (f_b white). split; [done|apply white_wf].
  - split; [split; [decide_now|decide_now|done|by vm_compute]|done].
  - intros X Y _. done.
Qed.

Lemma mouse_leaves_no_trace_witness :
  exists m', each (fun c m => draw_mouse (m <| cur := c |>)) [(0, 0); (3, 2); (6, 5)] some_mouse = Ok m' /\
    pixel (m_fb m') 3 2 = [255; 255; 255; 255] /\ pixel (m_fb m') 6 5 = [127; 127; 127; 255].
Proof.
  destruct (mouse_leaves_no_trace white some_mouse [(0, 0); (3, 2)] 6 5 white_wf some_mouse_over)
    as (m'&E&Hpx).
  - cbn [app]. repeat (apply Forall_cons; split; [unfold inside, MOUSE_SIZE; cbn; lia|]). by apply Forall_nil.
  - exists m'. split; [exact E|].
    split; (etrans; [apply Hpx; unfold on_screen; cbn; lia|vm_compute; reflexivity]).
Defined.
