(* ===== verification/Termcook.v ===== *)
(** * Termcook

    The line discipline ([src/src/cmd/init/driver/termcook.c]): a process
    between the keyboard and the programs that echoes what is typed, lets it be
    edited, and hands it on by lines.  The system calls it makes are the
    interface [Tty]; an abstract line says what the reader gets. *)

From S2P Require Import Prelude Buf.

(** ** System calls *)

(** A read answers bytes or a negative error, a write the number of bytes that
    were taken. *)
Class Tty (W : Type) := {
  tty_read : Z -> W -> W * (Z + list Z);
  tty_write : list Z -> Z -> W -> W * Z;
  tty_print : list Z -> W -> W;
}.

Inductive tstate := Normal | Esc | CSI.

Record editor := mkEd {
  linebuf : list Z;
  linepos : Z;
  estate : tstate;
}.
#[export] Instance editor_settable : Settable editor := fun e =>
  mkEd (linebuf e) (linepos e) (estate e).

Definition READBUF : Z := 16.
Definition LINEBUF : Z := 256.

Section termcook.
Context {W : Type} `{Tty W}.

(** [while (pos < len)]; a turn that writes nothing is repeated. *)
Fixpoint w_output_loop (fuel : nat) (buf : list Z) (len pos : Z) (w : W) : res W :=
  if pos <? len then
    match fuel with
    | O => Err OutOfFuel
    | S n =>
        data ← bload buf pos (len - pos);
        let '(w, ret) := tty_write data pos w in
        if ret <? 0 then Ok w else w_output_loop n buf len (pos + ret) w
    end
  else Ok w.

Definition w_output (buf : list Z) (len : Z) (w : W) : res W :=
  w_output_loop (Z.to_nat len) buf len 0 w.

(** A character that is read: the editor goes on, or the process exits. *)
Definition normal_char (c : Z) (e : editor) (w : W) : res (editor * W + W) :=
  if (c =? 8) || (c =? 0x7f) then
    if negb (linepos e =? 0) then
      let w := tty_print [8; 32; 8] w in Ok (inl (e <| linepos := linepos e - 1 |>, w))
    else Ok (inl (e, w))
  else if c =? 3 then Ok (inr w)
  else if c =? 4 then
    if 0 <? linepos e then
      w ← w_output (linebuf e) (linepos e) w; Ok (inl (e <| linepos := 0 |>, w))
    else Ok (inl (e, (tty_write [] 0 w).1))
  else if (c =? 10) || (c =? 13) then
    let w := tty_print [10] w in
    e ← (if linepos e <? LINEBUF then
           b ← bstore (linebuf e) (linepos e) [10];
           Ok (e <| linebuf := b |> <| linepos := linepos e + 1 |>)
         else Ok e);
    w ← w_output (linebuf e) (linepos e) w;
    Ok (inl (e <| linepos := 0 |>, w))
  else if c =? 27 then Ok (inl (e <| estate := Esc |>, w))
  else if c =? 9 then Ok (inl (e, w))
  else if linepos e <? LINEBUF then
    b ← bstore (linebuf e) (linepos e) [c];
    Ok (inl (e <| linebuf := b |> <| linepos := linepos e + 1 |>, tty_print [c] w))
  else Ok (inl (e, w)).

Definition line_char (c : Z) (e : editor) (w : W) : res (editor * W + W) :=
  match estate e with
  | Normal => normal_char c e w
  | Esc => Ok (inl (e <| estate := if c =? 91 then CSI else Normal |>, w))
  | CSI => Ok (inl (if (0x40 <=? c) && (c <=? 0x7E) then e <| estate := Normal |> else e, w))
  end.

Fixpoint line_chars (l : list Z) (e : editor) (w : W) : res (editor * W + W) :=
  match l with
  | [] => Ok (inl (e, w))
  | c :: l =>
      r ← line_char c e w;
      match r with inl (e, w) => line_chars l e w | inr w => Ok (inr w) end
  end.

(** The loop over the reads; it is left by [exit]. *)
Fixpoint line_loop (fuel : nat) (e : editor) (w : W) : res W :=
  match fuel with
  | O => Err OutOfFuel
  | S n =>
      match tty_read READBUF w with
      | (w, inl _) => Ok w
      | (w, inr l) =>
          r ← line_chars l e w;
          match r with inl (e, w) => line_loop n e w | inr w => Ok w end
      end
  end.

(** The line buffer is not initialised. *)
Definition line_editor (fuel : nat) (junk : list Z) (w : W) : res W :=
  line_loop fuel (mkEd junk 0 Normal) w.
End termcook.

(** ** What the reader gets *)

Record cooked := mkCooked {
  line : list Z;
  cstate : tstate;
  got : list (option Z);     (* bytes, and ends of file *)
  echo : list Z;
  quit : bool;
}.
#[export] Instance cooked_settable : Settable cooked := fun s =>
  mkCooked (line s) (cstate s) (got s) (echo s) (quit s).

Definition enter (l : list Z) (s : cooked) : cooked :=
  s <| got ::= fun g => g ++ (Some <$> l) |> <| line := [] |>.

Definition cook_normal (c : Z) (s : cooked) : cooked :=
  if (c =? 8) || (c =? 127) then
    match line s with
    | [] => s
    | _ => s <| line ::= fun l => take (length l - 1) l |> <| echo ::= fun g => g ++ [8; 32; 8] |>
    end
  else if c =? 3 then s <| quit := true |>
  else if c =? 4 then
    match line s with
    | [] => s <| got ::= fun g => g ++ [None] |>
    | l => enter l s
    end
  else if (c =? 10) || (c =? 13) then
    let s := s <| echo ::= fun g => g ++ [10] |> in
    enter (if Z.of_nat (length (line s)) <? LINEBUF then line s ++ [10] else line s) s
  else if c =? 27 then s <| cstate := Esc |>
  else if c =? 9 then s
  else if Z.of_nat (length (line s)) <? LINEBUF then
    s <| line ::= fun l => l ++ [c] |> <| echo ::= fun g => g ++ [c] |>
  else s.

Definition cook (s : cooked) (c : Z) : cooked :=
  if quit s then s
  else match cstate s with
  | Normal => cook_normal c s
  | Esc => s <| cstate := if c =? 91 then CSI else Normal |>
  | CSI => if (0x40 <=? c) && (c <=? 0x7E) then s <| cstate := Normal |> else s
  end.

Definition cooked0 : cooked := mkCooked [] Normal [] [] false.

(** ** The terminal and the reader behave *)

(** A read with nothing left to read fails, otherwise it gives at least one
    byte; a write to the pipe takes at least one byte, and a write of none is an
    end of file. *)
Class TtyLaws (W : Type) `{Tty W} := {
  typed : W -> list Z;
  piped : W -> list (option Z);
  shown : W -> list Z;
  read_law : forall n w, 0 < n ->
    match tty_read n w with
    | (w', inr l) => l <> [] /\ Z.of_nat (length l) <= n /\ typed w = l ++ typed w' /\
                     piped w' = piped w /\ shown w' = shown w
    | (w', inl _) => typed w = [] /\ piped w' = piped w /\ shown w' = shown w
    end;
  write_law : forall data pos w, data <> [] ->
    let '(w', ret) := tty_write data pos w in
    0 < ret <= Z.of_nat (length data) /\
    piped w' = piped w ++ (Some <$> take (Z.to_nat ret) data) /\ typed w' = typed w /\ shown w' = shown w;
  eof_law : forall pos w,
    let w' := (tty_write [] pos w).1 in
    piped w' = piped w ++ [None] /\ typed w' = typed w /\ shown w' = shown w;
  print_law : forall l w,
    shown (tty_print l w) = shown w ++ l /\ typed (tty_print l w) = typed w /\
    piped (tty_print l w) = piped w;
}.

Lemma take_prefix {A} n (l buf : list A) :
  take (length l) buf = l -> take (length (take n l)) buf = take n l.
Proof. intros Hl. rewrite <- Hl at 2. rewrite take_take. f_equal. rewrite length_take. lia. Qed.

Section correct.
Context {W : Type} `{TtyLaws W}.

Lemma w_output_spec fuel (l buf : list Z) pos w :
  Z.of_nat (length l) <= Z.of_nat (length buf) -> take (length l) buf = l ->
  0 <= pos <= Z.of_nat (length l) -> Z.of_nat (length l) - pos <= Z.of_nat fuel ->
  exists w', w_output_loop fuel buf (Z.of_nat (length l)) pos w = Ok w' /\
    piped w' = piped w ++ (Some <$> drop (Z.to_nat pos) l) /\ typed w' = typed w /\ shown w' = shown w.
Proof.
  intros Hl Hb. revert pos w; induction fuel as [|n IH]; intros pos w Hp Hf; cbn [w_output_loop].
  - rewrite (proj2 (Z.ltb_ge _ _)) by lia. exists w. rewrite drop_ge by lia. by rewrite app_nil_r.
  - destruct (pos <? Z.of_nat (length l)) eqn:E; zbool.
    2:{ exists w. rewrite drop_ge by lia. by rewrite app_nil_r. }
    rewrite bload_in by lia. cbn [mbind res_bind].
    assert (take (Z.to_nat (Z.of_nat (length l) - pos)) (drop (Z.to_nat pos) buf) = drop (Z.to_nat pos) l) as ->.
    { rewrite <- Hb at 2. rewrite skipn_firstn_comm. f_equal. lia. }
    pose proof (length_drop l (Z.to_nat pos)) as Ld.
    assert (Hne : drop (Z.to_nat pos) l <> []) by (intros E0; rewrite E0 in Ld; cbn in Ld; lia).
    pose proof (write_law _ pos w Hne) as Hw.
    destruct (tty_write (drop (Z.to_nat pos) l) pos w) as [w1 ret]. destruct Hw as (Hr&Hp1&Ht1&Hs1).
    rewrite (proj2 (Z.ltb_ge ret 0)) by lia.
    destruct (IH (pos + ret) w1) as (w'&->&Hp'&Ht'&Hs'); [lia..|].
    exists w'. split; [done|]. split; [|split; congruence].
    rewrite Hp', Hp1, <- app_assoc. f_equal. rewrite <- fmap_app. f_equal.
    rewrite Z2Nat.inj_add, <- drop_drop by lia. apply take_drop.
Qed.

(** The editor's buffer starts with the line. *)
Record edits (e : editor) (w w0 : W) (s : cooked) : Prop := {
  ed_buf : Z.of_nat (length (linebuf e)) = LINEBUF;
  ed_line : linepos e = Z.of_nat (length (line s)) /\ take (length (line s)) (linebuf e) = line s;
  ed_pos : linepos e <= LINEBUF;
  ed_state : estate e = cstate s;
  ed_got : piped w = piped w0 ++ got s;
  ed_echo : shown w = shown w0 ++ echo s;
}.

Lemma output_line e w w0 s :
  edits e w w0 s -> exists w', w_output (linebuf e) (linepos e) w = Ok w' /\ typed w' = typed w /\
    edits (e <| linepos := 0 |>) w' w0 (enter (line s) s).
Proof.
  intros [Hb [Hp Hl] Hpos Hs Hg He]. unfold w_output. rewrite Hp.
  destruct (w_output_spec (Z.to_nat (Z.of_nat (length (line s)))) (line s) (linebuf e) 0 w)
    as (w'&E&P&T&S); [lia|done|lia|lia|].
  exists w'. split; [exact E|]. split; [done|]. split; cbn; [done|done|unfold LINEBUF; lia|done| |].
  - by rewrite P, Hg, <- app_assoc.
  - by rewrite S.
Qed.

Lemma append_line e w w0 s c :
  edits e w w0 s -> linepos e < LINEBUF -> exists b, bstore (linebuf e) (linepos e) [c] = Ok b /\
    edits (e <| linebuf := b |> <| linepos := linepos e + 1 |>) w w0 (s <| line ::= fun l => l ++ [c] |>).
Proof.
  intros [Hb [Hp Hl] Hpos Hs Hg He] Hlt. unfold LINEBUF in *.
  eexists. split; [apply bstore_in; cbn; lia|].
  assert (Hsp : Z.of_nat (length (splice (Z.to_nat (linepos e)) [c] (linebuf e))) = 256)
    by (rewrite length_splice; cbn; lia).
  split; cbn; [done| |unfold LINEBUF; lia|done..].
  rewrite length_app. cbn. split; [lia|].
  unfold splice. rewrite Hp, Nat2Z.id, Hl. rewrite app_assoc. apply take_app_length'. by rewrite length_app.
Qed.

Lemma edits_echo e w w0 s l :
  edits e w w0 s -> edits e (tty_print l w) w0 (s <| echo ::= fun g => g ++ l |>) /\
    typed (tty_print l w) = typed w.
Proof.
  intros [Hb Hl Hpos Hs Hg He]. destruct (print_law l w) as (Hs'&Ht&Hp). split; [|done]. split; try done.
  - by rewrite Hp.
  - by rewrite Hs', He, <- app_assoc.
Qed.

(** One character: the editor does what the abstract line does. *)
Definition answers (s : cooked) (w0 w : W) (r : editor * W + W) : Prop :=
  match r with
  | inl (e', w') => quit s = false /\ typed w' = typed w /\ edits e' w' w0 s
  | inr w' => quit s = true /\ piped w' = piped w0 ++ got s /\ shown w' = shown w0 ++ echo s
  end.

Lemma normal_char_cooks c e w w0 s :
  edits e w w0 s -> quit s = false ->
  exists r, normal_char c e w = Ok r /\ answers (cook_normal c s) w0 w r.
Proof.
  intros He Hq. pose proof He as [Hb [Hp Hl] Hpos Hst Hg Hec]. unfold normal_char, cook_normal.
  destruct ((c =? 8) || (c =? 127)) eqn:E8.
  { destruct (line s) as [|x l] eqn:El.
    - rewrite Hp. cbn. eexists. split; [reflexivity|]. split; [done|]. split; [done|exact He].
    - rewrite (proj2 (Z.eqb_neq (linepos e) 0)) by (rewrite Hp; cbn; lia). cbn [negb].
      destruct (edits_echo e w w0 s [8; 32; 8] He) as [[Hb' [Hp' Hl'] Hpos' Hst' Hg' Hec'] Ht'].
      eexists. split; [reflexivity|]. split; [done|]. split; [done|].
      cbn in Hp', Hl'. rewrite El in *. split; try done; cbn [linebuf linepos line set editor_settable cooked_settable].
      + rewrite El. split; [rewrite length_take; cbn in *; lia|by apply take_prefix].
      + lia. }
  destruct (c =? 3). { eexists. split; [reflexivity|]. done. }
  destruct (c =? 4).
  { destruct (line s) as [|x l] eqn:El.
    - rewrite Hp. cbn. eexists. split; [reflexivity|]. destruct (eof_law 0 w) as (P&T&S).
      split; [done|]. split; [done|]. split; try done; cbn; [by rewrite El|by rewrite P, Hg, <- app_assoc|by rewrite S].
    - rewrite (proj2 (Z.ltb_lt 0 (linepos e))) by (rewrite Hp; cbn; lia).
      destruct (output_line e w w0 s He) as (w'&->&Ht&He'). rewrite El in He'.
      eexists. split; [reflexivity|]. done. }
  destruct ((c =? 10) || (c =? 13)).
  { destruct (edits_echo e w w0 s [10] He) as [He1 Ht1]. cbv zeta.
    set (w1 := tty_print [10] w) in *. set (s1 := s <| echo ::= _ |>) in *.
    change (line s1) with (line s). rewrite <- Hp.
    destruct (linepos e <? LINEBUF) eqn:Elt; zbool.
    - destruct (append_line e w1 w0 s1 10 He1 Elt) as (b&->&He2). cbn [mbind res_bind].
      destruct (output_line _ w1 w0 _ He2) as (w'&E&Ht&He'). rewrite E. cbn [mbind res_bind].
      eexists. split; [reflexivity|]. split; [done|]. split; [congruence|]. exact He'.
    - cbn [mbind res_bind]. destruct (output_line e w1 w0 s1 He1) as (w'&->&Ht&He').
      eexists. split; [reflexivity|]. split; [done|]. split; [congruence|]. exact He'. }
  destruct (c =? 27). { eexists. split; [reflexivity|]. split; [done|]. split; [done|]. by split. }
  destruct (c =? 9). { eexists. split; [reflexivity|]. done. }
  rewrite <- Hp. destruct (linepos e <? LINEBUF) eqn:Elt; zbool; [|eexists; by split; [reflexivity|]].
  destruct (append_line e w w0 s c He Elt) as (b&->&He1). cbn [mbind res_bind].
  destruct (edits_echo _ w w0 _ [c] He1) as [He2 Ht2].
  eexists. split; [reflexivity|]. split; [done|]. split; [done|exact He2].
Qed.
Lemma line_char_cooks c e w w0 s :
  edits e w w0 s -> quit s = false -> exists r, line_char c e w = Ok r /\ answers (cook s c) w0 w r.
Proof.
  intros He Hq. unfold line_char, cook. rewrite Hq, (ed_state _ _ _ _ He).
  destruct (cstate s) eqn:Es; [by apply normal_char_cooks|..].
  - eexists. split; [reflexivity|]. split; [done|]. split; [done|]. destruct He. by split.
  - eexists. split; [reflexivity|]. destruct (_ && _); (split; [done|]; split; [done|]; destruct He; by split).
Qed.

Lemma cook_quit s l : quit s = true -> foldl cook s l = s.
Proof. intros Hq. induction l as [|c l IH]; [done|]. cbn. unfold cook at 2. by rewrite Hq. Qed.

Lemma line_chars_cook l e w w0 s :
  edits e w w0 s -> quit s = false ->
  exists r, line_chars l e w = Ok r /\ answers (foldl cook s l) w0 w r.
Proof.
  revert e w s; induction l as [|c l IH]; intros e w s He Hq; cbn [line_chars foldl].
  { eexists. split; [reflexivity|]. done. }
  destruct (line_char_cooks c e w w0 s He Hq) as (r&->&Hr). cbn [mbind res_bind].
  destruct r as [[e1 w1]|w1].
  - destruct Hr as (Hq1&Ht1&He1). destruct (IH e1 w1 _ He1 Hq1) as (r&->&Hr).
    exists r. split; [done|]. destruct r as [[e2 w2]|w2]; [|exact Hr].
    destruct Hr as (?&Ht2&?). split; [done|]. split; [congruence|done].
  - destruct Hr as (Hq1&Hp&Hs). exists (inr w1). split; [done|]. by rewrite cook_quit.
Qed.

Lemma line_loop_cooks fuel e w w0 s :
  edits e w w0 s -> quit s = false -> (length (typed w) < fuel)%nat ->
  exists w', line_loop fuel e w = Ok w' /\
    piped w' = piped w0 ++ got (foldl cook s (typed w)) /\
    shown w' = shown w0 ++ echo (foldl cook s (typed w)).
Proof.
  revert e w s; induction fuel as [|n IH]; intros e w s He Hq Hf; [lia|]. cbn [line_loop].
  pose proof (read_law READBUF w ltac:(unfold READBUF; lia)) as Hr.
  destruct (tty_read READBUF w) as [w1 [x|l]].
  - destruct Hr as (->&Hp&Hs). exists w1. split; [done|]. rewrite Hp, Hs. by destruct He.
  - destruct Hr as (Hne&Hl&Ht&Hp&Hs). rewrite Ht, foldl_app.
    assert (He1 : edits e w1 w0 s) by (destruct He; split; try done; congruence).
    destruct (line_chars_cook l e w1 w0 s He1 Hq) as (r&->&Hr). cbn [mbind res_bind].
    destruct r as [[e2 w2]|w2].
    + destruct Hr as (Hq2&Ht2&He2). rewrite <- Ht2. apply IH; [done|done|].
      rewrite Ht, length_app in Hf. rewrite Ht2. destruct l; [done|]. cbn in Hf. lia.
    + destruct Hr as (Hq2&Hp2&Hs2). exists w2. rewrite cook_quit by done. done.
Qed.

(** C22: the line discipline.  However the keystrokes are cut into reads, and
    however few bytes the pipe takes at a time, the editor stays inside its
    buffer and ends when nothing is left to read or on a control-C; until then
    what it has written to the pipe and to the screen is exactly what the
    abstract line gives for the keys: ordinary keys are echoed and collected,
    up to 256 of them, a backspace takes the last one back, an escape sequence
    is ignored, a return sends the line, an end of transmission sends what
    there is or an end of file. *)
Theorem line_editor_cooks fuel junk w :
  Z.of_nat (length junk) = LINEBUF -> (length (typed w) < fuel)%nat ->
  let s := foldl cook cooked0 (typed w) in
  exists w', line_editor fuel junk w = Ok w' /\
    piped w' = piped w ++ got s /\ shown w' = shown w ++ echo s.
Proof.
  intros Hj Hf s. apply line_loop_cooks; [|done|done].
  split; cbn; try done; by rewrite app_nil_r.
Qed.
End correct.

(** ** Consequences for the user *)

(** An ordinary key. *)
Definition ordinary (c : Z) : Prop := 32 <= c /\ c <> 127.

Lemma cook_ordinary s c :
  quit s = false -> cstate s = Normal -> ordinary c -> Z.of_nat (length (line s)) < LINEBUF ->
  cook s c = s <| line ::= fun l => l ++ [c] |> <| echo ::= fun g => g ++ [c] |>.
Proof.
  intros Hq Hn [Hc Hd] Hl. unfold cook, cook_normal. rewrite Hq, Hn.
  rewrite !(proj2 (Z.eqb_neq c _)) by lia. cbn [orb]. by rewrite (proj2 (Z.ltb_lt _ _)).
Qed.

Lemma cook_line s l :
  quit s = false -> cstate s = Normal -> Forall ordinary l ->
  Z.of_nat (length (line s ++ l)) <= LINEBUF ->
  foldl cook s l = s <| line ::= fun k => k ++ l |> <| echo ::= fun g => g ++ l |>.
Proof.
  intros Hq Hn Hl. revert s Hq Hn. induction Hl as [|c l Hc _ IH]; intros s Hq Hn Hlen; cbn [foldl].
  - destruct s. unfold set; cbn. by rewrite !app_nil_r.
  - rewrite length_app in Hlen. cbn in Hlen. rewrite cook_ordinary by (done || lia).
    rewrite IH; [|done|done|cbn; rewrite !length_app; cbn; lia].
    destruct s. unfold set; cbn. by rewrite <- !app_assoc.
Qed.

(** A line that fits is delivered as it was typed, with its end. *)
Lemma line_delivered l :
  Forall ordinary l -> Z.of_nat (length l) < LINEBUF ->
  got (foldl cook cooked0 (l ++ [13])) = Some <$> (l ++ [10]).
Proof.
  intros Hl Hlen. rewrite foldl_app, (cook_line cooked0 l) by (done || (change (line cooked0 ++ l) with l; lia)). cbn. by rewrite (proj2 (Z.ltb_lt _ _)).
Qed.

(** Of a line of 256 characters the end is lost: it runs into the next one. *)
Lemma long_line_loses_end l :
  Forall ordinary l -> Z.of_nat (length l) = LINEBUF ->
  got (foldl cook cooked0 (l ++ [13])) = Some <$> l.
Proof.
  intros Hl Hlen. rewrite foldl_app, (cook_line cooked0 l) by (done || (change (line cooked0 ++ l) with l; lia)). cbn.
  by rewrite (proj2 (Z.ltb_ge _ _)) by lia.
Qed.

(** A key and a backspace leave the line as it was. *)
Lemma erased s c :
  quit s = false -> cstate s = Normal -> ordinary c -> Z.of_nat (length (line s)) < LINEBUF ->
  let s' := cook (cook s c) 8 in line s' = line s /\ got s' = got s.
Proof.
  intros Hq Hn Hc Hl. rewrite (cook_ordinary s c) by done. unfold cook. cbn [quit cstate set cooked_settable].
  rewrite Hq, Hn. unfold cook_normal. cbn [Z.eqb Pos.eqb orb line set cooked_settable].
  assert (exists x l, line s ++ [c] = x :: l) as (x&l&E) by (destruct (line s); cbn; eauto). rewrite E.
  cbn [line got set cooked_settable]. rewrite E, <- E, length_app. cbn.
  split; [|done]. by rewrite Nat.add_sub, take_app_length.
Qed.

(** ** A terminal *)

(** Reads give up to three keys, writes take one byte. *)
Record some_tty := mkTty { keys : list Z; pipe : list (option Z); screen : list Z }.

#[export] Instance some_tty_calls : Tty some_tty := {|
  tty_read n w :=
    match keys w with
    | [] => (w, inl (-1))
    | l => (mkTty (drop (Nat.min 3 (Z.to_nat n)) l) (pipe w) (screen w), inr (take (Nat.min 3 (Z.to_nat n)) l))
    end;
  tty_write data _ w :=
    match data with
    | [] => (mkTty (keys w) (pipe w ++ [None]) (screen w), 0)
    | c :: _ => (mkTty (keys w) (pipe w ++ [Some c]) (screen w), 1)
    end;
  tty_print l w := mkTty (keys w) (pipe w) (screen w ++ l);
|}.

#[export] Instance some_tty_laws : TtyLaws some_tty.
Proof.
  refine {| typed := keys; piped := pipe; shown := screen |}.
  - intros n [l p s] Hn. destruct l as [|c l]; [done|]. cbn [tty_read some_tty_calls keys pipe screen].
    set (k := Nat.min 3 (Z.to_nat n)). assert (exists k', k = S k') as [k' Ek] by (exists (k - 1)%nat; unfold k; lia).
    split_and!; [by rewrite Ek| |by rewrite take_drop|done|done].
    rewrite length_take. unfold k. lia.
  - intros [|c data] pos [l p s] Hne; [done|]. cbn. split_and!; try done; lia.
  - intros pos [l p s]. done.
  - intros k [l p s]. done.
Defined.

(** "ab", a backspace, "c", an arrow key, a return, and the end of the file. *)
Definition some_keys : list Z := [97; 98; 8; 99; 27; 91; 65; 13; 4].

Lemma line_editor_cooks_witness :
  exists w', line_editor 10 (replicate 256 0) (mkTty some_keys [] []) = Ok w' /\
    pipe w' = [Some 97; Some 99; Some 10; None].
Proof.
  destruct (line_editor_cooks 10 (replicate 256 0) (mkTty some_keys [] [])) as (w'&E&Hp&_);
    [reflexivity|cbn; lia|].
  exists w'. split; [exact E|exact Hp].
Defined.
