(* ===== verification/Keyboard.v ===== *)
(** * Keyboard

    The keyboard server ([src/src/cmd/init/driver/ps2.c]): scan codes become
    characters, which wait in a ring until somebody reads them; readers wait in
    a queue of sixteen slots.  As in [NetFs], a thread's turn is handled to its
    end. *)

From stdpp Require Import gmap.
From S2P Require Import Prelude Ring KState UserFs.

Definition keymap_lower : list Z :=
  [ 0; 0; 49; 50; 51; 52; 53; 54; 55; 56; 57; 48; 45; 61; 8; 9;
    113; 119; 101; 114; 116; 121; 117; 105; 111; 112; 91; 93; 13; 0; 97; 115;
    100; 102; 103; 104; 106; 107; 108; 0; 39; 96; 0; 92; 122; 120; 99; 118;
    98; 110; 109; 44; 46; 47; 0; 42; 0; 32; 0; 0; 0; 0; 0; 0;
    0; 0; 0; 0; 0; 0; 0; 55; 56; 57; 45; 52; 53; 54; 43; 49;
    50; 51; 48; 46; 0; 0; 0; 0; 0; 0; 0; 0; 0; 0; 0; 0;
    0; 0; 0; 0; 0; 0; 0; 0; 0; 0; 0; 0; 0; 0; 0; 0;
    0; 0; 0; 0; 0; 0; 0; 0; 0; 0; 0; 0; 0; 0; 0; 0 ].

Definition keymap_upper : list Z :=
  [ 0; 0; 33; 64; 35; 36; 37; 94; 38; 42; 40; 41; 95; 43; 8; 9;
    81; 87; 69; 82; 84; 89; 85; 73; 79; 80; 123; 125; 13; 0; 65; 83;
    68; 70; 71; 72; 74; 75; 76; 58; 34; 126; 0; 124; 90; 88; 67; 86;
    66; 78; 77; 60; 62; 63; 0; 42; 0; 32; 0; 0; 0; 0; 0; 0;
    0; 0; 0; 0; 0; 0; 0; 55; 56; 57; 45; 52; 53; 54; 43; 49;
    50; 51; 48; 46; 0; 0; 0; 0; 0; 0; 0; 0; 0; 0; 0; 0;
    0; 0; 0; 0; 0; 0; 0; 0; 0; 0; 0; 0; 0; 0; 0; 0;
    0; 0; 0; 0; 0; 0; 0; 0; 0; 0; 0; 0; 0; 0; 0; 0 ].

Record kb := mkKb {
  keys : list bool;             (* of the 128 codes *)
  backlog : ring_t;
  queue : list Z;               (* 16 request handles, 0 for none *)
  responses : list (Z * list Z * Z);
}.
#[export] Instance kb_settable : Settable kb := fun k =>
  mkKb (keys k) (backlog k) (queue k) (responses k).

Definition kb0 : kb :=
  mkKb (replicate 128 false) (mkRing (replicate 16 0) 16 0 0) (replicate 16 0) [].

Definition EAGAIN : Z := 208.
Definition respond (h : Z) (data : list Z) (ret : Z) (k : kb) : kb :=
  k <| responses ::= fun l => l ++ [(h, data, ret)] |>.

(** ** Scan codes *)

Definition key (l : list bool) (c : Z) : bool := default false (l !! Z.to_nat c).

(** The character of a key with the modifiers held. *)
Definition key_char (shift ctrl : bool) (s : Z) : Z :=
  let upper := default 0 (keymap_upper !! Z.to_nat s) in
  let c := if shift then upper else default 0 (keymap_lower !! Z.to_nat s) in
  if ctrl && (65 <=? upper) && (upper <=? 90) then upper - 65 + 1 else c.

Definition parse_scancode (s : Z) (k : kb) : kb :=
  let ctrl := key (keys k) 0x1D in
  let shift := key (keys k) 0x2A || key (keys k) 0x36 in
  let down := Z.land s 0x80 =? 0 in
  let s := Z.land s 0x7f in
  let k := k <| keys ::= <[Z.to_nat s := down]> |> in
  let c := key_char shift ctrl s in
  if down && negb (c =? 0) then k <| backlog ::= fun r => ring_put1b r c |> else k.

(** ** Readers *)

(** The first slot that satisfies [f]. *)
Fixpoint first_slot (f : Z -> bool) (l : list Z) : option nat :=
  match l with
  | [] => None
  | h :: l => if f h then Some O else S <$> first_slot f l
  end.

Definition enqueue (h : Z) (k : kb) : kb :=
  match first_slot (fun q => q =? 0) (queue k) with
  | Some i => k <| queue ::= <[i := h]> |>
  | None => respond h [] (- EAGAIN) k
  end.

(** One character for one reader. *)
Definition fulfill (k : kb) : kb :=
  match first_slot (fun q => negb (q =? 0)) (queue k) with
  | None => k
  | Some i =>
      let '(r, out) := ring_get (backlog k) 1 in
      let k := k <| backlog := r |> in
      match out with
      | [] => k
      | _ => respond (default 0 (queue k !! i)) out 1 k <| queue ::= <[i := 0]> |>
      end
  end.

(** ** The threads *)

(** A turn of [kb_thread] with the bytes of a read, and of [fs_thread] with a
    request. *)
Definition kb_turn (buf : list Z) (k : kb) : kb :=
  fulfill (foldl (fun k s => parse_scancode s k) k buf).

Definition fs_turn (h : Z) (q : ufs_request) (k : kb) : kb :=
  match q_op q with
  | VFSOP_OPEN => if q_len q =? 0 then respond h [] 1 k else respond h [] (- ENOENT) k
  | VFSOP_READ => fulfill (enqueue h k)
  | _ => respond h [] (-1) k
  end.

Inductive event :=
| Scancodes (buf : list Z)
| Request (h : Z) (q : ufs_request).

Definition kb_step (k : kb) (e : event) : kb :=
  match e with
  | Scancodes buf => kb_turn buf k
  | Request h q => fs_turn h q k
  end.

(** ** What is typed *)

(** The keys that are held. *)
Definition held_after (d : gset Z) (s : Z) : gset Z :=
  if Z.land s 0x80 =? 0 then {[Z.land s 0x7f]} ∪ d else d ∖ {[Z.land s 0x7f]}.

Definition typed_char (d : gset Z) (s : Z) : list Z :=
  if Z.land s 0x80 =? 0 then
    let c := key_char (bool_decide (0x2A ∈ d) || bool_decide (0x36 ∈ d)) (bool_decide (0x1D ∈ d))
               (Z.land s 0x7f) in
    if c =? 0 then [] else [c]
  else [].

Fixpoint typed (d : gset Z) (l : list Z) : list Z :=
  match l with
  | [] => []
  | s :: l => typed_char d s ++ typed (held_after d s) l
  end.

Definition codes (e : event) : list Z := match e with Scancodes l => l | _ => [] end.

(** ** Proof *)

Definition event_ok (e : event) : Prop :=
  match e with
  | Scancodes buf => Forall is_byte buf
  | Request h q => h <> 0
  end.

Record kb_ok (d : gset Z) (k : kb) : Prop := {
  ko_keys : length (keys k) = 128%nat;
  ko_held : forall c, 0 <= c < 128 -> key (keys k) c = bool_decide (c ∈ d);
  ko_ring : ring_wf (backlog k) /\ rcapacity (backlog k) = 16;
  ko_queue : length (queue k) = 16%nat;
}.

Definition waiting (k : kb) : list Z := ring_abs (backlog k).
Definition served (k : kb) : list Z := mjoin ((fun a => a.1.2) <$> responses k).

(** The requests that have been answered or wait in the queue. *)
Definition known (k : kb) : list Z :=
  ((fun a => a.1.1) <$> responses k) ++ filter (fun h => h <> 0) (queue k).

Lemma kb0_ok : kb_ok ∅ kb0.
Proof.
  split; [done| |split; [decide_now|done]|done].
  intros c Hc. unfold key, kb0, keys. rewrite lookup_replicate_2 by lia. done.
Qed.

(** Never more characters wait than the ring can hold. *)
Fixpoint fits (d : gset Z) (k : kb) (evs : list event) : Prop :=
  match evs with
  | [] => True
  | e :: evs =>
      Z.of_nat (length (waiting k ++ typed d (codes e))) <= 15 /\
      fits (foldl held_after d (codes e)) (kb_step k e) evs
  end.

Lemma keymap_bytes : Forall (fun c => 0 <= c < 127) keymap_lower /\ Forall (fun c => 0 <= c < 127) keymap_upper.
Proof. split; decide_now. Qed.

Lemma key_char_byte shift ctrl s : is_byte (key_char shift ctrl s).
Proof.
  assert (H : forall m, Forall (fun c => 0 <= c < 127) m -> 0 <= default 0 (m !! Z.to_nat s) < 127).
  { intros m Hm. destruct (m !! Z.to_nat s) as [c|] eqn:E; [|cbn; lia].
    exact (Forall_lookup_1 _ _ _ _ Hm E). }
  destruct keymap_bytes as [Hl Hu]. pose proof (H _ Hl). pose proof (H _ Hu).
  unfold key_char, is_byte. repeat case_match; zbool; lia.
Qed.

Lemma code_low_bits s : is_byte s -> 0 <= Z.land s 0x7f < 128.
Proof. intros _. change 0x7f with (Z.ones 7). rewrite Z.land_ones by lia. apply Z.mod_pos_bound. lia. Qed.

(** *** Typing *)

Lemma parse_ok d k s :
  kb_ok d k -> is_byte s -> Z.of_nat (length (waiting k ++ typed_char d s)) <= 15 ->
  let k' := parse_scancode s k in
  kb_ok (held_after d s) k' /\ waiting k' = waiting k ++ typed_char d s /\
  responses k' = responses k /\ queue k' = queue k.
Proof.
  intros [Hk Hh [Hr Hc] Hq] Hs Hfit. pose proof (code_low_bits s Hs) as Hlow. unfold parse_scancode.
  rewrite !Hh by lia. set (c := key_char _ _ _).
  set (k1 := k <| keys ::= _ |>).
  assert (Hh1 : forall x, 0 <= x < 128 -> key (keys k1) x = bool_decide (x ∈ held_after d s)).
  { intros x Hx. unfold key, k1. cbn. unfold held_after. destruct (decide (x = Z.land s 0x7f)) as [->|Hne].
    - rewrite list_lookup_insert_eq by lia. cbn. destruct (_ =? 0); symmetry;
        [apply bool_decide_eq_true|apply bool_decide_eq_false]; set_solver.
    - rewrite list_lookup_insert_ne by lia. change (default false (keys k !! Z.to_nat x)) with (key (keys k) x).
      rewrite Hh by done. apply bool_decide_ext. destruct (_ =? 0); set_solver. }
  assert (Hl1 : length (keys k1) = 128%nat) by (unfold k1; cbn; by rewrite length_insert).
  assert (Ht : typed_char d s = if (Z.land s 0x80 =? 0) && negb (c =? 0) then [c] else []).
  { unfold typed_char. fold c. destruct (_ =? 0); [|done]. cbn. by destruct (c =? 0). }
  rewrite Ht in *. destruct ((Z.land s 128 =? 0) && negb (c =? 0)).
  - assert (Hcb : is_byte c) by apply key_char_byte.
    cbn. split_and!; try done.
    + split; [done|done| |done]. cbn. split; [by apply ring_put1b_wf|]. by rewrite ring_put1b_capacity.
    + unfold waiting in *. cbn. rewrite ring_put1b_abs by done. unfold Spec.put. rewrite Hc.
      apply take_ge. lia.
  - split_and!; [by split| |done|done]. by rewrite app_nil_r.
Qed.

Lemma typing_ok d k l :
  kb_ok d k -> Forall is_byte l -> Z.of_nat (length (waiting k ++ typed d l)) <= 15 ->
  let k' := foldl (fun k s => parse_scancode s k) k l in
  kb_ok (foldl held_after d l) k' /\ waiting k' = waiting k ++ typed d l /\
  responses k' = responses k /\ queue k' = queue k.
Proof.
  intros Hk Hl. revert d k Hk. induction Hl as [|s l Hs _ IH]; intros d k Hk Hfit; cbn [foldl typed].
  { split_and!; try done. by rewrite app_nil_r. }
  cbn [typed] in Hfit. rewrite !length_app in Hfit.
  destruct (parse_ok d k s Hk Hs) as (Hk1&Hw1&Hr1&Hq1); [rewrite length_app; lia|].
  destruct (IH _ _ Hk1) as (Hk2&Hw2&Hr2&Hq2); [rewrite Hw1, !length_app; lia|].
  split; [done|]. split; [by rewrite Hw2, Hw1, <- app_assoc|]. split; congruence.
Qed.

(** *** Serving *)

Lemma first_slot_spec f l i : first_slot f l = Some i -> exists x, l !! i = Some x /\ f x = true.
Proof.
  revert i; induction l as [|x l IH]; intros i H; [done|]. cbn in H. destruct (f x) eqn:E.
  - injection H as <-. by exists x.
  - destruct (first_slot f l) as [j|]; [|done]. injection H as <-. by apply IH.
Qed.

Lemma filter_replace (l : list Z) i x y :
  l !! i = Some x ->
  filter (fun h => h <> 0) (<[i := y]> l) ≡ₚ
  filter (fun h => h <> 0) [y] ++ filter (fun h => h <> 0) (take i l ++ drop (S i) l) /\
  filter (fun h => h <> 0) l ≡ₚ
  filter (fun h => h <> 0) [x] ++ filter (fun h => h <> 0) (take i l ++ drop (S i) l).
Proof.
  intros Hi. assert (i < length l)%nat by by apply lookup_lt_Some in Hi.
  split.
  - rewrite insert_take_drop by done. rewrite <- filter_app, <- Permutation_middle. done.
  - rewrite <- filter_app. rewrite <- (take_drop_middle l i x Hi) at 1. by rewrite <- Permutation_middle.
Qed.

Lemma enqueue_ok d k h :
  kb_ok d k -> h <> 0 ->
  kb_ok d (enqueue h k) /\ waiting (enqueue h k) = waiting k /\ served (enqueue h k) = served k /\
  known (enqueue h k) ≡ₚ h :: known k.
Proof.
  intros [Hk Hh Hr Hq] Hne. unfold enqueue. destruct (first_slot _ _) as [i|] eqn:E.
  - apply first_slot_spec in E as (x&Hi&Hx). zbool. subst x. cbn. split_and!; try done.
    + split; try done. cbn. by rewrite length_insert.
    + unfold known. cbn. destruct (filter_replace (queue k) i 0 h Hi) as [-> ->].
      rewrite (filter_cons_True _ h []) by done. rewrite (filter_cons_False _ 0 []) by tauto. cbn.
      by rewrite <- Permutation_middle.
  - cbn. split_and!; try done.
    + unfold served. cbn. rewrite fmap_app, join_app. cbn. by rewrite !app_nil_r.
    + unfold known. cbn. rewrite fmap_app. cbn. rewrite <- app_assoc. cbn. by rewrite <- Permutation_middle.
Qed.

Lemma fulfill_ok d k :
  kb_ok d k ->
  kb_ok d (fulfill k) /\ served (fulfill k) ++ waiting (fulfill k) = served k ++ waiting k /\
  known (fulfill k) ≡ₚ known k.
Proof.
  intros Hok. pose proof Hok as [Hk Hh [Hr Hc] Hq]. unfold fulfill.
  destruct (first_slot _ _) as [i|] eqn:E; [|done].
  apply first_slot_spec in E as (x&Hi&Hx). zbool.
  pose proof (ring_get_spec (backlog k) 1 Hr ltac:(lia)) as Hg.
  assert (Hcap : rcapacity (ring_get (backlog k) 1).1 = rcapacity (backlog k)) by done.
  destruct (ring_get (backlog k) 1) as [r out]. destruct Hg as [Hr' Hg]. cbn in Hcap.
  unfold Spec.get in Hg. injection Hg as Hd Ho.
  change (Z.to_nat 1) with 1%nat in *. fold (waiting k) in Hd, Ho.
  destruct out as [|b out].
  - split; [split; [done|done|split; [done|cbn; congruence]|done]|]. split; [|done].
    unfold waiting at 1. cbn. f_equal. rewrite Hd. by destruct (waiting k).
  - assert (waiting k = b :: ring_abs r /\ out = []) as [Hw ->].
    { revert Hd Ho. destruct (waiting k) as [|b' w]; [done|]. cbn. rewrite drop_0. intros -> [= -> ->]. done. }
    split_and!.
    + split; [done|done|split; [done|cbn; congruence]|]. cbn. by rewrite length_insert.
    + unfold served, waiting at 1. cbn. rewrite fmap_app, join_app. cbn. rewrite <- app_assoc. cbn.
      by rewrite Hw.
    + unfold known. cbn. rewrite Hi. cbn. rewrite fmap_app. cbn. rewrite <- app_assoc.
      apply Permutation_app_head. destruct (filter_replace (queue k) i x 0 Hi) as [-> ->].
      rewrite (filter_cons_True _ x []) by done. by rewrite (filter_cons_False _ 0 []) by tauto.
Qed.

Definition requests (evs : list event) : list Z :=
  omap (fun e => match e with Request h _ => Some h | _ => None end) evs.

Lemma respond_ok d k h ret :
  kb_ok d k -> kb_ok d (respond h [] ret k) /\ served (respond h [] ret k) = served k /\
    waiting (respond h [] ret k) = waiting k /\ known (respond h [] ret k) ≡ₚ h :: known k.
Proof.
  intros [? ? ? ?]. split_and!; [by split| |done|].
  - unfold served. cbn. rewrite fmap_app, join_app. cbn. by rewrite !app_nil_r.
  - unfold known. cbn. rewrite fmap_app. cbn. rewrite <- app_assoc. cbn. by rewrite <- Permutation_middle.
Qed.

Lemma step_ok d k e :
  kb_ok d k -> event_ok e -> Z.of_nat (length (waiting k ++ typed d (codes e))) <= 15 ->
  kb_ok (foldl held_after d (codes e)) (kb_step k e) /\
  served (kb_step k e) ++ waiting (kb_step k e) = served k ++ waiting k ++ typed d (codes e) /\
  known (kb_step k e) ≡ₚ requests [e] ++ known k.
Proof.
  intros Hk He Hfit. destruct e as [buf|h q]; cbn [codes kb_step] in *.
  - destruct (typing_ok d k buf Hk He Hfit) as (Hk1&Hw1&Hr1&Hq1). unfold kb_turn.
    destruct (fulfill_ok _ _ Hk1) as (Hk2&Hs2&Hp2). split; [done|]. split.
    + rewrite Hs2, Hw1. unfold served at 1. by rewrite Hr1.
    + rewrite Hp2. unfold known. by rewrite Hr1, Hq1.
  - cbn [foldl typed] in *. rewrite app_nil_r. unfold fs_turn.
    destruct (q_op q); try (destruct (respond_ok d k h (-1) Hk) as (?&->&->&?); by split_and!).
    + destruct (q_len q =? 0).
      * destruct (respond_ok d k h 1 Hk) as (?&->&->&?). by split_and!.
      * destruct (respond_ok d k h (- ENOENT) Hk) as (?&->&->&?). by split_and!.
    + destruct (enqueue_ok d k h Hk He) as (Hk1&Hw1&Hs1&Hp1).
      destruct (fulfill_ok _ _ Hk1) as (Hk2&Hs2&Hp2). split; [done|]. split; [by rewrite Hs2, Hw1, Hs1|].
      by rewrite Hp2, Hp1.
Qed.

(** C21: the keyboard delivers what is typed.  For scan codes and requests in any
    order, as long as never more than fifteen characters wait: the characters
    the readers have got, in the order of the answers, followed by those in the
    ring, are the characters typed, in order, each once, where a key gives the
    character of its map that the shift and control keys held at that moment
    select; and every request has been answered exactly once or is in the
    queue. *)
Theorem keyboard_delivers d k evs :
  kb_ok d k -> Forall event_ok evs -> fits d k evs ->
  let k' := foldl kb_step k evs in
  served k' ++ waiting k' = served k ++ waiting k ++ typed d (mjoin (codes <$> evs)) /\
  known k' ≡ₚ requests evs ++ known k.
Proof.
  intros Hk Hev. revert d k Hk. induction Hev as [|e evs He _ IH]; intros d k Hk Hf; cbn [foldl].
  { cbn. by rewrite app_nil_r. }
  destruct Hf as [Hfit Hf]. destruct (step_ok d k e Hk He Hfit) as (Hk1&Hs1&Hp1).
  destruct (IH _ _ Hk1 Hf) as [Hs2 Hp2]. split.
  - rewrite Hs2, app_assoc, Hs1. cbn [fmap list_fmap mjoin list_join].
    assert (Ht : forall l l' d, typed d (l ++ l') = typed d l ++ typed (foldl held_after d l) l').
    { clear. induction l as [|s l IH]; intros l' d; [done|]. cbn. by rewrite IH, <- app_assoc. }
    rewrite Ht. by rewrite <- !app_assoc.
  - rewrite Hp2, Hp1. change (requests (e :: evs)) with (requests ([e] ++ evs)).
    unfold requests. rewrite omap_app, app_assoc. apply Permutation_app_tail, Permutation_app_comm.
Qed.

(** A reader, then shift, h, the release of both, i. *)
Definition some_events : list event :=
  [Request 7 (mkUfs VFSOP_READ 0 1 1 0 0); Scancodes [0x2A; 0x23]; Scancodes [0xA3; 0xAA; 0x17];
   Request 9 (mkUfs VFSOP_READ 0 1 1 0 0)].

Lemma keyboard_delivers_witness :
  served (foldl kb_step kb0 some_events) = [72; 105] /\
  known (foldl kb_step kb0 some_events) ≡ₚ [7; 9].
Proof.
  destruct (keyboard_delivers ∅ kb0 some_events kb0_ok) as [Hs Hp].
  - repeat (apply Forall_cons; split; [first [decide_now|done]|]). by apply Forall_nil.
  - vm_compute. repeat split; discriminate.
  - split; [|exact Hp]. rewrite <- (app_nil_r (served _)). etrans; [exact Hs|]. vm_compute. reflexivity.
Defined.

(** Two characters that arrive in one read from the device wake one reader
    only: the other one goes on waiting although a character waits for it. *)
Lemma reader_left_waiting :
  let read h := Request h (mkUfs VFSOP_READ 0 1 1 0 0) in
  let k := foldl kb_step kb0 [read 7; read 9; Scancodes [0x23; 0x17]] in
  responses k = [(7, [104], 1)] /\ waiting k = [105] /\ 9 ∈ queue k.
Proof. cbv zeta. split_and!; [by vm_compute..|]. vm_compute. right. left. Qed.

(** A reader that comes later can be served first: it takes the slot that has
    become free in front. *)
Lemma later_reader_first :
  let read h := Request h (mkUfs VFSOP_READ 0 1 1 0 0) in
  let k := foldl kb_step kb0 [read 7; read 9; Scancodes [0x23]; read 11; Scancodes [0x17]] in
  responses k = [(7, [104], 1); (11, [105], 1)] /\ 9 ∈ queue k.
Proof. cbv zeta. split_and!; [by vm_compute..|]. vm_compute. right. left. Qed.
