(* ===== verification/Posix.v ===== *)
(** * Posix

    What the C library offers in the place of POSIX: starting a process with its
    files set up ([src/src/libc/spawn.c]), the older interface for file servers
    ([compat.c]), dispositions of signals ([signal.c]), memory ([mman.c]), the
    status of files ([sysstat.c]), and the small functions of [unistd/simple.c],
    [fcntl.c] and [time.c]. *)

From Stdlib Require Import String.
From S2P Require Import Prelude Monad Mem Ring Printf CString NetUtil KState Stdio StdioSpec Builtins Commands.

Local Open Scope list_scope.

Definition ENOMEM : Z := 7.

(** What it uses of the kernel beyond the other classes; a request is the bytes
    that are put into the buffer, with what is said about it. *)
Class Posix (K R : Type) := {
  sys_pipe : K -> Z * (Z * Z) * K;
  sys_memflag : Z -> Z -> Z -> K -> Z * K;
  sys_fs_wait : Z -> K -> Z * R * K;
  sys_fs_respond : Z -> list Z -> Z -> Z -> K -> Z * K;
  sys_intr : list Z -> K -> K;
  sys_wait_any : K -> Z * Z * K;                (* [_sys_wait2(-1)]: the result and the status *)
}.

Section small.
Context {K R : Type} `{Sys K, Sys2 K, Procs K, !Posix K R}.
Local Abbreviation L := (ST (stdio K) Empty_set).

(** ** [unistd/simple.c] *)

(** [errno = e, -1], where the result says so. *)
Definition check_errno (ret : Z) : L Z :=
  if ret <? 0 then set_errno (- ret);; mret (-1) else mret ret.

Definition nosys : L Z := set_errno ENOSYS;; mret (-1).

Definition readlink : L Z := nosys.
Definition link : L Z := nosys.
Definition symlink : L Z := nosys.
Definition chown : L Z := nosys.
Definition setpgid : L Z := nosys.
Definition tcgetpgrp : L Z := nosys.
Definition tcsetpgrp : L Z := nosys.

Definition isatty (fd : Z) : Z := if fd <=? 2 then 1 else 0.
Definition getuid : Z := 0.
Definition geteuid : Z := 0.
Definition getgid : Z := 0.
Definition getegid : Z := 0.
Definition access (path : list Z) (mode : Z) : Z := 0.

Definition getpid : L Z := call sys_getpid.
Definition getppid : L Z := call sys_getppid.

Definition read (fd count : Z) : L (Z * list Z) :=
  call (fun k => let '(r, d, k) := sys_read fd count (-1) k in ((r, d), k)).
Definition write (fd : Z) (data : list Z) : L Z := call (sys_write fd data (-1) 0).

Definition pipe : L (Z * (Z * Z)) :=
  '(ret, fds) ← call (fun k => let '(r, p, k) := sys_pipe k in ((r, p), k));
  if ret <? 0 then set_errno (- ret);; mret (-1, fds) else mret (0, fds).

Definition dup2 (oldfd newfd : Z) : L Z := ret ← call (sys_dup oldfd newfd 0); check_errno ret.

Definition sleep (seconds : Z) : L Z := modify (set kern (sys_sleep (u32 (seconds * 1000))));; mret 0.

(** ** [fcntl.c] *)

Definition F_DUPFD : Z := 3.

(** What is logged of the failures is not modelled. *)
Definition open (path : list Z) (flags : Z) : L Z := nosys.

Definition fcntl (fd cmd to : Z) : L Z :=
  if cmd =? F_DUPFD then call (sys_dup fd to DUP_SEARCH) else nosys.

(** ** [mman.c] *)

Definition MMAP_UNSUPPORTED : Z := 0xFFFF.
Definition MAP_ANONYMOUS : Z := 1.

(** The result is an address, 0 for a failure. *)
Definition mmap (addr len prot flags : Z) : L Z :=
  if (Z.land flags MMAP_UNSUPPORTED =? MMAP_UNSUPPORTED) || (Z.land prot MMAP_UNSUPPORTED =? MMAP_UNSUPPORTED)
     || (Z.land flags MAP_ANONYMOUS =? 0)
  then set_errno ENOSYS;; mret 0
  else
    p ← call (sys_memflag addr len (Z.lor MEMFLAG_FINDFREE MEMFLAG_PRESENT));
    (if p =? 0 then set_errno ENOMEM else mret ());;
    mret p.

Definition munmap (addr len : Z) : L Z := _ ← call (sys_memflag addr len 0); mret 0.

(** ** [sysstat.c]

    A [struct stat] is the list of its bytes: the device and the inode take four
    each, the mode is behind them. *)

Definition S_IFREG : Z := 0x8000.

(** [memset] clears as many bytes as a pointer has. *)
Definition fstat (fd : Z) (sb : list Z) : Z * list Z :=
  (0, splice 8 (le_bytes 4 (Z.lor 0x1FF S_IFREG)) (splice 0 (replicate 8 0) sb)).

Definition stat (path sb : list Z) : L (Z * list Z) :=
  fd ← open_ path Stdio.OPEN_READ;
  if fd <? 0 then mret (-1, sb)
  else
    let '(ret, sb) := fstat fd sb in
    close_ fd;;
    mret (ret, sb).

Definition lstat (path sb : list Z) : L (Z * list Z) := stat path sb.

(** ** [time.c] *)

(** The result, which is also stored where the argument points to. *)
Definition time : Z := 0.
Definition clock : Z := 0.
Definition mktime : Z := 0.
Definition strftime : Z := 0.
Definition ctime : list Z := lit "THE FUTURE".
Definition gmtime : L (option Z) := set_errno ENOSYS;; mret None.
Definition localtime : L (option Z) := set_errno ENOSYS;; mret None.
Definition utime : L Z := nosys.

(** ** [compat.c], last functions *)

Definition _sys_await : L Z :=
  '(ret, status) ← call (fun k => let '(r, st, k) := sys_wait_any k in ((r, st), k));
  mret (if ret <? 0 then -1 else status).

Definition _sys_filicide : L () := modify (set kern (sys_intr (before_nul (lit "kill")))).

(** Errors of [fcntl] are not in [errno], and not [-1]. *)
Lemma fcntl_leaves_errno fd to s r k :
  sys_dup fd to DUP_SEARCH (kern s) = (r, k) -> fcntl fd F_DUPFD to s = Val r (s <| kern := k |>).
Proof. intros E. unfold fcntl, call. cbn. by rewrite E. Qed.
End small.

(** The status has a mode, and elsewhere what was there before. *)
Lemma fstat_leaves_size fd sb i : (12 <= i < List.length sb)%nat -> (fstat fd sb).2 !! i = sb !! i.
Proof.
  intros Hi. unfold fstat. cbn [snd].
  assert (List.length (splice 0 (replicate 8 0) sb) = List.length sb) as Hl by (rewrite length_splice; rewrite ?length_replicate; lia).
  rewrite splice_lookup_out; [|change (List.length (le_bytes _ _)) with 4%nat; lia|change (List.length (le_bytes _ _)) with 4%nat; lia].
  apply splice_lookup_out; rewrite length_replicate; lia.
Qed.

(** ** [compat.c]: a file server with one request at a time *)

Record c0 (K : Type) := mkC0 { c_io : stdio K; c_h : Z }.
Arguments mkC0 {K}.
Arguments c_io {K}.
Arguments c_h {K}.
#[export] Instance c0_settable K : Settable (c0 K) := fun c => mkC0 (c_io c) (c_h c).

Section compat.
Context {K R : Type} `{Sys K, !Posix K R}.
Local Abbreviation C := (ST (c0 K) Empty_set).

Definition io {A} (m : ST (stdio K) Empty_set A) : C A := zoom c_io (fun s c => c <| c_io := s |>) m.

Definition c0_fs_respond (buf : list Z) (ret flags : Z) : C Z :=
  h ← gets c_h;
  ret ← io (call (sys_fs_respond h buf ret flags));
  modify (set c_h (fun _ => -1));;
  mret ret.

Definition c0_fs_wait (len : Z) : C (Z * R) :=
  h ← gets c_h;
  (if h =? -1 then mret ()
   else
     io (eprintf (lit "c0_fs_wait: proc didn't respond to request\n") []);;
     _ ← c0_fs_respond [] (-1) 0;
     mret ());;
  '(h, req) ← io (call (fun k => let '(h, r, k) := sys_fs_wait len k in ((h, r), k)));
  modify (set c_h (fun _ => h));;
  mret (if 0 <=? h then 0 else -1, req).

(** *** Every request is answered once

    [log] are the requests that the kernel has handed out and the answers that it
    was given, with their handles. *)
Inductive fs_event := Got (h : Z) | Answered (h : Z).

Context (log : K -> list fs_event).

Record keeps_log : Prop := {
  kl_write : forall k h data pos flags res k', sys_write h data pos flags k = (res, k') -> log k' = log k;
  kl_wait : forall k len h r k', sys_fs_wait len k = (h, r, k') ->
    log k' = if 0 <=? h then log k ++ [Got h] else log k;
  kl_respond : forall k h buf ret flags res k', sys_fs_respond h buf ret flags k = (res, k') ->
    log k' = if 0 <=? h then log k ++ [Answered h] else log k;
}.

(** The request that is open after the events, if they are in order: one request
    at a time, and answers to that one only. *)
Fixpoint in_turn (l : list fs_event) (open : option Z) : option (option Z) :=
  match l, open with
  | [], _ => Some open
  | Got h :: l, None => in_turn l (Some h)
  | Answered h :: l, Some h' => if h =? h' then in_turn l None else None
  | _, _ => None
  end.

Lemma in_turn_app l1 l2 o o' : in_turn l1 o = Some o' -> in_turn (l1 ++ l2) o = in_turn l2 o'.
Proof.
  revert o; induction l1 as [|[h|h] l1 IH]; intros o E; [by injection E as ->| |]; destruct o as [h'|]; try done; cbn in *.
  - by apply IH.
  - destruct (h =? h'); [by apply IH|done].
Qed.

Definition held (h : Z) : option Z := if 0 <=? h then Some h else None.

Definition c0_ok (c : c0 K) : Prop := in_turn (log (kern (c_io c))) None = Some (held (c_h c)).

Context (Hk : keeps_log).

Lemma printing_keeps_log f buf s s' : backend_file f buf s = Ok s' -> log (kern s') = log (kern s).
Proof.
  unfold backend_file. set (Rl := fun s s' : stdio K => log (kern s') = log (kern s)).
  assert (PreOrder Rl) as HR by (split; [done|intros s1 s2 s3 E1 E2; unfold Rl in *; congruence]).
  assert (steps (E := Empty_set) Rl (fwrite (K := K) buf 1 (Z.of_nat (List.length buf)) f)) as Hs.
  { assert (forall g, steps (E := Empty_set) Rl (rd_file (K := K) g)) as Hrd.
    { intros g. unfold rd_file. apply steps_bind; [apply _|by apply steps_get, _|]. intros t. by apply steps_deref, _. }
    assert (forall g y, steps (E := Empty_set) Rl (wr_file (K := K) g y)) as Hwr.
    { intros g y t. unfold wr_file, mbind, st_bind, get_, deref. by destruct (files t !! g). }
    unfold fwrite. apply steps_bind; [apply _|apply Hrd|]. intros x. destruct (fd x <? 0); [done|]. cbn [Z.eqb].
    apply steps_iter; [apply _|]. intros pos. unfold fwrite_turn. destruct (_ <=? _); [by apply steps_ret, _|].
    apply steps_bind; [apply _|apply Hrd|]. intros y. apply steps_bind; [apply _|by apply steps_lift, _|]. intros data.
    apply steps_bind; [apply _| |].
    { intros t. unfold call. destruct (sys_write _ _ _ _ _) as [res k] eqn:E. apply (kl_write Hk _ _ _ _ _ _ _ E). }
    intros res. unfold fadvance, read_failed. destruct (0 <? res).
    - apply steps_bind; [apply _|apply Hwr|]. intros _. by apply steps_ret, _.
    - apply steps_bind; [apply _| |].
      + destruct (res <? 0); [apply steps_bind; [apply _|apply Hwr|]; intros []; done|apply Hwr].
      + intros _. by apply steps_ret, _. }
  specialize (Hs s). destruct (fwrite _ _ _ _ s) as [n t|e t|x]; [|destruct e|done]. intros [= <-]. exact Hs.
Qed.

Lemma eprintf_keeps_log fmt args s s' : eprintf (K := K) fmt args s = Val () s' -> log (kern s') = log (kern s).
Proof.
  unfold eprintf, vfprintf, mbind, st_bind. destruct (printf_internal _ _ _ _) as [[r t]|x] eqn:E; [|done].
  intros [= <-].
  destruct (printf_sim (backend_file stderr) (backend_file stderr)
    (fun _ s1 s2 => s1 = s2 /\ log (kern s1) = log (kern s)) (fun _ => False))
    with (fmt := fmt) (args := args) (w1 := s) (w2 := s) (r := r) (w1' := t) as [(t'&_&_&Hl)|[_ []]]; try done.
  intros n s1 s2 b s1' _ [<- Hl] Eb. left. exists s1'. split; [exact Eb|].
  split; [done|]. by rewrite (printing_keeps_log _ _ _ _ Eb).
Qed.

Lemma respond_in_turn buf ret flags c r c' : c0_ok c -> c0_fs_respond buf ret flags c = Val r c' ->
  c0_ok c' /\ c_h c' = -1.
Proof.
  intros Hc. unfold c0_fs_respond, io, zoom, call, mbind, st_bind, gets. cbn.
  destruct (sys_fs_respond _ _ _ _ _) as [res k] eqn:E. cbn. intros [= <- <-]. split; [|done].
  unfold c0_ok in *. cbn. rewrite (kl_respond Hk _ _ _ _ _ _ _ E). unfold held in *.
  destruct (0 <=? c_h c); [|done]. rewrite (in_turn_app _ _ _ _ Hc). cbn. by rewrite Z.eqb_refl.
Qed.

Lemma wait_in_turn len c r c' : c0_ok c -> c0_fs_wait len c = Val r c' -> c0_ok c'.
Proof.
  intros Hc E. unfold c0_fs_wait in E. apply bind_val in E as (h&c1&E1&E). injection E1 as <- <-.
  apply bind_val in E as ([]&c1&E1&E).
  assert (c0_ok c1 /\ held (c_h c1) = None) as [Hc1 Hh].
  { destruct (Z.eqb_spec (c_h c) (-1)) as [Hh|_]; [injection E1 as <-; by rewrite Hh|].
    apply bind_val in E1 as ([]&c2&E2&E1). apply bind_val in E1 as (r2&c3&E3&E1). injection E1 as <-.
    unfold io, zoom in E2. destruct (eprintf _ _ (c_io c)) as [[] s2|e s2|x] eqn:Ee; [|destruct e|done].
    injection E2 as <-. apply eprintf_keeps_log in Ee.
    assert (c0_ok (mkC0 s2 (c_h c))) as Hc2 by (unfold c0_ok in *; cbn [c_io c_h]; by rewrite Ee).
    destruct (respond_in_turn _ _ _ _ _ _ Hc2 E3) as [? ->]. done. }
  apply bind_val in E as ([h req]&c2&E2&E). unfold io, zoom, call in E2.
  destruct (sys_fs_wait len (kern (c_io c1))) as [[h' req'] k] eqn:Ew. injection E2 as <- <- <-.
  apply bind_val in E as ([]&c3&E3&E). injection E3 as <-. injection E as _ <-.
  unfold c0_ok in *. cbn. rewrite (kl_wait Hk _ _ _ _ _ Ew). rewrite Hh in Hc1. unfold held in *.
  destruct (0 <=? h'); [|done]. by rewrite (in_turn_app _ _ _ _ Hc1).
Qed.

(** What a program calls. *)
Inductive c0_call := CWait (len : Z) | CRespond (buf : list Z) (ret flags : Z).

Definition c0_do (x : c0_call) : C () :=
  match x with
  | CWait len => _ ← c0_fs_wait len; mret ()
  | CRespond buf ret flags => _ ← c0_fs_respond buf ret flags; mret ()
  end.

(** However the program calls the two functions, twice or not at all, the kernel
    sees one request at a time, and for each one answer, to the request that is
    open; only the last may be open. *)
Theorem c0_answers_in_turn l s c : log (kern s) = [] -> forM l c0_do (mkC0 s (-1)) = Val () c ->
  in_turn (log (kern (c_io c))) None = Some (held (c_h c)).
Proof.
  intros Hl. assert (c0_ok (mkC0 s (-1))) as Hc by (unfold c0_ok; cbn; by rewrite Hl).
  revert Hc. generalize (mkC0 s (-1)) as c1. induction l as [|x l IH]; intros c1 Hc E; [by injection E as <-|].
  cbn [forM] in E. apply bind_val in E as ([]&c2&E2&E). eapply IH; [|exact E].
  destruct x as [len|buf ret flags]; apply bind_val in E2 as (r&c3&E3&E2); injection E2 as <-.
  - by eapply wait_in_turn.
  - by eapply respond_in_turn.
Qed.
End compat.

(** A kernel that notes the requests, numbered from 5 on, and the answers. *)
Definition log_sys : Sys (list fs_event) := {|
  sys_read := fun _ _ _ k => (0, [], k); sys_write := fun _ data _ _ k => (Z.of_nat (List.length data), k);
  sys_dup := fun h _ _ k => (h, k); sys_getsize := fun _ k => (0, k); sys_close := fun _ k => k;
  camellia_open := fun _ _ k => (3, k); malloc_ok := fun k => (true, k);
|}.

Definition log_posix : Posix (list fs_event) () := {|
  sys_pipe := fun k => (0, (3, 4), k);
  sys_memflag := fun addr _ _ k => (addr, k);
  sys_fs_wait := fun _ k => let h := 5 + Z.of_nat (List.length k) in (h, (), k ++ [Got h]);
  sys_fs_respond := fun h _ _ _ k => (0, if 0 <=? h then k ++ [Answered h] else k);
  sys_intr := fun _ k => k;
  sys_wait_any := fun k => (1, 0, k);
|}.

Lemma log_keeps_log : @keeps_log _ _ log_sys log_posix id.
Proof.
  split; cbn; unfold id.
  - by intros k h data pos flags res k' [= <- <-].
  - intros k len h r k' [= <- <- <-]. by rewrite (proj2 (Z.leb_le _ _)) by lia.
  - by intros k h buf ret flags res k' [= <- <-].
Qed.

(** A request that is not answered is, before the next one; an answer too many is
    not seen. *)
Lemma c0_forgotten :
  exists c, forM [CWait 10; CWait 10; CRespond [] 0 0; CRespond [] 0 0] (@c0_do _ _ log_sys log_posix)
      (mkC0 (stdio0 []) (-1)) = Val () c /\
    kern (c_io c) = [Got 5; Answered 5; Got 7; Answered 7].
Proof. eexists. split; [vm_compute; reflexivity|reflexivity]. Qed.

(** ** [signal.c] *)

(** What a signal does: nothing is said of it, but where it is said. *)
Inductive disposition := NoDisposition | SigDefault | SigAction (act : Z).

Definition sys_siglist : list (option string) :=
  [None; Some "SIGHUP"; Some "SIGINT"; Some "SIGQUIT"; Some "SIGILL"; Some "SIGTRAP"; Some "SIGABRT"; Some "SIGFPE";
   Some "SIGKILL"; Some "SIGSEGV"; Some "SIGPIPE"; Some "SIGALRM"; Some "SIGTERM"; Some "SIGCONT"; Some "SIGPIPE";
   Some "SIGTSTP"; Some "SIGTTIN"; Some "SIGTTOU"; Some "SIGWINCH"; Some "SIGCHLD"]%string.

Definition sigaction_current0 : list disposition := NoDisposition :: replicate 19 SigDefault.

Definition SIGKILL : Z := 9.

(** The result, [errno] and the table; where the old disposition should go nothing
    is written. *)
Definition sigaction (sig : Z) (act : option Z) (oldact : bool) (errno : Z) (current : list disposition) :
    res (Z * Z * list disposition) :=
  if Z.of_nat (List.length current) <=? sig then Ok (-1, EINVAL, current)
  else
    (if oldact && (sig <? 0) then Err Undefined else Ok ());;
    match act with
    | None => Ok (0, errno, current)
    | Some act =>
        if sig =? SIGKILL then Ok (-1, EINVAL, current)
        else if sig <? 0 then Err Undefined
        else Ok (0, errno, <[Z.to_nat sig := SigAction act]> current)
    end.

Definition sigemptyset : Z := 0.
Definition sigfillset : Z := 0.
Definition sigprocmask : Z := 0.

(** What is set is kept, for every signal that there is room for but one, and
    others do not change. *)
Lemma sigaction_sets sig act oldact errno current :
  0 <= sig < Z.of_nat (List.length current) -> sig <> SIGKILL ->
  exists current', sigaction sig (Some act) oldact errno current = Ok (0, errno, current') /\
    current' !! Z.to_nat sig = Some (SigAction act) /\
    forall i, i <> Z.to_nat sig -> current' !! i = current !! i.
Proof.
  intros Hs Hk. unfold sigaction. rewrite (proj2 (Z.leb_gt _ _)), (proj2 (Z.ltb_ge sig 0)), andb_false_r by lia.
  cbn [mbind res_bind]. rewrite (proj2 (Z.eqb_neq _ _)) by done. eexists. split; [reflexivity|]. split.
  - apply list_lookup_insert_eq. lia.
  - intros i Hi. by apply list_lookup_insert_ne.
Qed.

(** The numbers of signals are not those of the tables: [SIGKILL] is called
    [SIGSEGV], and there is no room for [SIGTTOU]. *)
Lemma siglist_shifted : sys_siglist !! Z.to_nat SIGKILL = Some (Some "SIGSEGV"%string).
Proof. done. Qed.

Lemma sigttou_refused act : sigaction 20 (Some act) false 0 sigaction_current0 = Ok (-1, EINVAL, sigaction_current0).
Proof. done. Qed.

(** ** [spawn.c] *)

Definition ACT_DUP2 : Z := 1.

Record file_action := mkAct { fa_next : option positive; fa_type : Z; fa_a : Z; fa_b : Z }.
#[export] Instance file_action_settable : Settable file_action := fun a =>
  mkAct (fa_next a) (fa_type a) (fa_a a) (fa_b a).

(** The actions, behind pointers, and the first one of the list. *)
Record spawn (K : Type) := mkSpawn {
  sp_io : stdio K; sp_acts : gmap positive file_action; sp_fresh : positive; sp_first : option positive;
}.
Arguments mkSpawn {K}.
Arguments sp_io {K}.
Arguments sp_acts {K}.
Arguments sp_fresh {K}.
Arguments sp_first {K}.
#[export] Instance spawn_settable K : Settable (spawn K) := fun s =>
  mkSpawn (sp_io s) (sp_acts s) (sp_fresh s) (sp_first s).

Section spawn.
Context {K : Type} `{Sys K, Sys2 K, Procs K}.
Local Abbreviation S := (ST (spawn K) Z).

Definition sp_lib {A} (m : ST (stdio K) Z A) : S A := zoom sp_io (fun t s => s <| sp_io := t |>) m.

(** The pointer to an action that [tail] points to: that of the list, or that of
    an action. *)
Definition slot_value (slot : option positive) : S (option positive) :=
  match slot with
  | None => gets sp_first
  | Some p => s ← get_; a ← deref (sp_acts s !! p); mret (fa_next a)
  end.

Definition slot_write (slot : option positive) (v : option positive) : S () :=
  match slot with
  | None => modify (set sp_first (fun _ => v))
  | Some p =>
      s ← get_; a ← deref (sp_acts s !! p);
      put_ (s <| sp_acts ::= <[p := a <| fa_next := v |>]> |>)
  end.

Definition tail_turn (slot : option positive) : S (option positive + option positive) :=
  v ← slot_value slot;
  match v with Some q => mret (inl (Some q)) | None => mret (inr slot) end.

Definition posix_spawn_file_actions_adddup2 (from to : Z) : S Z :=
  ok ← sp_lib (lib (call malloc_ok));
  if negb ok then mret ENOMEM
  else
    s ← get_;
    let fact := sp_fresh s in
    put_ (s <| sp_acts ::= <[fact := mkAct None ACT_DUP2 from to]> |> <| sp_fresh := Pos.succ fact |>);;
    slot ← iter (2 + size (sp_acts s)) tail_turn None;
    slot_write slot (Some fact);;
    mret 0.

Definition destroy_turn (_ : ()) : S (() + Z) :=
  s ← get_;
  match sp_first s with
  | None => mret (inr 0)
  | Some cur =>
      a ← deref (sp_acts s !! cur);
      put_ (s <| sp_first := fa_next a |> <| sp_acts ::= delete cur |>);;
      mret (inl ())
  end.

Definition posix_spawn_file_actions_destroy : S Z := s ← get_; iter (1 + size (sp_acts s)) destroy_turn ().

Definition posix_spawn_file_actions_init : S Z := modify (set sp_first (fun _ => None));; mret 0.

(** The child's loop over the actions. *)
Definition action_turn (fact : option positive) : S (option positive + ()) :=
  match fact with
  | None => mret (inr ())
  | Some p =>
      s ← get_; a ← deref (sp_acts s !! p);
      (if fa_type a =? ACT_DUP2 then _ ← sp_lib (lib (dup2 (fa_a a) (fa_b a))); mret () else mret ());;
      mret (inl (fa_next a))
  end.

(** [facts] is whether there is a list; [fuel] is that of [execvpe]. *)
Definition spawn_child (fuel : nat) (file : list Z) (facts : bool) (argv : list (list Z)) : S Empty_set :=
  s ← get_;
  iter (2 + size (sp_acts s)) action_turn (if facts then sp_first s else None);;
  _ ← sp_lib (execvpe fuel file argv);
  exit_ 127.

(** The parent: the error, and the pid with the kernel in which the child goes on,
    if there is one. *)
Definition posix_spawnp (attrp : bool) : S (Z * option (Z * K)) :=
  if attrp then mret (ENOSYS, None)
  else
    s ← get_;
    let '(pid, kp, kc) := sys_fork (kern (sp_io s)) in
    put_ (s <| sp_io := sp_io s <| kern := kp |> |>);;
    if pid <? 0 then mret (errno (sp_io s), None) else mret (0, Some (pid, kc)).

(** [fork] does not set [errno], so that a failure may look like a success. *)
Lemma spawn_failure_unnoticed s pid kp kc :
  sys_fork (kern (sp_io s)) = (pid, kp, kc) -> pid < 0 -> errno (sp_io s) = 0 ->
  exists s', posix_spawnp false s = Val (0, None) s'.
Proof.
  intros E Hp He. eexists. unfold posix_spawnp, mbind, st_bind, get_. rewrite E. cbn.
  by rewrite (proj2 (Z.ltb_lt _ _)), He.
Qed.

(** *** The list *)

(** The list of actions from a pointer on. *)
Fixpoint acts_at (m : gmap positive file_action) (p : option positive) (l : list (positive * (Z * Z))) : Prop :=
  match l, p with
  | [], None => True
  | (q, (a, b)) :: l, Some p => p = q /\ exists n, m !! p = Some (mkAct n ACT_DUP2 a b) /\ acts_at m n l
  | _, _ => False
  end.

Record acts_ok (s : spawn K) (l : list (positive * (Z * Z))) : Prop := {
  ao_list : acts_at (sp_acts s) (sp_first s) l;
  ao_nodup : NoDup l.*1;
  ao_fresh : forall p, (sp_fresh s <= p)%positive -> sp_acts s !! p = None;
}.

Lemma acts_at_mem m p l q ab : acts_at m p l -> (q, ab) ∈ l -> exists n, m !! q = Some (mkAct n ACT_DUP2 ab.1 ab.2).
Proof.
  revert p; induction l as [|[q' [a b]] l IH]; intros p Hl Hin; [by apply not_elem_of_nil in Hin|].
  destruct p as [p|]; [|done]. destruct Hl as (<-&n&E&Hl). apply elem_of_cons in Hin as [[= -> ->]|Hin]; [by exists n|].
  by eapply IH.
Qed.

Lemma acts_at_keep m m' p l : acts_at m p l -> (forall q, q ∈ l.*1 -> m' !! q = m !! q) -> acts_at m' p l.
Proof.
  revert p; induction l as [|[q [a b]] l IH]; intros p Hl Hm; [done|]. destruct p as [p|]; [|done].
  destruct Hl as (->&n&E&Hl). split; [done|]. exists n. split.
  - rewrite Hm; [done|]. cbn. by left.
  - eapply IH; [exact Hl|]. intros q' Hq. apply Hm. cbn. by right.
Qed.

Lemma acts_short m p l : acts_at m p l -> NoDup l.*1 -> (List.length l <= size m)%nat.
Proof.
  intros Hl Hn. rewrite <- (length_fmap fst l), <- (size_list_to_set (C := gset positive) _ Hn), <- size_dom.
  apply subseteq_size. intros q Hq. apply elem_of_list_to_set, list_elem_of_fmap in Hq as ([q' ab]&->&Hin).
  destruct (acts_at_mem _ _ _ _ _ Hl Hin) as [n E]. apply elem_of_dom. by eexists.
Qed.

(** The slot at the end of the list, which the walk finds. *)
Definition slot_of (l : list (positive * (Z * Z))) (slot : option positive) : option positive :=
  match last l with Some (q, _) => Some q | None => slot end.

Lemma slot_of_cons x l slot : slot_of (x :: l) slot = slot_of l (Some x.1).
Proof. unfold slot_of. destruct l as [|y l]; [by destruct x|]. rewrite last_cons_cons.
  by destruct (last (y :: l)) as [[]|] eqn:E; [|apply last_None in E].
Qed.

Lemma tail_turn_val slot v s : slot_value slot s = Val v s ->
  tail_turn slot s = Val (match v with Some q => inl (Some q) | None => inr slot end) s.
Proof. intros Ev. unfold tail_turn. rewrite (after_val _ _ _ _ _ Ev). by destruct v. Qed.

Lemma tail_found l : forall n slot v s, slot_value slot s = Val v s -> acts_at (sp_acts s) v l -> (List.length l < n)%nat ->
  iter n tail_turn slot s = Val (slot_of l slot) s.
Proof.
  induction l as [|[q [a b]] l IH]; intros [|n] slot v s Ev Hl Hn; cbn in Hn; try lia; cbn [iter].
  - destruct v; [done|]. by rewrite (after_val _ _ _ _ _ (tail_turn_val _ _ _ Ev)).
  - destruct v as [p|]; [|done]. destruct Hl as (->&m&E&Hl).
    rewrite (after_val _ _ _ _ _ (tail_turn_val _ _ _ Ev)).
    rewrite slot_of_cons. cbv beta iota. eapply IH; [|exact Hl|lia].
    unfold slot_value, mbind, st_bind, get_. cbn [fst]. by rewrite E.
Qed.

(** A new action behind the last one. *)
Lemma acts_at_snoc m p l q a b :
  acts_at m p l -> NoDup l.*1 -> q ∉ l.*1 -> m !! q = Some (mkAct None ACT_DUP2 a b) ->
  match last l with
  | None => acts_at m (Some q) [(q, (a, b))]
  | Some (e, _) => exists x, m !! e = Some x /\
      acts_at (<[e := x <| fa_next := Some q |>]> m) p (l ++ [(q, (a, b))])
  end.
Proof.
  revert p; induction l as [|[e [c d]] l IH]; intros p Hl Hn Hq Em; [by split; [|exists None]|].
  destruct p as [p|]; [|done]. destruct Hl as (->&n&E&Hl). apply NoDup_cons in Hn as [He Hn]. fold (l.*1) in *.
  destruct l as [|y l].
  - cbn. exists (mkAct n ACT_DUP2 c d). split; [done|]. split; [done|]. exists (Some q).
    rewrite lookup_insert_eq. split; [done|]. split; [done|]. exists None. split; [|done].
    rewrite lookup_insert_ne; [done|]. intros ->. apply Hq. left.
  - rewrite last_cons_cons. specialize (IH n Hl Hn ltac:(intros ?; apply Hq; by right) Em).
    destruct (last (y :: l)) as [[e' ab]|] eqn:El; [|by apply last_None in El]. destruct IH as (x&Ex&Hx).
    exists x. split; [done|]. split; [done|]. exists n. split; [|exact Hx].
    rewrite lookup_insert_ne; [done|]. intros ->. apply He. apply last_Some_elem_of in El.
    exact (list_elem_of_fmap_2 fst (y :: l) (e, ab) El).
Qed.

Lemma acts_ok_empty io : acts_ok (mkSpawn io ∅ 1 None) [].
Proof. by split; [|apply NoDup_nil|]. Qed.

(** Adding an action: behind the others. *)
Theorem adddup2_appends from to l s :
  acts_ok s l -> (exists k, malloc_ok (kern (sp_io s)) = (true, k)) ->
  runs (posix_spawn_file_actions_adddup2 from to) s (fun r s' =>
    r = 0 /\ acts_ok s' (l ++ [(sp_fresh s, (from, to))])).
Proof.
  intros [Hl Hn Hf] [k Em]. unfold runs, posix_spawn_file_actions_adddup2.
  erewrite after_val by (unfold sp_lib, zoom, lib, call; rewrite Em; reflexivity). cbn [negb].
  erewrite after_val by reflexivity. erewrite after_val by reflexivity.
  set (fact := sp_fresh s). set (m := <[fact := mkAct None ACT_DUP2 from to]> (sp_acts s)).
  set (s1 := mkSpawn (sp_io s <| kern := k |>) m (Pos.succ fact) (sp_first s)).
  assert (forall q, q ∈ l.*1 -> m !! q = sp_acts s !! q) as Hm.
  { intros q Hq. apply lookup_insert_ne. intros E0. apply list_elem_of_fmap in Hq as ([q' ab]&Eq&Hq).
    destruct (acts_at_mem _ _ _ _ _ Hl Hq) as [n E]. cbn in Eq. rewrite Hf in E by (subst q q' fact; lia). done. }
  assert (acts_at m (sp_first s) l) as Hl1 by (by eapply acts_at_keep).
  assert (fact ∉ l.*1) as Hfl.
  { intros Hq. apply Hm in Hq. unfold m in Hq. rewrite lookup_insert_eq, Hf in Hq by (subst fact; lia). done. }
  pose proof (acts_short _ _ _ Hl Hn) as Hlen.
  match goal with |- context [iter ?n tail_turn None ≫= ?f] =>
    change (match (iter n tail_turn None ≫= f) s1 with Val r s' => r = 0 /\ acts_ok s' (l ++ [(fact, (from, to))]) | _ => False end) end.
  erewrite after_val by (eapply (tail_found l); [reflexivity|exact Hl1|cbn; lia]).
  assert (NoDup (l ++ [(fact, (from, to))]).*1) as Hn1.
  { rewrite fmap_app. apply NoDup_app. split; [done|]. split; [|apply NoDup_singleton].
    intros q Hq Hq'. apply list_elem_of_singleton in Hq' as ->. done. }
  pose proof (acts_at_snoc m (sp_first s) l fact from to Hl1 Hn Hfl ltac:(apply lookup_insert_eq)) as Hsn.
  unfold slot_of. destruct (last l) as [[e ab]|] eqn:El.
  - destruct Hsn as (x&Ex&Hx).
    erewrite after_val by (unfold slot_write, mbind, st_bind, get_; cbn [sp_acts s1]; rewrite Ex; reflexivity).
    split; [done|]. split; [exact Hx|done|]. intros p Hp. cbn in Hp |- *.
    rewrite lookup_insert_ne; [unfold m; rewrite lookup_insert_ne by lia; apply Hf; lia|].
    intros ->. unfold m in Ex. destruct (decide (p = fact)) as [->|Hne]; [lia|].
    rewrite lookup_insert_ne, Hf in Ex by (done || lia). done.
  - apply last_None in El as ->. erewrite after_val by reflexivity. split; [done|]. split; [exact Hsn|done|].
    intros p Hp. cbn in Hp |- *. unfold m. rewrite lookup_insert_ne by lia. apply Hf. lia.
Qed.

(** What an action does, whatever the kernel answers. *)
Definition act (ab : Z * Z) : S () := _ ← sp_lib (lib (dup2 ab.1 ab.2)); mret ().

Lemma act_done ab s : exists s', act ab s = Val () s' /\ sp_acts s' = sp_acts s /\ sp_first s' = sp_first s.
Proof.
  unfold act, sp_lib, zoom, lib, dup2, check_errno, call, mbind, st_bind.
  destruct (sys_dup _ _ _ _) as [r k]. destruct (r <? 0); by eexists.
Qed.

Lemma action_turn_act q n a b s s' :
  sp_acts s !! q = Some (mkAct n ACT_DUP2 a b) -> act (a, b) s = Val () s' ->
  action_turn (Some q) s = Val (inl n) s'.
Proof.
  intros E Ea. unfold action_turn. erewrite after_val by reflexivity. cbv beta.
  erewrite after_val by (rewrite E; reflexivity). cbn [fa_type fa_a fa_b fa_next ACT_DUP2 Z.eqb Pos.eqb].
  by erewrite after_val by exact Ea.
Qed.

(** The child carries the actions out in the order in which they were added. *)
Lemma actions_in_order l : forall n p s,
  acts_at (sp_acts s) p l -> (List.length l < n)%nat -> iter n action_turn p s = forM l.*2 act s.
Proof.
  induction l as [|[q [a b]] l IH]; intros [|n] p s Hl Hn; cbn in Hn; try lia; (destruct p as [p|]; [|try done]); [done|].
  destruct Hl as (->&x&E&Hl). destruct (act_done (a, b) s) as (s'&Ea&Em&_).
  cbn [iter fmap list_fmap forM snd]. rewrite (after_val _ _ _ _ _ (action_turn_act _ _ _ _ _ _ E Ea)).
  rewrite (after_val _ _ _ _ _ Ea). cbv beta iota. apply IH; [by rewrite Em|lia].
Qed.

(** A process that is spawned: its files are set up by the actions in their order,
    then the program is run; what cannot be run ends with 127. *)
Theorem spawned_child fuel file argv l s : acts_ok s l ->
  spawn_child fuel file true argv s =
  (forM l.*2 act;; _ ← sp_lib (execvpe fuel file argv); exit_ 127) s.
Proof.
  intros [Hl Hn _]. unfold spawn_child. erewrite after_val by reflexivity.
  pose proof (acts_short _ _ _ Hl Hn). unfold mbind at 1 3, st_bind at 1 3.
  by rewrite (actions_in_order l) by (done || lia).
Qed.

(** Nothing is left of a list that is destroyed. *)
Lemma destroy_frees_from l : forall n s, acts_at (sp_acts s) (sp_first s) l -> NoDup l.*1 -> (List.length l < n)%nat ->
  runs (iter n destroy_turn ()) s (fun r s' => r = 0 /\ sp_first s' = None /\ sp_io s' = sp_io s /\
    forall q, sp_acts s' !! q = if decide (q ∈ l.*1) then None else sp_acts s !! q).
Proof.
  induction l as [|[q [a b]] l IH]; intros [|n] s Hl Hnd Hn; cbn in Hn; try lia; destruct (sp_first s) as [p|] eqn:Ef; try done.
  - unfold runs. cbn [iter]. erewrite (after_val _ _ _ (inr 0)) by (unfold destroy_turn; erewrite after_val by reflexivity; by rewrite Ef).
    cbv iota beta. by split_and!.
  - destruct Hl as (->&x&E&Hl). apply NoDup_cons in Hnd as [Hq Hnd]. fold (l.*1) in *.
    unfold runs. cbn [iter]. erewrite (after_val _ _ _ (inl ())).
    2: { unfold destroy_turn. erewrite after_val by reflexivity. rewrite Ef. erewrite after_val by (rewrite E; reflexivity). reflexivity. }
    eapply runs_mono; [eapply IH|].
    + cbn. eapply acts_at_keep; [exact Hl|]. intros q' Hq'. apply lookup_delete_ne. intros <-. done.
    + done.
    + lia.
    + intros r s' (->&Hf&Hio&Hs). split_and!; try done. intros q'. rewrite Hs. cbn.
      destruct (decide (q' = q)) as [->|Hne].
      * rewrite lookup_delete_eq, (decide_True (P := q ∈ q :: l.*1)) by left. by case_decide.
      * rewrite lookup_delete_ne by done. destruct (decide (q' ∈ l.*1)) as [Hin|Hin].
        -- by rewrite decide_True by (by right).
        -- rewrite decide_False; [done|]. intros [->|]%elem_of_cons; done.
Qed.

Theorem destroy_frees l s : acts_ok s l ->
  runs posix_spawn_file_actions_destroy s (fun r s' => r = 0 /\ sp_first s' = None /\ sp_io s' = sp_io s /\
    forall q, sp_acts s' !! q = if decide (q ∈ l.*1) then None else sp_acts s !! q).
Proof.
  intros [Hl Hn _]. unfold posix_spawn_file_actions_destroy. apply runs_bind, runs_get.
  apply destroy_frees_from; [done|done|]. pose proof (acts_short _ _ _ Hl Hn). lia.
Qed.
End spawn.
