(* ===== verification/Demos.v ===== *)
(** * Demos

    Small programs that show what the system can do: a rectangle that moves over
    the screen ([src/src/cmd/dvd.c]), the list of processes ([ps.c]), the two
    directions of a connection ([netdog.c]), and a measurement of writes
    ([iostress.c]). *)

From Stdlib Require Import String.
From S2P Require Import Prelude Monad Mem Printf CString NetUtil KState Stdio StdioSpec UserFs Builtins Dirent Commands.
From S2P Require Import Buf Draw.

Local Open Scope list_scope.

(** ** [dvd.c] *)

(** The screen, what is marked, the direction, the place and the colour. *)
Record dvd := mkDvd { v_fb : framebuf; v_dirty : rect; v_dx : Z; v_dy : Z; v_x : Z; v_y : Z; v_col : Z }.
#[export] Instance dvd_settable : Settable dvd := fun v =>
  mkDvd (v_fb v) (v_dirty v) (v_dx v) (v_dy v) (v_x v) (v_y v) (v_col v).

Definition box_w : Z := 150.
Definition box_h : Z := 70.

(** The innermost statement of [draw_rect]. *)
Definition draw_point (x y col i j : Z) (f : framebuf) : res framebuf :=
  b ← bstore (f_b f) (u64 (f_pitch f * u32 (y + j) + u32 (4 * u32 (x + i)))) (le_bytes 4 col);
  Ok (f <| f_b := b |>).

Definition draw_rect (x y w h col : Z) (v : dvd) : res dvd :=
  f ← for_from (fun i f => for_from (fun j f => draw_point x y col i j f) 0 (Z.to_nat h) f) 0 (Z.to_nat w) (v_fb v);
  Ok (v <| v_fb := f |> <| v_dirty := dirty_mark (dirty_mark (v_dirty v) x y) (u32 (x + w)) (u32 (y + h)) |>).

(** The direction for the next step. *)
Definition bounce (pos d len size : Z) : Z :=
  if (pos + d <? 0) || (size <=? u64 (pos + d + len)) then - d else d.

(** One turn of the loop, with what is written to the screen. *)
Definition dvd_turn (v : dvd) : res (dvd * list (Z * list Z)) :=
  let v := v <| v_dx := bounce (v_x v) (v_dx v) box_w (f_width (v_fb v)) |> in
  let v := v <| v_dy := bounce (v_y v) (v_dy v) box_h (f_height (v_fb v)) |> in
  let v := v <| v_x := v_x v + v_dx v |> <| v_y := v_y v + v_dy v |> in
  v ← draw_rect (u32 (v_x v)) (u32 (v_y v)) box_w box_h (v_col v) v;
  '(d, out) ← dirty_flush (v_dirty v) (v_fb v);
  Ok (v <| v_col := u32 (v_col v + 1) |> <| v_dirty := d |>, out).

(** At first nothing is marked, but the mark is not empty. *)
Definition dvd0 (f : framebuf) : dvd := mkDvd f (mkRect 0 0 0 0) 2 2 100 100 0x800000.

(** *** The rectangle *)

Definition in_box (x y w h a b : Z) : Prop := x <= a < x + w /\ y <= b < y + h.
#[export] Instance in_box_dec x y w h a b : Decision (in_box x y w h a b) := _.

Definition painted (f f' : framebuf) (p : Z -> Z -> Prop) `{forall a b, Decision (p a b)} (col : Z) : Prop :=
  fb_wf f' /\ f_width f' = f_width f /\ f_height f' = f_height f /\ f_pitch f' = f_pitch f /\
  forall a b, on_screen f a b -> pixel f' a b = if decide (p a b) then le_bytes 4 col else pixel f a b.

Lemma draw_point_paints x y col i j f :
  fb_wf f -> on_screen f (x + i) (y + j) ->
  exists f', draw_point x y col i j f = Ok f' /\ painted f f' (in_box (x + i) (y + j) 1 1) col.
Proof.
  intros Hf Hon. destruct (pixel_store f _ _ (le_bytes 4 col) Hf Hon) as (b&E&Hwf&Hpx); [done|].
  pose proof Hf as [[Hw Hh] _ _ _]. pose proof Hon as [Hx Hy].
  eexists. split.
  - unfold draw_point. rewrite (u32_small (y + j)), (u32_small (x + i)) by lia.
    rewrite (addr_u64 f _ _ Hf Hon), E. reflexivity.
  - split; [done|]. split_and!; try done. intros a c Ho. rewrite Hpx by done.
    unfold in_box. destruct (decide ((x + i, y + j) = (a, c))) as [[= <- <-]|Hne].
    + by rewrite decide_True by lia.
    + rewrite decide_False; [done|]. intros ?. apply Hne. f_equal; lia.
Qed.

Lemma painted_refl f p `{forall a b, Decision (p a b)} col : fb_wf f -> (forall a b, ~ p a b) -> painted f f p col.
Proof. intros Hf Hp. split_and!; try done. intros a b _. by rewrite decide_False by apply Hp. Qed.

Lemma painted_trans f1 f2 f3 p q r `{forall a b, Decision (p a b)} `{forall a b, Decision (q a b)}
    `{forall a b, Decision (r a b)} col :
  painted f1 f2 p col -> painted f2 f3 q col -> (forall a b, r a b <-> p a b \/ q a b) -> painted f1 f3 r col.
Proof.
  intros (_&W1&H1'&P1&X1) (Hf&W2&H2'&P2&X2) Hr. split_and!; try congruence. intros a b Ho.
  rewrite X2 by (unfold on_screen in *; rewrite W1, H1'; done). rewrite X1 by done.
  repeat case_decide; naive_solver.
Qed.

Lemma draw_rect_paints x y w h col v :
  fb_wf (v_fb v) -> 0 <= x -> 0 <= y -> 0 <= w -> 0 <= h -> x + w <= f_width (v_fb v) -> y + h <= f_height (v_fb v) ->
  exists f, draw_rect x y w h col v =
      Ok (v <| v_fb := f |> <| v_dirty := dirty_mark (dirty_mark (v_dirty v) x y) (x + w) (y + h) |>) /\
    painted (v_fb v) f (in_box x y w h) col.
Proof.
  intros Hf Hx Hy Hw Hh Hxw Hyh. pose proof Hf as [[Hfw Hfh] _ _ _].
  destruct (for_from_rule (fun i f => for_from (fun j f => draw_point x y col i j f) 0 (Z.to_nat h) f)
    (fun i f => painted (v_fb v) f (in_box x y i h) col) (Z.to_nat w) 0 (v_fb v)) as (f&E&Hp).
  - intros i f Hi Hp.
    destruct (for_from_rule (draw_point x y col i) (fun j g => painted f g (in_box (x + i) y 1 j) col) (Z.to_nat h) 0 f)
      as (g&E&Hg).
    + intros j g Hj Hg. pose proof Hp as (_&Ew&Eh&_). pose proof Hg as (Hwf&Ew'&Eh'&_).
      destruct (draw_point_paints x y col i j g Hwf) as (g'&E&Hg'); [unfold on_screen; lia|].
      exists g'. split; [done|]. eapply painted_trans; [exact Hg|exact Hg'|].
      intros a b. unfold in_box. lia.
    + apply painted_refl; [by destruct Hp|]. unfold in_box. lia.
    + exists g. split; [done|]. eapply painted_trans; [exact Hp|exact Hg|]. intros a b. unfold in_box. lia.
  - apply painted_refl; [done|]. unfold in_box. lia.
  - exists f. unfold draw_rect. rewrite E. cbn [mbind res_bind]. rewrite (u32_small (x + w)), (u32_small (y + h)) by lia.
    split; [done|]. by replace (0 + Z.of_nat (Z.to_nat w)) with w in Hp by lia.
Qed.

(** *** The flush *)

(** The end of a mark, cut to the screen. *)
Definition cut (z m : Z) : Z := if m <=? z then m - 1 else z.

Lemma dirty_flush_done d f :
  fb_wf f -> f_height f <= f_width f ->
  0 <= x1 d <= x2 d -> 0 <= y1 d < y2 d -> x1 d < f_width f -> y1 d + 1 < f_height f ->
  exists out, dirty_flush d f = Ok (dirty_reset, out).
Proof.
  intros Hf Hsq Hx Hy Hx1 Hy1. pose proof Hf as [[Hw Hh] [Hp1 Hp2] Hl Hb].
  unfold dirty_flush. rewrite (proj2 (Z.eqb_neq _ _)) by (unfold UINT32_MAX; lia).
  set (d1 := if f_width f <=? x2 d then d <| x2 := u32 (f_width f - 1) |> else d).
  set (d2 := if f_height f <=? y2 d1 then d1 <| y2 := u32 (f_height f - 1) |> else d1).
  assert (rect_wf f d2 /\ y1 d2 < y2 d2) as [Hd2 Hy2].
  { unfold rect_wf. assert (x1 d2 = x1 d /\ y1 d2 = y1 d /\ x2 d2 = cut (x2 d) (f_width f) /\ y2 d2 = cut (y2 d) (f_height f)) as (->&->&->&->).
    { subst d1 d2. unfold cut. destruct (Z.leb_spec (f_width f) (x2 d)); cbn;
        destruct (Z.leb_spec (f_height f) (y2 d)); cbn; rewrite ?u32_small by lia; done. }
    unfold cut. destruct (Z.leb_spec (f_width f) (x2 d)), (Z.leb_spec (f_height f) (y2 d)); lia. }
  clearbody d2. clear d1. pose proof Hd2 as (X1&X2&Y1&Y2).
  assert (exists out, flush_combined d2 f = Ok out) as [oc Ec].
  { unfold flush_combined. rewrite addr_u64 by (done || unfold on_screen; lia). rewrite u32_small by lia.
    assert (f_pitch f * f_height f <= 2 ^ 28 * 2 ^ 24) by (apply Z.mul_le_mono_nonneg; lia).
    assert (0 <= addr f (x1 d2) (y1 d2) <= f_pitch f * y2 d2 + 4 * y2 d2 + 4) as Hlo
      by (unfold addr; nia).
    assert (f_pitch f * y2 d2 + 4 * y2 d2 + 4 <= f_len f) as Hhi by (rewrite Hl; nia).
    rewrite (u64_small (f_pitch f * y2 d2 + _ + _)) by (unfold is_size; lia).
    rewrite u64_small by (unfold is_size; lia). rewrite bload_in by lia. eauto. }
  destruct (u64 (f_width f - 600) <? u32 (x2 d2 - x1 d2)); [rewrite Ec; eauto|].
  unfold flush_split. destruct (EXECBUF_MAX_LEN <=? _); [rewrite Ec; eauto|].
  destruct (flush_rows d2 f (f_b f) Hf) as (out&_&E&_); [done|by destruct f|]. rewrite E. eauto.
Qed.

(** *** The loop *)

Lemma bounce_in pos d len size : 0 <= pos <= size - len -> (d = 2 \/ d = -2) -> 0 <= len -> len + 4 <= size < 2 ^ 24 ->
  (bounce pos d len size = 2 \/ bounce pos d len size = -2) /\ 0 <= pos + bounce pos d len size <= size - len.
Proof.
  intros Hp Hd Hl Hs. unfold bounce. destruct (Z.ltb_spec (pos + d) 0); cbn [orb]; [lia|].
  rewrite u64_small by (unfold is_size; lia). destruct (Z.leb_spec size (pos + d + len)); lia.
Qed.

(** The rectangle is on the screen, and the mark is that of the start or empty. *)
Record dvd_ok (v : dvd) : Prop := {
  ok_fb : fb_wf (v_fb v);
  ok_size : box_w + 4 <= f_width (v_fb v) /\ box_h + 4 <= f_height (v_fb v) <= f_width (v_fb v);
  ok_step : (v_dx v = 2 \/ v_dx v = -2) /\ (v_dy v = 2 \/ v_dy v = -2);
  ok_x : 0 <= v_x v <= f_width (v_fb v) - box_w;
  ok_y : 0 <= v_y v <= f_height (v_fb v) - box_h;
  ok_col : 0 <= v_col v < 2 ^ 32;
  ok_dirty : v_dirty v = dirty_reset \/ v_dirty v = mkRect 0 0 0 0;
}.

Lemma dvd_turn_ok v : dvd_ok v -> exists v' out, dvd_turn v = Ok (v', out) /\ dvd_ok v' /\
  v_col v' = u32 (v_col v + 1) /\
  painted (v_fb v) (v_fb v') (in_box (v_x v') (v_y v') box_w box_h) (v_col v).
Proof.
  intros [Hf [Hw [Hh Hsq]] [Hdx Hdy] Hx Hy Hc Hd]. pose proof Hf as [[Sw Sh] _ _ _]. unfold box_w, box_h in *.
  destruct (bounce_in (v_x v) (v_dx v) 150 (f_width (v_fb v)) Hx Hdx ltac:(lia) ltac:(lia)) as [Bx Px].
  destruct (bounce_in (v_y v) (v_dy v) 70 (f_height (v_fb v)) Hy Hdy ltac:(lia) ltac:(lia)) as [By Py].
  set (dx := bounce (v_x v) (v_dx v) 150 (f_width (v_fb v))) in *.
  set (dy := bounce (v_y v) (v_dy v) 70 (f_height (v_fb v))) in *.
  set (v1 := mkDvd (v_fb v) (v_dirty v) dx dy (v_x v + dx) (v_y v + dy) (v_col v)).
  assert (dvd_turn v = (w ← draw_rect (u32 (v_x v + dx)) (u32 (v_y v + dy)) 150 70 (v_col v) v1;
    '(d, out) ← dirty_flush (v_dirty w) (v_fb w); Ok (w <| v_col := u32 (v_col w + 1) |> <| v_dirty := d |>, out))) as ->
    by reflexivity.
  rewrite (u32_small (v_x v + dx)), (u32_small (v_y v + dy)) by lia.
  destruct (draw_rect_paints (v_x v + dx) (v_y v + dy) 150 70 (v_col v) v1) as (f&E&Hp); [done|cbn; lia..|].
  rewrite E. cbn [mbind res_bind]. pose proof Hp as (Hf'&Ew&Eh&_). cbn [v_fb v1] in Ew, Eh.
  set (d := dirty_mark (dirty_mark (v_dirty v) (v_x v + dx) (v_y v + dy)) (v_x v + dx + 150) (v_y v + dy + 70)).
  assert (exists a b, d = mkRect a b (v_x v + dx + 150) (v_y v + dy + 70) /\ 0 <= a <= v_x v + dx /\ 0 <= b <= v_y v + dy)
    as (a&b&Ed&Ha&Hb).
  { unfold d. rewrite !dirty_mark_spec. cbn [x1 x2 y1 y2]. destruct Hd as [-> | ->]; cbn [x1 x2 y1 y2 dirty_reset];
      match goal with |- exists a b, mkRect ?p ?q _ _ = _ /\ _ => exists p, q end;
      (split; [f_equal; lia|]); unfold UINT32_MAX; lia. }
  destruct (dirty_flush_done d f Hf') as [out Eo]; [lia|rewrite Ed; cbn [x1 x2 y1 y2]; lia..|].
  match goal with |- context [dirty_flush ?d' ?g] => change (dirty_flush d' g) with (dirty_flush d f) end.
  rewrite Eo. cbn [mbind res_bind].
  eexists _, out. split; [reflexivity|]. split; [|split; [reflexivity|exact Hp]].
  split; cbn; unfold box_w, box_h; try done; try lia; [by apply Z.mod_pos_bound|by left].
Qed.

(** [n] turns, with all that is written. *)
Fixpoint dvd_run (n : nat) (v : dvd) : res (dvd * list (Z * list Z)) :=
  match n with
  | O => Ok (v, [])
  | S n => '(v, out) ← dvd_turn v; '(v, out') ← dvd_run n v; Ok (v, out ++ out')
  end.

(** The rectangle never leaves the screen, and no access is outside the buffer or
    the part of it that is written, on screens that are not higher than wide and
    hold it where it starts; the last place is painted. *)
Theorem dvd_stays_on_screen n f :
  fb_wf f -> 250 <= f_width f -> 170 <= f_height f <= f_width f ->
  exists v out, dvd_run (S n) (dvd0 f) = Ok (v, out) /\
    (forall a b, in_box (v_x v) (v_y v) box_w box_h a b ->
      on_screen (v_fb v) a b /\ pixel (v_fb v) a b = le_bytes 4 (u32 (0x800000 + Z.of_nat n))).
Proof.
  intros Hf Hw Hh.
  assert (forall n v, dvd_ok v -> exists v' out, dvd_run (S n) v = Ok (v', out) /\
    (forall a b, in_box (v_x v') (v_y v') box_w box_h a b ->
      on_screen (v_fb v') a b /\ pixel (v_fb v') a b = le_bytes 4 (u32 (v_col v + Z.of_nat n)))) as Hrun.
  - clear n. induction n as [|n IH]; intros v Hv; destruct (dvd_turn_ok v Hv) as (v1&out&E&Hv1&Ec&Hp).
    + exists v1, (out ++ []). cbn [dvd_run]. rewrite E. split; [done|]. intros a b Hab.
      destruct Hp as (_&Ew&Eh&_&Hpx). pose proof (ok_x _ Hv1). pose proof (ok_y _ Hv1). pose proof (ok_col _ Hv).
      unfold in_box in Hab. assert (on_screen (v_fb v1) a b) as Ho by (unfold on_screen; lia).
      split; [done|]. rewrite Hpx by (unfold on_screen in *; lia). rewrite decide_True by done.
      by rewrite Z.add_0_r, u32_small.
    + destruct (IH v1 Hv1) as (v'&out'&E'&Hbox). exists v', (out ++ out').
      change (dvd_run (S (S n)) v) with ('(v, out) ← dvd_turn v; '(v, out') ← dvd_run (S n) v; Ok (v, out ++ out')).
      rewrite E. cbn [mbind res_bind]. rewrite E'. split; [done|].
      rewrite Ec in Hbox. intros a b Hab. destruct (Hbox a b Hab) as [Ho ->]. split; [done|]. f_equal.
      unfold u32. rewrite Zplus_mod_idemp_l. f_equal. lia.
  - destruct (Hrun n (dvd0 f)) as (v&out&E&Hb); [|by exists v, out].
    split; cbn; unfold box_w, box_h; try done; try lia. by right.
Qed.

(** A screen that is too small is written behind its end. *)
Lemma dvd_needs_room : dvd_turn (dvd0 (small_fb (replicate 256 0))) = Err Undefined.
Proof. vm_compute. reflexivity. Qed.

Section demos.
Context {K : Type} `{Sys K, Sys2 K, Procs K}.
Context (progname : list Z) (fuel : nat).

Local Abbreviation L := (ST (stdio K) Empty_set).
Local Abbreviation P := (ST (stdio K) Z).

(** ** [ps.c]

    [desc] is the address of the description in every process; the buffer is the
    list of its 4096 bytes. *)

Definition usage {A} : P A := lib (eprintf (lit "usage: ps [path]\n") []);; exit_ 1.

(** [strcpy] and the like into the buffer. *)
Definition put_text (procbuf s : list Z) : L (list Z) :=
  if 4096 <? Z.of_nat (List.length s) + 1 then fail Undefined
  else mret (s ++ [0] ++ drop (S (List.length s)) procbuf).

Definition couldnt_open : list Z := before_nul (lit "couldn't open ") ++ [34] ++ before_nul (lit "%s") ++ [34; 0].

(** A process: its description in the buffer. *)
Definition ps_describe (desc : Z) (path name procbuf : list Z) : L (list Z) :=
  let file := path ++ name ++ before_nul (lit "mem") in
  procbuf ← put_text procbuf file;
  g ← fopen (Some (file ++ [0])) (lit "r");
  match g with
  | None => vwarn progname (Some couldnt_open) [VStr file];; put_text procbuf (before_nul (lit "(can't peek)"))
  | Some g =>
      _ ← fseek g desc SEEK_SET;
      '(data, n) ← fread 1 128 g;
      let procbuf := data ++ drop (List.length data) procbuf in
      procbuf ← (if n =? 0 then put_text procbuf (before_nul (lit "(no psdata)")) else mret procbuf);
      _ ← fclose g;
      mret (<[128%nat := 0]> procbuf)
  end.

Definition ps_turn (desc : Z) (path : list Z) (dir : positive) (procbuf : list Z) : L (list Z + ()) :=
  de ← readdir fuel dir;
  match de with
  | None => mret (inr ())
  | Some name =>
      if isdigit (default 0 (head name)) then
        procbuf ← ps_describe desc path name procbuf;
        slash ← deref (list_find (fun c => c = 47) name);            (* not checked for NULL *)
        printf (before_nul (lit "%s") ++ tab ++ lit "%s\n") [VStr (take slash.1 name); VStr (before_nul procbuf)];;
        mret (inl procbuf)
      else mret (inl procbuf)
  end.

(** [buf] is what fresh memory holds. *)
Definition ps_main (desc : Z) (buf : list Z) (argv : list (list Z)) : P Z :=
  let path := default (lit "/proc/") (argv !! 1%nat) in
  (if (2 <? List.length argv)%nat then usage else mret ());;
  ok ← lib (call malloc_ok);
  dir ← lib (opendir path);
  match dir with
  | None => err progname 1 (lit "couldn't open %s") [va_str path]
  | Some dir =>
      if negb ok then lib (fail Undefined)
      else lib (iter fuel (ps_turn desc (before_nul path) dir) buf);; lib (closedir dir);; mret 0
  end.

(** ** [netdog.c]

    The two threads, each on its own; [conn] is the handle of the connection. *)

Definition send_stdin_turn (conn : Z) (_ : ()) : L (() + ()) :=
  '(ret, data) ← call (fun k => let '(r, d, k) := sys_read 0 4096 (-1) k in ((r, d), k));
  if ret <=? 0 then mret (inr ())
  else
    ret ← call (sys_write conn data (-1) 0);
    if ret <? 0 then mret (inr ()) else mret (inl ()).

Definition send_stdin (conn : Z) : L () := iter fuel (send_stdin_turn conn) ().

Definition recv_stdout_turn (conn : Z) (_ : ()) : L (() + ()) :=
  '(ret, data) ← call (fun k => let '(r, d, k) := sys_read conn 4096 (-1) k in ((r, d), k));
  if ret <? 0 then mret (inr ())
  else
    ret ← call (sys_write 1 data (-1) 0);
    if ret <? 0 then mret (inr ()) else mret (inl ()).

Definition recv_stdout (conn : Z) : L () := iter fuel (recv_stdout_turn conn) ().

(** Behind the end of the connection the receiver reads nothing again and again,
    as long as writes of nothing do not fail. *)
Lemma recv_stdout_spins conn s :
  (forall k, sys_read conn 4096 (-1) k = (0, [], k)) -> (forall k, sys_write 1 [] (-1) 0 k = (0, k)) ->
  recv_stdout conn s = Fault OutOfFuel.
Proof.
  intros Hr Hw. unfold recv_stdout. revert s; induction fuel as [|n IH]; intros s; [done|]. cbn [iter].
  erewrite (after_val _ _ _ (inl ())).
  - cbv beta iota. apply IH.
  - unfold recv_stdout_turn. erewrite after_val by (unfold call; rewrite Hr; reflexivity).
    cbn [Z.ltb Z.compare]. erewrite after_val by (unfold call; rewrite Hw; reflexivity). reflexivity.
Qed.

(** ** [iostress.c] *)

Definition stress_call (inbuf : list Z) (_ : Z) (_ : ()) : L () := _ ← call (sys_write 1 inbuf (-1) 0); mret ().

(** A run: the clock ticks that its writes have taken. *)
Definition stress_run (num_calls : Z) (inbuf : list Z) (_ : Z) (results : list Z) : L (list Z) :=
  t ← call rdtsc;
  forZ 0 (Z.to_nat num_calls) (stress_call inbuf) ();;
  t' ← call rdtsc;
  _ ← call (sys_write 1 [10] (-1) 0);
  mret (results ++ [u64 (t' - t)]).

Definition stress_report (i : Z) (x : Z * list Z) : L (Z * list Z) :=
  let '(total, results) := x in
  r ← deref (head results);
  let scaled := r / 3000 in
  eprintf (lit "run %ld: %lu\n") [VInt i; VInt scaled];;
  mret (u64 (total + scaled), tail results).

(** An argument that is a number. *)
Definition number_arg (argv : list (list Z)) (i : nat) (def : Z) : L Z :=
  match argv !! i with
  | None => mret def
  | Some a => '(n, _) ← lift (strtol a 0); mret (s64 n)
  end.

(** Memory for the results and for the data, which fails for numbers that are too
    large, is not checked. *)
Definition iostress_main (argv : list (list Z)) : L Z :=
  num_runs ← number_arg argv 1 4;
  num_calls ← number_arg argv 2 512;
  num_bytes ← number_arg argv 3 1;
  if (4 <? List.length argv)%nat || (num_runs =? 0) || (num_calls =? 0) then
    eprintf (lit "usage: %s [num_runs] [num_calls] [num_bytes]\n") [from_option va_str VNull (head argv)];;
    mret 1
  else
    ok1 ← call malloc_ok;
    ok2 ← call malloc_ok;
    (* the memory ends with the address space *)
    if negb ok1 && (0 <? num_runs) || negb ok2 && negb (num_bytes =? 0) || (num_bytes <? 0) then fail Undefined
    else
      let inbuf := replicate (Z.to_nat num_bytes) 46 in
      results ← forZ 0 (Z.to_nat num_runs) (stress_run num_calls inbuf) [];
      '(total, _) ← forZ 0 (Z.to_nat num_runs) stress_report (0, results);
      eprintf (lit "%lu calls, %lu bytes. avg %lu\n")
        [VInt (u64 num_calls); VInt (u64 num_bytes); VInt (total / u64 num_runs)];;
      mret 0.

(** Each run has its result, so that the report finds as many as it looks for. *)
Lemma stress_counts num_calls inbuf n : forall lo results s,
  runs (forZ lo n (stress_run num_calls inbuf) results) s (fun r s' =>
    List.length r = (n + List.length results)%nat /\ files s' = files s).
Proof.
  assert (forall m lo s, runs (forZ lo m (stress_call inbuf) ()) s (fun _ s' => files s' = files s)) as Hcall.
  { induction m as [|m IH]; intros lo s; [done|]. cbn [forZ]. apply runs_bind. unfold stress_call at 1.
    apply runs_bind. unfold runs at 1, call. destruct (sys_write _ _ _ _ _) as [r k]. apply runs_ret.
    eapply runs_mono; [apply IH|]. intros [] s' ->. done. }
  induction n as [|n IH]; intros lo results s; [done|]. cbn [forZ]. apply runs_bind. unfold stress_run at 1.
  apply runs_bind. unfold runs at 1, call at 1. destruct (rdtsc (kern s)) as [t k]. apply runs_bind.
  eapply runs_mono; [apply Hcall|]. intros [] s1 E1. apply runs_bind. unfold runs at 1, call at 1.
  destruct (rdtsc (kern s1)) as [t' k']. apply runs_bind. unfold runs at 1, call at 1.
  destruct (sys_write _ _ _ _ _) as [r k'']. apply runs_ret. eapply runs_mono; [apply IH|].
  intros r' s' [-> ->]. rewrite length_app. cbn. split; [lia|done].
Qed.
End demos.
