(* ===== verification/NetState.v ===== *)
(** * NetState

    The data of the network stack ([src/src/cmd/netstack/proto.h] and the
    structures of [arp.c], [ipv4.c], [udp.c], [tcp.c] and [fs.c]), its global
    variables, and the two effects it has on the rest of the system: frames
    written to the raw device and answers to file system requests.

    Objects the code allocates live in typed stores, as in [KState]; a global
    linked list into which nodes are only inserted at the front is the list of
    its nodes.  [network_thread] receives every frame in one buffer, and some
    pointers into it outlive the frame: a pointer to a MAC address says where it
    points ([macptr]), and what is read through it is what the buffer holds
    then. *)

From S2P Require Import Prelude Monad Ring NetUtil.

Abbreviation ptr := positive (only parsing).

(** ** Packets *)

Inductive macptr :=
| MacNull
| MacOwn                      (* &state.mac *)
| MacBroadcast                (* &MAC_BROADCAST *)
| MacFrame (off : Z)          (* into the receive buffer *)
| MacAt (mac : list Z).       (* an object the callee does not change *)

Definition ET_IPv4 : Z := 0x800.
Definition ET_ARP : Z := 0x806.

Record ethernet := mkEther { e_src : macptr; e_dst : macptr; e_type : Z }.

Record ipv4 := mkIPv4 {
  ip_e : ethernet;
  ip_src : Z; ip_dst : Z;
  ip_id : Z; ip_fraginfo : Z;
  ip_proto : Z;
  ip_header : option (list Z);
  ip_hlen : Z;
}.
#[export] Instance ipv4_settable : Settable ipv4 := fun i =>
  mkIPv4 (ip_e i) (ip_src i) (ip_dst i) (ip_id i) (ip_fraginfo i) (ip_proto i)
    (ip_header i) (ip_hlen i).

Definition ether0 : ethernet := mkEther MacNull MacNull 0.
Definition ipv4_0 : ipv4 := mkIPv4 ether0 0 0 0 0 0 None 0.

(** [(struct ipv4){ .proto, .src, .dst, .e.dst }] *)
Definition ip_to (proto src dst : Z) (mac : macptr) : ipv4 :=
  mkIPv4 (mkEther MacNull mac 0) src dst 0 0 proto None 0.

Record icmp := mkIcmp { ic_ip : ipv4; ic_type : Z; ic_code : Z }.

(** ** Fragments *)

Record fragment := mkFrag { fr_len : Z; fr_offset : Z; fr_last : bool; fr_buf : list Z }.

Record fragmented := mkFragmented { fg_h : ipv4; fg_first : list fragment }.
#[export] Instance fragmented_settable : Settable fragmented := fun f =>
  mkFragmented (fg_h f) (fg_first f).

(** ** Connections

    The callbacks of a connection are always those of [fs.c]; a field for one
    says whether it is set.  [carg] is the handle. *)

Record udp_conn := mkUdp {
  u_lip : Z; u_rip : Z;
  u_lport : Z; u_rport : Z;
  u_rmac : list Z;
  u_on_conn : bool;
  u_on_recv : bool;
  u_carg : ptr;
}.
#[export] Instance udp_settable : Settable udp_conn := fun c =>
  mkUdp (u_lip c) (u_rip c) (u_lport c) (u_rport c) (u_rmac c) (u_on_conn c)
    (u_on_recv c) (u_carg c).

Inductive tcp_state := LISTEN | SYN_SENT | SYN_RCVD | ESTABILISHED | LAST_ACK | CLOSED.

#[export] Instance tcp_state_eq_dec : EqDecision tcp_state.
Proof. solve_decision. Defined.

Record tcp_conn := mkTcp {
  t_lip : Z; t_rip : Z;
  t_rmac : list Z;
  t_lport : Z; t_rport : Z;
  t_state : tcp_state;
  t_lack : Z; t_rack : Z;
  t_lseq : Z;
  t_uclosed : bool;
  t_on_conn : bool; t_on_recv : bool; t_on_close : bool;
  t_carg : ptr;
  t_rx : ring_t;
}.
#[export] Instance tcp_settable : Settable tcp_conn := fun c =>
  mkTcp (t_lip c) (t_rip c) (t_rmac c) (t_lport c) (t_rport c) (t_state c)
    (t_lack c) (t_rack c) (t_lseq c) (t_uclosed c) (t_on_conn c) (t_on_recv c)
    (t_on_close c) (t_carg c) (t_rx c).

(** ** Open files of the stack *)

Inductive handle_type := H_ETHER | H_TCP | H_UDP | H_ARP.

Record strqueue := mkSq { sq_next : option ptr; sq_len : Z; sq_buf : list Z }.
#[export] Instance strqueue_settable : Settable strqueue := fun q =>
  mkSq (sq_next q) (sq_len q) (sq_buf q).

Record handle := mkH {
  h_type : handle_type;
  h_udp_c : option ptr; h_udp_rx : option ptr; h_udp_rxlast : option ptr;
  h_tcp_c : option ptr; h_tcp_readcap : Z;
  h_dead : bool;
  h_reqh : Z;
}.
#[export] Instance handle_settable : Settable handle := fun h =>
  mkH (h_type h) (h_udp_c h) (h_udp_rx h) (h_udp_rxlast h) (h_tcp_c h)
    (h_tcp_readcap h) (h_dead h) (h_reqh h).

(** [calloc], and the assignment of the type. *)
Definition handle0 (t : handle_type) : handle := mkH t None None None None 0 false 0.

(** ** Effects *)

(** The second argument of [_sys_fs_respond]: [NULL], bytes, or the pointer that
    becomes the id of the opened file. *)
Inductive reply := RNull | RBytes (b : list Z) | RId (h : ptr).

Inductive event :=
| Sent (frame : list Z)
| Responded (reqh : Z) (r : reply) (val : Z)
| Warned.

(** ** The state *)

Record net := mkNet {
  n_mac : list Z;
  n_ip : Z;
  n_gateway : Z;
  n_rxbuf : list Z;
  ether_queue : list Z;
  arpcache : list (Z * list Z);
  fragmenteds : list ptr;
  n_frags : gmap ptr fragmented;
  next_id : Z;
  udp_conns : list ptr;
  n_udp : gmap ptr udp_conn;
  tcp_conns : list ptr;
  n_tcp : gmap ptr tcp_conn;
  n_handles : gmap ptr handle;
  n_sq : gmap ptr strqueue;
  n_next : ptr;                  (* the next address [malloc] returns *)
  n_out : list event;
}.
#[export] Instance net_settable : Settable net := fun s =>
  mkNet (n_mac s) (n_ip s) (n_gateway s) (n_rxbuf s) (ether_queue s) (arpcache s)
    (fragmenteds s) (n_frags s) (next_id s) (udp_conns s) (n_udp s) (tcp_conns s)
    (n_tcp s) (n_handles s) (n_sq s) (n_next s) (n_out s).

(** The stack after the declarations with initialisers, with the addresses that
    [main] parsed. *)
Definition net0 (ip gateway : Z) : net :=
  mkNet [0x52; 0x54; 0x00; 0xCA; 0x77; 0x1A] ip gateway (replicate 4096 0) [] []
    [] ∅ 0 [] ∅ [] ∅ ∅ ∅ 1 [].

Abbreviation N := (ST net Empty_set).

Definition skip : N () := mret ().

(** What the stack cannot decide itself: the word that fresh memory from
    [malloc] holds, whether a fragment just handed to [free] still has a null
    [next] field, and the result of writing to the raw device. *)
Class Env := {
  fresh_word : Z;
  freed_next_null : bool;
  raw_write : list Z -> Z;
}.

(** ** Typed stores *)

Class NObj (T : Type) := {
  nstore : net -> gmap ptr T;
  nset : (gmap ptr T -> gmap ptr T) -> net -> net;
}.

#[export] Instance nobj_frag : NObj fragmented := {| nstore := n_frags; nset := set n_frags |}.
#[export] Instance nobj_udp : NObj udp_conn := {| nstore := n_udp; nset := set n_udp |}.
#[export] Instance nobj_tcp : NObj tcp_conn := {| nstore := n_tcp; nset := set n_tcp |}.
#[export] Instance nobj_handle : NObj handle := {| nstore := n_handles; nset := set n_handles |}.
#[export] Instance nobj_sq : NObj strqueue := {| nstore := n_sq; nset := set n_sq |}.

Section access.
Context {T : Type} `{NObj T}.

Definition nrd (p : ptr) : N T := s ← get_; deref (nstore s !! p).

Definition nwr (p : ptr) (f : T -> T) : N () :=
  s ← get_;
  x ← deref (nstore s !! p);
  put_ (nset (<[p := f x]>) s).

Definition nnew (x : T) : N ptr :=
  s ← get_;
  let p := n_next s in
  put_ (nset (<[p := x]>) s <| n_next := Pos.succ p |>);;
  mret p.

Definition nfree (p : ptr) : N () :=
  s ← get_;
  _ ← deref (nstore s !! p);
  put_ (nset (delete p) s).
End access.

(** ** Effects *)

Definition emit (e : event) : N () := modify (set n_out (fun l => l ++ [e])).
Definition warnx : N () := emit Warned.
Definition respond (reqh : Z) (r : reply) (val : Z) : N () := emit (Responded reqh r val).

(** [_sys_fs_respond(reqh, buf, len, 0)] with bytes: the kernel takes the length
    as a [long], and reads that many bytes of the buffer if it is positive. *)
Definition respond_bytes (reqh : Z) (buf : list Z) (len : Z) : N () :=
  let len := s64 len in
  b ← lift (fetch buf 0 (Z.max 0 len)); respond reqh (RBytes b) len.

Definition MAC_BROADCAST : list Z := [0xFF; 0xFF; 0xFF; 0xFF; 0xFF; 0xFF].

Definition mac_bytes (p : macptr) : N (list Z) :=
  match p with
  | MacNull => fail Undefined
  | MacOwn => gets n_mac
  | MacBroadcast => mret MAC_BROADCAST
  | MacFrame off => s ← get_; lift (fetch (n_rxbuf s) off 6)
  | MacAt mac => mret mac
  end.
