(* ===== verification/NetSend.v ===== *)
(** * NetSend

    The sending half of the network stack: Ethernet frames
    ([src/src/cmd/netstack/ether.c]), ARP ([arp.c]) and the fragmenting
    [ipv4_send] ([ipv4.c]), with the ICMP sender ([icmp.c]) on top.  A packet
    under construction is the whole object [ether_start] allocates, its length
    prefix included; [pkt] points [PKT] bytes into it. *)

From S2P Require Import Prelude Monad Mem Printf NetUtil NetState.

(** ** Ethernet *)

Definition fhoff : Z := 8.        (* sizeof(size_t) *)
Definition EPayload : Z := 14.
Definition PKT : Z := fhoff + EPayload.

(** The bytes of a [size_t] in memory, and back. *)
Definition size_bytes (n : Z) : list Z := le_bytes 8 n.
Definition size_of_bytes (l : list Z) : Z := foldr (fun b a => b + 256 * a) 0 l.

(** [!ether.dst], and [if (!ether.src) ether.src = &state.mac]. *)
Definition is_null (p : macptr) : bool := match p with MacNull => true | _ => false end.
Definition own_if_null (p : macptr) : macptr := match p with MacNull => MacOwn | p => p end.

Definition ether_start (len : Z) (ether : ethernet) : N (list Z) :=
  let len := if len <? 60 - EPayload then 60 - EPayload else len in
  when (is_null (e_dst ether)) warnx;;
  let src := own_if_null (e_src ether) in
  let buf := replicate (Z.to_nat (fhoff + EPayload + len)) 0 in
  buf ← lift (store buf 0 (size_bytes (len + EPayload)));
  dst ← mac_bytes (e_dst ether);
  buf ← lift (store buf fhoff dst);
  src ← mac_bytes src;
  buf ← lift (store buf (fhoff + 6) src);
  lift (nput16 buf (fhoff + 12) (e_type ether)).

Definition ether_finish (buf : list Z) : N () :=
  size ← lift (fetch buf 0 8);
  frame ← lift (fetch buf fhoff (size_of_bytes size));
  emit (Sent frame).

(** ** ARP *)

(** [arpcache_put], from the search for the MAC address. *)
Fixpoint arp_known (cache : list (Z * list Z)) (ip : Z) (mac : list Z) : bool :=
  match cache with
  | [] => false
  | (ip', mac') :: cache =>
      if bytes_cmp mac' mac =? 0 then ip' =? ip else arp_known cache ip mac
  end.

Definition arpcache_put (ip : Z) (mac : list Z) : N () :=
  cache ← gets arpcache;
  if arp_known cache ip mac then mret ()
  else modify (set arpcache (fun c => (ip, mac) :: c)).

(** The function answers 0 and fills the address in, or answers -1. *)
Fixpoint arp_lookup (cache : list (Z * list Z)) (ip : Z) : option (list Z) :=
  match cache with
  | [] => None
  | (ip', mac) :: cache => if ip' =? ip then Some mac else arp_lookup cache ip
  end.

Definition arpcache_get (ip : Z) : N (option (list Z)) := gets (fun s => arp_lookup (arpcache s) ip).

Definition HdrType : Z := 0.
Definition HdrTypeEther : Z := 1.
Definition ProtoType : Z := 2.
Definition HdrALen : Z := 4.
Definition ProtoALen : Z := 5.
Definition Operation : Z := 6.
Definition OpReq : Z := 1.
Definition OpReply : Z := 2.
Definition ArpSrcMAC : Z := 8.
Definition ArpSrcIP : Z := 14.
Definition ArpDstMAC : Z := 18.
Definition ArpDstIP : Z := 24.

(** The fields that requests and replies have in common, up to the sender's IP. *)
Definition arp_header (pkt : list Z) (op : Z) : N (list Z) :=
  pkt ← lift (nput16 pkt (PKT + HdrType) HdrTypeEther);
  pkt ← lift (nput16 pkt (PKT + ProtoType) ET_IPv4);
  pkt ← lift (store pkt (PKT + HdrALen) [6]);
  pkt ← lift (store pkt (PKT + ProtoALen) [4]);
  pkt ← lift (nput16 pkt (PKT + Operation) op);
  mac ← gets n_mac;
  pkt ← lift (store pkt (PKT + ArpSrcMAC) mac);
  ip ← gets n_ip;
  lift (nput32 pkt (PKT + ArpSrcIP) ip).

Definition arp_reply (buf : list Z) : N () :=
  mac ← lift (fetch buf ArpSrcMAC 6);
  pkt ← ether_start 30 (mkEther MacNull (MacAt mac) ET_ARP);
  pkt ← arp_header pkt OpReply;
  sender ← lift (fetch buf ArpSrcMAC 10);   (* sender's MAC and IP *)
  pkt ← lift (store pkt (PKT + ArpDstMAC) sender);
  ether_finish pkt.

Definition arp_parse (buf : list Z) (len : Z) : N () :=
  if len <? Operation + 2 then mret ()
  else
    htype ← lift (nget16 buf HdrType);
    ptype ← lift (nget16 buf ProtoType);
    op ← lift (nget16 buf Operation);
    if negb ((htype =? HdrTypeEther) && (ptype =? ET_IPv4)) then mret ()
    else if len <? ArpDstIP + 4 then mret ()
    else
      ip ← lift (nget32 buf ArpSrcIP);
      mac ← lift (fetch buf ArpSrcMAC 6);
      arpcache_put ip mac;;
      if op =? OpReq then
        daddr ← lift (nget32 buf ArpDstIP);
        own ← gets n_ip;
        if daddr =? own then arp_reply buf else mret ()
      else mret ().

Definition arp_request (ip : Z) : N () :=
  pkt ← ether_start 28 (mkEther MacOwn MacBroadcast ET_ARP);
  pkt ← arp_header pkt OpReq;
  pkt ← lift (store pkt (PKT + ArpDstMAC) MAC_BROADCAST);
  pkt ← lift (nput32 pkt (PKT + ArpDstIP) ip);
  ether_finish pkt.

(** "%08x\t%02x:%02x:%02x:%02x:%02x:%02x\n" *)
Definition arp_fmt : list Z :=
  [37; 48; 56; 120; 9; 37; 48; 50; 120; 58; 37; 48; 50; 120; 58; 37; 48; 50; 120; 58;
   37; 48; 50; 120; 58; 37; 48; 50; 120; 58; 37; 48; 50; 120; 10; 0].

(** The entry that holds the byte at [offset], and the offset into its line. *)
Fixpoint arp_seek (cache : list (Z * list Z)) (linelen offset : Z) : option (Z * list Z * Z) :=
  match cache with
  | [] => None
  | e :: cache => if linelen <=? offset then arp_seek cache linelen (offset - linelen)
                  else Some (e, offset)
  end.

Definition arp_fsread (h offset : Z) : N () :=
  '(n, _) ← lift (vsnprintf None 0 arp_fmt (VInt <$> [0; 1; 2; 3; 4; 5; 6]));
  let linelen := n + 1 in
  assert (linelen <=? 28);;
  if offset <? 0 then respond h RNull (-1)
  else
    cache ← gets arpcache;
    match arp_seek cache linelen offset with
    | None => respond h RNull (-1)
    | Some (ip, mac, offset) =>
        assert ((0 <=? offset) && (offset <? linelen));;
        '(_, buf) ← lift (vsnprintf (Some (replicate 28 0)) 28 arp_fmt (VInt <$> ip :: mac));
        buf ← deref buf;
        respond_bytes h (advance buf offset) (linelen - offset)
    end.

(** ** IPv4 *)

Definition Version : Z := 0.
Definition HdrLen : Z := 0.
Definition TotalLen : Z := 2.
Definition Id : Z := 4.
Definition FragInfo : Z := 6.
Definition EvilBit : Z := 0x8000.
Definition DontFrag : Z := 0x4000.
Definition MoreFrags : Z := 0x2000.
Definition FragOff : Z := 0x1FFF.
Definition TTL : Z := 8.
Definition Proto : Z := 9.
Definition IPChecksum : Z := 10.
Definition SrcIP : Z := 12.
Definition DstIP : Z := 16.

Definition hdrlen : Z := 20.
Definition mtu : Z := 1500.

(** The header and the [fraglen] bytes of the payload from [off] on. *)
Definition ipv4_fill (pkt payload : list Z) (ip : ipv4) (id off fraglen : Z) (last : bool) :
    res (list Z) :=
  pkt ← store pkt (PKT + Version) [0x40];
  b ← peek pkt (PKT + HdrLen);
  pkt ← store pkt (PKT + HdrLen) [Z.lor b (hdrlen / 4)];
  pkt ← nput16 pkt (PKT + TotalLen) (hdrlen + fraglen);
  pkt ← nput16 pkt (PKT + Id) id;
  pkt ← nput16 pkt (PKT + FragInfo) (Z.lor (Z.shiftr off 3) (if last then 0 else MoreFrags));
  pkt ← store pkt (PKT + TTL) [0xFF];
  pkt ← store pkt (PKT + Proto) [ip_proto ip];
  pkt ← nput32 pkt (PKT + SrcIP) (ip_src ip);
  pkt ← nput32 pkt (PKT + DstIP) (ip_dst ip);
  c ← ip_checksum (advance pkt PKT) hdrlen;
  pkt ← nput16 pkt (PKT + IPChecksum) c;
  chunk ← fetch payload off fraglen;
  store pkt (PKT + hdrlen) chunk.

Definition ipv4_packet (payload : list Z) (ip : ipv4) (id off fraglen : Z) (last : bool) : N () :=
  pkt ← ether_start (hdrlen + fraglen) (ip_e ip);
  pkt ← lift (ipv4_fill pkt payload ip id off fraglen last);
  ether_finish pkt.

(** One turn of the loop over the payload, from [off] and [fraglen]. *)
Definition ipv4_send_turn (payload : list Z) (len : Z) (ip : ipv4) (id : Z) (x : Z * Z) :
    N ((Z * Z) + ()) :=
  let '(off, fraglen) := x in
  if off <? len then
    let fraglen := if len - off <? fraglen then len - off else fraglen in
    ipv4_packet payload ip id off fraglen (len <=? off + fraglen);;
    mret (inl (off + fraglen, fraglen))
  else mret (inr ()).

Definition ipv4_send (payload : list Z) (len : Z) (ip : ipv4) : N () :=
  own ← gets n_ip;
  let ip := ip <| ip_src ::= fun s => if s =? 0 then own else s |> in
  let e := ip_e ip in
  let dst := if is_null (e_dst e) && (ip_dst ip =? 0xFFFFFFFF) then MacBroadcast else e_dst e in
  let ip := ip <| ip_e := mkEther (e_src e) dst ET_IPv4 |> in
  id ← gets next_id;
  modify (set next_id (fun i => u16 (i + 1)));;
  iter (S (S (Z.to_nat (len / (mtu - hdrlen))))) (ipv4_send_turn payload len ip id) (0, mtu - hdrlen).

(** ** ICMP *)

Definition icmp_send (payload : list Z) (len : Z) (i : icmp) : N () :=
  payload ← lift (fetch payload 0 len);
  let pkt := [ic_type i; ic_code i] ++ be16 0 ++ payload in
  c ← lift (ip_checksum pkt (4 + len));
  pkt ← lift (nput16 pkt 2 c);
  ipv4_send pkt (4 + len) (ic_ip i <| ip_proto := 1 |>).

Definition icmp_parse (buf : list Z) (len : Z) (ip : ipv4) : N () :=
  if len <? 4 then mret ()
  else
    type ← lift (peek buf 0);
    own ← gets n_ip;
    if (type =? 8) && (ip_dst ip =? own) then
      (* echo reply *)
      icmp_send (advance buf 4) (len - 4)
        (mkIcmp (ip_to 0 0 (ip_src ip) (e_src (ip_e ip))) 0 0)
    else mret ().

Definition arp_fswrite (buf : list Z) (len offset : Z) : N Z :=
  if negb (offset =? -1) then mret (-1)
  else
    let iplen := if len <? 15 then u64 len else 15 in
    text ← lift (fetch buf 0 iplen);
    tmp ← lift (store (replicate 16 0) 0 (text ++ [0]));
    r ← lift (ip_parse (Some tmp));
    match r with
    | None => mret (-1)
    | Some ip => arp_request ip;; mret len
    end.
