(* ===== verification/NetFrame.v ===== *)
(** * NetFrame

    What the network stack puts on the wire: the exact frames of
    [ether_start]/[ether_finish], [ipv4_send] and the ARP code, as lists of
    bytes, and the theorems about them. *)

From S2P Require Import Prelude Monad Mem NetUtil NetState NetSend.

(** ** Lists of bytes *)

(** A store that stays in a known prefix of the object. *)
Lemma store_prefix pre post off bs :
  0 <= off -> off + Z.of_nat (length bs) <= Z.of_nat (length pre) ->
  store (pre ++ post) off bs = Ok (splice (Z.to_nat off) bs pre ++ post).
Proof.
  intros H0 H. unfold store. rewrite length_app, (proj2 (Z.leb_le _ _)) by lia. f_equal.
  unfold splice. rewrite take_app_le, drop_app_le by lia. by rewrite !app_assoc.
Qed.

Ltac store_step :=
  rewrite store_prefix by (vm_compute; discriminate); cbn [lift mret st_ret].

Lemma fetch_app pre l post off len :
  off = Z.of_nat (length pre) -> len = Z.of_nat (length l) ->
  fetch (pre ++ l ++ post) off len = Ok l.
Proof.
  intros -> ->. unfold fetch. rewrite !length_app, (proj2 (Z.leb_le _ _)) by lia.
  rewrite !Nat2Z.id, drop_app_length, take_app_length. done.
Qed.

Lemma fetch_at_0 l post len : len = Z.of_nat (length l) -> fetch (l ++ post) 0 len = Ok l.
Proof. intros. by apply (fetch_app []). Qed.

Lemma fetch_end pre l off len :
  off = Z.of_nat (length pre) -> len = Z.of_nat (length l) -> fetch (pre ++ l) off len = Ok l.
Proof. intros. rewrite <- (app_nil_r l) at 1. by apply fetch_app. Qed.

Lemma size_bytes_round n : is_size n -> size_of_bytes (size_bytes n) = n.
Proof.
  intros Hn. unfold size_bytes, size_of_bytes, le_bytes. cbn [seq fmap list_fmap foldr].
  change 255 with (Z.ones 8). rewrite !Z.land_ones, !Z.shiftr_div_pow2 by lia.
  cbn. word_lia.
Qed.

Lemma length_size_bytes n : length (size_bytes n) = 8%nat.
Proof. done. Qed.

Lemma ether_finish_spec buf frame s :
  buf = size_bytes (Z.of_nat (length frame)) ++ frame -> Z.of_nat (length frame) < 2 ^ 32 ->
  ether_finish buf s = Val () (s <| n_out ::= fun o => o ++ [Sent frame] |>).
Proof.
  intros -> Hl. unfold ether_finish. rewrite fetch_at_0 by done.
  unfold mbind, st_bind, lift at 1. cbn [mret st_ret].
  rewrite size_bytes_round by (unfold is_size; lia).
  by rewrite fetch_end.
Qed.

(** The object [ether_start] returns: the length of the frame, the frame. *)
Definition ether_object (dst src : list Z) (type : Z) (body : list Z) : list Z :=
  size_bytes (Z.of_nat (14 + length body)) ++ dst ++ src ++ be16 type ++ body.

Lemma six (l : list Z) : length l = 6%nat -> exists a b c d e f, l = [a; b; c; d; e; f].
Proof.
  intros H. destruct l as [|a [|b [|c [|d [|e [|f [|]]]]]]]; try discriminate H. by eexists _, _, _, _, _, _.
Qed.

Lemma ether_start_spec len e s dst src :
  0 <= len -> e_dst e <> MacNull ->
  mac_bytes (e_dst e) s = Val dst s -> length dst = 6%nat ->
  mac_bytes (own_if_null (e_src e)) s = Val src s -> length src = 6%nat ->
  ether_start len e s
  = Val (ether_object dst src (e_type e) (replicate (Z.to_nat (Z.max 46 len)) 0)) s.
Proof.
  intros Hlen Hn Hd Ld Hs Ls. unfold ether_start.
  set (L := if len <? _ then _ else len).
  assert (HL : L = Z.max 46 len).
  { unfold L. change (60 - EPayload) with 46. case_match; zbool; lia. }
  clearbody L. subst L. set (L := Z.max 46 len).
  assert (is_null (e_dst e) = false) as -> by by destruct (e_dst e).
  unfold mbind, st_bind, when; cbn [mret st_ret].
  destruct (six dst Ld) as (d1&d2&d3&d4&d5&d6&->).
  destruct (six src Ls) as (s1&s2&s3&s4&s5&s6&->).
  replace (Z.to_nat (fhoff + EPayload + L)) with (22 + Z.to_nat L)%nat
    by (unfold fhoff, EPayload; lia).
  rewrite replicate_add. remember (replicate (Z.to_nat L) 0) as body eqn:Eb.
  assert (Hb : Z.of_nat (14 + length body) = L + EPayload)
    by (subst body; rewrite length_replicate; unfold EPayload; lia).
  unfold ether_object. rewrite Hb.
  generalize (size_bytes (L + EPayload)) (length_size_bytes (L + EPayload)). intros sz Lsz.
  destruct sz as [|z1 [|z2 [|z3 [|z4 [|z5 [|z6 [|z7 [|z8 [|]]]]]]]]]; try discriminate Lsz.
  store_step. rewrite Hd. store_step. rewrite Hs. store_step.
  unfold nput16. store_step. reflexivity.
Qed.

(** ** IPv4 packets *)

Definition ip_hdr (proto src dst id frag total c : Z) : list Z :=
  [0x45; 0] ++ be16 total ++ be16 id ++ be16 frag ++ [0xFF; proto] ++ be16 c ++
  be32 src ++ be32 dst.

(** The header with its checksum filled in. *)
Definition ip_hdr_sum (proto src dst id frag total : Z) : list Z :=
  ip_hdr proto src dst id frag total
    (65535 - ones_sum (words (ip_hdr proto src dst id frag total 0))).

Definition frag_field (off : Z) (last : bool) : Z :=
  Z.lor (Z.shiftr off 3) (if last then 0 else MoreFrags).

(** A frame with a fragment, padded to the minimum of Ethernet. *)
Definition ip_frame (dmac smac : list Z) (proto src dst id off : Z) (last : bool)
    (chunk : list Z) : list Z :=
  dmac ++ smac ++ be16 ET_IPv4 ++
  ip_hdr_sum proto src dst id (frag_field off last) (20 + Z.of_nat (length chunk)) ++
  chunk ++ replicate (26 - length chunk) 0.

Lemma ip_hdr_bytes proto src dst id frag total c :
  is_byte proto -> Forall is_byte (ip_hdr proto src dst id frag total c).
Proof.
  intros. unfold ip_hdr. rewrite !Forall_app, !Forall_cons.
  split_and!; auto using be16_bytes, be32_bytes; unfold is_byte in *; try lia; constructor.
Qed.

(** Stores and reads in a known middle part of the object. *)
Lemma store_mid pre mid post p k bs :
  Z.of_nat (length pre) = p -> 0 <= k -> k + Z.of_nat (length bs) <= Z.of_nat (length mid) ->
  store (pre ++ mid ++ post) (p + k) bs = Ok (pre ++ splice (Z.to_nat k) bs mid ++ post).
Proof.
  intros <- Hk H. unfold store. rewrite !length_app, (proj2 (Z.leb_le _ _)) by lia. f_equal.
  unfold splice. replace (Z.to_nat (Z.of_nat (length pre) + k)) with (length pre + Z.to_nat k)%nat by lia.
  rewrite take_app_add, <- Nat.add_assoc, drop_app_add, take_app_le, drop_app_le by lia.
  by rewrite <- !app_assoc.
Qed.

Lemma peek_mid pre mid post p k b :
  Z.of_nat (length pre) = p -> 0 <= k -> mid !! Z.to_nat k = Some b ->
  peek (pre ++ mid ++ post) (p + k) = Ok b.
Proof.
  intros <- Hk H. unfold peek. apply lookup_lt_Some in H as Hl.
  rewrite lookup_app_r, lookup_app_l by lia.
  replace (Z.to_nat (Z.of_nat (length pre) + k) - length pre)%nat with (Z.to_nat k) by lia.
  by rewrite H.
Qed.

Ltac mid_step Hp :=
  rewrite store_mid by (exact Hp || (vm_compute; discriminate)); cbn [mbind res_bind].

Lemma ipv4_fill_spec pre tl payload ip id off fraglen last :
  Z.of_nat (length pre) = PKT -> is_byte (ip_proto ip) ->
  0 <= off -> 0 <= fraglen < 2 ^ 16 -> off + fraglen <= Z.of_nat (length payload) ->
  ipv4_fill (pre ++ replicate 20 0 ++ replicate (Z.to_nat fraglen) 0 ++ tl)
    payload ip id off fraglen last
  = Ok (pre ++ ip_hdr_sum (ip_proto ip) (ip_src ip) (ip_dst ip) id (frag_field off last) (20 + fraglen)
        ++ take (Z.to_nat fraglen) (drop (Z.to_nat off) payload) ++ tl).
Proof.
  intros Hp Hpr Hoff Hf Hlen. unfold ipv4_fill, nput16, nput32.
  set (data := replicate (Z.to_nat fraglen) 0 ++ tl).
  mid_step Hp. rewrite (peek_mid _ _ _ _ _ 64) by (exact Hp || (vm_compute; discriminate) || reflexivity).
  cbn [mbind res_bind]. do 8 mid_step Hp.
  set (h := splice _ _ _).
  assert (h = ip_hdr (ip_proto ip) (ip_src ip) (ip_dst ip) id (frag_field off last) (20 + fraglen) 0)
    as -> by reflexivity.
  set (hdr := ip_hdr _ _ _ _ _ _ _).
  assert (advance (pre ++ hdr ++ data) PKT = hdr ++ data) as ->.
  { unfold advance. by rewrite <- Hp, Nat2Z.id, drop_app_length. }
  assert (Hb : Forall is_byte hdr) by by apply ip_hdr_bytes.
  change hdrlen with (Z.of_nat (length hdr)) at 1.
  rewrite ip_checksum_norm; [|exact Hb|by apply checksum_fits]. cbn [mbind res_bind].
  rewrite <- ones_sum_norm by by apply words_range.
  change (Z.of_nat (length hdr)) with hdrlen. mid_step Hp. unfold fetch. rewrite (proj2 (Z.leb_le _ _)) by lia. cbn [mbind res_bind].
  set (h' := splice _ _ _).
  assert (h' = ip_hdr_sum (ip_proto ip) (ip_src ip) (ip_dst ip) id (frag_field off last) (20 + fraglen))
    as -> by reflexivity.
  set (h2 := ip_hdr_sum _ _ _ _ _ _). unfold data.
  rewrite !app_assoc. rewrite <- (app_assoc _ _ tl).
  replace (PKT + hdrlen) with (Z.of_nat (length (pre ++ h2))) by (rewrite length_app; unfold hdrlen; cbn; lia).
  rewrite store_app; [by rewrite <- !app_assoc|].
  rewrite length_replicate, length_take, length_drop. lia.
Qed.

Lemma ipv4_packet_spec payload ip id off fraglen last s dmac smac :
  e_dst (ip_e ip) <> MacNull -> e_type (ip_e ip) = ET_IPv4 ->
  mac_bytes (e_dst (ip_e ip)) s = Val dmac s -> length dmac = 6%nat ->
  mac_bytes (own_if_null (e_src (ip_e ip))) s = Val smac s -> length smac = 6%nat ->
  is_byte (ip_proto ip) ->
  0 <= off -> 0 <= fraglen < 2 ^ 16 -> off + fraglen <= Z.of_nat (length payload) ->
  ipv4_packet payload ip id off fraglen last s
  = Val () (s <| n_out ::= fun o => o ++
      [Sent (ip_frame dmac smac (ip_proto ip) (ip_src ip) (ip_dst ip) id off last
               (take (Z.to_nat fraglen) (drop (Z.to_nat off) payload)))] |>).
Proof.
  intros Hn Ht Hd Ld Hs Ls Hp Hoff Hf Hlen. unfold ipv4_packet.
  unfold mbind, st_bind.
  rewrite (ether_start_spec _ _ _ dmac smac) by (done || (unfold hdrlen; lia)).
  rewrite Ht. set (chunk := take _ (drop _ payload)).
  assert (Lc : Z.of_nat (length chunk) = fraglen)
    by (unfold chunk; rewrite length_take, length_drop; lia).
  unfold ether_object. rewrite length_replicate.
  set (L := Z.to_nat (Z.max 46 (hdrlen + fraglen))).
  assert (HL : L = (20 + (Z.to_nat fraglen + (26 - Z.to_nat fraglen)))%nat) by (unfold L, hdrlen; lia).
  set (frame := ip_frame _ _ _ _ _ _ _ _ chunk).
  assert (Hsz : length frame = (14 + L)%nat).
  { unfold frame, ip_frame, ip_hdr_sum, ip_hdr.
    rewrite !length_app, length_replicate, Ld, Ls. cbn. lia. }
  replace (14 + L)%nat with (length frame) by done. rewrite HL, !replicate_add.
  set (tl := replicate (26 - _) 0).
  replace (size_bytes _ ++ dmac ++ smac ++ be16 ET_IPv4 ++ _) with
    ((size_bytes (Z.of_nat (length frame)) ++ dmac ++ smac ++ be16 ET_IPv4) ++
     replicate 20 0 ++ replicate (Z.to_nat fraglen) 0 ++ tl) by by rewrite <- !app_assoc.
  rewrite ipv4_fill_spec;
    [|rewrite !length_app, length_size_bytes, Ld, Ls; done|done|done|done|done].
  cbn [lift mret st_ret]. apply ether_finish_spec; [|rewrite Hsz; unfold L, hdrlen; lia].
  fold chunk. rewrite <- !app_assoc. do 5 f_equal. unfold frame, ip_frame. rewrite Lc.
  do 5 f_equal. unfold tl. do 2 f_equal. lia.
Qed.

(** ** [ipv4_send] cuts the payload into fragments *)

(** The fragments of [l] from [off] on: offset, whether it is the last, data. *)
Fixpoint chop (n : nat) (off : Z) (l : list Z) : list (Z * bool * list Z) :=
  match n, l with
  | O, _ | _, [] => []
  | S n, _ =>
      if Z.of_nat (length l) <=? 1480 then [(off, true, l)]
      else (off, false, take 1480 l) :: chop n (off + 1480) (drop 1480 l)
  end.

Definition fragments (payload : list Z) : list (Z * bool * list Z) :=
  chop (S (Z.to_nat (Z.of_nat (length payload) / 1480))) 0 payload.

(** The frame of a fragment. *)
Definition frag_frame (dmac smac : list Z) (proto src dst id : Z) (f : Z * bool * list Z) : list Z :=
  ip_frame dmac smac proto src dst id f.1.1 f.1.2 f.2.

(** A MAC address read through a pointer depends on the receive buffer and our
    own address only. *)
Lemma mac_bytes_frame p s d s' :
  mac_bytes p s = Val d s' ->
  s' = s /\ forall s2, n_mac s2 = n_mac s -> n_rxbuf s2 = n_rxbuf s -> mac_bytes p s2 = Val d s2.
Proof.
  destruct p as [| | |off|mac]; cbn.
  - done.
  - intros [= <- <-]. split; [done|]. intros s2 E _. unfold gets. by rewrite E.
  - by intros [= <- <-].
  - unfold mbind, st_bind, get_. destruct (fetch (n_rxbuf s) off 6) as [b|] eqn:E; [|done].
    cbn. intros [= <- <-]. split; [done|]. intros s2 _ ->. by rewrite E.
  - by intros [= <- <-].
Qed.

Lemma out_nil s : s <| n_out ::= fun o => o ++ [] |> = s.
Proof. destruct s. unfold set. cbn. by rewrite app_nil_r. Qed.

Section send_loop.
Context (payload : list Z) (ip : ipv4) (id : Z) (dmac smac : list Z).
Context (Hn : e_dst (ip_e ip) <> MacNull) (Ht : e_type (ip_e ip) = ET_IPv4).
Context (Ld : length dmac = 6%nat) (Ls : length smac = 6%nat) (Hp : is_byte (ip_proto ip)).

Let len := Z.of_nat (length payload).
Let frame_of := frag_frame dmac smac (ip_proto ip) (ip_src ip) (ip_dst ip) id.

Lemma send_done n k s : iter (S n) (ipv4_send_turn payload len ip id) (len, k) s = Val () s.
Proof.
  cbn [iter]. unfold mbind, st_bind, ipv4_send_turn at 1. by rewrite Z.ltb_irrefl.
Qed.

Lemma send_loop n off s :
  mac_bytes (e_dst (ip_e ip)) s = Val dmac s ->
  mac_bytes (own_if_null (e_src (ip_e ip))) s = Val smac s ->
  0 <= off <= len -> len - off <= 1480 * Z.of_nat n ->
  iter (S n) (ipv4_send_turn payload len ip id) (off, 1480) s
  = Val () (s <| n_out ::= fun o => o ++ (Sent ∘ frame_of <$> chop n off (drop (Z.to_nat off) payload)) |>).
Proof.
  revert off s; induction n as [|n IH]; intros off s Hd Hs Hoff Hlen.
  - assert (off = len) as -> by lia. cbn [iter]. unfold ipv4_send_turn at 1.
    rewrite Z.ltb_irrefl. cbn. by rewrite out_nil.
  - set (rest := drop (Z.to_nat off) payload).
    assert (Hr : Z.of_nat (length rest) = len - off) by (unfold rest, len; rewrite length_drop; lia).
    destruct (decide (off = len)) as [->|Hne].
    { destruct rest as [|x rest'] eqn:Er; [|cbn in Hr; lia].
      rewrite send_done. cbn. by rewrite out_nil. }
    assert (Hch : chop (S n) off rest =
      if Z.of_nat (length rest) <=? 1480 then [(off, true, rest)]
      else (off, false, take 1480 rest) :: chop n (off + 1480) (drop 1480 rest)).
    { destruct rest; [cbn in Hr; lia|done]. }
    rewrite Hch. change (iter (S (S n)) ?b ?x0) with
      (y ← b x0; match y with inl z => iter (S n) b z | inr w => mret w end).
    unfold mbind, st_bind. unfold ipv4_send_turn at 1.
    rewrite (proj2 (Z.ltb_lt off len)) by lia.
    destruct (mac_bytes_frame _ _ _ _ Hd) as [_ Hd']. destruct (mac_bytes_frame _ _ _ _ Hs) as [_ Hs'].
    destruct (Z.of_nat (length rest) <=? 1480) eqn:Esz; zbool.
    + assert ((if len - off <? 1480 then len - off else 1480) = len - off) as -> by (case_match; zbool; lia).
      rewrite (proj2 (Z.leb_le len _)) by lia. unfold mbind, st_bind.
      rewrite (ipv4_packet_spec _ _ _ _ _ _ _ dmac smac) by (done || lia).
      cbn [mret st_ret]. replace (off + (len - off)) with len by lia.
      rewrite send_done. unfold set; cbn.
      do 5 f_equal. fold rest. by rewrite take_ge by lia.
    + rewrite (proj2 (Z.ltb_ge (len - off) 1480)) by lia.
      rewrite (proj2 (Z.leb_gt len _)) by lia. unfold mbind, st_bind.
      rewrite (ipv4_packet_spec _ _ _ _ _ _ _ dmac smac) by (done || lia).
      cbn [mret st_ret]. rewrite IH; [|by apply Hd'|by apply Hs'|lia|lia].
      unfold rest. rewrite drop_drop.
      replace (Z.to_nat off + 1480)%nat with (Z.to_nat (off + 1480)) by lia.
      cbn [fmap list_fmap]. unfold set. cbn. by rewrite <- app_assoc.
Qed.
End send_loop.

(** The destination address pointer [ipv4_send] ends up with. *)
Definition send_dst (ip : ipv4) : macptr :=
  if is_null (e_dst (ip_e ip)) && (ip_dst ip =? 0xFFFFFFFF) then MacBroadcast else e_dst (ip_e ip).

Definition send_src (ip : ipv4) (s : net) : Z := if ip_src ip =? 0 then n_ip s else ip_src ip.

Lemma ipv4_send_run payload ip s dmac smac :
  send_dst ip <> MacNull ->
  mac_bytes (send_dst ip) s = Val dmac s -> length dmac = 6%nat ->
  mac_bytes (own_if_null (e_src (ip_e ip))) s = Val smac s -> length smac = 6%nat ->
  is_byte (ip_proto ip) ->
  ipv4_send payload (Z.of_nat (length payload)) ip s
  = Val () (s <| next_id := u16 (next_id s + 1) |>
              <| n_out ::= fun o => o ++
                 (Sent ∘ frag_frame dmac smac (ip_proto ip) (send_src ip s) (ip_dst ip) (next_id s)
                  <$> fragments payload) |>).
Proof.
  intros Hn Hd Ld Hs Ls Hp. unfold ipv4_send.
  unfold mbind, st_bind, gets, modify. cbn [mret st_ret].
  match goal with |- context [ipv4_send_turn _ _ ?i _] => set (ip' := i) end.
  change (mtu - hdrlen) with 1480.
  destruct (mac_bytes_frame _ _ _ _ Hd) as [_ Hd']. destruct (mac_bytes_frame _ _ _ _ Hs) as [_ Hs'].
  unfold fragments. set (n := S (Z.to_nat (Z.of_nat (length payload) / 1480))).
  rewrite (send_loop payload ip' (next_id s) dmac smac); first reflexivity; try done.
  - by apply Hd'.
  - by apply Hs'.
  - lia.
  - unfold n. pose proof (Z.mod_pos_bound (Z.of_nat (length payload)) 1480 ltac:(lia)).
    pose proof (Z.div_mod (Z.of_nat (length payload)) 1480 ltac:(lia)).
    rewrite Nat2Z.inj_succ, Z2Nat.id by (apply Z.div_pos; lia). lia.
Qed.
