(* ===== verification/NetConn.v ===== *)
(** * NetConn

    UDP and TCP ([src/src/cmd/netstack/udp.c], [tcp.c]).  The two files know
    their users through callbacks only, which are the operations of [NetUser];
    [NetFs] provides them. *)

From S2P Require Import Prelude Monad Mem Ring NetUtil NetState NetSend.

(** What a connection tells its user: the callbacks stored in it, applied to
    its [carg]. *)
Class NetUser := {
  tcp_on_conn : ptr -> ptr -> N ();
  tcp_on_recv : ptr -> N ();
  tcp_on_close : ptr -> N ();
  udp_on_conn : ptr -> ptr -> N ();
  udp_on_recv : list Z -> Z -> ptr -> N ();
}.

(** ** UDP *)

Module Udp.
Definition SrcPort : Z := 0.
Definition DstPort : Z := 2.
Definition Length : Z := 4.
Definition Checksum : Z := 6.
Definition Payload : Z := 8.
End Udp.

Definition udp_append (c : ptr) : N () := modify (set udp_conns (fun l => c :: l)).

(** [malloc] leaves the remote address and port as it finds them. *)
Definition udp_listen `{Env} (port : Z) (on_conn on_recv : bool) (carg : ptr) : N () :=
  if negb on_conn then skip
  else
    ip ← gets n_ip;
    c ← nnew (mkUdp ip fresh_word port (u16 fresh_word) (replicate 6 (u8 fresh_word))
                    on_conn on_recv carg);
    udp_append c.

(** [u.ip.src], [u.ip.dst], [u.src], [u.dst] are the arguments used. *)
Definition udpc_new (ip_src_ ip_dst_ src dst : Z) (on_recv : bool) (carg : ptr) :
    N (option ptr) :=
  m ← arpcache_get ip_dst_;
  match m with
  | None => warnx;; mret None
  | Some rmac =>
      c ← nnew (mkUdp ip_src_ ip_dst_ (if src =? 0 then 50000 else src) dst rmac false on_recv carg);
      udp_append c;;
      mret (Some c)
  end.

Definition udpc_send (c : ptr) (buf : list Z) (len : Z) : N () :=
  c ← nrd c;
  payload ← lift (fetch buf 0 len);
  let pkt := be16 (u_lport c) ++ be16 (u_rport c) ++ be16 (Udp.Payload + len) ++ be16 0 ++ payload in
  ipv4_send pkt (Udp.Payload + len) (ip_to 0x11 (u_lip c) (u_rip c) (MacAt (u_rmac c))).

Definition udpc_close (c : ptr) : N () :=
  nfree (T := udp_conn) c;;
  modify (set udp_conns (filter (fun x => x <> c))).

(** A connection's share of an incoming datagram; answers whether it took it. *)
Definition udp_deliver `{NetUser} (buf : list Z) (len srcport dstport : Z) (ip : ipv4) (p : ptr) :
    N bool :=
  c ← nrd (T := udp_conn) p;
  (if u_on_conn c && (dstport =? u_lport c) then
     udp_on_conn p (u_carg c);;
     mac ← mac_bytes (e_src (ip_e ip));
     nwr p (fun c : udp_conn => c <| u_on_conn := false |> <| u_rport := srcport |> <| u_rmac := mac |>
                       <| u_rip := ip_src ip |>)
   else skip);;
  c ← nrd (T := udp_conn) p;
  if (u_rip c =? ip_src ip) && (u_rport c =? srcport) && (u_lport c =? dstport) && u_on_recv c then
    udp_on_recv (advance buf Udp.Payload) (u64 (len - Udp.Payload)) (u_carg c);;
    mret true
  else mret false.

Fixpoint udp_conns_loop `{NetUser} (buf : list Z) (len srcport dstport : Z) (ip : ipv4)
    (l : list ptr) (active : bool) : N bool :=
  match l with
  | [] => mret active
  | p :: l =>
      a ← udp_deliver buf len srcport dstport ip p;
      udp_conns_loop buf len srcport dstport ip l (active || a)
  end.

(** Destination unreachable, port unreachable: the header and the 8 bytes
    behind it are sent back. *)
Definition udp_unreachable (ip : ipv4) : N () :=
  header ← deref (ip_header ip);
  quoted ← lift (fetch header 0 (ip_hlen ip + 8));
  icmp_send (be32 0 ++ quoted) (4 + ip_hlen ip + 8)
    (mkIcmp (ip_to 0 0 (ip_src ip) (e_src (ip_e ip))) 3 3).

Definition udp_parse `{NetUser} (buf : list Z) (len : Z) (ip : ipv4) : N () :=
  srcport ← lift (nget16 buf Udp.SrcPort);
  dstport ← lift (nget16 buf Udp.DstPort);
  conns ← gets udp_conns;
  active ← udp_conns_loop buf len srcport dstport ip conns false;
  if (active : bool) then skip else udp_unreachable ip.

(** ** TCP *)

Module Tcp.
Definition SrcPort : Z := 0.
Definition DstPort : Z := 2.
Definition Seq : Z := 4.
Definition AckNum : Z := 8.
Definition Flags : Z := 12.
Definition WinSize : Z := 14.
Definition Checksum : Z := 16.
Definition MinHdr : Z := 20.
End Tcp.

Definition FlagSize : Z := 0xF000.
Definition FlagACK : Z := 0x0010.
Definition FlagPSH : Z := 0x0008.
Definition FlagRST : Z := 0x0004.
Definition FlagSYN : Z := 0x0002.
Definition FlagFIN : Z := 0x0001.
Definition FlagAll : Z := 0x003F.

(** A test of C flags. *)
Definition has (flags f : Z) : bool := negb (Z.land flags f =? 0).

Definition tcp_append (c : ptr) : N () := modify (set tcp_conns (fun l => c :: l)).

(** The segment of [tcpc_sendraw], its checksum still 0. *)
Definition tcp_segment (src dst seq ack flags win : Z) (payload : list Z) : list Z :=
  be16 src ++ be16 dst ++ be32 seq ++ be32 ack ++
  be16 (Z.lor flags (Z.shiftl (Tcp.MinHdr / 4) 12)) ++ be16 win ++ be16 0 ++ be16 0 ++ payload.

Definition tcpc_sendraw (p : ptr) (flags : Z) (buf : list Z) (len : Z) : N () :=
  c ← nrd (T := tcp_conn) p;
  nwr p (fun c : tcp_conn => c <| t_lseq ::= fun s => u32 (s + len) |>);;
  payload ← lift (fetch buf 0 len);
  let pkt := tcp_segment (t_lport c) (t_rport c) (t_lseq c) (t_lack c) flags
               (ring_avail (t_rx c)) payload in
  sum ← lift (ip_checksumphdr pkt (Tcp.MinHdr + len) (t_lip c) (t_rip c) 6);
  pkt ← lift (nput16 pkt Tcp.Checksum sum);
  ipv4_send pkt (Tcp.MinHdr + len) (ip_to 6 (t_lip c) (t_rip c) (MacAt (t_rmac c))).

(** A fresh receive ring of 4096 bytes. *)
Definition ring_new : ring_t := mkRing (replicate 4096 0) 4096 0 0.

Definition tcp_conn0 : tcp_conn :=
  mkTcp 0 0 [0; 0; 0; 0; 0; 0] 0 0 LISTEN 0 0 0 false false false false 1 ring_new.

Definition tcp_listen (port : Z) (carg : ptr) : N () :=
  ip ← gets n_ip;
  c ← nnew (tcp_conn0 <| t_lport := port |> <| t_lip := ip |> <| t_state := LISTEN |>
             <| t_on_conn := true |> <| t_on_recv := true |> <| t_on_close := true |>
             <| t_carg := carg |>);
  tcp_append c.

(** The address the first packet goes to: the target's or the gateway's. *)
Definition tcp_route (dst : Z) : N (option (list Z)) :=
  m ← arpcache_get dst;
  match m with
  | Some mac => mret (Some mac)
  | None => arp_request dst;; gw ← gets n_gateway; arpcache_get gw
  end.

Definition tcp_connect `{NetUser} (ip_src_ ip_dst_ src dst : Z) (carg : ptr) : N () :=
  own ← gets n_ip;
  m ← tcp_route ip_dst_;
  match m with
  | None => warnx;; tcp_on_close carg
  | Some rmac =>
      c ← nnew (tcp_conn0 <| t_lip := if ip_src_ =? 0 then own else ip_src_ |>
                 <| t_rip := ip_dst_ |> <| t_lport := if src =? 0 then 50002 else src |>
                 <| t_rport := dst |> <| t_rmac := rmac |> <| t_state := SYN_SENT |>
                 <| t_on_conn := true |> <| t_on_recv := true |> <| t_on_close := true |>
                 <| t_carg := carg |>);
      tcp_append c;;
      tcpc_sendraw c FlagSYN [] 0;;
      nwr c (fun c : tcp_conn => c <| t_lseq ::= fun s => u32 (s + 1) |>)
  end.

(** With no buffer the function only answers how much there is to read. *)
Definition tcpc_tryread (p : ptr) (len : Z) : N (list Z) :=
  c ← nrd (T := tcp_conn) p;
  let '(rx, out) := ring_get (t_rx c) len in
  nwr p (fun c : tcp_conn => c <| t_rx := rx |>);;
  mret out.

Definition tcpc_send (p : ptr) (buf : list Z) (len : Z) : N () :=
  tcpc_sendraw p (Z.lor FlagACK FlagPSH) buf len.

Definition tcpc_tryfree (p : ptr) : N () :=
  c ← nrd (T := tcp_conn) p;
  if bool_decide (t_state c = CLOSED) && t_uclosed c then
    modify (set tcp_conns (filter (fun x => x <> p)));;
    nfree (T := tcp_conn) p
  else skip.

Definition tcpc_close (p : ptr) : N () :=
  c ← nrd (T := tcp_conn) p;
  assert (negb (t_uclosed c));;
  nwr p (fun c : tcp_conn => c <| t_uclosed := true |>);;
  (if negb (bool_decide (t_state c = CLOSED)) && negb (bool_decide (t_state c = LAST_ACK))
        && negb (bool_decide (t_state c = LISTEN)) then
     tcpc_sendraw p (Z.lor FlagFIN FlagACK) [] 0;;
     nwr p (fun c : tcp_conn => c <| t_state := LAST_ACK |> <| t_on_conn := false |> <| t_on_close := false |>)
   else skip);;
  tcpc_tryfree p.

(** The header of an incoming segment. *)
Record segment := mkSeg {
  s_src : Z; s_dst : Z;
  s_seq : Z; s_ack : Z;
  s_flags : Z;
  s_data : list Z;        (* from the payload on *)
  s_len : Z;              (* payloadlen *)
}.

(** A connection that listens gets a SYN. *)
Definition tcp_accept `{NetUser} (p : ptr) (g : segment) (ip : ipv4) : N () :=
  mac ← mac_bytes (e_src (ip_e ip));
  nwr p (fun c : tcp_conn => c <| t_state := SYN_RCVD |> <| t_rip := ip_src ip |> <| t_rport := s_src g |>
                    <| t_lack := u32 (s_seq g + 1) |> <| t_rmac := mac |>);;
  tcpc_sendraw p (Z.lor FlagSYN FlagACK) [] 0;;
  nwr p (fun c : tcp_conn => c <| t_lseq ::= fun s => u32 (s + 1) |>);;
  c ← nrd (T := tcp_conn) p;
  when (t_on_conn c) (tcp_on_conn p (t_carg c)).

(** The answer to our own SYN. *)
Definition tcp_established `{NetUser} (p : ptr) (g : segment) : N () :=
  if has (s_flags g) FlagSYN then
    nwr p (fun c : tcp_conn => c <| t_state := ESTABILISHED |> <| t_lack := u32 (s_seq g + 1) |>);;
    tcpc_sendraw p FlagACK [] 0;;
    c ← nrd (T := tcp_conn) p;
    when (t_on_conn c) (tcp_on_conn p (t_carg c))
  else skip.

(** Data in sequence: taken, announced to the user and acknowledged. *)
Definition tcp_data `{NetUser} (p : ptr) (g : segment) : N () :=
  if negb (s_len g =? 0) then
    data ← lift (fetch (s_data g) 0 (s_len g));
    nwr p (fun c : tcp_conn => c <| t_lack := u32 (s_seq g + s_len g) |>
                      <| t_rx ::= fun r => ring_put r data |>);;
    c ← nrd (T := tcp_conn) p;
    when (t_on_recv c) (tcp_on_recv (t_carg c));;
    tcpc_sendraw p FlagACK [] 0
  else skip.

Definition tcp_fin `{NetUser} (p : ptr) (g : segment) : N () :=
  if has (s_flags g) FlagFIN then
    tcpc_sendraw p (Z.lor FlagFIN FlagACK) [] 0;;
    nwr p (fun c : tcp_conn => c <| t_state := LAST_ACK |>);;
    c ← nrd (T := tcp_conn) p;
    when (t_on_close c) (tcp_on_close (t_carg c))
  else skip.

(** A segment of a synchronised connection. *)
Definition tcp_segment_arrives `{NetUser} (p : ptr) (g : segment) : N () :=
  c ← nrd (T := tcp_conn) p;
  when (has (s_flags g) FlagACK)
    (nwr p (fun c : tcp_conn => c <| t_rack ::= fun r => if r <? s_ack g then s_ack g else r |>));;
  if has (s_flags g) FlagACK && bool_decide (t_state c = LAST_ACK) then
    nwr p (fun c : tcp_conn => c <| t_state := CLOSED |>);;
    tcpc_tryfree p
  else if negb (t_lack c =? s_seq g) && negb (u32 (t_lack c - 1) =? s_seq g) then
    warnx;; tcpc_sendraw p FlagACK [] 0
  else
    tcp_data p g;;
    tcp_fin p g.

(** A reset answers a segment no connection takes. *)
Definition tcp_reset (g : segment) (ip : ipv4) : N () :=
  if negb (has (s_flags g) FlagRST) then
    let pkt := tcp_segment (s_dst g) (s_src g) (s_ack g) (u32 (s_seq g + 1))
                 (Z.lor FlagRST FlagACK) 0 [] in
    sum ← lift (ip_checksumphdr pkt Tcp.MinHdr (ip_src ip) (ip_dst ip) 6);
    pkt ← lift (nput16 pkt Tcp.Checksum sum);
    ipv4_send pkt Tcp.MinHdr (ip_to 6 (ip_dst ip) (ip_src ip) (e_src (ip_e ip)))
  else skip.

(** The loop over the connections: the first that takes the segment ends it. *)
Fixpoint tcp_conns_loop `{NetUser} (g : segment) (ip : ipv4) (l : list ptr) : N () :=
  match l with
  | [] => tcp_reset g ip
  | p :: l =>
      c ← nrd (T := tcp_conn) p;
      if bool_decide (t_state c = CLOSED) then tcp_conns_loop g ip l
      else if negb (t_lport c =? s_dst g) then tcp_conns_loop g ip l
      else if bool_decide (t_state c = LISTEN) && (Z.land (s_flags g) FlagAll =? FlagSYN) then
        tcp_accept p g ip
      else if negb (t_rip c =? ip_src ip) || negb (t_rport c =? s_src g) then tcp_conns_loop g ip l
      else if bool_decide (t_state c = SYN_SENT) then tcp_established p g
      else tcp_segment_arrives p g
  end.

Definition tcp_parse `{NetUser} (buf : list Z) (len : Z) (ip : ipv4) : N () :=
  if len <? 20 then skip
  else
    srcport ← lift (nget16 buf Tcp.SrcPort);
    dstport ← lift (nget16 buf Tcp.DstPort);
    seq ← lift (nget32 buf Tcp.Seq);
    acknum ← lift (nget32 buf Tcp.AckNum);
    flags ← lift (nget16 buf Tcp.Flags);
    let hdrlen := u16 (Z.shiftr (Z.land flags FlagSize) 12 * 4) in
    if len <? hdrlen then skip
    else
      let g := mkSeg srcport dstport seq acknum flags (advance buf hdrlen) (u16 (len - hdrlen)) in
      conns ← gets tcp_conns;
      tcp_conns_loop g ip conns.
