(* ===== verification/NetRecv.v ===== *)
(** * NetRecv

    The receiving half of the network stack: [ipv4_parse] with the reassembly
    of fragments ([src/src/cmd/netstack/ipv4.c]), [ether_parse] ([ether.c]) and
    a turn of [network_thread] ([netstack.c]).

    [fragmented_tryfinish] goes on with its loop after it has freed the
    fragments it walks over: it reads the [next] field of the freed last
    fragment.  What that field then holds is up to the allocator
    ([freed_next_null] of [Env]): a null pointer ends the loop, anything else
    is an undefined access. *)

From S2P Require Import Prelude Monad NetUtil NetState NetSend NetConn.

Definition ipv4_dispatch `{NetUser} (buf : list Z) (len : Z) (ip : ipv4) : N () :=
  if ip_proto ip =? 0x01 then icmp_parse buf len ip
  else if ip_proto ip =? 0x06 then tcp_parse buf len ip
  else if ip_proto ip =? 0x11 then udp_parse buf len ip
  else skip.

(** ** Fragments *)

Definition same_datagram (h ip : ipv4) : bool :=
  (ip_src h =? ip_src ip) && (ip_dst h =? ip_dst ip) && (ip_proto h =? ip_proto ip) &&
  (ip_id h =? ip_id ip).

Fixpoint frag_search (l : list ptr) (ip : ipv4) : N (option ptr) :=
  match l with
  | [] => mret None
  | p :: l =>
      inc ← nrd (T := fragmented) p;
      if same_datagram (fg_h inc) ip then mret (Some p) else frag_search l ip
  end.

Definition fragmented_find (ip : ipv4) : N ptr :=
  l ← gets fragmenteds;
  r ← frag_search l ip;
  match r with
  | Some p => mret p
  | None =>
      p ← nnew (mkFragmented (ipv4_0 <| ip_src := ip_src ip |> <| ip_dst := ip_dst ip |>
                  <| ip_proto := ip_proto ip |> <| ip_id := ip_id ip |>) []);
      modify (set fragmenteds (fun l => p :: l));;
      mret p
  end.

Definition fragmented_free (p : ptr) : N () :=
  modify (set fragmenteds (filter (fun x => x <> p)));;
  nfree (T := fragmented) p.

(** The list with [frag] before the first fragment at a bigger offset; [None] if
    there is one at the same offset, or behind the last one. *)
Fixpoint frag_insert (l : list fragment) (frag : fragment) : option (list fragment) :=
  match l with
  | [] => Some [frag]
  | f :: l' =>
      if fr_offset frag <? fr_offset f then
        if fr_last frag then None else Some (frag :: f :: l')
      else if fr_offset f =? fr_offset frag then None
      else l ← frag_insert l' frag; Some (f :: l)
  end.

(** [memcpy(buf + iter->offset, iter->buf, iter->len)] for each fragment. *)
Fixpoint frag_fill (buf : list Z) (l : list fragment) : N (list Z) :=
  match l with
  | [] => mret buf
  | f :: l =>
      assert (fr_offset f + fr_len f <=? Z.of_nat (length buf));;
      data ← lift (fetch (fr_buf f) 0 (fr_len f));
      buf ← lift (store buf (fr_offset f) data);
      frag_fill buf l
  end.

(** The loop of [fragmented_tryfinish] from [l] on, [all] being the whole list. *)
Fixpoint frag_finish `{Env} `{NetUser} (p : ptr) (all l : list fragment) : N () :=
  match l with
  | [] => skip
  | f :: l' =>
      let iterend := fr_offset f + fr_len f in
      match l' with
      | next :: _ =>
          if iterend <? fr_offset next then skip
          else if fr_offset next <? iterend then fragmented_free p
          else frag_finish p all l'
      | [] =>
          if fr_last f then
            buf ← frag_fill (replicate (Z.to_nat iterend) (u8 fresh_word)) all;
            inc ← nrd (T := fragmented) p;
            ipv4_dispatch buf iterend (fg_h inc);;
            fragmented_free p;;
            if freed_next_null then mret () else fail Undefined
          else skip
      end
  end.

Definition fragmented_tryfinish `{Env} `{NetUser} (p : ptr) : N () :=
  inc ← nrd (T := fragmented) p;
  match fg_first inc with
  | [] => fail Undefined
  | f :: _ => if negb (fr_offset f =? 0) then skip
              else frag_finish p (fg_first inc) (fg_first inc)
  end.

Definition fragmented_tryinsert `{Env} `{NetUser} (payload : list Z) (plen : Z) (ip : ipv4) : N () :=
  p ← fragmented_find ip;
  let off := Z.land (ip_fraginfo ip) FragOff * 8 in
  let last := negb (has (ip_fraginfo ip) MoreFrags) in
  inc ← nrd (T := fragmented) p;
  (* the search comes first: a fragment that is not inserted is not copied *)
  match frag_insert (fg_first inc) (mkFrag plen off last []) with
  | None => skip
  | Some _ =>
      data ← lift (fetch payload 0 plen);
      let frag := mkFrag plen off last data in
      nwr p (fun inc => inc <| fg_first := default [] (frag_insert (fg_first inc) frag) |>);;
      (if off =? 0 then
         inc ← nrd (T := fragmented) p;
         assert (match ip_header (fg_h inc) with None => true | Some _ => false end);;
         header ← deref (ip_header ip);
         headercpy ← lift (fetch header 0 (ip_hlen ip));
         nwr p (fun inc => inc <| fg_h := ip <| ip_header := Some headercpy |> |>)
       else skip);;
      fragmented_tryfinish p
  end.

(** ** IPv4 and Ethernet *)

Definition ipv4_parse `{Env} `{NetUser} (buf : list Z) (len : Z) (ether : ethernet) : N () :=
  b ← lift (peek buf 0);
  if negb (Z.shiftr b 4 =? 4) then skip
  else
    let headerlen := Z.land b 15 * 4 in
    totallen ← lift (nget16 buf TotalLen);
    if totallen <? headerlen then skip
    else
      src ← lift (nget32 buf SrcIP);
      dst ← lift (nget32 buf DstIP);
      id ← lift (nget16 buf Id);
      fraginfo ← lift (nget16 buf FragInfo);
      proto ← lift (peek buf Proto);
      let ip := mkIPv4 ether src dst id fraginfo proto (Some buf) headerlen in
      if has fraginfo (Z.lnot (Z.lor EvilBit DontFrag)) then
        fragmented_tryinsert (advance buf headerlen) (totallen - headerlen) ip
      else if len <? totallen then skip
      else ipv4_dispatch (advance buf headerlen) (totallen - headerlen) ip.

(** Every reader of the raw device gets the frame. *)
Definition ether_readers (buf : list Z) (len : Z) : N () :=
  q ← gets ether_queue;
  forM q (fun h => respond_bytes h buf len);;
  modify (set ether_queue (fun _ => [])).

Definition ether_parse `{Env} `{NetUser} (buf : list Z) (len : Z) : N () :=
  type ← lift (nget16 buf 12);
  let ether := mkEther (MacFrame 6) (MacFrame 0) type in
  ether_readers buf len;;
  if type =? ET_IPv4 then ipv4_parse (advance buf EPayload) (u64 (len - EPayload)) ether
  else if type =? ET_ARP then arp_parse (advance buf EPayload) (u64 (len - EPayload))
  else skip.

(** A turn of [network_thread]: the raw device puts a frame of at most 4096
    bytes at the start of the buffer, the rest of which keeps what older frames
    left there. *)
Definition receive `{Env} `{NetUser} (frame : list Z) : N () :=
  modify (set n_rxbuf (fun b => splice 0 frame b));;
  buf ← gets n_rxbuf;
  ether_parse buf (Z.of_nat (length frame)).
