(* ===== verification/NetReasm.v ===== *)
(** * NetReasm

    Reassembly undoes fragmentation: the fragments [ipv4_send] cuts, received
    in any order, give exactly one datagram with the original payload. *)

From S2P Require Import Prelude Monad Printf NetUtil NetState NetSend NetFrame NetConn NetRecv.

(** ** Lists of fragments *)

(** [F] covers a payload from [off] on, without gaps; only its end is marked
    as the last fragment. *)
Fixpoint contig (off : Z) (F : list fragment) : Prop :=
  match F with
  | [] => True
  | f :: F =>
      fr_offset f = off /\ fr_len f = Z.of_nat (length (fr_buf f)) /\ 0 < fr_len f /\
      fr_last f = (match F with [] => true | _ => false end) /\ contig (off + fr_len f) F
  end.

Lemma contig_offset off F x : contig off F -> x ∈ F -> off <= fr_offset x.
Proof.
  revert off; induction F as [|f F IH]; intros off Hc Hx; [by apply not_elem_of_nil in Hx|].
  destruct Hc as (?&?&?&?&Hc). apply elem_of_cons in Hx as [->|Hx]; [lia|].
  pose proof (IH _ Hc Hx). lia.
Qed.

(** Only offset and the mark decide where a fragment goes. *)
Lemma frag_insert_key l f g :
  fr_offset f = fr_offset g -> fr_last f = fr_last g ->
  (frag_insert l f = None <-> frag_insert l g = None).
Proof.
  intros Ho Hl. induction l as [|x l IH]; cbn; [done|]. rewrite <- Ho, <- Hl.
  repeat case_match; try done; destruct (frag_insert l f), (frag_insert l g); cbn; naive_solver.
Qed.

(** A missing fragment is inserted in its place. *)
Lemma frag_insert_sub off F sub x :
  contig off F -> sublist sub F -> x ∈ F -> x ∉ sub ->
  exists sub', frag_insert sub x = Some sub' /\ sublist sub' F /\ sub' ≡ₚ x :: sub.
Proof.
  revert off sub; induction F as [|f F IH]; intros off sub Hc Hs Hx Hn;
    [by apply not_elem_of_nil in Hx|].
  destruct Hc as (Ho&Hlen&Hpos&Hlast&Hc).
  apply elem_of_cons in Hx as [->|Hx].
  - inversion Hs as [|y s' F' Hs'|y s' F' Hs']; subst; [by destruct Hn; left|].
    exists (f :: sub). split_and!; [|by constructor|done].
    destruct sub as [|g sub]; [done|]. cbn.
    assert (Hg : g ∈ F) by (eapply elem_of_sublist; [left|done]).
    pose proof (contig_offset _ _ _ Hc Hg). rewrite (proj2 (Z.ltb_lt _ _)) by lia.
    destruct F; [by apply not_elem_of_nil in Hg|]. by rewrite Hlast.
  - pose proof (contig_offset _ _ _ Hc Hx).
    inversion Hs as [|y s' F' Hs'|y s' F' Hs']; subst.
    + destruct (IH _ s' Hc Hs' Hx) as (t&Ht&Hst&Hp); [intros ?; apply Hn; by right|].
      exists (f :: t). cbn. rewrite (proj2 (Z.ltb_ge _ _)), (proj2 (Z.eqb_neq _ _)) by lia.
      rewrite Ht. split_and!; [done|by constructor|]. rewrite Hp. apply Permutation_swap.
    + destruct (IH _ sub Hc Hs' Hx Hn) as (t&Ht&Hst&Hp). exists t. split_and!; [done| |done].
      by constructor.
Qed.

Lemma sublist_cons_eq {A} (f : A) l F : sublist (f :: l) (f :: F) -> f ∉ F -> sublist l F.
Proof.
  intros Hs Hn. inversion Hs as [|y s' F' Hs'|y s' F' Hs']; subst; [done|].
  destruct Hn. eapply elem_of_sublist; [left|done].
Qed.

Lemma contig_fresh off f F : contig off (f :: F) -> f ∉ F.
Proof.
  intros (Ho&_&Hp&_&Hc) Hf. pose proof (contig_offset _ _ _ Hc Hf). lia.
Qed.

Section finish.
Context `{Env} `{NetUser}.

(** As long as a fragment is missing, nothing happens. *)
Lemma finish_incomplete p all off F f l s :
  contig off F -> sublist (f :: l) F -> fr_offset f = off -> f :: l <> F ->
  frag_finish p all (f :: l) s = Val () s.
Proof.
  revert off f l; induction F as [|g F IH]; intros off f l Hc Hs Hf Hne; [inversion Hs|].
  assert (f = g) as ->.
  { inversion Hs as [|y s' F' Hs'|y s' F' Hs']; subst; [done|].
    destruct Hc as (?&?&?&?&Hc).
    assert (Hin : f ∈ F) by (eapply elem_of_sublist; [left|done]).
    pose proof (contig_offset _ _ _ Hc Hin). lia. }
  pose proof (contig_fresh _ _ _ Hc). apply sublist_cons_eq in Hs; [|done].
  destruct Hc as (Ho&Hlen&Hpos&Hlast&Hc). cbn [frag_finish].
  destruct l as [|x l].
  - destruct F; [done|]. by rewrite Hlast.
  - assert (Hin : x ∈ F) by (eapply elem_of_sublist; [left|done]).
    pose proof (contig_offset _ _ _ Hc Hin). destruct (fr_offset g + fr_len g <? fr_offset x) eqn:E; zbool; [done|].
    rewrite (proj2 (Z.ltb_ge _ _)) by lia. apply (IH (off + fr_len g)); [done|done|lia|].
    intros Heq; apply Hne; by f_equal.
Qed.

(** The end of a list of fragments that starts at [off]. *)
Fixpoint frag_end (off : Z) (F : list fragment) : Z :=
  match F with [] => off | f :: F => frag_end (off + fr_len f) F end.

(** What is done with a complete list. *)
Definition frag_done (p : ptr) (F : list fragment) (end_ : Z) : N () :=
  buf ← frag_fill (replicate (Z.to_nat end_) (u8 fresh_word)) F;
  inc ← nrd (T := fragmented) p;
  ipv4_dispatch buf end_ (fg_h inc);;
  fragmented_free p;;
  if freed_next_null then skip else fail Undefined.

Lemma finish_complete p all off F s :
  contig off F -> F <> [] -> frag_finish p all F s = frag_done p all (frag_end off F) s.
Proof.
  revert off; induction F as [|f F IH]; intros off Hc Hne; [done|].
  destruct Hc as (Ho&Hlen&Hpos&Hlast&Hc). cbn [frag_finish frag_end].
  destruct F as [|g F].
  - rewrite Hlast, Ho. done.
  - pose proof Hc as (Hg&_). rewrite (proj2 (Z.ltb_ge (_ + _) _)) by lia.
    rewrite (proj2 (Z.ltb_ge _ (_ + _))) by lia. by apply IH.
Qed.

(** The buffer is filled with the data of the fragments, end to end. *)
Lemma fill_contig F pre w n s :
  contig (Z.of_nat (length pre)) F -> n = length (mjoin (fr_buf <$> F)) ->
  frag_fill (pre ++ replicate n w) F s = Val (pre ++ mjoin (fr_buf <$> F)) s.
Proof.
  revert pre n; induction F as [|f F IH]; intros pre n Hc Hn; [by cbn in Hn; subst|].
  destruct Hc as (Ho&Hlen&Hpos&_&Hc). cbn [frag_fill fmap list_fmap mjoin list_join] in *.
  rewrite length_app in Hn. subst n. rewrite replicate_add.
  set (w1 := replicate (length (fr_buf f)) w). set (w2 := replicate _ w).
  unfold assert. rewrite (proj2 (Z.leb_le _ _)).
  2:{ rewrite !length_app. unfold w1. rewrite length_replicate. lia. }
  unfold mbind, st_bind. cbn [mret st_ret].
  rewrite <- (app_nil_r (fr_buf f)) at 1. rewrite fetch_at_0 by done. cbn [lift mret st_ret].
  rewrite Ho, store_app by (unfold w1; by rewrite length_replicate). cbn [lift mret st_ret].
  rewrite (app_assoc pre). unfold w2. rewrite IH; [by rewrite <- app_assoc| |done].
  by rewrite length_app, Nat2Z.inj_add, <- Hlen.
Qed.

Lemma frag_end_length off F :
  contig off F -> frag_end off F = off + Z.of_nat (length (mjoin (fr_buf <$> F))).
Proof.
  revert off; induction F as [|f F IH]; intros off Hc; cbn [frag_end]; [cbn; lia|].
  destruct Hc as (_&Hlen&_&_&Hc). rewrite IH by done.
  change (mjoin (fr_buf <$> f :: F)) with (fr_buf f ++ mjoin (fr_buf <$> F)).
  rewrite length_app. lia.
Qed.

Lemma done_contig p F s inc :
  contig 0 F -> n_frags s !! p = Some inc ->
  frag_done p F (frag_end 0 F) s =
  (ipv4_dispatch (mjoin (fr_buf <$> F)) (Z.of_nat (length (mjoin (fr_buf <$> F)))) (fg_h inc);;
   fragmented_free p;; if freed_next_null then skip else fail Undefined) s.
Proof.
  intros Hc Hp. unfold frag_done. rewrite frag_end_length by done. rewrite Z.add_0_l, Nat2Z.id.
  erewrite bind_eq by (apply (fill_contig F []); done). cbn [app].
  by erewrite bind_eq by (unfold nrd, mbind, st_bind, get_, nstore; cbn; by rewrite Hp).
Qed.
End finish.

(** The fragments of a payload, as the receiver stores them. *)
Definition frag_of (f : Z * bool * list Z) : fragment :=
  mkFrag (Z.of_nat (length f.2)) f.1.1 f.1.2 f.2.

Lemma chop_contig n off l :
  Z.of_nat (length l) <= 1480 * Z.of_nat n ->
  contig off (frag_of <$> chop n off l) /\ mjoin (fr_buf <$> (frag_of <$> chop n off l)) = l.
Proof.
  revert off l; induction n as [|n IH]; intros off l Hl.
  { destruct l; [done|cbn in Hl; lia]. }
  destruct l as [|x l]; [done|]. cbn [chop]. set (l' := x :: l) in *.
  destruct (Z.of_nat (length l') <=? 1480) eqn:E; zbool.
  - cbn. rewrite app_nil_r. split_and!; try done; lia.
  - destruct (IH (off + 1480) (drop 1480 l')) as [Hc Hj]; [rewrite length_drop; lia|].
    assert (Ht : length (take 1480 l') = 1480%nat) by (rewrite length_take; lia).
    cbn [fmap list_fmap]. split.
    + cbn [contig frag_of fr_offset fr_len fr_buf fr_last fst snd]. rewrite Ht.
      split_and!; try done.
      destruct (chop n (off + 1480) (drop 1480 l')) as [|y k] eqn:Ek; [|done].
      assert (Hd : length (drop 1480 l') = 0%nat) by by rewrite <- Hj.
      rewrite length_drop in Hd. lia.
    + etrans; [exact (f_equal (app (take 1480 l')) Hj)|]. apply take_drop.
Qed.

Lemma fragments_contig payload :
  contig 0 (frag_of <$> fragments payload) /\
  mjoin (fr_buf <$> (frag_of <$> fragments payload)) = payload.
Proof.
  apply chop_contig. pose proof (Z.mod_pos_bound (Z.of_nat (length payload)) 1480 ltac:(lia)).
  pose proof (Z.div_mod (Z.of_nat (length payload)) 1480 ltac:(lia)).
  rewrite Nat2Z.inj_succ, Z2Nat.id by (apply Z.div_pos; lia). lia.
Qed.

(** Their offsets are multiples of 8 below the end, and none is larger than a
    packet can hold. *)
Lemma chop_bounds n off l f :
  f ∈ chop n off l -> (8 | off) ->
  (8 | f.1.1) /\ off <= f.1.1 < off + Z.of_nat (length l) /\ 0 < Z.of_nat (length f.2) <= 1480.
Proof.
  revert off l; induction n as [|n IH]; intros off l Hf Hoff; [by apply not_elem_of_nil in Hf|].
  destruct l as [|x l]; [by apply not_elem_of_nil in Hf|]. cbn [chop] in Hf.
  set (l' := x :: l) in *. assert (0 < Z.of_nat (length l')) by (cbn; lia).
  destruct (Z.of_nat (length l') <=? 1480) eqn:E; zbool.
  - apply list_elem_of_singleton in Hf as ->. cbn. split_and!; try done; cbn in *; lia.
  - apply elem_of_cons in Hf as [->|Hf].
    + cbn [fst snd]. rewrite length_take. split_and!; try done; lia.
    + apply IH in Hf as (?&?&?); [|by apply Z.divide_add_r; [done|exists 185]].
      rewrite length_drop in *. split_and!; try done; lia.
Qed.

(** ** The fragment field *)

Lemma frag_field_value off last :
  0 <= off < 2 ^ 16 -> frag_field off last = off / 8 + (if last then 0 else 8192).
Proof.
  intros Ho. unfold frag_field. rewrite Z.shiftr_div_pow2 by lia. change (2 ^ 3) with 8.
  destruct last; [by rewrite Z.lor_0_r, Z.add_0_r|].
  rewrite Z.lor_comm. change MoreFrags with (Z.shiftl 1 13). rewrite lor_shiftl; [lia|lia|].
  split; [by apply Z.div_pos; lia|]. apply Z.div_lt_upper_bound; lia.
Qed.

Lemma frag_field_offset off last :
  (8 | off) -> 0 <= off < 2 ^ 16 -> Z.land (frag_field off last) FragOff * 8 = off.
Proof.
  intros [k ->] Ho. rewrite frag_field_value by done. rewrite Z.div_mul by lia.
  change FragOff with (Z.ones 13). rewrite Z.land_ones by lia. change (2 ^ 13) with 8192.
  destruct last; [rewrite Z.add_0_r|replace (k + 8192) with (k + 1 * 8192) by lia; rewrite Z.mod_add by lia];
    rewrite Z.mod_small by lia; lia.
Qed.

Lemma land_shiftl_low x k n : 0 <= n -> 0 <= x < 2 ^ n -> Z.land x (Z.shiftl k n) = 0.
Proof.
  intros Hn Hx. apply Z.bits_inj'. intros i Hi. rewrite Z.land_spec, Z.shiftl_spec, Z.bits_0 by done.
  destruct (decide (i < n)); [by rewrite (Z.testbit_neg_r k), andb_false_r by lia|].
  by rewrite (testbit_high x n) by lia.
Qed.

Lemma frag_field_more off last :
  0 <= off < 2 ^ 16 -> has (frag_field off last) MoreFrags = negb last.
Proof.
  intros Ho. unfold has, frag_field. rewrite Z.land_lor_distr_l.
  rewrite Z.shiftr_div_pow2 by lia. change MoreFrags with (Z.shiftl 1 13).
  rewrite land_shiftl_low; [|lia|split; [by apply Z.div_pos; lia|apply Z.div_lt_upper_bound; lia]].
  by destruct last.
Qed.

Lemma frag_field_frag off last :
  (8 | off) -> 0 <= off < 2 ^ 16 ->
  has (frag_field off last) (Z.lnot (Z.lor EvilBit DontFrag)) = negb ((off =? 0) && last).
Proof.
  intros [k ->] Ho. unfold has. change (Z.lor EvilBit DontFrag) with (Z.shiftl 3 14).
  assert (Hr : 0 <= frag_field (k * 8) last < 2 ^ 14).
  { rewrite frag_field_value, Z.div_mul by lia. destruct last; lia. }
  rewrite <- Z.ldiff_land.
  assert (Z.ldiff (frag_field (k * 8) last) (Z.shiftl 3 14) = frag_field (k * 8) last) as ->.
  { apply Z.bits_inj'. intros i Hi. rewrite Z.ldiff_spec, Z.shiftl_spec by done.
    destruct (decide (i < 14)); [by rewrite (Z.testbit_neg_r 3), andb_true_r by lia|].
    by rewrite (testbit_high _ 14) by lia. }
  rewrite frag_field_value, Z.div_mul by lia. f_equal.
  destruct last; [rewrite andb_true_r|rewrite andb_false_r; by apply Z.eqb_neq; lia].
  destruct (k * 8 =? 0) eqn:E; zbool; [apply Z.eqb_eq|apply Z.eqb_neq]; lia.
Qed.

(** ** Receiving one frame *)

(** The receive buffer after a frame. *)
Definition rx_after (frame buf : list Z) : list Z := frame ++ drop (length frame) buf.

Section receive.
Context {ENV : Env} {USR : NetUser}.
Context (dmac smac : list Z) (proto src dst id : Z).
Context (Ld : length dmac = 6%nat) (Ls : length smac = 6%nat).
Context (Hproto : is_byte proto) (Hsrc : 0 <= src < 2 ^ 32) (Hdst : 0 <= dst < 2 ^ 32).
Context (Hid : 0 <= id < 2 ^ 16).

Let frame := frag_frame dmac smac proto src dst id.

Definition frag_hdr (f : Z * bool * list Z) : list Z :=
  ip_hdr_sum proto src dst id (frag_field f.1.1 f.1.2) (20 + Z.of_nat (length f.2)).

(** The bytes behind the fragment's data. *)
Definition frag_rest (f : Z * bool * list Z) (buf : list Z) : list Z :=
  replicate (26 - length f.2) 0 ++ drop (length (frame f)) buf.

(** The packet as [ipv4_parse] describes it. *)
Definition frag_ip (f : Z * bool * list Z) (header : list Z) : ipv4 :=
  mkIPv4 (mkEther (MacFrame 6) (MacFrame 0) ET_IPv4) src dst id (frag_field f.1.1 f.1.2) proto
    (Some header) 20.

Definition frag_ok (f : Z * bool * list Z) : Prop :=
  0 <= f.1.1 < 2 ^ 16 /\ 0 < Z.of_nat (length f.2) <= 1480.

Lemma length_frame f : Z.of_nat (length (frame f)) = 34 + Z.max 26 (Z.of_nat (length f.2)).
Proof.
  unfold frame, frag_frame, ip_frame, ip_hdr_sum, ip_hdr.
  rewrite !length_app, length_replicate, Ld, Ls. cbn. lia.
Qed.

Lemma frame_split f buf :
  rx_after (frame f) buf
  = (dmac ++ smac ++ be16 ET_IPv4) ++ frag_hdr f ++ f.2 ++ frag_rest f buf.
Proof.
  unfold rx_after, frag_rest. unfold frame at 1, frag_frame, ip_frame. fold (frag_hdr f).
  by rewrite <- !app_assoc.
Qed.

Lemma parse_frame f tl len e s :
  frag_ok f -> 20 + Z.of_nat (length f.2) <= len ->
  ipv4_parse (frag_hdr f ++ f.2 ++ tl) len e s =
  (let ip := frag_ip f (frag_hdr f ++ f.2 ++ tl) <| ip_e := e |> in
   if has (frag_field f.1.1 f.1.2) (Z.lnot (Z.lor EvilBit DontFrag))
   then fragmented_tryinsert (f.2 ++ tl) (Z.of_nat (length f.2)) ip
   else ipv4_dispatch (f.2 ++ tl) (Z.of_nat (length f.2)) ip) s.
Proof.
  intros [Ho Hl] Hlen. unfold frag_hdr. unfold ip_hdr_sum.
  generalize (65535 - ones_sum (words (ip_hdr proto src dst id (frag_field f.1.1 f.1.2)
                (20 + Z.of_nat (length f.2)) 0))). intros c.
  pose proof (frag_field_value f.1.1 f.1.2 Ho) as Hfv.
  assert (Hff : u16 (frag_field f.1.1 f.1.2) = frag_field f.1.1 f.1.2).
  { rewrite Hfv. unfold u16. apply Z.mod_small. split.
    - destruct f.1.2; pose proof (Z.div_pos f.1.1 8); lia.
    - assert (f.1.1 / 8 < 8192) by (apply Z.div_lt_upper_bound; lia). destruct f.1.2; lia. }
  assert (Htot : u16 (20 + Z.of_nat (length f.2)) = 20 + Z.of_nat (length f.2)) by word_lia.
  assert (Hi : u16 id = id) by word_lia.
  set (hdr := ip_hdr _ _ _ _ _ _ _). set (tail_ := f.2 ++ tl).
  set (n := 20 + Z.of_nat (length f.2)) in *. set (ff := frag_field f.1.1 f.1.2) in *.
  assert (H0 : peek (hdr ++ tail_) 0 = Ok 0x45) by reflexivity.
  assert (H9 : peek (hdr ++ tail_) Proto = Ok proto) by reflexivity.
  assert (H2 : nget16 (hdr ++ tail_) TotalLen = Ok n).
  { etrans; [exact (nget16_app [0x45; 0] n _)|by rewrite Htot]. }
  assert (H4 : nget16 (hdr ++ tail_) Id = Ok id).
  { etrans; [exact (nget16_app ([0x45; 0] ++ be16 n) id _)|by rewrite Hi]. }
  assert (H6 : nget16 (hdr ++ tail_) FragInfo = Ok ff).
  { etrans; [exact (nget16_app ([0x45; 0] ++ be16 n ++ be16 id) ff _)|by rewrite Hff]. }
  assert (H12 : nget32 (hdr ++ tail_) SrcIP = Ok src).
  { etrans; [exact (nget32_app ([0x45; 0] ++ be16 n ++ be16 id ++ be16 ff ++ [0xFF; proto] ++ be16 c) src _)
             |by rewrite (u32_small src)]. }
  assert (H16 : nget32 (hdr ++ tail_) DstIP = Ok dst).
  { etrans; [exact (nget32_app ([0x45; 0] ++ be16 n ++ be16 id ++ be16 ff ++ [0xFF; proto] ++ be16 c ++ be32 src) dst _)
             |by rewrite (u32_small dst)]. }
  assert (Hadv : advance (hdr ++ tail_) 20 = tail_) by reflexivity.
  unfold ipv4_parse. rewrite H0, H2, H12, H16, H4, H6, H9.
  unfold mbind, st_bind, lift; cbn [mret st_ret].
  change (negb (Z.shiftr 69 4 =? 4)) with false. change (Z.land 69 15 * 4) with 20.
  rewrite (proj2 (Z.ltb_ge n 20)) by lia. cbv iota. rewrite Hadv.
  replace (n - 20) with (Z.of_nat (length f.2)) by lia.
  rewrite (proj2 (Z.ltb_ge len n)) by lia. by destruct (has ff _).
Qed.

Lemma receive_frame f r :
  frag_ok f -> length (n_rxbuf r) = 4096%nat -> ether_queue r = [] ->
  receive (frame f) r =
  (let tl := frag_rest f (n_rxbuf r) in
   let ip := frag_ip f (frag_hdr f ++ f.2 ++ tl) in
   if has (frag_field f.1.1 f.1.2) (Z.lnot (Z.lor EvilBit DontFrag))
   then fragmented_tryinsert (f.2 ++ tl) (Z.of_nat (length f.2)) ip
   else ipv4_dispatch (f.2 ++ tl) (Z.of_nat (length f.2)) ip)
  (r <| n_rxbuf ::= rx_after (frame f) |>).
Proof.
  intros Hok Hrx Hq. unfold receive. pose proof (length_frame f) as Hlf.
  assert (Hb : splice 0 (frame f) (n_rxbuf r) = rx_after (frame f) (n_rxbuf r)) by done.
  unfold mbind at 1, st_bind at 1, modify at 1. unfold mbind at 1, st_bind at 1, gets at 1.
  set (r' := set n_rxbuf _ r).
  assert (Er : r' = r <| n_rxbuf ::= rx_after (frame f) |>) by (unfold r', set; done).
  assert (Hb' : n_rxbuf r' = rx_after (frame f) (n_rxbuf r)) by done.
  rewrite Hb', frame_split.
  assert (Hq' : ether_queue r' = []) by done. clearbody r'. clear Hb Er.
  unfold ether_parse.
  set (buf := (dmac ++ smac ++ be16 ET_IPv4) ++ _).
  assert (H12 : nget16 buf 12 = Ok ET_IPv4).
  { unfold buf. rewrite (app_assoc dmac), <- (app_assoc (dmac ++ smac)).
    pose proof (nget16_app (dmac ++ smac) ET_IPv4 (frag_hdr f ++ f.2 ++ frag_rest f (n_rxbuf r))) as E.
    rewrite length_app, Ld, Ls in E. exact E. }
  rewrite H12. unfold lift at 1, mbind at 1, st_bind at 1. cbn [mret st_ret].
  assert (Hrd : forall m, ether_readers buf m r' = Val () r').
  { intros m. unfold ether_readers, mbind, st_bind, gets. rewrite Hq'. cbn.
    unfold set. destruct r'; cbn in *. by subst. }
  unfold mbind at 1, st_bind at 1. rewrite Hrd. change (ET_IPv4 =? ET_IPv4) with true. cbv iota.
  assert (advance buf EPayload = frag_hdr f ++ f.2 ++ frag_rest f (n_rxbuf r)) as ->.
  { unfold advance, buf. apply drop_app_length'. rewrite !length_app, Ld, Ls. done. }
  destruct Hok as [Hok1 Hok2].
  rewrite parse_frame; [done|done|]. rewrite u64_small by (unfold is_size, EPayload; lia).
  unfold EPayload. lia.
Qed.

(** ** The reassembly of one datagram *)

Context (payload : list Z) (Hbig : 1480 < Z.of_nat (length payload) < 2 ^ 16).

Let F0 : list (Z * bool * list Z) := fragments payload.
Let F : list fragment := frag_of <$> F0.
Let f0 : Z * bool * list Z := (0, false, take 1480 payload).

Lemma frag_bounds f : f ∈ F0 -> frag_ok f /\ (8 | f.1.1) /\ negb ((f.1.1 =? 0) && f.1.2) = true.
Proof.
  intros Hf. pose proof (chop_bounds _ _ _ _ Hf (Z.divide_0_r 8)) as (Hd&Ho&Hl).
  split_and!; [split; lia|done|]. apply negb_true_iff, andb_false_iff.
  destruct (decide (f.1.1 = 0)) as [E|]; [right|by left; apply Z.eqb_neq].
  unfold F0, fragments in Hf. cbn [chop] in Hf.
  destruct payload as [|x l] eqn:Ep; [cbn in Hbig; lia|]. rewrite <- Ep in *.
  rewrite (proj2 (Z.leb_gt _ 1480)) in Hf by lia.
  apply elem_of_cons in Hf as [->|Hf]; [done|].
  apply chop_bounds in Hf as (_&?&_); [lia|by exists 185].
Qed.

Lemma F0_head : exists l, F0 = f0 :: l.
Proof.
  unfold F0, fragments. cbn [chop].
  destruct payload as [|x l] eqn:Ep; [cbn in Hbig; lia|]. rewrite <- Ep in *.
  rewrite (proj2 (Z.leb_gt _ 1480)) by lia. eexists. rewrite Ep. reflexivity.
Qed.

Lemma F_contig : contig 0 F.
Proof. apply fragments_contig. Qed.

Lemma contig_inj off G x y : contig off G -> x ∈ G -> y ∈ G -> fr_offset x = fr_offset y -> x = y.
Proof.
  revert off; induction G as [|g G IH]; intros off Hc Hx Hy He; [by apply not_elem_of_nil in Hx|].
  destruct Hc as (Ho&Hl&Hp&_&Hc).
  apply elem_of_cons in Hx as [->|Hx]; apply elem_of_cons in Hy as [->|Hy]; [done| | |by eapply IH].
  - pose proof (contig_offset _ _ _ Hc Hy). lia.
  - pose proof (contig_offset _ _ _ Hc Hx). lia.
Qed.

Lemma contig_nodup off G : contig off G -> NoDup G.
Proof.
  revert off; induction G as [|g G IH]; intros off Hc; [constructor|].
  constructor; [by eapply contig_fresh|]. destruct Hc as (_&_&_&_&Hc). by eapply IH.
Qed.

(** The header of the table entry: that of the first fragment once it is there. *)
Definition key_ip : ipv4 :=
  ipv4_0 <| ip_src := src |> <| ip_dst := dst |> <| ip_proto := proto |> <| ip_id := id |>.
Definition full_ip : ipv4 := frag_ip f0 (frag_hdr f0).
Definition entry_ip (sub : list fragment) : ipv4 :=
  if existsb (fun g => fr_offset g =? 0) sub then full_ip else key_ip.

Context (r0 : net).
Context (Hnew : Forall (fun q => exists inc, n_frags r0 !! q = Some inc /\
                                 same_datagram (fg_h inc) key_ip = false) (fragmenteds r0)).
Context (Hq : ether_queue r0 = []).

Let p := n_next r0.

(** The receiver after the fragments [sub]. *)
Definition in_progress_at (h : ipv4) (sub : list fragment) (rx : list Z) : net :=
  r0 <| n_rxbuf := rx |> <| fragmenteds := p :: fragmenteds r0 |>
     <| n_frags := <[p := mkFragmented h sub]> (n_frags r0) |>
     <| n_next := Pos.succ p |>.
Definition in_progress (sub : list fragment) : list Z -> net :=
  in_progress_at (entry_ip sub) sub.

Lemma same_key h ip :
  ip_src ip = src -> ip_dst ip = dst -> ip_proto ip = proto -> ip_id ip = id ->
  same_datagram h ip = same_datagram h key_ip.
Proof. intros E1 E2 E3 E4. unfold same_datagram. by rewrite E1, E2, E3, E4. Qed.

Lemma find_new f header rx :
  fragmented_find (frag_ip f header) (r0 <| n_rxbuf := rx |>) = Val p (in_progress [] rx).
Proof.
  unfold fragmented_find, mbind, st_bind, gets.
  assert (Hs : frag_search (fragmenteds r0) (frag_ip f header) (r0 <| n_rxbuf := rx |>)
    = Val None (r0 <| n_rxbuf := rx |>)).
  { induction Hnew as [|q l (inc&Hi&Hk) _ IH]; [done|]. cbn [frag_search].
    unfold nrd, mbind, st_bind, get_, nstore; cbn. rewrite Hi. cbn.
    rewrite same_key by done. rewrite Hk. apply IH. by inversion Hnew. }
  change (fragmenteds (r0 <| n_rxbuf := rx |>)) with (fragmenteds r0). rewrite Hs. reflexivity.
Qed.

Lemma find_old f header sub rx :
  fragmented_find (frag_ip f header) (in_progress sub rx) = Val p (in_progress sub rx).
Proof.
  unfold fragmented_find, mbind, st_bind, gets.
  change (fragmenteds (in_progress sub rx)) with (p :: fragmenteds r0). cbn [frag_search].
  unfold nrd, mbind, st_bind, get_, nstore; cbn. rewrite lookup_insert_eq. cbn.
  assert (same_datagram (entry_ip sub) (frag_ip f header) = true) as ->; [|done].
  rewrite same_key by done. unfold same_datagram, entry_ip. case_match; cbn; by rewrite !Z.eqb_refl.
Qed.

Lemma read_entry h sub rx :
  nrd (T := fragmented) p (in_progress_at h sub rx)
  = Val (mkFragmented h sub) (in_progress_at h sub rx).
Proof. unfold nrd, mbind, st_bind, get_, nstore; cbn. by rewrite lookup_insert_eq. Qed.

Lemma write_entry g h sub rx :
  nwr (T := fragmented) p g (in_progress_at h sub rx)
  = let inc := g (mkFragmented h sub) in Val () (in_progress_at (fg_h inc) (fg_first inc) rx).
Proof.
  unfold nwr, mbind, st_bind, get_, nstore; cbn. rewrite lookup_insert_eq. cbn.
  unfold put_, in_progress_at, set; cbn. rewrite insert_insert_eq. by destruct (g _).
Qed.

Lemma entry_ip_perm sub sub' f :
  sub' ≡ₚ frag_of f :: sub ->
  entry_ip sub' = if f.1.1 =? 0 then full_ip else entry_ip sub.
Proof.
  intros Hp. unfold entry_ip.
  assert (existsb (fun g => fr_offset g =? 0) sub'
          = (f.1.1 =? 0) || existsb (fun g => fr_offset g =? 0) sub) as ->.
  { apply eq_true_iff_eq. rewrite orb_true_iff, !existsb_exists. split.
    - intros (x&Hx&H0). rewrite Hp in Hx. destruct Hx as [<-|Hx]; [by left|right; eauto].
    - intros [H0|(x&Hx&H0)]; [exists (frag_of f)|exists x]; rewrite Hp; cbn; auto. }
  by destruct (f.1.1 =? 0).
Qed.

Lemma first_missing f sub :
  f ∈ F0 -> f.1.1 = 0 -> sublist sub F -> frag_of f ∉ sub -> f = f0 /\ entry_ip sub = key_ip.
Proof.
  intros Hf H0 Hsub Hnot. destruct F0_head as [l El].
  assert (Hin : forall g, g ∈ F0 -> frag_of g ∈ F) by (intros; by apply list_elem_of_fmap_2).
  split.
  - assert (frag_of f = frag_of f0) as E.
    { apply (contig_inj 0 F); [apply F_contig|by apply Hin|apply Hin; rewrite El; left|done]. }
    destruct f as [[o b] c]. injection E as E1 E2 E3 E4. cbn in *. by subst.
  - unfold entry_ip. destruct (existsb _ sub) eqn:E; [|done].
    apply existsb_exists in E as (g&Hg&Hg0). apply list_elem_of_In in Hg. zbool.
    destruct Hnot. replace (frag_of f) with g; [done|].
    apply (contig_inj 0 F); [apply F_contig|by eapply elem_of_sublist|by apply Hin|].
    cbn. congruence.
Qed.

(** One more fragment: the entry grows, and the last one missing finishes it. *)
Lemma insert_step f sub tl header s rx :
  f ∈ F0 -> sublist sub F -> frag_of f ∉ sub ->
  (exists t, header = frag_hdr f ++ t) ->
  fragmented_find (frag_ip f header) s = Val p (in_progress sub rx) ->
  exists sub', sublist sub' F /\ sub' ≡ₚ frag_of f :: sub /\
  fragmented_tryinsert (f.2 ++ tl) (Z.of_nat (length f.2)) (frag_ip f header) s
  = (fragmented_tryfinish p) (in_progress sub' rx).
Proof.
  intros Hf Hsub Hnot [t Ht] Hfind.
  destruct (frag_bounds f Hf) as ([Ho Hl]&Hd&_).
  assert (HfF : frag_of f ∈ F) by by apply list_elem_of_fmap_2.
  destruct (frag_insert_sub 0 F sub (frag_of f) F_contig Hsub HfF Hnot) as (sub'&Hins&Hsub'&Hperm).
  exists sub'. split; [done|]. split; [done|]. unfold fragmented_tryinsert.
  rewrite (bind_eq _ _ _ _ _ Hfind). cbn [ip_fraginfo frag_ip].
  rewrite frag_field_offset, frag_field_more, negb_involutive by done.
  change (in_progress sub rx) with (in_progress_at (entry_ip sub) sub rx).
  rewrite (bind_eq _ _ _ _ _ (read_entry _ _ _)). cbn [fg_first].
  destruct (frag_insert sub (mkFrag _ _ _ [])) eqn:Ei.
  2:{ apply (frag_insert_key _ _ (frag_of f)) in Ei; [|done..]. by rewrite Ei in Hins. }
  clear Ei. rewrite (bind_eq _ _ _ f.2 (in_progress_at (entry_ip sub) sub rx)) by by rewrite fetch_at_0.
  rewrite (bind_eq _ _ _ _ _ (write_entry _ _ _ _)). cbn [fg_first fg_h set].
  change (mkFrag (Z.of_nat (length f.2)) f.1.1 f.1.2 f.2) with (frag_of f).
  unfold set; cbn [fg_first fg_h]. rewrite Hins. change (default [] (Some sub')) with sub'.
  unfold in_progress. rewrite (entry_ip_perm sub sub' f Hperm).
  destruct (f.1.1 =? 0) eqn:E0; zbool; [|done].
  destruct (first_missing f sub Hf E0 Hsub Hnot) as [Ef Ek]. rewrite Ek.
  rewrite (bind_eq _ (fun _ => fragmented_tryfinish p) _ tt (in_progress_at full_ip sub' rx)); [done|].
  rewrite (bind_eq _ _ _ _ _ (read_entry _ _ _)).
  match goal with |- context [assert ?b] => change b with true end.
  change (ip_header (frag_ip f header)) with (Some header).
  rewrite (bind_eq (assert true) _ _ tt _ eq_refl), (bind_eq (deref (Some header)) _ _ header _ eq_refl).
  rewrite (bind_eq _ _ _ (frag_hdr f) (in_progress_at key_ip sub' rx)).
  2:{ by rewrite Ht, fetch_at_0. }
  rewrite write_entry, Ef. reflexivity.
Qed.

Lemma F_cons : exists G, F = frag_of f0 :: G.
Proof. destruct F0_head as [l El]. exists (frag_of <$> l). unfold F. by rewrite El. Qed.

Lemma finish_partial sub rx :
  sublist sub F -> sub <> [] -> sub <> F ->
  fragmented_tryfinish p (in_progress sub rx) = Val () (in_progress sub rx).
Proof.
  intros Hs Hne Hpart. unfold fragmented_tryfinish.
  change (in_progress sub rx) with (in_progress_at (entry_ip sub) sub rx).
  rewrite (bind_eq _ _ _ _ _ (read_entry _ _ _)). cbn [fg_first].
  destruct sub as [|g sub]; [done|]. destruct (fr_offset g =? 0) eqn:E; zbool; [|done].
  cbn [negb]. apply (finish_incomplete p _ 0 F); [apply F_contig|done..].
Qed.

(** What remains to be done when the datagram is complete. *)
Definition deliver : N () :=
  ipv4_dispatch payload (Z.of_nat (length payload)) full_ip;;
  fragmented_free p;;
  if freed_next_null then skip else fail Undefined.

Lemma finish_full rx :
  fragmented_tryfinish p (in_progress F rx) = deliver (in_progress F rx).
Proof.
  unfold fragmented_tryfinish.
  change (in_progress F rx) with (in_progress_at (entry_ip F) F rx) at 1.
  rewrite (bind_eq _ _ _ _ _ (read_entry _ _ _)). cbn [fg_first].
  pose proof F_contig as Hc. destruct F_cons as [G EG].
  assert (Hm : forall m : N (), match F with [] => fail Undefined
    | f :: _ => if negb (fr_offset f =? 0) then skip else m end = m) by (intros m; by rewrite EG).
  rewrite Hm.
  assert (Hne : F <> []) by by rewrite EG.
  rewrite (finish_complete p F 0 F) by done.
  destruct (fragments_contig payload) as [_ Hj].
  rewrite (done_contig p F _ (mkFragmented (entry_ip F) F)); [|done|cbn; apply lookup_insert_eq].
  cbn [fg_h]. unfold in_progress, deliver.
  assert (entry_ip F = full_ip) as -> by (unfold entry_ip; by rewrite EG).
  assert (mjoin (fr_buf <$> F) = payload) as -> by exact Hj. reflexivity.
Qed.

(** ** Any order of arrival *)

Lemma length_rx_after f b :
  f ∈ F0 -> length b = 4096%nat -> length (rx_after (frame f) b) = 4096%nat.
Proof.
  intros Hf Hb. destruct (frag_bounds f Hf) as ([_ Hl]&_). pose proof (length_frame f).
  unfold rx_after. rewrite length_app, length_drop. lia.
Qed.

(** One frame, on a receiver that knows the fragments [sub] already or none. *)
Lemma receive_step f sub s rx :
  f ∈ F0 -> sublist sub F -> frag_of f ∉ sub ->
  length rx = 4096%nat ->
  s = in_progress sub rx \/ sub = [] /\ s = r0 <| n_rxbuf := rx |> ->
  exists sub' rx', sublist sub' F /\ sub' ≡ₚ frag_of f :: sub /\ length rx' = 4096%nat /\
    receive (frame f) s = fragmented_tryfinish p (in_progress sub' rx').
Proof.
  intros Hf Hs Hnot Hrx Hst. destruct (frag_bounds f Hf) as (Hok&Hd&Hfrag).
  assert (Hb : n_rxbuf s = rx) by by destruct Hst as [->|[_ ->]].
  assert (Hq' : ether_queue s = []) by by destruct Hst as [->|[_ ->]].
  pose proof (receive_frame f s Hok) as E. rewrite Hb in E. specialize (E Hrx Hq'). cbn zeta in E.
  rewrite frag_field_frag in E by (destruct Hok; done). rewrite Hfrag in E. cbv iota in E.
  set (rx' := rx_after (frame f) rx) in *.
  destruct (insert_step f sub (frag_rest f rx) (frag_hdr f ++ f.2 ++ frag_rest f rx)
              (s <| n_rxbuf ::= rx_after (frame f) |>) rx' Hf Hs Hnot) as (sub'&Hs'&Hp&Ei).
  { eauto. }
  { destruct Hst as [->|[-> ->]]; [exact (find_old f _ sub rx')|exact (find_new f _ rx')]. }
  exists sub', rx'. split_and!; [done|done|by apply length_rx_after|]. by rewrite E.
Qed.

Lemma sublist_full sub : sublist sub F -> length sub = length F -> sub = F.
Proof.
  intros Hs Hl. revert Hl. generalize F Hs. clear. intros G Hs Hl.
  induction Hs as [|x l1 l2 Hs IH|x l1 l2 Hs IH]; [done| |].
  - f_equal. apply IH. cbn in Hl. lia.
  - apply sublist_length in Hs. cbn in Hl. lia.
Qed.

Lemma receive_all l sub s rx :
  l <> [] -> (frag_of <$> l) ++ sub ≡ₚ F -> (forall f, f ∈ l -> f ∈ F0) ->
  sublist sub F -> length rx = 4096%nat ->
  s = in_progress sub rx \/ sub = [] /\ s = r0 <| n_rxbuf := rx |> ->
  exists rx', forM (frame <$> l) receive s = deliver (in_progress F rx').
Proof.
  intros Hl. revert sub s rx. induction l as [|f l IH]; intros sub s rx Hp Hin Hs Hrx Hst; [done|].
  pose proof (contig_nodup 0 F F_contig) as Hnd. cbn [fmap list_fmap app] in Hp.
  rewrite <- Hp in Hnd. apply NoDup_cons in Hnd as [Hnot _].
  destruct (receive_step f sub s rx) as (sub'&rx'&Hs'&Hp'&Hrx'&E); [by apply Hin; left|done| |done|done|].
  { intros ?. apply Hnot, elem_of_app. by right. }
  cbn [fmap list_fmap forM].
  assert (Hlen : length F = S (length l + length sub)).
  { rewrite <- Hp. cbn. by rewrite length_app, length_fmap. }
  assert (Hne : sub' <> []) by (intros ->; by apply Permutation_nil_cons in Hp').
  destruct l as [|g l].
  - assert (sub' = F) as ->.
    { apply sublist_full; [done|]. rewrite Hp', Hlen. done. }
    exists rx'. unfold mbind, st_bind. rewrite E, finish_full. by destruct (deliver _) as [[] ?| |].
  - assert (Hpart : sub' <> F).
    { intros ->. apply Permutation_length in Hp'. cbn in Hp', Hlen. lia. }
    rewrite (finish_partial _ _ Hs' Hne Hpart) in E. unfold mbind, st_bind. rewrite E.
    apply (IH ltac:(done) sub' (in_progress sub' rx') rx'); [|by intros; apply Hin; right|done..|by left].
    rewrite Hp'. etrans; [|exact Hp]. by rewrite Permutation_middle.
Qed.
End receive.

Lemma perm_fmap_inv {A B} (f : A -> B) l k :
  l ≡ₚ f <$> k -> exists k', l = f <$> k' /\ k' ≡ₚ k.
Proof.
  intros Hp. remember (f <$> k) as m eqn:Em. revert k Em.
  induction Hp as [|x l m Hp IH|x y l|l1 l2 l3 H1 IH1 H2 IH2]; intros k Em.
  - destruct k; [|done]. by exists [].
  - destruct k as [|a k]; [done|]. cbn in Em. injection Em as -> ->.
    destruct (IH k eq_refl) as (k'&->&Hk). exists (a :: k'). by split; [|constructor].
  - destruct k as [|a [|b k]]; try done. cbn in Em. injection Em as -> -> ->.
    exists (b :: a :: k). by split; [|apply Permutation_swap].
  - destruct (IH2 k Em) as (k2&->&Hk2). destruct (IH1 k2 eq_refl) as (k1&->&Hk1).
    exists k1. split; [done|by etrans].
Qed.

(** The description of a datagram that is handed to its protocol. *)
Definition datagram_ip (proto src dst id : Z) (frag : Z) (header : list Z) : ipv4 :=
  mkIPv4 (mkEther (MacFrame 6) (MacFrame 0) ET_IPv4) src dst id frag proto (Some header) 20.

(** No reassembly of the datagram is under way. *)
Definition no_entry (r : net) (proto src dst id : Z) : Prop :=
  Forall (fun q => exists inc, n_frags r !! q = Some inc /\
                   same_datagram (fg_h inc) (key_ip proto src dst id) = false) (fragmenteds r).

(** C11: reassembly undoes fragmentation, whatever the order.  [ipv4_send] of a
    payload shorter than 64 KiB puts a list of frames on the wire.  If a
    receiver that is not reassembling that datagram already gets these frames,
    in any order and nothing else, then nothing happens before the last of
    them; with it, the payload is handed to its protocol exactly once, complete
    and with its addresses, the entry is freed, and what follows depends on
    what the allocator leaves in the freed fragment.  A payload that fits one
    frame is handed over when the frame arrives. *)
Theorem fragments_reassemble `{Env} `{NetUser} payload ip sender receiver dmac smac :
  send_dst ip <> MacNull ->
  mac_bytes (send_dst ip) sender = Val dmac sender -> length dmac = 6%nat ->
  mac_bytes (own_if_null (e_src (ip_e ip))) sender = Val smac sender -> length smac = 6%nat ->
  is_byte (ip_proto ip) -> 0 <= send_src ip sender < 2 ^ 32 -> 0 <= ip_dst ip < 2 ^ 32 ->
  0 <= next_id sender < 2 ^ 16 ->
  no_entry receiver (ip_proto ip) (send_src ip sender) (ip_dst ip) (next_id sender) ->
  length (n_rxbuf receiver) = 4096%nat -> ether_queue receiver = [] ->
  let len := Z.of_nat (length payload) in
  let to frag header := datagram_ip (ip_proto ip) (send_src ip sender) (ip_dst ip)
                          (next_id sender) frag header in
  exists sender' frames,
    ipv4_send payload len ip sender = Val () sender' /\
    n_out sender' = n_out sender ++ (Sent <$> frames) /\
    forall arrived, arrived ≡ₚ frames ->
    (1480 < len < 2 ^ 16 -> exists rx header F,
       let p := n_next receiver in
       forM arrived receive receiver =
       (ipv4_dispatch payload len (to MoreFrags header);;
        fragmented_free p;;
        if freed_next_null then skip else fail Undefined)
       (receiver <| n_rxbuf := rx |> <| fragmenteds := p :: fragmenteds receiver |>
          <| n_frags := <[p := mkFragmented (to MoreFrags header) F]> (n_frags receiver) |>
          <| n_next := Pos.succ p |>)) /\
    (0 < len <= 1480 -> exists rx header rest,
       forM arrived receive receiver =
       ipv4_dispatch (payload ++ rest) len (to 0 (header ++ payload ++ rest))
         (receiver <| n_rxbuf := rx |>)).
Proof.
  intros Hn Hd Ld Hs Ls Hp Hsrc Hdst Hid Hnew Hrx Hq len to.
  set (frame := frag_frame dmac smac (ip_proto ip) (send_src ip sender) (ip_dst ip) (next_id sender)).
  eexists _, (frame <$> fragments payload).
  split; [by apply (ipv4_send_run payload ip sender dmac smac)|].
  split; [cbn; by rewrite <- list_fmap_compose|].
  intros arrived Harr. apply perm_fmap_inv in Harr as (l&->&Hl). split; intros Hlen.
  - destruct (receive_all dmac smac (ip_proto ip) (send_src ip sender) (ip_dst ip) (next_id sender)
      Ld Ls Hp Hsrc Hdst Hid payload Hlen receiver Hnew Hq l [] receiver (n_rxbuf receiver))
      as (rx&E).
    + intros ->. apply Permutation_nil in Hl. destruct (F0_head dmac smac Ld Ls payload Hlen) as [k Ek]. by rewrite Hl in Ek.
    + rewrite app_nil_r. by rewrite Hl.
    + intros f. by rewrite Hl.
    + apply sublist_nil_l.
    + done.
    + right. split; [done|]. by destruct receiver.
    + eexists rx, _, _. etrans; [exact E|]. unfold deliver, in_progress, in_progress_at.
      assert (entry_ip (ip_proto ip) (send_src ip sender) (ip_dst ip) (next_id sender) payload
        (frag_of <$> fragments payload)
        = to MoreFrags (frag_hdr (ip_proto ip) (send_src ip sender) (ip_dst ip) (next_id sender)
                         (0, false, take 1480 payload))) as ->; [|reflexivity].
      unfold entry_ip. destruct (F0_head dmac smac Ld Ls payload Hlen) as [k ->]. reflexivity.
  - assert (fragments payload = [(0, true, payload)]) as Ef.
    { assert (Hle : (Z.of_nat (length payload) <=? 1480) = true) by (apply Z.leb_le, Hlen).
      unfold fragments. cbn [chop]. rewrite Hle. subst len.
      destruct payload; [change (Z.of_nat (length [])) with 0 in Hlen; lia|done]. }
    rewrite Ef in Hl. apply Permutation_singleton_r in Hl as ->.
    pose proof (receive_frame dmac smac (ip_proto ip) (send_src ip sender) (ip_dst ip)
      (next_id sender) Ld Ls Hp Hsrc Hdst Hid (0, true, payload) receiver) as E.
    set (rest := frag_rest _ _ _ _ _ _ _ _) in E.
    exists (rx_after (frame (0, true, payload)) (n_rxbuf receiver)), (frag_hdr (ip_proto ip) (send_src ip sender) (ip_dst ip) (next_id sender) (0, true, payload)), rest.
    cbn [fmap list_fmap forM]. unfold mbind, st_bind. fold frame in E.
    rewrite E; [|split; cbn; lia|done|done]. cbn zeta. cbn [fst snd].
    rewrite frag_field_frag by (by exists 0 || lia). cbn [Z.eqb andb negb].
    match goal with |- context [ipv4_dispatch ?a ?b ?c ?d] =>
      change (ipv4_dispatch a b c d) with
        (ipv4_dispatch (payload ++ rest) len (to 0 (frag_hdr (ip_proto ip) (send_src ip sender)
           (ip_dst ip) (next_id sender) (0, true, payload) ++ payload ++ rest))
         (receiver <| n_rxbuf := rx_after (frame (0, true, payload)) (n_rxbuf receiver) |>)) end.
    by destruct (ipv4_dispatch _ _ _ _) as [[] ?| |].
Qed.

(** A host that only listens for datagrams, and its peer. *)
Definition quiet : NetUser := {|
  tcp_on_conn := fun _ _ => skip; tcp_on_recv := fun _ => skip; tcp_on_close := fun _ => skip;
  udp_on_conn := fun _ _ => skip; udp_on_recv := fun _ _ _ => skip |}.
Definition some_env : Env := {|
  fresh_word := 0; freed_next_null := true; raw_write := fun f => Z.of_nat (length f) |}.

Definition peer_mac : list Z := [2; 0; 0; 0; 0; 5].

Definition sender0 : net := net0 0x0a000002 0x0a000001.
Definition receiver0 : net := net0 0x0a000005 0x0a000001.
Definition to_peer : ipv4 := ip_to 253 0 0x0a000005 (MacAt peer_mac).
Definition big_payload : list Z := replicate 3000 7.

Definition frames_sent (o : outcome net Empty_set ()) : list event :=
  match o with Val _ s => n_out s | _ => [] end.

Lemma fragments_reassemble_witness :
  (* a payload of 3000 bytes; its three frames, the last first *)
  exists f1 f2 f3 rx header F,
    frames_sent (ipv4_send big_payload 3000 to_peer sender0) = [Sent f1; Sent f2; Sent f3] /\
    forM [f3; f1; f2] (@receive some_env quiet) receiver0 =
    (@ipv4_dispatch quiet big_payload 3000 (datagram_ip 253 0x0a000002 0x0a000005 0 MoreFrags header);;
     fragmented_free 1;; skip)
    (receiver0 <| n_rxbuf := rx |> <| fragmenteds := [1%positive] |>
       <| n_frags := <[1%positive := mkFragmented (datagram_ip 253 0x0a000002 0x0a000005 0 MoreFrags header) F]> ∅ |>
       <| n_next := 2%positive |>).
Proof.
  destruct (@fragments_reassemble some_env quiet big_payload to_peer sender0 receiver0
    peer_mac (n_mac sender0) ltac:(discriminate) eq_refl eq_refl eq_refl eq_refl
    ltac:(decide_now) ltac:(decide_now) ltac:(decide_now) ltac:(decide_now)
    (Forall_nil_2 _) eq_refl eq_refl) as (s'&frames&Hsend&Hout&Harr).
  assert (Hf : (length frames = 3)%nat).
  { assert (length (frames_sent (ipv4_send big_payload (Z.of_nat (length big_payload)) to_peer sender0)) = 3%nat)
      as E by (vm_compute; reflexivity).
    rewrite Hsend in E. cbn [frames_sent] in E. rewrite Hout, length_app, length_fmap in E. exact E. }
  destruct frames as [|f1 [|f2 [|f3 [|]]]]; try discriminate Hf.
  destruct (Harr [f3; f1; f2]) as [Hbig _].
  { apply (Permutation_middle [f1; f2] [] f3). }
  destruct Hbig as (rx&header&F&E); [vm_compute; split; reflexivity|].
  exists f1, f2, f3, rx, header, F. change 3000 with (Z.of_nat (length big_payload)).
  rewrite Hsend. split; [exact Hout|exact E].
Defined.
