(* ===== verification/NetFs.v ===== *)
(** * NetFs

    The file system interface of the network stack ([src/src/cmd/netstack/fs.c]):
    the callbacks it gives to connections ([NetUser]'s instance) and the
    handlers of [fs_thread].  A turn of [fs_thread] gets the buffer
    [_sys_fs_wait] has filled, all 4096 bytes of it, with the request.

    The two threads of the stack share its state without locks; they can only
    be switched in system calls, and [proto.h] notes that this is what the code
    relies on.  Here a frame or a request is handled to its end. *)

From S2P Require Import Prelude Monad Mem Ring CString KState UserFs.
From S2P Require Import NetUtil NetState NetSend NetConn NetRecv.

Definition ECONNRESET : Z := 12.

(** ** Callbacks *)

(** [_sys_fs_respond(h->reqh, ...)] and [h->reqh = -1]. *)
Definition answer_open (h : ptr) : N () :=
  hd ← nrd (T := handle) h;
  respond (h_reqh hd) (RId h) 0;;
  nwr h (fun hd : handle => hd <| h_reqh := -1 |>).

Definition tcp_conn_callback (c h : ptr) : N () :=
  nwr h (fun hd : handle => hd <| h_tcp_c := Some c |>);;
  answer_open h.

Definition tcp_recv_callback (h : ptr) : N () :=
  hd ← nrd (T := handle) h;
  if 0 <=? h_reqh hd then
    let readcap := if 1024 <? h_tcp_readcap hd then 1024 else h_tcp_readcap hd in
    nwr h (fun hd : handle => hd <| h_tcp_readcap := readcap |>);;
    c ← deref (h_tcp_c hd);
    out ← tcpc_tryread c readcap;
    if 0 <? Z.of_nat (length out) then
      respond_bytes (h_reqh hd) out (Z.of_nat (length out));;
      nwr h (fun hd : handle => hd <| h_reqh := -1 |>)
    else skip
  else skip.

Definition tcp_close_callback (h : ptr) : N () :=
  nwr h (fun hd : handle => hd <| h_dead := true |>);;
  hd ← nrd (T := handle) h;
  if 0 <=? h_reqh hd then
    respond (h_reqh hd) RNull (- ECONNRESET);;
    nwr h (fun hd : handle => hd <| h_reqh := -1 |>)
  else skip.

Definition udp_listen_callback (c h : ptr) : N () :=
  nwr h (fun hd : handle => hd <| h_udp_c := Some c |>);;
  answer_open h.

Definition udp_recv_callback (buf : list Z) (len : Z) (h : ptr) : N () :=
  hd ← nrd (T := handle) h;
  if 0 <=? h_reqh hd then
    respond_bytes (h_reqh hd) buf len;;
    nwr h (fun hd : handle => hd <| h_reqh := -1 |>)
  else
    data ← lift (fetch buf 0 len);
    sq ← nnew (mkSq None len data);
    match h_udp_rx hd with
    | Some _ =>
        last ← deref (h_udp_rxlast hd);
        nwr last (fun q : strqueue => q <| sq_next := Some sq |>);;
        nwr h (fun hd : handle => hd <| h_udp_rxlast := Some sq |>)
    | None =>
        nwr h (fun hd : handle => hd <| h_udp_rx := Some sq |> <| h_udp_rxlast := Some sq |>)
    end.

#[export] Instance fs_user : NetUser := {|
  tcp_on_conn := tcp_conn_callback;
  tcp_on_recv := tcp_recv_callback;
  tcp_on_close := tcp_close_callback;
  udp_on_conn := udp_listen_callback;
  udp_on_recv := udp_recv_callback;
|}.

(** ** Requests *)

(** The queue's head is answered and unlinked; what is freed is the node that
    becomes the new head. *)
Definition recv_enqueue (h : ptr) (reqh readcap : Z) : N () :=
  hd ← nrd (T := handle) h;
  if 0 <? h_reqh hd then respond reqh RNull (-1)
  else
    match h_type hd, h_udp_rx hd with
    | H_UDP, Some rx =>
        q ← nrd (T := strqueue) rx;
        respond_bytes reqh (sq_buf q) (sq_len q);;
        nwr h (fun hd : handle => hd <| h_udp_rx := sq_next q |>);;
        match sq_next q with Some next => nfree (T := strqueue) next | None => skip end
    | t, _ =>
        nwr h (fun hd : handle => hd <| h_reqh := reqh |>);;
        match t with
        | H_TCP =>
            nwr h (fun hd : handle => hd <| h_tcp_readcap := readcap |>);;
            tcp_recv_callback h
        | _ => skip
        end
    end.

(** String constants, terminated. *)
Definition str_raw : list Z := [114; 97; 119; 0].
Definition str_arp : list Z := [97; 114; 112; 0].
Definition str_udp : list Z := [117; 100; 112; 0].
Definition str_tcp : list Z := [116; 99; 112; 0].
Definition str_listen : list Z := [108; 105; 115; 116; 101; 110; 0].
Definition str_connect : list Z := [99; 111; 110; 110; 101; 99; 116; 0].
Definition str_slash : list Z := [47; 0].

(** [strcmp(buf + i, s) == 0] *)
Definition is_str (buf : list Z) (i : nat) (s : list Z) : N bool :=
  c ← lift (strcmp (drop i buf) s); mret (c =? 0).

(** [strtok_r(NULL, "/", &save)], with [buf] and [save] passed along. *)
Definition next_token (x : list Z * nat) : N (list Z * nat * option nat) :=
  lift (strtok_r x.1 None str_slash x.2).

(** [ip_parse] of the next token. *)
Definition next_ip (x : list Z * nat) : N (list Z * nat * option Z) :=
  '(buf, save, t) ← next_token x;
  ip ← lift (ip_parse ((fun i => drop i buf) <$> t));
  mret (buf, save, ip).

(** The port in the next token, if there is one. *)
Definition next_port (x : list Z * nat) : N (option Z) :=
  '(buf, _, t) ← next_token x;
  match t with
  | None => mret None
  | Some i => '(n, _) ← lift (strtol (drop i buf) 0); mret (Some (u16 n))
  end.

Definition new_handle (t : handle_type) (reqh : Z) : N ptr :=
  nnew (handle0 t <| h_reqh := reqh |>).

Definition fs_listen `{Env} (reqh : Z) (x : list Z * nat) : N () :=
  '(buf, save, proto) ← next_token x;
  match proto with
  | None => respond reqh RNull (-1)
  | Some i =>
      udp ← is_str buf i str_udp;
      tcp ← is_str buf i str_tcp;
      if (udp || tcp : bool) then
        port ← next_port (buf, save);
        match port with
        | None => respond reqh RNull (-1)
        | Some port =>
            h ← new_handle (if udp then H_UDP else H_TCP) reqh;
            if (udp : bool) then udp_listen port true true h else tcp_listen port h
        end
      else respond reqh RNull (-1)
  end.

(** The handle of a UDP connection is zeroed: its [reqh] stays 0. *)
Definition fs_connect_udp (reqh dstip port : Z) : N () :=
  h ← new_handle H_UDP 0;
  c ← udpc_new 0 dstip 0 port true h;
  match c with
  | Some c =>
      nwr h (fun hd : handle => hd <| h_udp_c := Some c |>);;
      respond reqh (RId h) 0
  | None => nfree (T := handle) h;; respond reqh RNull (-1)
  end.

Definition fs_connect (reqh : Z) (x : list Z * nat) : N () :=
  '(buf, save, dstip) ← next_ip x;
  match dstip with
  | None => respond reqh RNull (-1)
  | Some dstip =>
      '(buf, save, proto) ← next_token (buf, save);
      match proto with
      | None => respond reqh RNull (-1)
      | Some i =>
          tcp ← is_str buf i str_tcp;
          udp ← is_str buf i str_udp;
          if (tcp || udp : bool) then
            port ← next_port (buf, save);
            match port with
            | None => respond reqh RNull (-1)
            | Some port =>
                if (tcp : bool) then
                  h ← new_handle H_TCP reqh; tcp_connect 0 dstip 0 port h
                else fs_connect_udp reqh dstip port
            end
          else respond reqh RNull (-1)
      end
  end.

(** Everything below [/raw] and [/arp] ends up sending packets. *)
Definition fs_open_conn `{Env} (reqh : Z) (buf : list Z) : N () :=
  '(buf, save, verb) ← lift (strtok_r buf (Some 1%nat) str_slash 0);
  match verb with
  | None => respond reqh RNull (-1)
  | Some v =>
      '(buf, save, srcip) ← next_ip (buf, save);
      match srcip with
      | None => respond reqh RNull (-1)
      | Some srcip =>
          if negb (srcip =? 0) then warnx;; respond reqh RNull (-1)
          else
            l ← is_str buf v str_listen;
            c ← is_str buf v str_connect;
            if (l : bool) then fs_listen reqh (buf, save)
            else if (c : bool) then fs_connect reqh (buf, save)
            else respond reqh RNull (-1)
      end
  end.

Definition fs_open `{Env} (reqh : Z) (buf : list Z) (flags : Z) : N () :=
  c ← lift (peek buf 0);
  if negb (c =? 47) then respond reqh RNull (-1)
  else
    raw ← is_str buf 1 str_raw;
    arp ← is_str buf 1 str_arp;
    if (raw : bool) then h ← new_handle H_ETHER 0; respond reqh (RId h) 0
    else if (arp : bool) then h ← new_handle H_ARP 0; respond reqh (RId h) 0
    else if negb (OPEN_WRITEABLE flags) then respond reqh RNull (- EACCES)
    else fs_open_conn reqh buf.

Definition buflen : Z := 4096.

Definition fs_read (reqh : Z) (q : ufs_request) : N () :=
  hd ← nrd (T := handle) (q_id q);
  if h_dead hd then respond reqh RNull (- ECONNRESET)
  else
    match h_type hd with
    | H_ETHER => modify (set ether_queue (fun l => reqh :: l))
    | H_TCP | H_UDP => recv_enqueue (q_id q) reqh (q_capacity q)
    | H_ARP => arp_fsread reqh (q_offset q)
    end.

Definition fs_write `{Env} (reqh : Z) (buf : list Z) (q : ufs_request) : N () :=
  hd ← nrd (T := handle) (q_id q);
  if h_dead hd then respond reqh RNull (- ECONNRESET)
  else
    match h_type hd with
    | H_ETHER =>
        frame ← lift (fetch buf 0 (q_len q));
        emit (Sent frame);;
        respond reqh RNull (raw_write frame)
    | H_TCP =>
        c ← deref (h_tcp_c hd);
        tcpc_send c buf (q_len q);;
        respond reqh RNull (q_len q)
    | H_UDP =>
        c ← deref (h_udp_c hd);
        udpc_send c buf (q_len q);;
        respond reqh RNull (q_len q)
    | H_ARP => r ← arp_fswrite buf (q_len q) (q_offset q); respond reqh RNull r
    end.

Definition fs_close (reqh : Z) (q : ufs_request) : N () :=
  hd ← nrd (T := handle) (q_id q);
  match h_type hd with
  | H_TCP => c ← deref (h_tcp_c hd); tcpc_close c
  | H_UDP => c ← deref (h_udp_c hd); udpc_close c
  | _ => skip
  end;;
  nfree (T := handle) (q_id q);;
  respond reqh RNull (-1).

Definition fs_request `{Env} (buf : list Z) (reqh : Z) (q : ufs_request) : N () :=
  match q_op q with
  | VFSOP_OPEN =>
      if q_len q <? buflen then
        buf ← lift (store buf (q_len q) [0]);
        fs_open reqh buf (q_flags q)
      else respond reqh RNull (-1)
  | VFSOP_READ => fs_read reqh q
  | VFSOP_WRITE => fs_write reqh buf q
  | VFSOP_CLOSE => fs_close reqh q
  | _ => respond reqh RNull (-1)
  end.

(** ** The stack as a machine *)

(** What the two threads wait for. *)
Inductive input :=
| Frame (frame : list Z)
| Request (buf : list Z) (reqh : Z) (q : ufs_request).

Definition handle_input `{Env} (i : input) : N () :=
  match i with
  | Frame frame => receive frame
  | Request buf reqh q => fs_request buf reqh q
  end.

(** [main]: the gateway's address is asked for, then the threads start. *)
Definition netstack_main `{Env} (ins : list input) : N () :=
  gw ← gets n_gateway;
  arp_request gw;;
  forM ins handle_input.
