(* ===== verification/NetSafe.v ===== *)
(** * NetSafe

    The invariant of the network stack: every object it holds is well formed,
    the links between handles and TCP connections are consistent, and every
    frame it has built is a well-formed Ethernet frame.  It holds at the start
    and is kept by every frame and every request, which never trip an
    assertion. *)

From S2P Require Import Prelude Monad Mem Ring Printf CString KState UserFs.
From S2P Require Import NetUtil NetState NetSend NetFrame NetConn NetRecv NetFs.

Definition bytes_ok (l : list Z) : Prop := Forall is_byte l.

Definition mac_ok (l : list Z) : Prop := length l = 6%nat /\ bytes_ok l.

Definition macptr_ok (p : macptr) : Prop :=
  match p with MacAt m => mac_ok m | _ => True end.

(** A frame the stack builds: between the minimum and the maximum of Ethernet. *)
Definition frame_ok (f : list Z) : Prop :=
  60 <= Z.of_nat (length f) <= 1514 /\ bytes_ok f.

(** Reassembly: fragments in strictly ascending order, with their data; the
    header is there only if the first fragment is. *)
Definition frag_ok' (f : fragment) : Prop :=
  fr_len f = Z.of_nat (length (fr_buf f)) /\ 0 <= fr_offset f /\ bytes_ok (fr_buf f).

Fixpoint ascending (l : list fragment) : Prop :=
  match l with
  | [] => True
  | f :: l' => Forall (fun g => fr_offset f < fr_offset g) l' /\ ascending l'
  end.

Definition entry_ok (inc : fragmented) : Prop :=
  Forall frag_ok' (fg_first inc) /\ ascending (fg_first inc) /\
  (ip_header (fg_h inc) <> None -> exists f, f ∈ fg_first inc /\ fr_offset f = 0) /\
  macptr_ok (e_src (ip_e (fg_h inc))) /\
  (forall h, ip_header (fg_h inc) = Some h -> bytes_ok h) /\
  0 <= ip_hlen (fg_h inc).

Definition udp_ok (c : udp_conn) : Prop := mac_ok (u_rmac c).

Definition tcp_ok (c : tcp_conn) : Prop := mac_ok (t_rmac c) /\ ring_wf (t_rx c).

Definition handle_ok (h : handle) : Prop := 0 <= h_tcp_readcap h.

Definition sq_ok (q : strqueue) : Prop := bytes_ok (sq_buf q).

Definition event_ok (raw : list Z -> Prop) (e : event) : Prop :=
  match e with Sent f => frame_ok f \/ raw f | _ => True end.

(** [x] is a handle that is being closed; [raw] the frames that users wrote to
    the raw device. *)
Record inv (raw : list Z -> Prop) (x : option ptr) (s : net) : Prop := {
  inv_mac : mac_ok (n_mac s);
  inv_rx : length (n_rxbuf s) = 4096%nat /\ bytes_ok (n_rxbuf s);
  inv_arp : Forall (fun e => mac_ok e.2) (arpcache s);
  inv_frags : map_Forall (fun _ => entry_ok) (n_frags s);
  inv_udp : map_Forall (fun _ => udp_ok) (n_udp s);
  inv_tcp : map_Forall (fun _ => tcp_ok) (n_tcp s);
  inv_handles : map_Forall (fun _ => handle_ok) (n_handles s);
  inv_sq : map_Forall (fun _ => sq_ok) (n_sq s);
  inv_out : Forall (event_ok raw) (n_out s);
  (* a handle's connection names the handle *)
  inv_link : forall h hd c conn, n_handles s !! h = Some hd -> h_tcp_c hd = Some c ->
    n_tcp s !! c = Some conn -> t_carg conn = h;
  (* a connection that its user has closed has no handle any more *)
  inv_closed : forall c conn, n_tcp s !! c = Some conn -> t_uclosed conn = true ->
    n_handles s !! t_carg conn = None /\ (t_carg conn < n_next s)%positive \/ x = Some (t_carg conn);
  inv_fresh_t : forall c conn, n_tcp s !! c = Some conn -> (c < n_next s)%positive;
  inv_fresh_h : forall h hd, n_handles s !! h = Some hd -> (h < n_next s)%positive /\
    (forall c, h_tcp_c hd = Some c -> (c < n_next s)%positive);
}.

(** ** Computations that keep it *)

(** No assertion fails and no fuel runs out: the only fault is an undefined
    access. *)
Definition np {A} (r : res A) : Prop := forall f, r = Err f -> f = Undefined.

Section ok.
Context (raw : list Z -> Prop).

(** From every state with the invariant, [m] keeps it and its result satisfies
    [Q], or it ends in an undefined access; it never fails an assertion. *)
Definition ok (x : option ptr) {A} (m : N A) (Q : A -> Prop) : Prop :=
  forall s, inv raw x s ->
  match m s with
  | Val a s' => inv raw x s' /\ Q a
  | Exit _ _ => True
  | Fault f => f = Undefined
  end.

Context {x : option ptr}.

Lemma ok_ret {A} (a : A) (Q : A -> Prop) : Q a -> ok x (mret a) Q.
Proof. intros HQ s Hs. done. Qed.

Lemma ok_skip (Q : () -> Prop) : Q () -> ok x skip Q.
Proof. apply ok_ret. Qed.

Lemma ok_bind {A B} (m : N A) (f : A -> N B) (P : A -> Prop) (Q : B -> Prop) :
  ok x m P -> (forall a, P a -> ok x (f a) Q) -> ok x (m ≫= f) Q.
Proof.
  intros Hm Hf s Hs. unfold mbind, st_bind. specialize (Hm s Hs).
  destruct (m s) as [a s'|e s'|y]; [|done|done]. destruct Hm as [Hs' Ha]. by apply Hf.
Qed.

Lemma ok_mono {A} (m : N A) (P Q : A -> Prop) : ok x m P -> (forall a, P a -> Q a) -> ok x m Q.
Proof.
  intros Hm H s Hs. specialize (Hm s Hs). destruct (m s); [|done|done]. destruct Hm. auto.
Qed.

Lemma ok_undefined {A} (Q : A -> Prop) : ok x (fail Undefined) Q.
Proof. by intros s Hs. Qed.

Lemma ok_lift {A} (r : res A) : np r -> ok x (lift r) (fun a => r = Ok a).
Proof. intros Hr s Hs. destruct r as [a|f]; [done|]. by apply Hr. Qed.

Lemma ok_deref {A} (o : option A) : ok x (deref o) (fun a => o = Some a).
Proof. intros s Hs. by destruct o. Qed.

Lemma ok_gets {A} (f : net -> A) (Q : A -> Prop) :
  (forall s, inv raw x s -> Q (f s)) -> ok x (gets f) Q.
Proof. intros HQ s Hs. split; auto. Qed.

Lemma ok_get (Q : net -> Prop) : (forall s, inv raw x s -> Q s) -> ok x get_ Q.
Proof. intros HQ s Hs. split; auto. Qed.

Lemma ok_modify (f : net -> net) :
  (forall s, inv raw x s -> inv raw x (f s)) -> ok x (modify f) (fun _ => True).
Proof. intros Hf s Hs. split; auto. Qed.

Lemma ok_assert b : b = true -> ok x (assert b) (fun _ => True).
Proof. intros -> s Hs. done. Qed.

Lemma ok_when b m : (b = true -> ok x m (fun _ => True)) -> ok x (when b m) (fun _ => True).
Proof. destruct b; [auto|intros _; by apply ok_ret]. Qed.

Lemma ok_forM {A} (l : list A) (f : A -> N ()) :
  (forall a, a ∈ l -> ok x (f a) (fun _ => True)) -> ok x (forM l f) (fun _ => True).
Proof.
  induction l as [|a l IH]; intros Hf; [by apply ok_ret|]. cbn [forM].
  eapply ok_bind; [by apply Hf; left|]. intros _ _. apply IH. intros b Hb. apply Hf. by right.
Qed.

(** A loop with a variant that its fuel bounds. *)
Lemma ok_iter {A B} n (body : A -> N (A + B)) a (J : nat -> A -> Prop) (Q : B -> Prop) :
  J n a ->
  (forall y, ~ J O y) ->
  (forall k y, J (S k) y ->
     ok x (body y) (fun r => match r with inl z => J k z | inr b => Q b end)) ->
  ok x (iter n body a) Q.
Proof.
  intros Ha H0 Hb. revert a Ha; induction n as [|n IH]; intros a Ha; [by destruct (H0 a)|].
  cbn [iter]. eapply ok_bind; [by apply Hb|]. intros [z|b] Hz; [by apply IH|by apply ok_ret].
Qed.
End ok.

(** ** Pure helpers: no assertion fails, no loop runs out of fuel *)

Lemma bind_np {A B} (r : res A) (f : A -> res B) :
  np r -> (forall a, r = Ok a -> np (f a)) -> np (r ≫= f).
Proof. intros Hr Hf. destruct r as [a|y]; cbn; [by apply Hf|]. intros g [= <-]. by apply Hr. Qed.

Lemma ok_np {A} (a : A) : np (Ok a).
Proof. by intros f. Qed.

Lemma undefined_np {A} : np (@Err A Undefined).
Proof. by intros f [= <-]. Qed.

#[export] Hint Resolve ok_np undefined_np : np.

(** Case analysis, down to the results. *)
Ltac np :=
  repeat first
    [ solve [eauto with np]
    | apply bind_np; [|intros ? ?]
    | case_match
    | progress cbn [mbind res_bind] ].

Lemma peek_np b i : np (peek b i). Proof. unfold peek. np. Qed.
Lemma fetch_np b i n : np (fetch b i n). Proof. unfold fetch. np. Qed.
Lemma store_np b i l : np (store b i l). Proof. unfold store. np. Qed.
Lemma nget16_np b i : np (nget16 b i). Proof. unfold nget16, peek. np. Qed.
Lemma nget32_np b i : np (nget32 b i). Proof. unfold nget32, peek. np. Qed.
Lemma nput16_np b i n : np (nput16 b i n). Proof. apply store_np. Qed.
Lemma nput32_np b i n : np (nput32 b i n). Proof. apply store_np. Qed.

Lemma u32_range z : 0 <= u32 z < 2 ^ 32.
Proof. apply Z.mod_pos_bound. lia. Qed.

(** The sums are 32-bit words, and those fold in three steps. *)
Lemma fold_carries_np c : 0 <= c < 2 ^ 32 -> np (fold_carries 3 c).
Proof. intros Hc. rewrite fold_carries_spec by done. apply ok_np. Qed.

Lemma sum_words_np l : forall n c, np (sum_words l n c).
Proof.
  induction l as [l IH] using (induction_ltof1 _ length). unfold ltof in IH. intros n c.
  destruct l as [|a [|b l]]; cbn [sum_words];
    repeat (case_match; try discriminate); auto with np. apply IH. cbn. lia.
Qed.

Lemma sum_words_range l : forall n c r, 0 <= c < 2 ^ 32 -> sum_words l n c = Ok r -> 0 <= r < 2 ^ 32.
Proof.
  induction l as [l IH] using (induction_ltof1 _ length). unfold ltof in IH. intros n c r Hc.
  assert (forall x, Ok (u32 x) = Ok r -> 0 <= r < 2 ^ 32) by (intros ? [= <-]; apply u32_range).
  destruct l as [|a [|b l]]; cbn [sum_words]; repeat (case_match; try discriminate);
    try (by intros [= <-]); eauto.
  apply IH; [cbn; lia|apply u32_range].
Qed.

#[export] Hint Resolve peek_np fetch_np store_np nget16_np nget32_np nput16_np nput32_np
  sum_words_np : np.

Lemma ip_checksum_np b n : np (ip_checksum b n).
Proof.
  unfold ip_checksum. apply bind_np; [auto with np|]. intros c Hc.
  apply sum_words_range in Hc; [|lia]. apply bind_np; [by apply fold_carries_np|auto with np].
Qed.

Lemma ip_checksumphdr_np b n i j p : np (ip_checksumphdr b n i j p).
Proof.
  unfold ip_checksumphdr. apply bind_np; [apply ip_checksum_np|]. intros c _.
  apply bind_np; [apply fold_carries_np, u32_range|auto with np].
Qed.

#[export] Hint Resolve ip_checksum_np ip_checksumphdr_np : np.

Lemma ipv4_fill_np pkt pl ip id off n last : np (ipv4_fill pkt pl ip id off n last).
Proof. unfold ipv4_fill. np. Qed.

Lemma strchr_np s c : np (strchr s c).
Proof. induction s as [|b s IH]; cbn; np. Qed.
#[export] Hint Resolve strchr_np : np.

Lemma strspn_np s a : np (strspn s a).
Proof. induction s as [|b s IH]; cbn; np. Qed.

Lemma strcspn_np s a : np (strcspn s a).
Proof. induction s as [|b s IH]; cbn; np. Qed.
#[export] Hint Resolve strspn_np strcspn_np : np.

Lemma strtok_r_np b s sep st : np (strtok_r b s sep st).
Proof. unfold strtok_r. np. Qed.

Lemma strcmp_np s1 s2 : np (strcmp s1 s2).
Proof. revert s2; induction s1 as [|a s1 IH]; intros [|b s2]; cbn; np. Qed.

Lemma strton_digits_np s b acc : np (strton_digits s b acc).
Proof. revert acc; induction s as [|c s IH]; intros acc; cbn; np. Qed.

Lemma skip_space_np s : np (skip_space s).
Proof. induction s; cbn; np. Qed.

Lemma head_char_np s : np (head_char s).
Proof. destruct s; cbn; auto with np. Qed.
#[export] Hint Resolve strton_digits_np skip_space_np head_char_np : np.

Lemma strtol_np s b : np (strtol s b).
Proof. unfold strtol, strton, strton_sign, strton_base. np. Qed.
#[export] Hint Resolve strtol_np : np.

Lemma ip_parts_np n s ip k : np (ip_parts n s ip k).
Proof. revert s ip k; induction n as [|n IH]; intros s ip k; cbn [ip_parts]; np. Qed.
#[export] Hint Resolve ip_parts_np : np.

Lemma ip_parse_np s : np (ip_parse s).
Proof. unfold ip_parse. np. Qed.

#[export] Hint Resolve ipv4_fill_np strtok_r_np strcmp_np ip_parse_np : np.

Lemma bytes_drop n l : bytes_ok l -> bytes_ok (drop n l).
Proof. apply Forall_drop. Qed.
Lemma bytes_take n l : bytes_ok l -> bytes_ok (take n l).
Proof. apply Forall_take. Qed.

Lemma bytes_splice i k l : bytes_ok k -> bytes_ok l -> bytes_ok (splice i k l).
Proof. intros. unfold splice, bytes_ok. rewrite !Forall_app. auto using Forall_take, Forall_drop. Qed.

Lemma bytes_advance l n : bytes_ok l -> bytes_ok (advance l n).
Proof. apply bytes_drop. Qed.

Lemma bytes_fetch l o n b :
  fetch l o n = Ok b -> bytes_ok l -> bytes_ok b /\ (0 <= n -> 0 <= o -> Z.of_nat (length b) = n).
Proof.
  unfold fetch. case_match; [|done]. intros [= <-] Hl. split; [by apply bytes_take, bytes_drop|].
  intros. zbool. rewrite length_take, length_drop. lia.
Qed.

Lemma bytes_store l o k r : store l o k = Ok r -> bytes_ok l -> bytes_ok k -> bytes_ok r.
Proof. unfold store. case_match; [|done]. intros [= <-] Hl Hk. by apply bytes_splice. Qed.

Lemma length_store l o k r : store l o k = Ok r -> 0 <= o -> length r = length l.
Proof.
  unfold store. case_match; [|done]. intros [= <-] Ho. zbool. apply length_splice. lia.
Qed.

Lemma bytes_zero n : bytes_ok (replicate n 0).
Proof. apply Forall_replicate. unfold is_byte. lia. Qed.

Lemma bytes_app l k : bytes_ok l -> bytes_ok k -> bytes_ok (l ++ k).
Proof. intros. by apply Forall_app. Qed.

Lemma bytes_cons b l : is_byte b -> bytes_ok l -> bytes_ok (b :: l).
Proof. by constructor. Qed.

Lemma bytes_nil : bytes_ok [].
Proof. constructor. Qed.

#[export] Hint Resolve bytes_drop bytes_take bytes_splice bytes_advance bytes_zero bytes_app
  bytes_cons bytes_nil be16_bytes be32_bytes is_byte_u8 : bytes.

(** ** Effects on the state *)

Section prim.
Context {raw : list Z -> Prop} {x : option ptr}.

Local Abbreviation ok := (ok raw x).

(** Fields the invariant does not look at. *)
Lemma inv_queue f s : inv raw x s -> inv raw x (set ether_queue f s).
Proof. intros []. by constructor. Qed.
Lemma inv_fragmenteds f s : inv raw x s -> inv raw x (set fragmenteds f s).
Proof. intros []. by constructor. Qed.
Lemma inv_udp_conns f s : inv raw x s -> inv raw x (set udp_conns f s).
Proof. intros []. by constructor. Qed.
Lemma inv_tcp_conns f s : inv raw x s -> inv raw x (set tcp_conns f s).
Proof. intros []. by constructor. Qed.
Lemma inv_next_id f s : inv raw x s -> inv raw x (set next_id f s).
Proof. intros []. by constructor. Qed.

Lemma inv_arp_cons ip mac s :
  mac_ok mac -> inv raw x s -> inv raw x (set arpcache (fun c => (ip, mac) :: c) s).
Proof. intros Hm []. constructor; try done. cbn. by constructor. Qed.

Lemma inv_rx_splice frame s :
  bytes_ok frame -> Z.of_nat (length frame) <= 4096 -> inv raw x s ->
  inv raw x (set n_rxbuf (fun b => splice 0 frame b) s).
Proof.
  intros Hf Hl []. constructor; try done. cbn. destruct inv_rx0 as [Hl0 Hb].
  split; [rewrite length_splice; lia|by apply bytes_splice].
Qed.

Lemma ok_emit e : event_ok raw e -> ok (emit e) (fun _ => True).
Proof.
  intros He. apply ok_modify. intros s []. constructor; try done. cbn.
  apply Forall_app. split; [done|]. by constructor.
Qed.

Lemma ok_warnx : ok warnx (fun _ => True).
Proof. by apply ok_emit. Qed.

Lemma ok_respond h r v : ok (respond h r v) (fun _ => True).
Proof. by apply ok_emit. Qed.

Lemma ok_respond_bytes h b n : ok (respond_bytes h b n) (fun _ => True).
Proof.
  unfold respond_bytes. eapply ok_bind; [apply ok_lift, fetch_np|]. intros; apply ok_respond.
Qed.

Lemma ok_mac_bytes p : macptr_ok p -> ok (mac_bytes p) mac_ok.
Proof.
  destruct p as [| | |off|m]; cbn; intros Hp.
  - apply ok_undefined.
  - apply ok_gets. by intros s [].
  - apply ok_ret. split; [done|]. repeat constructor; unfold is_byte; lia.
  - intros s Hs. unfold mbind, st_bind, get_. destruct (fetch (n_rxbuf s) off 6) as [b|f] eqn:E.
    + cbn. split; [done|]. destruct Hs. destruct inv_rx0 as [Hlen Hb].
      pose proof E as E1. unfold fetch in E1. case_match; [|done]. injection E1 as <-. zbool.
      split; [|by apply bytes_take, bytes_drop]. rewrite length_take, length_drop. lia.
    + cbn. by apply fetch_np in E.
  - by apply ok_ret.
Qed.

(** Reading an object. *)
Lemma ok_nrd {T} `{NObj T} p (P : T -> Prop) :
  (forall s o, inv raw x s -> nstore s !! p = Some o -> P o) -> ok (nrd p) P.
Proof.
  intros HP s Hs. unfold nrd, mbind, st_bind, get_, deref.
  destruct (nstore s !! p) as [o|] eqn:E; cbn; [by eauto|done].
Qed.

Lemma ok_rd_frag p : ok (nrd (T := fragmented) p) entry_ok.
Proof. apply ok_nrd. intros s o [] E. by eapply inv_frags0. Qed.
Lemma ok_rd_udp p : ok (nrd (T := udp_conn) p) udp_ok.
Proof. apply ok_nrd. intros s o [] E. by eapply inv_udp0. Qed.
Lemma ok_rd_tcp p : ok (nrd (T := tcp_conn) p) tcp_ok.
Proof. apply ok_nrd. intros s o [] E. by eapply inv_tcp0. Qed.
Lemma ok_rd_handle p : ok (nrd (T := handle) p) handle_ok.
Proof. apply ok_nrd. intros s o [] E. by eapply inv_handles0. Qed.
Lemma ok_rd_sq p : ok (nrd (T := strqueue) p) sq_ok.
Proof. apply ok_nrd. intros s o [] E. by eapply inv_sq0. Qed.

(** Writing an object. *)
Lemma ok_nwr {T} `{NObj T} p (f : T -> T) :
  (forall s o, inv raw x s -> nstore s !! p = Some o -> inv raw x (nset (<[p := f o]>) s)) ->
  ok (nwr p f) (fun _ => True).
Proof.
  intros HP s Hs. unfold nwr, mbind, st_bind, get_, deref.
  destruct (nstore s !! p) as [o|] eqn:E; cbn; [by eauto|done].
Qed.

Lemma ok_wr_frag p f : (forall o, entry_ok o -> entry_ok (f o)) ->
  ok (nwr (T := fragmented) p f) (fun _ => True).
Proof.
  intros Hf. apply ok_nwr. intros s o [] E. constructor; try done. cbn.
  apply map_Forall_insert_2; [|done]. by eapply Hf, inv_frags0.
Qed.

Lemma ok_wr_udp p f : (forall o, udp_ok o -> udp_ok (f o)) ->
  ok (nwr (T := udp_conn) p f) (fun _ => True).
Proof.
  intros Hf. apply ok_nwr. intros s o [] E. constructor; try done. cbn.
  apply map_Forall_insert_2; [|done]. by eapply Hf, inv_udp0.
Qed.

Lemma ok_wr_sq p f : (forall o, sq_ok o -> sq_ok (f o)) ->
  ok (nwr (T := strqueue) p f) (fun _ => True).
Proof.
  intros Hf. apply ok_nwr. intros s o [] E. constructor; try done. cbn.
  apply map_Forall_insert_2; [|done]. by eapply Hf, inv_sq0.
Qed.

(** A change of a TCP connection that leaves its user alone. *)
Lemma ok_wr_tcp p f :
  (forall o, tcp_ok o -> tcp_ok (f o) /\ t_carg (f o) = t_carg o /\ t_uclosed (f o) = t_uclosed o) ->
  ok (nwr (T := tcp_conn) p f) (fun _ => True).
Proof.
  intros Hf. apply ok_nwr. intros s o [] E. destruct (Hf o) as (Ho&Hc&Hu); [by eapply inv_tcp0|].
  constructor; try done; cbn in *.
  - by apply map_Forall_insert_2.
  - intros h hd c conn Hh Hhc. destruct (decide (c = p)) as [->|].
    + rewrite lookup_insert_eq. intros [= <-]. rewrite Hc. by eapply inv_link0.
    + rewrite lookup_insert_ne by done. by eapply inv_link0.
  - intros c conn. destruct (decide (c = p)) as [->|].
    + rewrite lookup_insert_eq. intros [= <-]. rewrite Hc, Hu. by eapply inv_closed0.
    + rewrite lookup_insert_ne by done. by eapply inv_closed0.
  - intros c conn. destruct (decide (c = p)) as [->|].
    + intros _. by eapply inv_fresh_t0.
    + rewrite lookup_insert_ne by done. by eapply inv_fresh_t0.
Qed.

(** A change of a handle that keeps its TCP connection. *)
Lemma ok_wr_handle p f :
  (forall o, handle_ok o -> handle_ok (f o) /\ h_tcp_c (f o) = h_tcp_c o) ->
  ok (nwr (T := handle) p f) (fun _ => True).
Proof.
  intros Hf'. apply ok_nwr. intros s o [] E.
  destruct (Hf' o) as [Ho Hf]; [by eapply inv_handles0|].
  constructor; try done; cbn in *.
  - by apply map_Forall_insert_2.
  - intros h hd c conn. destruct (decide (h = p)) as [->|].
    + rewrite lookup_insert_eq. intros [= <-]. rewrite Hf. by eapply inv_link0.
    + rewrite lookup_insert_ne by done. by eapply inv_link0.
  - intros c conn Hc Hu. destruct (inv_closed0 c conn Hc Hu) as [[Hn Hlt]|]; [left; split; [|done]|by right].
    destruct (decide (t_carg conn = p)) as [Ep|]; [|by rewrite lookup_insert_ne].
    change (n_handles s !! p = Some o) in E. rewrite Ep in Hn. congruence.
  - intros h hd. destruct (decide (h = p)) as [->|].
    + rewrite lookup_insert_eq. intros [= <-]. rewrite Hf. by eapply inv_fresh_h0.
    + rewrite lookup_insert_ne by done. by eapply inv_fresh_h0.
Qed.

(** Allocation and release. *)
Lemma ok_nnew {T} `{NObj T} (o : T) :
  (forall s, inv raw x s ->
     inv raw x (nset (<[n_next s := o]>) s <| n_next := Pos.succ (n_next s) |>)) ->
  ok (nnew o) (fun _ => True).
Proof. intros HP s Hs. unfold nnew, mbind, st_bind, get_, put_. cbn. split; [by apply HP|done]. Qed.

(** Nothing but freshness is at stake when the object is not a handle. *)
Ltac new_object :=
  let c := fresh "c" in let conn := fresh "conn" in let Hs := fresh "Hs" in
  let Hcl := fresh "Hcl" in let Hft := fresh "Hft" in let Hfh := fresh "Hfh" in
  intros; apply ok_nnew; intros ? Hs;
  pose proof (inv_closed _ _ _ Hs) as Hcl; pose proof (inv_fresh_t _ _ _ Hs) as Hft;
  pose proof (inv_fresh_h _ _ _ Hs) as Hfh; destruct Hs; constructor; try done; cbn;
  [ by apply map_Forall_insert_2
  | intros c conn ? ?; destruct (Hcl c conn) as [[? ?]|?]; [done|done|left; split; [done|lia]|by right]
  | intros c conn ?%Hft; lia
  | intros ? ? [? Hc]%Hfh; split; [lia|]; intros c E; specialize (Hc c E); lia ].

Lemma ok_new_frag o : entry_ok o -> ok (nnew (T := fragmented) o) (fun _ => True).
Proof. new_object. Qed.
Lemma ok_new_udp o : udp_ok o -> ok (nnew (T := udp_conn) o) (fun _ => True).
Proof. new_object. Qed.
Lemma ok_new_sq o : sq_ok o -> ok (nnew (T := strqueue) o) (fun _ => True).
Proof. new_object. Qed.

Lemma ok_new_handle o :
  handle_ok o -> h_tcp_c o = None -> ok (nnew (T := handle) o) (fun _ => True).
Proof.
  intros Hok Ho. apply ok_nnew. intros s []. constructor; try done; cbn.
  - by apply map_Forall_insert_2.
  - intros h hd c conn. destruct (decide (h = n_next s)) as [->|].
    + rewrite lookup_insert_eq. intros [= <-]. congruence.
    + rewrite lookup_insert_ne by done. by eapply inv_link0.
  - intros c conn Hc Hu. destruct (inv_closed0 c conn Hc Hu) as [[? ?]|?]; [left|by right].
    split; [|lia]. rewrite lookup_insert_ne by lia. done.
  - intros c conn Hc. apply inv_fresh_t0 in Hc. lia.
  - intros h hd. destruct (decide (h = n_next s)) as [->|].
    + rewrite lookup_insert_eq. intros [= <-]. split; [lia|congruence].
    + rewrite lookup_insert_ne by done. intros Hh. apply inv_fresh_h0 in Hh as [? Hc].
      split; [lia|]. intros c E. specialize (Hc c E). lia.
Qed.

Lemma ok_new_tcp o : tcp_ok o -> t_uclosed o = false -> ok (nnew (T := tcp_conn) o) (fun _ => True).
Proof.
  intros Ho Hu. apply ok_nnew. intros s []. constructor; try done; cbn.
  - by apply map_Forall_insert_2.
  - intros h hd c conn Hh Hhc. apply inv_fresh_h0 in Hh as Hf. destruct Hf as [_ Hf].
    specialize (Hf c Hhc). rewrite lookup_insert_ne by lia. by eapply inv_link0.
  - intros c conn. destruct (decide (c = n_next s)) as [->|].
    + rewrite lookup_insert_eq. intros [= <-]. congruence.
    + rewrite lookup_insert_ne by done. intros Hc Hcu.
      destruct (inv_closed0 c conn Hc Hcu) as [[? ?]|?]; [left; split; [done|lia]|by right].
  - intros c conn. destruct (decide (c = n_next s)) as [->|]; [lia|].
    rewrite lookup_insert_ne by done. intros Hc. apply inv_fresh_t0 in Hc. lia.
  - intros h hd Hh. apply inv_fresh_h0 in Hh as [? Hc]. split; [lia|]. intros c E. specialize (Hc c E). lia.
Qed.

Lemma ok_nfree {T} `{NObj T} p :
  (forall s, inv raw x s -> inv raw x (nset (delete p) s)) -> ok (nfree (T := T) p) (fun _ => True).
Proof.
  intros HP s Hs. unfold nfree, mbind, st_bind, get_, deref.
  destruct (nstore s !! p); cbn; [|done]. split; [by apply HP|done].
Qed.

Lemma ok_free_frag p : ok (nfree (T := fragmented) p) (fun _ => True).
Proof. apply ok_nfree. intros s []. constructor; try done. cbn. by apply map_Forall_delete. Qed.
Lemma ok_free_udp p : ok (nfree (T := udp_conn) p) (fun _ => True).
Proof. apply ok_nfree. intros s []. constructor; try done. cbn. by apply map_Forall_delete. Qed.
Lemma ok_free_sq p : ok (nfree (T := strqueue) p) (fun _ => True).
Proof. apply ok_nfree. intros s []. constructor; try done. cbn. by apply map_Forall_delete. Qed.

Lemma ok_free_tcp p : ok (nfree (T := tcp_conn) p) (fun _ => True).
Proof.
  apply ok_nfree. intros s []. constructor; try done; cbn.
  - by apply map_Forall_delete.
  - intros h hd c conn Hh Hc [? Hl]%lookup_delete_Some. by eapply inv_link0.
  - intros c conn [? Hl]%lookup_delete_Some. by eapply inv_closed0.
  - intros c conn [? Hl]%lookup_delete_Some. by eapply inv_fresh_t0.
Qed.

Lemma ok_free_handle p : ok (nfree (T := handle) p) (fun _ => True).
Proof.
  apply ok_nfree. intros s []. constructor; try done; cbn.
  - by apply map_Forall_delete.
  - intros h hd c conn [? Hl]%lookup_delete_Some. by eapply inv_link0.
  - intros c conn Hc Hu. destruct (inv_closed0 c conn Hc Hu) as [[? ?]|?]; [left|by right].
    split; [|done]. apply lookup_delete_None. by right.
  - intros h hd [? Hl]%lookup_delete_Some. by eapply inv_fresh_h0.
Qed.
End prim.

(** ** Sending *)

(** A packet under construction with [n] bytes behind the Ethernet header. *)
Definition pkt_ok (n : Z) (pkt : list Z) : Prop :=
  Z.of_nat (length pkt) = PKT + n /\ bytes_ok pkt /\ take 8 pkt = size_bytes (EPayload + n).

Lemma store_pkt n pkt off bs pkt' :
  store pkt off bs = Ok pkt' -> 8 <= off -> bytes_ok bs -> pkt_ok n pkt -> pkt_ok n pkt'.
Proof.
  intros E Hoff Hbs (Hl&Hb&Ht). split_and!.
  - rewrite <- Hl. f_equal. by apply length_store in E; [|lia].
  - by eapply bytes_store.
  - rewrite <- Ht. unfold store in E. case_match; [|done]. injection E as <-.
    unfold splice. rewrite take_app_le; [|rewrite length_take; zbool; lia].
    rewrite take_take. f_equal. lia.
Qed.

Lemma lor_byte a b : is_byte a -> is_byte b -> is_byte (Z.lor a b).
Proof.
  intros Ha Hb. unfold is_byte in *. split; [by apply Z.lor_nonneg; lia|].
  destruct (decide (Z.lor a b = 0)) as [->|]; [lia|].
  assert (0 <= Z.lor a b) by (apply Z.lor_nonneg; lia).
  change 256 with (2 ^ 8). apply Z.log2_lt_pow2; [lia|]. rewrite Z.log2_lor by lia.
  assert (forall y, 0 <= y < 256 -> Z.log2 y < 8) as Hlog.
  { intros y Hy. destruct (decide (y = 0)) as [->|]; [done|]. apply Z.log2_lt_pow2; lia. }
  pose proof (Hlog a Ha). pose proof (Hlog b Hb). lia.
Qed.

Lemma bytes_peek l i b : peek l i = Ok b -> bytes_ok l -> is_byte b.
Proof.
  unfold peek. case_match eqn:E; [|done]. intros [= <-] Hl. by eapply Forall_lookup_1.
Qed.

Ltac fill_step E n :=
  let k := fresh "k" in let Ek := fresh "Ek" in
  apply bind_ok in E as (k&Ek&E);
  assert (pkt_ok n k) by (eapply store_pkt; [exact Ek|done| |eassumption];
    first [apply be16_bytes|apply be32_bytes
          |constructor; [first [assumption|decide_now]|constructor]]);
  clear Ek.

Lemma ipv4_fill_ok n pkt pl ip id off len last pkt' :
  ipv4_fill pkt pl ip id off len last = Ok pkt' -> is_byte (ip_proto ip) -> bytes_ok pl ->
  pkt_ok n pkt -> pkt_ok n pkt'.
Proof.
  intros E Hp Hpl Hk. unfold ipv4_fill, nput16, nput32 in E.
  apply bind_ok in E as (k1&E1&E). assert (pkt_ok n k1).
  { eapply store_pkt; [exact E1|done| |done]. repeat constructor; unfold is_byte; lia. }
  apply bind_ok in E as (b&Eb&E). assert (is_byte b) by (eapply bytes_peek; [exact Eb|apply H]).
  apply bind_ok in E as (k2&E2&E). assert (pkt_ok n k2).
  { eapply store_pkt; [exact E2|done| |done]. constructor; [|constructor]. apply lor_byte; [done|].
    decide_now. }
  do 7 fill_step E n.
  apply bind_ok in E as (c&Ec&E). fill_step E n.
  apply bind_ok in E as (chunk&Ech&E). apply bytes_fetch in Ech as [Hch _]; [|done].
  by eapply store_pkt.
Qed.

Section send.
Context {raw : list Z -> Prop} {x : option ptr}.
Local Abbreviation ok := (ok raw x).

(** One step of a computation: its result and what is known about it. *)
Tactic Notation "obind" uconstr(l) "as" simple_intropattern(a) simple_intropattern(H) :=
  eapply ok_bind; [apply l|intros a H].
Ltac olift a H := eapply ok_bind; [apply ok_lift; auto with np|intros a H; cbn beta in H].

Lemma ok_ether_start len e :
  0 <= len <= 1500 -> macptr_ok (e_dst e) -> macptr_ok (e_src e) ->
  ok (ether_start len e) (pkt_ok (Z.max 46 len)).
Proof.
  intros Hlen Hd Hs. unfold ether_start. set (L := if len <? _ then _ else len).
  assert (HL : L = Z.max 46 len)
    by (unfold L; change (60 - EPayload) with 46; case_match; zbool; lia).
  clearbody L. subst L. set (L := Z.max 46 len).
  eapply ok_bind; [apply ok_when; intros; apply ok_warnx|intros _ _].
  olift b Hb. assert (pkt_ok L b).
  { pose proof Hb as Hb'. apply length_store in Hb' as Hl; [|done].
    unfold store in Hb'. case_match; [|done]. injection Hb' as <-. split_and!.
    - rewrite Hl, length_replicate. unfold PKT, fhoff, EPayload. lia.
    - apply bytes_splice; [|apply bytes_zero]. unfold size_bytes, le_bytes.
      apply Forall_fmap, Forall_true. intros i. cbn. change 255 with (Z.ones 8).
      rewrite Z.land_ones by lia. unfold is_byte. apply Z.mod_pos_bound. lia.
    - unfold splice. rewrite take_0. cbn [app]. rewrite take_app_length' by done.
      by rewrite Z.add_comm. }
  obind ok_mac_bytes as dst Hdst; [done|]. olift b1 Hb1.
  assert (pkt_ok L b1) by (eapply store_pkt; [exact Hb1|done|apply Hdst|done]).
  obind ok_mac_bytes as src Hsrc; [by destruct (e_src e)|]. olift b2 Hb2.
  assert (pkt_ok L b2) by (eapply store_pkt; [exact Hb2|done|apply Hsrc|done]).
  eapply ok_mono; [apply ok_lift, nput16_np|]. cbn. intros b3 Hb3.
  eapply store_pkt; [exact Hb3|done|apply be16_bytes|done].
Qed.

Lemma ok_ether_finish n pkt :
  46 <= n <= 1500 -> pkt_ok n pkt -> ok (ether_finish pkt) (fun _ => True).
Proof.
  intros Hn (Hl&Hb&Ht). unfold ether_finish. olift szb Hsz.
  assert (szb = take 8 pkt) as ->.
  { unfold fetch in Hsz. case_match; [|done]. by injection Hsz as <-. }
  rewrite Ht, size_bytes_round by (unfold is_size, EPayload; lia).
  olift frame Hf. apply ok_emit. left. apply bytes_fetch in Hf as [Hfb Hfl]; [|done].
  unfold EPayload, fhoff in *. split; [lia|done].
Qed.

Lemma ok_lift_store n pkt off bs :
  8 <= off -> bytes_ok bs -> pkt_ok n pkt -> ok (lift (store pkt off bs)) (pkt_ok n).
Proof.
  intros. eapply ok_mono; [apply ok_lift, store_np|]. cbn. intros. by eapply store_pkt.
Qed.

Lemma ok_arp_header n pkt op : pkt_ok n pkt -> ok (arp_header pkt op) (pkt_ok n).
Proof.
  intros Hk. unfold arp_header, nput16, nput32.
  do 2 (obind ok_lift_store as ? ?; [done|apply be16_bytes|eassumption|]).
  do 2 (obind ok_lift_store as ? ?; [done|by repeat constructor|eassumption|]).
  obind ok_lift_store as ? ?; [done|apply be16_bytes|eassumption|].
  eapply ok_bind; [apply (ok_gets raw n_mac mac_ok); by intros s []|intros mac Hm].
  obind ok_lift_store as ? ?; [done|apply Hm|eassumption|].
  eapply ok_bind; [by apply (ok_gets raw n_ip (fun _ => True))|intros ip _].
  apply ok_lift_store; [done|apply be32_bytes|done].
Qed.

Lemma ok_arp_request ip : ok (arp_request ip) (fun _ => True).
Proof.
  unfold arp_request. obind ok_ether_start as pkt Hk; [lia|done..|].
  obind ok_arp_header as pkt1 Hk1; [done|].
  obind ok_lift_store as pkt2 Hk2; [done|decide_now|eassumption|].
  obind ok_lift_store as pkt3 Hk3; [done|apply be32_bytes|eassumption|].
  by eapply ok_ether_finish; [|exact Hk3].
Qed.

Lemma ok_arp_reply buf : bytes_ok buf -> ok (arp_reply buf) (fun _ => True).
Proof.
  intros Hb. unfold arp_reply. olift mac Hm. apply bytes_fetch in Hm as [Hm1 Hm2]; [|done].
  obind ok_ether_start as pkt Hk; [lia| |done|].
  { split; [|done]. specialize (Hm2 ltac:(done) ltac:(done)). lia. }
  obind ok_arp_header as pkt1 Hk1; [done|]. olift sender Hs.
  apply bytes_fetch in Hs as [Hs1 _]; [|done].
  obind ok_lift_store as pkt2 Hk2; [done|done|eassumption|].
  by eapply ok_ether_finish; [|exact Hk2].
Qed.

Lemma ok_arpcache_put ip mac : mac_ok mac -> ok (arpcache_put ip mac) (fun _ => True).
Proof.
  intros Hm. unfold arpcache_put. eapply ok_bind; [by apply (ok_gets raw arpcache (fun _ => True))|].
  intros c _. case_match; [by apply ok_ret|]. apply ok_modify. intros. by apply inv_arp_cons.
Qed.

Lemma arp_lookup_ok cache ip m :
  Forall (fun e => mac_ok e.2) cache -> arp_lookup cache ip = Some m -> mac_ok m.
Proof.
  intros Hc. induction Hc as [|[ip' m'] c Hm _ IH]; cbn; [done|]. case_match; [|done].
  by intros [= <-].
Qed.

Lemma ok_arpcache_get ip :
  ok (arpcache_get ip) (fun o => forall m, o = Some m -> mac_ok m).
Proof. apply ok_gets. intros s [] m Hm. by eapply arp_lookup_ok. Qed.

Lemma ok_arp_parse buf len : bytes_ok buf -> ok (arp_parse buf len) (fun _ => True).
Proof.
  intros Hb. unfold arp_parse. case_match; [by apply ok_ret|].
  olift ht Hht. olift pt Hpt. olift op Hop. case_match; [by apply ok_ret|].
  case_match; [by apply ok_ret|]. olift ip Hip. olift mac Hm.
  apply bytes_fetch in Hm as [Hm1 Hm2]; [|done].
  obind ok_arpcache_put as ? _.
  { split; [|done]. specialize (Hm2 ltac:(done) ltac:(done)). lia. }
  case_match; [|by apply ok_ret]. olift d Hd.
  eapply ok_bind; [by apply (ok_gets raw n_ip (fun _ => True))|intros own _].
  case_match; [by apply ok_arp_reply|by apply ok_ret].
Qed.

Lemma ok_ipv4_packet payload ip id off fraglen last :
  0 <= fraglen <= 1480 -> macptr_ok (e_dst (ip_e ip)) -> macptr_ok (e_src (ip_e ip)) ->
  is_byte (ip_proto ip) -> bytes_ok payload ->
  ok (ipv4_packet payload ip id off fraglen last) (fun _ => True).
Proof.
  intros Hf Hd Hs Hp Hpl. unfold ipv4_packet.
  obind ok_ether_start as pkt Hk; [unfold hdrlen; lia|done..|].
  olift pkt1 Hp1. eapply ok_ether_finish; [|by eapply ipv4_fill_ok].
  unfold hdrlen. lia.
Qed.

Lemma ok_ipv4_send payload len ip :
  macptr_ok (e_dst (ip_e ip)) -> macptr_ok (e_src (ip_e ip)) -> is_byte (ip_proto ip) ->
  bytes_ok payload -> ok (ipv4_send payload len ip) (fun _ => True).
Proof.
  intros Hd Hs Hp Hpl. unfold ipv4_send.
  eapply ok_bind; [by apply (ok_gets raw n_ip (fun _ => True))|intros own _].
  eapply ok_bind; [by apply (ok_gets raw next_id (fun _ => True))|intros id _].
  eapply ok_bind; [apply ok_modify; intros; by apply inv_next_id|intros _ _].
  match goal with |- context [ipv4_send_turn _ _ ?i _] => set (ip' := i) end.
  assert (Hd' : macptr_ok (e_dst (ip_e ip'))).
  { unfold ip', set; cbn. by destruct (is_null (e_dst (ip_e ip)) && (ip_dst ip =? 4294967295)). }
  assert (Hs' : macptr_ok (e_src (ip_e ip'))) by done.
  assert (Hp' : is_byte (ip_proto ip')) by done. clearbody ip'.
  change (mtu - hdrlen) with 1480.
  apply (ok_iter _ _ _ _ (fun k y => 0 <= y.2 <= 1480 /\ (1 <= k)%nat /\
    (len <= y.1 \/ y.2 = 1480 /\ len - y.1 <= 1480 * (Z.of_nat k - 1)))).
  - cbn. split_and!; [lia..|]. destruct (decide (len <= 0)); [by left|right]. split; [done|].
    pose proof (Z.mod_pos_bound len 1480 ltac:(lia)). pose proof (Z.div_mod len 1480 ltac:(lia)).
    rewrite !Nat2Z.inj_succ, Z2Nat.id by (apply Z.div_pos; lia). lia.
  - intros y (_&?&_). lia.
  - intros k [off fl] (Hfl&_&Hk). cbn in Hfl, Hk. unfold ipv4_send_turn.
    destruct (off <? len) eqn:E; zbool; [|by apply ok_ret].
    eapply ok_bind; [apply ok_ipv4_packet; [|done..]|intros _ _; apply ok_ret; cbn].
    all: case_match; zbool; lia.
Qed.

Lemma ok_icmp_send payload len i :
  macptr_ok (e_dst (ip_e (ic_ip i))) -> macptr_ok (e_src (ip_e (ic_ip i))) ->
  is_byte (ic_type i) -> is_byte (ic_code i) -> bytes_ok payload ->
  ok (icmp_send payload len i) (fun _ => True).
Proof.
  intros Hd Hs Ht Hc Hb. unfold icmp_send. olift pl Hpl. apply bytes_fetch in Hpl as [Hpl _]; [|done].
  olift c Hck. olift pkt Hpkt. apply ok_ipv4_send; [done|done| |].
  - cbn. unfold is_byte. lia.
  - eapply bytes_store; [exact Hpkt| |apply be16_bytes].
    repeat apply bytes_app; [|apply be16_bytes|done]. apply bytes_cons; [done|]. apply bytes_cons; [done|apply bytes_nil].
Qed.

Lemma ok_icmp_parse buf len ip :
  macptr_ok (e_src (ip_e ip)) -> bytes_ok buf -> ok (icmp_parse buf len ip) (fun _ => True).
Proof.
  intros Hm Hb. unfold icmp_parse. case_match; [by apply ok_ret|]. olift ty Hty.
  eapply ok_bind; [by apply (ok_gets raw n_ip (fun _ => True))|intros own _].
  case_match; [|by apply ok_ret].
  apply ok_icmp_send; try done; try (cbn; unfold is_byte; lia). by apply bytes_advance.
Qed.
End send.

(** ** Connections and their users *)

Tactic Notation "obind" uconstr(l) "as" simple_intropattern(a) simple_intropattern(H) :=
  eapply ok_bind; [apply l|intros a H].
Ltac olift a H := eapply ok_bind; [apply ok_lift; auto with np|intros a H; cbn beta in H].
(** Reading a part of the state about which nothing is asked. *)
Ltac oget := eapply ok_bind; [by apply (ok_gets _ _ (fun _ => True))|intros ? _].
(** Writing an object in a way that keeps it well formed. *)
Ltac owr l := eapply ok_bind; [apply l; by try (intros ? []; split_and!)|intros _ _].

Section conn.
Context {raw : list Z -> Prop} {x : option ptr}.
Local Abbreviation ok := (ok raw x).

Lemma ok_answer_open h : ok (answer_open h) (fun _ => True).
Proof.
  unfold answer_open. obind ok_rd_handle as hd ?. obind ok_respond as _ _.
  by apply ok_wr_handle.
Qed.

Lemma ok_tryread p n : 0 <= n -> ok (tcpc_tryread p n) (fun _ => True).
Proof.
  intros Hn. unfold tcpc_tryread. obind ok_rd_tcp as c [Hc1 Hc2].
  pose proof (ring_get_spec (t_rx c) n Hc2 Hn) as Hr.
  destruct (ring_get (t_rx c) n) as [rx out]. destruct Hr as [Hr _].
  eapply ok_bind; [apply ok_wr_tcp|intros; by apply ok_ret].
  intros o [? ?]. by split_and!.
Qed.

Lemma ok_recv_callback h : ok (tcp_recv_callback h) (fun _ => True).
Proof.
  unfold tcp_recv_callback. obind ok_rd_handle as hd Hhd. case_match; [|by apply ok_skip].
  set (n := if _ <? _ then _ else _).
  assert (0 <= n) by (unfold n, handle_ok in *; case_match; lia).
  eapply ok_bind; [by apply ok_wr_handle|intros _ _].
  obind ok_deref as c _. obind ok_tryread as out _; [done|].
  case_match; [|by apply ok_skip]. obind ok_respond_bytes as _ _. by apply ok_wr_handle.
Qed.

Lemma ok_close_callback h : ok (tcp_close_callback h) (fun _ => True).
Proof.
  unfold tcp_close_callback. eapply ok_bind; [by apply ok_wr_handle|intros _ _].
  obind ok_rd_handle as hd ?. case_match; [|by apply ok_skip].
  obind ok_respond as _ _. by apply ok_wr_handle.
Qed.

Lemma ok_udp_listen_callback c h : ok (udp_listen_callback c h) (fun _ => True).
Proof.
  unfold udp_listen_callback. eapply ok_bind; [by apply ok_wr_handle|intros _ _].
  apply ok_answer_open.
Qed.

Lemma ok_udp_recv_callback buf len h :
  bytes_ok buf -> ok (udp_recv_callback buf len h) (fun _ => True).
Proof.
  intros Hb. unfold udp_recv_callback. obind ok_rd_handle as hd ?. case_match.
  - obind ok_respond_bytes as _ _. by apply ok_wr_handle.
  - olift data Hd. apply bytes_fetch in Hd as [Hd _]; [|done].
    obind ok_new_sq as sq _; [done|]. case_match.
    + obind ok_deref as last _. eapply ok_bind; [by apply ok_wr_sq|intros _ _].
      by apply ok_wr_handle.
    + by apply ok_wr_handle.
Qed.

(** The connection that is announced to its user is the user's. *)
Lemma ok_notify p :
  ok (c ← nrd (T := tcp_conn) p; when (t_on_conn c) (tcp_on_conn p (t_carg c))) (fun _ => True).
Proof.
  intros s Hs. unfold mbind at 1, st_bind at 1, nrd at 1.
  unfold mbind at 1, st_bind at 1, get_ at 1, deref.
  destruct (nstore s !! p) as [c|] eqn:Ec; cbn [mret st_ret]; [|done].
  destruct (t_on_conn c); cbn [when]; [|done].
  change (n_tcp s !! p = Some c) in Ec.
  cbn [tcp_on_conn fs_user]. unfold tcp_conn_callback, mbind at 1, st_bind at 1, nwr at 1.
  unfold mbind at 1, st_bind at 1, get_ at 1, deref.
  destruct (nstore s !! t_carg c) as [hd|] eqn:Eh; [|done].
  change (n_handles s !! t_carg c = Some hd) in Eh. unfold mbind at 1, st_bind at 1. cbn [mret st_ret put_].
  refine (ok_answer_open (t_carg c) _ _). destruct Hs. constructor; try done; cbn in *.
  - apply map_Forall_insert_2; [|done]. exact (inv_handles0 _ _ Eh).
  - intros h hd' q conn. destruct (decide (h = t_carg c)) as [->|].
    + rewrite lookup_insert_eq. intros [= <-] [= <-]. congruence.
    + rewrite lookup_insert_ne by done. by eapply inv_link0.
  - intros q conn Hq Hu. destruct (inv_closed0 q conn Hq Hu) as [[Hn Hlt]|]; [left|by right].
    split; [|done]. rewrite lookup_insert_ne; [done|congruence].
  - intros h hd'. destruct (decide (h = t_carg c)) as [->|].
    + rewrite lookup_insert_eq. intros [= <-]. split; [exact (proj1 (inv_fresh_h0 _ _ Eh))|].
      intros q [= <-]. by eapply inv_fresh_t0.
    + rewrite lookup_insert_ne by done. by eapply inv_fresh_h0.
Qed.

(** *** UDP *)

Lemma ok_udp_listen `{Env} port a b h : ok (udp_listen port a b h) (fun _ => True).
Proof.
  unfold udp_listen. case_match; [by apply ok_skip|]. oget. obind ok_new_udp as c _.
  { split; cbn; [done|]. repeat (apply bytes_cons; [apply is_byte_u8|]). apply bytes_nil. }
  apply ok_modify. intros. by apply inv_udp_conns.
Qed.

Lemma ok_udpc_new a b c d r h : ok (udpc_new a b c d r h) (fun _ => True).
Proof.
  unfold udpc_new. obind ok_arpcache_get as m Hm. destruct m as [m|].
  - obind ok_new_udp as p _; [by apply Hm|].
    eapply ok_bind; [apply ok_modify; intros; by apply inv_udp_conns|intros _ _]. by apply ok_ret.
  - obind ok_warnx as _ _. by apply ok_ret.
Qed.

Lemma ok_udpc_send p buf len : bytes_ok buf -> ok (udpc_send p buf len) (fun _ => True).
Proof.
  intros Hb. unfold udpc_send. obind ok_rd_udp as c Hc. olift pl Hpl.
  apply bytes_fetch in Hpl as [Hpl _]; [|done].
  apply ok_ipv4_send; [assumption|exact I|decide_now|].
  repeat (apply bytes_app; [apply be16_bytes|]). done.
Qed.

Lemma ok_udpc_close p : ok (udpc_close p) (fun _ => True).
Proof.
  unfold udpc_close. obind ok_free_udp as _ _. apply ok_modify. intros. by apply inv_udp_conns.
Qed.

Lemma ok_udp_deliver buf len sp dp ip p :
  bytes_ok buf -> macptr_ok (e_src (ip_e ip)) -> ok (udp_deliver buf len sp dp ip p) (fun _ => True).
Proof.
  intros Hb Hm. unfold udp_deliver. obind ok_rd_udp as c Hc.
  eapply (ok_bind _ _ _ (fun _ => True)); [|intros _ _].
  - case_match; [|by apply ok_skip]. obind ok_udp_listen_callback as _ _.
    obind ok_mac_bytes as m Hmac; [done|]. by apply ok_wr_udp.
  - obind ok_rd_udp as c' Hc'. case_match; [|by apply ok_ret].
    obind ok_udp_recv_callback as _ _; [by apply bytes_advance|]. by apply ok_ret.
Qed.

Lemma ok_udp_conns_loop buf len sp dp ip l a :
  bytes_ok buf -> macptr_ok (e_src (ip_e ip)) ->
  ok (udp_conns_loop buf len sp dp ip l a) (fun _ => True).
Proof.
  intros Hb Hm. revert a. induction l as [|p l IH]; intros a; cbn [udp_conns_loop]; [by apply ok_ret|].
  obind ok_udp_deliver as b _; [done|done|]. apply IH.
Qed.

(** What is asked of the description of a packet. *)
Definition ip_ok (ip : ipv4) : Prop :=
  macptr_ok (e_src (ip_e ip)) /\ (forall h, ip_header ip = Some h -> bytes_ok h).

Lemma ok_udp_parse buf len ip : bytes_ok buf -> ip_ok ip -> ok (udp_parse buf len ip) (fun _ => True).
Proof.
  intros Hb [Hm Hh]. unfold udp_parse. olift sp Hsp. olift dp Hdp. oget.
  obind ok_udp_conns_loop as active _; [done|done|]. destruct active; [by apply ok_skip|].
  unfold udp_unreachable. obind ok_deref as h Hhd. olift q Hq.
  apply bytes_fetch in Hq as [Hq _]; [|by apply Hh].
  apply ok_icmp_send; try done; try (cbn; unfold is_byte; lia).
  apply bytes_app; [apply be32_bytes|done].
Qed.

(** *** TCP *)

Lemma tcp_segment_bytes a b c d e f pl : bytes_ok pl -> bytes_ok (tcp_segment a b c d e f pl).
Proof.
  intros. unfold tcp_segment. repeat (apply bytes_app; [apply be16_bytes || apply be32_bytes|]). done.
Qed.

Lemma ok_tcpc_sendraw p flags buf len :
  bytes_ok buf -> ok (tcpc_sendraw p flags buf len) (fun _ => True).
Proof.
  intros Hb. unfold tcpc_sendraw. obind ok_rd_tcp as c [Hc _].
  eapply ok_bind; [by apply ok_wr_tcp|intros _ _].
  olift pl Hpl. apply bytes_fetch in Hpl as [Hpl _]; [|done]. olift cks Hsum. olift pkt Hpkt.
  apply ok_ipv4_send; [assumption|exact I|decide_now|].
  eapply bytes_store; [exact Hpkt|by apply tcp_segment_bytes|apply be16_bytes].
Qed.

Lemma mac0_ok : mac_ok [0; 0; 0; 0; 0; 0].
Proof. split; [done|decide_now]. Qed.

Lemma ring_new_ok : ring_wf ring_new.
Proof. apply (bool_decide_unpack _). vm_compute. exact I. Qed.

Lemma ok_tcp_listen port h : ok (tcp_listen port h) (fun _ => True).
Proof.
  unfold tcp_listen. oget. obind ok_new_tcp as c _; [split; [apply mac0_ok|apply ring_new_ok]|done|].
  apply ok_modify. intros. by apply inv_tcp_conns.
Qed.

Lemma ok_tcp_connect a b c d h : ok (tcp_connect a b c d h) (fun _ => True).
Proof.
  unfold tcp_connect. oget.
  eapply (ok_bind _ _ _ (fun o => forall m, o = Some m -> mac_ok m)).
  { unfold tcp_route. obind ok_arpcache_get as m Hm. destruct m as [m|]; [by apply ok_ret|].
    obind ok_arp_request as _ _. oget. apply ok_arpcache_get. }
  intros [m|] Hm.
  - obind ok_new_tcp as p _; [split; [by apply Hm|apply ring_new_ok]|done|].
    eapply ok_bind; [apply ok_modify; intros; by apply inv_tcp_conns|intros _ _].
    obind ok_tcpc_sendraw as _ _; [apply bytes_nil|]. by apply ok_wr_tcp.
  - obind ok_warnx as _ _. apply ok_close_callback.
Qed.

Lemma ok_tcpc_tryfree p : ok (tcpc_tryfree p) (fun _ => True).
Proof.
  unfold tcpc_tryfree. obind ok_rd_tcp as c _. case_match; [|by apply ok_skip].
  eapply ok_bind; [apply ok_modify; intros; by apply inv_tcp_conns|intros _ _]. apply ok_free_tcp.
Qed.

Lemma ok_tcp_accept p g ip : macptr_ok (e_src (ip_e ip)) -> ok (tcp_accept p g ip) (fun _ => True).
Proof.
  intros Hm. unfold tcp_accept. obind ok_mac_bytes as mac Hmac; [done|].
  eapply ok_bind; [apply ok_wr_tcp; intros o [? ?]; by split_and!|intros _ _].
  obind ok_tcpc_sendraw as _ _; [apply bytes_nil|].
  eapply ok_bind; [by apply ok_wr_tcp|intros _ _]. apply ok_notify.
Qed.

Lemma ok_tcp_established p g : ok (tcp_established p g) (fun _ => True).
Proof.
  unfold tcp_established. case_match; [|by apply ok_skip].
  eapply ok_bind; [by apply ok_wr_tcp|intros _ _].
  obind ok_tcpc_sendraw as _ _; [apply bytes_nil|]. apply ok_notify.
Qed.

Lemma ok_tcp_data p g : bytes_ok (s_data g) -> ok (tcp_data p g) (fun _ => True).
Proof.
  intros Hb. unfold tcp_data. case_match; [|by apply ok_skip]. olift d Hd.
  eapply ok_bind; [apply ok_wr_tcp; intros o [? ?]; split_and!; try done; split; [done|by apply ring_put_wf]|intros _ _].
  obind ok_rd_tcp as c _. eapply ok_bind; [apply ok_when; intros; apply ok_recv_callback|intros _ _].
  apply ok_tcpc_sendraw, bytes_nil.
Qed.

Lemma ok_tcp_fin p g : ok (tcp_fin p g) (fun _ => True).
Proof.
  unfold tcp_fin. case_match; [|by apply ok_skip].
  obind ok_tcpc_sendraw as _ _; [apply bytes_nil|].
  eapply ok_bind; [by apply ok_wr_tcp|intros _ _]. obind ok_rd_tcp as c _.
  apply ok_when. intros; apply ok_close_callback.
Qed.

Lemma ok_tcp_segment_arrives p g :
  bytes_ok (s_data g) -> ok (tcp_segment_arrives p g) (fun _ => True).
Proof.
  intros Hb. unfold tcp_segment_arrives. obind ok_rd_tcp as c _.
  eapply ok_bind; [apply ok_when; intros; by apply ok_wr_tcp|intros _ _].
  case_match; [|case_match].
  - eapply ok_bind; [by apply ok_wr_tcp|intros _ _]. apply ok_tcpc_tryfree.
  - obind ok_warnx as _ _. apply ok_tcpc_sendraw, bytes_nil.
  - obind ok_tcp_data as _ _; [done|]. apply ok_tcp_fin.
Qed.

Lemma ok_tcp_conns_loop g ip l :
  bytes_ok (s_data g) -> macptr_ok (e_src (ip_e ip)) -> ok (tcp_conns_loop g ip l) (fun _ => True).
Proof.
  intros Hb Hm. induction l as [|p l IH]; cbn [tcp_conns_loop].
  - unfold tcp_reset. case_match; [|by apply ok_skip]. olift cks Hsum. olift pkt Hpkt.
    apply ok_ipv4_send; [assumption|exact I|decide_now|].
    eapply bytes_store; [exact Hpkt|apply tcp_segment_bytes, bytes_nil|apply be16_bytes].
  - obind ok_rd_tcp as c _. repeat case_match; auto using ok_tcp_accept, ok_tcp_established,
      ok_tcp_segment_arrives.
Qed.

Lemma ok_tcp_parse buf len ip : bytes_ok buf -> ip_ok ip -> ok (tcp_parse buf len ip) (fun _ => True).
Proof.
  intros Hb [Hm _]. unfold tcp_parse. case_match; [by apply ok_skip|].
  olift a Ha. olift b Hb'. olift c Hc. olift d Hd. olift e He. case_match; [by apply ok_skip|]. oget.
  apply ok_tcp_conns_loop; [by apply bytes_advance|done].
Qed.
End conn.
