(* ===== verification/NetTcp.v ===== *)
(** * NetTcp

    A TCP connection as its user sees it ([src/src/cmd/netstack/tcp.c] with
    [fs.c]): an abstract machine that holds the bytes received in order and the
    read that waits for them, and the proof that the stack implements it for
    frames and requests in any order. *)

From S2P Require Import Prelude Monad Ring KState UserFs NetUtil NetState NetSend NetFrame.
From S2P Require Import NetConn NetRecv NetReasm NetFs NetSafe.

(** ** What the user sees *)

(** An answer to a file system request. *)
Definition answer : Type := Z * reply * Z.

Definition responses (l : list event) : list answer :=
  omap (fun e => match e with Responded r b v => Some (r, b, v) | _ => None end) l.

Record stream := mkStream {
  nxt : nat;                    (* how many of the peer's segments have been taken *)
  unread : list Z;              (* what they contained and no read has got *)
  pend : option (Z * Z);        (* the read that waits, and how much it takes *)
  answers : list answer;
}.

Section spec.
Context (segs : list (list Z)).

(** The waiting read gets what there is, if there is anything. *)
Definition serve (t : stream) : stream :=
  match pend t with
  | Some (r, cap) =>
      match take (Z.to_nat cap) (unread t) with
      | [] => t
      | out => mkStream (nxt t) (drop (Z.to_nat cap) (unread t)) None
                 (answers t ++ [(r, RBytes out, Z.of_nat (length out))])
      end
  | None => t
  end.

(** The peer's segment [i] arrives; [None] when it does not fit. *)
Definition arrive (i : nat) (t : stream) : option stream :=
  if decide (i = nxt t) then
    let l := unread t ++ default [] (segs !! i) in
    if Z.of_nat (length l) <=? 4095 then
      Some (serve (mkStream (S i) l (pend t) (answers t)))
    else None
  else Some t.

(** One read waits at most; the next one is refused. *)
Definition ask (r cap : Z) (t : stream) : stream :=
  match pend t with
  | Some _ => mkStream (nxt t) (unread t) (pend t) (answers t ++ [(r, RNull, -1)])
  | None => serve (mkStream (nxt t) (unread t) (Some (r, Z.min 1024 cap)) (answers t))
  end.

(** All bytes that were answered, in the order of the answers. *)
Definition answered (l : list answer) : list Z :=
  mjoin ((fun a => match a.1.2 with RBytes b => b | _ => [] end) <$> l).

Lemma serve_keeps t :
  nxt (serve t) = nxt t /\
  answered (answers (serve t)) ++ unread (serve t) = answered (answers t) ++ unread t.
Proof.
  unfold serve. destruct (pend t) as [[r cap]|]; [|done].
  destruct (take (Z.to_nat cap) (unread t)) as [|b out] eqn:E; [done|]. split; [done|].
  unfold answered. cbn [answers unread].
  rewrite fmap_app, join_app. cbn [fmap list_fmap mjoin list_join fst snd].
  rewrite app_nil_r, <- app_assoc. by rewrite <- E, take_drop.
Qed.

(** Nothing is lost, duplicated or reordered; [pre] are the bytes of answers
    from before the connection. *)
Definition in_order (pre : list Z) (t : stream) : Prop :=
  answered (answers t) ++ unread t = pre ++ mjoin (take (nxt t) segs).

Lemma in_order_serve pre t : in_order pre t -> in_order pre (serve t).
Proof. unfold in_order. destruct (serve_keeps t) as [-> ->]. done. Qed.

Lemma in_order_ask pre r cap t : in_order pre t -> in_order pre (ask r cap t).
Proof.
  unfold ask, in_order. destruct (pend t) eqn:E.
  - cbn. unfold answered. rewrite fmap_app, join_app. cbn. by rewrite app_nil_r.
  - intros H. by apply in_order_serve.
Qed.

Lemma in_order_arrive pre i t t' :
  (i < length segs)%nat -> arrive i t = Some t' -> in_order pre t -> in_order pre t'.
Proof.
  unfold arrive. intros Hi Ha H. case_decide as Hd; [|by simplify_eq]. case_match; simplify_eq/=.
  apply in_order_serve. unfold in_order in *. cbn.
  destruct (lookup_lt_is_Some_2 _ _ Hi) as [g Hg]. rewrite Hg.
  rewrite (take_S_r _ _ _ Hg), join_app, (app_assoc pre), <- H. cbn. by rewrite app_nil_r, <- app_assoc.
Qed.
End spec.

(** ** Rules *)

Lemma responses_app l k : responses (l ++ k) = responses l ++ responses k.
Proof. apply omap_app. Qed.

Lemma responses_sent {A} (f : A -> list Z) l : responses (Sent ∘ f <$> l) = [].
Proof. by induction l. Qed.

Section rules.
Context {T : Type} `{NObj T}.

Lemma runs_nrd p (x : T) s (Q : T -> net -> Prop) :
  nstore s !! p = Some x -> Q x s -> runs (nrd p) s Q.
Proof. intros E HQ. unfold runs, nrd, mbind, st_bind, get_, deref. by rewrite E. Qed.

Lemma runs_nwr p (x : T) f s (Q : () -> net -> Prop) :
  nstore s !! p = Some x -> Q () (nset (<[p := f x]>) s) -> runs (nwr p f) s Q.
Proof. intros E HQ. unfold runs, nwr, mbind, st_bind, get_, deref. by rewrite E. Qed.
End rules.

(** ** The connection that implements it *)

Section connection.
Context {ENV : Env}.
Context (p h : ptr) (rip lip rport lport base : Z) (segs : list (list Z)).

(** Where segment [i] starts in the peer's stream. *)
Definition offset (i : nat) : Z := Z.of_nat (length (mjoin (take i segs))).

Definition total : Z := Z.of_nat (length (mjoin segs)).

Context (Hrip : 0 <= rip < 2 ^ 32) (Hlip : 0 <= lip < 2 ^ 32).
Context (Hrport : 0 <= rport < 2 ^ 16) (Hlport : 0 <= lport < 2 ^ 16).
Context (Hbase : 0 <= base < 2 ^ 32) (Htotal : total < 2 ^ 32 - 1).
Context (Hsegs : Forall (fun g => bytes_ok g /\ 2 <= Z.of_nat (length g)) segs).

(** A connection that other packets are for. *)
Definition elsewhere (s : net) (q : ptr) : Prop :=
  match n_tcp s !! q with
  | Some c => t_state c = CLOSED \/ t_lport c <> lport
  | None => False
  end.

Record at_host (s : net) : Prop := {
  ah_conns : exists l1 l2, tcp_conns s = l1 ++ p :: l2 /\ p ∉ l1 /\ Forall (elsewhere s) l1;
  ah_rx : length (n_rxbuf s) = 4096%nat;
  ah_queue : ether_queue s = [];
  ah_mac : length (n_mac s) = 6%nat;
}.

Record conn_at (n : nat) (q : list Z) (c : tcp_conn) : Prop := {
  ca_rip : t_rip c = rip;
  ca_rport : t_rport c = rport;
  ca_lport : t_lport c = lport;
  ca_state : t_state c = SYN_RCVD \/ t_state c = ESTABILISHED;
  ca_lack : t_lack c = u32 (base + offset n);
  ca_on_recv : t_on_recv c = true;
  ca_carg : t_carg c = h;
  ca_ring : ring_wf (t_rx c) /\ rcapacity (t_rx c) = 4096 /\ ring_abs (t_rx c) = q;
  ca_rmac : length (t_rmac c) = 6%nat;
  ca_lip : 0 <= t_lip c < 2 ^ 32;
}.

(** The read that waits, in the handle. *)
Definition waiting (w : option (Z * Z)) (hd : handle) : Prop :=
  match w with
  | Some (r, cap) => h_reqh hd = r /\ 0 < r /\ Z.min 1024 (h_tcp_readcap hd) = cap /\
                     0 <= h_tcp_readcap hd
  | None => h_reqh hd = -1
  end.

Record handle_at (w : option (Z * Z)) (hd : handle) : Prop := {
  ha_type : h_type hd = H_TCP;
  ha_dead : h_dead hd = false;
  ha_conn : h_tcp_c hd = Some p;
  ha_wait : waiting w hd;
}.

Record implements (t : stream) (s : net) : Prop := {
  im_host : at_host s;
  im_conn : exists c, n_tcp s !! p = Some c /\ conn_at (nxt t) (unread t) c;
  im_handle : exists hd, n_handles s !! h = Some hd /\ handle_at (pend t) hd;
  im_out : responses (n_out s) = answers t;
}.

(** *** Operations on its parts *)

Lemma at_host_tcp c s : at_host s -> at_host (s <| n_tcp ::= <[p := c]> |>).
Proof.
  intros [(l1&l2&E&Hn&Hl) ? ? ?]. split; [|done..]. exists l1, l2. split_and!; [done..|].
  apply Forall_forall. intros q Hq. rewrite Forall_forall in Hl. specialize (Hl q Hq).
  unfold elsewhere in *. unfold set; cbn.
  rewrite lookup_insert_ne by (intros ->; done). exact Hl.
Qed.

Lemma at_host_mono s s' :
  tcp_conns s' = tcp_conns s -> n_tcp s' = n_tcp s -> n_rxbuf s' = n_rxbuf s ->
  ether_queue s' = ether_queue s -> n_mac s' = n_mac s -> at_host s -> at_host s'.
Proof.
  intros E1 E2 E3 E4 E5 [Hl ? ? ?]. split; [|congruence..]. rewrite E1.
  destruct Hl as (l1&l2&?&?&Hl). exists l1, l2. split_and!; [done..|].
  unfold elsewhere in *. by rewrite E2.
Qed.

Lemma conn_write f t t' s :
  implements t s -> pend t' = pend t -> answers t' = answers t ->
  (forall c, conn_at (nxt t) (unread t) c -> conn_at (nxt t') (unread t') (f c)) ->
  runs (nwr (T := tcp_conn) p f) s (fun _ => implements t').
Proof.
  intros [Hh (c&Hc&Hca) (hd&Hhd&Hha) Ho] Ep Ea Hf. eapply runs_nwr; [exact Hc|]. split.
  - by apply at_host_tcp.
  - exists (f c). split; [apply lookup_insert_eq|by apply Hf].
  - exists hd. rewrite Ep. done.
  - by rewrite Ea.
Qed.

Lemma handle_write f t w s :
  implements t s -> (forall hd, handle_at (pend t) hd -> handle_at w (f hd)) ->
  runs (nwr (T := handle) h f) s
    (fun _ => implements (mkStream (nxt t) (unread t) w (answers t))).
Proof.
  intros [Hh (c&Hc&Hca) (hd&Hhd&Hha) Ho] Hf. eapply runs_nwr; [exact Hhd|]. split; [|by eauto| |done].
  - by eapply at_host_mono, Hh.
  - exists (f hd). split; [apply lookup_insert_eq|by apply Hf].
Qed.

Lemma emit_runs e t s :
  implements t s ->
  runs (emit e) s (fun _ => implements
    (mkStream (nxt t) (unread t) (pend t) (answers t ++ responses [e]))).
Proof.
  intros [Hh Hc Hhd Ho]. unfold emit. apply runs_modify. split; [|done..|].
  - by eapply at_host_mono, Hh.
  - unfold set; cbn. by rewrite responses_app, Ho.
Qed.

Lemma warnx_runs t s : implements t s -> runs warnx s (fun _ => implements t).
Proof.
  intros Ht. eapply runs_mono; [by apply emit_runs|]. intros [] s'. cbn. rewrite app_nil_r.
  by destruct t.
Qed.

(** Packets go out; the user sees nothing of them. *)
Lemma sendraw_runs flags c s (Q : () -> net -> Prop) :
  n_tcp s !! p = Some c -> length (t_rmac c) = 6%nat -> length (n_mac s) = 6%nat ->
  0 <= t_lip c < 2 ^ 32 -> 0 <= t_rip c < 2 ^ 32 ->
  (forall id sent, responses sent = [] ->
     Q () (s <| n_tcp ::= <[p := c <| t_lseq ::= fun q => u32 (q + 0) |>]> |>
             <| next_id := id |> <| n_out ::= fun o => o ++ sent |>)) ->
  runs (tcpc_sendraw p flags [] 0) s Q.
Proof.
  intros Hc Hm Hmac Hl Hr HQ. unfold tcpc_sendraw.
  apply runs_bind. eapply runs_nrd; [exact Hc|]. apply runs_bind. eapply runs_nwr; [exact Hc|].
  apply runs_bind. eapply runs_lift; [reflexivity|].
  set (pkt := tcp_segment _ _ _ _ _ _ _).
  assert (Lp : length pkt = 20%nat) by done.
  apply runs_bind. eapply runs_lift.
  { pose proof (ip_checksumphdr_norm pkt [] (t_lip c) (t_rip c) 6) as E. rewrite app_nil_r, Lp in E.
    apply E; [apply tcp_segment_bytes, bytes_nil|lia..]. }
  apply runs_bind. unfold nput16. eapply runs_lift; [by apply store_in; rewrite Lp; cbn|].
  set (pkt' := splice _ _ _).
  assert (Lp' : length pkt' = 20%nat) by (apply length_splice; rewrite Lp; change (18 <= 20)%nat; lia).
  unfold runs. change (Tcp.MinHdr + 0) with (Z.of_nat 20). rewrite <- Lp'.
  rewrite (ipv4_send_run pkt' _ _ (t_rmac c) (n_mac s)); [|done..|vm_compute; split; congruence].
  apply HQ, responses_sent.
Qed.

Lemma send_runs flags t s : implements t s -> runs (tcpc_sendraw p flags [] 0) s (fun _ => implements t).
Proof.
  intros [Hh (c&Hc&Hca) (hd&Hhd&Hha) Ho]. pose proof Hh as [_ _ _ Hm]. destruct Hca as [E1 E2 E3 E4 E5 E6 E7 E8 E9 E10].
  eapply sendraw_runs; [done..|by rewrite E1|]. intros id sent Hs. split.
  - apply (at_host_mono (s <| n_tcp ::= <[p := c <| t_lseq ::= fun q => u32 (q + 0) |>]> |>));
      try reflexivity. by apply at_host_tcp.
  - eexists. split; [apply lookup_insert_eq|by split].
  - by eauto.
  - change (responses (n_out s ++ sent) = answers t). by rewrite responses_app, Hs, app_nil_r.
Qed.

Lemma tryread_runs cap t s :
  implements t s -> 0 <= cap ->
  runs (tcpc_tryread p cap) s (fun out s' => out = take (Z.to_nat cap) (unread t) /\
    implements (mkStream (nxt t) (drop (Z.to_nat cap) (unread t)) (pend t) (answers t)) s').
Proof.
  intros Ht Hcap. pose proof Ht as [Hh (c&Hc&Hca) _ _]. unfold tcpc_tryread.
  apply runs_bind. eapply runs_nrd; [exact Hc|].
  destruct (ca_ring _ _ _ Hca) as (Hwf&Hk&Hq).
  pose proof (ring_get_spec _ _ Hwf Hcap) as Hg.
  assert (Hk' : rcapacity (ring_get (t_rx c) cap).1 = 4096) by done.
  destruct (ring_get (t_rx c) cap) as [rx out] eqn:Eg. destruct Hg as [Hwf' Hg].
  unfold Spec.get in Hg. rewrite Hq in Hg. injection Hg as Hd Ho.
  destruct Ht as [_ _ Hhd Hout]. apply runs_bind. eapply runs_nwr; [exact Hc|]. apply runs_ret. split; [done|]. split.
  - by apply at_host_tcp.
  - eexists. split; [apply lookup_insert_eq|]. destruct Hca. by split.
  - done.
  - done.
Qed.

Lemma respond_bytes_runs r out t s :
  implements t s -> Z.of_nat (length out) < 2 ^ 63 ->
  runs (respond_bytes r out (Z.of_nat (length out))) s (fun _ => implements
    (mkStream (nxt t) (unread t) (pend t) (answers t ++ [(r, RBytes out, Z.of_nat (length out))]))).
Proof.
  intros Ht Hl. unfold respond_bytes. assert (s64 (Z.of_nat (length out)) = Z.of_nat (length out)) as -> by word_lia.
  apply runs_bind. eapply runs_lift.
  - rewrite Z.max_r by lia. rewrite <- (app_nil_r out) at 1. by apply fetch_at_0.
  - by apply emit_runs.
Qed.

Lemma callback_runs t s : implements t s -> runs (tcp_recv_callback h) s (fun _ => implements (serve t)).
Proof.
  intros Ht. pose proof Ht as [_ (c&Hc&Hca) (hd&Hhd&Hha) _]. unfold tcp_recv_callback.
  apply runs_bind. eapply runs_nrd; [exact Hhd|]. pose proof (ha_wait _ _ Hha) as Hw. unfold serve.
  destruct (pend t) as [[r cap]|] eqn:Ep; cbn in Hw; [|by rewrite Hw].
  destruct Hw as (Hr&Hr0&Hcap&Hcap0). rewrite (proj2 (Z.leb_le _ _)) by lia. cbv zeta.
  assert ((if 1024 <? h_tcp_readcap hd then 1024 else h_tcp_readcap hd) = cap) as -> by (case_match; zbool; lia).
  assert (Hc1 : 0 <= cap <= 1024) by lia.
  apply runs_bind. eapply runs_mono; [apply (handle_write _ t (pend t) s Ht)|].
  { intros hd' [? ? ? Hw']. rewrite Ep in *. split; [done..|]. cbn in *. destruct Hw' as (?&?&?&?). lia. }
  intros [] s1 H1. rewrite (ha_conn _ _ Hha). apply runs_bind. eapply runs_lift || apply runs_ret.
  apply runs_bind. eapply runs_mono; [apply (tryread_runs cap _ _ H1); lia|].
  intros out s2 [-> H2]. cbn [unread nxt pend answers] in *.
  pose proof (length_take (unread t) (Z.to_nat cap)) as Hl.
  destruct (take (Z.to_nat cap) (unread t)) as [|b out] eqn:Eo.
  - cbn. apply runs_ret. rewrite <- (take_drop (Z.to_nat cap) (unread t)), Eo in H1.
    assert (t = mkStream (nxt t) (drop (Z.to_nat cap) (unread t)) (pend t) (answers t)) as ->; [|done].
    destruct t; cbn in *. f_equal. rewrite <- (take_drop (Z.to_nat cap) unread0) at 1. by rewrite Eo.
  - set (o := b :: out) in *. rewrite (proj2 (Z.ltb_lt _ _)) by (unfold o; cbn; lia).
    apply runs_bind. rewrite Hr. eapply runs_mono; [apply (respond_bytes_runs _ _ _ _ H2); lia|].
    intros [] s3 H3. eapply runs_mono; [apply (handle_write _ _ None _ H3)|done].
    intros hd' [? ? ? _]. by split.
Qed.

(** *** A segment of the peer *)

Lemma offset_S i g : segs !! i = Some g -> offset (S i) = offset i + Z.of_nat (length g).
Proof.
  intros Hg. unfold offset. rewrite (take_S_r _ _ _ Hg), join_app, length_app. cbn.
  rewrite app_nil_r. lia.
Qed.

Lemma seg_facts i g : segs !! i = Some g -> bytes_ok g /\ 2 <= Z.of_nat (length g).
Proof. intros Hg. exact (Forall_lookup_1 _ _ _ _ Hsegs Hg). Qed.

Lemma offset_lt i j : (i < j <= length segs)%nat -> offset i + 2 <= offset j.
Proof.
  intros [Hij Hj]. induction j as [|j IH]; [lia|].
  destruct (lookup_lt_is_Some_2 segs j) as [g Hg]; [lia|]. rewrite (offset_S j g Hg).
  destruct (seg_facts _ _ Hg). destruct (decide (i = j)) as [->|]; [lia|].
  assert (offset i + 2 <= offset j) by (apply IH; lia). lia.
Qed.

Lemma offset_range i : 0 <= offset i <= total.
Proof.
  unfold offset, total.
  assert (mjoin segs = mjoin (take i segs) ++ mjoin (drop i segs)) as -> by (by rewrite <- join_app, take_drop).
  rewrite length_app. lia.
Qed.

(** A segment that is not the next one is not mistaken for it. *)
Lemma other_seq i n :
  i <> n -> (i < length segs)%nat -> (n <= length segs)%nat ->
  let l := u32 (base + offset n) in let q := u32 (base + offset i) in
  negb (l =? q) && negb (u32 (l - 1) =? q) = true.
Proof.
  intros Hne Hi Hn. pose proof (offset_range i). pose proof (offset_range n).
  assert (offset i + 2 <= offset n \/ offset n + 2 <= offset i).
  { destruct (decide (i < n)%nat); [left|right]; apply offset_lt; lia. }
  cbv zeta. apply andb_true_iff; split; apply negb_true_iff, Z.eqb_neq; word_lia.
Qed.

(** What a data segment carries apart from its data. *)
Definition data_seg (i : nat) (g : list Z) (ack fw : Z) (tl : list Z) : segment :=
  mkSeg rport lport (u32 (base + offset i)) ack fw (g ++ tl) (Z.of_nat (length g)).

Definition data_flags (fw : Z) : Prop :=
  has fw FlagACK = true /\ has fw FlagFIN = false /\ (Z.land fw FlagAll =? FlagSYN) = false.

Lemma data_runs i g ack fw tl t s :
  segs !! i = Some g -> i = nxt t -> Z.of_nat (length (unread t ++ g)) <= 4095 -> implements t s ->
  runs (tcp_data p (data_seg i g ack fw tl)) s
    (fun _ => implements (serve (mkStream (S i) (unread t ++ g) (pend t) (answers t)))).
Proof.
  intros Hg Hi Hfit Ht. destruct (seg_facts _ _ Hg) as [Hb Hl]. unfold tcp_data. cbn [s_len s_data s_seq data_seg].
  rewrite (proj2 (Z.eqb_neq _ 0)) by lia. cbn [negb].
  apply runs_bind. eapply runs_lift; [by apply fetch_at_0|].
  apply runs_bind. set (t1 := mkStream (S i) (unread t ++ g) (pend t) (answers t)).
  eapply runs_mono; [apply (conn_write _ t t1 s Ht); [done..|]|].
  { intros c [? ? ? ? ? ? ? (Hwf&Hk&Hq) ? ?]. split; try done.
    - cbn. rewrite (offset_S i g Hg). word_lia.
    - cbn. split_and!; [by apply ring_put_wf|by rewrite ring_put_capacity|].
      rewrite ring_put_abs, Hq, Hk by done. unfold Spec.put. apply take_ge. lia. }
  intros [] s1 H1. pose proof H1 as [_ (c&Hc&Hca) _ _].
  apply runs_bind. eapply runs_nrd; [exact Hc|].
  rewrite (ca_on_recv _ _ _ Hca), (ca_carg _ _ _ Hca). cbn [when].
  apply runs_bind. eapply runs_mono; [by apply callback_runs|]. intros [] s2 H2. by apply send_runs.
Qed.

Lemma arrives_runs i g ack fw tl t t' s :
  segs !! i = Some g -> data_flags fw -> (nxt t <= length segs)%nat ->
  arrive segs i t = Some t' -> implements t s ->
  runs (tcp_segment_arrives p (data_seg i g ack fw tl)) s (fun _ => implements t').
Proof.
  intros Hg (Ha&Hf&_) Hn Harr Ht. unfold tcp_segment_arrives. cbn [s_flags s_ack data_seg].
  pose proof Ht as [_ (c&Hc&Hca) _ _]. apply runs_bind. eapply runs_nrd; [exact Hc|].
  rewrite Ha. cbn [when]. apply runs_bind.
  eapply runs_mono; [apply (conn_write _ t t s Ht); [done..|]|].
  { intros c' Hc'. destruct Hc'. by split. }
  intros [] s1 H1.
  assert (bool_decide (t_state c = LAST_ACK) = false) as ->.
  { apply bool_decide_eq_false. destruct (ca_state _ _ _ Hca) as [-> | ->]; done. }
  cbn [andb]. rewrite (ca_lack _ _ _ Hca). cbn [s_seq data_seg].
  unfold arrive in Harr. case_decide as Hd.
  - rewrite <- Hd, Z.eqb_refl. cbn [negb andb]. rewrite Hg in Harr.
    destruct (_ <=? 4095) eqn:E; [|done]. zbool. injection Harr as <-.
    apply runs_bind. eapply runs_mono; [by apply data_runs|]. intros [] s2 H2.
    unfold tcp_fin. cbn [s_flags data_seg]. rewrite Hf. by apply runs_ret.
  - injection Harr as <-. apply lookup_lt_Some in Hg as Hlt.
    rewrite (other_seq i (nxt t)) by done.
    apply runs_bind. eapply runs_mono; [by apply warnx_runs|]. intros [] s2 H2. by apply send_runs.
Qed.

(** The loop finds the connection. *)
Lemma loop_finds g ip s l1 l2 :
  Forall (elsewhere s) l1 -> s_dst g = lport ->
  tcp_conns_loop g ip (l1 ++ p :: l2) s = tcp_conns_loop g ip (p :: l2) s.
Proof.
  intros Hl Hg. induction l1 as [|q l1 IH]; [done|]. apply Forall_cons in Hl as [Hq Hl].
  rewrite <- (IH Hl). cbn [app tcp_conns_loop]. unfold elsewhere in Hq.
  destruct (n_tcp s !! q) as [c|] eqn:E; [|done]. unfold mbind at 1, st_bind at 1.
  unfold nrd, mbind, st_bind, get_, deref, nstore. cbn. rewrite E. cbn.
  case_bool_decide; [done|]. destruct Hq as [|Hq]; [done|].
  by rewrite Hg, (proj2 (Z.eqb_neq _ _) Hq).
Qed.

Lemma loop_data_runs i g ack fw tl ip t t' s :
  segs !! i = Some g -> data_flags fw -> (nxt t <= length segs)%nat -> NetState.ip_src ip = rip ->
  arrive segs i t = Some t' -> implements t s ->
  runs (tcp_conns_loop (data_seg i g ack fw tl) ip (tcp_conns s)) s (fun _ => implements t').
Proof.
  intros Hg Hfw Hn Hip Harr Ht. pose proof Ht as [[(l1&l2&E&_&Hl) _ _ _] (c&Hc&Hca) _ _].
  unfold runs. rewrite E, loop_finds by done. cbn [tcp_conns_loop].
  change (runs (c0 ← nrd (T := tcp_conn) p;
    if bool_decide (t_state c0 = CLOSED) then tcp_conns_loop (data_seg i g ack fw tl) ip l2
    else if negb (t_lport c0 =? lport) then tcp_conns_loop (data_seg i g ack fw tl) ip l2
    else if bool_decide (t_state c0 = LISTEN) && (Z.land fw FlagAll =? FlagSYN) then
      tcp_accept p (data_seg i g ack fw tl) ip
    else if negb (t_rip c0 =? NetState.ip_src ip) || negb (t_rport c0 =? rport)
    then tcp_conns_loop (data_seg i g ack fw tl) ip l2
    else if bool_decide (t_state c0 = SYN_SENT) then tcp_established p (data_seg i g ack fw tl)
    else tcp_segment_arrives p (data_seg i g ack fw tl)) s (fun _ => implements t')).
  apply runs_bind. eapply runs_nrd; [exact Hc|].
  pose proof Hca as [E1 E2 E3 E4 _ _ _ _ _ _].
  assert (forall st, st = CLOSED \/ st = LISTEN \/ st = SYN_SENT -> bool_decide (t_state c = st) = false) as Hst.
  { intros st [-> |[-> | ->]]; apply bool_decide_eq_false; destruct E4 as [-> | ->]; done. }
  rewrite !Hst by auto. rewrite E3, Z.eqb_refl, E1, Hip, E2, !Z.eqb_refl. cbn [negb andb orb].
  by apply (arrives_runs i g ack fw tl t).
Qed.

(** *** Frames *)

(** The fields of a frame that the connection does not depend on. *)
Record wire := mkWire {
  w_dmac : list Z; w_smac : list Z; w_id : Z;
  w_ack : Z; w_win : Z; w_sum : Z; w_urg : Z;
  w_opts : list Z;
  w_psh : bool;
}.

Definition wire_ok (w : wire) (data : list Z) : Prop :=
  length (w_dmac w) = 6%nat /\ length (w_smac w) = 6%nat /\ 0 <= w_id w < 2 ^ 16 /\
  (exists k, length (w_opts w) = (4 * k)%nat /\ (k <= 10)%nat) /\
  20 + Z.of_nat (length (w_opts w)) + Z.of_nat (length data) <= 1480.

(** The flags with the length of the header in words. *)
Definition flags_word (fl : Z) (opts : list Z) : Z :=
  Z.lor fl (Z.shiftl (5 + Z.of_nat (length opts / 4)) 12).

Definition tcp_packet (w : wire) (seq fl : Z) (data : list Z) : list Z :=
  be16 rport ++ be16 lport ++ be32 seq ++ be32 (w_ack w) ++ be16 (flags_word fl (w_opts w)) ++
  be16 (w_win w) ++ be16 (w_sum w) ++ be16 (w_urg w) ++ w_opts w ++ data.

Definition tcp_frame (w : wire) (seq fl : Z) (data : list Z) : list Z :=
  frag_frame (w_dmac w) (w_smac w) 6 rip lip (w_id w) (0, true, tcp_packet w seq fl data).

Definition data_fl (w : wire) : Z := if w_psh w then Z.lor FlagACK FlagPSH else FlagACK.

Lemma flags_facts fl opts k :
  fl ∈ [FlagSYN; FlagACK; Z.lor FlagACK FlagPSH] -> length opts = (4 * k)%nat -> (k <= 10)%nat ->
  let fw := flags_word fl opts in
  u16 fw = fw /\
  u16 (Z.shiftr (Z.land fw FlagSize) 12 * 4) = 20 + Z.of_nat (length opts) /\
  (fl = FlagSYN -> Z.land fw FlagAll = FlagSYN) /\ (fl <> FlagSYN -> data_flags fw).
Proof.
  intros Hfl Ho Hk. unfold flags_word. rewrite Ho, (Nat.mul_comm 4), Nat.div_mul by lia.
  do 11 (destruct k as [|k]; [clear Hk Ho;
    repeat (apply elem_of_cons in Hfl as [-> | Hfl]; [by vm_compute|]);
    by apply not_elem_of_nil in Hfl|]).
  lia.
Qed.

Lemma parse_runs w seq fl data tl ip s :
  fl ∈ [FlagSYN; FlagACK; Z.lor FlagACK FlagPSH] -> wire_ok w data -> 0 <= seq < 2 ^ 32 ->
  let pkt := tcp_packet w seq fl data in
  tcp_parse (pkt ++ tl) (Z.of_nat (length pkt)) ip s
  = tcp_conns_loop (mkSeg rport lport seq (u32 (w_ack w)) (flags_word fl (w_opts w)) (data ++ tl)
                      (Z.of_nat (length data))) ip (tcp_conns s) s.
Proof.
  intros Hfl (_&_&_&(k&Ho&Hk)&Hlen) Hseq pkt.
  destruct (flags_facts fl (w_opts w) k Hfl Ho Hk) as (Hfw&Hhl&_&_).
  assert (Lp : Z.of_nat (length pkt) = 20 + Z.of_nat (length (w_opts w)) + Z.of_nat (length data)).
  { unfold pkt, tcp_packet. rewrite !length_app. cbn. lia. }
  unfold tcp_parse. rewrite (proj2 (Z.ltb_ge _ 20)) by lia.
  set (fw := flags_word fl (w_opts w)) in *.
  set (rest := be16 (w_win w) ++ be16 (w_sum w) ++ be16 (w_urg w) ++ w_opts w ++ data ++ tl).
  set (buf := be16 rport ++ be16 lport ++ be32 seq ++ be32 (w_ack w) ++ be16 fw ++ rest).
  assert (pkt ++ tl = buf) as -> by (unfold pkt, tcp_packet, buf, rest; by rewrite <- !app_assoc).
  assert (H0 : nget16 buf Tcp.SrcPort = Ok rport).
  { etrans; [exact (nget16_app [] rport _)|]. f_equal. word_lia. }
  assert (H2 : nget16 buf Tcp.DstPort = Ok lport).
  { etrans; [exact (nget16_app (be16 rport) lport _)|]. f_equal. word_lia. }
  assert (H4 : nget32 buf Tcp.Seq = Ok seq).
  { etrans; [exact (nget32_app (be16 rport ++ be16 lport) seq _)|]. f_equal. by apply u32_small. }
  assert (H8 : nget32 buf Tcp.AckNum = Ok (u32 (w_ack w)))
    by exact (nget32_app (be16 rport ++ be16 lport ++ be32 seq) (w_ack w) _).
  assert (H12 : nget16 buf Tcp.Flags = Ok fw).
  { etrans; [exact (nget16_app (be16 rport ++ be16 lport ++ be32 seq ++ be32 (w_ack w)) fw rest)|].
    by f_equal. }
  assert (Hadv : advance buf (20 + Z.of_nat (length (w_opts w))) = data ++ tl).
  { unfold advance, buf, rest. change (drop (Z.to_nat (20 + Z.of_nat (length (w_opts w))))
      ((be16 rport ++ be16 lport ++ be32 seq ++ be32 (w_ack w) ++ be16 fw ++ be16 (w_win w) ++
        be16 (w_sum w) ++ be16 (w_urg w)) ++ w_opts w ++ data ++ tl) = data ++ tl).
    rewrite app_assoc. apply drop_app_length'. rewrite length_app. cbn. lia. }
  rewrite H0, H2, H4, H8, H12. unfold mbind, st_bind, lift; cbn [mret st_ret]. rewrite Hhl.
  rewrite (proj2 (Z.ltb_ge _ _)) by lia. unfold gets, mbind, st_bind. cbv zeta. rewrite Hadv.
  do 3 f_equal. rewrite Lp. word_lia.
Qed.

Lemma receive_runs w seq fl data s (Q : () -> net -> Prop) :
  fl ∈ [FlagSYN; FlagACK; Z.lor FlagACK FlagPSH] -> wire_ok w data -> 0 <= seq < 2 ^ 32 ->
  at_host s ->
  (forall header rx tl, length rx = 4096%nat ->
     let s' := s <| n_rxbuf := rx |> in
     runs (tcp_conns_loop (mkSeg rport lport seq (u32 (w_ack w)) (flags_word fl (w_opts w)) (data ++ tl)
                     (Z.of_nat (length data))) (datagram_ip 6 rip lip (w_id w) 0 header)
             (tcp_conns s')) s' Q) ->
  runs (receive (tcp_frame w seq fl data)) s Q.
Proof.
  intros Hfl Hw Hseq [_ Hrx Hq _] HQ. pose proof Hw as (Hd&Hs&Hid&_&Hlen).
  set (pkt := tcp_packet w seq fl data).
  assert (Lp : Z.of_nat (length pkt) = 20 + Z.of_nat (length (w_opts w)) + Z.of_nat (length data)).
  { unfold pkt, tcp_packet. rewrite !length_app. cbn. lia. }
  assert (Hp : is_byte 6) by (unfold is_byte; lia).
  pose proof (receive_frame (w_dmac w) (w_smac w) 6 rip lip (w_id w) Hd Hs Hp Hrip Hlip Hid
                (0, true, pkt) s) as E.
  pose proof (length_frame (w_dmac w) (w_smac w) 6 rip lip (w_id w) Hd Hs (0, true, pkt)) as Lf.
  cbn [fst snd] in Lf.
  unfold runs, tcp_frame. fold pkt. rewrite E; [|split; cbn [fst snd]; lia|done..].
  set (rest := frag_rest _ _ _ _ _ _ _ _). cbv zeta. cbn [fst snd].
  rewrite frag_field_frag by (by exists 0 || lia). cbn [Z.eqb andb negb].
  unfold ipv4_dispatch. cbn [NetState.ip_proto frag_ip].
  change (6 =? 1) with false. change (6 =? 6) with true. cbv iota.
  pose proof (fun ip s' => parse_runs w seq fl data rest ip s' Hfl Hw Hseq) as Ep.
  cbv zeta in Ep. fold pkt in Ep. rewrite Ep. apply HQ.
  unfold rx_after. rewrite length_app, length_drop, Hrx. lia.
Qed.

(** *** Setting up *)

(** The connection and the handle that [fs_open] of [/net/listen/0/tcp/<lport>]
    makes, waiting for a peer; [o] is the open request. *)
Record listening (o : Z) (prev : list answer) (s : net) : Prop := {
  li_host : at_host s;
  li_conn : exists c, n_tcp s !! p = Some c /\ t_state c = LISTEN /\ t_lport c = lport /\
    t_on_conn c = true /\ t_on_recv c = true /\ t_carg c = h /\ t_rx c = ring_new /\
    0 <= t_lip c < 2 ^ 32;
  li_handle : exists hd, n_handles s !! h = Some hd /\ h_type hd = H_TCP /\ h_dead hd = false /\
    h_reqh hd = o;
  li_out : responses (n_out s) = prev;
}.

Lemma conn_callback_runs o prev hd s :
  at_host s -> (exists c, n_tcp s !! p = Some c /\ conn_at 0 [] c) ->
  n_handles s !! h = Some hd -> h_type hd = H_TCP -> h_dead hd = false -> h_reqh hd = o ->
  responses (n_out s) = prev ->
  runs (tcp_conn_callback p h) s
    (fun _ => implements (mkStream 0 [] None (prev ++ [(o, RId h, 0)]))).
Proof.
  intros Hh Hc Hhd Ht Hdd Ho Hout. unfold tcp_conn_callback, answer_open.
  apply runs_bind. eapply runs_nwr; [exact Hhd|].
  apply runs_bind. eapply runs_nrd; [by apply lookup_insert_eq|].
  apply runs_bind. apply runs_modify. eapply runs_nwr; [by apply lookup_insert_eq|].
  split; [by eapply at_host_mono, Hh|exact Hc| |].
  - eexists. split; [apply lookup_insert_eq|]. by split.
  - unfold nset, set; cbn. rewrite responses_app, Hout. cbn. by rewrite Ho.
Qed.

(** [tcp_accept], and the callback that answers the open request. *)
Lemma accept_conn o prev g ip c hd s :
  base = u32 (s_seq g + 1) -> s_src g = rport -> NetState.ip_src ip = rip ->
  e_src (ip_e ip) = MacFrame 6 -> at_host s ->
  n_tcp s !! p = Some c -> t_lport c = lport -> t_on_conn c = true -> t_on_recv c = true ->
  t_carg c = h -> t_rx c = ring_new -> 0 <= t_lip c < 2 ^ 32 ->
  n_handles s !! h = Some hd -> h_type hd = H_TCP -> h_dead hd = false -> h_reqh hd = o ->
  responses (n_out s) = prev ->
  runs (tcp_accept p g ip) s (fun _ => implements (mkStream 0 [] None (prev ++ [(o, RId h, 0)]))).
Proof.
  intros Hb Hsp Hip Hmac Hh Hc Hlp Hoc Hor Hca Hrx Hli Hhd Ht Hdd Ho Hout. unfold tcp_accept.
  pose proof Hh as [_ Lrx _ Lm]. rewrite Hmac. apply runs_bind. unfold mac_bytes.
  apply runs_bind, runs_get. eapply runs_lift; [apply fetch_in; rewrite Lrx; lia|].
  set (mac := take _ _).
  assert (Lmac : length mac = 6%nat) by (unfold mac; rewrite length_take, length_drop, Lrx; lia).
  apply runs_bind. eapply runs_nwr; [exact Hc|]. set (c1 := c <| t_state := SYN_RCVD |> <| _ := _ |> <| _ := _ |>
      <| _ := _ |> <| _ := _ |>). cbn [nset nobj_tcp].
  apply runs_bind. eapply (sendraw_runs _ c1); [by apply lookup_insert_eq|done..|by cbn; rewrite Hip|].
  intros id sent Hsent.
  apply runs_bind. eapply runs_nwr; [by apply lookup_insert_eq|].
  apply runs_bind. eapply runs_nrd; [by apply lookup_insert_eq|].
  set (c2 := c1 <| t_lseq ::= _ |> <| t_lseq ::= _ |>).
  assert (t_on_conn c2 = true) as -> by exact Hoc. assert (t_carg c2 = h) as -> by exact Hca.
  cbn [when]. eapply (conn_callback_runs o prev hd); [| |exact Hhd|done..|].
  - apply (at_host_mono (s <| n_tcp ::= <[p := c1]> |>
      <| n_tcp ::= <[p := c1 <| t_lseq ::= fun q => u32 (q + 0) |>]> |> <| n_tcp ::= <[p := c2]> |>));
      try reflexivity. by repeat apply at_host_tcp.
  - exists c2. split; [apply lookup_insert_eq|]. split; try done.
    + by left.
    + change (u32 (s_seq g + 1) = u32 (base + 0)). rewrite Z.add_0_r, Hb. unfold u32. by rewrite Z.mod_mod.
    + cbn. rewrite Hrx. split_and!; [apply ring_new_ok|done|by vm_compute].
  - change (responses (n_out s ++ sent) = prev). by rewrite responses_app, Hsent, app_nil_r.
Qed.

(** The SYN of the peer, and the answer to the open request. *)
Lemma accept_runs o prev isn w s :
  base = u32 (isn + 1) -> 0 <= isn < 2 ^ 32 -> wire_ok w [] -> listening o prev s ->
  runs (receive (tcp_frame w isn FlagSYN [])) s
    (fun _ => implements (mkStream 0 [] None (prev ++ [(o, RId h, 0)]))).
Proof.
  intros Hb Hisn Hw [Hh (c&Hc&Hst&Hlp&Hoc&Hor&Hca&Hrx&Hli) (hd&Hhd&Ht&Hdd&Ho) Hout].
  apply receive_runs; [left|done..|]. intros header rx tl Lrx s0.
  destruct Hw as (_&_&_&(k&Hk&Hk10)&_).
  destruct (flags_facts FlagSYN (w_opts w) k ltac:(left) Hk Hk10) as (_&_&Hsyn&_).
  pose proof Hh as [(l1&l2&E&Hn&Hl) _ Hq Hm].
  assert (Hh0 : at_host s0).
  { split; [exists l1, l2; done|done..]. }
  unfold runs. change (tcp_conns s0) with (tcp_conns s). rewrite E, loop_finds by done.
  set (g := mkSeg _ _ _ _ _ _ _). set (ip := datagram_ip _ _ _ _ _ _).
  change (runs (c0 ← nrd (T := tcp_conn) p;
    if bool_decide (t_state c0 = CLOSED) then tcp_conns_loop g ip l2
    else if negb (t_lport c0 =? lport) then tcp_conns_loop g ip l2
    else if bool_decide (t_state c0 = LISTEN) && (Z.land (s_flags g) FlagAll =? FlagSYN) then
      tcp_accept p g ip
    else if negb (t_rip c0 =? NetState.ip_src ip) || negb (t_rport c0 =? rport)
    then tcp_conns_loop g ip l2
    else if bool_decide (t_state c0 = SYN_SENT) then tcp_established p g
    else tcp_segment_arrives p g) s0
    (fun _ => implements (mkStream 0 [] None (prev ++ [(o, RId h, 0)])))).
  apply runs_bind. eapply runs_nrd; [exact Hc|].
  cbn [s_flags g]. rewrite Hst, Hlp, Z.eqb_refl, (Hsyn eq_refl). cbn [negb].
  change (bool_decide (LISTEN = CLOSED)) with false. change (bool_decide (LISTEN = LISTEN)) with true.
  change (FlagSYN =? FlagSYN) with true. cbv iota. cbn [andb].
  by eapply (accept_conn o prev g ip c hd).
Qed.

(** *** Reads *)

Lemma read_runs buf r len cap off flags t s :
  0 < r -> 0 <= cap -> implements t s ->
  runs (fs_request buf r (mkUfs VFSOP_READ len cap h off flags)) s (fun _ => implements (ask r cap t)).
Proof.
  intros Hr Hcap Ht. pose proof Ht as [_ _ (hd&Hhd&Hha) _]. unfold fs_request. cbn [q_op].
  unfold fs_read. cbn [q_id q_capacity q_offset].
  apply runs_bind. eapply runs_nrd; [exact Hhd|]. rewrite (ha_dead _ _ Hha), (ha_type _ _ Hha).
  unfold recv_enqueue. apply runs_bind. eapply runs_nrd; [exact Hhd|]. rewrite (ha_type _ _ Hha).
  pose proof (ha_wait _ _ Hha) as Hw. unfold ask. destruct (pend t) as [[r' cap']|] eqn:Ep; cbn in Hw.
  - rewrite (proj2 (Z.ltb_lt _ _)) by lia. rewrite <- Ep. by apply emit_runs.
  - rewrite Hw. change (0 <? -1) with false. cbv iota.
    pose proof Ht as [Hh Hc _ Ho]. set (t1 := mkStream _ _ (Some _) _).
    apply runs_bind. eapply runs_nwr; [exact Hhd|]. apply runs_bind.
    eapply runs_nwr; [by apply lookup_insert_eq|]. apply callback_runs.
    split; [by eapply at_host_mono, Hh|done| |done].
    eexists. split; [apply lookup_insert_eq|]. destruct Hha. by split.
Qed.

(** *** Everything in any order *)

Inductive happening :=
| Arrives (i : nat) (w : wire)
| Reads (buf : list Z) (r len cap off flags : Z).

Definition happening_ok (e : happening) : Prop :=
  match e with
  | Arrives i w => exists g, segs !! i = Some g /\ wire_ok w g
  | Reads _ r _ cap _ _ => 0 < r /\ 0 <= cap
  end.

Definition input_of (e : happening) : input :=
  match e with
  | Arrives i w => Frame (tcp_frame w (u32 (base + offset i)) (data_fl w) (default [] (segs !! i)))
  | Reads buf r len cap off flags => Request buf r (mkUfs VFSOP_READ len cap h off flags)
  end.

Definition happens (t : option stream) (e : happening) : option stream :=
  t ← t;
  match e with
  | Arrives i _ => arrive segs i t
  | Reads _ r _ cap _ _ => Some (ask r cap t)
  end.

Lemma arrive_nxt i t t' :
  (i < length segs)%nat -> arrive segs i t = Some t' -> (nxt t <= length segs)%nat ->
  (nxt t' <= length segs)%nat.
Proof.
  unfold arrive. intros Hi Ha Hn. case_decide; [|by simplify_eq]. case_match; simplify_eq/=.
  destruct (serve_keeps (mkStream (S (nxt t)) (unread t ++ default [] (segs !! nxt t)) (pend t) (answers t)))
    as [-> _]. cbn. lia.
Qed.

Lemma ask_nxt r cap t : nxt (ask r cap t) = nxt t.
Proof. unfold ask. case_match; [done|]. by destruct (serve_keeps (mkStream (nxt t) (unread t) (Some (r, Z.min 1024 cap)) (answers t))). Qed.

Lemma happening_runs e t t' s :
  happening_ok e -> happens (Some t) e = Some t' -> (nxt t <= length segs)%nat -> implements t s ->
  runs (handle_input (input_of e)) s (fun _ => implements t').
Proof.
  destruct e as [i w|buf r len cap off flags]; cbn [happening_ok input_of handle_input].
  - intros (g&Hg&Hw) Harr Hn Ht. change (arrive segs i t = Some t') in Harr. rewrite Hg. cbn [default].
    destruct Hw as (Hd&Hs&Hid&(k&Hk&Hk10)&Hl) eqn:Ew. clear Ew.
    assert (Hfl : data_fl w ∈ [FlagSYN; FlagACK; Z.lor FlagACK FlagPSH]).
    { unfold data_fl. destruct (w_psh w); [right; right; left|right; left]. }
    apply receive_runs; [done| |unfold u32; apply Z.mod_pos_bound; lia|by destruct Ht|].
    { split_and!; eauto; lia. }
    intros header rx tl Lrx s'.
    destruct (flags_facts _ _ k Hfl Hk Hk10) as (_&_&_&Hfw).
    apply (loop_data_runs i g _ _ tl _ t t' s'); try done.
    + apply Hfw. unfold data_fl. by destruct (w_psh w).
    + destruct Ht as [[? ? ? ?] ? ? ?]. by split.
  - intros [Hr Hcap] Hask Hn Ht. injection Hask as <-. by apply read_runs.
Qed.

Lemma happens_none evs : foldl happens None evs = None.
Proof. by induction evs. Qed.

Lemma all_runs pre evs t t' s :
  Forall happening_ok evs -> foldl happens (Some t) evs = Some t' ->
  (nxt t <= length segs)%nat -> in_order segs pre t -> implements t s ->
  runs (forM (input_of <$> evs) handle_input) s (fun _ s' => implements t' s' /\ in_order segs pre t').
Proof.
  intros Hev. revert t s. induction Hev as [|e evs He Hev IH]; intros t s Hf Hn Ho Ht.
  { injection Hf as <-. by apply runs_ret. }
  cbn [foldl] in Hf. destruct (happens (Some t) e) as [t1|] eqn:E1; [|by rewrite happens_none in Hf].
  cbn [fmap list_fmap forM]. apply runs_bind.
  eapply runs_mono; [by apply (happening_runs e t t1)|]. intros [] s1 H1.
  destruct e as [i w|buf r len cap off flags].
  - destruct He as (g&Hg&_). apply lookup_lt_Some in Hg. apply (IH t1); [done|by eapply arrive_nxt| |done].
    by eapply in_order_arrive.
  - injection E1 as <-. apply (IH _ s1 Hf); [by rewrite ask_nxt|by apply in_order_ask|done].
Qed.
End connection.

(** The peer: its addresses, where its sequence numbers start, and its data. *)
Definition peer_ok (rip lip rport lport isn : Z) (segs : list (list Z)) : Prop :=
  0 <= rip < 2 ^ 32 /\ 0 <= lip < 2 ^ 32 /\ 0 <= rport < 2 ^ 16 /\ 0 <= lport < 2 ^ 16 /\
  0 <= isn < 2 ^ 32 /\ total segs < 2 ^ 32 - 1 /\
  Forall (fun g => bytes_ok g /\ 2 <= Z.of_nat (length g)) segs.

(** C12: what a user reads from a TCP connection is what the peer sent, in
    order.  A handle listens on a port.  The peer's SYN arrives; then frames
    with the segments of its data arrive in any order, as often as the network
    likes and with gaps, between reads by the user.  As long as the abstract
    machine does not overflow (never more than 4095 bytes wait), the stack
    handles every frame and every request to its end, and its answers are those
    of the machine: the open is answered with the handle, every read with the
    next bytes of the stream, at most 1024 of them, as soon as there are any,
    and a second read that waits is refused.  The bytes of the answers and
    those still in the ring are the first segments of the peer, nothing lost,
    repeated or swapped.  The segments have at least two bytes: see
    [one_byte_segment_repeats]. *)
Theorem tcp_delivers_stream (ENV : Env) p h rip lip rport lport isn segs o w0 evs prev t s :
  peer_ok rip lip rport lport isn segs -> wire_ok w0 [] ->
  listening p h lport o prev s -> Forall (happening_ok segs) evs ->
  foldl (happens segs) (Some (mkStream 0 [] None (prev ++ [(o, RId h, 0)]))) evs = Some t ->
  let base := u32 (isn + 1) in
  let ins := Frame (tcp_frame rip lip rport lport w0 isn FlagSYN []) ::
             (input_of h rip lip rport lport base segs <$> evs) in
  exists s', forM ins handle_input s = Val () s' /\
    responses (n_out s') = answers t /\
    answered (answers t) ++ unread t = answered prev ++ mjoin (take (nxt t) segs).
Proof.
  intros (Hrip&Hlip&Hrp&Hlp&Hisn&Htot&Hsegs) Hw Hl Hev Hf base ins.
  assert (Hb : 0 <= base < 2 ^ 32) by (unfold base, u32; apply Z.mod_pos_bound; lia).
  assert (R : runs (forM ins handle_input) s (fun _ s' =>
    implements p h rip rport lport base segs t s' /\ in_order segs (answered prev) t)).
  { unfold ins. cbn [forM]. apply runs_bind.
    eapply runs_mono; [by eapply (accept_runs p h rip lip rport lport base segs)|].
    intros [] s1 H1. eapply (all_runs p h); try done; [cbn; lia|]. unfold in_order, answered. cbn.
    rewrite fmap_app, join_app. cbn. by rewrite !app_nil_r. }
  apply runs_inv in R as ([]&s'&E&[_ _ _ Ho]&Hio). eauto.
Qed.

(** *** A run *)

Definition listen_path : list Z :=
  [47; 108; 105; 115; 116; 101; 110; 47; 48; 47; 116; 99; 112; 47; 56; 48].

Definition open_listen : input :=
  Request (listen_path ++ replicate 4080 0) 1 (mkUfs VFSOP_OPEN 16 0 1 0 OPEN_RW).

Definition some_wire : wire := mkWire (n_mac (net0 0 0)) peer_mac 7 0 1000 0 0 [] true.
Definition syn_wire : wire := mkWire (n_mac (net0 0 0)) peer_mac 6 0 1000 0 0 [2; 4; 5; 180] false.
Definition some_segs : list (list Z) := [[104; 105]; [33; 33; 33]].

(** The segments swapped, one of them twice, and two reads. *)
Definition some_evs : list happening :=
  [Arrives 1 some_wire; Reads [] 2 0 100 0 0; Arrives 0 some_wire; Arrives 0 some_wire;
   Arrives 1 some_wire; Reads [] 3 0 100 0 0].

Definition outcome_state (o : outcome net Empty_set ()) : net :=
  match o with Val _ s => s | _ => net0 0 0 end.

(** The stack after [/listen/0/tcp/80] has been opened. *)
Definition listener : net :=
  outcome_state (@netstack_main some_env [open_listen] (net0 0x0a000002 0x0a000001)).

Lemma listener_listening : listening 2 1 80 1 [] listener.
Proof.
  split.
  - split; [exists [], []|..]; [|by vm_compute..]. split_and!; [by vm_compute|set_solver|done].
  - eexists. split; [vm_compute; reflexivity|]. split_and!; done.
  - eexists. split; [vm_compute; reflexivity|]. done.
  - by vm_compute.
Qed.

Lemma some_wire_ok w data :
  w = some_wire \/ w = syn_wire -> Z.of_nat (length data) <= 1000 -> wire_ok w data.
Proof.
  intros [-> | ->] Hd; (split_and!; [done..|by vm_compute; split; congruence| |cbn; lia]);
    [exists 0%nat|exists 1%nat]; cbn; lia.
Qed.

Lemma some_peer_ok : peer_ok 0x0a000005 0x0a000002 40000 80 4294967295 some_segs.
Proof.
  split_and!; [lia..|by vm_compute|]. repeat (apply Forall_cons; split); [..|by apply Forall_nil].
  all: split; [decide_now|cbn; lia].
Qed.

Lemma some_evs_ok : Forall (happening_ok some_segs) some_evs.
Proof.
  repeat (apply Forall_cons; split); [..|by apply Forall_nil]; cbn [happening_ok]; try lia.
  all: eexists; split; [reflexivity|]; apply some_wire_ok; [by left|cbn; lia].
Qed.

Lemma tcp_delivers_stream_witness :
  exists s', forM (Frame (tcp_frame 0x0a000005 0x0a000002 40000 80 syn_wire 4294967295 FlagSYN []) ::
                   (input_of 1 0x0a000005 0x0a000002 40000 80 0 some_segs <$> some_evs))
               (@handle_input some_env) listener = Val () s' /\
    responses (n_out s') = [(1, RId 1, 0); (2, RBytes [104; 105], 2); (3, RBytes [33; 33; 33], 3)].
Proof.
  destruct (tcp_delivers_stream some_env 2 1 0x0a000005 0x0a000002 40000 80 4294967295 some_segs 1
    syn_wire some_evs [] (mkStream 2 [] None
       [(1, RId 1, 0); (2, RBytes [104; 105], 2); (3, RBytes [33; 33; 33], 3)]) listener)
    as (s'&E&Hr&_).
  - apply some_peer_ok.
  - apply some_wire_ok; [by right|cbn; lia].
  - apply listener_listening.
  - apply some_evs_ok.
  - reflexivity.
  - exists s'. split; [exact E|exact Hr].
Defined.

(** A segment of one byte that is sent again is taken again: its number is the
    one before the expected one, which the code lets through. *)
Lemma one_byte_segment_repeats :
  let seg := tcp_frame 0x0a000005 0x0a000002 40000 80 some_wire 0 (Z.lor FlagACK FlagPSH) [65] in
  responses (n_out (outcome_state (forM
    [Frame (tcp_frame 0x0a000005 0x0a000002 40000 80 syn_wire 4294967295 FlagSYN []);
     Frame seg; Frame seg; Request [] 2 (mkUfs VFSOP_READ 0 100 1 0 0)] (@handle_input some_env) listener)))
  = [(1, RId 1, 0); (2, RBytes [65; 65], 2)].
Proof. vm_compute. reflexivity. Qed.

(** A segment as large as the window that was offered loses its last byte, which
    is acknowledged nevertheless: an empty ring offers 4096 bytes and takes
    4095. *)
Lemma full_window_loses_byte r bs :
  ring_wf r -> rcapacity r = 4096 -> ring_abs r = [] -> Forall is_byte bs ->
  Z.of_nat (length bs) = ring_avail r -> ring_abs (ring_put r bs) = take 4095 bs /\ length bs = 4096%nat.
Proof.
  intros Hwf Hk Hq Hb Hl. unfold ring_avail in Hl. rewrite <- (length_ring_abs r Hwf), Hq, Hk in Hl. cbn in Hl.
  split; [|lia]. rewrite ring_put_abs, Hq, Hk by done. reflexivity.
Qed.
