(* ===== verification/NetInv.v ===== *)
(** * NetInv

    The invariant of [NetSafe] through the receiving side and the requests of
    the network stack, and what follows for a whole run of [netstack_main]:
    the state stays well formed, every frame sent is one, and no assertion of
    the stack fails, whatever arrives and whatever its users ask. *)

From S2P Require Import Prelude Monad Mem Ring Printf CString KState UserFs.
From S2P Require Import NetUtil NetState NetSend NetFrame NetConn NetRecv NetReasm NetFs NetSafe.

(** ** Fragments *)

Lemma frag_insert_in l f l' : frag_insert l f = Some l' -> f ∈ l' /\ (forall g, g ∈ l -> g ∈ l').
Proof.
  revert l'; induction l as [|g l IH]; intros l'; cbn.
  - intros [= <-]. split; [by left|by intros g ?%elem_of_nil].
  - case_match; [case_match; [done|]; intros [= <-]; split; [by left|intros; by right]|].
    case_match; [done|]. destruct (frag_insert l f) as [k|]; [|done]. intros [= <-].
    destruct (IH k eq_refl) as [Hf Hg]. split; [by right|].
    intros h [->|Hh]%elem_of_cons; [by left|right; auto].
Qed.

Lemma frag_insert_from l f l' :
  frag_insert l f = Some l' -> forall g, g ∈ l' -> g = f \/ g ∈ l.
Proof.
  revert l'; induction l as [|g l IH]; intros l'; cbn.
  - intros [= <-] g ->%list_elem_of_singleton. by left.
  - case_match; [case_match; [done|]; intros [= <-] h [->|?]%elem_of_cons; auto|].
    case_match; [done|]. destruct (frag_insert l f) as [k|]; [|done]. intros [= <-] h.
    intros [->|Hh]%elem_of_cons; [right; by left|].
    destruct (IH k eq_refl h Hh); [by left|right; by right].
Qed.

Lemma frag_insert_ascending l f l' :
  frag_insert l f = Some l' -> ascending l -> ascending l'.
Proof.
  revert l'; induction l as [|g l IH]; intros l'; cbn.
  - intros [= <-] _. by repeat constructor.
  - case_match eqn:Elt; zbool.
    + case_match; [done|]. intros [= <-] [Hg Hl]. cbn. split; [|done].
      constructor; [done|]. eapply Forall_impl; [exact Hg|]. cbn. lia.
    + case_match eqn:Eeq; [done|]. destruct (frag_insert l f) as [k|] eqn:E; [|done].
      intros [= <-] [Hg Hl]. cbn. split; [|by apply IH]. zbool.
      apply Forall_forall. intros h Hh.
      destruct (frag_insert_from _ _ _ E h Hh) as [->|Hin]; [lia|].
      by eapply Forall_forall in Hg.
Qed.

(** A second fragment at offset 0 is refused. *)
Lemma frag_insert_zero l f l' g :
  frag_insert l f = Some l' -> ascending l -> fr_offset f = 0 -> g ∈ l -> fr_offset g <> 0.
Proof.
  revert l'; induction l as [|h l IH]; intros l' E Ha Hf Hg H0; [by apply elem_of_nil in Hg|].
  cbn in E. destruct Ha as [Hh Ha]. apply elem_of_cons in Hg as [->|Hg].
  - by rewrite Hf, H0 in E.
  - pose proof Hh as Hh'. eapply Forall_forall in Hh'; [|exact Hg].
    rewrite (proj2 (Z.ltb_ge _ _)) in E by lia. case_match; [done|].
    destruct (frag_insert l f) as [k|] eqn:Ek; [|done]. by eapply IH.
Qed.

Lemma entry_insert inc f l' h :
  entry_ok inc -> frag_ok' f -> frag_insert (fg_first inc) f = Some l' ->
  h = fg_h inc \/ fr_offset f = 0 /\ macptr_ok (e_src (ip_e h)) /\
    (forall b, ip_header h = Some b -> bytes_ok b) /\ 0 <= ip_hlen h ->
  entry_ok (mkFragmented h l').
Proof.
  intros (H1&H2&H3&H4&H5&H6) Hf E Hh. destruct (frag_insert_in _ _ _ E) as [Hin Hall].
  split_and!; cbn.
  - apply Forall_forall. intros g Hg.
    destruct (frag_insert_from _ _ _ E g Hg) as [->|Hg']; [done|]. by eapply Forall_forall in H1.
  - by eapply frag_insert_ascending.
  - intros Hb. destruct Hh as [->|[? _]]; [|by exists f].
    destruct (H3 Hb) as (g&Hg&?). exists g. auto.
  - destruct Hh as [->|(_&?&_)]; done.
  - destruct Hh as [->|(_&_&?&_)]; done.
  - destruct Hh as [->|(_&_&_&?)]; done.
Qed.

(** ** Receiving *)

Section recv.
Context {ENV : Env} {raw : list Z -> Prop} {x : option ptr}.
Local Abbreviation ok := (ok raw x).

Lemma ok_ipv4_dispatch buf len ip :
  bytes_ok buf -> ip_ok ip -> ok (ipv4_dispatch buf len ip) (fun _ => True).
Proof.
  intros Hb Hip. unfold ipv4_dispatch. case_match; [apply ok_icmp_parse; [apply Hip|done]|].
  case_match; [by apply ok_tcp_parse|]. case_match; [by apply ok_udp_parse|by apply ok_skip].
Qed.

Lemma entry_ip_ok inc : entry_ok inc -> ip_ok (fg_h inc).
Proof. intros (_&_&_&?&?&_). by split. Qed.

Lemma ok_frag_search l ip : ok (frag_search l ip) (fun _ => True).
Proof.
  induction l as [|p l IH]; cbn [frag_search]; [by apply ok_ret|].
  obind ok_rd_frag as inc _. case_match; [by apply ok_ret|done].
Qed.

Lemma ok_fragmented_find ip : ok (fragmented_find ip) (fun _ => True).
Proof.
  unfold fragmented_find. oget. obind ok_frag_search as r _. case_match; [by apply ok_ret|].
  obind ok_new_frag as p _.
  { by split_and!. }
  eapply ok_bind; [apply ok_modify; intros; by apply inv_fragmenteds|intros _ _]. by apply ok_ret.
Qed.

Lemma ok_fragmented_free p : ok (fragmented_free p) (fun _ => True).
Proof.
  unfold fragmented_free.
  eapply ok_bind; [apply ok_modify; intros; by apply inv_fragmenteds|intros _ _]. apply ok_free_frag.
Qed.

(** The copies stay inside the datagram. *)
Lemma ok_frag_fill l buf :
  Forall frag_ok' l -> Forall (fun f => fr_offset f + fr_len f <= Z.of_nat (length buf)) l ->
  bytes_ok buf -> ok (frag_fill buf l) bytes_ok.
Proof.
  intros Hl. revert buf. induction Hl as [|f l (Hf1&Hf2&Hf3) Hl IH]; intros buf He Hb;
    cbn [frag_fill]; [by apply ok_ret|].
  apply Forall_cons in He as [Hfe He].
  obind ok_assert as _ _; [by apply Z.leb_le|]. olift d Hd. apply bytes_fetch in Hd as [Hd _]; [|done].
  olift b Hb'. apply IH.
  - apply length_store in Hb'; [|done]. by rewrite Hb'.
  - by eapply bytes_store.
Qed.

(** The walk of [fragmented_tryfinish]: behind [pre], every fragment ends where
    the next begins. *)
Lemma ok_frag_finish p l : forall pre,
  Forall frag_ok' (pre ++ l) ->
  (forall f l', l = f :: l' -> Forall (fun g => fr_offset g + fr_len g <= fr_offset f) pre) ->
  ok (frag_finish p (pre ++ l) l) (fun _ => True).
Proof.
  induction l as [|f l IH]; intros pre Hok Hpre; cbn [frag_finish]; [by apply ok_skip|].
  specialize (Hpre f l eq_refl).
  assert (Hf : frag_ok' f) by (apply Forall_app in Hok as [_ Hok]; exact (Forall_inv Hok)).
  destruct Hf as (Hf1&Hf2&Hf3).
  assert (He : Forall (fun g => fr_offset g + fr_len g <= fr_offset f + fr_len f) (pre ++ [f])).
  { apply Forall_app; split; [|by apply Forall_singleton]. eapply Forall_impl; [exact Hpre|]. cbn. lia. }
  destruct l as [|g l].
  - case_match; [|by apply ok_skip].
    obind ok_frag_fill as buf Hb.
    + done.
    + eapply Forall_impl; [exact He|]. cbn. intros a Ha. rewrite length_replicate. lia.
    + apply Forall_replicate, is_byte_u8.
    + obind ok_rd_frag as inc Hinc. obind ok_ipv4_dispatch as _ _; [done|by apply entry_ip_ok|].
      obind ok_fragmented_free as _ _. case_match; [by apply ok_ret|apply ok_undefined].
  - case_match; [by apply ok_skip|]. case_match; [apply ok_fragmented_free|]. zbool.
    replace (pre ++ f :: g :: l) with ((pre ++ [f]) ++ g :: l) in * by (by rewrite <- app_assoc).
    apply IH; [done|]. intros ? ? [= <- <-]. eapply Forall_impl; [exact He|]. cbn. lia.
Qed.

Lemma ok_tryfinish p : ok (fragmented_tryfinish p) (fun _ => True).
Proof.
  unfold fragmented_tryfinish. obind ok_rd_frag as inc (H1&_).
  destruct (fg_first inc) as [|f l] eqn:E; [apply ok_undefined|]. case_match; [by apply ok_skip|].
  apply (ok_frag_finish _ _ []); [done|]. intros ? ? _. constructor.
Qed.

Lemma inv_set_frag p inc s :
  entry_ok inc -> inv raw x s -> inv raw x (set n_frags <[p := inc]> s).
Proof. intros Hi []. constructor; try done. cbn. by apply map_Forall_insert_2. Qed.

(** The header is copied with the first fragment, when there is none yet. *)
Definition copy_header (p : ptr) (ip : ipv4) : N () :=
  inc ← nrd (T := fragmented) p;
  assert (match ip_header (fg_h inc) with None => true | Some _ => false end);;
  header ← deref (ip_header ip);
  headercpy ← lift (fetch header 0 (ip_hlen ip));
  nwr p (fun inc : fragmented => inc <| fg_h := ip <| ip_header := Some headercpy |> |>).

Lemma copy_header_inv p ip inc s :
  inv raw x s -> n_frags s !! p = Some inc -> ip_header (fg_h inc) = None ->
  (exists f, f ∈ fg_first inc /\ fr_offset f = 0) -> ip_ok ip -> 0 <= ip_hlen ip ->
  match copy_header p ip s with
  | Val _ s' => inv raw x s'
  | Exit _ _ => True
  | Fault f => f = Undefined
  end.
Proof.
  intros Hs Hp Hn Hf [Hm Hh] Hl. unfold copy_header, nrd, nwr, get_, deref.
  unfold mbind, st_bind. change (nstore s !! p) with (n_frags s !! p). rewrite Hp.
  cbn [mret st_ret]. rewrite Hn. cbn [assert mret st_ret].
  destruct (ip_header ip) as [h|] eqn:Eh; cbn; [|done].
  destruct (fetch h 0 (ip_hlen ip)) as [c|y] eqn:Ec; cbn; [|by apply fetch_np in Ec].
  rewrite Hp. apply (inv_set_frag p); [|done].
  apply bytes_fetch in Ec as [Hc _]; [|by apply Hh].
  assert (Hinc : entry_ok inc) by exact (inv_frags _ _ _ Hs _ _ Hp). destruct Hinc as (H1&H2&_).
  split_and!; cbn; try done. by intros ? [= <-].
Qed.

Lemma ok_bind_at {A B} (m : N A) (f : A -> N B) s Q :
  match m s with Val _ s' => inv raw x s' | Exit _ _ => True | Fault y => y = Undefined end ->
  (forall a, ok (f a) Q) ->
  match (m ≫= f) s with
  | Val a s' => inv raw x s' /\ Q a
  | Exit _ _ => True
  | Fault y => y = Undefined
  end.
Proof. unfold mbind, st_bind. destruct (m s); [|done..]. intros Hs Hf. by apply Hf. Qed.

Lemma nrd_cases p s :
  (exists inc, n_frags s !! p = Some inc /\ nrd (T := fragmented) p s = Val inc s) \/
  nrd (T := fragmented) p s = Fault Undefined.
Proof.
  unfold nrd, get_, deref, mbind, st_bind. change (nstore s !! p) with (n_frags s !! p).
  destruct (n_frags s !! p) as [inc|]; [left; by exists inc|by right].
Qed.

Lemma bind_fault {A B} (m : N A) (f : A -> N B) s y : m s = Fault y -> (m ≫= f) s = Fault y.
Proof. unfold mbind, st_bind. by intros ->. Qed.

(** Taking a fragment in. *)
Lemma ok_tryinsert payload plen ip :
  0 <= plen -> bytes_ok payload -> ip_ok ip -> 0 <= ip_hlen ip ->
  ok (fragmented_tryinsert payload plen ip) (fun _ => True).
Proof.
  intros Hplen Hpl Hip Hhl. unfold fragmented_tryinsert. obind ok_fragmented_find as p _.
  set (off := Z.land _ FragOff * 8). set (last := negb _). cbv zeta.
  assert (0 <= Z.land (ip_fraginfo ip) FragOff) by (apply Z.land_nonneg; right; unfold FragOff; lia).
  assert (0 <= off) by lia. clearbody off last.
  intros s Hs. destruct (nrd_cases p s) as [(inc&Ep&Hr)|Hr];
    [rewrite (bind_eq _ _ _ _ _ Hr)|by rewrite (bind_fault _ _ _ _ Hr)].
  assert (Hinc : entry_ok inc) by (by eapply inv_frags).
  destruct (frag_insert (fg_first inc) (mkFrag plen off last [])) as [l0|] eqn:E0;
    [|by apply ok_skip].
  destruct (fetch payload 0 plen) as [data|y] eqn:Ed; [|by apply fetch_np in Ed as ->].
  rewrite (bind_eq _ _ _ _ _ (eq_refl : lift (Ok data) s = Val data s)).
  apply bytes_fetch in Ed as [Hdb Hdl]; [|done].
  set (frag := mkFrag plen off last data).
  assert (Hfr : frag_ok' frag) by (split_and!; cbn; [rewrite Hdl; lia|lia|done]).
  destruct (frag_insert (fg_first inc) frag) as [l|] eqn:E;
    [|by rewrite (frag_insert_key _ frag (mkFrag plen off last [])) in E by done; congruence].
  set (inc1 := mkFragmented (fg_h inc) l).
  assert (Hs1 : inv raw x (set n_frags <[p := inc1]> s)).
  { apply inv_set_frag; [|done]. by eapply entry_insert; [..|left]. }
  match goal with |- match (nwr p ?g ≫= ?k) s with _ => _ end =>
    assert (Hw : nwr (T := fragmented) p g s = Val () (set n_frags <[p := inc1]> s)) end.
  { unfold nwr, get_, deref. unfold mbind, st_bind. change (nstore s !! p) with (n_frags s !! p).
    rewrite Ep. cbn. by rewrite E. }
  rewrite (bind_eq _ _ _ _ _ Hw). apply ok_bind_at; [|intros _; apply ok_tryfinish].
  destruct (off =? 0) eqn:E2; [|done]. zbool.
  apply (copy_header_inv p ip inc1); try done.
  - cbn. by rewrite lookup_insert_eq.
  - cbn. destruct (ip_header (fg_h inc)) as [h|] eqn:Eh; [|done]. exfalso.
    destruct Hinc as (_&Ha&Hz&_). destruct Hz as (g&Hg&Hg0); [by rewrite Eh|].
    by apply (frag_insert_zero _ _ _ g E Ha).
  - exists frag. split; [|done]. exact (proj1 (frag_insert_in _ _ _ E)).
Qed.

(** ** Packets and frames *)

Lemma ok_ipv4_parse buf len ether :
  bytes_ok buf -> macptr_ok (e_src ether) -> ok (ipv4_parse buf len ether) (fun _ => True).
Proof.
  intros Hb He. unfold ipv4_parse. olift b0 Hb0. case_match; [by apply ok_skip|].
  set (hl := Z.land b0 15 * 4). olift totlen Htl. cbv zeta. case_match eqn:Et; [by apply ok_skip|].
  olift srcip Hsrc. olift dstip Hdst. olift ident Hid. olift fi Hfi. olift pr Hpr. cbv zeta.
  assert (0 <= Z.land b0 15) by (apply Z.land_nonneg; right; unfold FragOff; lia). zbool.
  case_match; [|case_match; [by apply ok_skip|]].
  - apply ok_tryinsert; cbn; [lia|by apply bytes_advance| |lia]. split; [done|]. by intros ? [= <-].
  - apply ok_ipv4_dispatch; [by apply bytes_advance|]. split; [done|]. by intros ? [= <-].
Qed.

Lemma ok_ether_parse buf len : bytes_ok buf -> ok (ether_parse buf len) (fun _ => True).
Proof.
  intros Hb. unfold ether_parse. olift ty Hty. cbv zeta.
  eapply (ok_bind _ _ _ (fun _ => True)); [|intros _ _].
  { unfold ether_readers. oget. eapply ok_bind; [apply ok_forM; intros; apply ok_respond_bytes|].
    intros _ _. apply ok_modify. intros. by apply inv_queue. }
  case_match; [apply ok_ipv4_parse; [by apply bytes_advance|done]|].
  case_match; [apply ok_arp_parse; by apply bytes_advance|by apply ok_skip].
Qed.

Lemma ok_receive frame :
  bytes_ok frame -> Z.of_nat (length frame) <= 4096 -> ok (receive frame) (fun _ => True).
Proof.
  intros Hf Hl. unfold receive.
  eapply ok_bind; [apply ok_modify; intros; by apply inv_rx_splice|intros _ _].
  eapply ok_bind; [apply (ok_gets _ n_rxbuf bytes_ok); intros s Hs; apply (inv_rx _ _ _ Hs)|intros buf Hb].
  by apply ok_ether_parse.
Qed.
End recv.

(** ** The ARP device *)

(** The pieces of [arp_fmt]: the address and the six bytes. *)
Definition arp_pieces (ip : Z) (mac : list Z) : list piece :=
  let hex w z := Num (mkSpec true w None false) Mint Cx z in
  match mac with
  | [a; b; c; d; e; f] =>
      [hex 8 ip; Lit [9]; hex 2 a; Lit [58]; hex 2 b; Lit [58]; hex 2 c; Lit [58];
       hex 2 d; Lit [58]; hex 2 e; Lit [58]; hex 2 f; Lit [10]]
  | _ => []
  end.

Lemma arp_text ip mac :
  length mac = 6%nat ->
  exists r, text arp_fmt (VInt <$> ip :: mac) = Ok (r, render (arp_pieces ip mac)).
Proof.
  destruct mac as [|a [|b [|c [|d [|e [|f [|]]]]]]]; try done. intros _.
  destruct (text_renders (arp_pieces ip [a; b; c; d; e; f])) as [r Hr].
  - assert (Hspec : forall w z, 0 <= w < 2 ^ 31 -> piece_ok (Num (mkSpec true w None false) Mint Cx z)).
    { intros w z Hw. cbn. repeat split; cbn; try lia. unfold u32.
      pose proof (Z.mod_pos_bound z (2 ^ 32) ltac:(lia)). lia. }
    repeat (apply Forall_cons; split; [first [apply Hspec; lia|decide_now]|]). apply Forall_nil, I.
  - exists r. exact Hr.
Qed.

(** The test call of [arp_fsread]: lines have 27 characters. *)
Lemma arp_linelen :
  vsnprintf None 0 arp_fmt (VInt <$> [0; 1; 2; 3; 4; 5; 6]) = Ok (27, None).
Proof. vm_compute. reflexivity. Qed.

Lemma arp_seek_ok cache n offset ip mac off :
  0 < n -> 0 <= offset -> Forall (fun e => mac_ok e.2) cache ->
  arp_seek cache n offset = Some (ip, mac, off) -> mac_ok mac /\ 0 <= off < n.
Proof.
  intros Hn. revert offset. induction cache as [|e cache IH]; intros offset Ho Hc; [done|].
  cbn. apply Forall_cons in Hc as [He Hc]. case_match eqn:E; zbool.
  - apply IH; [lia|done].
  - destruct e as [ip' mac']. intros [= <- <- <-]. split; [done|lia].
Qed.

(** ** Requests *)

(** Splits off the step in front. *)
Ltac ores := first [apply ok_respond|apply ok_skip; exact I].

Section fs.
Context {ENV : Env} {raw : list Z -> Prop}.
Local Abbreviation ok := (ok raw None).

Lemma ok_arp_fsread h offset : ok (arp_fsread h offset) (fun _ => True).
Proof.
  unfold arp_fsread. rewrite arp_linelen.
  eapply (ok_bind _ _ _ (fun r => r = (27, None))); [by apply ok_ret|]. intros [n o] [= -> ->].
  obind ok_assert as _ _; [done|]. case_match eqn:E; [apply ok_respond|]. zbool.
  eapply ok_bind; [apply (ok_gets _ arpcache (Forall (fun e => mac_ok e.2)));
    intros s Hs; apply (inv_arp _ _ _ Hs)|intros cache Hc].
  destruct (arp_seek _ _ _) as [[[ip mac] off]|] eqn:Es; [|apply ok_respond].
  apply arp_seek_ok in Es as [Hm Hoff]; [|lia..|done].
  obind ok_assert as _ _; [zbool; lia|].
  destruct (arp_text ip mac) as [r Hr]; [apply Hm|].
  destruct (vsnprintf_text (replicate 28 0) 28 _ _ _ _ ltac:(cbn; lia) ltac:(cbn; lia) Hr) as [-> _].
  eapply (ok_bind _ _ _ (fun _ => True)); [by apply ok_ret|]. intros [r' buf] _.
  obind ok_deref as b _. apply ok_respond_bytes.
Qed.

Lemma ok_arp_fswrite buf len offset : ok (arp_fswrite buf len offset) (fun _ => True).
Proof.
  unfold arp_fswrite. case_match; [by apply ok_ret|]. olift txt Htxt. olift tmp Htmp. olift r Hr.
  destruct r as [ip|]; [|by apply ok_ret]. obind ok_arp_request as _ _. by apply ok_ret.
Qed.

Lemma ok_is_str buf i s : ok (is_str buf i s) (fun _ => True).
Proof. unfold is_str. olift c Hc. by apply ok_ret. Qed.

Lemma ok_next_token y : ok (next_token y) (fun _ => True).
Proof. eapply ok_mono; [apply ok_lift; auto with np|done]. Qed.

Lemma ok_next_ip y : ok (next_ip y) (fun _ => True).
Proof.
  unfold next_ip. obind ok_next_token as [[buf save] t] _. olift ip Hip. by apply ok_ret.
Qed.

Lemma ok_next_port y : ok (next_port y) (fun _ => True).
Proof.
  unfold next_port. obind ok_next_token as [[buf save] t] _. case_match; [|by apply ok_ret].
  olift r Hr. destruct r. by apply ok_ret.
Qed.

Lemma ok_new_h t reqh : ok (new_handle t reqh) (fun _ => True).
Proof. apply ok_new_handle; [|done]. unfold handle_ok. cbn. lia. Qed.

Lemma ok_fs_listen reqh y : ok (fs_listen reqh y) (fun _ => True).
Proof.
  unfold fs_listen. obind ok_next_token as [[buf save] t] _. case_match; [|ores].
  obind ok_is_str as udp _. obind ok_is_str as tcp _. case_match; [|ores].
  obind ok_next_port as port _. case_match; [|ores]. obind ok_new_h as h _.
  case_match; [apply ok_udp_listen|apply ok_tcp_listen].
Qed.

Lemma ok_fs_connect_udp reqh ip port : ok (fs_connect_udp reqh ip port) (fun _ => True).
Proof.
  unfold fs_connect_udp. obind ok_new_h as h _. obind ok_udpc_new as c _. case_match.
  - eapply ok_bind; [by apply ok_wr_handle|intros _ _]. ores.
  - obind ok_free_handle as _ _. ores.
Qed.

Lemma ok_fs_connect reqh y : ok (fs_connect reqh y) (fun _ => True).
Proof.
  unfold fs_connect. obind ok_next_ip as [[buf save] ip] _. case_match; [|ores].
  obind ok_next_token as [[buf' save'] t] _. case_match; [|ores].
  obind ok_is_str as tcp _. obind ok_is_str as udp _. case_match; [|ores].
  obind ok_next_port as port _. case_match; [|ores]. case_match; [|apply ok_fs_connect_udp].
  obind ok_new_h as h _. apply ok_tcp_connect.
Qed.

Lemma ok_fs_open_conn reqh buf : ok (fs_open_conn reqh buf) (fun _ => True).
Proof.
  unfold fs_open_conn. olift r Hr. destruct r as [[buf' save] v]. case_match; [|ores].
  obind ok_next_ip as [[buf1 save1] ip] _. case_match; [|ores].
  case_match; [obind ok_warnx as _ _; ores|].
  obind ok_is_str as l _. obind ok_is_str as c _.
  case_match; [apply ok_fs_listen|]. case_match; [apply ok_fs_connect|ores].
Qed.

Lemma ok_fs_open reqh buf flags : ok (fs_open reqh buf flags) (fun _ => True).
Proof.
  unfold fs_open. olift c Hc. case_match; [ores|]. obind ok_is_str as r _. obind ok_is_str as a _.
  case_match; [obind ok_new_h as h _; ores|]. case_match; [obind ok_new_h as h _; ores|].
  case_match; [ores|apply ok_fs_open_conn].
Qed.

Lemma ok_recv_enqueue h reqh cap : 0 <= cap -> ok (recv_enqueue h reqh cap) (fun _ => True).
Proof.
  intros Hcap. unfold recv_enqueue. obind ok_rd_handle as hd _. case_match; [ores|].
  assert (Hrest : forall t, ok (nwr h (fun hd : handle => hd <| h_reqh := reqh |>);;
            match t with
            | H_TCP => nwr h (fun hd : handle => hd <| h_tcp_readcap := cap |>);; tcp_recv_callback h
            | _ => skip
            end) (fun _ => True)).
  { intros t. eapply ok_bind; [by apply ok_wr_handle|intros _ _]. destruct t; try ores.
    eapply ok_bind; [by apply ok_wr_handle|intros _ _]. apply ok_recv_callback. }
  destruct (h_type hd), (h_udp_rx hd) as [rx|];
    try first [exact (Hrest H_ETHER)|exact (Hrest H_TCP)|exact (Hrest H_UDP)|exact (Hrest H_ARP)].
  obind ok_rd_sq as q _. obind ok_respond_bytes as _ _.
  eapply ok_bind; [by apply ok_wr_handle|intros _ _]. case_match; [apply ok_free_sq|ores].
Qed.

Lemma ok_fs_read reqh q : 0 <= q_capacity q -> ok (fs_read reqh q) (fun _ => True).
Proof.
  intros Hc. unfold fs_read. obind ok_rd_handle as hd _. case_match; [ores|].
  destruct (h_type hd); [apply ok_modify; intros; by apply inv_queue|by apply ok_recv_enqueue..|].
  apply ok_arp_fsread.
Qed.

Lemma ok_fs_write reqh buf q :
  bytes_ok buf -> (forall frame, fetch buf 0 (q_len q) = Ok frame -> raw frame) ->
  ok (fs_write reqh buf q) (fun _ => True).
Proof.
  intros Hb Hraw. unfold fs_write. obind ok_rd_handle as hd _. case_match; [ores|]. destruct (h_type hd).
  - olift frame Hf. obind ok_emit as _ _; [right; auto|]. ores.
  - obind ok_deref as c _. unfold tcpc_send. obind ok_tcpc_sendraw as _ _; [done|]. ores.
  - obind ok_deref as c _. obind ok_udpc_send as _ _; [done|]. ores.
  - obind ok_arp_fswrite as r _. ores.
Qed.
End fs.

(** Closing: the connection loses its user before the handle is freed. *)
Section close.
Context {ENV : Env} {raw : list Z -> Prop}.

Lemma inv_weaken h s : inv raw None s -> inv raw (Some h) s.
Proof.
  intros []. constructor; try done. intros c conn Hc Hu.
  destruct (inv_closed c conn Hc Hu) as [?|]; [by left|done].
Qed.

Lemma inv_close h hd s :
  inv raw (Some h) s -> n_handles s !! h = Some hd -> inv raw None (set n_handles (delete h) s).
Proof.
  intros [] Hh. constructor; try done; cbn.
  - by apply map_Forall_delete.
  - intros g gd c conn [? Hl]%lookup_delete_Some. by eapply inv_link.
  - intros c conn Hc Hu. left. destruct (inv_closed c conn Hc Hu) as [[? ?]|[= <-]].
    + split; [|done]. apply lookup_delete_None. by right.
    + split; [apply lookup_delete_eq|]. by apply inv_fresh_h in Hh as [? _].
  - intros g gd [? Hl]%lookup_delete_Some. by eapply inv_fresh_h.
Qed.

(** The user of a connection has not closed it while it has the handle. *)
Lemma not_uclosed h hd c conn s :
  inv raw None s -> n_handles s !! h = Some hd -> h_tcp_c hd = Some c -> n_tcp s !! c = Some conn ->
  t_uclosed conn = false.
Proof.
  intros [] Hh Hc Hconn. destruct (t_uclosed conn) eqn:E; [|done].
  destruct (inv_closed c conn Hconn E) as [[Hn _]|]; [|done].
  rewrite (inv_link h hd c conn Hh Hc Hconn) in Hn. congruence.
Qed.

Lemma inv_uclosed h hd c conn s :
  inv raw None s -> n_handles s !! h = Some hd -> h_tcp_c hd = Some c -> n_tcp s !! c = Some conn ->
  inv raw (Some h) (set n_tcp <[c := conn <| t_uclosed := true |>]> s).
Proof.
  intros [] Hh Hc Hconn. pose proof (inv_link h hd c conn Hh Hc Hconn) as Hcarg.
  constructor; try done; cbn.
  - apply map_Forall_insert_2; [|done]. exact (inv_tcp c conn Hconn).
  - intros g gd p pc Hg Hp. destruct (decide (p = c)) as [->|].
    + rewrite lookup_insert_eq. intros [= <-]. cbn. by eapply inv_link.
    + rewrite lookup_insert_ne by done. by eapply inv_link.
  - intros p pc. destruct (decide (p = c)) as [->|].
    + rewrite lookup_insert_eq. intros [= <-] _. right. cbn. by rewrite Hcarg.
    + rewrite lookup_insert_ne by done. intros Hp Hu.
      destruct (inv_closed p pc Hp Hu); [by left|done].
  - intros p pc. destruct (decide (p = c)) as [->|]; [intros _; by eapply inv_fresh_t|].
    rewrite lookup_insert_ne by done. by eapply inv_fresh_t.
Qed.

(** What is asked of a computation between the two states. *)
Definition closes (h : ptr) (m : N ()) (s : net) : Prop :=
  match m s with
  | Val _ s' => inv raw (Some h) s'
  | Exit _ _ => True
  | Fault f => f = Undefined
  end.

Lemma ok_closes h m s : ok raw (Some h) m (fun _ => True) -> inv raw (Some h) s -> closes h m s.
Proof. intros Hm Hs. specialize (Hm s Hs). unfold closes. destruct (m s); [apply Hm|done..]. Qed.

Lemma close_tcp h hd c s :
  inv raw None s -> n_handles s !! h = Some hd -> h_tcp_c hd = Some c -> closes h (tcpc_close c) s.
Proof.
  intros Hs Hh Hc. unfold tcpc_close, closes.
  destruct (n_tcp s !! c) as [conn|] eqn:E.
  - assert (Hr : nrd (T := tcp_conn) c s = Val conn s).
    { unfold nrd, get_, deref, mbind, st_bind. change (nstore s !! c) with (n_tcp s !! c). by rewrite E. }
    rewrite (bind_eq _ _ _ _ _ Hr). rewrite (not_uclosed h hd c conn s) by done.
    rewrite (bind_eq _ _ _ _ _ (eq_refl : assert (negb false) s = Val () s)).
    pose proof (inv_uclosed h hd c conn s Hs Hh Hc E) as Hs1.
    match goal with |- match (nwr c ?g ≫= ?k) s with _ => _ end =>
      assert (Hw : nwr (T := tcp_conn) c g s =
        Val () (set n_tcp <[c := conn <| t_uclosed := true |>]> s)) end.
    { unfold nwr, get_, deref, mbind, st_bind. change (nstore s !! c) with (n_tcp s !! c). by rewrite E. }
    rewrite (bind_eq _ _ _ _ _ Hw). apply ok_closes; [|done].
    eapply (ok_bind _ _ _ (fun _ => True)); [|intros _ _; apply ok_tcpc_tryfree].
    case_match; [|by apply ok_skip]. obind ok_tcpc_sendraw as _ _; [apply bytes_nil|].
    apply ok_wr_tcp. intros o [? ?]. by split_and!.
  - assert (Hr : nrd (T := tcp_conn) c s = Fault Undefined).
    { unfold nrd, get_, deref, mbind, st_bind. change (nstore s !! c) with (n_tcp s !! c). by rewrite E. }
    by rewrite (bind_fault _ _ _ _ Hr).
Qed.
End close.

(** ** The whole stack *)

(** What the kernel passes on: frames of at most the 4096 bytes the buffer
    holds, buffers of bytes, no negative capacities. *)
Definition input_ok (i : input) : Prop :=
  match i with
  | Frame frame => bytes_ok frame /\ Z.of_nat (length frame) <= 4096
  | Request buf _ q => bytes_ok buf /\ 0 <= q_capacity q
  end.

(** What a user asked to be written to a device as it is. *)
Definition written_raw (ins : list input) (frame : list Z) : Prop :=
  exists buf reqh q, Request buf reqh q ∈ ins /\ q_op q = VFSOP_WRITE /\
    fetch buf 0 (q_len q) = Ok frame.

Section main.
Context {ENV : Env} (raw : list Z -> Prop).
Local Abbreviation ok := (ok raw None).

Lemma nrd_handle h s :
  (exists hd, n_handles s !! h = Some hd /\ nrd (T := handle) h s = Val hd s) \/
  nrd (T := handle) h s = Fault Undefined.
Proof.
  unfold nrd, get_, deref, mbind, st_bind. change (nstore s !! h) with (n_handles s !! h).
  destruct (n_handles s !! h) as [hd|]; [left; by exists hd|by right].
Qed.

Lemma ok_free_closed h reqh s :
  inv raw (Some h) s ->
  match (nfree (T := handle) h;; respond reqh RNull (-1)) s with
  | Val _ s' => inv raw None s' /\ True
  | Exit _ _ => True
  | Fault f => f = Undefined
  end.
Proof.
  intros Hs. destruct (n_handles s !! h) as [hd|] eqn:E.
  - assert (Hf : nfree (T := handle) h s = Val () (set n_handles (delete h) s)).
    { unfold nfree, get_, deref, mbind, st_bind. change (nstore s !! h) with (n_handles s !! h). by rewrite E. }
    rewrite (bind_eq _ _ _ _ _ Hf). apply ok_respond. by eapply inv_close.
  - assert (Hf : nfree (T := handle) h s = Fault Undefined).
    { unfold nfree, get_, deref, mbind, st_bind. change (nstore s !! h) with (n_handles s !! h). by rewrite E. }
    by rewrite (bind_fault _ _ _ _ Hf).
Qed.

Lemma ok_fs_close reqh q : ok (fs_close reqh q) (fun _ => True).
Proof.
  intros s Hs. unfold fs_close. destruct (nrd_handle (q_id q) s) as [(hd&Eh&Hr)|Hr];
    [rewrite (bind_eq _ _ _ _ _ Hr)|by rewrite (bind_fault _ _ _ _ Hr)].
  set (m := match h_type hd with H_TCP => _ | _ => _ end).
  assert (Hm : closes (raw := raw) (q_id q) m s).
  { subst m. destruct (h_type hd); try (apply ok_closes; [by apply ok_skip|by apply inv_weaken]).
    - unfold closes. destruct (h_tcp_c hd) as [c|] eqn:Ec; [|done]. by eapply close_tcp.
    - apply ok_closes; [|by apply inv_weaken]. obind ok_deref as c _. apply ok_udpc_close. }
  clearbody m. unfold closes in Hm. unfold mbind at 1, st_bind at 1.
  destruct (m s) as [u s1|[]|f]; [by apply ok_free_closed|done].
Qed.

Lemma ok_input i :
  input_ok i -> (forall frame, written_raw [i] frame -> raw frame) ->
  ok (handle_input i) (fun _ => True).
Proof.
  destruct i as [frame|buf reqh q]; cbn [input_ok handle_input].
  - intros [Hf Hl] _. by apply ok_receive.
  - intros [Hb Hc] Hraw. unfold fs_request. destruct (q_op q) eqn:Eop; try ores.
    + case_match; [|ores]. olift b Hb'. apply ok_fs_open.
    + by apply ok_fs_read.
    + apply ok_fs_write; [done|]. intros frame Hf. apply Hraw. exists buf, reqh, q.
      split_and!; [by left|done|done].
    + apply ok_fs_close.
Qed.

Lemma ok_main ins :
  Forall input_ok ins -> (forall frame, written_raw ins frame -> raw frame) ->
  ok (netstack_main ins) (fun _ => True).
Proof.
  intros Hins Hraw. unfold netstack_main. oget. obind ok_arp_request as _ _.
  apply ok_forM. intros i Hi. apply ok_input; [by eapply Forall_forall in Hins|].
  intros frame (buf&reqh&q&Hq&?). apply Hraw. exists buf, reqh, q. split; [|done].
  by apply list_elem_of_singleton in Hq as ->.
Qed.

Lemma inv_net0 ip gw : inv raw None (net0 ip gw).
Proof.
  constructor; try exact (map_Forall_empty _); try (intros * Hl; by rewrite lookup_empty in Hl);
    try constructor.
  - done.
  - decide_now.
  - apply length_replicate.
  - apply bytes_zero.
  - intros h hd c conn Hh. cbn in Hh. by rewrite lookup_empty in Hh.
Qed.
End main.

(** C13: The invariant of the network stack holds in every state it can reach.
    For any addresses and any sequence of received frames and of requests, if
    the stack gets through them then the objects it holds are well formed:
    MAC addresses have six bytes, receive rings are consistent, the fragments
    of a datagram are in strictly ascending order and its header is there only
    with the first one, an open file's connection names the file as its user, a
    connection its user has closed has no file any more, and every frame it
    built is a list of 60 to 1514 bytes. *)
Theorem netstack_invariant (ENV : Env) ins ip gw s :
  Forall input_ok ins -> netstack_main ins (net0 ip gw) = Val () s ->
  inv (written_raw ins) None s.
Proof.
  intros Hins H. pose proof (ok_main (written_raw ins) ins Hins (fun _ => id) _
    (inv_net0 _ ip gw)) as Hok. rewrite H in Hok. apply Hok.
Qed.

(** C10: No assertion of the network stack fails, and none of its loops runs on:
    whatever frames arrive and whatever its users ask, in any order, handling
    them ends, or a step is undefined in C (a missing object is used).  In
    particular the assertions of the reassembly (fragments end inside the
    datagram, its header was not copied before), of [tcpc_close] (a connection
    is closed once) and of [arp_fsread] (the line fits its buffer) hold. *)
Theorem netstack_asserts_hold (ENV : Env) ins ip gw :
  Forall input_ok ins ->
  (exists s, netstack_main ins (net0 ip gw) = Val () s) \/
  netstack_main ins (net0 ip gw) = Fault Undefined.
Proof.
  intros Hins. pose proof (ok_main (written_raw ins) ins Hins (fun _ => id) _
    (inv_net0 _ ip gw)) as Hok.
  destruct (netstack_main ins (net0 ip gw)) as [[] s|[]|f]; [left; by exists s|right; by rewrite Hok].
Qed.

(** C32: Every frame the network stack puts on the wire is well typed: it has
    between 60 and 1514 bytes, all of them bytes, or it is what a user wrote to
    an open file, byte for byte. *)
Theorem netstack_frames (ENV : Env) ins ip gw s frame :
  Forall input_ok ins -> netstack_main ins (net0 ip gw) = Val () s -> Sent frame ∈ n_out s ->
  (60 <= Z.of_nat (length frame) <= 1514 /\ Forall is_byte frame) \/ written_raw ins frame.
Proof.
  intros Hins H Hf. pose proof (ok_main (written_raw ins) ins Hins (fun _ => id) _
    (inv_net0 _ ip gw)) as Hok. rewrite H in Hok. destruct Hok as [[] _].
  eapply Forall_forall in Hf; [|exact inv_out]. exact Hf.
Qed.

(** A peer asks for our address; a user opens [/arp] and reads the line the
    request has left there, then writes a frame to [/raw]. *)
Definition arp_question : list Z :=
  MAC_BROADCAST ++ peer_mac ++ be16 ET_ARP ++ be16 1 ++ be16 ET_IPv4 ++ [6; 4] ++ be16 1 ++
  peer_mac ++ be32 0x0a000005 ++ replicate 6 0 ++ be32 0x0a000002 ++ replicate 18 0.

Definition filled_buf (l : list Z) : list Z := l ++ replicate (4096 - length l) 0.

Definition some_inputs : list input :=
  [ Frame arp_question;
    Request (filled_buf [47; 97; 114; 112]) 1 (mkUfs VFSOP_OPEN 4 0 1 0 0);
    Request (filled_buf []) 2 (mkUfs VFSOP_READ 0 4096 1 0 0);
    Request (filled_buf [47; 114; 97; 119]) 3 (mkUfs VFSOP_OPEN 4 0 1 0 0);
    Request (filled_buf arp_question) 4 (mkUfs VFSOP_WRITE 60 0 2 0 0) ].

Lemma some_inputs_ok : Forall input_ok some_inputs.
Proof.
  repeat (apply Forall_cons; split); [..|apply Forall_nil, I]; cbn [input_ok q_capacity].
  all: split; [|first [lia|apply Z.leb_le; vm_compute; reflexivity]].
  all: first [apply bytes_app; [|apply bytes_zero]|idtac]; decide_now.
Qed.

(** The run of these inputs: four frames, the last of them the user's. *)
Lemma some_run :
  exists s, @netstack_main some_env some_inputs sender0 = Val () s /\
    n_out s !! 5%nat = Some (Sent arp_question) /\
    exists line, n_out s !! 3%nat = Some (Responded 2 (RBytes line) 28).
Proof. eexists. split; [vm_compute; reflexivity|]. split; [reflexivity|eexists; reflexivity]. Qed.

Lemma netstack_invariant_witness :
  exists s, @netstack_main some_env some_inputs sender0 = Val () s /\
    inv (written_raw some_inputs) None s.
Proof.
  destruct some_run as (s&H&_). exists s. split; [exact H|].
  exact (netstack_invariant some_env some_inputs 0x0a000002 0x0a000001 s some_inputs_ok H).
Defined.

Lemma netstack_asserts_hold_witness :
  (exists s, @netstack_main some_env some_inputs sender0 = Val () s) \/
  @netstack_main some_env some_inputs sender0 = Fault Undefined.
Proof. exact (netstack_asserts_hold some_env some_inputs 0x0a000002 0x0a000001 some_inputs_ok). Defined.

Lemma netstack_frames_witness :
  (60 <= Z.of_nat (length arp_question) <= 1514 /\ Forall is_byte arp_question) \/
  written_raw some_inputs arp_question.
Proof.
  destruct some_run as (s&H&Hout&_).
  exact (netstack_frames some_env some_inputs 0x0a000002 0x0a000001 s arp_question some_inputs_ok H
    (list_elem_of_lookup_2 _ _ _ Hout)).
Defined.
