(* ===== verification/Pcpy.v ===== *)
(** * Pcpy

    Copies between address spaces ([src/src/kernel/pcpy.c]): an iterator over
    the physical fragments of a virtual range, and the copy that runs two of
    them in lock step.  The kernel's own buffers are reached through the
    identity map; the model stages them above every address a page table entry
    can hold. *)

From S2P Require Import Prelude Monad Mem Malloc Paging KState.

(** [struct virt_iter] *)
Record virt_iter := mkIter {
  frag : Z;
  frag_len : Z;
  prior : Z;
  error : bool;
  it_virt : Z;
  it_remaining : Z;
  it_pages : Z;
  it_user : bool;
  it_writeable : bool;
}.
#[export] Instance virt_iter_settable : Settable virt_iter := fun i =>
  mkIter (frag i) (frag_len i) (prior i) (error i) (it_virt i) (it_remaining i)
    (it_pages i) (it_user i) (it_writeable i).

Definition virt_iter_new (virt length pages : Z) (user writeable : bool) : virt_iter :=
  mkIter 0 0 0 false virt length pages user writeable.

(** The answer of [virt_iter_next] and the iterator it leaves. *)
Definition virt_iter_next (i : virt_iter) : M (bool * virt_iter) :=
  let partial := it_remaining i in
  let i := i <| prior ::= Z.add (frag_len i) |> in
  if partial <=? 0 then mret (false, i)
  else
    let advance partial phys :=
      mret (true, i <| frag := phys |> <| frag_len := partial |>
                    <| it_remaining ::= fun r => r - partial |>
                    <| it_virt ::= fun v => u64 (v + partial) |>) in
    if negb (it_pages i =? 0) then
      let to_page := PAGE_SIZE - Z.land (it_virt i) PAGE_MASK in
      let partial := Z.min partial to_page in
      phys ← pagedir_virt2phys (it_pages i) (it_virt i) (it_user i) (it_writeable i);
      if phys =? 0 then mret (false, i <| frag := 0 |> <| error := true |>)
      else advance partial phys
    else advance partial (it_virt i).

(** One turn of the loop of [virt_cpy]; [inr] is a [break]. *)
Definition refill (i : virt_iter) : M (bool * virt_iter) :=
  if frag_len i <=? 0 then virt_iter_next i else mret (true, i).

Definition skip (partial : Z) (i : virt_iter) : virt_iter :=
  i <| frag_len ::= fun l => l - partial |> <| frag ::= Z.add partial |>.

Definition virt_cpy_turn (x : virt_iter * virt_iter * Z) :
    M (virt_iter * virt_iter * Z + virt_iter * virt_iter * Z) :=
  let '(d, s, total) := x in
  '(ok, d) ← refill d;
  if negb ok then mret (inr (d, s, total))
  else
    '(ok, s) ← refill s;
    if negb ok then mret (inr (d, s, total))
    else
      let partial := Z.min (frag_len s) (frag_len d) in
      modify (fun a => set_heap (memcpy (heap a) (frag d) (frag s) (Z.to_nat partial)) a);;
      mret (inl (skip partial d, skip partial s, total + partial)).

(** Every turn but the last copies at least a byte and exhausts a fragment. *)
Definition virt_cpy (dest_pages dest src_pages src length : Z) : M Z :=
  let d := virt_iter_new dest length dest_pages true true in
  let s := virt_iter_new src length src_pages true false in
  '(d, s, total) ← while_ (Z.to_pos (length + 1)) virt_cpy_turn (d, s, 0);
  assert (if error s || error d then negb (total =? length) else total =? length);;
  mret total.

(** Above [addr_extract] of any entry plus a page. *)
Definition KOBJ_BASE : Z := 2 ^ 52.

Definition stage (l : list Z) : M () :=
  modify (fun a => set_heap (write_bytes (heap a) KOBJ_BASE l) a).

(** Copies from and to a kernel buffer are within the buffer. *)
Definition pcpy_to (p : ptr) (dst : Z) (src : list Z) (len : Z) : K Z :=
  pages ← getf p_pages p;
  if pages =? 0 then mret 0
  else if Z.of_nat (length src) <? len then fail Undefined
  else on_alloc (stage src;; virt_cpy pages dst 0 KOBJ_BASE len).

(** The number of bytes read and the bytes. *)
Definition pcpy_from (p : ptr) (src len : Z) : K (Z * list Z) :=
  pages ← getf p_pages p;
  if pages =? 0 then mret (0, [])
  else
    n ← on_alloc (virt_cpy 0 KOBJ_BASE pages src len);
    a ← getp k_alloc;
    mret (n, bytes_at (heap a) KOBJ_BASE (Z.to_nat n)).

Definition pcpy_bi (dstp : ptr) (dst : Z) (srcp : ptr) (src len : Z) : K Z :=
  dpages ← getf p_pages dstp;
  spages ← getf p_pages srcp;
  if dpages =? 0 then mret 0
  else if spages =? 0 then mret 0
  else on_alloc (virt_cpy dpages dst spages src len).
