(* ===== verification/Copy.v ===== *)
(** * Copy

    What [virt_cpy] copies.  A pair of address spaces is seen as the functions
    from the index of a byte in the copied range to its physical address, 0
    where the access is not allowed; [virt_cpy] copies the longest prefix on
    which both are defined. *)

From S2P Require Import Prelude Monad Mem Malloc Paging PageTable KState Pcpy.

(** ** Translation of addresses *)

(** The byte at [v] of an address space, 0 if the access is not allowed; the
    address itself for [NULL], physical memory. *)
Definition xlat (h : mem) (pages v : Z) (u w : bool) : Z :=
  if pages =? 0 then v
  else if addr_canonical v then translate (leaf h pages v) v u w else 0.

Lemma virt2phys_any a dir v u w :
  tree a dir -> dir <> 0 -> pagedir_virt2phys dir v u w a = Val (xlat (heap a) dir v u w) a.
Proof.
  intros Htree Hd. unfold xlat. rewrite (proj2 (Z.eqb_neq dir 0)) by done.
  destruct (addr_canonical v) eqn:E; [by apply virt2phys_val|].
  unfold pagedir_virt2phys, get_entry. by rewrite E.
Qed.

Lemma addr_extract_nonneg e : 0 <= addr_extract e.
Proof.
  unfold addr_extract, address. apply Z.shiftl_nonneg. by apply (bits_range e 12 40).
Qed.

Lemma translate_nonneg e v u w : 0 <= translate e v u w.
Proof.
  unfold translate. pose proof (addr_extract_nonneg e).
  assert (0 <= Z.land v PAGE_MASK) by (apply Z.land_nonneg; right; done).
  repeat case_match; lia.
Qed.

(** Inside a page: same entry, consecutive addresses. *)
Lemma bits_page v v' lo :
  v / PAGE_SIZE = v' / PAGE_SIZE -> 12 <= lo -> bits v lo 9 = bits v' lo 9.
Proof.
  intros E Hlo. rewrite !bits_div by lia. replace lo with (12 + (lo - 12)) by lia.
  rewrite Z.pow_add_r, <- !Z.div_div by lia. change (2 ^ 12) with PAGE_SIZE. by rewrite E.
Qed.

Lemma leaf_same_page h dir v v' : v / PAGE_SIZE = v' / PAGE_SIZE -> leaf h dir v = leaf h dir v'.
Proof.
  intros E. unfold leaf, path_of, v_pml4, v_pdpt, v_pd, v_pt.
  by rewrite !(bits_page v v' _ E) by lia.
Qed.

Lemma canonical_same_page v v' :
  v / PAGE_SIZE = v' / PAGE_SIZE -> addr_canonical v = addr_canonical v'.
Proof.
  intros E. unfold addr_canonical. rewrite !Z.shiftr_div_pow2 by lia.
  replace (2 ^ 48) with (PAGE_SIZE * 2 ^ 36) by done. by rewrite <- !Z.div_div, E by done.
Qed.

Lemma xlat_page h pages v u w k :
  0 <= v -> 0 <= k -> Z.land v PAGE_MASK + k < PAGE_SIZE -> pages <> 0 ->
  xlat h pages v u w <> 0 ->
  xlat h pages (v + k) u w = xlat h pages v u w + k.
Proof.
  change PAGE_MASK with (Z.ones 12). intros Hv Hk Hm Hp. rewrite Z.land_ones in Hm by lia.
  change (2 ^ 12) with PAGE_SIZE in Hm.
  assert (E : (v + k) / PAGE_SIZE = v / PAGE_SIZE)
    by (unfold PAGE_SIZE in *; Z.div_mod_to_equations; lia).
  unfold xlat. rewrite (proj2 (Z.eqb_neq pages 0)) by done.
  rewrite (canonical_same_page _ _ E). destruct (addr_canonical v); [|done].
  rewrite (leaf_same_page h pages _ _ E). unfold translate.
  destruct (negb (present _)); [done|]. destruct (u && _); [done|]. destruct (w && _); [done|].
  intros _. change PAGE_MASK with (Z.ones 12). rewrite !Z.land_ones by lia.
  change (2 ^ 12) with PAGE_SIZE.
  unfold PAGE_SIZE in *; Z.div_mod_to_equations; lia.
Qed.

(** ** Tables that a write does not touch *)

Section untouched.
Context (a : alloc) (h : mem) (dir : Z).
Context (Htree : tree a dir).
Context (Hsame : forall p t b, path_ok p -> tab (heap a) dir p = Some t ->
  t <= b < t + PAGE_SIZE -> ld h b = ld (heap a) b).

Let same_entry p t i : path_ok p -> tab (heap a) dir p = Some t -> idx i ->
  ldq h (entry t i) = ldq (heap a) (entry t i).
Proof.
  intros Hp Ht Hi. apply ldq_ext. intros b Hb. eapply Hsame; [done|done|].
  unfold entry, idx, PAGE_SIZE in *. lia.
Qed.

Lemma tab_untouched p : path_ok p -> tab h dir p = tab (heap a) dir p.
Proof.
  induction p as [|i p IH] using rev_ind; intros Hp; [done|].
  pose proof (path_ok_app _ _ Hp) as Hp'. rewrite !tab_snoc, IH by done.
  destruct (tab (heap a) dir p) as [t|] eqn:E; [|done].
  change (step h t i = step (heap a) t i). unfold step.
  by rewrite (same_entry p t i Hp' E (path_ok_last _ _ Hp)).
Qed.

Lemma leaf_untouched v : leaf h dir v = leaf (heap a) dir v.
Proof.
  unfold leaf. rewrite tab_untouched by apply path_of_ok.
  destruct (tab (heap a) dir (path_of v)) as [t|] eqn:E; [|done].
  eapply same_entry; [apply path_of_ok|exact E|]. apply idx_bits. lia.
Qed.

Lemma xlat_untouched v u w : xlat h dir v u w = xlat (heap a) dir v u w.
Proof. unfold xlat. by rewrite leaf_untouched. Qed.

Lemma tree_untouched : tree (set_heap h a) dir.
Proof.
  split.
  - intros p t Hp H. cbn [heap set_heap] in H. rewrite tab_untouched in H by done.
    exact (tree_page a dir Htree p t Hp H).
  - intros p q t Hp Hq H1 H2. cbn [heap set_heap] in H1, H2.
    rewrite tab_untouched in H1, H2 by done. by eapply tree_inj.
  - intros p t i Hp Hl Hi H. cbn [heap set_heap] in *. rewrite tab_untouched in H by done.
    rewrite (same_entry p t i Hp H Hi). by eapply tree_small.
Qed.
End untouched.

(** ** The iterators *)

Lemma set_heap_id a : set_heap (heap a) a = a.
Proof. by destruct a. Qed.

(** One range of virtual memory, as the code sees it while other memory is
    written: [same] describes the states of the heap that may occur. *)
Section range.
Context (a0 : alloc) (len pages base : Z) (u w : bool).
Context (same : mem -> Prop).

Definition byte_at (j : Z) : Z := xlat (heap a0) pages (u64 (base + j)) u w.

Definition range_ok : Prop :=
  if pages =? 0 then 0 < base /\ base + len <= 2 ^ 64
  else tree a0 pages /\ is_size base /\ len <= 2 ^ 64 /\
    forall h p t b, same h -> path_ok p -> tab (heap a0) pages p = Some t ->
      t <= b < t + PAGE_SIZE -> ld h b = ld (heap a0) b.

Definition iter_ok (i : virt_iter) (total : Z) : Prop :=
  (it_pages i = pages /\ it_user i = u /\ it_writeable i = w /\ error i = false) /\
  (0 <= total /\ 0 <= frag_len i /\ it_remaining i = len - total - frag_len i /\
   0 <= it_remaining i /\ it_virt i = u64 (base + total + frag_len i)) /\
  forall k, 0 <= k < frag_len i -> byte_at (total + k) = frag i + k /\ byte_at (total + k) <> 0.

Context (Hok : range_ok).

Lemma u64_shift x y : u64 (u64 x + y) = u64 (x + y).
Proof. word_lia. Qed.

(** A new fragment begins where the last one ended. *)
Lemma virt_iter_next_ok h i total :
  same h -> iter_ok i total -> frag_len i = 0 ->
  exists ok i', virt_iter_next i (set_heap h a0) = Val (ok, i') (set_heap h a0) /\
    if (ok : bool) then iter_ok i' total /\ 0 < frag_len i'
    else if error i' then total < len /\ byte_at total = 0 else total = len.
Proof.
  intros Hh ((Hp&Hu&Hw&He)&(H0&_&Hr&Hr0&Hv)&_) Hf. unfold virt_iter_next.
  rewrite Hf, !Z.add_0_r, ?Z.sub_0_r in *.
  destruct (it_remaining i <=? 0) eqn:E; zbool.
  { exists false. eexists. split; [reflexivity|]. cbn. rewrite He. lia. }
  cbn [it_pages set]. unfold set; cbn [it_pages it_virt it_user it_writeable it_remaining].
  rewrite Hp. unfold range_ok in Hok. destruct (pages =? 0) eqn:Ep; zbool; cbn [negb].
  - exists true. eexists. split; [reflexivity|]. split; [|cbn; lia].
    destruct Hok as [Hb Hbl].
    split; [done|]. cbn. split; [|].
    + rewrite Hv, u64_shift. split_and!; try lia.
    + intros k Hk. unfold byte_at, xlat. rewrite (proj2 (Z.eqb_eq pages 0)) by done.
      rewrite Hv, !u64_small by (unfold is_size; lia). lia.
  - destruct Hok as (Htree&Hb&Hl&Htabs).
    assert (Htree' : tree (set_heap h a0) pages)
      by (apply (tree_untouched a0 h pages Htree); intros; by eapply Htabs).
    assert (Hx : forall v, xlat h pages v u w = xlat (heap a0) pages v u w)
      by (intros v; apply (xlat_untouched a0 h pages); intros; by eapply Htabs).
    unfold mbind, st_bind. rewrite Hu, Hw, virt2phys_any by done.
    cbn [heap set_heap]. rewrite Hx, Hv. fold (byte_at total).
    destruct (byte_at total =? 0) eqn:Ez; zbool.
    + exists false. eexists. split; [reflexivity|]. cbn. split; [lia|done].
    + exists true. eexists. split; [reflexivity|].
      set (v := u64 (base + total)) in *.
      set (partial := Z.min (it_remaining i) (PAGE_SIZE - Z.land v PAGE_MASK)).
      assert (Hm : 0 <= Z.land v PAGE_MASK < PAGE_SIZE).
      { change PAGE_MASK with (Z.ones 12). rewrite Z.land_ones by lia. by apply Z.mod_pos_bound. }
      assert (Hv0 : is_size v) by apply u64_range.
      split; [|cbn; lia]. split; [done|]. cbn. split.
      * subst v. rewrite u64_shift. split_and!; try lia.
      * intros k Hk.
        assert (Hkp : 0 <= k /\ Z.land v PAGE_MASK + k < PAGE_SIZE)
          by (unfold partial in Hk; lia).
        destruct Hkp as [Hk0 Hkp]. clear Hk.
        assert (Hvk : u64 (base + (total + k)) = v + k).
        { rewrite Z.add_assoc. unfold v. rewrite <- u64_shift. fold v. apply u64_small.
          change PAGE_MASK with (Z.ones 12) in Hkp. rewrite Z.land_ones in Hkp by lia.
          change (2 ^ 12) with 4096 in Hkp. unfold is_size, PAGE_SIZE in *. clear - Hkp Hk0 Hv0.
          Z.div_mod_to_equations; lia. }
        assert (Hbk : byte_at (total + k) = byte_at total + k).
        { unfold byte_at at 1. rewrite Hvk. unfold byte_at in Ez |- *. fold v in Ez |- *.
          apply xlat_page; try done; unfold is_size in Hv0; lia. }
        rewrite Hbk. split; [done|].
        assert (0 <= byte_at total).
        { unfold byte_at, xlat. rewrite (proj2 (Z.eqb_neq pages 0)) by done.
          destruct (addr_canonical _); [apply translate_nonneg|lia]. }
        lia.
Qed.

Lemma refill_ok h i total :
  same h -> iter_ok i total ->
  exists ok i', refill i (set_heap h a0) = Val (ok, i') (set_heap h a0) /\
    if (ok : bool) then iter_ok i' total /\ 0 < frag_len i'
    else if error i' then total < len /\ byte_at total = 0 else total = len.
Proof.
  intros Hh Hi. unfold refill. destruct (frag_len i <=? 0) eqn:E; zbool.
  - apply virt_iter_next_ok; [done|done|]. destruct Hi as (_&(_&?&_)&_). lia.
  - exists true, i. done.
Qed.

Lemma skip_ok i total partial :
  iter_ok i total -> 0 <= partial <= frag_len i -> iter_ok (skip partial i) (total + partial).
Proof.
  intros ((Hp&Hu&Hw&He)&(H0&H1&Hr&Hr0&Hv)&Hx) Hpart. unfold skip, set; cbn.
  split; [done|]. split.
  - cbn. split_and!; try lia. rewrite Hv. f_equal. lia.
  - cbn. intros k Hk. replace (total + partial + k) with (total + (partial + k)) by lia.
    destruct (Hx (partial + k)) as [H2 H3]; [lia|]. split; [|done]. lia.
Qed.
End range.

(** ** The copy *)

Section copy.
Context (a0 : alloc) (dp d sp s len : Z).

Abbreviation Xd := (byte_at a0 dp d true true).
Abbreviation Xs := (byte_at a0 sp s true false).

(** No byte that may be written is in a table of [pages]. *)
Definition apart (pages : Z) : Prop :=
  forall p t j, path_ok p -> tab (heap a0) pages p = Some t -> 0 <= j < len -> Xd j <> 0 ->
    ~ (t <= Xd j < t + PAGE_SIZE).

(** [NULL] and a range that does not wrap around, or an address space. *)
Definition space_ok (pages base : Z) : Prop :=
  is_size base /\
  if pages =? 0 then 0 < base /\ base + len <= 2 ^ 64 else tree a0 pages /\ apart pages.

(** The bytes that may be written are different from each other and from those
    that may be read. *)
Definition no_overlap : Prop :=
  forall j k, 0 <= j < len -> 0 <= k < len -> Xd j <> 0 ->
    Xd j <> Xs k /\ (Xd j = Xd k -> j = k).

(** The first [total] bytes are copied into [h]. *)
Definition copied_to (h : mem) (total : Z) : Prop :=
  (forall j, 0 <= j < total ->
     Xd j <> 0 /\ Xs j <> 0 /\ ld h (Xd j) = ld (heap a0) (Xs j)) /\
  forall b, (forall j, 0 <= j < total -> b <> Xd j) -> ld h b = ld (heap a0) b.

Context (Hlen : is_size len) (Hd : space_ok dp d) (Hs : space_ok sp s) (Hsep : no_overlap).

Let same (h : mem) : Prop := exists total, 0 <= total <= len /\ copied_to h total.

Lemma space_range pages base : space_ok pages base -> range_ok a0 len pages base same.
Proof.
  unfold space_ok, range_ok. intros [Hb H]. destruct (pages =? 0); [done|]. destruct H as [Ht Ha].
  split_and!; [done|done|unfold is_size in Hlen; lia|].
  intros h p t b (total&Htot&Hc1&Hc2) Hp Htab Hr. apply Hc2. intros j Hj ->.
  destruct (Hc1 j Hj) as (Hn&_&_). by apply (Ha p t j Hp Htab); [lia|done|].
Qed.

Definition copy_inv (x : virt_iter * virt_iter * Z) (a : alloc) : Prop :=
  let '(di, si, total) := x in
  exists h, a = set_heap h a0 /\ iter_ok a0 len dp d true true di total /\
    iter_ok a0 len sp s true false si total /\ copied_to h total.

Definition copy_end (x : virt_iter * virt_iter * Z) (a : alloc) : Prop :=
  let '(di, si, total) := x in
  exists h, a = set_heap h a0 /\ 0 <= total <= len /\ copied_to h total /\
    if error si || error di then total < len /\ (Xd total = 0 \/ Xs total = 0) else total = len.

Lemma iter_total i total pages base u w :
  iter_ok a0 len pages base u w i total -> 0 <= total <= len - frag_len i.
Proof. intros (_&(?&?&?&?&_)&_). lia. Qed.

(** A turn extends the copied prefix. *)
Lemma copy_step h di si total :
  iter_ok a0 len dp d true true di total -> iter_ok a0 len sp s true false si total ->
  0 < frag_len di -> 0 < frag_len si -> copied_to h total ->
  let partial := Z.min (frag_len si) (frag_len di) in
  copied_to (memcpy h (frag di) (frag si) (Z.to_nat partial)) (total + partial).
Proof.
  intros Hdi Hsi Hd0 Hs0 [Hc1 Hc2] partial.
  assert (Hp : 0 < partial <= frag_len si /\ partial <= frag_len di) by lia.
  pose proof (iter_total _ _ _ _ _ _ Hdi). pose proof (iter_total _ _ _ _ _ _ Hsi).
  assert (Xdk : forall k, 0 <= k < partial -> Xd (total + k) = frag di + k /\ Xd (total + k) <> 0)
    by (intros k Hk; destruct Hdi as (_&_&Hx); apply Hx; lia).
  assert (Xsk : forall k, 0 <= k < partial -> Xs (total + k) = frag si + k /\ Xs (total + k) <> 0)
    by (intros k Hk; destruct Hsi as (_&_&Hx); apply Hx; lia).
  assert (Hfw : forward_ok (frag di) (frag si) (Z.of_nat (Z.to_nat partial))).
  { unfold forward_ok. rewrite Z2Nat.id by lia.
    destruct (decide (frag si < frag di < frag si + partial)) as [Hin|]; [|lia]. exfalso.
    destruct (Xdk 0) as [E0 N0]; [lia|]. destruct (Xsk (frag di - frag si)) as [E1 _]; [lia|].
    destruct (Hsep (total + 0) (total + (frag di - frag si))) as [Hne _]; [lia|lia|done|].
    apply Hne. rewrite E0, E1. lia. }
  pose proof (memcpy_copied h (frag di) (frag si) (Z.to_nat partial) Hfw) as Hcp.
  remember (memcpy h _ _ _) as h' eqn:E. clear E.
  unfold copied in Hcp. rewrite Z2Nat.id in Hcp by lia. split.
  - intros j Hj. destruct (decide (j < total)) as [Hlt|Hge].
    + destruct (Hc1 j) as (N1&N2&E1); [lia|]. split; [done|]. split; [done|].
      rewrite Hcp, decide_False; [done|]. intros Hin.
      destruct (Xdk (Xd j - frag di)) as [E2 _]; [lia|].
      destruct (Hsep j (total + (Xd j - frag di))) as [_ Hinj]; [lia|lia|done|].
      assert (j = total + (Xd j - frag di)) by (apply Hinj; rewrite E2; lia). lia.
    + destruct (Xdk (j - total)) as [E1 N1]; [lia|]. destruct (Xsk (j - total)) as [E2 N2]; [lia|].
      replace (total + (j - total)) with j in E1, N1, E2, N2 by lia.
      split; [done|]. split; [done|]. rewrite Hcp, decide_True by lia.
      replace (frag si + (Xd j - frag di)) with (Xs j) by lia. apply Hc2.
      intros k Hk E. destruct (Hc1 k Hk) as (Nk&_&_). destruct (Hsep k j) as [Hne _]; [lia|lia|done|].
      by apply Hne.
  - intros b Hb. rewrite Hcp, decide_False.
    + apply Hc2. intros j Hj. apply Hb. lia.
    + intros Hin. destruct (Xdk (b - frag di)) as [E _]; [lia|].
      apply (Hb (total + (b - frag di))); [lia|]. rewrite E. lia.
Qed.

Lemma turn_ok x a :
  copy_inv x a ->
  runs (virt_cpy_turn x) a (fun r a' =>
    match r with
    | inl x' => copy_inv x' a' /\ 0 <= len - x'.2 < len - x.2
    | inr x' => copy_end x' a'
    end).
Proof.
  destruct x as [[di si] total]. intros (h&->&Hdi&Hsi&Hc). unfold virt_cpy_turn.
  pose proof (iter_total _ _ _ _ _ _ Hdi) as Htot.
  assert (Hf0 : 0 <= frag_len di) by (destruct Hdi as (_&(_&?&_)&_); done).
  assert (Hsame : same h) by (exists total; split; [lia|done]).
  destruct (refill_ok _ _ _ _ _ _ _ (space_range dp d Hd) h di total Hsame Hdi) as (ok&di'&E&H).
  apply runs_bind. unfold runs. rewrite E. clear E. destruct ok; cbn [negb].
  2:{ exists h. split; [done|]. split; [lia|]. split; [done|].
      assert (error si = false) as -> by (destruct Hsi as ((_&_&_&?)&_); done). cbn [orb].
      destruct (error di'); [|done]. destruct H. auto. }
  destruct H as [Hdi' Hd0].
  destruct (refill_ok _ _ _ _ _ _ _ (space_range sp s Hs) h si total Hsame Hsi) as (ok&si'&E&H).
  apply runs_bind. unfold runs. rewrite E. clear E. destruct ok; cbn [negb].
  2:{ exists h. split; [done|]. split; [lia|]. split; [done|].
      assert (error di' = false) as -> by (destruct Hdi' as ((_&_&_&?)&_); done).
      rewrite orb_false_r. destruct (error si'); [|done]. destruct H. auto. }
  destruct H as [Hsi' Hs0].
  pose proof (copy_step h di' si' total Hdi' Hsi' Hd0 Hs0 Hc) as Hc'. cbn zeta in Hc'.
  pose proof (iter_total _ _ _ _ _ _ Hdi'). pose proof (iter_total _ _ _ _ _ _ Hsi').
  apply runs_bind. apply runs_modify. cbn [heap set_heap].
  remember (memcpy h _ _ _) as h' eqn:E. clear E. split; [|cbn; lia].
  exists h'. split; [done|]. split; [apply skip_ok; [done|lia]|]. split; [apply skip_ok; [done|lia]|done].
Qed.

Lemma iter_new_ok pages base u w :
  is_size base -> 0 <= len ->
  iter_ok a0 len pages base u w (virt_iter_new base len pages u w) 0.
Proof.
  intros Hb Hl. split; [done|]. split; [|cbn; lia]. cbn. rewrite !Z.add_0_r.
  rewrite u64_small by done. lia.
Qed.

(** C4: [virt_cpy] copies the longest prefix of the range on which the
    destination may be written and the source read, byte by byte through the
    page tables, whatever the alignment of the two ranges and the placement of
    their frames; nothing else in memory changes, it returns the number of bytes
    copied, its assertions hold and its loop ends.  The bytes that may be written
    must be distinct, none of them a source byte or in a page table. *)
Theorem virt_cpy_copies_prefix :
  exists total h, virt_cpy dp d sp s len a0 = Val total (set_heap h a0) /\
    0 <= total <= len /\ (total < len -> Xd total = 0 \/ Xs total = 0) /\ copied_to h total.
Proof.
  assert (Hinit : copy_inv (virt_iter_new d len dp true true, virt_iter_new s len sp true false, 0) a0).
  { unfold is_size in Hlen. exists (heap a0). split; [by rewrite set_heap_id|].
    split; [apply iter_new_ok; [apply Hd|lia]|]. split; [apply iter_new_ok; [apply Hs|lia]|].
    split; [intros j Hj; lia|done]. }
  pose proof (while_rule virt_cpy_turn copy_inv copy_end (fun x => len - x.2)
    (Z.to_pos (len + 1)) _ a0 turn_ok Hinit ltac:(unfold is_size in Hlen; cbn; lia)) as H.
  apply runs_inv in H as ([[di si] total]&a&E&(h&->&Ht&Hc&Hend)).
  exists total, h. unfold virt_cpy. rewrite (m_bind _ _ _ _ _ E).
  assert (Hass : (if error si || error di then negb (total =? len) else total =? len) = true /\
    (total < len -> Xd total = 0 \/ Xs total = 0)).
  { destruct (error si || error di).
    - destruct Hend as [Hlt Hx]. split; [|done]. apply negb_true_iff, Z.eqb_neq. lia.
    - split; [by apply Z.eqb_eq|]. lia. }
  destruct Hass as [-> Hx]. done.
Qed.
End copy.

(** An address space with one page, and a kernel buffer copied to its last six
    bytes and beyond. *)
Definition one_page : M Z :=
  dir ← pagedir_new; pagedir_map dir 0x200000 0x105000 true true;; mret dir.

Definition one_page_state : alloc :=
  match one_page (mkAlloc 0x100000 [0; 0] 0 0 ∅) with Val _ a => a | _ => mkAlloc 0 [] 0 0 ∅ end.

Lemma one_page_ok :
  tree one_page_state 0x100000 /\
  forall v, leaf (heap one_page_state) 0x100000 v =
    if same_page v 0x200000 then page_entry_of 0 0x105000 true true else 0.
Proof.
  set (a := mkAlloc 0x100000 [0; 0] 0 0 ∅).
  assert (Hfirst : page_alloc 1 a = Val 0x100000 (mkAlloc 0x100000 [1; 0] 0 0 ∅)) by reflexivity.
  destruct (pagedir_new_spec a 3) as (dir&a1&E&Ha1&Ht1&Hf1&L1).
  - split; [by split|]. split; [done|]. split; [done|]. split; [done|]. intros b.
    change (is_byte (ld ∅ b)). unfold ld. rewrite lookup_empty. by split.
  - exists [0; 1; 2; 3]. split_and!; [apply (bool_decide_unpack _); reflexivity|done|].
    by repeat constructor.
  - assert (dir = 0x100000) as ->.
    { unfold pagedir_new, page_zalloc in E. rewrite (m_bind _ _ _ _ _ Hfirst) in E.
      apply bind_val in E as (a'&s1&_&E). apply bind_val in E as (u&s2&_&E).
      injection E as E _. by rewrite E. }
    pose proof (pagedir_map_leaf a1 0x100000 0x200000 0x105000 true true Ha1 Ht1 Hf1 eq_refl) as H.
    rewrite L1 in H. destruct H as (a2&E2&_&Ht2&L2).
    assert (Hrun : one_page a = Val 0x100000 a2).
    { unfold one_page. etrans; [apply m_bind; exact E|]. etrans; [apply m_bind; exact E2|]. reflexivity. }
    assert (Hst : one_page_state = a2) by (unfold one_page_state; fold a; by rewrite Hrun).
    rewrite Hst.
    split; [done|]. intros v. rewrite L2. destruct (same_page v 0x200000); [done|apply L1].
Qed.

Lemma virt_cpy_copies_prefix_witness :
  exists h, virt_cpy 0x100000 0x200FFA 0 0x300000 20 one_page_state =
      Val 6 (set_heap h one_page_state) /\
    ld h 0x105FFB = ld (heap one_page_state) 0x300001 /\
    ld h 0x106000 = ld (heap one_page_state) 0x106000.
Proof.
  destruct one_page_ok as [Htree Hleaf].
  assert (Hxd : forall j, 0 <= j < 20 -> byte_at one_page_state 0x100000 0x200FFA true true j =
    if j <? 6 then 0x105FFA + j else 0).
  { intros j Hj. unfold byte_at, xlat. rewrite u64_small by (unfold is_size; lia).
    assert (Hc : addr_canonical (0x200FFA + j) = true).
    { unfold addr_canonical. rewrite Z.shiftr_div_pow2, Z.div_small by lia. done. }
    change (0x100000 =? 0) with false. cbn [negb]. rewrite Hc, Hleaf. unfold same_page, PAGE_SIZE.
    destruct (j <? 6) eqn:E; zbool.
    - replace ((0x200FFA + j) / 4096) with 0x200 by (Z.div_mod_to_equations; lia).
      change ((0x200 mod 2 ^ 36 =? (0x200000 / 4096) mod 2 ^ 36)) with true. cbv iota.
      rewrite translate_page_entry by lia. cbn [negb andb orb]. unfold PAGE_SIZE.
      Z.div_mod_to_equations; lia.
    - replace ((0x200FFA + j) / 4096) with 0x201 by (Z.div_mod_to_equations; lia). done. }
  assert (Hxs : forall j, 0 <= j < 20 -> byte_at one_page_state 0 0x300000 true false j = 0x300000 + j).
  { intros j Hj. unfold byte_at, xlat. cbn. rewrite u64_small; [done|unfold is_size; lia]. }
  destruct (virt_cpy_copies_prefix one_page_state 0x100000 0x200FFA 0 0x300000 20)
    as (total&h&E&Ht&Hlt&Hc1&Hc2).
  - by split.
  - split; [by split|]. split; [done|]. intros p t j Hp Htab Hj Hx.
    rewrite Hxd in Hx by done. rewrite Hxd by done. apply (tree_page _ _ Htree p t Hp) in Htab as (i&Hi&->&Hu).
    destruct (j <? 6) eqn:Ej; zbool; [|destruct (Hx eq_refl)].
    assert (i <> 5) by (intros ->; vm_compute in Hu; discriminate Hu).
    unfold page_at, PAGE_SIZE. change (pbitmap_addr one_page_state) with 0x100000. lia.
  - split; [by split|]. done.
  - intros j k Hj Hk. rewrite !Hxd, Hxs by done. destruct (j <? 6) eqn:Ej, (k <? 6); zbool; lia.
  - assert (total = 6) as ->.
    { destruct (decide (total < 6)).
      - destruct Hlt as [H|H]; [lia| |]; [rewrite Hxd in H by lia; destruct (total <? 6) eqn:Ej; zbool; lia|].
        rewrite Hxs in H; lia.
      - destruct (decide (total = 6)); [done|]. destruct (Hc1 6) as (H&_); [lia|].
        rewrite Hxd in H by lia. destruct (H eq_refl). }
    exists h. split; [exact E|]. split.
    + destruct (Hc1 1) as (_&_&H); [lia|]. rewrite Hxd, Hxs in H by lia. exact H.
    + apply Hc2. intros j Hj. rewrite Hxd by lia. destruct (j <? 6) eqn:Ej; zbool; lia.
Defined.
