(* ===== verification/Proc.v ===== *)
(** * Proc

    The parts of [src/src/kernel/proc.c] that stand on their own: states, the
    handle table, the traversals of the process tree and process namespaces.
    Life and death of processes is in [ProcLife], after what it calls. *)

From S2P Require Import Prelude Monad Mem Malloc Paging KState Pcpy.

(** ** States *)

(** The macro [proc_alive] on a state, and on a pointer. *)
Definition alive_state (st : proc_state) : bool :=
  match st with
  | PS_TOREAP | PS_TOMBSTONE | PS_DEADLEAF | PS_FREED => false
  | _ => true
  end.

Definition proc_alive (p : option ptr) : K bool :=
  match p with
  | None => mret false
  | Some p => st ← getf p_state p; mret (alive_state st)
  end.

Definition state_is (p : ptr) (st : proc_state) : K bool :=
  cur ← getf p_state p; mret (bool_decide (cur = st)).

Definition assert_state (p : ptr) (st : proc_state) : K () :=
  b ← state_is p st; assert b.

(** [for (it = first; it; it = it->sibling) body] *)
Definition each_sibling (first : option ptr) (body : ptr -> K ()) : K () :=
  n ← gets proc_count;
  iter n (fun it =>
    match it with
    | None => mret (inr ())
    | Some it => body it;; next ← getf p_sibling it; mret (inl next)
    end) first.

Definition proc_setstate (p : ptr) (state : proc_state) : K () :=
  cur ← getf p_state p;
  assert (bool_decide (cur <> PS_FREED));;
  match state with
  | PS_FREED => assert (bool_decide (cur = PS_DEADLEAF))
  | PS_DEADLEAF => assert (bool_decide (cur = PS_TOMBSTONE))
  | PS_TOMBSTONE => assert (bool_decide (cur = PS_TOREAP) || bool_decide (cur = PS_DYING))
  | PS_TOREAP =>
      assert (bool_decide (cur = PS_DYING));;
      parent ← getf p_parent p;
      alive ← proc_alive parent;
      assert (negb (is_some parent) || alive);;
      child ← getf p_child p;
      (* the loop tests [p], not [it] *)
      each_sibling child (fun _ => b ← state_is p PS_TOREAP; assert (negb b))
  | PS_RUNNING | PS_DYING => mret ()
  | _ => assert (bool_decide (cur = PS_RUNNING))
  end;;
  setf p_state p state.

(** ** Traversal of the tree *)

(** [while (!p->sibling) { p = p->parent; ... }]: [up] says whether to stop at
    a parent ([inl]) or go on. *)
Definition climb {A} (up : option ptr -> K (A + ptr)) (p : ptr) : K (A + ptr) :=
  n ← gets proc_count;
  iter n (fun p =>
    sib ← getf p_sibling p;
    match sib with
    | Some _ => mret (inr (inr p))
    | None =>
        parent ← getf p_parent p;
        r ← up parent;
        match r with
        | inl a => mret (inr (inl a))
        | inr q => mret (inl q)
        end
    end) p.

Definition proc_next (p : option ptr) (root : option ptr) : K (option ptr) :=
  match p with
  | None => mret None
  | Some p =>
      child ← getf p_child p;
      sib ← getf p_sibling p;
      if is_some child then mret child
      else if is_some sib then mret sib
      else
        r ← climb (fun parent =>
              when (is_some root) (assert (is_some parent));;
              match parent with
              | None => mret (inl ())
              | Some q => mret (if op_eqb (Some q) root then inl () else inr q)
              end) p;
        match r with
        | inl _ => mret None
        | inr p => getf p_sibling p
        end
  end.

(** [for (p = first; p; p = proc_next(p, root)) body] *)
Definition each_next (first root : option ptr) (body : ptr -> K ()) : K () :=
  n ← gets proc_count;
  iter n (fun p =>
    match p with
    | None => mret (inr ())
    | Some p => body p;; next ← proc_next (Some p) root; mret (inl next)
    end) first.

(** ** Namespaces *)

Definition proc_ns_contains (ns proc : ptr) : K bool :=
  if bool_decide (ns = proc) then mret true
  else
    parent ← getf p_parent proc;
    match parent with
    | None => mret false
    | Some q => pns ← getf p_pns q; mret (op_eqb pns (Some ns))
    end.

Definition proc_ns_id (ns proc : ptr) : K Z :=
  if bool_decide (proc = ns) then mret 1
  else
    pns ← getf p_pns proc;
    (if op_eqb pns (Some proc) then
       parent ← getf p_parent proc;
       parent ← deref parent;
       ppns ← getf p_pns parent;
       assert (op_eqb ppns (Some ns))
     else assert (op_eqb pns (Some ns)));;
    getf p_localid proc.

Definition proc_ns_next (ns : ptr) (p : option ptr) : K (option ptr) :=
  match p with
  | None => mret None
  | Some p =>
      child ← getf p_child p;
      down ← match child with Some c => proc_ns_contains ns c | None => mret false end;
      ret ←
        (if (down : bool) then mret child
         else if bool_decide (p = ns) then mret None
         else
           r ← climb (fun parent =>
                 q ← match parent with Some q => mret q | None => panic end;
                 mret (if bool_decide (q = ns) then inl () else inr q)) p;
           match r with
           | inl _ => mret None
           | inr p => getf p_sibling p
           end);
      match ret with
      | None => mret None
      | Some r => b ← proc_ns_contains ns r; assert b;; mret (Some r)
      end
  end.

Definition proc_ns_byid (ns : ptr) (id : Z) : K (option ptr) :=
  pns ← getf p_pns ns;
  assert (op_eqb pns (Some ns));;
  n ← gets proc_count;
  iter n (fun it =>
    match it with
    | None => mret (inr None)
    | Some q =>
        i ← proc_ns_id ns q;
        if i =? id then mret (inr (Some q))
        else next ← proc_ns_next ns (Some q); mret (inl next)
    end) (Some ns).

(** The visit of a descendant in [proc_ns_create]. *)
Definition ns_adopt (proc : ptr) (old : option ptr) (it : ptr) : K () :=
  lid ← getf p_localid it;
  next ← getf p_nextlid proc;
  when (next <? u32 (lid + 1)) (setf p_nextlid proc (u32 (lid + 1)));;
  pns ← getf p_pns it;
  if op_eqb pns old then setf p_pns it (Some proc)
  else assert (op_eqb pns (Some it)).

Definition proc_ns_create (proc : ptr) : K () :=
  old ← getf p_pns proc;
  if op_eqb old (Some proc) then mret ()
  else
    setf p_pns proc (Some proc);;
    setf p_nextlid proc 2;;
    n ← gets proc_count;
    iter n (fun it =>
      match it with
      | None => mret (inr ())
      | Some it =>
          unless (bool_decide (it = proc)) (ns_adopt proc old it);;
          child ← getf p_child it;
          down ← match child with
                 | None => mret false
                 | Some c =>
                     a ← proc_ns_contains proc c;
                     if (a : bool) then mret true
                     else o ← deref old; proc_ns_contains o c
                 end;
          if (down : bool) then mret (inl child)
          else if bool_decide (it = proc) then mret (inr ())
          else
            (* the inner loop ends at [proc] or at a node that has a sibling; either
               way the walk goes on at the sibling of that node *)
            r ← climb (fun parent =>
                  if op_eqb parent (Some proc) then mret (inl proc)
                  else match parent with Some q => mret (inr q) | None => panic end) it;
            let it := match r with inl q => q | inr q => q end in
            sib ← getf p_sibling it;
            mret (inl sib)
      end) (Some proc).

(** ** The handle table *)

(** [p->_handles[i]] *)
Definition handle_slot (p : ptr) (i : Z) : K (option ptr) :=
  t ← getf p_handles p;
  t ← deref t;
  l ← rd t;
  deref (l !! Z.to_nat i).

Definition table_set (t : ptr) (i : Z) (h : option ptr) : K () :=
  wr t (fun l : list (option ptr) => <[Z.to_nat i := h]> l).

Definition set_handle_slot (p : ptr) (i : Z) (h : option ptr) : K () :=
  t ← getf p_handles p;
  t ← deref t;
  table_set t i h.

Fixpoint free_slot_from (p : ptr) (hid : Z) (n : nat) : K Z :=
  match n with
  | O => mret (-1)
  | S n =>
      h ← handle_slot p hid;
      if is_some h then free_slot_from p (hid + 1) n else mret hid
  end.

Definition proc_find_free_handle (p : ptr) (start_at : Z) : K Z :=
  let start_at := if start_at <? 0 then 0 else start_at in
  free_slot_from p start_at (Z.to_nat (HANDLE_MAX - start_at)).

Definition proc_handle_get (p : ptr) (id : Z) : K (option ptr) :=
  if id =? HANDLE_NULLFS then mret (Some nullfs_handle)
  else if (0 <=? id) && (id <? HANDLE_MAX) then handle_slot p id
  else mret None.

(** [handle_init] of [handle.c]. *)
Definition handle_init (type : handle_type) : K ptr :=
  new (handle0 <| h_type := type |> <| h_refcount := 1 |>).

(** The handle is the second component, [None] when there is no slot for it. *)
Definition proc_handle_init (p : ptr) (type : handle_type) : K (Z * option ptr) :=
  hid ← proc_find_free_handle p 1;
  if hid <? 0 then mret (-1, None)
  else
    h ← handle_init type;
    set_handle_slot p hid (Some h);;
    mret (hid, Some h).

Definition proc_hid_take (p : ptr) (hid : Z) : K (option ptr) :=
  if (hid <? 0) || (HANDLE_MAX <=? hid) then proc_handle_get p hid
  else
    h ← handle_slot p hid;
    set_handle_slot p hid None;;
    mret h.

(** [unref], on the counters shared by forked processes. *)
Definition unref (refcount : option ptr) : K bool :=
  match refcount with
  | None => mret true
  | Some c =>
      n ← rd (T := Z) c;
      assert (negb (n =? 0));;
      wr (T := Z) c (fun n => n - 1);;
      if n - 1 =? 0 then del Z c;; mret true else mret false
  end.

(** ** The handle table as a partial function *)

Definition slot_of (s : kstate) (p : ptr) (hid : Z) : option (option ptr) :=
  x ← procs s !! p; t ← p_handles x; l ← htables s !! t; l !! Z.to_nat hid.

Lemma slot_of_inv s p hid h :
  slot_of s p hid = Some h ->
  exists x t l, procs s !! p = Some x /\ p_handles x = Some t /\ htables s !! t = Some l /\
    l !! Z.to_nat hid = Some h.
Proof.
  unfold slot_of. intros H. apply bind_Some in H as (x&Hx&H).
  apply bind_Some in H as (t&Ht&H). apply bind_Some in H as (l&Hl&H). eauto 10.
Qed.

Lemma handle_slot_val s p hid h :
  slot_of s p hid = Some h -> handle_slot p hid s = Val h s.
Proof.
  intros (x&t&l&Hx&Ht&Hl&Hh)%slot_of_inv. unfold handle_slot.
  do 2 kaccess. rewrite Ht. do 4 kaccess. by rewrite Hh.
Qed.

Lemma proc_handle_get_val s p hid h :
  0 <= hid < HANDLE_MAX -> slot_of s p hid = Some h -> proc_handle_get p hid s = Val h s.
Proof.
  intros Hh Hs. unfold proc_handle_get, HANDLE_NULLFS.
  rewrite (proj2 (Z.eqb_neq hid (-2))), (proj2 (Z.leb_le 0 hid)), (proj2 (Z.ltb_lt _ _)) by lia.
  by apply handle_slot_val.
Qed.

(** ** One process after another *)

Definition state_at (s : kstate) (p : ptr) : option proc_state := p_state <$> procs s !! p.
Definition saved_at (s : kstate) (p : ptr) : option saved := p_saved <$> procs s !! p.

(** [s] with the process at [p] replaced. *)
Definition put_proc (p : ptr) (x : Proc) (s : kstate) : kstate := s <| procs ::= <[p := x]> |>.

Lemma state_at_inv s p st :
  state_at s p = Some st -> exists x, procs s !! p = Some x /\ p_state x = st.
Proof. intros (x&?&?)%fmap_Some. eauto. Qed.

Lemma saved_at_inv s p u :
  saved_at s p = Some u -> exists x, procs s !! p = Some x /\ p_saved x = u.
Proof. intros (x&?&?)%fmap_Some. eauto. Qed.

Lemma state_at_put s p x q :
  state_at (put_proc p x s) q = if decide (p = q) then Some (p_state x) else state_at s q.
Proof.
  unfold state_at, put_proc. cbn. case_decide; subst; by simplify_map_eq.
Qed.

Lemma saved_at_put s p x q :
  saved_at (put_proc p x s) q = if decide (p = q) then Some (p_saved x) else saved_at s q.
Proof.
  unfold saved_at, put_proc. cbn. case_decide; subst; by simplify_map_eq.
Qed.

Lemma state_is_val s p st cur :
  state_at s p = Some cur -> state_is p st s = Val (bool_decide (cur = st)) s.
Proof.
  intros (x&Hx&<-)%state_at_inv. unfold state_is. by do 2 kaccess.
Qed.

Lemma assert_state_val s p st : state_at s p = Some st -> assert_state p st s = Val () s.
Proof.
  intros Hst. unfold assert_state. apply bind_runs. unfold runs.
  rewrite (state_is_val _ _ _ _ Hst). by rewrite bool_decide_true.
Qed.

(** Going to sleep, and waking up. *)
Lemma setstate_sleep_val s p x st :
  procs s !! p = Some x -> p_state x = PS_RUNNING ->
  match st with
  | PS_WAITS4CHILDDEATH | PS_WAITS4FS | PS_WAITS4REQUEST | PS_WAITS4PIPE
  | PS_WAITS4TIMER => True
  | _ => False
  end ->
  proc_setstate p st s = Val () (put_proc p (x <| p_state := st |>) s).
Proof.
  intros Hx Hr Hst. unfold proc_setstate. do 2 kaccess. rewrite Hr.
  do 2 kaccess.
  apply bind_runs. destruct st; try done; (kaccess; unfold runs, setf, wr, mbind, st_bind, get_;
    cbn; by rewrite Hx).
Qed.

Lemma setstate_running_val s p x :
  procs s !! p = Some x -> p_state x <> PS_FREED ->
  proc_setstate p PS_RUNNING s = Val () (put_proc p (x <| p_state := PS_RUNNING |>) s).
Proof.
  intros Hx Hf. unfold proc_setstate. do 2 kaccess.
  apply bind_runs. apply runs_assert; [by apply bool_decide_eq_true|].
  apply bind_runs. kaccess. unfold setf, wr, mbind, st_bind, get_. cbn. by rewrite Hx.
Qed.

(** [r] is the first free slot of the table from [hid] on, -1 if there is none. *)
Definition first_free (l : list (option ptr)) (hid r : Z) : Prop :=
  (forall i, hid <= i < (if r <? 0 then HANDLE_MAX else r) ->
     exists h, l !! Z.to_nat i = Some (Some h)) /\
  (r = -1 \/ hid <= r < HANDLE_MAX /\ l !! Z.to_nat r = Some None).

(** The table of a process. *)
Definition table_of (s : kstate) (p t : ptr) (l : list (option ptr)) : Prop :=
  (exists x, procs s !! p = Some x /\ p_handles x = Some t) /\
  htables s !! t = Some l /\ length l = Z.to_nat HANDLE_MAX.

Lemma table_slot s p t l i :
  table_of s p t l -> 0 <= i < HANDLE_MAX ->
  exists h, l !! Z.to_nat i = Some h /\ slot_of s p i = Some h.
Proof.
  intros [(x&Hx&Ht) [Hl Hn]] Hi. unfold HANDLE_MAX in *.
  destruct (lookup_lt_is_Some_2 l (Z.to_nat i)) as [h Hh]; [lia|].
  exists h. split; [done|]. unfold slot_of. by rewrite Hx; cbn; rewrite Ht; cbn; rewrite Hl; cbn.
Qed.

Lemma free_slot_val s p t l n : forall hid,
  table_of s p t l -> 0 <= hid -> hid + Z.of_nat n = HANDLE_MAX ->
  exists r, free_slot_from p hid n s = Val r s /\ first_free l hid r.
Proof.
  induction n as [|n IH]; intros hid Ht Hh Hn; cbn [free_slot_from].
  - exists (-1). split; [done|]. split; [cbn; lia|by left].
  - destruct (table_slot _ _ _ _ hid Ht) as (h&Hl&Hs); [lia|].
    destruct h as [h|].
    + destruct (IH (hid + 1) Ht) as (r&Er&Hf1&Hf2); [lia|lia|].
      exists r. split; [apply bind_runs; unfold runs; by rewrite (handle_slot_val _ _ _ _ Hs)|].
      split.
      * intros i Hi. destruct (decide (i = hid)) as [->|]; [eauto|]. apply Hf1. lia.
      * destruct Hf2 as [?|[? ?]]; [by left|right]. split; [lia|done].
    + exists hid. split; [apply bind_runs; unfold runs; by rewrite (handle_slot_val _ _ _ _ Hs)|].
      split; [|by right; split; [lia|]]. rewrite (proj2 (Z.ltb_ge hid 0)) by lia. lia.
Qed.

Lemma find_free_val s p t l start :
  table_of s p t l ->
  exists r, proc_find_free_handle p start s = Val r s /\
    (if HANDLE_MAX <=? start then r = -1 else first_free l (Z.max 0 start) r).
Proof.
  intros Ht. unfold proc_find_free_handle.
  replace (if start <? 0 then 0 else start) with (Z.max 0 start)
    by (destruct (start <? 0) eqn:E; zbool; lia).
  destruct (HANDLE_MAX <=? start) eqn:E; zbool.
  - replace (Z.to_nat (HANDLE_MAX - Z.max 0 start)) with 0%nat by (unfold HANDLE_MAX in *; lia).
    by exists (-1).
  - eapply free_slot_val; [done|lia|unfold HANDLE_MAX in *; lia].
Qed.

Lemma set_slot_val s p t l i h :
  table_of s p t l ->
  table_set t i h s = Val () (s <| htables ::= <[t := <[Z.to_nat i := h]> l]> |>).
Proof.
  intros (_&Hl&_). unfold table_set, wr, mbind, st_bind, get_. cbn. by rewrite Hl.
Qed.
