(* ===== verification/Pipe.v ===== *)
(** * Pipe

    Pipes ([src/src/kernel/pipe.c]).  Each end is a handle with the queue of
    the processes blocked on it, linked through their [waits4pipe.next]. *)

From S2P Require Import Prelude Monad KState Pcpy Proc.

(** A [Proc **] into the queue: the head in the handle or a link. *)
Inductive pipe_slot := slot_head (h : ptr) | slot_next (p : ptr).

Definition waits4pipe_of (p : ptr) : K (ptr * Z * Z * option ptr) :=
  u ← getf p_saved p;
  match u with
  | waits4pipe h buf len next => mret (h, buf, len, next)
  | _ => fail Undefined
  end.

Definition slot_get (s : pipe_slot) : K (option ptr) :=
  match s with
  | slot_head h => getf h_queued h
  | slot_next p => '(_, _, _, next) ← waits4pipe_of p; mret next
  end.

Definition slot_set (s : pipe_slot) (v : option ptr) : K () :=
  match s with
  | slot_head h => setf h_queued h v
  | slot_next p =>
      '(h, buf, len, _) ← waits4pipe_of p;
      setf p_saved p (waits4pipe h buf len v)
  end.

Definition assert_pipe (h : ptr) : K () :=
  x ← rd h;
  assert (bool_decide (h_type x = HANDLE_PIPE));;
  assert (xorb (h_readable x) (h_writeable x)).

(** The slot of the queue of [h] that holds [stop] (or the end, [None]). *)
Definition pipe_find (h : ptr) (stop : option ptr) : K pipe_slot :=
  n ← gets proc_count;
  iter n (fun slot =>
    v ← slot_get slot;
    match v with
    | None => mret (inr slot)
    | Some q =>
        if op_eqb v stop then mret (inr slot)
        else assert_state q PS_WAITS4PIPE;; mret (inl (slot_next q))
    end) (slot_head h).

Definition pipe_trytransfer (h : ptr) : K () :=
  assert_pipe h;;
  readable ← getf h_readable h;
  sister ← getf h_sister h;
  match sister with
  | None => q ← getf h_queued h; assert (negb (is_some q))
  | Some s =>
      mine ← getf h_queued h;
      theirs ← getf h_queued s;
      match mine, theirs with
      | Some m, Some t =>
          let '(rdr, wtr) := if (readable : bool) then (m, t) else (t, m) in
          assert_state rdr PS_WAITS4PIPE;;
          assert_state wtr PS_WAITS4PIPE;;
          '(_, rbuf, rlen, _) ← waits4pipe_of rdr;
          '(_, wbuf, wlen, _) ← waits4pipe_of wtr;
          let len := s32 (Z.min rlen wlen) in
          n ← pcpy_bi rdr rbuf wtr wbuf (u64 len);
          let len := s32 n in
          next ← slot_get (slot_next m);
          setf h_queued h next;;
          t' ← getf h_queued s;
          t' ← deref t';
          next ← slot_get (slot_next t');
          setf h_queued s next;;
          proc_setstate rdr PS_RUNNING;;
          proc_setstate wtr PS_RUNNING;;
          regs_savereturn rdr len;;
          regs_savereturn wtr len
      | _, _ => mret ()
      end
  end.

Definition pipe_joinqueue (h proc : ptr) (pbuf pbuflen : Z) : K () :=
  assert_pipe h;;
  readable ← getf h_readable h;
  sister ← getf h_sister h;
  if negb (is_some sister) then
    regs_savereturn proc (if (readable : bool) then 0 else - EPIPE)
  else
    slot ← pipe_find h None;
    proc_setstate proc PS_WAITS4PIPE;;
    slot_set slot (Some proc);;
    setf p_saved proc (waits4pipe h pbuf pbuflen None);;
    pipe_trytransfer h.

Definition pipe_invalidate_end (h : ptr) : K () :=
  n ← gets proc_count;
  q ← getf h_queued h;
  iter n (fun p =>
    match p with
    | None => mret (inr ())
    | Some p =>
        assert_state p PS_WAITS4PIPE;;
        proc_setstate p PS_RUNNING;;
        regs_savereturn p (-1);;
        next ← slot_get (slot_next p);
        mret (inl next)
    end) q;;
  setf h_queued h None.
