(* ===== verification/Timer.v ===== *)
(** * Timer

    The HPET timer and the list of sleeping processes
    ([src/src/kernel/arch/amd64/time.c]).  The list is sorted by wake-up time
    and linked through [waits4timer.next]; its head programs the comparator. *)

From stdpp Require Import sorting.
From S2P Require Import Prelude Monad KState Proc.

Definition waits4timer_of (p : ptr) : K (Z * option ptr) :=
  u ← getf p_saved p;
  match u with
  | waits4timer goal next => mret (goal, next)
  | _ => fail Undefined
  end.

Definition get_counter : K Z :=
  c ← getp hpet_counter;
  match c with None => panic | Some c => mret c end.

(** The product is taken in 64 bits before it is widened. *)
Definition uptime_ns : K Z :=
  c ← get_counter;
  period ← getp hpet_period;
  let femto := u64 (c * period) in
  mret (u64 (femto / 1000000)).

(** [timval] and the enable bit of the comparator. *)
Definition hpet_sched : K () :=
  s ← getp scheduled;
  match s with
  | Some p => '(goal, _) ← waits4timer_of p; setp hpet_timval (Some goal)
  | None => setp hpet_timval None
  end.

Definition hpet_irq : K () :=
  s ← getp scheduled;
  match s with
  | Some p =>
      '(goal, next) ← waits4timer_of p;
      c ← get_counter;
      when (goal <? c) (setp scheduled next;; proc_setstate p PS_RUNNING)
  | None => mret ()
  end;;
  hpet_sched.

(** A [Proc **] into the list: [None] is [&scheduled]. *)
Definition tslot_get (slot : option ptr) : K (option ptr) :=
  match slot with
  | None => getp scheduled
  | Some p => '(_, next) ← waits4timer_of p; mret next
  end.

Definition tslot_set (slot v : option ptr) : K () :=
  match slot with
  | None => setp scheduled v
  | Some p => '(goal, _) ← waits4timer_of p; setf p_saved p (waits4timer goal v)
  end.

(** The body of the search loop of [timer_schedule]. *)
Definition schedule_turn (time : Z) (slot : option ptr) : K (option ptr + option ptr) :=
  v ← tslot_get slot;
  match v with
  | None => mret (inr slot)
  | Some q =>
      '(goal, _) ← waits4timer_of q;
      if goal <=? time then assert_state q PS_WAITS4TIMER;; mret (inl v)
      else mret (inr slot)
  end.

Definition timer_schedule (p : ptr) (time : Z) : K () :=
  now ← get_counter;
  period ← getp hpet_period;
  if period =? 0 then fail Undefined
  else
    let time := u64 (now + u64 (time * 1000000) / period) in
    let time := if time <? now then u64 (-1) else time in
    proc_setstate p PS_WAITS4TIMER;;
    setf p_saved p (waits4timer time None);;
    n ← gets proc_count;
    slot ← iter n (schedule_turn time) None;
    v ← tslot_get slot;
    setf p_saved p (waits4timer time v);;
    tslot_set slot (Some p);;
    hpet_sched.

(** The body of its search loop. *)
Definition deschedule_turn (p : ptr) (slot : option ptr) : K (option ptr + option ptr) :=
  v ← tslot_get slot;
  match v with
  | None => mret (inr slot)
  | Some q => if bool_decide (q = p) then mret (inr slot) else mret (inl v)
  end.

Definition timer_deschedule (p : ptr) : K () :=
  assert_state p PS_WAITS4TIMER;;
  n ← gets proc_count;
  slot ← iter n (deschedule_turn p) None;
  v ← tslot_get slot;
  assert (is_some v);;
  '(_, next) ← waits4timer_of p;
  tslot_set slot next;;
  proc_setstate p PS_RUNNING;;
  hpet_sched.

(** ** The clock *)

(** The clock of [_sys_time] runs backwards.  [uptime_ns] means to compute
    in 128 bits, but the product is taken in 64 bits first: at the tick at which
    the counter times its period passes [2^64] femtoseconds - every five hours
    and seven minutes - the uptime drops from 18446.744 seconds to (almost)
    zero. *)
Theorem uptime_wraps s c period t1 s1 t2 s2 :
  0 < period <= 10 ^ 8 -> 0 <= c -> c * period < 2 ^ 64 <= (c + 1) * period ->
  hpet_period s = period ->
  uptime_ns (s <| hpet_counter := Some c |>) = Val t1 s1 ->
  uptime_ns (s <| hpet_counter := Some (c + 1) |>) = Val t2 s2 ->
  18446744073609 <= t1 /\ 0 <= t2 <= 100.
Proof.
  intros Hp Hc Hw Hs H1 H2. cbn in H1, H2. unfold uptime_ns, get_counter in *.
  unfold getp, gets, mbind, st_bind in H1, H2. cbn in H1, H2.
  injection H1 as <- _. injection H2 as <- _. rewrite Hs.
  assert (E1 : u64 (c * period) = c * period) by (apply u64_small; unfold is_size; lia).
  assert (E2 : u64 ((c + 1) * period) = (c + 1) * period - 2 ^ 64) by word_lia.
  rewrite E1, E2. split; word_lia.
Qed.

(** The legal maximum of the period, 100 ns. *)
Lemma uptime_wraps_witness :
  let s := kstate0 (Malloc.mkAlloc 0 [] 0 0 ∅) <| hpet_period := 10 ^ 8 |> in
  exists t1 s1 t2 s2,
    uptime_ns (s <| hpet_counter := Some 184467440737 |>) = Val t1 s1 /\
    uptime_ns (s <| hpet_counter := Some (184467440737 + 1) |>) = Val t2 s2 /\
    18446744073609 <= t1 /\ 0 <= t2 <= 100.
Proof.
  intros s. do 4 eexists.
  split; [vm_compute; reflexivity|]. split; [vm_compute; reflexivity|].
  eapply (uptime_wraps s 184467440737 (10 ^ 8));
    [lia|lia|lia|reflexivity|vm_compute; reflexivity|vm_compute; reflexivity].
Defined.

(** ** The list of sleeping processes

    [tseg s o l v]: following [waits4timer.next] from [o] leads through the
    processes of [l], with their wake-up times, to [v]. *)

Fixpoint tseg (s : kstate) (o : option ptr) (l : list (ptr * Z)) (v : option ptr) : Prop :=
  match l with
  | [] => o = v
  | (p, g) :: l =>
      o = Some p /\ exists next, saved_at s p = Some (waits4timer g next) /\ tseg s next l v
  end.

(** The timer's invariant: the list is [l], each process once and asleep, in
    the order of the wake-up times. *)
Record timers (s : kstate) (l : list (ptr * Z)) : Prop := {
  timers_list : tseg s (scheduled s) l None;
  timers_nodup : NoDup l.*1;
  timers_state : Forall (fun p => state_at s p = Some PS_WAITS4TIMER) l.*1;
  timers_sorted : StronglySorted Z.le l.*2;
}.

(** Insertion after the sleepers that wake no later. *)
Fixpoint timer_insert (p : ptr) (g : Z) (l : list (ptr * Z)) : list (ptr * Z) :=
  match l with
  | [] => [(p, g)]
  | (q, h) :: l => if h <=? g then (q, h) :: timer_insert p g l else (p, g) :: (q, h) :: l
  end.

Fixpoint before (g : Z) (l : list (ptr * Z)) : list (ptr * Z) :=
  match l with
  | [] => []
  | (q, h) :: l => if h <=? g then (q, h) :: before g l else []
  end.
Fixpoint from (g : Z) (l : list (ptr * Z)) : list (ptr * Z) :=
  match l with
  | [] => []
  | (q, h) :: l' => if h <=? g then from g l' else l
  end.

Lemma before_from g l : l = before g l ++ from g l.
Proof. induction l as [|[q h] l IH]; cbn; [done|]. destruct (h <=? g); cbn; congruence. Qed.

Lemma timer_insert_split p g l : timer_insert p g l = before g l ++ (p, g) :: from g l.
Proof. induction l as [|[q h] l IH]; cbn; [done|]. destruct (h <=? g); cbn; congruence. Qed.

Lemma timer_insert_sorted p g l :
  StronglySorted Z.le l.*2 -> StronglySorted Z.le (timer_insert p g l).*2.
Proof.
  induction l as [|[q h] l IH]; cbn; intros Hs.
  { repeat constructor. }
  apply StronglySorted_inv in Hs as [Hs Hh]. destruct (h <=? g) eqn:E; zbool; cbn.
  - constructor; [by apply IH|]. rewrite timer_insert_split, fmap_app. cbn.
    rewrite (before_from g l), fmap_app in Hh. rewrite Forall_app in *.
    destruct Hh. split; [done|]. by constructor.
  - constructor; [by constructor|]. constructor; [lia|].
    eapply Forall_impl; [exact Hh|]. cbn. lia.
Qed.

Lemma tseg_app s o l1 l2 v :
  tseg s o (l1 ++ l2) v <-> exists w, tseg s o l1 w /\ tseg s w l2 v.
Proof.
  revert o; induction l1 as [|[p g] l1 IH]; intros o; cbn.
  - split; [by eauto|]. by intros (w&->&?).
  - split.
    + intros (->&next&Hs&Ht). apply IH in Ht as (w&?&?). eauto 10.
    + intros (w&(->&next&Hs&Ht)&H2). split; [done|]. exists next. split; [done|].
      apply IH. eauto.
Qed.

Lemma tseg_frame s s' o l v :
  Forall (fun p => saved_at s' p = saved_at s p) l.*1 -> tseg s o l v -> tseg s' o l v.
Proof.
  revert o; induction l as [|[p g] l IH]; intros o Hf; cbn; [done|].
  apply Forall_cons in Hf as [Hp Hf]. intros (->&next&Hs&Ht). split; [done|].
  exists next. cbn in Hp. rewrite Hp. auto.
Qed.

Lemma tseg_in s o l v p : tseg s o l v -> p ∈ l.*1 -> is_Some (procs s !! p).
Proof.
  revert o; induction l as [|[q g] l IH]; intros o; cbn; [by intros _ ?%elem_of_nil|].
  intros (->&next&Hs&Ht) [->|Hp]%elem_of_cons; [|by eapply IH].
  apply saved_at_inv in Hs as (x&?&_). eauto.
Qed.

(** A chain without repetitions is no longer than the store is large. *)
Lemma chain_bound (s : kstate) (l : list ptr) :
  NoDup l -> (forall p, p ∈ l -> is_Some (procs s !! p)) -> (length l < proc_count s)%nat.
Proof.
  intros Hn Hl. unfold proc_count. apply Nat.lt_succ_r.
  rewrite <- (size_list_to_set (C := gset ptr) l Hn), <- (size_dom (D := gset ptr) (procs s)).
  apply subseteq_size. intros p Hp. apply elem_of_list_to_set in Hp.
  apply elem_of_dom. by apply Hl.
Qed.

Lemma waits4timer_val s p g next :
  saved_at s p = Some (waits4timer g next) -> waits4timer_of p s = Val (g, next) s.
Proof. intros (x&Hx&Hs)%saved_at_inv. unfold waits4timer_of. do 2 kaccess. by rewrite Hs. Qed.

(** The value in a slot. *)
Definition tslot_is (s : kstate) (slot v : option ptr) : Prop :=
  match slot with
  | None => scheduled s = v
  | Some p => exists g, saved_at s p = Some (waits4timer g v)
  end.

Lemma tslot_get_val s slot v : tslot_is s slot v -> tslot_get slot s = Val v s.
Proof.
  destruct slot as [p|]; cbn.
  - intros (g&Hs). apply bind_runs. unfold runs. by rewrite (waits4timer_val _ _ _ _ Hs).
  - intros <-. done.
Qed.

(** The slot after the processes of [l]. *)
Fixpoint last_slot (slot : option ptr) (l : list (ptr * Z)) : option ptr :=
  match l with [] => slot | (p, _) :: l => last_slot (Some p) l end.

Lemma last_slot_is s slot o l v :
  tslot_is s slot o -> tseg s o l v -> tslot_is s (last_slot slot l) v.
Proof.
  revert slot o; induction l as [|[p g] l IH]; intros slot o Hs; cbn; [by intros <-|].
  intros (->&next&Hn&Ht). eapply IH; [|exact Ht]. exists g. done.
Qed.

Lemma schedule_loop s time slot o l n :
  tslot_is s slot o -> tseg s o l None ->
  Forall (fun p => state_at s p = Some PS_WAITS4TIMER) l.*1 -> (length l < n)%nat ->
  iter n (schedule_turn time) slot s = Val (last_slot slot (before time l)) s.
Proof.
  revert slot o n; induction l as [|[q h] l IH]; intros slot o n Hs Ht Hw Hn;
    (destruct n as [|n]; [cbn in Hn; lia|]); cbn [iter].
  - cbn in Ht. subst o. apply bind_runs. unfold runs, schedule_turn, mbind, st_bind.
    by rewrite (tslot_get_val _ _ _ Hs).
  - cbn in Ht. destruct Ht as (->&next&Hsv&Ht). apply Forall_cons in Hw as [Hq Hw].
    apply bind_runs. unfold runs, schedule_turn, mbind, st_bind.
    cbn in Hq. rewrite (tslot_get_val _ _ _ Hs), (waits4timer_val _ _ _ _ Hsv). cbn.
    destruct (h <=? time); [|done]. rewrite (assert_state_val _ _ _ Hq). cbn.
    apply (IH (Some q) next); [by exists h|done|done|cbn in Hn; lia].
Qed.

(** The wake-up time [timer_schedule] computes. *)
Definition wake_time (now time period : Z) : Z :=
  let t := u64 (now + u64 (time * 1000000) / period) in
  if t <? now then u64 (-1) else t.

Lemma hpet_sched_val s l :
  tseg s (scheduled s) l None ->
  hpet_sched s = Val () (s <| hpet_timval := head l.*2 |>).
Proof.
  intros Ht. unfold hpet_sched. do 2 kaccess. destruct l as [|[p g] l]; cbn in Ht.
  - by rewrite Ht.
  - destruct Ht as (->&next&Hs&_). apply bind_runs. unfold runs.
    by rewrite (waits4timer_val _ _ _ _ Hs).
Qed.

Lemma last_slot_snoc slot l q h : last_slot slot (l ++ [(q, h)]) = Some q.
Proof. revert slot; induction l as [|[p g] l IH]; intros slot; cbn; auto. Qed.

(** Frames: an update of a process outside the list. *)
Lemma tseg_put s p x o l v :
  p ∉ l.*1 -> tseg s o l v -> tseg (put_proc p x s) o l v.
Proof.
  intros Hp. apply tseg_frame. apply Forall_forall. intros q Hq.
  rewrite saved_at_put. by rewrite decide_False by (intros ->; done).
Qed.

(** Storing [o] in the slot after [pre]. *)
Lemma tslot_set_val s pre w o :
  tseg s (scheduled s) pre w -> NoDup pre.*1 ->
  exists s', tslot_set (last_slot None pre) o s = Val () s' /\
    tseg s' (scheduled s') pre o /\
    (forall q, q ∉ pre.*1 -> saved_at s' q = saved_at s q) /\
    (forall q, state_at s' q = state_at s q).
Proof.
  destruct pre as [|[q h] pre _] using rev_ind; intros Ht Hn.
  - eexists. split; [reflexivity|]. cbn. done.
  - rewrite last_slot_snoc. apply tseg_app in Ht as (u&Hpre&(->&next&Hs&->)).
    rewrite fmap_app in Hn. apply NoDup_app in Hn as (_&Hq&_).
    assert (Hq' : q ∉ pre.*1) by (intros Hin; apply (Hq _ Hin); by left).
    pose proof (saved_at_inv _ _ _ Hs) as (x&Hx&Hxs).
    exists (put_proc q (x <| p_saved := waits4timer h o |>) s).
    split; [|split; [|split]].
    + unfold tslot_set. apply bind_runs. unfold runs. rewrite (waits4timer_val _ _ _ _ Hs).
      unfold setf, wr, mbind, st_bind, get_. cbn. by rewrite Hx.
    + apply tseg_app. exists (Some q). split; [by apply tseg_put|].
      cbn. split; [done|]. exists o. by rewrite saved_at_put, decide_True.
    + intros r Hr. rewrite saved_at_put. rewrite fmap_app in Hr.
      rewrite decide_False; [done|]. intros ->. apply Hr, elem_of_app. right. by left.
    + intros r. rewrite state_at_put. case_decide; [|done]. subst.
      unfold state_at. by rewrite Hx.
Qed.

Lemma in_insert p g l q :
  q ∈ (timer_insert p g l).*1 <-> q = p \/ q ∈ l.*1.
Proof.
  rewrite timer_insert_split, fmap_app, elem_of_app. cbn. rewrite elem_of_cons.
  rewrite (before_from g l) at 3. rewrite fmap_app, elem_of_app. tauto.
Qed.

Lemma nodup_insert p g l : p ∉ l.*1 -> NoDup l.*1 -> NoDup (timer_insert p g l).*1.
Proof.
  rewrite timer_insert_split. rewrite (before_from g l) at 1 2.
  rewrite !fmap_app. cbn. intros Hp Hn. apply NoDup_app in Hn as (H1&H2&H3).
  rewrite elem_of_app in Hp. apply NoDup_app. split; [done|]. split.
  - intros q Hq [->|Hr]%elem_of_cons; [tauto|by eapply H2].
  - constructor; [tauto|done].
Qed.

(** Linking [p] in where the search ends. *)
Lemma timer_link s p x g l :
  tseg s (scheduled s) l None -> NoDup l.*1 -> p ∉ l.*1 ->
  exists w s', tslot_is s (last_slot None (before g l)) w /\
    tslot_set (last_slot None (before g l)) (Some p)
      (put_proc p (x <| p_saved := waits4timer g w |>) s) = Val () s' /\
    tseg s' (scheduled s') (timer_insert p g l) None /\
    (forall q, q <> p -> state_at s' q = state_at s q) /\ state_at s' p = Some (p_state x).
Proof.
  intros Ht Hn Hp. rewrite (before_from g l) in Ht, Hn, Hp.
  rewrite fmap_app in Hn, Hp. apply NoDup_app in Hn as (Hnb&Hd&_).
  rewrite elem_of_app in Hp. apply tseg_app in Ht as (w&Hpre&Hrest).
  assert (Hpre' : tseg (put_proc p (x <| p_saved := waits4timer g w |>) s) (scheduled s)
                    (before g l) w) by (apply tseg_put; [tauto|done]).
  destruct (tslot_set_val _ _ w (Some p) Hpre' Hnb) as (s'&Hset&Hpre4&Hfr&Hst).
  exists w, s'. split; [by eapply last_slot_is; [|exact Hpre]|]. split; [done|].
  split; [|split].
  - rewrite timer_insert_split. apply tseg_app. exists (Some p). split; [done|].
    cbn. split; [done|]. exists w. split.
    + rewrite Hfr by tauto. by rewrite saved_at_put, decide_True.
    + apply (tseg_frame (put_proc p (x <| p_saved := waits4timer g w |>) s));
        [|apply tseg_put; [tauto|done]].
      apply Forall_forall. intros q Hq. apply Hfr. intros Hq'. by eapply Hd.
  - intros q Hq. rewrite Hst, state_at_put. by rewrite decide_False.
  - rewrite Hst, state_at_put. by rewrite decide_True.
Qed.

Lemma timer_schedule_spec s l p now time :
  timers s l -> state_at s p = Some PS_RUNNING -> hpet_counter s = Some now ->
  hpet_period s <> 0 ->
  let l' := timer_insert p (wake_time now time (hpet_period s)) l in
  exists s', timer_schedule p time s = Val () s' /\ timers s' l' /\
    hpet_timval s' = head l'.*2 /\
    (forall q, q <> p -> state_at s' q = state_at s q).
Proof.
  intros [Ht Hn Hw Hs] Hp Hc Hper l'. set (g := wake_time now time (hpet_period s)) in *.
  assert (Hpl : p ∉ l.*1).
  { intros Hin. rewrite Forall_forall in Hw. specialize (Hw p Hin). congruence. }
  pose proof (state_at_inv _ _ _ Hp) as (x&Hx&Hr).
  set (x1 := x <| p_state := PS_WAITS4TIMER |> <| p_saved := waits4timer g None |>).
  set (s2 := put_proc p x1 (put_proc p (x <| p_state := PS_WAITS4TIMER |>) s)).
  assert (Ht2 : tseg s2 (scheduled s2) l None)
    by (unfold s2; repeat (apply tseg_put; [done|]); done).
  destruct (timer_link s2 p x1 g l Ht2 Hn Hpl) as (w&s4&Hslot&Hset&Ht4&Hst&Hstp).
  assert (Hst4 : forall q, q <> p -> state_at s4 q = state_at s q).
  { intros q Hq. rewrite Hst by done. unfold s2. rewrite !state_at_put. by repeat case_decide. }
  assert (Hw2 : Forall (fun p => state_at s2 p = Some PS_WAITS4TIMER) l.*1).
  { eapply Forall_impl; [exact Hw|]. intros q Hq. unfold s2.
    rewrite !state_at_put. by repeat case_decide. }
  exists (s4 <| hpet_timval := head l'.*2 |>). split; [|split; [|done]].
  - unfold timer_schedule, get_counter. do 3 kaccess. rewrite Hc.
    do 3 kaccess. rewrite (proj2 (Z.eqb_neq _ 0)) by done.
    fold (wake_time now time (hpet_period s)). cbv zeta.
    change (wake_time now time (hpet_period s)) with g.
    apply bind_runs. unfold runs. rewrite (setstate_sleep_val _ _ _ PS_WAITS4TIMER Hx Hr I).
    apply bind_runs. eapply runs_wr; [cbn; by rewrite lookup_insert_eq|].
    change (set_store _ _) with s2. do 2 kaccess.
    apply bind_runs. unfold runs.
    rewrite (schedule_loop s2 g None (scheduled s2) l); [|done|done|done|].
    2:{ rewrite <- (length_fmap fst). apply chain_bound; [done|]. intros q. by eapply tseg_in. }
    apply bind_runs. unfold runs. rewrite (tslot_get_val _ _ _ Hslot).
    apply bind_runs. eapply runs_wr; [unfold s2; cbn; by rewrite lookup_insert_eq|].
    change (set_store _ _) with (put_proc p (x1 <| p_saved := waits4timer g w |>) s2).
    apply bind_runs. unfold runs. rewrite Hset. by apply hpet_sched_val.
  - split; [by apply (tseg_frame s4); [apply Forall_forall|]|by apply nodup_insert| |by apply timer_insert_sorted].
    apply Forall_forall. intros q Hq. change (state_at s4 q = Some PS_WAITS4TIMER).
    apply in_insert in Hq as [->|Hq]; [done|].
    rewrite Hst4 by (intros ->; done). rewrite Forall_forall in Hw. by apply Hw.
Qed.

(** C7: [timer_schedule] puts a running process to sleep in the right place of
    the list: the list stays sorted by wake-up time, without repetitions and
    with sleeping processes only, processes that wake at the same time keep
    their order, the comparator is set to the earliest wake-up time, and no
    other process changes its state. *)
Theorem timer_schedule_inserts s l p now time :
  timers s l -> state_at s p = Some PS_RUNNING -> hpet_counter s = Some now ->
  hpet_period s <> 0 ->
  let l' := timer_insert p (wake_time now time (hpet_period s)) l in
  exists s', timer_schedule p time s = Val () s' /\ timers s' l' /\
    hpet_timval s' = head l'.*2 /\
    (forall q, q <> p -> state_at s' q = state_at s q).
Proof. apply timer_schedule_spec. Qed.

(** A process sleeps a millisecond on an idle machine. *)
Lemma timer_schedule_inserts_witness :
  let s := kstate0 (Malloc.mkAlloc 0 [] 0 0 ∅) <| procs := {[5%positive := proc0]} |>
             <| hpet_counter := Some 7 |> <| hpet_period := 1000000 |> in
  exists s', timer_schedule 5 1000000 s = Val () s' /\ timers s' [(5%positive, 1000007)] /\
    hpet_timval s' = Some 1000007.
Proof.
  intros s. destruct (timer_schedule_inserts s [] 5 7 1000000) as (s'&H1&H2&H3&_).
  - by repeat constructor.
  - reflexivity.
  - reflexivity.
  - done.
  - exists s'. split; [exact H1|]. split; [exact H2|exact H3].
Defined.

Lemma timers_cons s p g l :
  tseg s (scheduled s) ((p, g) :: l) None ->
  exists next, scheduled s = Some p /\ saved_at s p = Some (waits4timer g next) /\
    tseg s next l None.
Proof. cbn. intros (->&next&?&?). eauto. Qed.

(** Waking one process of the list. *)
Lemma timers_wake s l l' p x o :
  NoDup l'.*1 -> p ∉ l'.*1 -> (forall q, q ∈ l'.*1 -> state_at s q = Some PS_WAITS4TIMER) ->
  StronglySorted Z.le l'.*2 -> tseg s o l' None -> l = l' ->
  let s' := put_proc p x (s <| scheduled := o |>) <| hpet_timval := head l'.*2 |> in
  timers s' l'.
Proof.
  intros Hn Hp Hw Hs Ht _ s'. split; [|done| |done].
  - apply (tseg_frame (put_proc p x s)); [by apply Forall_forall|by apply tseg_put].
  - apply Forall_forall. intros q Hq. change (state_at (put_proc p x s) q = Some PS_WAITS4TIMER).
    rewrite state_at_put, decide_False by (intros ->; done). by apply Hw.
Qed.

(** The list after an interrupt at the time [now]. *)
Definition timer_expire (now : Z) (l : list (ptr * Z)) : list (ptr * Z) :=
  match l with
  | (p, g) :: r => if g <? now then r else l
  | [] => []
  end.

Lemma hpet_irq_spec s l now :
  timers s l -> hpet_counter s = Some now ->
  let l' := timer_expire now l in
  exists s', hpet_irq s = Val () s' /\ timers s' l' /\ hpet_timval s' = head l'.*2 /\
    forall q, state_at s' q =
      if bool_decide (q ∈ l.*1 /\ q ∉ l'.*1) then Some PS_RUNNING else state_at s q.
Proof.
  intros [Ht Hn Hw Hs] Hc l'. destruct l as [|[p g] l].
  { exists (s <| hpet_timval := None |>). cbn in Ht. split; [|split; [|split; [done|]]].
    - unfold hpet_irq. do 2 kaccess. rewrite Ht. do 2 kaccess. by apply (hpet_sched_val s []).
    - by split.
    - intros q. rewrite bool_decide_false; [done|]. intros [[]%elem_of_nil _]. }
  apply timers_cons in Ht as (next&Hsch&Hsv&Ht).
  assert (Hpost : hpet_irq s =
    (when (g <? now) (setp scheduled next;; proc_setstate p PS_RUNNING);; hpet_sched) s).
  { unfold hpet_irq, get_counter. do 2 kaccess. rewrite Hsch. unfold mbind at 1, st_bind at 1.
    assert (E : ('(goal, next) ← waits4timer_of p; c ← c ← getp hpet_counter;
        match c with Some c => mret c | None => panic end;
      when (goal <? c) (setp scheduled next;; proc_setstate p PS_RUNNING)) s =
      when (g <? now) (setp scheduled next;; proc_setstate p PS_RUNNING) s).
    { apply bind_runs. unfold runs. rewrite (waits4timer_val _ _ _ _ Hsv).
      apply bind_runs. do 2 kaccess. rewrite Hc. by kaccess. }
    rewrite E. reflexivity. }
  rewrite Hpost. clear Hpost. cbn [timer_expire] in l'.
  apply NoDup_cons in Hn as [Hp Hn]. apply Forall_cons in Hw as [Hpw Hw]. cbn in Hpw.
  destruct (g <? now) eqn:E; subst l'; unfold when.
  - pose proof (state_at_inv _ _ _ Hpw) as (x&Hx&Hxs).
    exists (put_proc p (x <| p_state := PS_RUNNING |>) (s <| scheduled := next |>)
              <| hpet_timval := head l.*2 |>).
    split; [|split; [|split; [done|]]].
    + do 3 kaccess. unfold runs. rewrite (setstate_running_val _ p x); [|done|by rewrite Hxs].
      apply hpet_sched_val. apply (tseg_frame (put_proc p (x <| p_state := PS_RUNNING |>) s));
        [by apply Forall_forall|by apply tseg_put].
    + cbn in Hs. apply StronglySorted_inv in Hs as [Hs _]. rewrite Forall_forall in Hw.
      by eapply timers_wake.
    + intros q. etrans; [exact (state_at_put s p (x <| p_state := PS_RUNNING |>) q)|].
      case_decide as Hq.
      * subst. by rewrite bool_decide_true by (cbn; split; [by left|done]).
      * rewrite bool_decide_false; [done|]. cbn. rewrite elem_of_cons.
        intros [[->|?] ?]; done.
  - exists (s <| hpet_timval := head ((p, g) :: l).*2 |>). split; [|split; [|split; [done|]]].
    + apply (hpet_sched_val s ((p, g) :: l)). cbn. eauto.
    + split; [|by constructor|by constructor|done].
      apply (tseg_frame s); [by apply Forall_forall|]. cbn. eauto.
    + intros q. rewrite bool_decide_false; [done|]. by intros [? ?].
Qed.

(** The timer interrupt wakes the first sleeper exactly when its time has
    passed - never early - and no other process; the list keeps its invariant
    and the comparator is set to the next wake-up time, or disabled when nobody
    sleeps. *)
Theorem hpet_irq_wakes_head s l now :
  timers s l -> hpet_counter s = Some now ->
  let l' := timer_expire now l in
  exists s', hpet_irq s = Val () s' /\ timers s' l' /\ hpet_timval s' = head l'.*2 /\
    forall q, state_at s' q =
      if bool_decide (q ∈ l.*1 /\ q ∉ l'.*1) then Some PS_RUNNING else state_at s q.
Proof. apply hpet_irq_spec. Qed.

(** Of two sleepers the first is woken at time 4. *)
Lemma hpet_irq_wakes_head_witness :
  let asleep g next := proc0 <| p_state := PS_WAITS4TIMER |> <| p_saved := waits4timer g next |> in
  let s := kstate0 (Malloc.mkAlloc 0 [] 0 0 ∅) <| hpet_counter := Some 4 |>
             <| procs := {[5%positive := asleep 3 (Some 6%positive);
                           6%positive := asleep 9 None]} |> <| scheduled := Some 5%positive |> in
  exists s', hpet_irq s = Val () s' /\ timers s' [(6%positive, 9)] /\
    hpet_timval s' = Some 9 /\ state_at s' 5 = Some PS_RUNNING /\
    state_at s' 6 = Some PS_WAITS4TIMER.
Proof.
  intros asleep s.
  destruct (hpet_irq_wakes_head s [(5%positive, 3); (6%positive, 9)] 4) as (s'&H1&H2&H3&H4).
  - split; cbn.
    + split; [done|]. exists (Some 6%positive). split; [done|]. split; [done|].
      exists None. done.
    + apply (bool_decide_unpack _). reflexivity.
    + by repeat constructor.
    + by repeat constructor.
  - reflexivity.
  - exists s'. split; [exact H1|]. split; [exact H2|]. split; [exact H3|].
    split; [exact (H4 5%positive)|exact (H4 6%positive)].
Defined.
