(* ===== verification/TimerLive.v ===== *)
(** * TimerLive

    Progress of sleeping processes.  [Timer] shows what each operation on the
    list of sleepers does; here the operations are events at given values of
    the counter, in any order, and a process that sleeps is woken once its time
    has come, whatever the others do. *)

From stdpp Require Import sorting.
From S2P Require Import Prelude Monad KState Proc Timer.

(** ** [timer_deschedule] *)

Definition without (p : ptr) (l : list (ptr * Z)) : list (ptr * Z) := filter (fun x => x.1 <> p) l.

Lemma without_notin p l : p ∉ l.*1 -> without p l = l.
Proof.
  intros Hp. induction l as [|[q g] l IH]; [done|]. cbn in Hp. rewrite elem_of_cons in Hp.
  unfold without in *. rewrite filter_cons_True by (cbn; intros ->; tauto). f_equal. tauto.
Qed.

Lemma without_app p g l1 l2 : p ∉ l1.*1 -> p ∉ l2.*1 -> without p (l1 ++ (p, g) :: l2) = l1 ++ l2.
Proof.
  intros H1 H2. unfold without. rewrite filter_app, filter_cons_False by (cbn; tauto).
  f_equal; by apply without_notin.
Qed.

(** The search ends at the slot that holds [p], or at the end. *)
Lemma deschedule_loop s p slot o l1 l2 n :
  tslot_is s slot o -> tseg s o (l1 ++ l2) None -> p ∉ l1.*1 ->
  head l2.*1 = Some p \/ l2 = [] -> (length l1 < n)%nat ->
  iter n (deschedule_turn p) slot s = Val (last_slot slot l1) s.
Proof.
  revert slot o n; induction l1 as [|[q h] l1 IH]; intros slot o n Hs Ht Hp H2 Hn;
    (destruct n as [|n]; [cbn in Hn; lia|]); cbn [iter].
  - apply bind_runs. unfold runs, deschedule_turn, mbind, st_bind.
    rewrite (tslot_get_val _ _ _ Hs). destruct l2 as [|[q h] l2]; cbn in Ht.
    + by subst o.
    + destruct Ht as (->&_). destruct H2 as [[= ->]|]; [|done]. by rewrite bool_decide_true.
  - cbn in Ht, Hp. destruct Ht as (->&next&Hsv&Ht). rewrite elem_of_cons in Hp.
    apply bind_runs. unfold runs, deschedule_turn, mbind, st_bind.
    rewrite (tslot_get_val _ _ _ Hs), bool_decide_false by (intros ->; tauto).
    apply (IH (Some q) next); [by exists h|done|tauto|done|cbn in Hn; lia].
Qed.

Lemma sublist_sorted (l k : list Z) : sublist l k -> StronglySorted Z.le k -> StronglySorted Z.le l.
Proof.
  induction 1 as [|x l k Hs IH|x l k Hs IH]; intros Hk; [constructor|..];
    apply StronglySorted_inv in Hk as [Hk Hx]; [|by apply IH].
  constructor; [by apply IH|]. apply Forall_forall. intros y Hy. eapply Forall_forall; [exact Hx|].
  by eapply elem_of_sublist.
Qed.

(** [timer_deschedule] takes [p] out of the list and makes it runnable. *)
Lemma timer_deschedule_spec s l p :
  timers s l -> p ∈ l.*1 ->
  exists s', timer_deschedule p s = Val () s' /\ timers s' (without p l) /\
    state_at s' p = Some PS_RUNNING /\ hpet_timval s' = head (without p l).*2 /\
    (forall q, q <> p -> state_at s' q = state_at s q).
Proof.
  intros [Ht Hn Hw Hs] Hp. apply list_elem_of_fmap in Hp as ([p' g]&E&Hp). cbn in E. subst p'.
  apply list_elem_of_split in Hp as (pre&post&->).
  rewrite fmap_app in Hn, Hw. cbn in Hn, Hw.
  apply NoDup_app in Hn as (Hn1&Hd&Hn2). apply NoDup_cons in Hn2 as [Hp2 Hn2].
  assert (Hp1 : p ∉ pre.*1) by (intros Hin; apply (Hd p Hin); by left).
  apply Forall_app in Hw as [Hw1 Hw2]. apply Forall_cons in Hw2 as [Hpw Hw2]. cbn in Hpw.
  assert (Hlen : (length (pre ++ (p, g) :: post) < proc_count s)%nat).
  { rewrite <- (length_fmap fst). apply chain_bound; [|intros q; by eapply tseg_in].
    rewrite fmap_app. apply NoDup_app. split; [done|]. split; [done|]. by constructor. }
  rewrite length_app in Hlen. rewrite without_app by done.
  pose proof Ht as Ht'. apply tseg_app in Ht' as (w&Hpre&(->&next&Hsv&Hpost)).
  destruct (tslot_set_val s pre (Some p) next Hpre Hn1) as (s1&Hset&Hpre1&Hfr&Hst).
  assert (Hst1 : state_at s1 p = Some PS_WAITS4TIMER) by (by rewrite Hst).
  pose proof (state_at_inv _ _ _ Hst1) as (x1&Hx1&Hxs1).
  set (s2 := put_proc p (x1 <| p_state := PS_RUNNING |>) s1).
  assert (Ht2 : tseg s2 (scheduled s2) (pre ++ post) None).
  { apply tseg_app. exists next. split; [by apply tseg_put|]. apply tseg_put; [done|].
    apply (tseg_frame s); [|done]. apply Forall_forall. intros q Hq. apply Hfr.
    intros Hin. apply (Hd q Hin). by right. }
  assert (Hst2 : forall q, q <> p -> state_at s2 q = state_at s q).
  { intros q Hq. unfold s2. by rewrite state_at_put, decide_False. }
  exists (s2 <| hpet_timval := head (pre ++ post).*2 |>). split; [|split; [|split; [|split; [done|done]]]].
  - unfold timer_deschedule. apply bind_runs. unfold runs. rewrite (assert_state_val _ _ _ Hpw).
    do 2 kaccess. apply bind_runs. unfold runs.
    rewrite (deschedule_loop s p None (scheduled s) pre ((p, g) :: post)); [|done|done|done|by left|lia].
    apply bind_runs. unfold runs.
    rewrite (tslot_get_val s _ (Some p)) by (by eapply last_slot_is; [|exact Hpre]).
    do 2 kaccess. apply bind_runs. unfold runs. rewrite (waits4timer_val _ _ _ _ Hsv).
    apply bind_runs. unfold runs. rewrite Hset. apply bind_runs. unfold runs.
    rewrite (setstate_running_val _ p x1) by (done || by rewrite Hxs1). by apply hpet_sched_val.
  - split; [apply (tseg_frame s2); [by apply Forall_forall|done]| | |].
    + rewrite fmap_app. apply NoDup_app. split; [done|]. split; [|done].
      intros q Hq Hq'. apply (Hd q Hq). by right.
    + apply Forall_forall. intros q Hq. rewrite fmap_app, elem_of_app in Hq.
      change (state_at s2 q = Some PS_WAITS4TIMER). rewrite Hst2.
      * destruct Hq as [Hq|Hq]; [by eapply Forall_forall in Hw1|by eapply Forall_forall in Hw2].
      * intros ->. by destruct Hq.
    + eapply sublist_sorted; [|exact Hs]. apply fmap_sublist. apply sublist_app; [done|].
      by apply sublist_cons.
  - change (state_at s2 p = Some PS_RUNNING). unfold s2. by rewrite state_at_put, decide_True.
Qed.

(** A process outside the list trips the assertion. *)
Lemma timer_deschedule_listed s l p s' :
  timers s l -> timer_deschedule p s = Val () s' -> p ∈ l.*1.
Proof.
  intros [Ht Hn _ _] H. destruct (decide (p ∈ l.*1)) as [|Hp]; [done|exfalso].
  unfold timer_deschedule in H. apply bind_val in H as ([]&s1&Ha&H).
  assert (s1 = s) as ->.
  { unfold assert_state in Ha. apply bind_val in Ha as (b&s2&Hb&Ha).
    unfold state_is in Hb. apply bind_val in Hb as (x&s3&Hx&Hb). injection Hb as <- <-.
    unfold getf in Hx. apply bind_val in Hx as (y&s4&Hy&Hx). injection Hx as <- <-.
    unfold rd, mbind, st_bind, get_, deref in Hy. destruct (store_of s !! p); [|done].
    injection Hy as <- <-. unfold assert in Ha. case_match; [|done]. by injection Ha. }
  apply bind_val in H as (n&s2&Hc&H). injection Hc as <- <-.
  assert (Hlen : (length l < proc_count s)%nat).
  { rewrite <- (length_fmap fst). apply chain_bound; [done|]. intros q. by eapply tseg_in. }
  apply bind_val in H as (slot&s3&Hl&H).
  rewrite (deschedule_loop s p None (scheduled s) l []) in Hl by (by rewrite ?app_nil_r; auto).
  injection Hl as <- <-. apply bind_val in H as (v&s4&Hv&H).
  rewrite (tslot_get_val s _ None) in Hv by (by eapply last_slot_is).
  injection Hv as <- <-. by apply bind_val in H as ([]&?&Hf&_).
Qed.

Lemma timer_schedule_running s p time s' :
  timer_schedule p time s = Val () s' -> state_at s p = Some PS_RUNNING.
Proof.
  intros H. unfold timer_schedule in H. apply bind_val in H as (now&s1&Hn&H).
  assert (s1 = s) as ->.
  { unfold get_counter in Hn. apply bind_val in Hn as (c&s2&Hc&Hn). injection Hc as <- <-.
    destruct (hpet_counter s); [|done]. by injection Hn. }
  apply bind_val in H as (per&s1&Hp&H). injection Hp as <- <-. case_match; [done|].
  cbv zeta in H. apply bind_val in H as ([]&s1&Hs&_). unfold proc_setstate in Hs.
  apply bind_val in Hs as (cur&s2&Hc&Hs). unfold getf in Hc.
  apply bind_val in Hc as (x&s3&Hx&Hc). injection Hc as <- <-.
  unfold rd, mbind, st_bind, get_, deref in Hx. destruct (store_of s !! p) as [y|] eqn:Ey; [|done].
  injection Hx as -> <-. apply bind_val in Hs as ([]&s4&Ha&Hs).
  unfold assert in Ha. case_match; [|done]. injection Ha as <-.
  apply bind_val in Hs as ([]&s5&Hb&_). unfold assert in Hb. case_match eqn:E; [|done].
  apply bool_decide_eq_true in E. unfold state_at. change (procs s !! p = Some x) in Ey.
  by rewrite Ey, <- E.
Qed.

(** ** Runs *)

(** What happens to the timer: its interrupt, a process goes to sleep (for a
    number of nanoseconds), a sleeping process is woken before its time.  Each
    at a value of the counter. *)
Inductive tevent := Irq | Sleep (p : ptr) (time : Z) | Wake (p : ptr).

Definition timer_event (e : Z * tevent) : K () :=
  setp hpet_counter (Some e.1);;
  match e.2 with
  | Irq => hpet_irq
  | Sleep p time => timer_schedule p time
  | Wake p => timer_deschedule p
  end.

Fixpoint timer_run (evs : nat -> Z * tevent) (n : nat) : K () :=
  match n with
  | O => mret ()
  | S n => timer_run evs n;; timer_event (evs n)
  end.

(** The number of sleepers in front of [p]. *)
Fixpoint ahead (p : ptr) (l : list (ptr * Z)) : nat :=
  match l with
  | [] => 0
  | (q, _) :: l => if decide (q = p) then 0 else S (ahead p l)
  end.

Lemma timers_counter s l c : timers s l -> timers (s <| hpet_counter := c |>) l.
Proof.
  intros [Ht Hn Hw Hs]. split; try done. apply (tseg_frame s); [by apply Forall_forall|done].
Qed.

Lemma in_timer_insert (x : ptr * Z) p g l : x ∈ l -> x ∈ timer_insert p g l.
Proof.
  rewrite timer_insert_split. rewrite (before_from g l) at 1.
  rewrite !elem_of_app, elem_of_cons. tauto.
Qed.

(** Who goes to sleep later is woken later. *)
Lemma ahead_insert p g q h l :
  StronglySorted Z.le l.*2 -> (p, g) ∈ l -> g <= h -> ahead p (timer_insert q h l) = ahead p l.
Proof.
  induction l as [|[r k] l IH]; intros Hs Hp Hgh; [by apply elem_of_nil in Hp|].
  cbn in Hs. apply StronglySorted_inv in Hs as [Hs Hk]. cbn [timer_insert].
  apply elem_of_cons in Hp as [[= <- <-]|Hp].
  - rewrite (proj2 (Z.leb_le _ _)) by lia. cbn [ahead]. by case_decide.
  - assert (k <= g) by (rewrite Forall_forall in Hk; exact (Hk g (list_elem_of_fmap_2 snd l (p, g) Hp))).
    rewrite (proj2 (Z.leb_le _ _)) by lia. cbn [ahead]. by rewrite IH.
Qed.

Lemma ahead_without p q l : q <> p -> (ahead p (without q l) <= ahead p l)%nat.
Proof.
  intros Hq. induction l as [|[r k] l IH]; [done|]. unfold without in *. cbn [ahead].
  destruct (decide (r = q)) as [->|].
  - rewrite filter_cons_False by (cbn; tauto). rewrite decide_False by done. lia.
  - rewrite filter_cons_True by done. cbn [ahead]. case_decide; lia.
Qed.

(** With the counter past [g], the wake-up times of those who go to sleep are. *)
Lemma wake_time_ge now time period : 0 <= now < 2 ^ 64 -> now <= wake_time now time period.
Proof.
  intros. unfold wake_time. case_match; zbool; [|done]. change (u64 (-1)) with (2 ^ 64 - 1). lia.
Qed.

(** One event: [p] gets to run or stays in the list; once its time has passed
    nobody gets in front of it, and an interrupt takes one off the front. *)
Lemma timer_event_step s l p g now e s' :
  timers s l -> (p, g) ∈ l -> 0 <= now < 2 ^ 64 -> timer_event (now, e) s = Val () s' ->
  state_at s' p = Some PS_RUNNING \/
  exists l', timers s' l' /\ (p, g) ∈ l' /\
    (g < now -> (match e with Irq => 1 | _ => 0 end + ahead p l' <= ahead p l)%nat).
Proof.
  intros Hl Hp Hnow H. unfold timer_event in H. apply bind_val in H as ([]&s1&E&H).
  injection E as <-. cbn [fst snd] in H.
  apply (timers_counter _ _ (Some now)) in Hl. set (s1 := s <| hpet_counter := Some now |>) in *.
  assert (Hp1 : p ∈ l.*1) by (by apply (list_elem_of_fmap_2 fst) in Hp).
  destruct e as [|q time|q].
  - destruct (hpet_irq_spec s1 l now Hl eq_refl) as (s2&E&Hl2&_&Hst).
    rewrite E in H. injection H as <-.
    destruct (decide (p ∈ (timer_expire now l).*1)) as [Hin|Hout].
    + right. exists (timer_expire now l). split; [done|]. destruct l as [|[q h] l]; [by apply elem_of_nil in Hp|].
      revert Hin. cbn [timer_expire ahead]. destruct (h <? now) eqn:Eh; intros Hin; zbool.
      * assert (Hq : q <> p).
        { intros ->. assert (Hn : NoDup (p :: l.*1)) by exact (timers_nodup _ _ Hl).
          by apply NoDup_cons in Hn as [? _]. }
        apply elem_of_cons in Hp as [[= <- <-]|Hp]; [done|].
        split; [done|]. intros _. rewrite decide_False by done. lia.
      * split; [done|]. intros Hg. exfalso.
        pose proof (timers_sorted _ _ Hl) as Hs. cbn in Hs. apply StronglySorted_inv in Hs as [_ Hk].
        apply elem_of_cons in Hp as [[= <- <-]|Hp]; [lia|].
        rewrite Forall_forall in Hk. pose proof (Hk g (list_elem_of_fmap_2 snd l (p, g) Hp)). lia.
    + left. by rewrite Hst, bool_decide_true.
  - pose proof (timer_schedule_running _ _ _ _ H) as Hq.
    assert (Hper : hpet_period s1 <> 0).
    { intros Hz. unfold timer_schedule in H. apply bind_val in H as (c&s2&Hc&H).
      unfold get_counter in Hc. injection Hc as <- <-.
      apply bind_val in H as (per&s2&Hpe&H). injection Hpe as <- <-.
      case_match eqn:Ez; [done|]. zbool. exact (Ez Hz). }
    destruct (timer_schedule_spec s1 l q now time Hl Hq eq_refl Hper) as (s2&E&Hl2&_&_).
    rewrite E in H. injection H as <-. right. eexists. split; [exact Hl2|].
    split; [by apply in_timer_insert|]. intros Hg.
    pose proof (wake_time_ge now time (hpet_period s1) Hnow).
    rewrite (ahead_insert p g) by (apply Hl || done || lia). lia.
  - pose proof (timer_deschedule_listed _ _ _ _ Hl H) as Hq.
    destruct (timer_deschedule_spec s1 l q Hl Hq) as (s2&E&Hl2&Hrun&_&_).
    rewrite E in H. injection H as <-. destruct (decide (q = p)) as [->|Hne]; [by left|].
    right. exists (without q l). split; [done|]. split; [|intros _; by apply ahead_without].
    apply list_elem_of_filter. split; [|done]. cbn. congruence.
Qed.

Lemma timer_run_S evs n s s' :
  timer_run evs (S n) s = Val () s' ->
  exists s1, timer_run evs n s = Val () s1 /\ timer_event (evs n) s1 = Val () s'.
Proof. cbn. intros ([]&s1&?&?)%bind_val. eauto. Qed.

Section live.
Context (evs : nat -> Z * tevent) (s0 : kstate) (p : ptr) (g : Z).
Context (Hnow : forall n, 0 <= (evs n).1 < 2 ^ 64).
Context (Hrun : forall n, exists s, timer_run evs n s0 = Val () s).

(** [p] has been woken by the time of event [n]. *)
Definition woken : Prop := exists n s, timer_run evs n s0 = Val () s /\ state_at s p = Some PS_RUNNING.

Definition waiting (n k : nat) : Prop :=
  exists s l, timer_run evs n s0 = Val () s /\ timers s l /\ (p, g) ∈ l /\ (ahead p l <= k)%nat.

Lemma waiting_step n k :
  waiting n k ->
  woken \/ exists k', waiting (S n) k' /\
    (g < (evs n).1 -> (match (evs n).2 with Irq => 1 | _ => 0 end + k' <= k)%nat).
Proof.
  intros (s&l&Hs&Hl&Hp&Hk). destruct (Hrun (S n)) as [s' Hs']. pose proof Hs' as H.
  apply timer_run_S in H as (s1&Hs1&He). rewrite Hs in Hs1. injection Hs1 as <-.
  destruct (evs n) as [now e] eqn:En.
  destruct (timer_event_step s l p g now e s' Hl Hp) as [Hr|(l'&Hl'&Hp'&Ha)];
    [specialize (Hnow n); by rewrite En in Hnow|done|left; by exists (S n), s'|right].
  exists (ahead p l'). split; [by exists s', l'|]. cbn. intros Hg. specialize (Ha Hg). lia.
Qed.

(** Any number of events later, as long as nobody has woken it. *)
Lemma waiting_later n k d : waiting n k -> woken \/ exists k', waiting (d + n) k'.
Proof.
  intros Hw. induction d as [|d IH]; [right; by exists k|].
  destruct IH as [|[k' Hk']]; [by left|].
  destruct (waiting_step _ _ Hk') as [|(k''&?&_)]; [by left|right; by exists k''].
Qed.

(** Up to the next interrupt, and with it. *)
Lemma waiting_irq n m k :
  (n <= m)%nat -> (evs m).2 = Irq -> (forall i, (n <= i)%nat -> g < (evs i).1) -> waiting n k ->
  woken \/ exists k', waiting (S m) k' /\ (S k' <= k)%nat.
Proof.
  intros Hnm Hm Hg. revert k. replace m with ((m - n) + n)%nat in * by lia.
  generalize dependent (m - n)%nat. intros d _ Hm. revert n Hm Hg.
  induction d as [|d IH]; intros n Hm Hg k Hw.
  - destruct (waiting_step _ _ Hw) as [|(k'&Hk'&Hle)]; [by left|right].
    exists k'. split; [done|]. cbn in Hm. rewrite Hm in Hle. specialize (Hle (Hg n ltac:(lia))). lia.
  - destruct (waiting_step _ _ Hw) as [|(k1&Hk1&Hle)]; [by left|].
    replace (S d + n)%nat with (d + S n)%nat in * by lia.
    destruct (IH (S n) Hm) with (k := k1) as [|(k'&?&?)]; [intros; apply Hg; lia|done|by left|right].
    exists k'. split; [done|]. specialize (Hle (Hg n ltac:(lia))). lia.
Qed.

Lemma waiting_woken n k :
  (forall i, (n <= i)%nat -> g < (evs i).1) -> (forall i, exists m, (i <= m)%nat /\ (evs m).2 = Irq) ->
  waiting n k -> woken.
Proof.
  revert n; induction k as [k IH] using lt_wf_ind; intros n Hg Hirq Hw.
  destruct (Hirq n) as (m&Hnm&Hm).
  destruct (waiting_irq n m k Hnm Hm Hg Hw) as [|(k'&Hk'&Hle)]; [done|].
  apply (IH k' ltac:(lia) (S m)); [intros; apply Hg; lia|done|done].
Qed.
End live.

(** C8: Nobody sleeps for ever.  Take any infinite sequence of timer interrupts,
    processes going to sleep and sleepers woken early, in any interleaving, that
    the kernel gets through.  If the counter gets past the wake-up time of a
    sleeping process and stays there, and interrupts keep coming, then the
    process is made runnable after finitely many events, however many others
    go to sleep meanwhile. *)
Theorem sleeper_is_woken evs s0 l p g :
  timers s0 l -> (p, g) ∈ l ->
  (forall n, 0 <= (evs n).1 < 2 ^ 64) ->
  (forall n, exists s, timer_run evs n s0 = Val () s) ->
  (exists N, forall n, (N <= n)%nat -> g < (evs n).1) ->
  (forall n, exists m, (n <= m)%nat /\ (evs m).2 = Irq) ->
  exists n s, timer_run evs n s0 = Val () s /\ state_at s p = Some PS_RUNNING.
Proof.
  intros Hl Hp Hnow Hrun [N HN] Hirq.
  destruct (waiting_later evs s0 p g Hnow Hrun 0 (ahead p l) N) as [|[k Hk]]; [by exists s0, l|done|].
  rewrite Nat.add_0_r in Hk. by eapply waiting_woken.
Qed.

Lemma irqs_run now n : forall s l, timers s l ->
  exists s' l', timer_run (fun _ => (now, Irq)) n s = Val () s' /\ timers s' l'.
Proof.
  induction n as [|n IH]; intros s l Hl; [by exists s, l|].
  destruct (IH s l Hl) as (s1&l1&E&Hl1). cbn [timer_run].
  destruct (hpet_irq_spec (s1 <| hpet_counter := Some now |>) l1 now (timers_counter _ _ _ Hl1) eq_refl)
    as (s2&E2&Hl2&_). exists s2. eexists. split; [|exact Hl2].
  apply bind_val. exists (), s1. split; [exact E|exact E2].
Qed.

(** Two sleepers and a timer that keeps on interrupting at time 10: the second
    is woken too. *)
Lemma sleeper_is_woken_witness :
  let asleep g next := proc0 <| p_state := PS_WAITS4TIMER |> <| p_saved := waits4timer g next |> in
  let s := kstate0 (Malloc.mkAlloc 0 [] 0 0 ∅)
             <| procs := {[5%positive := asleep 3 (Some 6%positive);
                           6%positive := asleep 9 None]} |> <| scheduled := Some 5%positive |> in
  exists n s', timer_run (fun _ => (10, Irq)) n s = Val () s' /\ state_at s' 6 = Some PS_RUNNING.
Proof.
  intros asleep s.
  assert (Hs : timers s [(5%positive, 3); (6%positive, 9)]).
  { split; cbn.
    - split; [done|]. exists (Some 6%positive). split; [done|]. split; [done|]. exists None. done.
    - apply (bool_decide_unpack _). reflexivity.
    - by repeat constructor.
    - by repeat constructor. }
  apply (sleeper_is_woken (fun _ => (10, Irq)) s [(5%positive, 3); (6%positive, 9)] 6 9);
    [exact Hs|right; left|intros; cbn; lia| |exists 0%nat; cbn; lia|intros n; exists n; done].
  intros n. destruct (irqs_run 10 n s _ Hs) as (s'&l'&E&_). by exists s'.
Defined.
