(* ===== verification/Handle.v ===== *)
(** * Handle

    Closing and moving handles ([src/src/kernel/handle.c], the handle functions
    of [proc.c]).  Closing a handle can send a request to a filesystem, which
    can run any part of the kernel: the functions of the files that come later
    are reached through the class [KFwd], which plays the part of their C
    prototypes.  [Kernel] ties the knot. *)

From S2P Require Import Prelude Monad KState Proc Pipe.

Class KFwd := {
  fwd_vfsreq_create : VfsReq -> K ();
  fwd_vfsreq_finish : ptr -> Z -> Z -> Z -> option ptr -> K ();
  fwd_vfs_backend_refdown : ptr -> bool -> K ();
  fwd_execbuf_run : ptr -> K ();
}.

(** The bottom of the knot: a call nested too deep. *)
Definition kfwd_none : KFwd := {|
  fwd_vfsreq_create _ := fail OutOfFuel;
  fwd_vfsreq_finish _ _ _ _ _ := fail OutOfFuel;
  fwd_vfs_backend_refdown _ _ := fail OutOfFuel;
  fwd_execbuf_run _ := fail OutOfFuel |}.

Section handle.
Context `{KFwd}.

Definition vfsreq_finish_short (req : ptr) (ret : Z) : K () :=
  fwd_vfsreq_finish req (u64 ret) ret 0 None.

Definition handle_close (oh : option ptr) : K () :=
  match oh with
  | None => mret ()
  | Some h =>
      rc ← getf h_refcount h;
      assert (0 <? rc);;
      setf h_refcount h (rc - 1);;
      if 0 <? rc - 1 then mret ()
      else
        x ← rd (T := Handle) h;
        match h_type x with
        | HANDLE_FILE =>
            fwd_vfsreq_create
              (req0 VFSOP_CLOSE <| r_id := h_file_id x |> <| r_backend := h_backend x |>)
        | HANDLE_PIPE =>
            assert (negb (is_some (h_queued x)));;
            match h_sister x with
            | None => mret ()
            | Some s => pipe_invalidate_end s;; setf h_sister s None
            end
        | HANDLE_FS_REQ =>
            match h_req x with
            | None => mret ()
            | Some r => vfsreq_finish_short r (-1)
            end
        | _ => mret ()
        end;;
        backend ← getf h_backend h;
        match backend with
        | None => mret ()
        | Some b => fwd_vfs_backend_refdown b true
        end;;
        setf h_type h HANDLE_INVALID;;
        (* the static handle is no allocation: [kmalloc_sanity] fails on it *)
        assert (bool_decide (h <> nullfs_handle));;
        del Handle h
  end.

(** [proc_handle_dup] once the target slot is known. *)
Definition dup_to (p : ptr) (from to : Z) : K Z :=
  if to =? from then mret to
  else
    t ← getf p_handles p;
    t ← deref t;
    fromh ← proc_handle_get p from;
    l ← rd t;
    toh ← deref (l !! Z.to_nat to);
    handle_close toh;;
    table_set t to fromh;;
    match fromh with
    | None => mret ()
    | Some h => modf h_refcount h (Z.add 1)
    end;;
    mret to.

Definition proc_handle_dup (p : ptr) (from to flags : Z) : K Z :=
  if (to <? 0) || flag flags DUP_SEARCH then
    to ← proc_find_free_handle p to;
    if to <? 0 then mret (- EMFILE) else dup_to p from to
  else if HANDLE_MAX <=? to then mret (- EBADF)
  else dup_to p from to.

Definition proc_handle_close (p : ptr) (hid : Z) : K () :=
  _ ← proc_handle_dup p (-1) hid 0; mret ().

Definition proc_handle_put (p h : ptr) : K Z :=
  hid ← proc_find_free_handle p 1;
  if hid <? 0 then handle_close (Some h);; mret hid
  else set_handle_slot p hid (Some h);; mret hid.
End handle.

(** ** Duplicating handles *)

Section dup.
Context `{KFwd}.

(** Closing a handle somebody else still holds. *)
Lemma handle_close_shared s h x :
  handles s !! h = Some x -> 1 < h_refcount x ->
  handle_close (Some h) s =
    Val () (s <| handles ::= <[h := x <| h_refcount := h_refcount x - 1 |>]> |>).
Proof.
  intros Hx Hr. unfold handle_close. do 2 kaccess.
  rewrite !(proj2 (Z.ltb_lt 0 _)) by lia. do 2 kaccess.
  apply bind_runs. eapply runs_wr; [exact Hx|]. done.
Qed.

(** One reference less, one reference more. *)
Definition ref_down (o : option ptr) (m : gmap ptr Handle) : gmap ptr Handle :=
  match o with
  | Some h => alter (fun x => x <| h_refcount ::= Z.pred |>) h m
  | None => m
  end.
Definition ref_up (o : option ptr) (m : gmap ptr Handle) : gmap ptr Handle :=
  match o with
  | Some h => alter (fun x => x <| h_refcount ::= Z.succ |>) h m
  | None => m
  end.

Lemma set_handles_ext s f g :
  f (handles s) = g (handles s) -> s <| handles ::= f |> = s <| handles ::= g |>.
Proof. intros E. unfold set; cbn. by rewrite E. Qed.

Lemma set_handles_id s f : f (handles s) = handles s -> s <| handles ::= f |> = s.
Proof. intros E. unfold set; cbn. rewrite E. by destruct s. Qed.

Lemma close_slot_val s o :
  (forall h, o = Some h -> exists x, handles s !! h = Some x /\ 1 < h_refcount x) ->
  handle_close o s = Val () (s <| handles ::= ref_down o |>).
Proof.
  intros Ho. destruct o as [h|].
  - destruct (Ho h eq_refl) as (x&Hx&Hr). rewrite (handle_close_shared _ _ _ Hx Hr).
    f_equal. apply set_handles_ext. apply map_eq. intros k.
    cbn. destruct (decide (h = k)) as [<-|].
    + rewrite lookup_insert_eq, lookup_alter_eq, Hx. done.
    + by rewrite lookup_insert_ne, lookup_alter_ne.
  - cbn. by rewrite set_handles_id.
Qed.

Lemma ref_up_val s o :
  (forall h, o = Some h -> is_Some (handles s !! h)) ->
  match o with None => mret () | Some h => modf h_refcount h (Z.add 1) end s =
    Val () (s <| handles ::= ref_up o |>).
Proof.
  intros Ho. destruct o as [h|]; [|cbn; by rewrite set_handles_id].
  destruct (Ho h eq_refl) as (x&Hx). unfold modf, wr, mbind, st_bind, get_. cbn. rewrite Hx.
  unfold put_. f_equal. apply set_handles_ext. apply map_eq. intros k.
  cbn. destruct (decide (h = k)) as [<-|].
  - rewrite lookup_insert_eq, lookup_alter_eq, Hx. unfold set; cbn.
    by rewrite Z.add_1_l.
  - by rewrite lookup_insert_ne, lookup_alter_ne.
Qed.

(** The slot [dup] writes to, or its error. *)
Definition dup_target (l : list (option ptr)) (to flags r : Z) : Prop :=
  if (to <? 0) || flag flags DUP_SEARCH then
    if HANDLE_MAX <=? to then r = - EMFILE
    else exists f, first_free l (Z.max 0 to) f /\ r = (if f <? 0 then - EMFILE else f)
  else if HANDLE_MAX <=? to then r = - EBADF else r = to.

(** [proc_handle_dup], on every branch.  It answers the target slot - the
    one asked for, or with [DUP_SEARCH] or a negative number the first free
    one - or [-EMFILE] or [-EBADF] without changing anything; duplicating a
    handle to itself changes nothing; else the target slot, and no other,
    designates the source's handle, which has one reference more, and the
    handle that was there has one reference less (if it has others; the last
    reference is [handle_close]'s business).  An empty source empties the
    target. *)
Theorem handle_dup_spec s p t l from to flags :
  table_of s p t l -> (0 <= from < HANDLE_MAX) ->
  (forall i h, l !! i = Some (Some h) -> exists x, handles s !! h = Some x /\ 1 < h_refcount x) ->
  exists r, dup_target l to flags r /\
    proc_handle_dup p from to flags s =
      if (r <? 0) || (r =? from) then Val r s
      else
        let old := default None (l !! Z.to_nat r) in
        let new := default None (l !! Z.to_nat from) in
        Val r (s <| handles ::= ref_down old |>
                 <| htables ::= <[t := <[Z.to_nat r := new]> l]> |>
                 <| handles ::= ref_up new |>).
Proof.
  intros Ht Hfrom Hrc. unfold dup_target, proc_handle_dup.
  pose proof Ht as [(x&Hx&Hxt) [Hl Hlen]].
  assert (Hdup : forall r, 0 <= r < HANDLE_MAX -> dup_to p from r s =
    if r =? from then Val r s
    else
      let old := default None (l !! Z.to_nat r) in
      let new := default None (l !! Z.to_nat from) in
      Val r (s <| handles ::= ref_down old |>
               <| htables ::= <[t := <[Z.to_nat r := new]> l]> |>
               <| handles ::= ref_up new |>)).
  { intros r Hr. unfold dup_to. destruct (r =? from) eqn:E; [done|].
    destruct (table_slot _ _ _ _ r Ht Hr) as (old&Ho&Hos).
    destruct (table_slot _ _ _ _ from Ht Hfrom) as (new&Hn&Hns).
    rewrite Ho, Hn. cbn [default].
    do 2 kaccess. rewrite Hxt. do 2 kaccess.
    apply bind_runs. unfold runs. rewrite (proc_handle_get_val _ _ _ _ Hfrom Hns).
    do 2 kaccess. rewrite Ho. do 2 kaccess.
    apply bind_runs. unfold runs. rewrite (close_slot_val s old).
    2:{ intros h ->. by eapply Hrc. }
    apply bind_runs. unfold runs. rewrite (set_slot_val _ p t l); [|done].
    apply bind_runs. unfold runs. rewrite ref_up_val; [done|].
    intros h ->. cbn. destruct (Hrc _ h Hn) as (y&Hy&_). destruct old as [o|]; cbn; [|eauto].
    destruct (decide (o = h)) as [->|]; [rewrite lookup_alter_eq|rewrite lookup_alter_ne by done];
      rewrite Hy; eauto. }
  destruct ((to <? 0) || flag flags DUP_SEARCH) eqn:Eb.
  - destruct (find_free_val s p t l to Ht) as (f&Ef&Hf).
    assert (Hr : (f < 0 \/ 0 <= f < HANDLE_MAX)).
    { destruct (HANDLE_MAX <=? to); [lia|]. destruct Hf as [_ [->|[? ?]]]; lia. }
    exists (if f <? 0 then - EMFILE else f). split.
    { destruct (HANDLE_MAX <=? to); [subst f; done|eauto]. }
    apply bind_runs. unfold runs. rewrite Ef. destruct (f <? 0) eqn:E; zbool; [done|].
    rewrite (proj2 (Z.ltb_ge f 0)) by lia. cbn [orb]. apply Hdup. lia.
  - apply orb_false_iff in Eb as [Eb _]. zbool.
    destruct (HANDLE_MAX <=? to) eqn:E; zbool; [by exists (- EBADF)|].
    exists to. split; [done|]. rewrite (proj2 (Z.ltb_ge to 0)) by lia. apply Hdup. lia.
Qed.

End dup.

(** [dup(1, 3)] of a table with handles at 1 and 3. *)
Lemma handle_dup_spec_witness :
  let l := <[1%nat := Some 7%positive]> (<[3%nat := Some 8%positive]> (replicate 16 None)) in
  let h := handle0 <| h_refcount := 2 |> in
  let s := kstate0 (Malloc.mkAlloc 0 [] 0 0 ∅)
    <| procs := {[5%positive := proc0 <| p_handles := Some 6%positive |>]} |>
    <| htables := {[6%positive := l]} |>
    <| handles := {[7%positive := h; 8%positive := h]} |> in
  exists s', @proc_handle_dup kfwd_none 5 1 3 0 s = Val 3 s' /\
    slot_of s' 5 3 = Some (Some 7%positive) /\
    h_refcount <$> handles s' !! 7%positive = Some 3 /\
    h_refcount <$> handles s' !! 8%positive = Some 1.
Proof.
  intros l h s. destruct (@handle_dup_spec kfwd_none s 5 6 l 1 3 0) as (r&Hr&E).
  - split; [|split; reflexivity]. eexists. split; reflexivity.
  - unfold HANDLE_MAX. lia.
  - intros i k Hi. assert (Hk : k = 7%positive \/ k = 8%positive).
    { do 16 (destruct i as [|i]; [vm_compute in Hi; try discriminate Hi; injection Hi; auto|]).
      discriminate Hi. }
    destruct Hk as [-> | ->]; exists h; split; try reflexivity; cbn; lia.
  - vm_compute in Hr. subst r. eexists. split; [exact E|]. split; [reflexivity|].
    split; reflexivity.
Defined.
