(* ===== verification/Mount.v ===== *)
(** * Mount

    The mount list of a process ([src/src/kernel/vfs/mount.c]): an immutable
    chain of prefixes, shared by the processes forked since. *)

From S2P Require Import Prelude Monad Path KState Proc Pipe Handle.

Definition vfs_mount_seed : K (option ptr) := getp mount_root.

(** The path is a static string. *)
Definition vfs_root_register (path : list Z) (accept : accept_fn) : K () :=
  backend ← new (mkBackend 1 1 None (be_kern accept false None));
  prev ← getp mount_root;
  prefix ← new (T := list Z) path;
  mount ← new (mkMount prev prefix (Z.of_nat (length path)) false (Some backend) 1);
  setp mount_root (Some mount).

(** Does the mount with this prefix cover the path?  The [continue]s and
    [break]s of the loop of [vfs_mount_resolve]. *)
Definition prefix_covers (prefix path : list Z) : bool :=
  if (length path <? length prefix)%nat then false
  else if negb (bool_decide (take (length prefix) path = prefix)) then false
  else if (length prefix =? length path)%nat then true
  else if bool_decide (path !! length prefix = Some slash) then true
  else if bool_decide (length prefix <> 0%nat) &&
          bool_decide (path !! (length prefix - 1)%nat = Some slash) then true
  else false.

(** The body of the loop of [vfs_mount_resolve]. *)
Definition resolve_turn (path : list Z) (top : option ptr) : K (option ptr + option ptr) :=
  match top with
  | None => mret (inr None)
  | Some m =>
      x ← rd (T := VfsMount) m;
      buf ← rd (T := list Z) (m_prefix x);
      if prefix_covers (take (Z.to_nat (m_prefix_len x)) buf) path then mret (inr top)
      else mret (inl (m_prev x))
  end.

Definition vfs_mount_resolve (top : option ptr) (path : list Z) : K (option ptr) :=
  n ← gets mount_count;
  iter n (resolve_turn path) top.

Section remref.
Context `{KFwd}.

(** The tail call of the C code is the loop. *)
Definition vfs_mount_remref (mnt : option ptr) : K () :=
  n ← gets mount_count;
  iter n (fun mnt =>
    mnt ← match mnt with Some m => mret m | None => panic end;
    refs ← getf m_refs mnt;
    assert (0 <? refs);;
    setf m_refs mnt (refs - 1);;
    if 0 <? refs - 1 then mret (inr ())
    else
      x ← rd (T := VfsMount) mnt;
      match m_backend x with
      | None => mret ()
      | Some b => fwd_vfs_backend_refdown b true
      end;;
      x' ← rd (T := VfsMount) mnt;
      when (m_prefix_owned x') (kfree_buf (Some (m_prefix x')));;
      del VfsMount mnt;;
      mret (match m_prev x with None => inr () | Some _ => inl (m_prev x) end)) mnt.
End remref.

(** ** What resolving a path means *)

(** A mount covers a path that continues its prefix at a slash. *)
Definition covers (prefix path : list Z) : Prop :=
  exists rest, path = prefix ++ rest /\
    (rest = [] \/ head rest = Some slash \/ last prefix = Some slash).

Lemma last_lookup_pred (l : list Z) : last l = l !! (length l - 1)%nat.
Proof. rewrite last_lookup. f_equal. lia. Qed.

Lemma prefix_covers_spec prefix path : prefix_covers prefix path = true <-> covers prefix path.
Proof.
  unfold prefix_covers, covers. destruct (length path <? length prefix)%nat eqn:E1.
  { apply Nat.ltb_lt in E1. split; [done|]. intros (rest&->&_). rewrite length_app in E1. lia. }
  apply Nat.ltb_ge in E1. case_bool_decide as E2; cbn [negb].
  2: { split; [done|]. intros (rest&->&_). by rewrite take_app_length in E2. }
  rewrite <- (take_drop (length prefix) path) in E1 |- *. rewrite E2 in *.
  set (rest := drop (length prefix) path) in *. clearbody rest. clear E1 E2 path.
  assert (H0 : (prefix ++ rest) !! length prefix = head rest)
    by (rewrite lookup_app_r, Nat.sub_diag by lia; by destruct rest).
  rewrite H0, length_app. split.
  - intros H. exists rest. split; [done|].
    destruct (length prefix =? _)%nat eqn:E; [apply Nat.eqb_eq in E; left; destruct rest; [done|cbn in E; lia]|].
    case_bool_decide; [by right; left|].
    destruct (bool_decide (length prefix ≠ 0%nat)) eqn:E3; [|done]. cbn in H.
    case_bool_decide as E4; [|done]. apply bool_decide_eq_true in E3.
    right; right. rewrite last_lookup_pred. rewrite lookup_app_l in E4 by lia. done.
  - intros (rest'&E&H). apply app_inv_head in E as <-.
    destruct H as [->|[H|H]].
    + by rewrite Nat.add_0_r, Nat.eqb_refl.
    + rewrite bool_decide_true by done. by case_match.
    + rewrite last_lookup_pred in H. pose proof (lookup_lt_Some _ _ _ H) as Hl.
      destruct (length prefix =? _)%nat; [done|]. case_bool_decide; [done|].
      rewrite bool_decide_true by lia. rewrite bool_decide_true; [done|].
      rewrite lookup_app_l by lia. done.
Qed.

(** The chain of mounts from [o] on, with their prefixes. *)
Fixpoint mchain (s : kstate) (o : option ptr) (l : list (ptr * list Z)) : Prop :=
  match l with
  | [] => o = None
  | (m, prefix) :: l =>
      o = Some m /\ exists x buf, mounts s !! m = Some x /\ bufs s !! m_prefix x = Some buf /\
        prefix = take (Z.to_nat (m_prefix_len x)) buf /\ mchain s (m_prev x) l
  end.

Lemma mchain_in s o l m : mchain s o l -> m ∈ l.*1 -> m ∈ dom (mounts s).
Proof.
  revert o; induction l as [|[m' p] l IH]; intros o; cbn; [by intros _ ?%elem_of_nil|].
  intros (->&x&buf&Hx&_&_&Hc) [->|Hm]%elem_of_cons; [|by eapply IH].
  apply elem_of_dom. eauto.
Qed.

Lemma resolve_loop s path l : forall o n,
  mchain s o l -> (length l < n)%nat ->
  exists r, iter n (resolve_turn path) o s = Val r s /\
    match r with
    | Some m => exists l1 prefix l2, l = l1 ++ (m, prefix) :: l2 /\ covers prefix path /\
        Forall (fun prefix => ~ covers prefix path) l1.*2
    | None => Forall (fun prefix => ~ covers prefix path) l.*2
    end.
Proof.
  induction l as [|[m prefix] l IH]; intros o n Hc Hn; (destruct n as [|n]; [cbn in Hn; lia|]);
    cbn [iter]; cbn in Hc.
  - subst o. exists None. split; [done|constructor].
  - destruct Hc as (->&x&buf&Hx&Hb&->&Hc). set (prefix := take _ buf) in *.
    assert (E : resolve_turn path (Some m) s = Val
      (if prefix_covers prefix path then inr (Some m) else inl (m_prev x)) s).
    { unfold resolve_turn. do 4 kaccess. fold prefix. by destruct (prefix_covers _ _). }
    destruct (prefix_covers prefix path) eqn:Ep.
    + exists (Some m). split; [apply bind_runs; unfold runs; by rewrite E|].
      exists [], prefix, l. split; [done|]. split; [by apply prefix_covers_spec|constructor].
    + destruct (IH (m_prev x) n Hc ltac:(cbn in Hn; lia)) as (r&Er&Hr). exists r.
      split; [apply bind_runs; unfold runs; by rewrite E|].
      assert (Hno : ~ covers prefix path).
      { intros H%prefix_covers_spec. congruence. }
      destruct r as [m'|]; [|by constructor].
      destruct Hr as (l1&p'&l2&->&Hcov&Hl1). exists ((m, prefix) :: l1), p', l2.
      split; [done|]. split; [done|]. by constructor.
Qed.

(** C15: a path is resolved to the most recent mount that covers it, where a
    prefix covers the paths that are equal to it, or go on after it with a
    slash (or after the slash it ends in): [/thisasdf] is not under [/this].
    The walk terminates on every mount list, and finds nothing exactly when no
    mount covers the path. *)
Theorem resolve_most_recent s top path l :
  mchain s top l -> NoDup l.*1 ->
  exists r, vfs_mount_resolve top path s = Val r s /\
    match r with
    | Some m => exists l1 prefix l2, l = l1 ++ (m, prefix) :: l2 /\ covers prefix path /\
        Forall (fun prefix => ~ covers prefix path) l1.*2
    | None => Forall (fun prefix => ~ covers prefix path) l.*2
    end.
Proof.
  intros Hc Hn. apply (resolve_loop s path l top (mount_count s) Hc).
  unfold mount_count. apply Nat.lt_succ_r. rewrite <- (length_fmap fst).
  rewrite <- (size_list_to_set (C := gset ptr) _ Hn), <- (size_dom (D := gset ptr) (mounts s)).
  apply subseteq_size. intros m Hm. apply elem_of_list_to_set in Hm. by eapply mchain_in.
Qed.

(** [/ab] is mounted over [/a], both over the root. *)
Lemma resolve_most_recent_witness :
  let s := kstate0 (Malloc.mkAlloc 0 [] 0 0 ∅)
    <| mounts := {[1%positive := mkMount None 1 0 false None 1;
                   2%positive := mkMount (Some 1%positive) 2 2 true None 1;
                   3%positive := mkMount (Some 2%positive) 3 3 true None 1]} |>
    <| bufs := {[1%positive := []; 2%positive := [47; 97]; 3%positive := [47; 97; 98]]} |> in
  exists r, vfs_mount_resolve (Some 3%positive) [47; 97; 47; 98] s = Val r s /\
    r = Some 2%positive.
Proof.
  intros s.
  destruct (resolve_most_recent s (Some 3%positive) [47; 97; 47; 98]
    [(3%positive, [47; 97; 98]); (2%positive, [47; 97]); (1%positive, [])]) as (r&E&_).
  - cbn. repeat (split; [done|]; do 2 eexists; do 3 (split; [vm_compute; reflexivity|])). done.
  - apply (bool_decide_unpack _). reflexivity.
  - exists r. split; [exact E|]. vm_compute in E. by injection E as <-.
Defined.
