(* ===== verification/ProcLife.v ===== *)
(** * ProcLife

    The life and death of processes ([src/src/kernel/proc.c]): the first
    process, forks, kills, reaping, interrupts and the scheduler. *)

From S2P Require Import Prelude Monad Mem Malloc Paging KState Pcpy Proc Pipe Timer.
From S2P Require Import Handle Mount.

(** ** Creation *)

Definition empty_table : list (option ptr) := replicate (Z.to_nat HANDLE_MAX) None.

(** [for (off = 0; off < len; off += PAGE_SIZE) pagedir_map(...)] *)
Definition map_range (pages virt phys len : Z) (user writeable : bool) : K () :=
  on_alloc (forM (seq 0 (Z.to_nat ((len + PAGE_SIZE - 1) / PAGE_SIZE))) (fun i =>
    let off := Z.of_nat i * PAGE_SIZE in
    pagedir_map pages (virt + off) (phys + off) user writeable)).

(** [shared_len] is the linker's [_shared_len]. *)
Definition proc_seed (shared_len data datalen : Z) : K ptr :=
  first ← getp proc_first;
  assert (negb (is_some first));;
  p ← new proc0;
  setp proc_first (Some p);;
  setf p_state p PS_RUNNING;;
  pages ← on_alloc pagedir_new;
  setf p_pages p pages;;
  mount ← vfs_mount_seed;
  setf p_mount p mount;;
  pid ← getp next_pid;
  setp next_pid (u32 (pid + 1));;
  setf p_globalid p pid;;
  t ← new empty_table;
  setf p_handles p (Some t);;
  setf p_pns p (Some p);;
  setf p_localid p 1;;
  setf p_nextlid p 2;;
  map_range pages 0 0 shared_len false true;;
  let init_base := 0x200000 in
  map_range pages init_base data datalen true true;;
  modf p_regs p (fun r => r <| rcx := init_base |>);;
  mret p.

(** The counter shared by the processes that share an object. *)
Definition share (count : option ptr) : K ptr :=
  c ← match count with Some c => mret c | None => new (T := Z) 1 end;
  wr (T := Z) c (Z.add 1);;
  mret c.

Definition proc_fork (parent : ptr) (flags : Z) : K ptr :=
  child ← new proc0;
  (if flag flags FORK_SHAREMEM then
     rc ← getf p_pages_refcount parent;
     c ← share rc;
     setf p_pages_refcount parent (Some c);;
     setf p_pages_refcount child (Some c);;
     pages ← getf p_pages parent;
     setf p_pages child pages
   else
     pages ← getf p_pages parent;
     copy ← on_alloc (pagedir_copy pages);
     setf p_pages child copy);;
  regs ← getf p_regs parent;
  setf p_regs child regs;;
  st ← getf p_state parent;
  setf p_state child st;;
  assert (bool_decide (st = PS_RUNNING));;
  intr ← getf p_intr_fn parent;
  setf p_intr_fn child intr;;
  setf p_noreap child (flag flags FORK_NOREAP);;
  first ← getf p_child parent;
  setf p_sibling child first;;
  setf p_child child None;;
  setf p_parent child (Some parent);;
  setf p_child parent (Some child);;
  pid ← getp next_pid;
  if pid =? 0 then panic
  else
    setp next_pid (u32 (pid + 1));;
    setf p_globalid child pid;;
    pns ← getf p_pns parent;
    setf p_pns child pns;;
    ns ← deref pns;
    lid ← getf p_nextlid ns;
    if lid =? 0 then panic
    else
      setf p_nextlid ns (u32 (lid + 1));;
      setf p_localid child lid;;
      controlled ← getf p_controlled parent;
      match controlled with
      | Some b =>
          unless (flag flags FORK_NEWFS)
            (setf p_controlled child (Some b);;
             n ← getf b_provhcnt b;
             assert (negb (n =? 0));;
             setf b_provhcnt b (n + 1))
      | None => mret ()
      end;;
      mount ← getf p_mount parent;
      setf p_mount child mount;;
      m ← match mount with Some m => mret m | None => panic end;
      modf m_refs m (Z.add 1);;
      (if flag flags FORK_SHAREHANDLE then
         rc ← getf p_handles_refcount parent;
         c ← share rc;
         setf p_handles_refcount parent (Some c);;
         setf p_handles_refcount child (Some c);;
         t ← getf p_handles parent;
         setf p_handles child t
       else
         t ← new empty_table;
         setf p_handles child (Some t);;
         forM (Z.of_nat <$> seq 0 (Z.to_nat HANDLE_MAX)) (fun hid =>
           h ← handle_slot parent hid;
           table_set t hid h;;
           match h with
           | None => mret ()
           | Some h => modf h_refcount h (Z.add 1)
           end));;
      mret child.

(** ** Death *)

(** [struct sys_wait2] *)
Definition wait2_bytes (status : Z) : list Z := le_bytes 8 status.

Definition death_msg_of (p : ptr) : K Z :=
  u ← getf p_saved p;
  match u with death_msg ret => mret ret | _ => fail Undefined end.

Definition awaited_death_of (p : ptr) : K (Z * Z) :=
  u ← getf p_saved p;
  match u with awaited_death pid out => mret (pid, out) | _ => fail Undefined end.

Definition deadleaf_next_of (p : ptr) : K (option ptr) :=
  u ← getf p_saved p;
  match u with deadleaf_next next => mret next | _ => fail Undefined end.

(** The hand-over of a dead child to a waiting parent: is the child done for?
    [false] is one of the two early returns. *)
Definition tryreap_deliver (dead : ptr) (parent : option ptr) : K bool :=
  noreap ← getf p_noreap dead;
  alive ← proc_alive parent;
  match parent with
  | Some q =>
      if negb noreap && alive then
        dying ← state_is q PS_DYING;
        if (dying : bool) then mret true
        else
          waiting ← state_is q PS_WAITS4CHILDDEATH;
          if negb waiting then mret false
          else
            pns ← getf p_pns q;
            ns ← deref pns;
            pid ← proc_ns_id ns dead;
            '(wanted, out) ← awaited_death_of q;
            if negb (wanted =? 0) && negb (wanted =? pid) then mret false
            else
              regs_savereturn q pid;;
              (if negb (out =? 0) then
                 msg ← death_msg_of dead;
                 _ ← pcpy_to q out (wait2_bytes msg) 8;
                 mret ()
               else mret ());;
              proc_setstate q PS_RUNNING;;
              mret true
      else mret true
  | None => mret true
  end.

(** The sanity checks on the children of a tombstone. *)
Definition tombstone_checks (dead child : ptr) : K () :=
  assert_state dead PS_TOMBSTONE;;
  each_sibling (Some child) (fun p => b ← state_is p PS_TOREAP; assert (negb b));;
  n ← gets proc_count;
  p ← iter n (fun p =>
        c ← getf p_child p;
        mret (match c with Some c => inl c | None => inr p end)) child;
  toreap ← state_is p PS_TOREAP;
  if (toreap : bool) then
    parent ← getf p_parent p;
    alive ← proc_alive parent;
    assert alive
  else
    alive ← proc_alive (Some p);
    leaf ← state_is p PS_DEADLEAF;
    assert (alive || leaf).

Definition proc_tryreap (dead : ptr) : K () :=
  alive ← proc_alive (Some dead);
  assert (negb alive);;
  parent ← getf p_parent dead;
  match parent with
  | None => mret ()
  | Some q => c ← getf p_child q; assert (is_some c)
  end;;
  st ← getf p_state dead;
  go ← (if bool_decide (st = PS_TOREAP) then
          done ← tryreap_deliver dead parent;
          (if (done : bool) then
             proc_setstate dead PS_TOMBSTONE;;
             setf p_noreap dead true
           else mret ());;
          mret done
        else mret true);
  if negb go then mret ()
  else
    child ← getf p_child dead;
    match child with
    | Some c => tombstone_checks dead c
    | None =>
        match parent with
        | None => mret ()
        | Some _ =>
            refcount ← getf p_refcount dead;
            assert (refcount =? 0);;
            st ← getf p_state dead;
            if bool_decide (st = PS_TOMBSTONE) then
              proc_setstate dead PS_DEADLEAF;;
              leaves ← getp dead_leaves;
              setf p_saved dead (deadleaf_next leaves);;
              setp dead_leaves (Some dead)
            else assert (bool_decide (st = PS_DEADLEAF))
        end
    end.

(** Unlinking a leaf from the children of its parent. *)
Definition unlink_child (parent p : ptr) : K () :=
  sib ← getf p_sibling p;
  first ← getf p_child parent;
  if op_eqb first (Some p) then setf p_child parent sib
  else
    first ← deref first;
    n ← gets proc_count;
    prev ← iter n (fun prev =>
      next ← getf p_sibling prev;
      if op_eqb next (Some p) then mret (inr prev)
      else match next with Some q => mret (inl q) | None => panic end) first;
    setf p_sibling prev sib.

Definition proc_prune_leaves : K () :=
  n ← gets proc_count;
  iter n (fun _ : () =>
    leaf ← getp dead_leaves;
    match leaf with
    | None => mret (inr ())
    | Some p =>
        parent ← getf p_parent p;
        next ← deadleaf_next_of p;
        setp dead_leaves next;;
        assert_state p PS_DEADLEAF;;
        q ← match parent with Some q => mret q | None => panic end;
        first ← getf p_child q;
        assert (is_some first);;
        child ← getf p_child p;
        assert (negb (is_some child));;
        unlink_child q p;;
        proc_setstate p PS_FREED;;
        del Proc p;;
        alive ← proc_alive (Some q);
        (if (alive : bool) then mret () else proc_tryreap q);;
        mret (inl ())
    end) ().

Definition shutdown : K () := exit_ Shutdown.

Section kill.
Context `{KFwd}.

(** [proc_kill]: the process stops handling a filesystem. *)
Definition kill_controlled (p : ptr) : K () :=
  controlled ← getf p_controlled p;
  match controlled with
  | None => mret ()
  | Some b =>
      x ← rd (T := VfsBackend) b;
      assert (0 <? b_provhcnt x);;
      match b_impl x with
      | be_kern _ _ _ => fail Undefined
      | be_user handler =>
          when (op_eqb handler (Some p))
            (assert_state p PS_WAITS4REQUEST;; setf b_impl b (be_user None))
      end;;
      fwd_vfs_backend_refdown b false;;
      setf p_controlled p None
  end.

(** The pending request outlives its caller. *)
Definition kill_reqslot (p : ptr) : K () :=
  waits ← state_is p PS_WAITS4FS;
  slot ← getf p_reqslot p;
  if (waits : bool) then
    r ← match slot with Some r => mret r | None => panic end;
    setf r_caller r None;;
    setf p_reqslot p None
  else
    match slot with None => mret () | Some r => del VfsReq r end.

Definition kill_pipe (p : ptr) : K () :=
  waits ← state_is p PS_WAITS4PIPE;
  if (waits : bool) then
    '(h, _, _, next) ← waits4pipe_of p;
    slot ← pipe_find h (Some p);
    v ← slot_get slot;
    assert (op_eqb v (Some p));;
    slot_set slot next
  else mret ().

Definition kill_handles (p : ptr) : K () :=
  rc ← getf p_handles_refcount p;
  last ← unref rc;
  (if (last : bool) then
     forM (Z.of_nat <$> seq 0 (Z.to_nat HANDLE_MAX)) (proc_handle_close p);;
     t ← getf p_handles p;
     match t with None => mret () | Some t => del (list (option ptr)) t end
   else mret ());;
  setf p_handles p None.

(** Tombstone TOREAP children; the sibling is read before the child goes. *)
Definition kill_children (p : ptr) : K () :=
  child ← getf p_child p;
  n ← gets proc_count;
  iter n (fun it =>
    match it with
    | None => mret (inr ())
    | Some it =>
        sibling ← getf p_sibling it;
        toreap ← state_is it PS_TOREAP;
        (if (toreap : bool) then proc_tryreap it else mret ());;
        mret (inl sibling)
    end) child.

Definition kill_memory (p : ptr) : K () :=
  buf ← getf p_execbuf p;
  when (is_some buf) (kfree_buf buf;; setf p_execbuf p None);;
  rc ← getf p_pages_refcount p;
  last ← unref rc;
  pages ← getf p_pages p;
  (if (last : bool) then on_alloc (pagedir_free pages) else mret ());;
  setf p_pages p 0.

Definition kill_alive (p : ptr) (ret : Z) : K () :=
  kill_controlled p;;
  kill_reqslot p;;
  kill_pipe p;;
  waits ← state_is p PS_WAITS4TIMER;
  (if (waits : bool) then timer_deschedule p else mret ());;
  kill_handles p;;
  mount ← getf p_mount p;
  m ← match mount with Some m => mret m | None => panic end;
  vfs_mount_remref (Some m);;
  setf p_mount p None;;
  proc_setstate p PS_DYING;;
  setf p_saved p (death_msg ret);;
  kill_children p;;
  kill_memory p.

Definition proc_kill (p : ptr) (ret : Z) : K () :=
  alive ← proc_alive (Some p);
  (if (alive : bool) then kill_alive p (s32 ret) else mret ());;
  dying ← state_is p PS_DYING;
  (if (dying : bool) then
     parent ← getf p_parent p;
     palive ← proc_alive parent;
     proc_setstate p (if (palive : bool) then PS_TOREAP else PS_TOMBSTONE)
   else mret ());;
  first ← getp proc_first;
  if op_eqb first (Some p) then
    proc_prune_leaves;;
    child ← getf p_child p;
    (if is_some child then panic else mret ());;
    shutdown
  else proc_tryreap p.

Definition proc_tryintr (p : ptr) : K () :=
  waits ← state_is p PS_WAITS4TIMER;
  if (waits : bool) then timer_deschedule p else mret ().

(** ["kill"] *)
Definition kill_msg : list Z := [107; 105; 108; 108].

(** [struct intr_data] *)
Definition intr_data_bytes (ip sp : Z) : list Z := le_bytes 8 ip ++ le_bytes 8 sp.

Definition proc_intr (p : ptr) (buf : list Z) : K () :=
  if bool_decide (take 4 buf = kill_msg) then proc_kill p EINTR
  else
    intr_fn ← getf p_intr_fn p;
    if intr_fn =? 0 then mret ()
    else
      proc_tryintr p;;
      r ← getf p_regs p;
      let sp := u64 (rsp r - 128 - 16) in
      _ ← pcpy_to p sp (intr_data_bytes (rcx r) (rsp r)) 16;
      modf p_regs p (fun r => r <| rcx := intr_fn |> <| rsp := sp |>).

(** ** The scheduler *)

Definition pagedir_switch (pages : Z) : K () := setp pagedir_current pages.

(** [proc_cur && proc_cur->state == PS_RUNNING].  [proc_prune_leaves] may just
    have freed [*proc_cur]: [kfree] filled it with [0xC0], so what is read from
    it is no state at all. *)
Definition cur_running : K bool :=
  cur ← getp proc_cur;
  match cur with
  | None => mret false
  | Some p =>
      s ← get_;
      mret match procs s !! p with
           | Some x => bool_decide (p_state x = PS_RUNNING)
           | None => false
           end
  end.

(** The next process to run: the current one while it can, else the first
    runnable one of the tree. *)
Definition pick_running : K (option ptr) :=
  cur ← getp proc_cur;
  running ← cur_running;
  if (running : bool) then mret cur
  else
    first ← getp proc_first;
    n ← gets proc_count;
    iter n (fun p =>
      match p with
      | None => mret (inr None)
      | Some q =>
          b ← state_is q PS_RUNNING;
          if (b : bool) then mret (inr p)
          else next ← proc_next p None; mret (inl next)
      end) first.

(** The loop of [proc_switch_any].  [cpu_pause] leaves the kernel until an
    interrupt, after which the loop runs again. *)
Definition proc_switch_loop : K () :=
  p ← pick_running;
  match p with
  | Some p =>
      assert_state p PS_RUNNING;;
      setp proc_cur (Some p);;
      pages ← getf p_pages p;
      pagedir_switch pages;;
      buf ← getf p_execbuf p;
      if is_some buf then fwd_execbuf_run p else exit_ Sysexit
  | None => exit_ Idle
  end.

Definition proc_switch_any : K () := proc_prune_leaves;; proc_switch_loop.
End kill.
