(* ===== verification/Drivers.v ===== *)
(** * Drivers

    The filesystems inside the kernel: helpers
    ([src/src/kernel/arch/amd64/driver/util.c]), the root directory
    ([fsroot.c]), the PS/2, serial and framebuffer drivers, the network card's
    file and procfs ([src/src/kernel/vfs/procfs.c]).  Ports are inputs of the
    interrupt handlers and an output trace; of the network card, the frames in
    its ring. *)

From Stdlib Require Import String Ascii.
From S2P Require Import Printf.
From S2P Require Import Prelude Monad Mem Ring Path FsUtil Malloc Paging KState Pcpy Proc.
From S2P Require Import Pipe Timer Handle Mount ProcLife.

(** ASCII codes of a string, without its terminator. *)
Definition str (s : string) : list Z :=
  (fun c => Z.of_N (Ascii.N_of_ascii c)) <$> String.list_ascii_of_string s.

Section drivers.
Context `{KFwd}.

(** ** Helpers *)

(** [req_readcopy]: [copy off len] copies that part of the source. *)
Definition req_readcopy_from (copy : ptr -> Z -> Z -> Z -> K Z) (req : ptr) (len : Z) : K Z :=
  r ← rd (T := VfsReq) req;
  match r_caller r with
  | None => mret (-1)
  | Some c =>
      assert (bool_decide (r_type r = VFSOP_READ));;
      '(off, olen) ← lift (fs_normslice (r_offset r) (r_output_len r) len false);
      setf r_offset req off;;
      setf r_output_len req olen;;
      _ ← copy c (r_output r) off olen;
      mret (s32 olen)
  end.

Definition req_readcopy (req : ptr) (buf : list Z) (len : Z) : K Z :=
  req_readcopy_from (fun c dst off olen => pcpy_to c dst (drop (Z.to_nat off) buf) olen)
    req len.

(** The same on a range of physical memory. *)
Definition req_readcopy_phys (req : ptr) (addr len : Z) : K Z :=
  req_readcopy_from (fun c dst off olen =>
    pages ← getf p_pages c;
    if pages =? 0 then mret 0 else on_alloc (virt_cpy pages dst 0 (addr + off) olen)) req len.

Definition input_buf (r : VfsReq) : K (list Z) :=
  match r_input r with in_kern b => rd (T := list Z) b | in_user _ => fail Undefined end.

Definition input_user (r : VfsReq) : K Z :=
  match r_input r with in_user a => mret a | in_kern _ => fail Undefined end.

Definition reqpathcmp (r : VfsReq) (path : list Z) : K bool :=
  match r_input r with
  | in_user _ => mret false
  | in_kern b =>
      buf ← rd (T := list Z) b;
      mret ((r_input_len r =? Z.of_nat (length path)) &&
            bool_decide (take (length path) buf = path))
  end.

(** The queues of requests waiting for input, and their rings (the network card
    has none here). *)
Inductive postqueue := kb_pq | mouse_pq | serial_pq | eth_pq.

Definition pq_get (q : postqueue) : K (option ptr) :=
  getp (match q with
        | kb_pq => kb_queue | mouse_pq => mouse_queue | serial_pq => hung_reads
        | eth_pq => eth_blocked
        end).
Definition pq_set (q : postqueue) (v : option ptr) : K () :=
  match q with
  | kb_pq => setp kb_queue v | mouse_pq => setp mouse_queue v | serial_pq => setp hung_reads v
  | eth_pq => setp eth_blocked v
  end.
Definition ring_of (q : postqueue) : K ring_t :=
  match q with
  | kb_pq => getp kb_backlog | mouse_pq => getp mouse_backlog | serial_pq => getp backlog
  | eth_pq => fail Undefined
  end.
Definition set_ring (q : postqueue) (v : ring_t) : K () :=
  match q with
  | kb_pq => setp kb_backlog v | mouse_pq => setp mouse_backlog v | serial_pq => setp backlog v
  | eth_pq => fail Undefined
  end.

(** The last request of a queue, if any. *)
Definition pq_last (q : postqueue) : K (option ptr) :=
  n ← gets req_count;
  iter n (fun slot =>
    v ← match slot with None => pq_get q | Some r => getf r_postqueue_next r end;
    mret (match v with None => inr slot | Some _ => inl v end)) None.

Definition postqueue_join (q : postqueue) (req : ptr) : K () :=
  next ← getf r_postqueue_next req;
  (if is_some next then panic else mret ());;
  last ← pq_last q;
  match last with
  | None => pq_set q (Some req)
  | Some r => setf r_postqueue_next r (Some req)
  end.

(** [for (req = first; req; req = req->postqueue_next)] *)
Definition each_posted {A} (first : option ptr) (f : A -> ptr -> K A) (a : A) : K A :=
  n ← gets req_count;
  iter n (fun '(req, a) =>
    match req with
    | None => mret (inr a)
    | Some r => a ← f a r; next ← getf r_postqueue_next r; mret (inl (next, a))
    end) (first, a).

Definition ringread_one (tmp : list Z) (mlen : Z) (req : ptr) : K () :=
  r ← rd (T := VfsReq) req;
  let ret := Z.min mlen (r_output_len r) in
  assert (bool_decide (r_type r = VFSOP_READ));;
  match r_caller r with
  | None => mret ()
  | Some c => _ ← pcpy_to c (r_output r) tmp ret; mret ()
  end;;
  vfsreq_finish_short req ret.

Definition postqueue_ringreadall (q : postqueue) : K () :=
  r ← ring_of q;
  if ring_used r =? 0 then mret ()
  else
    first ← pq_get q;
    mlen ← each_posted first (fun mlen req =>
      l ← getf r_output_len req; mret (Z.max mlen l)) 0;
    let mlen := Z.min mlen 64 in
    let '(r', out) := ring_get r mlen in
    set_ring q r';;
    let mlen := Z.of_nat (length out) in
    first ← pq_get q;
    each_posted first (fun _ req => ringread_one out mlen req) ();;
    pq_set q None.

(** ** The root directory ([fsroot.c]) *)

Definition Hbase : Z := 0.
Definition Hdev : Z := 1.

(** The names of the devices, each with a terminator. *)
Definition get_dev : K (list Z) :=
  top ← vfs_mount_seed;
  n ← gets mount_count;
  iter n (fun '(m, acc) =>
    match m with
    | None => mret (inr acc)
    | Some m =>
        x ← rd (T := VfsMount) m;
        if m_prefix_len x =? 0 then mret (inl (m_prev x, acc))
        else
          prefix ← rd (T := list Z) (m_prefix x);
          assert (5 <? m_prefix_len x);;
          assert (bool_decide (take 5 prefix = str "/dev/"));;
          let name := take (Z.to_nat (m_prefix_len x - 5)) (drop 5 prefix) in
          mret (inl (m_prev x, acc ++ name ++ [0]))
    end) (top, []).

(** The listing, made on the first use and kept. *)
Definition dev_listing : K (list Z) :=
  d ← getp fsroot_dev;
  match d with
  | Some l => mret l
  | None => l ← get_dev; setp fsroot_dev (Some l);; mret l
  end.

Definition fsroot_handle (req : ptr) : K Z :=
  r ← rd (T := VfsReq) req;
  if negb (is_some (r_caller r)) then mret (-1)
  else
    lst ← (if bool_decide (r_type r = VFSOP_OPEN) then mret []
           else if r_id r =? Hbase then mret (str "dev/" ++ [0])
           else if r_id r =? Hdev then dev_listing
           else panic);
    let len := Z.of_nat (length lst) in
    match r_type r with
    | VFSOP_OPEN =>
        a ← reqpathcmp r (str "/");
        b ← reqpathcmp r (str "/dev/");
        mret (if (a : bool) then Hbase else if (b : bool) then Hdev else - ENOENT)
    | VFSOP_READ => req_readcopy req lst len
    | VFSOP_GETSIZE => mret len
    | _ => mret (- ENOSYS)
    end.

Definition fsroot_accept (req : ptr) : K () :=
  ret ← fsroot_handle req; vfsreq_finish_short req ret.

Definition vfs_root_init : K () := vfs_root_register [] fsroot_accept_fn.

(** ** PS/2 ([ps2.c]) *)

Definition H_ROOT : Z := 0.
Definition H_KB : Z := 1.
Definition H_MOUSE : Z := 2.

(** [input] is what the status and data ports answer, in order. *)
Fixpoint ps2_irq (input : list (Z * Z)) : K () :=
  match input with
  | [] => mret ()
  | (status, data) :: input =>
      if negb (Z.testbit status 0) then mret ()
      else
        let q := if Z.testbit status 5 then mouse_pq else kb_pq in
        r ← ring_of q;
        set_ring q (ring_put1b r data);;
        postqueue_ringreadall q;;
        ps2_irq input
  end.

Definition ps2_accept (req : ptr) : K () :=
  r ← rd (T := VfsReq) req;
  match r_type r with
  | VFSOP_OPEN =>
      a ← reqpathcmp r [];
      b ← reqpathcmp r (str "kb");
      c ← reqpathcmp r (str "mouse");
      vfsreq_finish_short req
        (if (a : bool) then H_ROOT else if (b : bool) then H_KB
         else if (c : bool) then H_MOUSE else - ENOENT)
  | VFSOP_READ =>
      if r_id r =? H_ROOT then
        (* [sizeof] counts the terminator *)
        let data := str "kb" ++ [0] ++ str "mouse" ++ [0] in
        ret ← req_readcopy req data (Z.of_nat (length data));
        vfsreq_finish_short req ret
      else if r_id r =? H_KB then postqueue_join kb_pq req;; postqueue_ringreadall kb_pq
      else if r_id r =? H_MOUSE then
        postqueue_join mouse_pq req;; postqueue_ringreadall mouse_pq
      else panic
  | _ => vfsreq_finish_short req (-1)
  end.

(** ** The serial port ([serial.c]) *)

Definition serial_irq (data : Z) : K () :=
  r ← getp backlog;
  setp backlog (ring_put1b r data);;
  postqueue_ringreadall serial_pq.

Definition serial_write (buf : list Z) : K () :=
  modify (fun s => s <| serial_out ::= fun l => l ++ buf |>).

Definition serial_accept (req : ptr) : K () :=
  r ← rd (T := VfsReq) req;
  match r_type r with
  | VFSOP_OPEN => vfsreq_finish_short req (if r_input_len r =? 0 then 0 else -1)
  | VFSOP_READ => postqueue_join serial_pq req;; postqueue_ringreadall serial_pq
  | VFSOP_WRITE =>
      match r_caller r with
      | Some c =>
          if r_flags r =? 0 then
            src ← input_user r;
            '(len, buf) ← pcpy_from c src (Z.min 4096 (r_input_len r));
            serial_write buf;;
            vfsreq_finish_short req (s32 len)
          else vfsreq_finish_short req (-1)
      | None => vfsreq_finish_short req (-1)
      end
  | _ => vfsreq_finish_short req (-1)
  end.

(** ** The network card ([rtl8139.c]) *)

(** The first request of the queue; its [postqueue_next] stays. *)
Definition postqueue_pop (q : postqueue) (accept : ptr -> K ()) : K bool :=
  req ← pq_get q;
  match req with
  | None => mret false
  | Some r =>
      next ← getf r_postqueue_next r;
      pq_set q next;;
      accept r;;
      mret true
  end.

Definition set_eth (f : Eth -> Eth) : K () := modify (fun s => s <| eth ::= f |>).
Definition rx_irq_enable (v : bool) : K () := set_eth (fun x => x <| eth_mask := v |>).

Definition rxbuf_baselen : Z := 8 * 1024 * 2 ^ 3.
Definition txbuf_len : Z := 2048.

(** [try_rx]: [None] is [WAIT].  The frame is copied in two parts when it goes
    on at the start of the ring. *)
Definition try_rx (proc : ptr) (dest dlen : Z) : K (option Z) :=
  e ← getp eth;
  match eth_rx e with
  | [] => mret None
  | f :: rest =>
      let size := Z.of_nat (length f) in
      if size =? 0 then panic
      else
        let pos := eth_rxpos e + 4 in
        let dlen := if size <? dlen then size else dlen in
        (if pos + dlen <=? rxbuf_baselen then
           _ ← pcpy_to proc dest f dlen; mret ()
         else
           let chunk := rxbuf_baselen - pos in
           _ ← pcpy_to proc dest f chunk;
           _ ← pcpy_to proc (u64 (dest + chunk)) (drop (Z.to_nat chunk) f) (dlen - chunk);
           mret ());;
        let pos := Z.land (pos + size + 3) (Z.lnot 3) mod rxbuf_baselen in
        set_eth (fun x => x <| eth_rx := rest |> <| eth_rxpos := pos |>);;
        mret (Some size)
  end.

Definition try_tx (proc : ptr) (src slen : Z) : K Z :=
  if 0xFFF <? slen then mret (-1)
  else if txbuf_len <? slen then mret (-1)
  else
    e ← getp eth;
    if negb (eth_own e) then panic
    else
      '(n, data) ← pcpy_from proc src slen;
      if n <? slen then mret (-1)
      else
        set_eth (fun x => x <| eth_sent ::= fun l => l ++ [(eth_desc x, data)] |>
                            <| eth_desc ::= fun d => Z.land (d + 1) 3 |>);;
        mret slen.

Definition rtl8139_accept (req : ptr) : K () :=
  r ← rd (T := VfsReq) req;
  match r_caller r with
  | None => vfsreq_finish_short req (-1)
  | Some c =>
      match r_type r with
      | VFSOP_OPEN => vfsreq_finish_short req (if r_input_len r =? 0 then 0 else -1)
      | VFSOP_READ =>
          ret ← try_rx c (r_output r) (r_output_len r);
          match ret with
          | None => postqueue_join eth_pq req;; rx_irq_enable true
          | Some ret => vfsreq_finish_short req ret
          end
      | VFSOP_WRITE =>
          match r_input r with
          | in_kern _ => panic
          | in_user src => ret ← try_tx c src (r_input_len r); vfsreq_finish_short req ret
          end
      | _ => vfsreq_finish_short req (-1)
      end
  end.

(** [status] is what the card's register says.  Every turn that goes on takes a
    request from the queue. *)
Definition rtl8139_irq (status : Z) : K () :=
  if negb (Z.testbit status 0) then panic
  else
    n ← gets req_count;
    iter n (fun _ : () =>
      e ← getp eth;
      match eth_rx e with
      | [] => mret (inr ())
      | _ =>
          more ← postqueue_pop eth_pq rtl8139_accept;
          if (more : bool) then mret (inl ())
          else rx_irq_enable false;; mret (inr ())
      end) ().

(** ** The framebuffer ([video.c]) *)

Definition H_FB : Z := 1.

Definition video_handle (req : ptr) : K Z :=
  r ← rd (T := VfsReq) req;
  g ← getp fb;
  name ← getp namebuf;
  match r_type r with
  | VFSOP_OPEN =>
      buf ← match r_input r with in_kern b => rd (T := list Z) b | in_user _ => panic end;
      mret (if r_input_len r =? 0 then H_ROOT
            else if (r_input_len r =? Z.of_nat (length name)) &&
                    bool_decide (take (length name) buf = name) then H_FB
            else -1)
  | VFSOP_READ =>
      if r_id r =? H_ROOT then
        req_readcopy req (name ++ [0]) (Z.of_nat (length name) + 1)
      else req_readcopy_phys req (fb_b g) (fb_size g)
  | VFSOP_WRITE =>
      if negb (r_id r =? H_FB) then mret (-1)
      else
        '(off, len) ← lift (fs_normslice (r_offset r) (r_input_len r) (fb_size g) false);
        setf r_offset req off;;
        setf r_input_len req len;;
        c ← deref (r_caller r);
        src ← input_user r;
        pages ← getf p_pages c;
        _ ← (if pages =? 0 then mret 0 else on_alloc (virt_cpy 0 (fb_b g + off) pages src len));
        mret (s32 len)
  | VFSOP_GETSIZE => mret (s32 (fb_size g))
  | _ => mret (-1)
  end.

Definition video_accept (req : ptr) : K () :=
  c ← getf r_caller req;
  match c with
  | Some _ => ret ← video_handle req; vfsreq_finish_short req ret
  | None => vfsreq_finish_short req (-1)
  end.

(** ** procfs *)

Definition isdigit (c : Z) : bool := (48 <=? c) && (c <=? 57).

(** The number at the start of a path: it must end in a slash.  The value and
    what follows the slash. *)
Fixpoint parse_lid (path : list Z) (lid : Z) : option (Z * list Z) :=
  match path with
  | [] => None
  | c :: path =>
      if c =? slash then Some (lid, path)
      else if isdigit c then parse_lid path (u32 (lid * 10 + c - 48))
      else None
  end.

Definition openpath (path : list Z) (root : ptr) : K (option ptr) :=
  let finish gid type :=
    h ← new (mkPhandle gid type); mret (Some h) in
  match path with
  | [] => mret None
  | _ :: path =>
      match path with
      | [] => finish 0 PhRoot
      | c :: _ =>
          if isdigit c then
            match parse_lid path 0 with
            | None => mret None
            | Some (lid, rest) =>
                let type :=
                  if bool_decide (rest = []) then Some PhDir
                  else if bool_decide (rest = str "intr") then Some PhIntr
                  else if bool_decide (rest = str "intrdown") then Some PhIntrDown
                  else if bool_decide (rest = str "mem") then Some PhMem
                  else None in
                match type with
                | None => mret None
                | Some type =>
                    p ← proc_ns_byid root lid;
                    match p with
                    | None => mret None
                    | Some p => gid ← getf p_globalid p; finish gid type
                    end
                end
            end
          else mret None
      end
  end.

Definition findgid (gid : Z) (root : ptr) : K (option ptr) :=
  n ← gets proc_count;
  iter n (fun p =>
    match p with
    | None => mret (inr None)
    | Some q =>
        g ← getf p_globalid q;
        if g =? gid then mret (inr p)
        else next ← proc_next p (Some root); mret (inl next)
    end) (Some root).

(** A string and its terminator, as [snprintf(buf + pos, 512 - pos, ...)] and
    the advance of [pos] leave them while they fit. *)
Definition dir_entry (name : list Z) : list Z := name ++ [0].

(** The listing of the processes of a namespace.  After an overflow the request
    is finished and the loop goes on: the next turn fails its assertion, and if
    there is none the assertion after the loop does unless exactly 512 bytes
    were produced, when the request is finished twice. *)
Definition list_processes (req root : ptr) : K (list Z) :=
  n ← gets proc_count;
  iter n (fun '(it, acc) =>
    match it with
    | None => mret (inr acc)
    | Some it =>
        assert (Z.of_nat (length acc) <? 512);;
        id ← proc_ns_id root it;
        '(_, name) ← lift (text (str "%d/" ++ [0]) [VInt id]);
        let acc := acc ++ dir_entry name in
        when (512 <=? Z.of_nat (length acc)) (vfsreq_finish_short req (- EGENERIC));;
        next ← proc_ns_next root (Some it);
        mret (inl (next, acc))
    end) (Some root, []).

Definition procfs_readdir (req root : ptr) (type : phandle_type) : K () :=
  data ← (if bool_decide (type = PhDir)
          then mret (dir_entry (str "intr") ++ dir_entry (str "mem"))
          else list_processes req root);
  let pos := Z.of_nat (length data) in
  assert (pos <=? 512);;
  ret ← req_readcopy req data pos;
  vfsreq_finish_short req ret.

Definition procfs_readmem (req p : ptr) (r : VfsReq) : K () :=
  ppages ← getf p_pages p;
  if ppages =? 0 then vfsreq_finish_short req 0
  else
    c ← deref (r_caller r);
    cpages ← getf p_pages c;
    if cpages =? 0 then vfsreq_finish_short req 0
    else
      res ← pcpy_bi c (r_output r) p (u64 (r_offset r)) (r_output_len r);
      vfsreq_finish_short req res.

Definition procfs_writeintr (req p : ptr) (type : phandle_type) (r : VfsReq) : K () :=
  c ← deref (r_caller r);
  src ← input_user r;
  '(_, buf) ← pcpy_from c src (Z.min 512 (r_input_len r));
  (if bool_decide (type = PhIntr) then proc_intr p buf
   else
     child ← getf p_child p;
     each_next child (Some p) (fun it => proc_intr it buf));;
  len ← getf r_input_len req;
  vfsreq_finish_short req len.

Definition procfs_accept (req : ptr) : K () :=
  r ← rd (T := VfsReq) req;
  be ← deref (r_backend r);
  impl ← getf b_impl be;
  root ← match impl with be_kern _ _ data => mret data | be_user _ => fail Undefined end;
  root ← match root with Some root => mret root | None => panic end;
  pns ← getf p_pns root;
  assert (op_eqb pns (Some root));;
  match r_type r with
  | VFSOP_OPEN =>
      match r_input r with
      | in_user _ => panic
      | in_kern b =>
          buf ← rd (T := list Z) b;
          h ← openpath (take (Z.to_nat (r_input_len r)) buf) root;
          vfsreq_finish_short req (match h with Some h => Z.pos h | None => - ENOENT end)
      end
  | type =>
      h ← match r_id r with Z.pos h => mret h | _ => panic end;
      if bool_decide (type = VFSOP_CLOSE) then
        del phandle h;; vfsreq_finish_short req 0
      else
        x ← rd (T := phandle) h;
        p ← (if bool_decide (ph_type x = PhRoot) then mret (Some root)
             else findgid (ph_gid x) root);
        match p with
        | None => vfsreq_finish_short req (- ENOENT)
        | Some p =>
            match type, ph_type x with
            | VFSOP_READ, PhDir | VFSOP_READ, PhRoot => procfs_readdir req root (ph_type x)
            | VFSOP_READ, PhMem => procfs_readmem req p r
            | VFSOP_WRITE, PhIntr | VFSOP_WRITE, PhIntrDown =>
                procfs_writeintr req p (ph_type x) r
            | _, _ => vfsreq_finish_short req (- ENOSYS)
            end
        end
  end.

Definition procfs_cleanup (data : option ptr) : K () :=
  p ← match data with Some p => mret p | None => panic end;
  modf p_refcount p (fun n => u32 (n - 1)).

Definition procfs_backend (proc : ptr) : K ptr :=
  be ← new (mkBackend 1 1 None (be_kern procfs_accept_fn true (Some proc)));
  n ← getf p_refcount proc;
  setf p_refcount proc (u32 (n + 1));;
  assert (negb (u32 (n + 1) =? 0));;
  mret be.

(** [backend->kern.accept(req)] *)
Definition call_accept (f : accept_fn) (req : ptr) : K () :=
  match f with
  | procfs_accept_fn => procfs_accept req
  | fsroot_accept_fn => fsroot_accept req
  | ps2_accept_fn => ps2_accept req
  | serial_accept_fn => serial_accept req
  | video_accept_fn => video_accept req
  | rtl8139_accept_fn => rtl8139_accept req
  end.
End drivers.
