(* ===== verification/Pata.v ===== *)
(** * Pata

    The disks as a file system ([src/src/kernel/arch/amd64/driver/pata.c]): the
    requests of the kernel's [/dev/ata], on the driver of [Ata]. *)

From Stdlib Require Import String.
From S2P Require Import Prelude Monad FsUtil Buf KState Pcpy Drivers Ata.
From S2P Require Import Proc Handle.

Section pata.
Context `{KFwd} {W : Type} `{Ports W}.

(** The kernel and the driver. *)
Abbreviation KA := (ST (kstate * ata W) kexit).

Definition kern {A} (m : K A) : KA A := zoom fst (fun k x => (k, x.2)) m.
Definition disk_io {A} (m : ST (ata W) kexit A) : KA A := zoom snd (fun a x => (x.1, a)) m.

Definition root_id : Z := 100.
Definition WBUF : Z := 4096.

Definition pata_open (req : ptr) : K () :=
  r ← rd (T := VfsReq) req;
  root ← reqpathcmp r [];
  d0 ← reqpathcmp r (str "0");
  d1 ← reqpathcmp r (str "1");
  d2 ← reqpathcmp r (str "2");
  d3 ← reqpathcmp r (str "3");
  vfsreq_finish_short req
    (if (root : bool) then root_id else if (d0 : bool) then 0 else if (d1 : bool) then 1
     else if (d2 : bool) then 2 else if (d3 : bool) then 3 else - ENOENT).

(** The names of the drives that were found: digits with terminators, in an
    array of eight bytes. *)
Definition pata_list : ST (ata W) kexit (list Z) :=
  forZ 0 4 (fun i l => b ← ata_available i; mret (if (b : bool) then l ++ [48 + i; 0] else l)) [].

Definition pata_read (wbuf : list Z) (req : ptr) : KA () :=
  r ← kern (rd (T := VfsReq) req);
  let id := r_id r in
  if id =? root_id then
    l ← disk_io pata_list;
    ret ← kern (req_readcopy req l (Z.of_nat (length l)));
    kern (vfsreq_finish_short req ret)
  else
    size ← disk_io (ata_size id);
    '(off, olen) ← kern (lift (fs_normslice (r_offset r) (r_output_len r) size false));
    kern (setf r_offset req off;; setf r_output_len req olen);;
    let len := Z.min olen WBUF in
    '(wbuf, _) ← disk_io (ata_read id wbuf len off);
    kern (c ← deref (r_caller r);
          _ ← pcpy_to c (r_output r) wbuf len;
          vfsreq_finish_short req (s32 len)).

(** What [pcpy_from] gives lands at the start of the buffer. *)
Definition pata_write (wbuf sec : list Z) (req : ptr) : KA () :=
  r ← kern (rd (T := VfsReq) req);
  let id := r_id r in
  if id =? root_id then kern (vfsreq_finish_short req (- EACCES))
  else
    size ← disk_io (ata_size id);
    '(off, ilen) ← kern (lift (fs_normslice (r_offset r) (r_input_len r) size false));
    kern (setf r_offset req off;; setf r_input_len req ilen);;
    let len := Z.min ilen WBUF in
    len ← (if len =? 0 then mret 0
           else
             '(n, data) ← kern (c ← deref (r_caller r); src ← input_user r; pcpy_from c src len);
             wbuf ← lift (bstore wbuf 0 data);
             _ ← disk_io (ata_write id sec wbuf n off);
             mret n);
    kern (vfsreq_finish_short req (s32 len)).

(** [wbuf] and [sec] are the arrays on the stack. *)
Definition pata_accept (wbuf sec : list Z) (req : ptr) : KA () :=
  r ← kern (rd (T := VfsReq) req);
  match r_type r with
  | VFSOP_OPEN => kern (pata_open req)
  | VFSOP_READ => pata_read wbuf req
  | VFSOP_WRITE => pata_write wbuf sec req
  | VFSOP_GETSIZE =>
      if r_id r =? root_id then kern panic
      else size ← disk_io (ata_size (r_id r)); kern (vfsreq_finish_short req (s32 size))
  | _ => kern (vfsreq_finish_short req (- ENOSYS))
  end.
End pata.

(** ** Reading the file of a disk *)

Section read.
Context `{KFwd} {W : Type} `{Drives W}.

(** What the kernel goes on to do, the disk having changed to [a]. *)
Definition with_disk {A} (a : ata W) (o : outcome kstate kexit A) : outcome (kstate * ata W) kexit A :=
  match o with Val x k => Val x (k, a) | Exit e k => Exit e (k, a) | Fault f => Fault f end.

Lemma kern_with {A} (m : K A) k (a : ata W) : kern m (k, a) = with_disk a (m k).
Proof. unfold kern, zoom; cbn. by destruct (m k). Qed.

Lemma kern_val {A B} (m : K A) (f : A -> ST (kstate * ata W) kexit B) k (a : ata W) x k' :
  m k = Val x k' -> (kern m ≫= f) (k, a) = f x (k', a).
Proof. intros E0. unfold kern, zoom, mbind, st_bind. cbn. by rewrite E0. Qed.

Lemma set_request {A} (f : VfsReq -> A) `{!Setter f} (v : A) (k : kstate) req r :
  reqs k !! req = Some r ->
  setf f req v k = Val () (k <| reqs ::= <[req := r <| f := v |>]> |>).
Proof. intros E0. unfold setf, wr, mbind, st_bind, get_. cbn. by rewrite E0. Qed.

Definition sliced (req : ptr) (r : VfsReq) (off olen : Z) (k : kstate) : kstate :=
  let r' := r <| r_offset := off |> in
  k <| reqs ::= <[req := r']> |> <| reqs ::= <[req := r' <| r_output_len := olen |>]> |>.

Lemma set_slice {A} (m : K A) req r off olen k :
  reqs k !! req = Some r ->
  (setf r_offset req off;; setf r_output_len req olen;; m) k = m (sliced req r off olen k).
Proof.
  intros Hr. unfold mbind, st_bind. rewrite (set_request r_offset off k req r Hr).
  rewrite (set_request r_output_len olen _ req (r <| r_offset := off |>)); [done|].
  apply lookup_insert_eq.
Qed.

Lemma disk_io_val {A B} (m : ST (ata W) kexit A) (f : A -> ST (kstate * ata W) kexit B) k a x a' :
  m a = Val x a' -> (disk_io m ≫= f) (k, a) = f x (k, a').
Proof. intros E0. unfold disk_io, zoom, mbind, st_bind. cbn. by rewrite E0. Qed.

Lemma ata_size_val drive d (a : ata W) :
  0 <= drive -> ata_drives a !! Z.to_nat drive = Some d ->
  ata_size (E := kexit) drive a = Val (u32 (d_sectors d * 512)) a.
Proof.
  intros Hdr Hd. unfold ata_size, get_drive, mbind, st_bind, get_.
  by rewrite (proj2 (Z.leb_le _ _)), Hd by done.
Qed.

(** A read that begins at a sector hands the caller the bytes of the disk: the
    slice that was asked for, as far as it is on the disk and at most the size
    of the buffer on the stack; the disk is at rest again. *)
Lemma pata_read_serves wbuf sec req r k a drive d disk c off olen :
  reqs k !! req = Some r ->
  r_type r = VFSOP_READ -> r_id r = drive -> drive <> root_id -> r_caller r = Some c ->
  - 2 ^ 63 <= r_offset r < 2 ^ 63 -> is_size (r_output_len r) ->
  disk_at drive disk a -> ata_drives a !! Z.to_nat drive = Some d ->
  Z.of_nat (length disk) = d_sectors d * 512 -> 0 <= d_sectors d < 2 ^ 23 ->
  Z.of_nat (length wbuf) = WBUF ->
  slice_spec (r_offset r) (r_output_len r) (d_sectors d * 512) false = (off, olen) ->
  off mod 512 = 0 -> 0 < olen ->
  let len := Z.min olen WBUF in
  exists a', disk_at drive disk a' /\ only_disk drive disk a a' /\
    pata_accept wbuf sec req (k, a) = with_disk a'
      ((setf r_offset req off;; setf r_output_len req olen;;
        _ ← pcpy_to c (r_output r)
              (take (Z.to_nat len) (drop (Z.to_nat off) disk) ++ drop (Z.to_nat len) wbuf) len;
        vfsreq_finish_short req len) k).
Proof.
  intros Hreq Ht Hid Hroot Hc Hoff Hlen Hda Hd Hsz Hsec Hw Hsl Hal Hpos len.
  pose proof (fs_normslice_spec (r_offset r) (r_output_len r) (d_sectors d * 512) false Hoff Hlen
    ltac:(unfold LONG_MAX; lia)) as [Hns Hin]. rewrite Hsl in Hns, Hin.
  destruct (Hin eq_refl) as (Ho0&Ho1&Ho2).
  assert (Z.of_nat (length wbuf) = 4096) as Hw' by exact Hw.
  assert (1 <= len <= 4096) as Hl by (unfold len, WBUF; lia).
  assert (read_cnt len 0 = (len + 511) / 512) as Hcnt.
  { rewrite read_cnt_eq by lia. cbn [Z.eqb]. rewrite Z.sub_0_r. lia. }
  destruct (runs_inv _ _ _ (ata_read_at (E := kexit) drive disk wbuf len off a Hda ltac:(lia) ltac:(lia)
    ltac:(lia) ltac:(rewrite Hal, Hcnt; Z.div_mod_to_equations; lia)
    ltac:(rewrite Hal, Hcnt; unfold len, WBUF in *; Z.div_mod_to_equations; lia))) as (x&a'&Er&->&Hat&Hbu).
  exists a'. split; [by eapply at_rest_again|]. split.
  { eapply at_chan_disks; [done|]. rewrite set_disk_same; [exact Hat|]. apply Hda. }
  assert (splice 0 (take (Z.to_nat (Z.min len (512 * read_cnt len (off mod 512) - off mod 512)))
            (drop (Z.to_nat off) disk)) wbuf =
          take (Z.to_nat len) (drop (Z.to_nat off) disk) ++ drop (Z.to_nat len) wbuf) as Ebuf.
  { rewrite Hal, Hcnt, Z.min_l by (Z.div_mod_to_equations; lia).
    unfold splice. rewrite take_0, length_take, length_drop. cbn [app]. do 2 f_equal. lia. }
  rewrite Ebuf in Er.
  assert (rd req k = Val r k) as Erd by (unfold rd, mbind, st_bind, get_; cbn; by rewrite Hreq).
  unfold pata_accept. rewrite (kern_val _ _ _ _ _ _ Erd), Ht.
  unfold pata_read. rewrite (kern_val _ _ _ _ _ _ Erd), Hid, (proj2 (Z.eqb_neq _ _) Hroot).
  rewrite (disk_io_val _ _ _ _ _ _ (ata_size_val drive d a ltac:(apply Hda) Hd)).
  rewrite u32_small, Hns by lia.
  rewrite (kern_val _ _ k a (off, olen) k) by done.
  rewrite (kern_val _ _ k a () (sliced req r off olen k)).
  2:{ etrans; [|apply (set_slice (mret ()) req r off olen k Hreq)].
      unfold mbind, st_bind. rewrite (set_request r_offset off k req r Hreq).
      by rewrite (set_request r_output_len olen _ req (r <| r_offset := off |>)) by apply lookup_insert_eq. }
  rewrite (disk_io_val _ _ _ _ _ _ Er), Hc, kern_with, s32_small by lia.
  f_equal. symmetry. apply (set_slice _ req r off olen k Hreq).
Qed.
End read.
