(* ===== verification/Setup.v ===== *)
(** * Setup

    How the kernel finds and programs its simpler devices: what the boot loader
    tells it ([mbi_tag] of [src/src/kernel/arch/amd64/boot.c]), the serial port
    ([driver/serial.c]), the keyboard controller ([driver/ps2.c]) and the timer
    ([time.c]).  Polls without a time-out have the bound [patience].  The devices are executable models of their own; the theorems say
    in which state the drivers leave them. *)

From Stdlib Require Import String.
From S2P Require Import Prelude Monad Mem Malloc Printf CString BootTables KState Drivers.

(** Ports of eight bits. *)
Class BytePorts (W : Type) := {
  b_in : Z -> W -> Z * W;
  b_out : Z -> Z -> W -> W;
}.

(** The device, and what the drivers have registered: whether there is a serial
    port, the interrupt lines that have a handler, the names below the root. *)
Record setup (W : Type) := mkSetup {
  dev : W; COM1_exists : bool; irq_lines : list Z; roots : list (list Z);
}.
Arguments mkSetup {W}.
Arguments dev {W}.
Arguments COM1_exists {W}.
Arguments irq_lines {W}.
Arguments roots {W}.
#[export] Instance setup_settable W : Settable (setup W) := fun s =>
  mkSetup (dev s) (COM1_exists s) (irq_lines s) (roots s).

Section ports.
Context {W : Type} `{BytePorts W}.
(** A bound on the polls that have no time-out. *)
Context (patience : nat).

Local Abbreviation D := (ST (setup W) Empty_set).

Definition port_in8 (port : Z) : D Z := fun s =>
  let '(v, w) := b_in port (dev s) in Val v (s <| dev := w |>).
Definition port_out8 (port v : Z) : D () := modify (set dev (b_out port (u8 v))).

(** [while ((port_in8(port) & mask) == 0)], or [!= 0] *)
Fixpoint poll (n : nat) (port mask : Z) (want : bool) : D () :=
  match n with
  | O => fail OutOfFuel
  | S n =>
      v ← port_in8 port;
      if Bool.eqb (negb (Z.land v mask =? 0)) want then mret () else poll n port mask want
  end.

Definition set_irq (line : Z) : D () := modify (set irq_lines (fun l => l ++ [line])).
Definition root_register (path : list Z) : D () := modify (set roots (fun l => l ++ [path])).

(** ** The serial port *)

Definition COM1 : Z := 0x3f8.

(** One turn of the self-test; [inr] is its result. *)
Definition selftest_turn (i : Z) : D (Z + bool) :=
  if i <? 16 then
    port_out8 COM1 i;;
    v ← port_in8 COM1;
    mret (if v =? i then inl (i + 1) else inr false)
  else mret (inr true).

Definition serial_selftest : D bool :=
  port_out8 (COM1 + 4) 0x1E;;
  iter 17 selftest_turn 0.

Definition serial_preinit : D () :=
  set_irq IRQ_COM1;;
  port_out8 (COM1 + 3) 0x80;;
  port_out8 (COM1 + 0) 0x01;;
  port_out8 (COM1 + 1) 0x00;;
  port_out8 (COM1 + 3) 0x03;;
  port_out8 (COM1 + 1) 0x01;;
  port_out8 (COM1 + 2) 0xC7;;
  ok ← serial_selftest;
  if (ok : bool) then
    modify (set COM1_exists (fun _ => true));;
    port_out8 (COM1 + 4) 0x0F
  else mret ().

Definition serial_init : D () :=
  s ← get_; if COM1_exists s then root_register (str "/dev/com1") else mret ().

Definition serial_putchar (c : Z) : D () :=
  poll patience (COM1 + 5) 0x20 true;; port_out8 COM1 c.

Definition serial_write (buf : list Z) : D () := forM buf serial_putchar.

(** [tty_init] *)
Definition tty_init : D () := serial_preinit;; serial_write (str "<3 ").

(** ** The keyboard controller *)

Definition PS2 : Z := 0x60.

Definition wait_out : D () := poll patience (PS2 + 4) 2 false.
Definition wait_in : D () := poll patience (PS2 + 4) 1 true.

Definition ps2_init : D () :=
  wait_out;;
  port_out8 (PS2 + 4) 0x20;;
  wait_in;;
  compaq ← port_in8 PS2;
  let compaq := Z.lor compaq (Z.shiftl 1 1) in
  let compaq := Z.land compaq (Z.lnot (Z.shiftl 1 5)) in
  wait_out;;
  port_out8 (PS2 + 4) 0x60;;
  wait_out;;
  port_out8 PS2 compaq;;
  wait_out;;
  port_out8 (PS2 + 4) 0xD4;;
  wait_out;;
  port_out8 PS2 0xF4;;
  wait_in;;
  ack ← port_in8 PS2;
  if negb (ack =? 0xFA) then panic
  else
    set_irq IRQ_PS2KB;;
    set_irq IRQ_PS2MOUSE;;
    root_register (str "/dev/ps2/").
End ports.

(** ** What a serial port does (16550)

    Each access to one of its ports is a tick.  A character takes [u_slow] of them
    to be sent, or to come back in loopback mode; [u_wait] are still to go for the
    first one of [u_tx]. *)
Record uart := mkUart {
  u_div : Z * Z; u_ier : Z; u_fcr : Z; u_lcr : Z; u_mcr : Z;
  u_rx : list Z; u_tx : list Z; u_sent : list Z; u_wait : nat; u_slow : nat;
}.

#[export] Instance uart_settable : Settable uart := fun u =>
  mkUart (u_div u) (u_ier u) (u_fcr u) (u_lcr u) (u_mcr u) (u_rx u) (u_tx u) (u_sent u) (u_wait u) (u_slow u).

Definition dlab (u : uart) : bool := Z.testbit (u_lcr u) 7.
Definition loopback (u : uart) : bool := Z.testbit (u_mcr u) 4.

Definition u_tick (u : uart) : uart :=
  match u_tx u with
  | [] => u
  | c :: tx =>
      match u_wait u with
      | S n => u <| u_wait := n |>
      | O =>
          let u' := u <| u_tx := tx |> <| u_wait := u_slow u |> in
          if loopback u then u' <| u_rx ::= fun l => l ++ [c] |> else u' <| u_sent ::= fun l => l ++ [c] |>
      end
  end.

Definition u_status (u : uart) : Z :=
  Z.lor (if bool_decide (u_rx u = []) then 0 else 1) (if bool_decide (u_tx u = []) then 0x60 else 0).

Definition u_in (off : Z) (u : uart) : Z * uart :=
  match off with
  | 0 => if dlab u then ((u_div u).1, u)
         else match u_rx u with [] => (0, u) | c :: rx => (c, u <| u_rx := rx |>) end
  | 1 => (if dlab u then (u_div u).2 else u_ier u, u)
  | 3 => (u_lcr u, u)
  | 4 => (u_mcr u, u)
  | 5 => (u_status u, u)
  | _ => (0, u)
  end.

Definition u_out (off v : Z) (u : uart) : uart :=
  match off with
  | 0 => if dlab u then u <| u_div ::= fun d => (v, d.2) |>
         else u <| u_tx ::= fun l => l ++ [v] |> <| u_wait ::= fun n => if bool_decide (u_tx u = []) then u_slow u else n |>
  | 1 => if dlab u then u <| u_div ::= fun d => (d.1, v) |> else u <| u_ier := v |>
  | 2 =>
      let u := u <| u_fcr := v |> in
      let u := if Z.testbit v 1 then u <| u_rx := [] |> else u in
      if Z.testbit v 2 then u <| u_tx := [] |> else u
  | 3 => u <| u_lcr := v |>
  | 4 => u <| u_mcr := v |>
  | _ => u
  end.

(** [None]: nothing answers. *)
#[export] Instance uart_ports : BytePorts (option uart) := {
  b_in port w :=
    match w with
    | Some u => let '(v, u) := u_in (port - 0x3f8) (u_tick u) in (v, Some u)
    | None => (0xFF, None)
    end;
  b_out port v w := (fun u => u_out (port - 0x3f8) v (u_tick u)) <$> w;
}.

(** A port that is set up: 115200 baud, 8 bits without parity, an interrupt for
    every character that arrives, queues switched on, not in loopback mode. *)
Definition configured (u : uart) : Prop :=
  u_div u = (1, 0) /\ u_lcr u = 3 /\ u_ier u = 1 /\ u_fcr u = 0xC7 /\ u_mcr u = 0x0F.

(** A port that returns characters at once is found, and nothing of the test is
    sent, or left where it would be read. *)
Theorem serial_found d e fc l m rx sent wait exists0 lines rs :
  runs serial_preinit (mkSetup (Some (mkUart d e fc l m rx [] sent wait 0)) exists0 lines rs) (fun _ s' =>
    COM1_exists s' = true /\ irq_lines s' = lines ++ [IRQ_COM1] /\ roots s' = rs /\
    exists u, dev s' = Some u /\ configured u /\ u_rx u = [] /\ u_tx u = [] /\ u_sent u = sent /\ u_slow u = 0%nat).
Proof. vm_compute. repeat split. eexists. repeat split. Qed.

(** Where nothing answers there is no serial port, and no file for it. *)
Theorem serial_absent lines rs :
  runs (serial_preinit;; serial_init) (mkSetup (W := option uart) None false lines rs) (fun _ s' =>
    COM1_exists s' = false /\ roots s' = rs).
Proof. vm_compute. done. Qed.

(** The self-test does not wait for the character to come back: a port that takes
    only one access longer is not found. *)
Lemma serial_slow_not_found d e fc l m rx sent wait slow lines rs :
  runs serial_preinit (mkSetup (Some (mkUart d e fc l m rx [] sent wait (S slow))) false lines rs) (fun _ s' =>
    COM1_exists s' = false).
Proof. destruct slow as [|[|n]]; vm_compute; done. Qed.

(** ** Sending *)

(** What was sent, and what is on its way. *)
Definition u_line (u : uart) : list Z := u_sent u ++ u_tx u.

(** Ready to send, with one character on its way at most. *)
Definition sends (patience : nat) (u : uart) : Prop :=
  dlab u = false /\ loopback u = false /\ (length (u_tx u) <= 1)%nat /\
  (u_wait u <= u_slow u < patience)%nat.

Lemma status_bit u : negb (Z.land (u_status u) 0x20 =? 0) = bool_decide (u_tx u = []).
Proof. unfold u_status. by do 2 case_bool_decide. Qed.

Lemma line_poll n u b lines rs Q :
  (if bool_decide (u_tx (u_tick u) = []) then Q () (mkSetup (Some (u_tick u)) b lines rs)
   else runs (poll n (COM1 + 5) 0x20 true) (mkSetup (Some (u_tick u)) b lines rs) Q) ->
  runs (poll (S n) (COM1 + 5) 0x20 true) (mkSetup (Some u) b lines rs) Q.
Proof.
  intros H. cbn [poll]. apply runs_bind.
  change (runs (if Bool.eqb (negb (Z.land (u_status (u_tick u)) 0x20 =? 0)) true then mret ()
                else poll n (COM1 + 5) 0x20 true) (mkSetup (Some (u_tick u)) b lines rs) Q).
  rewrite status_bit. by case_bool_decide.
Qed.

(** A tick sends the character that is due. *)
Lemma tick_sends patience u : sends patience u ->
  sends patience (u_tick u) /\ u_line (u_tick u) = u_line u /\
  (u_tx u <> [] -> u_wait u <> 0%nat -> S (u_wait (u_tick u)) = u_wait u) /\
  (u_tx (u_tick u) = [] <-> u_tx u = [] \/ u_wait u = 0%nat).
Proof.
  intros (Hd&Hl&Ht&Hw). destruct u as [d e fc lc mc rx tx sent wait slow].
  unfold sends, u_line, u_tick. cbn [u_tx u_wait u_slow u_sent] in *.
  destruct tx as [|c [|]]; [|destruct wait as [|wait]|cbn in Ht; lia].
  - repeat split; cbn; try done; try lia. auto.
  - rewrite Hl.
    repeat split; cbn; try done; try lia; try (by rewrite app_nil_r); try auto.
  - repeat split; cbn; try done; try lia. intros [?|?]; done.
Qed.

Lemma putchar_poll n patience : forall u b lines rs, sends patience u ->
  ((if bool_decide (u_tx u = []) then 0 else u_wait u) < n)%nat ->
  runs (poll n (COM1 + 5) 0x20 true) (mkSetup (Some u) b lines rs) (fun _ s' =>
    exists u', s' = mkSetup (Some u') b lines rs /\ sends patience u' /\ u_tx u' = [] /\ u_line u' = u_line u).
Proof.
  induction n as [|n IH]; intros u b lines rs Hu Hp; [lia|].
  destruct (tick_sends _ u Hu) as (H1&E1&Hw&He). apply line_poll. destruct (bool_decide_reflect (u_tx (u_tick u) = [])) as [Hx|Hx]; [by exists (u_tick u)|].
  eapply runs_mono; [apply IH; [done|]|].
  - rewrite bool_decide_false by done. rewrite bool_decide_false in Hp by tauto.
    pose proof (Hw ltac:(tauto) ltac:(tauto)). lia.
  - intros _ s' (u'&->&H2&E2&E3). exists u'. by rewrite E3, E1.
Qed.

Lemma putchar_sends patience c u b lines rs : sends patience u ->
  runs (serial_putchar patience c) (mkSetup (Some u) b lines rs) (fun _ s' =>
    exists u', s' = mkSetup (Some u') b lines rs /\ sends patience u' /\ u_line u' = u_line u ++ [u8 c]).
Proof.
  intros Hs. apply runs_bind. eapply runs_mono; [apply (putchar_poll patience patience); [done|]|].
  { destruct Hs as (_&_&_&?). case_bool_decide; lia. }
  intros _ s' (u'&->&(Hd&Hl&Ht&Hw)&E&<-).
  exists (u_out 0 (u8 c) (u_tick u')). split; [done|]. unfold u_tick. rewrite E.
  unfold u_out. rewrite Hd. unfold sends, u_line. cbn. rewrite E. repeat split; done || (cbn; lia) || (by rewrite app_nil_r).
Qed.

(** The characters that are written reach the wire, in order, all but the last one
    before [serial_write] returns; of each of them its byte. *)
Theorem serial_write_sends patience buf u b lines rs : sends patience u ->
  runs (serial_write patience buf) (mkSetup (Some u) b lines rs) (fun _ s' =>
    exists u', s' = mkSetup (Some u') b lines rs /\ sends patience u' /\ u_line u' = u_line u ++ (u8 <$> buf)).
Proof.
  revert u; induction buf as [|c buf IH]; intros u Hs.
  { apply runs_ret. exists u. by rewrite app_nil_r. }
  apply runs_bind. eapply runs_mono; [by apply putchar_sends|].
  intros _ s' (u1&->&H1&E1). eapply runs_mono; [by apply IH|].
  intros _ s2 (u2&->&H2&E2). exists u2. split; [done|]. split; [done|]. by rewrite E2, E1, <- app_assoc.
Qed.

(** The first thing the kernel does: the greeting goes out on the port that was
    found. *)
Lemma tty_greets :
  runs (tty_init 1) (mkSetup (Some (mkUart (0, 0) 0 0 0 0 [7] [] [] 0 0)) false [] []) (fun _ s' =>
    exists u, dev s' = Some u /\ u_line u = str "<3 ").
Proof. vm_compute. by eexists. Qed.

(** ** What the keyboard controller does (8042)

    A byte that is written to one of its ports is worked on [k_busy] polls later;
    one that is written before that is lost.  [k_out] are the bytes that wait to be
    read, [k_mouse] what was sent on to the mouse, which answers [k_answer]. *)
Record kbc := mkKbc {
  k_config : Z; k_out : list Z; k_in : option (bool * Z); k_cmd : Z; k_busy : nat; k_slow : nat;
  k_mouse : list Z; k_answer : Z;
}.

#[export] Instance kbc_settable : Settable kbc := fun k =>
  mkKbc (k_config k) (k_out k) (k_in k) (k_cmd k) (k_busy k) (k_slow k) (k_mouse k) (k_answer k).

(** The byte in [k_in] is a command ([true]) or belongs to the last one. *)
Definition k_work (k : kbc) : kbc :=
  match k_in k with
  | None => k
  | Some (true, c) =>
      let k := k <| k_in := None |> <| k_cmd := c |> in
      if c =? 0x20 then k <| k_out ::= fun l => l ++ [k_config k] |> else k
  | Some (false, v) =>
      let k' := k <| k_in := None |> <| k_cmd := 0 |> in
      if k_cmd k =? 0x60 then k' <| k_config := v |>
      else if k_cmd k =? 0xD4 then
        k' <| k_mouse ::= fun l => l ++ [v] |> <| k_out ::= fun l => l ++ [k_answer k] |>
      else k'                                                     (* for the keyboard *)
  end.

Definition k_tick (k : kbc) : kbc :=
  match k_busy k with O => k_work k | S n => k <| k_busy := n |> end.

Definition k_status (k : kbc) : Z :=
  Z.lor (if bool_decide (k_out k = []) then 0 else 1) (if is_some (k_in k) then 2 else 0).

Definition k_accept (cmd : bool) (v : Z) (k : kbc) : kbc :=
  if is_some (k_in k) then k else k <| k_in := Some (cmd, v) |> <| k_busy := k_slow k |>.

#[export] Instance kbc_ports : BytePorts kbc := {
  b_in port k :=
    if port =? 0x64 then let k := k_tick k in (k_status k, k)
    else match k_out k with [] => (0, k) | c :: out => (c, k <| k_out := out |>) end;
  b_out port v k := k_accept (port =? 0x64) v k;
}.

(** Nothing is waiting to be worked on or read. *)
Definition k_idle (k : kbc) : Prop := k_in k = None /\ k_out k = [].

(** A wait for a byte that is worked on ends when it has been. *)
Lemma busy_poll mask want b lines rs k : forall n busy,
  is_some (k_in k) = true -> k_out k = [] -> (busy < n)%nat ->
  Bool.eqb (negb (Z.land 2 mask =? 0)) want = false ->
  Bool.eqb (negb (Z.land (k_status (k_work (k <| k_busy := 0%nat |>))) mask =? 0)) want = true ->
  poll n 0x64 mask want (mkSetup (k <| k_busy := busy |>) b lines rs) =
  Val () (mkSetup (k_work (k <| k_busy := 0%nat |>)) b lines rs).
Proof.
  destruct k as [cf out inp cmd busy0 slow mouse ans]; cbn [k_in k_out].
  intros n busy Hi -> Hn Hw Hd. revert busy Hn; induction n as [|n IH]; intros busy Hn; [lia|].
  change ((if Bool.eqb (negb (Z.land (k_status (k_tick (mkKbc cf [] inp cmd busy slow mouse ans))) mask =? 0)) want
           then mret () else poll n 0x64 mask want)
          (mkSetup (k_tick (mkKbc cf [] inp cmd busy slow mouse ans)) b lines rs) =
          Val () (mkSetup (k_work (mkKbc cf [] inp cmd 0 slow mouse ans)) b lines rs)).
  destruct busy as [|busy].
  - change (k_tick _) with (k_work (mkKbc cf [] inp cmd 0 slow mouse ans)).
    change (mkKbc _ _ _ _ _ _ _ _ <| k_busy := 0%nat |>) with (mkKbc cf [] inp cmd 0 slow mouse ans) in Hd.
    by rewrite Hd.
  - change (k_tick _) with (mkKbc cf [] inp cmd busy slow mouse ans).
    replace (k_status (mkKbc cf [] inp cmd busy slow mouse ans)) with 2 by (by unfold k_status; cbn; rewrite Hi).
    rewrite Hw. apply IH. lia.
Qed.

(** With nothing to be worked on, a wait for the input buffer ends at once. *)
Lemma idle_poll n k b lines rs : k_in k = None ->
  poll (S n) 0x64 2 false (mkSetup k b lines rs) =
  Val () (mkSetup (k <| k_busy := Nat.pred (k_busy k) |>) b lines rs).
Proof.
  destruct k as [cf out inp cmd busy slow mouse ans]; cbn [k_in]; intros ->.
  change ((if Bool.eqb (negb (Z.land (k_status (k_tick (mkKbc cf out None cmd busy slow mouse ans))) 2 =? 0)) false
           then mret () else poll n 0x64 2 false)
          (mkSetup (k_tick (mkKbc cf out None cmd busy slow mouse ans)) b lines rs) =
          Val () (mkSetup (mkKbc cf out None cmd (Nat.pred busy) slow mouse ans) b lines rs)).
  assert (Bool.eqb (negb (Z.land (k_status (k_tick (mkKbc cf out None cmd busy slow mouse ans))) 2 =? 0)) false = true)
    as ->. { unfold k_tick, k_status. destruct busy; cbn; by case_bool_decide. }
  by destruct busy.
Qed.

(** The configuration byte that is written. *)
Definition mouse_on (config : Z) : Z := Z.land (Z.lor config (Z.shiftl 1 1)) (Z.lnot (Z.shiftl 1 5)).

Lemma mouse_on_bits config i : 0 <= i < 8 ->
  Z.testbit (u8 (mouse_on config)) i = if i =? 1 then true else if i =? 5 then false else Z.testbit config i.
Proof.
  intros Hi. unfold u8, mouse_on. rewrite Z.mod_pow2_bits_low by lia.
  rewrite Z.land_spec, Z.lor_spec, Z.lnot_spec by lia.
  assert (i = 0 \/ i = 1 \/ i = 2 \/ i = 3 \/ i = 4 \/ i = 5 \/ i = 6 \/ i = 7) as Hc by lia.
  repeat destruct Hc as [->|Hc]; [..|subst]; cbn [Z.eqb Pos.eqb];
    rewrite ?andb_true_r, ?andb_false_r, ?orb_false_r, ?orb_true_r; done || (cbn; by rewrite ?orb_false_r, ?andb_true_r).
Qed.

(** A byte is handed over when the controller can take it, *)
Lemma hand_over {A} n cf cmd busy slow mouse ans port v (f : () -> ST (setup kbc) Empty_set A) b lines rs :
  (poll (S n) 0x64 2 false ≫= fun _ => port_out8 port v ≫= f) (mkSetup (mkKbc cf [] None cmd busy slow mouse ans) b lines rs) =
  f () (mkSetup (mkKbc cf [] (Some (port =? 0x64, u8 v)) cmd slow slow mouse ans) b lines rs).
Proof. erewrite after_val by (by apply idle_poll). by erewrite after_val. Qed.

(** and worked on before the next wait ends. *)
Lemma settled {A} n cf inp cmd slow mouse ans k' mask want (f : () -> ST (setup kbc) Empty_set A) b lines rs :
  k_work (mkKbc cf [] (Some inp) cmd 0 slow mouse ans) = k' -> (slow < n)%nat ->
  Bool.eqb (negb (Z.land 2 mask =? 0)) want = false ->
  Bool.eqb (negb (Z.land (k_status k') mask =? 0)) want = true ->
  (poll n 0x64 mask want ≫= f) (mkSetup (mkKbc cf [] (Some inp) cmd slow slow mouse ans) b lines rs) =
  f () (mkSetup k' b lines rs).
Proof.
  intros <- Hn Hw Hd.
  erewrite after_val by (by apply (busy_poll mask want b lines rs (mkKbc cf [] (Some inp) cmd slow slow mouse ans) n slow)).
  done.
Qed.

(** A byte is handed over at once after the one before. *)
Lemma follow_up {A} n cf inp cmd slow mouse ans cf' cmd' port v (f : () -> ST (setup kbc) Empty_set A) b lines rs :
  k_work (mkKbc cf [] (Some inp) cmd 0 slow mouse ans) = mkKbc cf' [] None cmd' 0 slow mouse ans -> (slow < n)%nat ->
  (poll n 0x64 2 false ≫= fun _ => port_out8 port v ≫= f)
    (mkSetup (mkKbc cf [] (Some inp) cmd slow slow mouse ans) b lines rs) =
  f () (mkSetup (mkKbc cf' [] (Some (port =? 0x64, u8 v)) cmd' slow slow mouse ans) b lines rs).
Proof. intros Hk Hn. erewrite settled by done. by erewrite after_val. Qed.

(** What is waiting is read. *)
Lemma read_byte {A} cf x cmd busy slow mouse ans (f : Z -> ST (setup kbc) Empty_set A) b lines rs :
  (port_in8 PS2 ≫= f) (mkSetup (mkKbc cf [x] None cmd busy slow mouse ans) b lines rs) =
  f x (mkSetup (mkKbc cf [] None cmd busy slow mouse ans) b lines rs).
Proof. done. Qed.

(** All that [ps2_init] does before it looks at the answer. *)
Lemma ps2_exchange patience k b lines rs :
  k_idle k -> (k_slow k < patience)%nat ->
  ps2_init patience (mkSetup k b lines rs) =
  (if negb (k_answer k =? 0xFA) then panic
   else set_irq IRQ_PS2KB;; set_irq IRQ_PS2MOUSE;; root_register (str "/dev/ps2/"))
  (mkSetup (mkKbc (u8 (mouse_on (k_config k))) [] None 0 0 (k_slow k) (k_mouse k ++ [0xF4]) (k_answer k)) b lines rs).
Proof.
  destruct k as [cf out inp cmd busy slow mouse ans]. intros [Hi Ho] Hp; cbn in Hi, Ho, Hp; subst inp out.
  destruct patience as [|n]; [lia|].
  unfold ps2_init, wait_out, wait_in. change (PS2 + 4) with 0x64.
  rewrite hand_over. erewrite (settled (S n) _ _ _ _ _ _ (mkKbc cf [cf] None 0x20 0 slow mouse ans)) by done.
  rewrite read_byte. cbv zeta. fold (mouse_on cf). rewrite hand_over.
  erewrite (follow_up (S n) _ _ _ _ _ _ cf 0x60) by done.
  erewrite (follow_up (S n) _ _ _ _ _ _ (u8 (mouse_on cf)) 0) by done.
  erewrite (follow_up (S n) _ _ _ _ _ _ (u8 (mouse_on cf)) 0xD4) by done.
  erewrite (settled (S n) _ _ _ _ _ _ (mkKbc (u8 (mouse_on cf)) [ans] None 0 0 slow (mouse ++ [0xF4]) ans)) by done.
  apply read_byte.
Qed.

(** The keyboard controller is left with the mouse's interrupt and clock switched
    on, all else as it was, and the mouse told to send its packets, if it
    acknowledges that; if it does not the kernel panics. *)
Theorem ps2_ready patience k b lines rs :
  k_idle k -> (k_slow k < patience)%nat ->
  if k_answer k =? 0xFA then
    runs (ps2_init patience) (mkSetup k b lines rs) (fun _ s' =>
      k_idle (dev s') /\ k_mouse (dev s') = k_mouse k ++ [0xF4] /\
      (forall i, 0 <= i < 8 -> Z.testbit (k_config (dev s')) i =
         if i =? 1 then true else if i =? 5 then false else Z.testbit (k_config k) i) /\
      irq_lines s' = lines ++ [IRQ_PS2KB; IRQ_PS2MOUSE] /\ roots s' = rs ++ [str "/dev/ps2/"])
  else ps2_init patience (mkSetup k b lines rs) = Fault Panic.
Proof.
  intros Hk Hp. pose proof (ps2_exchange patience k b lines rs Hk Hp) as E.
  destruct (k_answer k =? 0xFA); [|exact E]. unfold runs. rewrite E. cbn -[u8 str mouse_on app].
  split; [done|]. split; [done|]. split; [apply mouse_on_bits|]. split; [|done]. symmetry. apply (app_assoc lines [IRQ_PS2KB] [IRQ_PS2MOUSE]).
Qed.

(** A byte that is still waiting to be read, of a key that was pressed before, is
    taken for the configuration, and the configuration for the answer: the kernel
    does not start. *)
Lemma key_before_start_panics patience :
  ps2_init (S patience) (mkSetup (mkKbc 0x47 [0x1E] None 0 0 0 [] 0xFA) false [] []) = Fault Panic.
Proof. destruct patience; reflexivity. Qed.

(** ** The timer

    Its registers, at their offsets; what a write changes of them is the
    hardware's. *)
Record hpet_regs := mkHpetRegs {
  h_info : Z; h_cfg : Z; h_status : Z; h_counter : Z; h_timcfg : Z; h_timval : Z;
}.

#[export] Instance hpet_regs_settable : Settable hpet_regs := fun h =>
  mkHpetRegs (h_info h) (h_cfg h) (h_status h) (h_counter h) (h_timcfg h) (h_timval h).

Definition hpet_read (off : Z) (h : hpet_regs) : Z :=
  if off =? 0 then h_info h
  else if off =? 0x10 then h_cfg h
  else if off =? 0x20 then h_status h
  else if off =? 0xF0 then h_counter h
  else if off =? 0x120 then h_timcfg h
  else if off =? 0x128 then h_timval h
  else 0.

(** The bits of the comparator's configuration that can be written. *)
Definition timcfg_writable : Z := 0x7F4E.

Definition hpet_write (off v : Z) (h : hpet_regs) : hpet_regs :=
  if off =? 0x10 then h <| h_cfg := Z.land v 3 |>
  else if off =? 0x20 then h <| h_status ::= fun s => Z.ldiff s v |>       (* writing 1 clears *)
  else if off =? 0x120 then
    h <| h_timcfg ::= fun c => Z.lor (Z.ldiff c timcfg_writable) (Z.land v timcfg_writable) |>
  else if off =? 0x128 then h <| h_timval := v |>
  else h.

(** The driver's variables. *)
Record hpet_state := mkHpetState { regs : hpet_regs; hpet : option Z; hpet_period : Z; hpet_handler : bool }.

#[export] Instance hpet_state_settable : Settable hpet_state := fun s =>
  mkHpetState (regs s) (hpet s) (hpet_period s) (hpet_handler s).

Local Abbreviation H := (ST hpet_state Empty_set).

(** [*(hpet + off)] *)
Definition hget (off : Z) : H Z := gets (fun s => hpet_read off (regs s)).
Definition hput (off v : Z) : H () := modify (set regs (hpet_write off (u64 v))).

Definition HpetIs64Bit : Z := Z.shiftl 1 13.
Definition HpetHasLegacyMap : Z := Z.shiftl 1 15.
Definition HpetEnabled : Z := Z.shiftl 1 0.
Definition HpetUseLegacyMap : Z := Z.shiftl 1 1.
Definition HpetTimerTrigger : Z := Z.shiftl 1 1.
Definition HpetTimerEnable : Z := Z.shiftl 1 2.
Definition HpetTimerPeriodic : Z := Z.shiftl 1 3.
Definition HpetTimer64 : Z := Z.shiftl 1 5.

Definition hpet_init (base : Z) : H () :=
  s ← get_;
  if is_some (hpet s) then panic
  else
    modify (set hpet (fun _ => Some base));;
    info ← hget 0;
    modify (set hpet_period (fun _ => Z.shiftr info 32));;
    info ← hget 0;
    if Z.land info HpetIs64Bit =? 0 then panic
    else
      info ← hget 0;
      if Z.land info HpetHasLegacyMap =? 0 then panic
      else
        timcfg ← hget 0x120;
        if Z.land timcfg HpetTimer64 =? 0 then panic
        else
          timcfg ← hget 0x120;
          hput 0x120 (Z.lor timcfg HpetTimerTrigger);;
          timcfg ← hget 0x120;
          hput 0x120 (Z.land timcfg (Z.lnot HpetTimerPeriodic));;
          cfg ← hget 0x10;
          hput 0x10 (Z.lor cfg (Z.lor HpetEnabled HpetUseLegacyMap));;
          modify (set hpet_handler (fun _ => true)).

(** [hpet_sched]; [goal] is when the first of the sleepers wants to be woken. *)
Definition hpet_program (goal : option Z) : H () :=
  match goal with
  | Some goal =>
      hput 0x128 goal;;
      timcfg ← hget 0x120;
      hput 0x120 (Z.lor timcfg HpetTimerEnable)
  | None =>
      timcfg ← hget 0x120;
      hput 0x120 (Z.land timcfg (Z.lnot HpetTimerEnable))
  end;;
  hput 0x20 (Z.lnot 0).

(** A tick of the counter; when it meets the comparator, the bit of the second
    timer is set, which is the interrupt. *)
Definition hpet_tick (h : hpet_regs) : hpet_regs :=
  if negb (Z.testbit (h_cfg h) 0) then h
  else
    let c := u64 (h_counter h + 1) in
    h <| h_counter := c |>
      <| h_status ::= fun s => if Z.testbit (h_timcfg h) 2 && (c =? h_timval h) then Z.lor s 2 else s |>.

Definition hpet_pending (h : hpet_regs) : bool := Z.testbit (h_status h) 1.

(** A write to the configuration of the comparator that leaves the other bits as
    they are. *)
Lemma timcfg_written t x : (forall i, 0 <= i -> Z.testbit timcfg_writable i = false -> Z.testbit x i = Z.testbit t i) ->
  Z.lor (Z.ldiff t timcfg_writable) (Z.land x timcfg_writable) = x.
Proof.
  intros Hx. apply Z.bits_inj'. intros i Hi. rewrite Z.lor_spec, Z.ldiff_spec, Z.land_spec.
  destruct (Z.testbit timcfg_writable i) eqn:E; [by rewrite andb_false_r, andb_true_r|].
  rewrite andb_true_r, andb_false_r, orb_false_r. symmetry. by apply Hx.
Qed.

Lemma u64_bits v : 0 <= v -> (forall i, 64 <= i -> Z.testbit v i = false) -> u64 v = v.
Proof.
  intros Hv Hb. unfold u64. apply Z.bits_inj'. intros i Hi. destruct (decide (i < 64)).
  - by apply Z.mod_pow2_bits_low.
  - rewrite Z.mod_pow2_bits_high by lia. symmetry. apply Hb. lia.
Qed.

Lemma size_bits v i : is_size v -> 64 <= i -> Z.testbit v i = false.
Proof.
  intros [H1 H2] Hi. destruct (decide (v = 0)) as [->|]; [apply Z.bits_0|].
  apply Z.bits_above_log2; [done|]. apply Z.log2_lt_pow2; [lia|].
  eapply Z.lt_le_trans; [done|]. by apply Z.pow_le_mono_r.
Qed.

(** Setting and clearing one bit. *)
Lemma bit_on v n i : 0 <= n -> 0 <= i -> Z.testbit (Z.lor v (Z.shiftl 1 n)) i = (i =? n) || Z.testbit v i.
Proof.
  intros Hn Hi. rewrite Z.lor_spec, Z.shiftl_spec by done. rewrite orb_comm. f_equal.
  destruct (Z.eqb_spec i n) as [->|]; [by rewrite Z.sub_diag|].
  destruct (decide (i < n)); [by rewrite Z.testbit_neg_r by lia|]. apply (Z.bits_above_log2 1); cbn; lia.
Qed.

Lemma bit_off v n i : 0 <= n -> 0 <= i ->
  Z.testbit (Z.land v (Z.lnot (Z.shiftl 1 n))) i = negb (i =? n) && Z.testbit v i.
Proof.
  intros Hn Hi. rewrite Z.land_spec, Z.lnot_spec by done. rewrite andb_comm. f_equal. f_equal.
  pose proof (bit_on 0 n i Hn Hi) as E. by rewrite Z.lor_0_l, Z.bits_0, orb_false_r in E.
Qed.

Definition timcfg_with (t n : Z) (on : bool) : Z :=
  if on then Z.lor t (Z.shiftl 1 n) else Z.land t (Z.lnot (Z.shiftl 1 n)).

Lemma timcfg_bit t n on i : 0 <= n -> 0 <= i ->
  Z.testbit (timcfg_with t n on) i = if i =? n then on else Z.testbit t i.
Proof.
  intros Hn Hi. unfold timcfg_with.
  destruct on; rewrite ?bit_on, ?bit_off by done; by destruct (i =? n).
Qed.

Lemma timcfg_size t n on : is_size t -> 0 <= n < 64 -> is_size (timcfg_with t n on).
Proof.
  intros Ht Hn. assert (0 <= timcfg_with t n on) as H0.
  { unfold timcfg_with. destruct on; [apply Z.lor_nonneg|apply Z.land_nonneg]; [|left]; destruct Ht; try done.
    split; [done|]. by apply Z.shiftl_nonneg. }
  rewrite <- (u64_bits (timcfg_with t n on)); [apply u64_range|done|].
  intros i Hi. rewrite timcfg_bit by lia. rewrite (proj2 (Z.eqb_neq i n)) by lia. by apply size_bits.
Qed.

(** A bit that can be written is written. *)
Lemma hput_bit h t n on : h_timcfg h = t -> is_size t -> 0 <= n < 64 -> Z.testbit timcfg_writable n = true ->
  hpet_write 0x120 (u64 (timcfg_with t n on)) h = h <| h_timcfg := timcfg_with t n on |>.
Proof.
  intros <- Ht Hn Hw. rewrite u64_small by (by apply timcfg_size).
  change (hpet_write 0x120 ?v ?h) with
    (h <| h_timcfg ::= fun c => Z.lor (Z.ldiff c timcfg_writable) (Z.land v timcfg_writable) |>).
  destruct h as [inf c st cn tc tv]. 
  change (mkHpetRegs inf c st cn (Z.lor (Z.ldiff tc timcfg_writable) (Z.land (timcfg_with tc n on) timcfg_writable)) tv =
          mkHpetRegs inf c st cn (timcfg_with tc n on) tv). f_equal.
  apply timcfg_written. intros i Hi Hi'. rewrite timcfg_bit by lia.
  destruct (Z.eqb_spec i n) as [->|]; [congruence|done].
Qed.

Lemma land_bit v n : 0 <= n -> (Z.land v (Z.shiftl 1 n) =? 0) = negb (Z.testbit v n).
Proof.
  intros Hn. apply eq_bool_prop_intro. rewrite Is_true_true, Z.eqb_eq, Is_true_true, negb_true_iff. split.
  - intros E. pose proof (bit_on 0 n n Hn Hn) as H1. rewrite Z.eqb_refl, Z.lor_0_l in H1. cbn in H1.
    assert (Z.testbit (Z.land v (Z.shiftl 1 n)) n = false) as E' by (by rewrite E, Z.bits_0).
    by rewrite Z.land_spec, H1, andb_true_r in E'.
  - intros E. apply Z.bits_inj'. intros i Hi. rewrite Z.land_spec, Z.bits_0.
    pose proof (bit_on 0 n i Hn Hi) as H1. rewrite Z.lor_0_l, Z.bits_0, orb_false_r in H1. rewrite H1.
    destruct (Z.eqb_spec i n) as [->|]; [by rewrite E|apply andb_false_r].
Qed.

Lemma enabled_bits c : Z.land (u64 (Z.lor c 3)) 3 = 3.
Proof.
  apply Z.bits_inj'. intros i Hi. rewrite Z.land_spec. destruct (Z.testbit 3 i) eqn:E; [|by rewrite andb_false_r].
  assert (i = 0 \/ i = 1) as Hi'.
  { destruct (decide (i < 2)); [lia|]. rewrite (Z.bits_above_log2 3) in E; cbn; done || lia. }
  unfold u64. rewrite Z.mod_pow2_bits_low by lia. by rewrite Z.lor_spec, E, orb_true_r.
Qed.

(** The timer that is found is switched on, takes the place of the interrupts of
    the old clock, and its second comparator rings once, level triggered; all else
    of the comparator's configuration stays.  A timer that cannot do what is
    needed, or a second one, is a panic. *)
Theorem hpet_started base h period handler : is_size (h_timcfg h) ->
  if Z.testbit (h_info h) 13 && Z.testbit (h_info h) 15 && Z.testbit (h_timcfg h) 5 then
    runs (hpet_init base) (mkHpetState h None period handler) (fun _ s' =>
      hpet s' = Some base /\ hpet_period s' = Z.shiftr (h_info h) 32 /\ hpet_handler s' = true /\
      h_cfg (regs s') = 3 /\ h_counter (regs s') = h_counter h /\
      forall i, 0 <= i -> Z.testbit (h_timcfg (regs s')) i =
        if i =? 3 then false else if i =? 1 then true else Z.testbit (h_timcfg h) i)
  else hpet_init base (mkHpetState h None period handler) = Fault Panic.
Proof.
  intros Ht.
  assert (hpet_init base (mkHpetState h None period handler) =
    if negb (Z.testbit (h_info h) 13) then Fault Panic
    else if negb (Z.testbit (h_info h) 15) then Fault Panic
    else if negb (Z.testbit (h_timcfg h) 5) then Fault Panic
    else
      let h1 := hpet_write 0x120 (u64 (timcfg_with (h_timcfg h) 1 true)) h in
      let h2 := hpet_write 0x120 (u64 (timcfg_with (h_timcfg h1) 3 false)) h1 in
      Val () (mkHpetState (hpet_write 0x10 (u64 (Z.lor (h_cfg h2) 3)) h2) (Some base) (Z.shiftr (h_info h) 32) true)) as E.
  { rewrite <- !land_bit by lia. unfold hpet_init, hput, hget, gets, modify, get_, panic, fail, mbind, st_bind, timcfg_with.
    fold HpetIs64Bit HpetHasLegacyMap HpetTimer64.
    cbn -[Z.land Z.lor Z.lnot Z.shiftr Z.shiftl hpet_write u64 HpetIs64Bit HpetHasLegacyMap HpetTimer64].
    destruct (Z.land (h_info h) HpetIs64Bit =? 0); [done|]. cbv beta. match goal with |- context [if Z.land (h_info ?r) _ =? 0 then _ else _] => change r with h end.
    destruct (Z.land (h_info h) HpetHasLegacyMap =? 0); [done|]. cbv beta. match goal with |- context [if Z.land (h_timcfg ?r) _ =? 0 then _ else _] => change r with h end.
    by destruct (Z.land (h_timcfg h) HpetTimer64 =? 0). }
  destruct (Z.testbit (h_info h) 13), (Z.testbit (h_info h) 15), (Z.testbit (h_timcfg h) 5);
    cbn [negb andb] in *; try exact E.
  unfold runs. rewrite E. cbv zeta. rewrite (hput_bit h (h_timcfg h) 1 true) by (done || lia).
  rewrite (hput_bit _ (timcfg_with (h_timcfg h) 1 true) 3 false) by (done || lia || by apply timcfg_size).
  split; [done|]. split; [done|]. split; [done|]. split; [apply enabled_bits|]. split; [done|].
  intros i Hi. change (Z.testbit (timcfg_with (timcfg_with (h_timcfg h) 1 true) 3 false) i =
    if i =? 3 then false else if i =? 1 then true else Z.testbit (h_timcfg h) i).
  rewrite !timcfg_bit by lia. done.
Qed.

Theorem hpet_started_once base base' h period handler :
  hpet_init base (mkHpetState h (Some base') period handler) = Fault Panic.
Proof. done. Qed.

Lemma tick_iter k h : Z.testbit (h_cfg h) 0 = true -> 0 <= h_counter h -> h_counter h + Z.of_nat k < 2 ^ 64 ->
  let h' := Nat.iter k hpet_tick h in
  h_cfg h' = h_cfg h /\ h_timcfg h' = h_timcfg h /\ h_timval h' = h_timval h /\
  h_counter h' = h_counter h + Z.of_nat k /\
  hpet_pending h' = hpet_pending h ||
    Z.testbit (h_timcfg h) 2 && ((h_counter h <? h_timval h) && (h_timval h <=? h_counter h + Z.of_nat k)).
Proof.
  intros He H0. induction k as [|k IH]; intros Hk; cbv zeta.
  { cbn [Nat.iter nat_rect]. rewrite Z.add_0_r. repeat (split; [done|]).
    destruct (Z.ltb_spec (h_counter h) (h_timval h)), (Z.leb_spec (h_timval h) (h_counter h)); try lia;
      by rewrite andb_false_r, orb_false_r. }
  destruct IH as (E1&E2&E3&E4&E5); [lia|]. cbn [Nat.iter nat_rect]. fold (Nat.iter k hpet_tick h).
  set (h1 := Nat.iter k hpet_tick h) in *. clearbody h1.
  unfold hpet_tick. rewrite E1, He. cbn [negb].
  assert (u64 (h_counter h1 + 1) = h_counter h + Z.of_nat (S k)) as Eu.
  { rewrite E4. replace (Z.of_nat (S k)) with (Z.of_nat k + 1) by lia. rewrite u64_small by (unfold is_size; lia). lia. }
  destruct h1 as [inf c st cn tc tv]; unfold hpet_pending in *; cbn [h_cfg h_timcfg h_timval h_counter h_status] in *.
  rewrite Eu. cbn [h_cfg h_timcfg h_timval h_counter h_status set hpet_regs_settable].
  split; [done|]. split; [done|]. split; [done|]. split; [done|].
  transitivity (Z.testbit (if Z.testbit tc 2 && (h_counter h + Z.of_nat (S k) =? tv) then Z.lor st 2 else st) 1);
    [done|].
  subst tc tv.
  transitivity (Z.testbit st 1 || Z.testbit (h_timcfg h) 2 && (h_counter h + Z.of_nat (S k) =? h_timval h)).
  { generalize (Z.testbit (h_timcfg h) 2 && (h_counter h + Z.of_nat (S k) =? h_timval h)) as x.
    intros []; [by rewrite Z.lor_spec|by rewrite orb_false_r]. }
  rewrite E5, <- orb_assoc, <- andb_orb_distrib_r. f_equal. f_equal.
  destruct (Z.ltb_spec (h_counter h) (h_timval h)), (Z.leb_spec (h_timval h) (h_counter h + Z.of_nat k)),
    (Z.eqb_spec (h_counter h + Z.of_nat (S k)) (h_timval h)), (Z.leb_spec (h_timval h) (h_counter h + Z.of_nat (S k)));
    done || lia.
Qed.

(** What [hpet_sched] has programmed rings when the counter comes to the time that
    it was given - and only then: if the counter has passed it already, nothing
    happens until the counter wraps. *)
Theorem hpet_rings k goal h b period handler :
  Z.testbit (h_cfg h) 0 = true -> is_size (h_timcfg h) -> is_size (h_status h) -> from_option is_size True goal ->
  0 <= h_counter h -> h_counter h + Z.of_nat k < 2 ^ 64 ->
  runs (hpet_program goal) (mkHpetState h b period handler) (fun _ s' =>
    h_counter (regs s') = h_counter h /\
    hpet_pending (Nat.iter k hpet_tick (regs s')) =
      match goal with
      | Some goal => (h_counter h <? goal) && (goal <=? h_counter h + Z.of_nat k)
      | None => false
      end).
Proof.
  intros He Ht Hst Hg H0 Hk.
  assert (exists tv on, runs (hpet_program goal) (mkHpetState h b period handler) (fun _ s' =>
      regs s' = h <| h_timval := tv |> <| h_timcfg := timcfg_with (h_timcfg h) 2 on |> <| h_status := 0 |>) /\
      (if on then goal = Some tv else goal = None)) as (tv&on&Hr&Hon).
  { assert (forall h', h_status h' = h_status h -> hpet_write 0x20 (u64 (Z.lnot 0)) h' = h' <| h_status := 0 |>) as Hs.
    { intros [inf c st cn tc tv] E. cbn in E. subst st.
      change (mkHpetRegs inf c (Z.ldiff (h_status h) (Z.ones 64)) cn tc tv = mkHpetRegs inf c 0 cn tc tv). f_equal.
      apply Z.bits_inj'. intros i Hi. rewrite Z.ldiff_spec, Z.bits_0.
      destruct (decide (i < 64)); [rewrite Z.ones_spec_low by lia; by rewrite andb_false_r|].
      by rewrite (size_bits (h_status h)) by (done || lia). }
    destruct goal as [g|]; cbn in Hg.
    - exists g, true. split; [|done].
      change (hpet_write 0x20 (u64 (Z.lnot 0)) (hpet_write 0x120 (u64 (timcfg_with (h_timcfg h) 2 true))
        (h <| h_timval := u64 g |>)) =
        h <| h_timval := g |> <| h_timcfg := timcfg_with (h_timcfg h) 2 true |> <| h_status := 0 |>).
      rewrite (u64_small g) by done. rewrite (hput_bit _ (h_timcfg h)) by (done || lia). by apply Hs.
    - exists (h_timval h), false. split; [|done].
      change (hpet_write 0x20 (u64 (Z.lnot 0)) (hpet_write 0x120 (u64 (timcfg_with (h_timcfg h) 2 false)) h) =
        h <| h_timval := h_timval h |> <| h_timcfg := timcfg_with (h_timcfg h) 2 false |> <| h_status := 0 |>).
      rewrite (hput_bit _ (h_timcfg h)) by (done || lia). rewrite Hs by done. by destruct h. }
  eapply runs_mono; [exact Hr|]. intros [] s' E. cbv beta in E. rewrite E. split; [done|].
  pose (h <| h_timval := tv |> <| h_timcfg := timcfg_with (h_timcfg h) 2 on |> <| h_status := 0 |>) as h2.
  destruct (tick_iter k h2 He H0 Hk) as (_&_&_&_&Ep).
  etrans; [exact Ep|].
  change (Z.testbit (timcfg_with (h_timcfg h) 2 on) 2 && ((h_counter h <? tv) && (tv <=? h_counter h + Z.of_nat k)) =
    match goal with Some goal => (h_counter h <? goal) && (goal <=? h_counter h + Z.of_nat k) | None => false end).
  rewrite timcfg_bit by lia. cbn [Z.eqb Pos.eqb]. by destruct on; rewrite Hon.
Qed.

(** A sleep that is over before the comparator is programmed: no interrupt in the
    next 1000 ticks. *)
Lemma deadline_missed :
  runs (hpet_program (Some 50)) (mkHpetState (mkHpetRegs 0 3 0 51 0 0) (Some 0) 10 true) (fun _ s' =>
    hpet_pending (Nat.iter 1000 hpet_tick (regs s')) = false).
Proof. vm_compute. done. Qed.

(** ** What the boot loader says *)

Section multiboot.
Context (m : mem).

Definition le32 (a : Z) : Z := le_value (bytes_at m a 4).

(** [n] bounds the number of tags. *)
Fixpoint mbi_tag_from (n : nat) (tag type : Z) : res Z :=
  match n with
  | O => Err OutOfFuel
  | S n =>
      if le32 tag =? 0 then Err Panic
      else if le32 tag =? type then Ok tag
      else mbi_tag_from n (tag + Z.land (u32 (le32 (tag + 4) + 7)) (Z.lnot 7)) type
  end.

Definition mbi_tag (n : nat) (mbi type : Z) : res Z := mbi_tag_from n (mbi + 8) type.

(** The tags that the kernel needs. *)
Record boot_tags := mkBootTags {
  t_mem_upper : Z; t_fb_addr : Z; t_pitch : Z; t_width : Z; t_height : Z; t_bpp : Z;
  t_mod_start : Z; t_mod_end : Z; t_rsdp : Z;
}.

Definition read_tags (n : nat) (mbi : Z) : res boot_tags :=
  meminfo ← mbi_tag n mbi 4;
  framebuf ← mbi_tag n mbi 8;
  mod_ ← mbi_tag n mbi 3;
  acpi ← mbi_tag n mbi 14;
  Ok {| t_mem_upper := le32 (meminfo + 12);
        t_fb_addr := le_value (bytes_at m (framebuf + 8) 8);
        t_pitch := le32 (framebuf + 16); t_width := le32 (framebuf + 20); t_height := le32 (framebuf + 24);
        t_bpp := le_value (bytes_at m (framebuf + 28) 1);
        t_mod_start := le32 (mod_ + 8); t_mod_end := le32 (mod_ + 12);
        t_rsdp := acpi + 8 |}.

(** Tags in memory, each with its type and its size, from [a] on. *)
Fixpoint tags_at (a : Z) (l : list (Z * Z)) : Prop :=
  match l with
  | [] => le32 a = 0
  | (type, size) :: l =>
      type <> 0 /\ 8 <= size < 2 ^ 32 - 8 /\ le32 a = type /\ le32 (a + 4) = size /\
      tags_at (a + (size + 7) / 8 * 8) l
  end.

(** Tags begin at multiples of 8 from the first one. *)
Definition tag_sizes (l : list (Z * Z)) : Z := foldr (fun t n => (t.2 + 7) / 8 * 8 + n) 0 l.

Lemma tag_round s : 0 <= s < 2 ^ 32 - 8 -> Z.land (u32 (s + 7)) (Z.lnot 7) = (s + 7) / 8 * 8.
Proof.
  intros Hs. rewrite u32_small by lia. change (Z.lnot 7) with (Z.lnot (Z.ones 3)).
  rewrite <- Z.ldiff_land, Z.ldiff_ones_r, Z.shiftl_mul_pow2, Z.shiftr_div_pow2 by lia. done.
Qed.

(** The first tag of a type is found, and without one the kernel does not start. *)
Theorem mbi_tag_finds n mbi l type : tags_at (mbi + 8) l -> (length l < n)%nat -> type <> 0 ->
  mbi_tag n mbi type =
  match list_find (fun t => t.1 = type) l with
  | Some (i, _) => Ok (mbi + 8 + tag_sizes (take i l))
  | None => Err Panic
  end.
Proof.
  unfold mbi_tag. generalize (mbi + 8) as a. intros a Hl Hn Ht.
  revert a n Hl Hn; induction l as [|[ty sz] l IH]; intros a n Hl Hn; (destruct n as [|n]; [cbn in Hn; lia|]).
  { cbn in Hl |- *. by rewrite Hl. }
  destruct Hl as (H0&Hs&E1&E2&Hl). cbn [mbi_tag_from list_find]. rewrite E1, E2, tag_round by lia.
  rewrite (proj2 (Z.eqb_neq ty 0)) by done. destruct (Z.eqb_spec ty type) as [->|Hne].
  - rewrite decide_True by done. cbn. f_equal. lia.
  - rewrite decide_False by done. rewrite IH by (done || (cbn in Hn; lia)).
    destruct (list_find _ l) as [[i t]|]; [|done]. cbn. f_equal. unfold tag_sizes. lia.
Qed.
End multiboot.

(** Tags with the sizes 8, 16, 12 and the end. *)
Lemma some_tags_are_read :
  let m := write_bytes ∅ 0x108
    (concat (le_bytes 4 <$> [1; 8; 4; 16; 640; 2048; 14; 12; 0x20445352; 0; 0; 8])) in
  mbi_tag m 5 0x100 4 = Ok 0x110 /\ mbi_tag m 5 0x100 14 = Ok 0x120 /\ mbi_tag m 5 0x100 8 = Err Panic.
Proof. vm_compute. done. Qed.

(** The name of the frame buffer ([video_init]). *)
Definition video_name (width height bpp : Z) : res (list Z) :=
  '(_, namebuf) ← vsnprintf (Some (replicate 64 0)) 64 (str "%ux%ux%u" ++ [0]) [VInt width; VInt height; VInt bpp];
  let namebuf := default [] namebuf in
  namelen ← strlen namebuf;
  Ok (take (Z.to_nat namelen) namebuf).

Lemma some_video_name : video_name 1024 768 32 = Ok (str "1024x768x32").
Proof. vm_compute. done. Qed.
