(* ===== verification/Request.v ===== *)
(** * Request

    Filesystem requests ([src/src/kernel/vfs/request.c]): a request is created
    by a system call (or by closing a file), queued at its backend, accepted by
    a kernel function or handed to the user process that provides the
    filesystem, and finished. *)

From S2P Require Import Prelude Monad Mem Malloc Paging KState Pcpy Proc Pipe Timer.
From S2P Require Import Handle Mount ProcLife Drivers.

(** [struct ufs_request], with its padding. *)
Definition ufs_request_bytes (op len capacity id offset flags : Z) : list Z :=
  le_bytes 4 op ++ le_bytes 4 0 ++ le_bytes 8 len ++ le_bytes 8 capacity ++
  le_bytes 8 id ++ le_bytes 8 offset ++ le_bytes 4 flags ++ le_bytes 4 0.

Definition awaited_req_of (p : ptr) : K (Z * Z * Z) :=
  u ← getf p_saved p;
  match u with
  | awaited_req buf max_len res => mret (buf, max_len, res)
  | _ => fail Undefined
  end.

Section request.
Context `{KFwd}.

(** The handle a successful open gives to the caller. *)
Definition finish_open (req : ptr) (stored ret flags : Z) (handler : option ptr) : K Z :=
  r ← rd (T := VfsReq) req;
  h ← (if negb (flag flags FSR_DELEGATE) then
         h ← handle_init HANDLE_FILE;
         setf h_backend h (r_backend r);;
         b ← deref (r_backend r);
         modf b_usehcnt b (Z.add 1);;
         setf h_file_id h stored;;
         setf h_readable h (OPEN_READABLE (r_flags r));;
         setf h_writeable h (OPEN_WRITEABLE (r_flags r));;
         mret (Some h)
       else
         p ← match handler with Some p => mret p | None => panic end;
         proc_hid_take p (s32 ret));
  match h with
  | None => mret (-1)
  | Some h =>
      c ← match r_caller r with Some c => mret c | None => panic end;
      ret ← proc_handle_put c h;
      mret (if ret <? 0 then - EMFILE else ret)
  end.

Definition vfsreq_finish (req : ptr) (stored ret flags : Z) (handler : option ptr) : K () :=
  type ← getf r_type req;
  ret ← (if bool_decide (type = VFSOP_OPEN) && (0 <=? ret)
         then finish_open req stored ret flags handler else mret ret);
  type ← getf r_type req;
  olen ← getf r_output_len req;
  (if bool_decide (type = VFSOP_READ) && (0 <=? ret) then assert (ret <=? olen) else mret ());;
  input ← getf r_input req;
  match input with
  | in_kern b => kfree_buf (Some b)
  | in_user _ => mret ()
  end;;
  backend ← getf r_backend req;
  match backend with
  | None => mret ()
  | Some b => fwd_vfs_backend_refdown b true
  end;;
  caller ← getf r_caller req;
  match caller with
  | Some c =>
      assert_state c PS_WAITS4FS;;
      regs_savereturn c ret;;
      proc_setstate c PS_RUNNING
  | None => del VfsReq req
  end.

(** The input copied to the handler's buffer: its length. *)
Definition accept_input (r : VfsReq) (buf max_len : Z) (hp : ptr) : K Z :=
  match r_input r with
  | in_kern b =>
      let len := s32 (Z.min (r_input_len r) max_len) in
      data ← rd (T := list Z) b;
      _ ← pcpy_to hp buf data (u64 len);
      mret len
  | in_user src =>
      if src =? 0 then mret (s32 (r_output_len r))
      else
        let len := s32 (Z.min (r_input_len r) max_len) in
        c ← match r_caller r with Some c => mret c | None => panic end;
        n ← pcpy_bi hp buf c src (u64 len);
        mret (s32 n)
  end.

Definition vfs_backend_user_accept (req : ptr) : K () :=
  r ← rd (T := VfsReq) req;
  b ← match r_backend r with Some b => mret b | None => panic end;
  impl ← getf b_impl b;
  handler ← match impl with be_user h => mret h | be_kern _ _ _ => fail Undefined end;
  hp ← match handler with Some p => mret p | None => panic end;
  assert_state hp PS_WAITS4REQUEST;;
  '(buf, max_len, res) ← awaited_req_of hp;
  len ← accept_input r buf max_len hp;
  let data := ufs_request_bytes (vfs_op_num (r_type r)) (u64 len) (r_output_len r)
                (r_id r) (r_offset r) (r_flags r) in
  n ← pcpy_to hp res data 48;
  (if n <? 48 then panic else mret ());;
  '(hid, h) ← proc_handle_init hp HANDLE_FS_REQ;
  match h with
  | None => panic
  | Some h =>
      setf h_req h (Some req);;
      proc_setstate hp PS_RUNNING;;
      regs_savereturn hp hid;;
      setf b_impl b (be_user None)
  end.

Definition vfs_backend_tryaccept (b : ptr) : K () :=
  x ← rd (T := VfsBackend) b;
  match b_queue x with
  | None => mret ()
  | Some req =>
      match b_impl x with
      | be_user None => mret ()
      | impl =>
          next ← getf r_queue_next req;
          setf b_queue b next;;
          match impl with
          | be_user _ => vfs_backend_user_accept req
          | be_kern f _ _ => call_accept f req
          end
      end
  end.

(** The request a process makes reuses its slot. *)
Definition alloc_request (req_ : VfsReq) : K ptr :=
  match r_caller req_ with
  | Some c =>
      proc_setstate c PS_WAITS4FS;;
      slot ← getf p_reqslot c;
      req ← match slot with
            | Some r => wr (T := VfsReq) r (fun _ => req_);; mret r
            | None => r ← new req_; setf p_reqslot c (Some r);; mret r
            end;
      mret req
  | None => new req_
  end.

(** The last request of the queue of [b]. *)
Definition queue_last (b : ptr) : K (option ptr) :=
  n ← gets req_count;
  iter n (fun slot =>
    v ← match slot with None => getf b_queue b | Some r => getf r_queue_next r end;
    mret (match v with None => inr slot | Some _ => inl v end)) None.

Definition enqueue (b req : ptr) : K () :=
  last ← queue_last b;
  match last with
  | None => setf b_queue b (Some req)
  | Some r => setf r_queue_next r (Some req)
  end.

Definition vfsreq_create (req_ : VfsReq) : K () :=
  req ← alloc_request req_;
  match r_backend req_ with
  | None => mret ()
  | Some b =>
      n ← getf b_usehcnt b;
      assert (negb (n =? 0));;
      setf b_usehcnt b (n + 1)
  end;;
  if bool_decide (r_type req_ = VFSOP_OPEN) && negb (flag (r_flags req_) OPEN_WRITE)
     && flag (r_flags req_) OPEN_CREATE
  then vfsreq_finish_short req (- EINVAL)
  else
    match r_backend req_ with
    | None => vfsreq_finish_short req (-1)
    | Some b =>
        prov ← getf b_provhcnt b;
        if prov =? 0 then vfsreq_finish_short req (-1)
        else enqueue b req;; vfs_backend_tryaccept b
    end.

(** Failing every queued request: the queue is reset after the loop only. *)
Definition drain_queue (b : ptr) : K () :=
  q ← getf b_queue b;
  n ← gets req_count;
  iter n (fun q =>
    match q with
    | None => mret (inr ())
    | Some r =>
        q2 ← getf r_queue_next r;
        vfsreq_finish_short r (-1);;
        mret (inl q2)
    end) q;;
  setf b_queue b None.

(** No user of the backend is left: its handler is told. *)
Definition release_users (b : ptr) : K () :=
  impl ← getf b_impl b;
  match impl with
  | be_kern _ true data => procfs_cleanup data
  | be_kern _ false _ => mret ()
  | be_user None => mret ()
  | be_user (Some p) =>
      setf b_impl b (be_user None);;
      assert_state p PS_WAITS4REQUEST;;
      regs_savereturn p (- EPIPE);;
      proc_setstate p PS_RUNNING
  end.

Definition vfs_backend_refdown (b : ptr) (use : bool) : K () :=
  (if use then
     n ← getf b_usehcnt b; assert (0 <? n);; setf b_usehcnt b (n - 1)
   else
     n ← getf b_provhcnt b; assert (0 <? n);; setf b_provhcnt b (n - 1));;
  prov ← getf b_provhcnt b;
  (if (prov =? 0) && negb use then drain_queue b else mret ());;
  usehc ← getf b_usehcnt b;
  (if (usehc =? 0) && use then release_users b else mret ());;
  usehc ← getf b_usehcnt b;
  prov ← getf b_provhcnt b;
  if (usehc =? 0) && (prov =? 0) then
    queue ← getf b_queue b;
    assert (negb (is_some queue));;
    del VfsBackend b
  else mret ().
End request.
