(* ===== verification/Syscalls.v ===== *)
(** * Syscalls

    The system calls ([src/src/kernel/syscalls.c]) and the bytecode of batched
    system calls ([src/src/kernel/execbuf.c]).  A system call leaves its result
    in the registers of the current process, or puts the process to sleep. *)

From S2P Require Import Prelude Monad Mem Path Malloc Paging KState Pcpy Proc Pipe Timer.
From S2P Require Import Handle Mount ProcLife Drivers Request.

Definition current : K ptr := p ← getp proc_cur; deref p.

Definition SYSCALL_RETURN (val : Z) : K () :=
  cur ← current;
  assert_state cur PS_RUNNING;;
  regs_savereturn cur val.

Definition _SYS_EXIT := 0.
Definition _SYS_FORK := 2.
Definition _SYS_OPEN := 3.
Definition _SYS_MOUNT := 4.
Definition _SYS_DUP := 5.
Definition _SYS_READ := 6.
Definition _SYS_WRITE := 7.
Definition _SYS_GETSIZE := 8.
Definition _SYS_REMOVE := 9.
Definition _SYS_CLOSE := 10.
Definition _SYS_FS_WAIT := 11.
Definition _SYS_FS_RESPOND := 12.
Definition _SYS_MEMFLAG := 13.
Definition _SYS_PIPE := 14.
Definition _SYS_SLEEP := 15.
Definition _SYS_INTR := 17.
Definition _SYS_INTR_SET := 18.
Definition _SYS_GETPID := 19.
Definition _SYS_GETPPID := 20.
Definition _SYS_WAIT2 := 21.
Definition _SYS_GETPROCFS := 22.
Definition _SYS_TIME := 23.
Definition _SYS_EXECBUF := 100.
Definition _SYS_DEBUG_KLOG := 101.

Definition EXECBUF_SYSCALL : Z := 0xF0000001.
Definition EXECBUF_JMP : Z := 0xF0000002.

(** What [kmalloc(len)] really gives: the rest of its last page.  [len] plus the
    header wraps around for a small negative [len]; a size in the upper half of
    the address space makes the debug fill run over all of memory. *)
Definition kmalloc_usable (len : Z) : Z :=
  (u64 (len + HDR_SIZE) / PAGE_SIZE + 1) * PAGE_SIZE - HDR_SIZE.

(** [buf = kmalloc(len); n = pcpy_from(cur, buf, src, len)]: a copy that runs
    past the end of the allocation is undefined. *)
Definition kmalloc_from_user (cur : ptr) (src len : Z) : K (ptr * Z) :=
  (if 2 ^ 63 <=? u64 (len + HDR_SIZE) then fail Undefined else mret ());;
  '(n, data) ← pcpy_from cur src (u64 len);
  (if kmalloc_usable len <? n then fail Undefined else mret ());;
  buf ← new (T := list Z) data;
  mret (buf, n).

(** [len = path_simplify(buf, buf, len)], in place. *)
Definition simplify_in_place (buf : ptr) (len : Z) : K Z :=
  l ← rd (T := list Z) buf;
  '(m, r) ← lift (path_simplify (write_bytes ∅ 0 l) 0 0 len);
  wr (T := list Z) buf (fun l => bytes_at m 0 (length l));;
  mret r.

Section syscalls.
Context `{KFwd}.

Definition _sys_exit (ret : Z) : K () :=
  cur ← current;
  proc_kill cur ret;;
  proc_switch_any.

Definition _sys_fork (flags fs_front : Z) : K () :=
  cur ← current;
  child ← proc_fork cur flags;
  regs_savereturn child 0;;
  let return_id :=
    pns ← getf p_pns cur;
    ns ← deref pns;
    id ← proc_ns_id ns child;
    SYSCALL_RETURN id in
  if flag flags FORK_NEWFS then
    '(hid, h) ← proc_handle_init cur HANDLE_FS_FRONT;
    match h with
    | None =>
        setf p_noreap child true;;
        proc_kill child (- EMFILE);;
        SYSCALL_RETURN (- EMFILE)
    | Some h =>
        b ← new (mkBackend 1 1 None (be_user None));
        setf h_backend h (Some b);;
        setf p_controlled child (Some b);;
        (if negb (fs_front =? 0)
         then _ ← pcpy_to cur fs_front (le_bytes 4 hid) 4; mret () else mret ());;
        return_id
    end
  else return_id.

(** [len -= prefix_len; memcpy(path_buf, path_buf + prefix_len, len)] *)
Definition strip_prefix (buf : ptr) (prefix_len len : Z) : K Z :=
  if 0 <? prefix_len then
    let len := len - prefix_len in
    wr (T := list Z) buf (fun l => bytes_at
      (memcpy (write_bytes ∅ 0 l) 0 prefix_len (Z.to_nat len)) 0 (length l));;
    mret len
  else mret len.

Definition _sys_open (path len flags : Z) : K () :=
  cur ← current;
  if negb (Z.land flags (Z.lnot (Z.lor OPEN_RW OPEN_CREATE)) =? 0)
  then SYSCALL_RETURN (- ENOSYS)
  else if PATH_MAX <? len then SYSCALL_RETURN (-1)
  else
    '(path_buf, n) ← kmalloc_from_user cur path len;
    let fail_ := kfree_buf (Some path_buf);; SYSCALL_RETURN (-1) in
    if n <? u64 len then fail_
    else
      len ← simplify_in_place path_buf len;
      if len =? 0 then fail_
      else
        top ← getf p_mount cur;
        l ← rd (T := list Z) path_buf;
        mount ← vfs_mount_resolve top (take (Z.to_nat len) l);
        match mount with
        | None => fail_
        | Some mount =>
            m ← rd (T := VfsMount) mount;
            len ← strip_prefix path_buf (m_prefix_len m) len;
            fwd_vfsreq_create
              (req0 VFSOP_OPEN <| r_input := in_kern path_buf |> <| r_input_len := len |>
                 <| r_caller := Some cur |> <| r_backend := m_backend m |>
                 <| r_flags := flags |>)
        end.

Definition _sys_mount (hid path len : Z) : K () :=
  cur ← current;
  if PATH_MAX <? len then SYSCALL_RETURN (-1)
  else
    '(path_buf, n) ← kmalloc_from_user cur path len;
    let fail_ := kfree_buf (Some path_buf);; SYSCALL_RETURN (-1) in
    if n <? u64 len then fail_
    else
      len ← simplify_in_place path_buf len;
      if len =? 0 then fail_
      else
        l ← rd (T := list Z) path_buf;
        last ← deref (l !! Z.to_nat (len - 1));
        let len := if last =? slash then len - 1 else len in
        handle ← proc_handle_get cur hid;
        match handle with
        | None => fail_
        | Some h =>
            x ← rd (T := Handle) h;
            if negb (bool_decide (h_type x = HANDLE_FS_FRONT)) then fail_
            else
              match h_backend x with
              | None => mret ()
              | Some b =>
                  n ← getf b_usehcnt b;
                  assert (negb (n =? 0));;
                  setf b_usehcnt b (n + 1)
              end;;
              prev ← getf p_mount cur;
              mount ← new (mkMount prev path_buf len true (h_backend x) 1);
              setf p_mount cur (Some mount);;
              SYSCALL_RETURN 0
        end.

Definition _sys_dup (from to flags : Z) : K () :=
  cur ← current;
  r ← proc_handle_dup cur from to flags;
  SYSCALL_RETURN r.

Definition simple_vfsop (op : vfs_op) (hid buf len offset flags : Z) : K () :=
  cur ← current;
  h ← proc_handle_get cur hid;
  match h with
  | None => SYSCALL_RETURN (- EBADF)
  | Some h =>
      x ← rd (T := Handle) h;
      if bool_decide (op = VFSOP_READ) && negb (h_readable x) then SYSCALL_RETURN (- EACCES)
      else if bool_decide (op = VFSOP_WRITE) && negb (h_writeable x)
      then SYSCALL_RETURN (- EACCES)
      else
        match h_type x with
        | HANDLE_FILE =>
            let req := req0 op <| r_backend := h_backend x |> <| r_id := h_file_id x |>
              <| r_caller := Some cur |> <| r_offset := offset |> <| r_flags := flags |> in
            let req := if bool_decide (op = VFSOP_READ)
              then req <| r_output := buf |> <| r_output_len := len |> else req in
            let req := if bool_decide (op = VFSOP_WRITE)
              then req <| r_input := in_user buf |> <| r_input_len := len |> else req in
            fwd_vfsreq_create req
        | HANDLE_PIPE =>
            if bool_decide (op = VFSOP_READ) || bool_decide (op = VFSOP_WRITE)
            then pipe_joinqueue h cur buf len
            else SYSCALL_RETURN (- ENOSYS)
        | _ => SYSCALL_RETURN (- ENOSYS)
        end
  end.

Definition _sys_read (hid buf len offset : Z) : K () :=
  simple_vfsop VFSOP_READ hid buf len offset 0.

Definition _sys_write (hid buf len offset flags : Z) : K () :=
  if negb (Z.land flags (Z.lnot WRITE_TRUNCATE) =? 0) then SYSCALL_RETURN (- ENOSYS)
  else simple_vfsop VFSOP_WRITE hid buf len offset flags.

Definition _sys_getsize (hid : Z) : K () := simple_vfsop VFSOP_GETSIZE hid 0 0 0 0.

Definition _sys_remove (hid : Z) : K () :=
  cur ← current;
  h ← proc_handle_get cur hid;
  match h with
  | None => SYSCALL_RETURN (- EBADF)
  | Some h =>
      x ← rd (T := Handle) h;
      if negb (bool_decide (h_type x = HANDLE_FILE)) then
        proc_handle_close cur hid;; SYSCALL_RETURN (- ENOSYS)
      else if negb (h_writeable x) then
        proc_handle_close cur hid;; SYSCALL_RETURN (- EACCES)
      else
        fwd_vfsreq_create (req0 VFSOP_REMOVE <| r_id := h_file_id x |>
          <| r_caller := Some cur |> <| r_backend := h_backend x |>);;
        proc_handle_close cur hid
  end.

Definition _sys_close (hid : Z) : K () :=
  cur ← current;
  h ← proc_handle_get cur hid;
  if negb (is_some h) then SYSCALL_RETURN (- EBADF)
  else proc_handle_close cur hid;; SYSCALL_RETURN 0.

Definition _sys_fs_wait (buf max_len res : Z) : K () :=
  cur ← current;
  backend ← getf p_controlled cur;
  match backend with
  | None => SYSCALL_RETURN (-1)
  | Some b =>
      x ← rd (T := VfsBackend) b;
      if b_usehcnt x =? 0 then SYSCALL_RETURN (- EPIPE)
      else
        proc_setstate cur PS_WAITS4REQUEST;;
        match b_impl x with
        | be_user (Some _) => panic
        | be_kern _ _ _ => fail Undefined
        | be_user None => setf b_impl b (be_user (Some cur))
        end;;
        setf p_saved cur (awaited_req buf (u64 max_len) res);;
        vfs_backend_tryaccept b
  end.

(** A positive answer to a read is copied out of the handler's buffer. *)
Definition respond_read (req cur : ptr) (r : VfsReq) (buf ret : Z) : K Z :=
  let ret := Z.min ret (Z.min (u32 (r_output_len r)) (2 ^ 31 - 1)) in
  c ← match r_caller r with Some c => mret c | None => panic end;
  pcpy_bi c (r_output r) cur buf ret.

Definition _sys_fs_respond (hid buf ret flags : Z) : K () :=
  cur ← current;
  h ← proc_handle_get cur hid;
  match h with
  | None => SYSCALL_RETURN (- EBADF)
  | Some h =>
      x ← rd (T := Handle) h;
      if negb (bool_decide (h_type x = HANDLE_FS_REQ)) then SYSCALL_RETURN (- EBADF)
      else
        match h_req x with
        | None => mret ()
        | Some req =>
            r ← rd (T := VfsReq) req;
            ret ← (if (0 <? ret) && bool_decide (r_type r = VFSOP_READ)
                   then respond_read req cur r buf ret else mret ret);
            fwd_vfsreq_finish req buf ret flags (Some cur)
        end;;
        setf h_req h None;;
        proc_handle_close cur hid;;
        SYSCALL_RETURN 0
  end.

(** The mapping loop of [_sys_memflag]. *)
Definition memflag_turn (pages addr len off : Z) : M (Z + ()) :=
  if off <? len then
    let page := u64 (addr + off) in
    kern ← pagedir_iskern pages page;
    (if (kern : bool) then mret ()
     else
       phys ← pagedir_virt2phys pages page false false;
       if phys =? 0 then
         phys ← page_zalloc 1;
         pagedir_map pages page phys true true
       else mret ());;
    mret (inl (u64 (off + PAGE_SIZE)))
  else mret (inr ()).

Definition _sys_memflag (addr len flags : Z) : K () :=
  cur ← current;
  pages ← getf p_pages cur;
  let addr := Z.land addr (Z.lnot PAGE_MASK) in
  addr ← (if flag flags MEMFLAG_FINDFREE then on_alloc (pagedir_findfree pages addr len)
          else mret addr);
  if flag flags MEMFLAG_FINDFREE && negb (flag flags MEMFLAG_PRESENT) then
    SYSCALL_RETURN addr
  else if negb (flag flags MEMFLAG_PRESENT) then
    on_alloc (pagedir_unmap_user pages addr len);; SYSCALL_RETURN addr
  else
    on_alloc (while_ (Z.to_pos (len / PAGE_SIZE + 2)) (memflag_turn pages addr len) 0);;
    SYSCALL_RETURN addr.

Definition _sys_pipe (user_ends flags : Z) : K () :=
  if negb (flags =? 0) then SYSCALL_RETURN (- ENOSYS)
  else
    cur ← current;
    '(e0, rend) ← proc_handle_init cur HANDLE_PIPE;
    '(e1, wend) ← proc_handle_init cur HANDLE_PIPE;
    match rend, wend with
    | Some rend, Some wend =>
        setf h_sister wend (Some rend);;
        setf h_sister rend (Some wend);;
        setf h_writeable wend true;;
        setf h_readable rend true;;
        _ ← pcpy_to cur user_ends (le_bytes 4 e0 ++ le_bytes 4 e1) 8;
        SYSCALL_RETURN 0
    | _, _ =>
        proc_handle_close cur e0;;
        proc_handle_close cur e1;;
        SYSCALL_RETURN (- EMFILE)
    end.

Definition _sys_sleep (ms : Z) : K () :=
  cur ← current; timer_schedule cur (u64 (ms * 1000000)).

(** Not in the dispatch table. *)
Definition _sys_filicide : K () :=
  cur ← current;
  child ← getf p_child cur;
  each_next child (Some cur) (fun p => proc_kill p (-1)).

(** The loop over the descendants, with its counter. *)
Definition intr_all (cur : ptr) (buf : list Z) : K Z :=
  child ← getf p_child cur;
  n ← gets proc_count;
  iter n (fun '(p, count) =>
    match p with
    | None => mret (inr count)
    | Some q =>
        proc_intr q buf;;
        next ← proc_next p (Some cur);
        mret (inl (next, count + 1))
    end) (child, 0).

Definition _sys_intr (msg len : Z) : K () :=
  if INTR_MAX <? len then SYSCALL_RETURN (- EINVAL)
  else
    cur ← current;
    '(n, buf) ← pcpy_from cur msg len;
    if n <? len then SYSCALL_RETURN (- EFAULT)
    else
      count ← intr_all cur buf;
      SYSCALL_RETURN count.

Definition _sys_intr_set (ip : Z) : K () :=
  cur ← current; setf p_intr_fn cur ip.

Definition _sys_getpid : K () :=
  cur ← current;
  pns ← getf p_pns cur;
  ns ← deref pns;
  id ← proc_ns_id ns cur;
  SYSCALL_RETURN id.

Definition _sys_getppid : K () :=
  cur ← current;
  pns ← getf p_pns cur;
  if op_eqb pns (Some cur) then SYSCALL_RETURN 0
  else
    parent ← getf p_parent cur;
    q ← match parent with Some q => mret q | None => panic end;
    ppns ← getf p_pns q;
    assert (op_eqb ppns pns);;
    ns ← deref pns;
    id ← proc_ns_id ns q;
    SYSCALL_RETURN id.

(** The loop over the children: is there one that can be waited for? *)
Definition reap_children (cur : ptr) : K bool :=
  child ← getf p_child cur;
  n ← gets proc_count;
  iter n (fun '(it, has_children) =>
    match it with
    | None => mret (inr has_children)
    | Some c =>
        noreap ← getf p_noreap c;
        has ← (if (noreap : bool) then mret has_children
               else
                 toreap ← state_is c PS_TOREAP;
                 (if (toreap : bool) then proc_tryreap c else mret ());;
                 mret true);
        next ← getf p_sibling c;
        mret (inl (next, has))
    end) (child, false).

Definition _sys_wait2 (pid flags out : Z) : K () :=
  if negb (flags =? 0) then SYSCALL_RETURN (- ENOSYS)
  else
    cur ← current;
    proc_setstate cur PS_WAITS4CHILDDEATH;;
    setf p_saved cur (awaited_death (if 0 <? pid then pid else 0) out);;
    has_children ← reap_children cur;
    if negb has_children then
      proc_setstate cur PS_RUNNING;; SYSCALL_RETURN (- ECHILD)
    else mret ().

Definition _sys_getprocfs (flags : Z) : K () :=
  if negb (flags =? 0) then SYSCALL_RETURN (- ENOSYS)
  else
    cur ← current;
    proc_ns_create cur;;
    '(hid, h) ← proc_handle_init cur HANDLE_FS_FRONT;
    match h with
    | None => SYSCALL_RETURN (- EMFILE)
    | Some h =>
        b ← procfs_backend cur;
        setf h_backend h (Some b);;
        SYSCALL_RETURN hid
    end.

Definition _sys_time (flags : Z) : K () :=
  if negb (flags =? 0) then SYSCALL_RETURN (- ENOSYS)
  else
    cur ← current;
    now ← uptime_ns;
    base ← getf p_basetime cur;
    when (base =? 0) (setf p_basetime cur now);;
    base ← getf p_basetime cur;
    SYSCALL_RETURN (u64 (now - base)).

Definition _sys_execbuf (ubuf len : Z) : K () :=
  if len =? 0 then SYSCALL_RETURN 0
  else if EXECBUF_MAX_LEN <? len then SYSCALL_RETURN (-1)
  else
    cur ← current;
    running ← getf p_execbuf cur;
    if is_some running then SYSCALL_RETURN (-1)
    else
      '(kbuf, n) ← kmalloc_from_user cur ubuf len;
      if n <? len then kfree_buf (Some kbuf);; SYSCALL_RETURN (-1)
      else
        setf p_execbuf cur (Some kbuf);;
        setf p_execbuf_len cur len;;
        setf p_execbuf_pos cur 0;;
        SYSCALL_RETURN 0.

(** The body is dead code ([if (false)]). *)
Definition _sys_debug_klog (buf len : Z) : K () := mret ().

(** The arguments are [long]s, converted at each call. *)
Definition _syscall (num a b c d e : Z) : K () :=
  let num := s64 num in
  if num =? _SYS_EXIT then _sys_exit (s64 a)
  else if num =? _SYS_FORK then _sys_fork (s32 a) (u64 b)
  else if num =? _SYS_OPEN then _sys_open (u64 a) (s64 b) (s32 c)
  else if num =? _SYS_MOUNT then _sys_mount (s32 a) (u64 b) (s64 c)
  else if num =? _SYS_DUP then _sys_dup (s32 a) (s32 b) (s32 c)
  else if num =? _SYS_READ then _sys_read (s32 a) (u64 b) (u64 c) (s64 d)
  else if num =? _SYS_WRITE then _sys_write (s32 a) (u64 b) (u64 c) (s64 d) (s32 e)
  else if num =? _SYS_GETSIZE then _sys_getsize (s32 a)
  else if num =? _SYS_REMOVE then _sys_remove (s32 a)
  else if num =? _SYS_CLOSE then _sys_close (s32 a)
  else if num =? _SYS_FS_WAIT then _sys_fs_wait (u64 a) (s64 b) (u64 c)
  else if num =? _SYS_FS_RESPOND then _sys_fs_respond (s32 a) (u64 b) (s64 c) (s32 d)
  else if num =? _SYS_MEMFLAG then _sys_memflag (u64 a) (u64 b) (s32 c)
  else if num =? _SYS_PIPE then _sys_pipe (u64 a) (s32 b)
  else if num =? _SYS_SLEEP then _sys_sleep (s64 a)
  else if num =? _SYS_INTR then _sys_intr (u64 a) (u64 b)
  else if num =? _SYS_INTR_SET then _sys_intr_set (u64 a)
  else if num =? _SYS_GETPID then _sys_getpid
  else if num =? _SYS_GETPPID then _sys_getppid
  else if num =? _SYS_WAIT2 then _sys_wait2 (s32 a) (s32 b) (u64 c)
  else if num =? _SYS_GETPROCFS then _sys_getprocfs (s32 a)
  else if num =? _SYS_TIME then _sys_time (s32 a)
  else if num =? _SYS_EXECBUF then _sys_execbuf (u64 a) (u64 b)
  else if num =? _SYS_DEBUG_KLOG then _sys_debug_klog (u64 a) (u64 b)
  else cur ← current; regs_savereturn cur (-1).

(** ** execbuf *)

Definition halt (proc : ptr) : K () :=
  buf ← getf p_execbuf proc;
  kfree_buf buf;;
  setf p_execbuf proc None;;
  proc_switch_any.

(** [None]: there are not [amt] words left, [halt] does not return. *)
Definition try_fetch (proc : ptr) (amt : nat) : K (option (list Z)) :=
  let bytes := 8 * Z.of_nat amt in
  pos ← getf p_execbuf_pos proc;
  len ← getf p_execbuf_len proc;
  if len <? pos + bytes then mret None
  else
    buf ← getf p_execbuf proc;
    buf ← deref buf;
    l ← rd (T := list Z) buf;
    let words := (fun i => le_value (take 8 (drop (Z.to_nat pos + 8 * i) l))) <$> seq 0 amt in
    setf p_execbuf_pos proc (pos + bytes);;
    mret (Some words).

(** One instruction.  [inl]: the loop goes on; [inr]: the process is left. *)
Definition execbuf_turn (proc : ptr) (_ : ()) : K (() + ()) :=
  cur ← getp proc_cur;
  assert (op_eqb cur (Some proc));;
  assert_state proc PS_RUNNING;;
  buf ← getf p_execbuf proc;
  assert (is_some buf);;
  let stop := halt proc;; mret (inr ()) in
  op ← try_fetch proc 1;
  match op with
  | Some [op] =>
      if op =? EXECBUF_SYSCALL then
        args ← try_fetch proc 6;
        match args with
        | Some [num; a; b; c; d; e] =>
            _syscall num a b c d e;;
            proc_switch_any;;
            mret (inr ())
        | _ => stop
        end
      else if op =? EXECBUF_JMP then
        arg ← try_fetch proc 1;
        match arg with
        | Some [target] =>
            modf p_regs proc (fun r => r <| rcx := target |>);; mret (inl ())
        | _ => stop
        end
      else stop
  | _ => stop
  end.

(** Every turn that goes on consumes 16 bytes. *)
Definition execbuf_run (proc : ptr) : K () :=
  len ← getf p_execbuf_len proc;
  while_ (Z.to_pos (len / 16 + 2)) (execbuf_turn proc) ().
End syscalls.

(** ** What user code can do to the kernel *)

Section hazards.
Context `{KFwd}.

Lemma current_val s cur : proc_cur s = Some cur -> current s = Val cur s.
Proof. intros E. unfold current, getp, gets, mbind, st_bind. by rewrite E. Qed.

(** Answering a dead reader panics the kernel.  When a process is killed
    while it waits for a read, its request stays with the file system and
    loses its caller; a file system that then answers the read with data
    passes the null caller to [pcpy_bi], whose assertion fails. *)
Theorem respond_to_killed_reader_panics s cur hid h x req r buf ret flags :
  proc_cur s = Some cur -> 0 <= hid < HANDLE_MAX -> slot_of s cur hid = Some (Some h) ->
  handles s !! h = Some x -> h_type x = HANDLE_FS_REQ -> h_req x = Some req ->
  reqs s !! req = Some r -> r_type r = VFSOP_READ -> r_caller r = None -> 0 < ret ->
  _sys_fs_respond hid buf ret flags s = Fault Panic.
Proof.
  intros Hc Hhid Hs Hx Ht Hq Hr Hrt Hrc Hret. unfold _sys_fs_respond.
  apply bind_runs. unfold runs. rewrite (current_val _ _ Hc).
  apply bind_runs. unfold runs. rewrite (proc_handle_get_val _ _ _ _ Hhid Hs).
  do 2 kaccess. rewrite Ht, Hq; cbn [negb bool_decide]. rewrite bool_decide_true by done.
  cbn [negb]. unfold mbind at 1, st_bind at 1.
  assert (E : (r ← rd req;
     ret ← (if (0 <? ret) && bool_decide (r_type r = VFSOP_READ)
            then respond_read req cur r buf ret else mret ret);
     fwd_vfsreq_finish req buf ret flags (Some cur)) s = Fault Panic).
  { do 2 kaccess. rewrite Hrt, bool_decide_true, (proj2 (Z.ltb_lt 0 ret)) by done.
    cbn [andb]. unfold respond_read. by rewrite Hrc. }
  by rewrite E.
Qed.

(** A negative path length reaches past the kernel's path buffer.  The
    check [PATH_MAX < len] of [_sys_open] is signed, and [len] then sizes an
    allocation that wraps around to one page while the copy from user memory
    is unbounded: with more than 4040 readable bytes at [path] the kernel
    writes past the end of the allocation. *)
Theorem open_negative_length_overflows s cur path len flags n data s' :
  proc_cur s = Some cur -> Z.land flags (Z.lnot (Z.lor OPEN_RW OPEN_CREATE)) = 0 ->
  - HDR_SIZE <= len < 0 ->
  pcpy_from cur path (u64 len) s = Val (n, data) s' -> 4040 < n ->
  _sys_open path len flags s = Fault Undefined.
Proof.
  intros Hc Hf Hlen Hcp Hn. unfold HDR_SIZE in Hlen. unfold _sys_open.
  apply bind_runs. unfold runs. rewrite (current_val _ _ Hc), Hf, Z.eqb_refl. cbn [negb].
  rewrite (proj2 (Z.ltb_ge PATH_MAX len)) by (unfold PATH_MAX; lia).
  assert (E : kmalloc_from_user cur path len s = Fault Undefined).
  { unfold kmalloc_from_user, kmalloc_usable.
    assert (Hu : u64 (len + HDR_SIZE) = len + 56) by (unfold HDR_SIZE; word_lia).
    rewrite Hu, (proj2 (Z.leb_gt (2 ^ 63) (len + 56))) by lia.
    do 2 (apply bind_runs; unfold runs; rewrite ?Hcp; cbn [mret st_ret]).
    rewrite (proj2 (Z.ltb_lt _ n)); [done|].
    unfold PAGE_SIZE, HDR_SIZE. Z.div_mod_to_equations; lia. }
  unfold mbind at 1, st_bind at 1. by rewrite E.
Qed.
End hazards.
