(* ===== verification/Fate.v ===== *)
(** * Fate

    No return from the dead.  Once a process is being killed
    ([PS_DYING]) or has died ([PS_TOREAP], [PS_TOMBSTONE], [PS_DEADLEAF]), no
    operation of the kernel makes it runnable or puts it to sleep again.
    [aging] says so of two states of the kernel.  The timer's interrupt wakes
    whoever is in its list, so the list must be in order ([timer_ok]); [aging]
    keeps that too.  Killing wants more: nobody falls asleep meanwhile ([fate]).
    Every operation is shown to keep one of them, the ones that call back into
    the kernel under the hypothesis that what they call does ([FwdKeeps]). *)

From S2P Require Import Prelude Monad Mem Malloc Paging KState Pcpy Proc Pipe Timer TimerLive.
From S2P Require Import Handle Mount ProcLife Drivers Request Syscalls.

Definition dead_state (st : proc_state) : bool :=
  match st with
  | PS_DYING | PS_TOREAP | PS_TOMBSTONE | PS_DEADLEAF | PS_FREED => true
  | _ => false
  end.

Definition dead (x : Proc) : bool := dead_state (p_state x).

(** Whether the process at [p] is dead; [None] if there is none. *)
Definition dead_at (s : kstate) (p : ptr) : option bool := dead <$> procs s !! p.

Definition asleep (s : kstate) (p : ptr) : Prop := state_at s p = Some PS_WAITS4TIMER.

(** A process as it is in the timer's list. *)
Definition linked (s : kstate) (p : ptr) (g : Z) (next : option ptr) : Prop :=
  asleep s p /\ saved_at s p = Some (waits4timer g next).

(** The timer's list is in order, and no process is where [kmalloc] will put the
    next one. *)
Definition timer_ok (s : kstate) : Prop :=
  (exists l, timers s l) /\ forall p, is_Some (procs s !! p) -> (p < next_ptr s)%positive.

(** Every process of [s'] is new or was already there, and dead if it was. *)
Definition aging (s s' : kstate) : Prop :=
  timer_ok s ->
  (next_ptr s <= next_ptr s')%positive /\ timer_ok s' /\
  forall p x', procs s' !! p = Some x' ->
    (next_ptr s <= p)%positive \/
    exists x, procs s !! p = Some x /\ (dead x = true -> dead x' = true).

(** And nobody has gone to sleep. *)
Definition fate (s s' : kstate) : Prop :=
  aging s s' /\ (timer_ok s -> forall p, asleep s' p -> asleep s p).

(** No process appears, disappears, dies or comes back, and those that sleep,
    and only those, sleep on. *)
Record same_dead (s s' : kstate) : Prop := {
  sd_ptr : (next_ptr s <= next_ptr s')%positive;
  sd_dead : forall p, dead_at s' p = dead_at s p;
  sd_scheduled : scheduled s' = scheduled s;
  sd_asleep : forall p, asleep s' p -> asleep s p;
  sd_linked : forall p g next, linked s p g next -> linked s' p g next;
}.

#[export] Instance aging_preorder : PreOrder aging.
Proof.
  split.
  - intros s Hs. split; [lia|]. eauto.
  - intros s1 s2 s3 H12 H23 Hs. destruct (H12 Hs) as (H1&Hs2&H2).
    destruct (H23 Hs2) as (H3&Hs3&H4). split; [lia|]. split; [done|]. intros p x3 Hp.
    destruct (H4 p x3 Hp) as [?|(x2&E2&D2)]; [left; lia|].
    destruct (H2 p x2 E2) as [?|(x1&E1&D1)]; [by left|]. right; eauto.
Qed.

#[export] Instance fate_preorder : PreOrder fate.
Proof.
  split.
  - intros s. by split.
  - intros s1 s2 s3 [A1 S1] [A2 S2]. split; [by etrans|]. intros Hs p Hp.
    destruct (A1 Hs) as (_&Hs2&_). auto.
Qed.

#[export] Instance same_dead_preorder : PreOrder same_dead.
Proof.
  split.
  - intros s. by split.
  - intros s1 s2 s3 [H1 H2 H3 H4 H5] [J1 J2 J3 J4 J5]. split; eauto.
    + lia.
    + intros p. by rewrite J2.
    + congruence.
Qed.

Lemma dead_at_some s p : is_Some (dead_at s p) <-> is_Some (procs s !! p).
Proof. unfold dead_at. destruct (procs s !! p); cbn; split; intros []; eauto; done. Qed.

(** The list of sleepers is a matter of the processes in it. *)
Lemma timers_linked s s' l :
  scheduled s' = scheduled s -> (forall p g next, linked s p g next -> linked s' p g next) ->
  timers s l -> timers s' l.
Proof.
  intros Hsch Hl [Ht Hn Hw Hs]. split; try done.
  - rewrite Hsch. clear Hn Hs Hsch. revert Ht Hw. generalize (scheduled s).
    induction l as [|[p g] l IH]; intros o Ht Hw; [done|]. cbn in *.
    apply Forall_cons in Hw as [Hp Hw]. destruct Ht as (->&next&Hsv&Ht). split; [done|].
    exists next. split; [by apply Hl|by apply IH].
  - clear Hn Hs Hsch. revert Ht Hw. generalize (scheduled s).
    induction l as [|[p g] l IH]; intros o Ht Hw; [by apply Forall_nil|]. cbn in *.
    apply Forall_cons in Hw as [Hp Hw]. destruct Ht as (->&next&Hsv&Ht).
    apply Forall_cons. split; [|by eapply IH]. by apply (Hl p g next).
Qed.

Lemma same_dead_ok s s' : same_dead s s' -> timer_ok s -> timer_ok s'.
Proof.
  intros [H1 H2 H3 H4 H5] [[l Hl] Hp]. split.
  - exists l. by eapply timers_linked.
  - intros p Hx. apply dead_at_some in Hx. rewrite H2 in Hx. apply dead_at_some, Hp in Hx. lia.
Qed.

Lemma same_dead_fate s s' : same_dead s s' -> fate s s'.
Proof.
  intros H. split; [|intros _; apply H]. intros Hs. split; [apply H|].
  split; [by eapply same_dead_ok|]. intros p x' Hp. right.
  pose proof (sd_dead _ _ H p) as H2. unfold dead_at in H2. rewrite Hp in H2; cbn in H2.
  destruct (procs s !! p) as [x|] eqn:E; [|done]. exists x. split; [done|].
  cbn in H2. congruence.
Qed.

Lemma fate_aging s s' : fate s s' -> aging s s'.
Proof. by intros []. Qed.

(** ** Primitive accesses *)

Section primitives.
Context {T : Type} `{KObj T}.

Lemma steps_rd R `{!PreOrder R} p : steps R (rd (T := T) p).
Proof. apply steps_bind; [done|apply steps_get; done|intros s; apply steps_deref; done]. Qed.

Lemma steps_getf R `{!PreOrder R} {A} (f : T -> A) p : steps R (getf f p).
Proof. apply steps_bind; [done|by apply steps_rd|intros x; by apply steps_ret]. Qed.

Lemma steps_wr R `{!PreOrder R} p (f : T -> T) :
  (forall s x, store_of s !! p = Some x -> R s (set_store (<[p := f x]>) s)) ->
  steps R (wr p f).
Proof.
  intros HR s. unfold wr, mbind, st_bind, get_. cbn.
  destruct (store_of s !! p) as [x|] eqn:E; cbn; [by apply HR|done].
Qed.

Lemma steps_new R `{!PreOrder R} (x : T) :
  (forall s, R s (set_store (<[next_ptr s := x]>) s <| next_ptr ::= Pos.succ |>)) ->
  steps R (new x).
Proof. intros HR s. apply HR. Qed.

Lemma steps_del R `{!PreOrder R} p :
  (forall s, R s (set_store (delete p) s)) -> steps R (del T p).
Proof.
  intros HR. apply steps_bind; [done|by apply steps_rd|intros _]. by apply steps_modify.
Qed.
End primitives.

Lemma steps_on_alloc R {A} (m : ST alloc Empty_set A) :
  (forall s a, R s (s <| k_alloc := a |>)) -> steps R (on_alloc m).
Proof. intros HR s. unfold on_alloc. destruct (m (k_alloc s)) as [| []|]; [apply HR|done]. Qed.

Lemma steps_setp R {A} (f : kstate -> A) `{!Setter f} v :
  (forall s, R s (s <| f := v |>)) -> steps R (setp f v).
Proof. intros HR. by apply steps_modify. Qed.

Lemma steps_getp R `{!PreOrder R} {A} (f : kstate -> A) : steps R (getp f).
Proof. by apply steps_gets. Qed.

Create HintDb kernel.
#[export] Hint Resolve steps_rd steps_getf steps_getp : kernel.
#[export] Hint Resolve steps_ret steps_fail steps_exit steps_gets steps_get
  steps_assert steps_deref steps_lift : kernel.
#[export] Hint Extern 0 (PreOrder _) => exact _ : kernel.

(** A state that has the same processes and no fewer pointers. *)
Lemma same_dead_procs s s' :
  procs s' = procs s -> scheduled s' = scheduled s -> (next_ptr s <= next_ptr s')%positive ->
  same_dead s s'.
Proof.
  intros E1 E2 E3. unfold dead_at, linked, asleep, state_at, saved_at.
  split; unfold dead_at, linked, asleep, state_at, saved_at; by rewrite ?E1.
Qed.

(** [keeps_procs]: the updates of the other stores and of the globals. *)
Ltac keeps_procs :=
  intros; apply same_dead_procs;
  [reflexivity|reflexivity
  |cbn; first [reflexivity|apply Pos.lt_le_incl, Pos.lt_succ_diag_r]].

(** The effect of an update of a process on what is known of the processes. *)
Lemma wr_procs p f s x q :
  procs s !! p = Some x ->
  let s' := set_store (T := Proc) (<[p := f x]>) s in
  dead_at s' q = (if decide (p = q) then Some (dead (f x)) else dead_at s q) /\
  state_at s' q = (if decide (p = q) then Some (p_state (f x)) else state_at s q) /\
  saved_at s' q = (if decide (p = q) then Some (p_saved (f x)) else saved_at s q).
Proof.
  intros Hx. cbn. unfold dead_at, state_at, saved_at. cbn.
  case_decide as E; [subst; by rewrite lookup_insert_eq|by rewrite lookup_insert_ne].
Qed.

(** An update that keeps whether [p] is dead, does not put it to sleep and
    leaves it in the timer's list. *)
Lemma same_dead_wr p f s x :
  procs s !! p = Some x -> dead (f x) = dead x ->
  (p_state (f x) = PS_WAITS4TIMER -> p_state x = PS_WAITS4TIMER) ->
  (forall g next, p_state x = PS_WAITS4TIMER -> p_saved x = waits4timer g next ->
     p_state (f x) = PS_WAITS4TIMER /\ p_saved (f x) = waits4timer g next) ->
  same_dead s (set_store (T := Proc) (<[p := f x]>) s).
Proof.
  intros Hx Hd Ha Hl. split; [reflexivity| |reflexivity| |].
  - intros q. destruct (wr_procs p f s x q Hx) as (->&_). case_decide; [|done]. subst.
    unfold dead_at. by rewrite Hx, Hd.
  - intros q. unfold asleep. destruct (wr_procs p f s x q Hx) as (_&->&_).
    case_decide; [|done]. subst. intros [= E]. unfold state_at. rewrite Hx. cbn. by rewrite Ha.
  - intros q g next. unfold linked, asleep. destruct (wr_procs p f s x q Hx) as (_&->&->).
    case_decide; [|done]. subst. unfold state_at, saved_at. rewrite Hx. cbn. intros [[= E1] [= E2]].
    destruct (Hl g next E1 E2) as [-> ->]. done.
Qed.

Lemma sd_wr_proc p f :
  (forall x, p_state (f x) = p_state x) -> (forall x, p_saved (f x) = p_saved x) ->
  steps same_dead (wr (T := Proc) p f).
Proof.
  intros H1 H2. apply steps_wr; [exact _|]. intros s x Hx. apply same_dead_wr; [done| |..].
  - unfold dead. by rewrite H1.
  - by rewrite H1.
  - intros. by rewrite H1, H2.
Qed.

#[export] Hint Extern 1 (steps same_dead (setf _ _ _)) =>
  first [ apply sd_wr_proc; reflexivity | apply steps_wr; [exact _|keeps_procs] ] : kernel.
#[export] Hint Extern 1 (steps same_dead (modf _ _ _)) =>
  first [ apply sd_wr_proc; reflexivity | apply steps_wr; [exact _|keeps_procs] ] : kernel.
#[export] Hint Extern 1 (steps same_dead (wr _ _)) =>
  first [ apply sd_wr_proc; reflexivity | apply steps_wr; [exact _|keeps_procs] ] : kernel.
#[export] Hint Extern 1 (steps same_dead (new _)) => apply steps_new; [exact _|keeps_procs] : kernel.
#[export] Hint Extern 1 (steps same_dead (del _ _)) => apply steps_del; [exact _|keeps_procs] : kernel.
#[export] Hint Extern 1 (steps same_dead (setp _ _)) => apply steps_setp; keeps_procs : kernel.
#[export] Hint Extern 1 (steps same_dead (modify _)) => apply steps_modify; keeps_procs : kernel.
#[export] Hint Extern 1 (steps same_dead (on_alloc _)) => apply steps_on_alloc; keeps_procs : kernel.
#[export] Hint Extern 5 (steps fate _) =>
  apply (steps_mono same_dead); [exact same_dead_fate|] : kernel.
#[export] Hint Extern 6 (steps aging _) =>
  apply (steps_mono fate); [exact fate_aging|] : kernel.

(** [steps_tac]: the structure of a computation, down to operations the hint
    database knows. *)
Ltac steps_step :=
  match goal with
  | |- forall _, _ => intro
  | |- steps _ (match ?x with _ => _ end) => destruct x
  | |- steps _ (mbind _ _) => apply steps_bind; [exact _| |]
  | |- steps _ (when _ _) => apply steps_when; [exact _|]
  | |- steps _ (unless _ _) => apply steps_unless; [exact _|]
  | |- steps _ (forM _ _) => apply steps_forM; [exact _|]
  | |- steps _ (iter _ _ _) => apply steps_iter; [exact _|]
  | |- steps _ (while_ _ _ _) => apply steps_while; [exact _|]
  end.
Ltac steps_tac := repeat first [ solve [eauto 4 with kernel] | progress cbv zeta | steps_step ].

(** ** States *)

Lemma sd_proc_alive p : steps same_dead (proc_alive p).
Proof. unfold proc_alive. steps_tac. Qed.
#[export] Hint Resolve sd_proc_alive : kernel.

Lemma sd_state_is p st : steps same_dead (state_is p st).
Proof. unfold state_is. steps_tac. Qed.
#[export] Hint Resolve sd_state_is : kernel.

Lemma sd_assert_state p st : steps same_dead (assert_state p st).
Proof. unfold assert_state. steps_tac. Qed.
#[export] Hint Resolve sd_assert_state : kernel.

Lemma sd_regs_savereturn p v : steps same_dead (regs_savereturn p v).
Proof. unfold regs_savereturn. steps_tac. Qed.
#[export] Hint Resolve sd_regs_savereturn : kernel.

Lemma steps_each_sibling R `{!PreOrder R} first body :
  (forall it, steps R (body it)) -> steps R (each_sibling first body).
Proof. intros Hb. unfold each_sibling. steps_tac. Qed.
#[export] Hint Extern 2 (steps _ (each_sibling _ _)) =>
  apply steps_each_sibling; [exact _|steps_tac] : kernel.

(** A state that is neither dead nor the timer's. *)
Definition live_state (st : proc_state) : bool :=
  match st with PS_WAITS4TIMER => false | _ => negb (dead_state st) end.

(** The process at [p] is alive, and the timer has nothing to do with it. *)
Definition lives (p : ptr) (s : kstate) : Prop := dead_at s p = Some false /\ ~ asleep s p.

Lemma lives_same_dead p s s' : lives p s -> same_dead s s' -> lives p s'.
Proof. intros [H1 H2] H. split; [by rewrite (sd_dead _ _ H)|]. intros Ha. by apply H2, H. Qed.

(** An update of a process that the timer has nothing to do with. *)
Lemma fate_wr p f s x :
  procs s !! p = Some x -> ~ asleep s p -> p_state (f x) <> PS_WAITS4TIMER ->
  (dead x = true -> dead (f x) = true) -> fate s (set_store (T := Proc) (<[p := f x]>) s).
Proof.
  intros Hx Ha Hf Hd. set (s' := set_store _ s). split.
  - intros [[l Hl] Hp]. split; [reflexivity|]. split; [split|].
    + exists l. apply (timers_linked s); [done| |done]. intros q g next [H1 H2].
      destruct (wr_procs p f s x q Hx) as (_&E1&E2). unfold linked, asleep. fold s' in E1, E2.
      rewrite E1, E2, !decide_False by (intros ->; done). done.
    + intros q Hq. apply Hp. apply dead_at_some in Hq. apply dead_at_some.
      destruct (wr_procs p f s x q Hx) as (E1&_). fold s' in E1. rewrite E1 in Hq.
      case_decide; [|done]. subst. apply dead_at_some. eauto.
    + intros q x' Hq. right. cbn in Hq. destruct (decide (p = q)) as [<-|];
        [|rewrite lookup_insert_ne in Hq by done; eauto].
      rewrite lookup_insert_eq in Hq. simplify_eq. eauto.
  - intros _ q. unfold asleep. destruct (wr_procs p f s x q Hx) as (_&E1&_). fold s' in E1.
    rewrite E1. case_decide; [|done]. by intros [= ?].
Qed.

(** Writing a state: harmless from a live process, or to a dead state. *)
Lemma fate_set_state p st :
  dead_state st = true -> steps_from fate (fun s => ~ asleep s p) (setf p_state p st).
Proof.
  intros Hst s Hs. unfold setf, wr, mbind, st_bind, get_. cbn.
  destruct (procs s !! p) as [x|] eqn:Hx; cbn; [|done].
  apply (fate_wr p (fun x => x <| p_state := st |>) s x); [done|done|by destruct st|done].
Qed.

Lemma sd_set_state_live p st :
  live_state st = true -> steps_from same_dead (lives p) (setf p_state p st).
Proof.
  intros Hst s [Hd Ha]. unfold setf, wr, mbind, st_bind, get_. cbn.
  destruct (procs s !! p) as [x|] eqn:Hx; cbn; [|done].
  apply (same_dead_wr p (fun x => x <| p_state := st |>) s x); [done| |cbn; by intros ->|].
  - unfold dead_at in Hd. rewrite Hx in Hd. injection Hd as ->. unfold dead. cbn. by destruct st.
  - intros g next H1 _. exfalso. apply Ha. unfold asleep, state_at. rewrite Hx. cbn. by rewrite H1.
Qed.

Lemma fate_set_state_live p st :
  live_state st = true -> steps_from fate (lives p) (setf p_state p st).
Proof.
  intros Hst s Hs. pose proof (sd_set_state_live p st Hst s Hs) as H.
  destruct (setf p_state p st s); [by apply same_dead_fate..|done].
Qed.

(** What a test of a state tells. *)
Lemma getf_val {T A} `{KObj T} (f : T -> A) p s a s' :
  getf f p s = Val a s' -> s' = s /\ exists x, store_of s !! p = Some x /\ a = f x.
Proof.
  unfold getf, rd, mbind, st_bind, get_. destruct (store_of s !! p); cbn; [|done].
  intros [= <- <-]. eauto.
Qed.

Lemma lives_of_state p s x :
  procs s !! p = Some x -> live_state (p_state x) = true -> lives p s.
Proof.
  intros Hx Hd. unfold lives, dead_at, asleep, state_at. rewrite Hx; cbn. unfold dead.
  by destruct (p_state x).
Qed.

Lemma state_is_lives p st s s' :
  live_state st = true -> state_is p st s = Val true s' -> lives p s'.
Proof.
  intros Hst H. apply bind_val in H as (a&s1&H1&H2).
  apply getf_val in H1 as [-> (x&Hx&->)]. injection H2 as H2 <-.
  apply bool_decide_eq_true in H2. by eapply lives_of_state; [done|rewrite H2].
Qed.

Lemma assert_state_lives p st s a s' :
  live_state st = true -> assert_state p st s = Val a s' -> lives p s'.
Proof.
  intros Hst H. apply bind_val in H as (b&s1&H1&H2). destruct b; [|done].
  injection H2 as _ <-. by eapply state_is_lives.
Qed.

(** [assert(p->state == st)] for a live state, and what follows it. *)
Lemma sd_after_assert p st {A} (m : K A) :
  live_state st = true -> steps_from same_dead (lives p) m ->
  steps same_dead (assert_state p st;; m).
Proof.
  intros Hst Hm s. apply (steps_from_bind same_dead (fun _ => True) (fun _ => lives p)); try done.
  - auto with kernel.
  - intros ? ? ? _. by apply assert_state_lives.
Qed.

(** Going on with a live process. *)
Lemma sd_live_bind p {A B} (m : K A) (f : A -> K B) :
  steps same_dead m -> (forall a, steps_from same_dead (lives p) (f a)) ->
  steps_from same_dead (lives p) (m ≫= f).
Proof.
  intros Hm Hf. apply (steps_from_frame same_dead same_dead); try done.
  intros s s'. apply lives_same_dead.
Qed.

Lemma sd_live_bind_from p {A B} (m : K A) (f : A -> K B) :
  steps_from same_dead (lives p) m -> (forall a, steps_from same_dead (lives p) (f a)) ->
  steps_from same_dead (lives p) (m ≫= f).
Proof.
  intros Hm Hf s Hs. unfold mbind, st_bind. specialize (Hm s Hs).
  destruct (m s) as [a s'|e s'|x] eqn:E; [|done|done].
  specialize (Hf a s' (lives_same_dead _ _ _ Hs Hm)).
  destruct (f a s'); [by etrans|by etrans|done].
Qed.

(** [proc_setstate], by target. *)
Definition setstate_checks (p : ptr) (state : proc_state) : K () :=
  cur ← getf p_state p;
  assert (bool_decide (cur <> PS_FREED));;
  match state with
  | PS_FREED => assert (bool_decide (cur = PS_DEADLEAF))
  | PS_DEADLEAF => assert (bool_decide (cur = PS_TOMBSTONE))
  | PS_TOMBSTONE => assert (bool_decide (cur = PS_TOREAP) || bool_decide (cur = PS_DYING))
  | PS_TOREAP =>
      assert (bool_decide (cur = PS_DYING));;
      parent ← getf p_parent p;
      alive ← proc_alive parent;
      assert (negb (is_some parent) || alive);;
      child ← getf p_child p;
      each_sibling child (fun _ => b ← state_is p PS_TOREAP; assert (negb b))
  | PS_RUNNING | PS_DYING => mret ()
  | _ => assert (bool_decide (cur = PS_RUNNING))
  end.

Lemma proc_setstate_split p st s :
  proc_setstate p st s = (setstate_checks p st;; setf p_state p st) s.
Proof.
  unfold proc_setstate, setstate_checks, mbind, st_bind.
  destruct (getf p_state p s) as [cur s1|?|?]; [|done|done].
  by destruct (assert _ s1).
Qed.

Lemma sd_setstate_checks p st : steps same_dead (setstate_checks p st).
Proof. unfold setstate_checks. steps_tac. Qed.
#[export] Hint Resolve sd_setstate_checks : kernel.

(** A sleeping state is entered by a running process only. *)
Definition sleeping (st : proc_state) : bool :=
  match st with
  | PS_WAITS4CHILDDEATH | PS_WAITS4FS | PS_WAITS4REQUEST | PS_WAITS4PIPE | PS_LAST => true
  | _ => false
  end.

Lemma setstate_checks_val p st s a s' :
  setstate_checks p st s = Val a s' ->
  exists x, procs s !! p = Some x /\
    (sleeping st = true -> s' = s /\ p_state x = PS_RUNNING) /\
    (dead_state st = true -> st <> PS_DYING -> p_state x <> PS_WAITS4TIMER).
Proof.
  intros H. apply bind_val in H as (cur&s1&H1&H2).
  apply getf_val in H1 as [-> (x&Hx&->)]. exists x. split; [done|].
  apply bind_val in H2 as (?&s2&H2&H3).
  destruct (bool_decide (p_state x <> PS_FREED)); [|done]. injection H2 as <- <-.
  split; [intros Hs|intros Hd Hn Hw].
  - assert (H4 : assert (bool_decide (p_state x = PS_RUNNING)) s = Val a s')
      by (destruct st; try discriminate Hs; exact H3).
    destruct (bool_decide (p_state x = PS_RUNNING)) eqn:E; [|done].
    injection H4 as <- <-. by apply bool_decide_eq_true in E.
  - rewrite Hw in H3. by destruct st.
Qed.

Lemma sleeping_checks p st s a s' :
  sleeping st = true -> setstate_checks p st s = Val a s' -> lives p s'.
Proof.
  intros Hst H. apply setstate_checks_val in H as (x&Hx&Hr&_). destruct (Hr Hst) as [-> E].
  by eapply lives_of_state; [done|rewrite E].
Qed.

Lemma sd_setstate_sleep p st :
  sleeping st = true -> steps same_dead (proc_setstate p st).
Proof.
  intros Hst s. rewrite proc_setstate_split.
  apply (steps_from_bind same_dead (fun _ => True) (fun _ => lives p)); try done.
  - auto with kernel.
  - intros ? ? ? _. by apply sleeping_checks.
  - intros _. apply sd_set_state_live. by destruct st.
Qed.
#[export] Hint Extern 1 (steps same_dead (proc_setstate _ _)) =>
  apply sd_setstate_sleep; reflexivity : kernel.

Lemma sd_setstate_running p :
  steps_from same_dead (lives p) (proc_setstate p PS_RUNNING).
Proof.
  intros s Hs. rewrite proc_setstate_split. revert s Hs.
  apply sd_live_bind; [auto with kernel|intros _]. by apply sd_set_state_live.
Qed.

(** What is done to a process that the timer has nothing to do with. *)
Definition up (p : ptr) (s : kstate) : Prop := timer_ok s /\ ~ asleep s p.

Lemma steps_ok {A} (m : K A) : steps_from fate timer_ok m -> steps fate m.
Proof.
  intros H s. specialize (H s). destruct (m s) as [a s'|e s'|x]; [| |done];
    (split; [intros Hs; by apply H|intros Hs; by apply H]).
Qed.

Lemma fate_up p s s' : up p s -> fate s s' -> up p s'.
Proof.
  intros [Hs Ha] [H1 H2]. split; [by apply H1|]. intros Hp. by apply Ha, H2.
Qed.

Lemma up_bind p {A B} (m : K A) (f : A -> K B) :
  steps fate m -> (forall a, steps_from fate (up p) (f a)) -> steps_from fate (up p) (m ≫= f).
Proof.
  intros Hm Hf. apply (steps_from_frame fate fate); [done|intros s s'; apply fate_up|done|done].
Qed.

Lemma up_bind_from p {A B} (m : K A) (f : A -> K B) :
  steps_from fate (up p) m -> (forall a, steps_from fate (up p) (f a)) ->
  steps_from fate (up p) (m ≫= f).
Proof.
  intros Hm Hf s Hs. unfold mbind, st_bind. specialize (Hm s Hs).
  destruct (m s) as [a s'|e s'|x] eqn:E; [|done|done].
  specialize (Hf a s' (fate_up _ _ _ Hs Hm)). destruct (f a s'); [by etrans|by etrans|done].
Qed.

(** After a step that shows that [p] does not sleep. *)
Lemma fate_then_up p {A B} (m : K A) (f : A -> K B) :
  steps fate m -> (forall s a s', timer_ok s -> m s = Val a s' -> ~ asleep s' p) ->
  (forall a, steps_from fate (up p) (f a)) -> steps fate (m ≫= f).
Proof.
  intros Hm Hv Hf. apply steps_ok. apply (steps_from_bind fate _ (fun _ => up p)); [done| |done].
  intros s a s' Hs E. split; [|by eapply Hv]. specialize (Hm s). rewrite E in Hm. by apply Hm.
Qed.

Lemma setstate_val p st s a s' :
  proc_setstate p st s = Val a s' -> state_at s' p = Some st.
Proof.
  rewrite proc_setstate_split. intros H. apply bind_val in H as (u&s1&_&H).
  unfold setf, wr, mbind, st_bind, get_ in H. cbn in H.
  destruct (procs s1 !! p) as [x|] eqn:Hx; cbn in H; [|done]. injection H as _ <-.
  unfold state_at. cbn. by rewrite lookup_insert_eq.
Qed.

Lemma setstate_awake p st s a s' :
  st <> PS_WAITS4TIMER -> proc_setstate p st s = Val a s' -> ~ asleep s' p.
Proof. intros Hst H. apply setstate_val in H. unfold asleep. congruence. Qed.

Lemma fate_setstate_up p st :
  dead_state st = true -> steps_from fate (up p) (proc_setstate p st).
Proof.
  intros Hst s. rewrite proc_setstate_split. revert s.
  change (steps_from fate (up p) (setstate_checks p st;; setf p_state p st)).
  apply up_bind; [auto with kernel|intros _].
  eapply steps_from_weaken; [by apply fate_set_state|]. by intros s [].
Qed.

Lemma fate_setstate_dead p st :
  dead_state st = true -> st <> PS_DYING -> steps fate (proc_setstate p st).
Proof.
  intros Hst Hn s. rewrite proc_setstate_split. revert s.
  change (steps fate (setstate_checks p st;; setf p_state p st)).
  apply (fate_then_up p).
  - auto with kernel.
  - intros s a s' _ E. pose proof (sd_setstate_checks p st s) as Hc. rewrite E in Hc.
    apply setstate_checks_val in E as (x&Hx&_&Hw). intros Ha. apply (sd_asleep _ _ Hc) in Ha.
    unfold asleep, state_at in Ha. rewrite Hx in Ha. injection Ha as Ha. by apply Hw.
  - intros _. eapply steps_from_weaken; [by apply fate_set_state|]. by intros s [].
Qed.
#[export] Hint Extern 1 (steps fate (proc_setstate _ _)) =>
  first [ apply fate_setstate_dead; [reflexivity|discriminate]
        | apply (steps_mono same_dead); [exact same_dead_fate|auto with kernel] ] : kernel.

(** The union of a process that the timer has nothing to do with. *)
Lemma sd_set_saved p u :
  steps_from same_dead (fun s => ~ asleep s p \/ forall g next, saved_at s p <> Some (waits4timer g next))
    (setf p_saved p u).
Proof.
  intros s Hs. unfold setf, wr, mbind, st_bind, get_. cbn.
  destruct (procs s !! p) as [x|] eqn:Hx; cbn; [|done].
  apply (same_dead_wr p (fun x => x <| p_saved := u |>) s x); [done|done|done|].
  intros g next H1 H2. exfalso. unfold asleep, state_at, saved_at in Hs. rewrite Hx in Hs. cbn in Hs.
  destruct Hs as [Hs|Hs]; [apply Hs|apply (Hs g next)]; congruence.
Qed.

Lemma sd_saved_live p u : steps_from same_dead (lives p) (setf p_saved p u).
Proof. eapply steps_from_weaken; [apply sd_set_saved|]. intros s []. by left. Qed.

Lemma fate_saved_up p u : steps_from fate (up p) (setf p_saved p u).
Proof.
  intros s [_ Ha]. pose proof (sd_set_saved p u s (or_introl Ha)) as H.
  destruct (setf p_saved p u s); [by apply same_dead_fate..|done].
Qed.

(** ** Components that neither create nor kill *)

Lemma sd_pcpy_to p dst src len : steps same_dead (pcpy_to p dst src len).
Proof. unfold pcpy_to. steps_tac. Qed.
Lemma sd_pcpy_from p src len : steps same_dead (pcpy_from p src len).
Proof. unfold pcpy_from. steps_tac. Qed.
Lemma sd_pcpy_bi p1 d p2 s len : steps same_dead (pcpy_bi p1 d p2 s len).
Proof. unfold pcpy_bi. steps_tac. Qed.
#[export] Hint Resolve sd_pcpy_to sd_pcpy_from sd_pcpy_bi : kernel.

Lemma steps_climb R `{!PreOrder R} {A} (up : option ptr -> K (A + ptr)) p :
  (forall o, steps R (up o)) -> steps R (climb up p).
Proof. intros Hup. unfold climb. steps_tac. Qed.
#[export] Hint Extern 2 (steps _ (climb _ _)) => apply steps_climb; [exact _|steps_tac] : kernel.

Lemma sd_proc_next p root : steps same_dead (proc_next p root).
Proof. unfold proc_next. steps_tac. Qed.
Lemma sd_proc_ns_contains ns p : steps same_dead (proc_ns_contains ns p).
Proof. unfold proc_ns_contains. steps_tac. Qed.
#[export] Hint Resolve sd_proc_next sd_proc_ns_contains : kernel.
Lemma sd_proc_ns_id ns p : steps same_dead (proc_ns_id ns p).
Proof. unfold proc_ns_id. steps_tac. Qed.
Lemma sd_proc_ns_next ns p : steps same_dead (proc_ns_next ns p).
Proof. unfold proc_ns_next. steps_tac. Qed.
#[export] Hint Resolve sd_proc_ns_id sd_proc_ns_next : kernel.
Lemma sd_proc_ns_byid ns id : steps same_dead (proc_ns_byid ns id).
Proof. unfold proc_ns_byid. steps_tac. Qed.
Lemma sd_ns_adopt p old it : steps same_dead (ns_adopt p old it).
Proof. unfold ns_adopt. steps_tac. Qed.
#[export] Hint Resolve sd_proc_ns_byid sd_ns_adopt : kernel.
Lemma sd_proc_ns_create p : steps same_dead (proc_ns_create p).
Proof. unfold proc_ns_create. steps_tac. Qed.
#[export] Hint Resolve sd_proc_ns_create : kernel.

Lemma steps_each_next first root body :
  (forall it, steps fate (body it)) -> steps fate (each_next first root body).
Proof. intros Hb. unfold each_next. steps_tac. Qed.

Lemma sd_handle_slot p i : steps same_dead (handle_slot p i).
Proof. unfold handle_slot. steps_tac. Qed.
Lemma sd_table_set t i h : steps same_dead (table_set t i h).
Proof. unfold table_set. steps_tac. Qed.
#[export] Hint Resolve sd_handle_slot sd_table_set : kernel.
Lemma sd_set_handle_slot p i h : steps same_dead (set_handle_slot p i h).
Proof. unfold set_handle_slot. steps_tac. Qed.
Lemma sd_free_slot_from p n : forall hid, steps same_dead (free_slot_from p hid n).
Proof. induction n as [|n IH]; intros hid; cbn [free_slot_from]; steps_tac; apply IH. Qed.
#[export] Hint Resolve sd_set_handle_slot sd_free_slot_from : kernel.
Lemma sd_proc_find_free_handle p i : steps same_dead (proc_find_free_handle p i).
Proof. unfold proc_find_free_handle. steps_tac. Qed.
Lemma sd_proc_handle_get p i : steps same_dead (proc_handle_get p i).
Proof. unfold proc_handle_get. steps_tac. Qed.
Lemma sd_handle_init t : steps same_dead (handle_init t).
Proof. unfold handle_init. steps_tac. Qed.
#[export] Hint Resolve sd_proc_find_free_handle sd_proc_handle_get sd_handle_init : kernel.
Lemma sd_proc_handle_init p t : steps same_dead (proc_handle_init p t).
Proof. unfold proc_handle_init. steps_tac. Qed.
Lemma sd_proc_hid_take p i : steps same_dead (proc_hid_take p i).
Proof. unfold proc_hid_take. steps_tac. Qed.
Lemma sd_unref c : steps same_dead (unref c).
Proof. unfold unref. steps_tac. Qed.
#[export] Hint Resolve sd_proc_handle_init sd_proc_hid_take sd_unref : kernel.

(** Pipes *)
Lemma sd_waits4pipe_of p : steps same_dead (waits4pipe_of p).
Proof. unfold waits4pipe_of. steps_tac. Qed.
#[export] Hint Resolve sd_waits4pipe_of : kernel.
Lemma sd_slot_get sl : steps same_dead (slot_get sl).
Proof. unfold slot_get. steps_tac. Qed.
Lemma sd_slot_set sl v : steps same_dead (slot_set sl v).
Proof.
  destruct sl as [h|p]; unfold slot_set; [auto with kernel|]. intros s.
  apply (steps_from_bind same_dead (fun _ => True)
    (fun _ s => forall g next, saved_at s p <> Some (waits4timer g next))); try done.
  - auto with kernel.
  - intros s1 a s2 _ E g next. apply bind_val in E as (u&s3&E&E2).
    apply getf_val in E as [-> (x&Hx&->)]. unfold saved_at.
    destruct (p_saved x) eqn:Hs; try done. injection E2 as _ <-.
    change (procs s1 !! p = Some x) in Hx. rewrite Hx. cbn. congruence.
  - intros [[[h b] l] next]. eapply steps_from_weaken; [apply sd_set_saved|]. intros s' Hs. by right.
Qed.
Lemma sd_assert_pipe h : steps same_dead (assert_pipe h).
Proof. unfold assert_pipe. steps_tac. Qed.
#[export] Hint Resolve sd_slot_get sd_slot_set sd_assert_pipe : kernel.
Lemma sd_pipe_find h stop : steps same_dead (pipe_find h stop).
Proof. unfold pipe_find. steps_tac. Qed.
#[export] Hint Resolve sd_pipe_find : kernel.

(** The tail of an operation that wakes a process it knows to be live. *)
Ltac live_steps :=
  repeat first
    [ progress intros
    | apply steps_from_steps; solve [steps_tac]
    | apply sd_setstate_running
    | apply sd_live_bind; [solve [steps_tac]|intros]
    | apply sd_live_bind_from; [apply sd_setstate_running|intros]
    | apply steps_from_if
    | match goal with |- steps_from _ _ (match ?x with _ => _ end) => destruct x end ].

Lemma sd_wake_two p q r1 r2 s :
  lives p s -> lives q s ->
  match (proc_setstate p PS_RUNNING;; proc_setstate q PS_RUNNING;;
         regs_savereturn p r1;; regs_savereturn q r2) s with
  | Val _ s' | Exit _ s' => same_dead s s'
  | Fault _ => True
  end.
Proof.
  intros Hp Hq. unfold mbind at 1, st_bind at 1.
  pose proof (sd_setstate_running p s Hp) as H1.
  destruct (proc_setstate p PS_RUNNING s) as [[] s1|?|]; [|done|done].
  pose proof (lives_same_dead _ _ _ Hq H1) as Hq1.
  assert (Hrest : steps_from same_dead (lives q)
    (proc_setstate q PS_RUNNING;; regs_savereturn p r1;; regs_savereturn q r2)) by live_steps.
  specialize (Hrest s1 Hq1).
  match type of Hrest with match ?t with _ => _ end => destruct t end;
    [by etrans|by etrans|done].
Qed.

Lemma sd_pipe_trytransfer h : steps same_dead (pipe_trytransfer h).
Proof.
  unfold pipe_trytransfer.
  apply steps_bind; [exact _|auto with kernel|intros _].
  apply steps_bind; [exact _|auto with kernel|intros rdb].
  apply steps_bind; [exact _|auto with kernel|intros [sis|]]; [|steps_tac].
  apply steps_bind; [exact _|auto with kernel|intros [m|]]; [|steps_tac].
  apply steps_bind; [exact _|auto with kernel|intros [t|]]; [|steps_tac].
  destruct (if rdb then (m, t) else (t, m)) as [rdr wtr].
  apply sd_after_assert; [done|]. intros s Hr.
  revert s Hr. apply (steps_from_bind same_dead _ (fun _ s => lives rdr s /\ lives wtr s)).
  { auto with kernel. }
  { intros s a s' Hl E. split; [|by eapply (assert_state_lives _ PS_WAITS4PIPE); [|exact E]].
    pose proof (sd_assert_state wtr PS_WAITS4PIPE s) as Hs. rewrite E in Hs.
    by eapply lives_same_dead. }
  intros _.
  repeat first [ apply (steps_from_frame same_dead same_dead);
    [done|intros s s' [? ?] ?; split; by eapply lives_same_dead|solve [steps_tac]|intros]
  | match goal with |- steps_from _ _ (match ?x with _ => _ end) => destruct x end ].
  intros s [Hr Hw]. by apply sd_wake_two.
Qed.
#[export] Hint Resolve sd_pipe_trytransfer : kernel.

(** A process goes to sleep, not for the timer, and what follows. *)
Lemma sd_after_sleep p st {A} (m : K A) :
  sleeping st = true -> steps_from same_dead (lives p) m -> steps same_dead (proc_setstate p st;; m).
Proof.
  intros Hst Hm s. apply (steps_from_bind same_dead (fun _ => True) (fun _ => lives p)); try done.
  - by apply sd_setstate_sleep.
  - intros s1 a s2 _ E. rewrite proc_setstate_split in E. apply bind_val in E as (u&s3&Hc&Hs).
    pose proof (sleeping_checks p st _ _ _ Hst Hc) as Hl.
    pose proof (sd_set_state_live p st ltac:(by destruct st) s3 Hl) as Hk.
    rewrite Hs in Hk. by eapply lives_same_dead.
Qed.

Lemma sd_pipe_joinqueue h p b l : steps same_dead (pipe_joinqueue h p b l).
Proof.
  unfold pipe_joinqueue.
  do 3 (apply steps_bind; [exact _|solve [steps_tac]|intros]).
  destruct (negb _); [auto with kernel|]. apply steps_bind; [exact _|solve [steps_tac]|intros].
  apply sd_after_sleep; [done|]. apply sd_live_bind; [auto with kernel|intros _].
  apply sd_live_bind_from; [apply sd_saved_live|intros _]. apply steps_from_steps. auto with kernel.
Qed.

Lemma sd_pipe_invalidate_end h : steps same_dead (pipe_invalidate_end h).
Proof.
  unfold pipe_invalidate_end.
  apply steps_bind; [exact _|auto with kernel|intros n].
  apply steps_bind; [exact _|auto with kernel|intros q].
  apply steps_bind; [exact _| |intros; auto with kernel].
  apply steps_iter; [exact _|]. intros [p|]; [|auto with kernel].
  apply sd_after_assert; [done|]. live_steps.
Qed.
#[export] Hint Resolve sd_pipe_joinqueue sd_pipe_invalidate_end : kernel.

(** The timer *)
Lemma sd_waits4timer_of p : steps same_dead (waits4timer_of p).
Proof. unfold waits4timer_of. steps_tac. Qed.
Lemma sd_get_counter : steps same_dead get_counter.
Proof. unfold get_counter. steps_tac. Qed.
#[export] Hint Resolve sd_waits4timer_of sd_get_counter : kernel.
Lemma sd_uptime_ns : steps same_dead uptime_ns.
Proof. unfold uptime_ns. steps_tac. Qed.
#[export] Hint Resolve sd_uptime_ns : kernel.

(** The operations on the timer's list return, and allocate nothing. *)
Definition quiet {A} (m : K A) : Prop :=
  forall s, match m s with Val _ s' => next_ptr s' = next_ptr s | Exit _ _ => False | Fault _ => True end.

Lemma quiet_ret {A} (a : A) : quiet (mret a). Proof. done. Qed.
Lemma quiet_fail {A} x : quiet (@fail kstate kexit A x). Proof. done. Qed.
Lemma quiet_gets {A} (f : kstate -> A) : quiet (gets f). Proof. done. Qed.
Lemma quiet_assert b : quiet (assert b). Proof. by destruct b. Qed.
Lemma quiet_setp {A} (f : kstate -> A) `{!Setter f} v :
  (forall s, next_ptr (s <| f := v |>) = next_ptr s) -> quiet (setp f v).
Proof. intros H s. apply H. Qed.
Lemma quiet_bind {A B} (m : K A) (f : A -> K B) :
  quiet m -> (forall a, quiet (f a)) -> quiet (m ≫= f).
Proof.
  intros Hm Hf s. unfold mbind, st_bind. specialize (Hm s). destruct (m s) as [a s'|e s'|x]; [|done|done].
  specialize (Hf a s'). destruct (f a s'); [congruence|done|done].
Qed.
Lemma quiet_rd {T} `{KObj T} p : quiet (rd (T := T) p).
Proof. intros s. unfold rd, mbind, st_bind, get_. by destruct (store_of s !! p). Qed.
Lemma quiet_setf {A} (f : Proc -> A) `{!Setter f} p v : quiet (setf f p v).
Proof. intros s. unfold setf, wr, mbind, st_bind, get_. cbn. by destruct (procs s !! p). Qed.
Lemma quiet_iter {A B} n (f : A -> K (A + B)) a : (forall a, quiet (f a)) -> quiet (iter n f a).
Proof.
  intros Hf. revert a; induction n as [|n IH]; intros a; cbn; [done|].
  apply quiet_bind; [done|]. intros [?|?]; [apply IH|done].
Qed.

Ltac quiet_tac :=
  repeat match goal with
  | |- forall _, _ => intro
  | |- quiet (mbind _ _) => apply quiet_bind
  | |- quiet (match ?x with _ => _ end) => destruct x
  | |- quiet (iter _ _ _) => apply quiet_iter
  | |- quiet (getf _ _) => unfold getf
  | |- quiet (setp _ _) => apply quiet_setp; reflexivity
  | _ => first [apply quiet_ret|apply quiet_fail|apply quiet_gets|apply quiet_assert
               |apply quiet_rd|apply quiet_setf]
  end.

Lemma quiet_setstate p st : quiet (proc_setstate p st).
Proof.
  intros s. rewrite proc_setstate_split. revert s. change (quiet (setstate_checks p st;; setf p_state p st)).
  unfold setstate_checks, proc_alive, each_sibling, state_is. quiet_tac.
Qed.

Lemma quiet_deschedule p : quiet (timer_deschedule p).
Proof.
  unfold timer_deschedule, assert_state, state_is, deschedule_turn, tslot_get, tslot_set,
    hpet_sched, waits4timer_of. quiet_tac; apply quiet_setstate.
Qed.
Lemma quiet_schedule p t : quiet (timer_schedule p t).
Proof.
  unfold timer_schedule, get_counter, schedule_turn, assert_state, state_is, tslot_get, tslot_set,
    hpet_sched, waits4timer_of. cbv zeta. quiet_tac; apply quiet_setstate.
Qed.
Lemma quiet_hpet_irq : quiet hpet_irq.
Proof.
  unfold hpet_irq, get_counter, hpet_sched, waits4timer_of, when. quiet_tac; apply quiet_setstate.
Qed.

(** A change of the list of sleepers. *)
Lemma aging_states s s' l' :
  timers s' l' -> next_ptr s' = next_ptr s ->
  (forall q st', state_at s' q = Some st' ->
     exists st, state_at s q = Some st /\ (dead_state st = true -> dead_state st' = true)) ->
  aging s s'.
Proof.
  intros Hl En Hst [_ Hp]. split; [by rewrite En|]. split; [split; [by exists l'|]|].
  - intros q [x' Hx']. rewrite En. destruct (Hst q (p_state x')) as (st&E&_).
    { unfold state_at. by rewrite Hx'. }
    apply Hp. apply state_at_inv in E as (x&?&_). eauto.
  - intros q x' Hx'. right. destruct (Hst q (p_state x')) as (st&E&Hd).
    { unfold state_at. by rewrite Hx'. }
    apply state_at_inv in E as (x&?&<-). eauto.
Qed.

Lemma steps_aging_ok {A} (m : K A) : steps_from aging timer_ok m -> steps aging m.
Proof.
  intros H s. specialize (H s). destruct (m s) as [a s'|e s'|x]; [| |done]; intros Hs; by apply H.
Qed.

Lemma fate_timer_deschedule p : steps fate (timer_deschedule p).
Proof.
  apply steps_ok. intros s Hok. pose proof (quiet_deschedule p s) as Hq.
  destruct (timer_deschedule p s) as [[] s'|e s'|x] eqn:E; [|done|done].
  destruct Hok as [[l Hl] Hdom]. pose proof (timer_deschedule_listed _ _ _ _ Hl E) as Hp.
  destruct (timer_deschedule_spec s l p Hl Hp) as (s2&E2&Hl2&Hr&_&Hst).
  rewrite E in E2. injection E2 as <-. pose proof (timers_state _ _ Hl) as Hw.
  rewrite Forall_forall in Hw. specialize (Hw p Hp). split.
  - apply (aging_states _ _ _ Hl2 Hq). intros q st' Hs'. destruct (decide (q = p)) as [->|Hn].
    + by eexists; split; [exact Hw|].
    + rewrite Hst in Hs' by done. eauto.
  - intros _ q. unfold asleep. destruct (decide (q = p)) as [->|Hn]; [congruence|].
    by rewrite Hst.
Qed.

(** It leaves the process awake. *)
Lemma deschedule_awake p s s' : timer_ok s -> timer_deschedule p s = Val () s' -> ~ asleep s' p.
Proof.
  intros [[l Hl] _] E. pose proof (timer_deschedule_listed _ _ _ _ Hl E) as Hp.
  destruct (timer_deschedule_spec s l p Hl Hp) as (s2&E2&_&Hr&_).
  rewrite E in E2. injection E2 as <-. unfold asleep. congruence.
Qed.

Lemma timer_schedule_clock s p time s' :
  timer_schedule p time s = Val () s' ->
  exists now, hpet_counter s = Some now /\ hpet_period s <> 0.
Proof.
  intros H. unfold timer_schedule in H. apply bind_val in H as (now&s1&Hn&H).
  unfold get_counter in Hn. apply bind_val in Hn as (c&s2&Hc&Hn). injection Hc as <- <-.
  destruct (hpet_counter s) as [c|]; [|done]. injection Hn as <- <-. exists c. split; [done|].
  apply bind_val in H as (per&s2&Hpe&H). injection Hpe as <- <-.
  intros Hz. by rewrite Hz in H.
Qed.

Lemma aging_timer_schedule p t : steps aging (timer_schedule p t).
Proof.
  apply steps_aging_ok. intros s Hok. pose proof (quiet_schedule p t s) as Hq.
  destruct (timer_schedule p t s) as [[] s'|e s'|x] eqn:E; [|done|done].
  destruct Hok as [[l Hl] Hdom]. pose proof (timer_schedule_running _ _ _ _ E) as Hp.
  destruct (timer_schedule_clock _ _ _ _ E) as (now&Hc&Hper).
  destruct (timer_schedule_spec s l p now t Hl Hp Hc Hper) as (s2&E2&Hl2&_&Hst).
  rewrite E in E2. injection E2 as <-. apply (aging_states _ _ _ Hl2 Hq).
  intros q st' Hs'. destruct (decide (q = p)) as [->|Hn].
  - by eexists; split; [exact Hp|].
  - rewrite Hst in Hs' by done. eauto.
Qed.

(** The interrupt wakes the first of the list, who sleeps. *)
Lemma aging_hpet_irq : steps aging hpet_irq.
Proof.
  apply steps_aging_ok. intros s Hok. pose proof (quiet_hpet_irq s) as Hq.
  destruct (hpet_irq s) as [[] s'|e s'|x] eqn:E; [|done|done].
  destruct (hpet_counter s) as [now|] eqn:Hc.
  - destruct Hok as [[l Hl] Hdom]. destruct (hpet_irq_spec s l now Hl Hc) as (s2&E2&Hl2&_&Hst).
    rewrite E in E2. injection E2 as <-. apply (aging_states _ _ _ Hl2 Hq).
    intros q st' Hs'. rewrite Hst in Hs'. case_bool_decide as Hin; [|eauto].
    pose proof (timers_state _ _ Hl) as Hw. rewrite Forall_forall in Hw.
    eexists. split; [by apply Hw, Hin|done].
  - apply fate_aging, same_dead_fate. unfold hpet_irq in E.
    apply bind_val in E as (o&s1&Ho&E). injection Ho as <- <-. destruct (scheduled s) as [p|] eqn:Es.
    + exfalso. apply bind_val in E as (u&s1&E&_). apply bind_val in E as ([g next]&s2&E1&E).
      assert (s2 = s) as ->.
      { unfold waits4timer_of in E1. apply bind_val in E1 as (sv&s3&E1&E2).
        apply getf_val in E1 as [-> _]. destruct sv; try done. by injection E2. }
      apply bind_val in E as (c&s3&E&_). unfold get_counter in E.
      apply bind_val in E as (c2&s4&E3&E). injection E3 as <- <-. by rewrite Hc in E.
    + cbn in E. unfold hpet_sched in E. apply bind_val in E as (u&s1&E1&E). injection E1 as <- <-.
      apply bind_val in E as (o&s1&Ho&E). injection Ho as <- <-. rewrite Es in E.
      injection E as <-. keeps_procs.
Qed.

#[export] Hint Resolve fate_timer_deschedule aging_timer_schedule aging_hpet_irq : kernel.

(** ** What calls back into the kernel *)

Class FwdKeeps (R : kstate -> kstate -> Prop) (F : KFwd) : Prop := {
  keeps_vfsreq_create req : steps R (fwd_vfsreq_create req);
  keeps_vfsreq_finish req stored ret flags handler :
    steps R (fwd_vfsreq_finish req stored ret flags handler);
  keeps_vfs_backend_refdown b use : steps R (fwd_vfs_backend_refdown b use);
  keeps_execbuf_run p : steps aging (fwd_execbuf_run p);
}.
#[export] Hint Resolve keeps_vfsreq_create keeps_vfsreq_finish keeps_vfs_backend_refdown
  keeps_execbuf_run : kernel.

(** Stores that differ at one place. *)
Lemma procs_elsewhere s s' q :
  procs s' !! q = procs s !! q ->
  state_at s' q = state_at s q /\ saved_at s' q = saved_at s q.
Proof. unfold state_at, saved_at. by intros ->. Qed.

Lemma fate_new_proc : steps fate (new (T := Proc) proc0).
Proof.
  intros s. set (s' := set_store (T := Proc) (<[next_ptr s := proc0]>) s <| next_ptr ::= Pos.succ |>).
  assert (He : forall q, next_ptr s <> q -> procs s' !! q = procs s !! q)
    by (intros; cbn; by rewrite lookup_insert_ne).
  change (fate s s'). split.
  - intros [[l Hl] Hp]. split; [cbn; lia|]. split; [split|].
    + exists l. apply (timers_linked s); [done| |done]. intros p g next [H1 H2].
      destruct (procs_elsewhere s s' p) as [E1 E2].
      * apply He. intros <-. apply state_at_inv in H1 as (x&Hx&_).
        specialize (Hp (next_ptr s) ltac:(eauto)). lia.
      * split; [unfold asleep; by rewrite E1|by rewrite E2].
    + intros p [x Hx]. change (p < Pos.succ (next_ptr s))%positive.
      destruct (decide (next_ptr s = p)) as [<-|Hn]; [lia|]. rewrite He in Hx by done.
      specialize (Hp p ltac:(eauto)). lia.
    + intros p x' Hx. destruct (decide (next_ptr s = p)) as [<-|Hn]; [by left|].
      rewrite He in Hx by done. right; eauto.
  - intros _ q. unfold asleep. destruct (decide (next_ptr s = q)) as [<-|Hn].
    + unfold state_at. cbn. by rewrite lookup_insert_eq.
    + by rewrite (proj1 (procs_elsewhere s s' q (He q Hn))).
Qed.
#[export] Hint Resolve fate_new_proc : kernel.

Lemma fate_del_proc p : steps_from fate (up p) (del Proc p).
Proof.
  intros s [_ Ha]. unfold del, rd, mbind, st_bind, get_. cbn.
  destruct (procs s !! p) as [x|] eqn:Hx; cbn; [|done].
  set (s' := s <| procs ::= delete p |>).
  assert (He : forall q, p <> q -> procs s' !! q = procs s !! q)
    by (intros; cbn; by rewrite lookup_delete_ne).
  change (fate s s'). split.
  - intros [[l Hl] Hp]. split; [cbn; lia|]. split; [split|].
    + exists l. apply (timers_linked s); [done| |done]. intros q g next [H1 H2].
      destruct (procs_elsewhere s s' q) as [E1 E2]; [apply He; by intros <-|].
      split; [unfold asleep; by rewrite E1|by rewrite E2].
    + intros q [y Hy]. change (delete p (procs s) !! q = Some y) in Hy.
      apply lookup_delete_Some in Hy as [_ Hy]. apply Hp. eauto.
    + intros q x' Hq. change (delete p (procs s) !! q = Some x') in Hq.
      apply lookup_delete_Some in Hq as [_ Hq]. right; eauto.
  - intros _ q. unfold asleep. destruct (decide (p = q)) as [<-|Hn].
    + unfold state_at. cbn. by rewrite lookup_delete_eq.
    + by rewrite (proj1 (procs_elsewhere s s' q (He q Hn))).
Qed.

(** Reaping wakes a parent in [PS_WAITS4CHILDDEATH]. *)
Lemma sd_death_msg_of p : steps same_dead (death_msg_of p).
Proof. unfold death_msg_of. steps_tac. Qed.
Lemma sd_awaited_death_of p : steps same_dead (awaited_death_of p).
Proof. unfold awaited_death_of. steps_tac. Qed.
Lemma sd_deadleaf_next_of p : steps same_dead (deadleaf_next_of p).
Proof. unfold deadleaf_next_of. steps_tac. Qed.
#[export] Hint Resolve sd_death_msg_of sd_awaited_death_of sd_deadleaf_next_of : kernel.

(** A test of a live state, whose positive answer is used. *)
Lemma sd_after_state_is p st {A} (f : bool -> K A) :
  live_state st = true -> steps same_dead (f false) ->
  steps_from same_dead (lives p) (f true) -> steps same_dead (state_is p st ≫= f).
Proof.
  intros Hst Hf Ht s.
  apply (steps_from_bind same_dead (fun _ => True)
           (fun b s => b = true -> lives p s)); try done.
  - auto with kernel.
  - intros s1 b s2 _ E ->. by eapply state_is_lives.
  - intros [|] s1 H1; [by apply Ht, H1|by apply Hf].
Qed.

Lemma sd_tryreap_deliver d p : steps same_dead (tryreap_deliver d p).
Proof.
  unfold tryreap_deliver.
  apply steps_bind; [exact _|auto with kernel|intros noreap].
  apply steps_bind; [exact _|auto with kernel|intros alive].
  destruct p as [q|]; [|auto with kernel].
  destruct (negb noreap && alive); [|auto with kernel].
  apply steps_bind; [exact _|auto with kernel|intros [|]]; [auto with kernel|].
  apply sd_after_state_is; [done|cbn; auto with kernel|]. cbn. live_steps.
Qed.
#[export] Hint Resolve sd_tryreap_deliver : kernel.

Lemma sd_tombstone_checks d c : steps same_dead (tombstone_checks d c).
Proof. unfold tombstone_checks. steps_tac. Qed.
#[export] Hint Resolve sd_tombstone_checks : kernel.

(** The leaf is linked in after its state is set. *)
Lemma fate_deadleaf d (f : kstate -> option ptr) (m : option ptr -> K ()) :
  (forall o, steps fate (m o)) ->
  steps fate (proc_setstate d PS_DEADLEAF;; l ← getp f; setf p_saved d (deadleaf_next l);; m l).
Proof.
  intros Hm. apply (fate_then_up d); [auto with kernel|intros s a s' _; by apply setstate_awake|intros _].
  apply up_bind; [auto with kernel|intros l]. apply up_bind_from; [apply fate_saved_up|intros _].
  by apply steps_from_steps.
Qed.
#[export] Hint Extern 2 (steps fate (proc_setstate _ PS_DEADLEAF ≫= _)) =>
  apply fate_deadleaf; intros; steps_tac : kernel.

Lemma fate_proc_tryreap d : steps fate (proc_tryreap d).
Proof. unfold proc_tryreap. steps_tac. Qed.
#[export] Hint Resolve fate_proc_tryreap : kernel.

Lemma sd_unlink_child q p : steps same_dead (unlink_child q p).
Proof. unfold unlink_child. steps_tac. Qed.
#[export] Hint Resolve sd_unlink_child : kernel.

Lemma fate_free_leaf p {A} (m : K A) :
  steps fate m -> steps fate (proc_setstate p PS_FREED;; del Proc p;; m).
Proof.
  intros Hm. apply (fate_then_up p); [auto with kernel|intros s a s' _; by apply setstate_awake|intros _].
  apply up_bind_from; [apply fate_del_proc|intros _]. by apply steps_from_steps.
Qed.
#[export] Hint Extern 2 (steps fate (proc_setstate _ PS_FREED ≫= _)) =>
  apply fate_free_leaf; steps_tac : kernel.

Lemma fate_proc_prune_leaves : steps fate proc_prune_leaves.
Proof. unfold proc_prune_leaves. steps_tac. Qed.
#[export] Hint Resolve fate_proc_prune_leaves : kernel.

Lemma sd_share c : steps same_dead (share c).
Proof. unfold share. steps_tac. Qed.
#[export] Hint Resolve sd_share : kernel.

(** The child of a fork is made a copy of a running process. *)
Lemma fate_proc_fork parent flags : steps fate (proc_fork parent flags).
Proof.
  unfold proc_fork. intros s.
  apply (steps_from_bind fate (fun _ => True) (fun p => lives p)); try done.
  { auto with kernel. }
  { intros s0 c s1 _ E. cbn in E. injection E as <- <-.
    eapply lives_of_state; [cbn; by rewrite lookup_insert_eq|done]. }
  clear s. intros child.
  assert (Hfr : forall A B (m : K A) (f : A -> K B), steps same_dead m ->
    (forall a, steps_from fate (lives child) (f a)) ->
    steps_from fate (lives child) (m ≫= f)).
  { intros A B m f Hm Hf. apply (steps_from_frame fate same_dead);
      [exact same_dead_fate|intros ? ?; apply lives_same_dead|done|done]. }
  apply Hfr; [steps_tac|intros _]. apply Hfr; [steps_tac|intros regs].
  apply Hfr; [steps_tac|intros _]. apply Hfr; [steps_tac|intros st].
  destruct (decide (st = PS_RUNNING)) as [->|Hst].
  - apply (steps_from_then fate); [by apply fate_set_state_live|intros _]. steps_tac.
  - intros s _. unfold mbind at 1, st_bind at 1. destruct (setf p_state child st s) as [[] s1|e s1|x] eqn:E.
    + unfold mbind at 1, st_bind at 1. by rewrite bool_decide_false.
    + unfold setf, wr, mbind, st_bind, get_ in E. cbn in E. by destruct (procs s !! child).
    + done.
Qed.
#[export] Hint Resolve fate_proc_fork : kernel.

Section callbacks.
Context `{F : KFwd} `{!FwdKeeps fate F}.

Lemma fate_finish_short r ret : steps fate (vfsreq_finish_short r ret).
Proof. unfold vfsreq_finish_short. auto with kernel. Qed.
Hint Resolve fate_finish_short : kernel.

Lemma fate_handle_close h : steps fate (handle_close h).
Proof. unfold handle_close. steps_tac. Qed.
Hint Resolve fate_handle_close : kernel.

Lemma fate_proc_handle_dup p from to flags : steps fate (proc_handle_dup p from to flags).
Proof. unfold proc_handle_dup, dup_to. steps_tac. Qed.
Hint Resolve fate_proc_handle_dup : kernel.

Lemma fate_proc_handle_close p h : steps fate (proc_handle_close p h).
Proof. unfold proc_handle_close. steps_tac. Qed.
Lemma fate_proc_handle_put p h : steps fate (proc_handle_put p h).
Proof. unfold proc_handle_put. steps_tac. Qed.
Lemma sd_kfree_buf b : steps same_dead (kfree_buf b).
Proof. unfold kfree_buf. steps_tac. Qed.
Hint Resolve fate_proc_handle_close fate_proc_handle_put sd_kfree_buf : kernel.

Lemma fate_vfs_mount_remref m : steps fate (vfs_mount_remref m).
Proof. unfold vfs_mount_remref. steps_tac. Qed.
Lemma sd_vfs_mount_resolve top path : steps same_dead (vfs_mount_resolve top path).
Proof. unfold vfs_mount_resolve, resolve_turn. steps_tac. Qed.
Hint Resolve fate_vfs_mount_remref sd_vfs_mount_resolve : kernel.

(** Death *)
Lemma fate_kill_controlled p : steps fate (kill_controlled p).
Proof. unfold kill_controlled. steps_tac. Qed.
Lemma fate_kill_reqslot p : steps fate (kill_reqslot p).
Proof. unfold kill_reqslot. steps_tac. Qed.
Lemma fate_kill_pipe p : steps fate (kill_pipe p).
Proof. unfold kill_pipe. steps_tac. Qed.
Lemma fate_kill_handles p : steps fate (kill_handles p).
Proof. unfold kill_handles. steps_tac. Qed.
Lemma fate_kill_children p : steps fate (kill_children p).
Proof. unfold kill_children. steps_tac. Qed.
Lemma fate_kill_memory p : steps fate (kill_memory p).
Proof. unfold kill_memory. steps_tac. Qed.
Hint Resolve fate_kill_controlled fate_kill_reqslot fate_kill_pipe fate_kill_handles
  fate_kill_children fate_kill_memory : kernel.
(** A sleeper is woken first; then [p] is up. *)
Lemma fate_wake_first p (m : K ()) :
  steps_from fate (up p) m ->
  steps fate (waits ← state_is p PS_WAITS4TIMER;
              (if (waits : bool) then timer_deschedule p else mret ());; m).
Proof.
  intros Hm. apply steps_ok.
  apply (steps_from_bind fate _ (fun b s => timer_ok s /\ (b = false -> ~ asleep s p))).
  - auto with kernel.
  - intros s b s' Hs E. apply bind_val in E as (st&s1&E1&E2). apply getf_val in E1 as [-> (x&Hx&->)].
    injection E2 as <- <-. split; [done|]. intros Hb Ha. apply bool_decide_eq_false in Hb.
    unfold asleep, state_at in Ha. change (procs s !! p = Some x) in Hx. rewrite Hx in Ha.
    injection Ha as Ha. done.
  - intros waits. apply (steps_from_bind fate _ (fun _ => up p)); [|intros s [] s' [Hs Ha] E|done].
    + destruct waits; auto with kernel.
    + destruct waits.
      * split; [|by eapply deschedule_awake]. pose proof (fate_timer_deschedule p s) as H.
        rewrite E in H. by apply H.
      * injection E as <-. split; auto.
Qed.

Lemma fate_kill_alive p ret : steps fate (kill_alive p ret).
Proof.
  unfold kill_alive. do 3 (apply steps_bind; [exact _|auto with kernel|intros _]).
  apply fate_wake_first.
  do 5 (apply up_bind; [solve [steps_tac]|intros]).
  apply up_bind_from; [by apply fate_setstate_up|intros _].
  apply up_bind_from; [apply fate_saved_up|intros _].
  apply steps_from_steps. steps_tac.
Qed.
Hint Resolve fate_kill_alive : kernel.
Lemma fate_proc_kill p ret : steps fate (proc_kill p ret).
Proof.
  unfold proc_kill, shutdown. steps_tac. apply fate_setstate_dead; by case_match.
Qed.
Hint Resolve fate_proc_kill : kernel.

Lemma fate_proc_tryintr p : steps fate (proc_tryintr p).
Proof. unfold proc_tryintr. steps_tac. Qed.
Hint Resolve fate_proc_tryintr : kernel.
Lemma fate_proc_intr p buf : steps fate (proc_intr p buf).
Proof. unfold proc_intr. steps_tac. Qed.
Hint Resolve fate_proc_intr : kernel.

Lemma aging_proc_switch_loop : steps aging proc_switch_loop.
Proof. unfold proc_switch_loop, pick_running, cur_running, pagedir_switch. steps_tac. Qed.
Hint Resolve aging_proc_switch_loop : kernel.
Lemma aging_proc_switch_any : steps aging proc_switch_any.
Proof. unfold proc_switch_any. steps_tac. Qed.
Hint Resolve aging_proc_switch_any : kernel.

(** Drivers *)
Lemma fate_req_readcopy req buf len : steps fate (req_readcopy req buf len).
Proof. unfold req_readcopy, req_readcopy_from. steps_tac. Qed.
Lemma fate_req_readcopy_phys req a len : steps fate (req_readcopy_phys req a len).
Proof. unfold req_readcopy_phys, req_readcopy_from. steps_tac. Qed.
Hint Resolve fate_req_readcopy fate_req_readcopy_phys : kernel.
Lemma sd_reqpathcmp r path : steps same_dead (reqpathcmp r path).
Proof. unfold reqpathcmp. steps_tac. Qed.
Lemma sd_input_user r : steps same_dead (input_user r).
Proof. unfold input_user. steps_tac. Qed.
Lemma sd_pq_get q : steps same_dead (pq_get q).
Proof. unfold pq_get. steps_tac. Qed.
Lemma sd_pq_set q v : steps same_dead (pq_set q v).
Proof. unfold pq_set. steps_tac. Qed.
Lemma sd_ring_of q : steps same_dead (ring_of q).
Proof. unfold ring_of. steps_tac. Qed.
Lemma sd_set_ring q v : steps same_dead (set_ring q v).
Proof. unfold set_ring. steps_tac. Qed.
Hint Resolve sd_reqpathcmp sd_input_user sd_pq_get sd_pq_set sd_ring_of sd_set_ring : kernel.
Lemma sd_postqueue_join q r : steps same_dead (postqueue_join q r).
Proof. unfold postqueue_join, pq_last. steps_tac. Qed.
Lemma fate_ringread_one tmp m r : steps fate (ringread_one tmp m r).
Proof. unfold ringread_one. steps_tac. Qed.
Hint Resolve sd_postqueue_join fate_ringread_one : kernel.
Lemma fate_postqueue_ringreadall q : steps fate (postqueue_ringreadall q).
Proof. unfold postqueue_ringreadall, each_posted. steps_tac. Qed.
Hint Resolve fate_postqueue_ringreadall : kernel.

Lemma fate_ps2_irq input : steps fate (ps2_irq input).
Proof. induction input as [|[st d] input IH]; cbn [ps2_irq]; steps_tac. Qed.
Lemma fate_serial_irq d : steps fate (serial_irq d).
Proof. unfold serial_irq. steps_tac. Qed.
Hint Resolve fate_ps2_irq fate_serial_irq : kernel.

Lemma fate_fsroot_accept r : steps fate (fsroot_accept r).
Proof.
  unfold fsroot_accept, fsroot_handle, dev_listing, get_dev, vfs_mount_seed. steps_tac.
Qed.
Lemma fate_ps2_accept r : steps fate (ps2_accept r).
Proof. unfold ps2_accept. steps_tac. Qed.
Lemma fate_serial_accept r : steps fate (serial_accept r).
Proof. unfold serial_accept, serial_write. steps_tac. Qed.
Lemma fate_video_accept r : steps fate (video_accept r).
Proof. unfold video_accept, video_handle. steps_tac. Qed.
Lemma sd_rx_irq_enable v : steps same_dead (rx_irq_enable v).
Proof. unfold rx_irq_enable, set_eth. steps_tac. Qed.
Lemma sd_try_rx p d l : steps same_dead (try_rx p d l).
Proof. unfold try_rx, set_eth. steps_tac. Qed.
Lemma sd_try_tx p a l : steps same_dead (try_tx p a l).
Proof. unfold try_tx, set_eth. steps_tac. Qed.
Hint Resolve sd_rx_irq_enable sd_try_rx sd_try_tx : kernel.
Lemma fate_rtl8139_accept r : steps fate (rtl8139_accept r).
Proof. unfold rtl8139_accept. steps_tac. Qed.
Hint Resolve fate_rtl8139_accept : kernel.
Lemma fate_rtl8139_irq st : steps fate (rtl8139_irq st).
Proof. unfold rtl8139_irq, postqueue_pop. steps_tac. Qed.
Hint Resolve fate_rtl8139_irq : kernel.
Hint Resolve fate_fsroot_accept fate_ps2_accept fate_serial_accept fate_video_accept : kernel.

Lemma sd_openpath path root : steps same_dead (openpath path root).
Proof. unfold openpath. steps_tac. Qed.
Lemma sd_findgid g root : steps same_dead (findgid g root).
Proof. unfold findgid. steps_tac. Qed.
Lemma fate_procfs_readdir r root t : steps fate (procfs_readdir r root t).
Proof. unfold procfs_readdir, list_processes. steps_tac. Qed.
Lemma fate_procfs_readmem r p x : steps fate (procfs_readmem r p x).
Proof. unfold procfs_readmem. steps_tac. Qed.
Lemma fate_procfs_writeintr r p t x : steps fate (procfs_writeintr r p t x).
Proof. unfold procfs_writeintr, each_next. steps_tac. Qed.
Hint Resolve sd_openpath sd_findgid fate_procfs_readdir fate_procfs_readmem
  fate_procfs_writeintr : kernel.
Lemma fate_procfs_accept r : steps fate (procfs_accept r).
Proof. unfold procfs_accept. steps_tac. Qed.
Hint Resolve fate_procfs_accept : kernel.
Lemma fate_call_accept f r : steps fate (call_accept f r).
Proof. destruct f; cbn; auto with kernel. Qed.
Hint Resolve fate_call_accept : kernel.

(** Requests *)
Lemma sd_awaited_req_of p : steps same_dead (awaited_req_of p).
Proof. unfold awaited_req_of. steps_tac. Qed.
Lemma sd_accept_input r b m hp : steps same_dead (accept_input r b m hp).
Proof. unfold accept_input. steps_tac. Qed.
Hint Resolve sd_awaited_req_of sd_accept_input : kernel.

Lemma fate_finish_open r stored ret flags h : steps fate (finish_open r stored ret flags h).
Proof. unfold finish_open. steps_tac. Qed.
Hint Resolve fate_finish_open : kernel.

Lemma sd_finish_caller c ret :
  steps same_dead (assert_state c PS_WAITS4FS;; regs_savereturn c ret;;
                   proc_setstate c PS_RUNNING).
Proof. apply sd_after_assert; [done|]. live_steps. Qed.
Hint Resolve sd_finish_caller : kernel.

Lemma fate_vfsreq_finish r stored ret flags h : steps fate (vfsreq_finish r stored ret flags h).
Proof. unfold vfsreq_finish. steps_tac. Qed.

Lemma sd_vfs_backend_user_accept r : steps same_dead (vfs_backend_user_accept r).
Proof.
  unfold vfs_backend_user_accept.
  do 5 (apply steps_bind; [exact _|solve [steps_tac]|intros]).
  apply sd_after_assert; [done|]. live_steps.
Qed.
Hint Resolve sd_vfs_backend_user_accept : kernel.

Lemma fate_vfs_backend_tryaccept b : steps fate (vfs_backend_tryaccept b).
Proof. unfold vfs_backend_tryaccept. steps_tac. Qed.
Lemma sd_alloc_request r : steps same_dead (alloc_request r).
Proof. unfold alloc_request. steps_tac. Qed.
Lemma sd_enqueue b r : steps same_dead (enqueue b r).
Proof. unfold enqueue, queue_last. steps_tac. Qed.
Hint Resolve fate_vfs_backend_tryaccept sd_alloc_request sd_enqueue : kernel.
Lemma fate_vfsreq_create r : steps fate (vfsreq_create r).
Proof. unfold vfsreq_create. steps_tac. Qed.

Lemma fate_drain_queue b : steps fate (drain_queue b).
Proof. unfold drain_queue. steps_tac. Qed.
Lemma sd_release_users b : steps same_dead (release_users b).
Proof.
  unfold release_users. apply steps_bind; [exact _|auto with kernel|intros [[p|]|f [|] d]].
  - apply steps_bind; [exact _|auto with kernel|intros _].
    apply sd_after_assert; [done|]. live_steps.
  - auto with kernel.
  - unfold procfs_cleanup. steps_tac.
  - auto with kernel.
Qed.
Hint Resolve fate_drain_queue sd_release_users : kernel.
Lemma fate_vfs_backend_refdown b use : steps fate (vfs_backend_refdown b use).
Proof. unfold vfs_backend_refdown. steps_tac. Qed.

(** System calls *)
Lemma sd_current : steps same_dead current.
Proof. unfold current. steps_tac. Qed.
Hint Resolve sd_current : kernel.
Lemma sd_SYSCALL_RETURN v : steps same_dead (SYSCALL_RETURN v).
Proof. unfold SYSCALL_RETURN. steps_tac. Qed.
Lemma sd_kmalloc_from_user c a l : steps same_dead (kmalloc_from_user c a l).
Proof. unfold kmalloc_from_user. steps_tac. Qed.
Lemma sd_simplify_in_place b l : steps same_dead (simplify_in_place b l).
Proof. unfold simplify_in_place. steps_tac. Qed.
Lemma sd_strip_prefix b n l : steps same_dead (strip_prefix b n l).
Proof. unfold strip_prefix. steps_tac. Qed.
Hint Resolve sd_SYSCALL_RETURN sd_kmalloc_from_user sd_simplify_in_place sd_strip_prefix : kernel.

Lemma fate__sys_fork flags a : steps fate (_sys_fork flags a).
Proof. unfold _sys_fork. steps_tac. Qed.
Lemma fate__sys_open a l f : steps fate (_sys_open a l f).
Proof. unfold _sys_open. steps_tac. Qed.
Lemma fate__sys_mount h a l : steps fate (_sys_mount h a l).
Proof. unfold _sys_mount. steps_tac. Qed.
Lemma fate_simple_vfsop op h b l o f : steps fate (simple_vfsop op h b l o f).
Proof. unfold simple_vfsop. steps_tac. Qed.
Lemma fate__sys_remove h : steps fate (_sys_remove h).
Proof. unfold _sys_remove. steps_tac. Qed.
(** Its union is set when it sleeps. *)
Lemma fate_sleep_saved p st u (m : K ()) (f : () -> K ()) :
  sleeping st = true -> steps fate m -> (forall a, steps fate (f a)) ->
  steps fate (proc_setstate p st;; m;; setf p_saved p u ≫= f).
Proof.
  intros Hst Hm Hf. apply (fate_then_up p).
  - apply (steps_mono same_dead); [exact same_dead_fate|by apply sd_setstate_sleep].
  - intros s a s' _. apply setstate_awake. by intros ->.
  - intros _. apply up_bind; [done|intros _]. apply up_bind_from; [apply fate_saved_up|intros a].
    by apply steps_from_steps.
Qed.

Lemma fate__sys_fs_wait b m r : steps fate (_sys_fs_wait b m r).
Proof.
  unfold _sys_fs_wait. do 2 (apply steps_bind; [exact _|auto with kernel|intros]).
  case_match; [|auto with kernel]. apply steps_bind; [exact _|auto with kernel|intros].
  case_match; [auto with kernel|].
  apply fate_sleep_saved; [done|steps_tac|intros; steps_tac].
Qed.
Lemma fate__sys_fs_respond h b r f : steps fate (_sys_fs_respond h b r f).
Proof. unfold _sys_fs_respond, respond_read. steps_tac. Qed.
Lemma fate__sys_pipe a f : steps fate (_sys_pipe a f).
Proof. unfold _sys_pipe. steps_tac. Qed.
Lemma fate_intr_all c b : steps fate (intr_all c b).
Proof. unfold intr_all. steps_tac. Qed.
Hint Resolve fate__sys_fork fate__sys_open fate__sys_mount fate_simple_vfsop fate__sys_remove
  fate__sys_fs_wait fate__sys_fs_respond fate__sys_pipe fate_intr_all : kernel.

(** [_sys_wait2] wakes the caller itself only if no child was reaped. *)
Lemma fate_reap_children c : steps fate (reap_children c).
Proof. unfold reap_children. steps_tac. Qed.
Hint Resolve fate_reap_children : kernel.

Lemma getp_val {A} (f : kstate -> A) s a s' : getp f s = Val a s' -> s' = s /\ a = f s.
Proof. by intros [= <- <-]. Qed.

Lemma reap_children_none c s s' : reap_children c s = Val false s' -> s' = s.
Proof.
  intros H. apply bind_val in H as (first&s1&H1&H2).
  apply getf_val in H1 as [-> _]. apply bind_val in H2 as (n&s2&H2&H3).
  injection H2 as _ <-. clear -H3. revert H3.
  assert (Hgen : forall it acc s1, iter n (fun '(it, has_children) =>
      match it with
      | None => mret (inr has_children)
      | Some c =>
          noreap ← getf p_noreap c;
          has ← (if (noreap : bool) then mret has_children
                 else
                   toreap ← state_is c PS_TOREAP;
                   (if (toreap : bool) then proc_tryreap c else mret ());;
                   mret true);
          next ← getf p_sibling c;
          mret (inl (next, has))
      end) (it, acc) s1 = Val false s' -> acc = false /\ s' = s1).
  { induction n as [|n IH]; intros it acc s1 H; [discriminate|].
    apply bind_val in H as (x&s2&Hb&H). destruct it as [k|].
    - apply bind_val in Hb as (noreap&s3&Hg&Hb). apply getf_val in Hg as [-> _].
      destruct noreap.
      + apply bind_val in Hb as (has&s4&Hr&Hb). injection Hr as <- <-.
        apply bind_val in Hb as (next&s5&Hg&Hb). apply getf_val in Hg as [-> _].
        injection Hb as <- <-. by apply IH in H.
      + apply bind_val in Hb as (has&s4&Hr&Hb).
        apply bind_val in Hr as (t&s6&_&Hr). apply bind_val in Hr as (u&s7&_&Hr).
        injection Hr as <- <-. apply bind_val in Hb as (next&s5&Hg&Hb).
        injection Hb as <- <-. by apply IH in H as [? _].
    - injection Hb as <- <-. by injection H as <- <-. }
  intros H. by apply Hgen in H as [_ ->].
Qed.

Lemma fate_live_bind p {A B} (m : K A) (f : A -> K B) :
  steps_from same_dead (lives p) m -> (forall a, steps_from fate (lives p) (f a)) ->
  steps_from fate (lives p) (m ≫= f).
Proof.
  intros Hm Hf s Hs. unfold mbind, st_bind. specialize (Hm s Hs).
  destruct (m s) as [a s'|e s'|x] eqn:E; [|by apply same_dead_fate|done].
  specialize (Hf a s' (lives_same_dead _ _ _ Hs Hm)). apply same_dead_fate in Hm.
  destruct (f a s'); [by etrans|by etrans|done].
Qed.

Lemma fate__sys_wait2 pid flags out : steps fate (_sys_wait2 pid flags out).
Proof.
  unfold _sys_wait2. destruct (negb (flags =? 0)); [auto with kernel|].
  apply steps_bind; [exact _|auto with kernel|intros cur]. intros s.
  apply (steps_from_bind fate (fun _ => True) (fun _ => lives cur)); try done.
  { auto with kernel. }
  { intros s1 a s2 _ E. rewrite proc_setstate_split in E.
    apply bind_val in E as (u&s3&Hc&Hs).
    pose proof (sleeping_checks cur PS_WAITS4CHILDDEATH _ _ _ eq_refl Hc) as Hl.
    pose proof (sd_set_state_live cur PS_WAITS4CHILDDEATH eq_refl s3 Hl) as Hk.
    rewrite Hs in Hk. by eapply lives_same_dead. }
  intros _. apply fate_live_bind; [apply sd_saved_live|intros _].
  apply (steps_from_bind fate _ (fun b s => b = false -> lives cur s)).
  { auto with kernel. }
  { intros s1 b s2 Hl E Hb. subst b. apply reap_children_none in E. subst s2. exact Hl. }
  intros [|] s1 Hl; cbn [negb]; [change (fate s1 s1); reflexivity|].
  specialize (Hl eq_refl). revert s1 Hl.
  apply (steps_from_then fate); [|intros; auto with kernel].
  intros s1 Hl. pose proof (sd_setstate_running cur s1 Hl) as H1.
  destruct (proc_setstate cur PS_RUNNING s1); [by apply same_dead_fate..|done].
Qed.
Hint Resolve fate__sys_wait2 : kernel.

Lemma sd_procfs_backend p : steps same_dead (procfs_backend p).
Proof. unfold procfs_backend. steps_tac. Qed.
Hint Resolve sd_procfs_backend : kernel.
Lemma fate__sys_getprocfs f : steps fate (_sys_getprocfs f).
Proof. unfold _sys_getprocfs. steps_tac. Qed.
Lemma fate__sys_memflag a l f : steps fate (_sys_memflag a l f).
Proof. unfold _sys_memflag. steps_tac. Qed.
Lemma fate__sys_execbuf a l : steps fate (_sys_execbuf a l).
Proof. unfold _sys_execbuf. steps_tac. Qed.
Lemma aging__sys_exit r : steps aging (_sys_exit r).
Proof. unfold _sys_exit. steps_tac. Qed.
Hint Resolve fate__sys_getprocfs fate__sys_memflag fate__sys_execbuf aging__sys_exit : kernel.

Lemma aging__syscall num a b c d e : steps aging (_syscall num a b c d e).
Proof.
  unfold _syscall, _sys_dup, _sys_read, _sys_write, _sys_getsize, _sys_close, _sys_sleep,
    _sys_intr, _sys_intr_set, _sys_getpid, _sys_getppid, _sys_time, _sys_debug_klog.
  steps_tac.
Qed.
Hint Resolve aging__syscall : kernel.

Lemma aging_halt p : steps aging (halt p).
Proof. unfold halt. steps_tac. Qed.
Lemma sd_try_fetch p n : steps same_dead (try_fetch p n).
Proof. unfold try_fetch. steps_tac. Qed.
Hint Resolve aging_halt sd_try_fetch : kernel.
Lemma aging_execbuf_turn p u : steps aging (execbuf_turn p u).
Proof. unfold execbuf_turn. steps_tac. Qed.
Hint Resolve aging_execbuf_turn : kernel.
Lemma aging_execbuf_run p : steps aging (execbuf_run p).
Proof. unfold execbuf_run. steps_tac. Qed.
End callbacks.
