(* ===== verification/Kernel.v ===== *)
(** * Kernel

    The kernel as a whole: the knot of the mutually recursive functions, system
    calls, faults and interrupts as the steps of a machine, and what holds of
    every run. *)

From S2P Require Import Prelude Monad Mem Malloc Paging KState Pcpy Proc Pipe Timer.
From S2P Require Import Handle Mount ProcLife Drivers Request Syscalls Fate.

(** The functions behind the prototypes, with calls nested [n] deep. *)
Fixpoint kfwd (n : nat) : KFwd :=
  match n with
  | O => kfwd_none
  | S n =>
      let F := kfwd n in {|
      fwd_vfsreq_create := @vfsreq_create F;
      fwd_vfsreq_finish := @vfsreq_finish F;
      fwd_vfs_backend_refdown := @vfs_backend_refdown F;
      fwd_execbuf_run := @execbuf_run F |}
  end.

(** [sysenter_stage2]: the registers are saved, the call runs, and some process
    is resumed. *)
Definition sysenter_stage2 `{KFwd} (regs : CpuRegs) : K () :=
  cur ← current;
  setf p_regs cur regs;;
  _syscall (rdi regs) (rsi regs) (rdx regs) (r10 regs) (r8 regs) (r9 regs);;
  proc_switch_any.

(** The end of [isr_stage3]: a fault in user mode kills the process. *)
Definition isr_user `{KFwd} (interrupt : Z) : K () :=
  cur ← current; proc_kill cur interrupt;; proc_switch_any.

(** The interrupts of the devices, with what their ports answer: the keyboard
    and mouse, the serial port, the timer and the network card. *)
Inductive irq :=
| IRQ_PS2 (input : list (Z * Z)) | IRQ_COM1 (data : Z) | IRQ_HPET | IRQ_RTL8139 (status : Z).

Definition irq_fn `{KFwd} (i : irq) : K () :=
  match i with
  | IRQ_PS2 input => ps2_irq input
  | IRQ_COM1 data => serial_irq data
  | IRQ_HPET => hpet_irq
  | IRQ_RTL8139 status => rtl8139_irq status
  end.

(** The machine.  A configuration says how the kernel was left.  User code runs
    with interrupts off and can at most change memory; a system call or a fault
    enters the kernel; an idle kernel is woken by an interrupt, after which the
    scheduling loop goes on.  The counter of the timer ticks at any time; frames
    arrive at the network card and it finishes sending. *)
Inductive kstep (n : nat) : kexit * kstate -> kexit * kstate -> Prop :=
| user_runs s a : kstep n (Sysexit, s) (Sysexit, s <| k_alloc := a |>)
| clock_ticks e s c : kstep n (e, s) (e, s <| hpet_counter := Some c |>)
| card_works e s rx own :
    kstep n (e, s) (e, s <| eth ::= fun x => x <| eth_rx := eth_rx x ++ rx |> <| eth_own := own |> |>)
| user_calls s regs e s' :
    @sysenter_stage2 (kfwd n) regs s = Exit e s' -> kstep n (Sysexit, s) (e, s')
| user_faults s i e s' :
    @isr_user (kfwd n) i s = Exit e s' -> kstep n (Sysexit, s) (e, s')
| device_irq s i e s' :
    (@irq_fn (kfwd n) i;; @proc_switch_loop (kfwd n)) s = Exit e s' ->
    kstep n (Idle, s) (e, s').

(** ** No return from the dead *)

#[export] Instance kfwd_keeps_fate n : FwdKeeps fate (kfwd n).
Proof.
  induction n as [|n IH]; split; intros; cbn.
  1-4: by apply steps_fail.
  - apply fate_vfsreq_create.
  - apply fate_vfsreq_finish.
  - apply fate_vfs_backend_refdown.
  - apply aging_execbuf_run.
Qed.

Lemma steps_exit_rel (R : kstate -> kstate -> Prop) {A} (m : K A) s e s' :
  steps R m -> m s = Exit e s' -> R s s'.
Proof. intros Hm E. specialize (Hm s). by rewrite E in Hm. Qed.

#[local] Hint Resolve sd_current : kernel.

Lemma kstep_aging n c c' : kstep n c c' -> aging c.2 c'.2.
Proof.
  intros H. destruct H as [s a|e s c|e s rx own|s regs e s' E|s i e s' E|s i e s' E]; cbn.
  1-3: apply fate_aging, same_dead_fate; keeps_procs.
  all: eapply steps_exit_rel; [|exact E].
  - unfold sysenter_stage2. apply steps_bind; [exact _|auto with kernel|intros cur].
    apply steps_bind; [exact _|auto with kernel|intros _].
    apply steps_bind; [exact _|apply aging__syscall|intros _]. apply aging_proc_switch_any.
  - unfold isr_user. apply steps_bind; [exact _|auto with kernel|intros cur].
    apply steps_bind; [exact _| |intros _]; [|apply aging_proc_switch_any].
    apply (steps_mono fate); [exact fate_aging|apply fate_proc_kill].
  - apply steps_bind; [exact _| |intros _; apply aging_proc_switch_loop].
    destruct i; cbn; [..|apply aging_hpet_irq|];
      (apply (steps_mono fate); [exact fate_aging|]);
      [apply fate_ps2_irq|apply fate_serial_irq|apply fate_rtl8139_irq].
Qed.

Lemma run_aging n c c' : rtc (kstep n) c c' -> aging c.2 c'.2.
Proof.
  induction 1 as [c|c1 c2 c3 H1 _ IH]; [reflexivity|].
  etrans; [by eapply kstep_aging|done].
Qed.

(** C1: no return from the dead.  In every run of the kernel - any system calls
    with any arguments, user faults, interrupts of the keyboard, the mouse, the
    serial port, the timer and the network card, whatever user code does to its
    memory, and whatever the kernel functions called back through file systems
    do - a process that is being killed, waits to be reaped, or is a tombstone
    or a dead leaf never becomes runnable or sleeping again: later its object is
    either gone or still in one of those states.  The run starts with the timer's
    list in order, as it is after booting ([Scenario.boot_timer_ok]), and ends
    with it in order: that no dead process is in it is what keeps the timer from
    waking one. *)
Theorem no_return_from_death n e s e' s' p x :
  timer_ok s -> rtc (kstep n) (e, s) (e', s') ->
  procs s !! p = Some x -> dead x = true ->
  timer_ok s' /\ match procs s' !! p with Some x' => dead x' = true | None => True end.
Proof.
  intros Hok Hrun Hx Hd. apply run_aging in Hrun. destruct (Hrun Hok) as (_&Hok'&H). cbn in *.
  split; [done|]. destruct (procs s' !! p) as [x'|] eqn:E; [|done].
  destruct (H p x' E) as [?|(y&Hy&Hyd)].
  - pose proof (proj2 Hok p ltac:(eauto)). lia.
  - simplify_eq. auto.
Qed.

(** ** A provider dies with work in its queue *)

(** The queue from [o] on: closes of files of the backend [b], whose handles
    are gone ([vfsreq_create] makes them for [handle_close]). *)
Fixpoint closes (s : kstate) (b : ptr) (o : option ptr) (l : list ptr) : Prop :=
  match l with
  | [] => o = None
  | r :: l =>
      o = Some r /\ exists q, reqs s !! r = Some q /\ r_type q = VFSOP_CLOSE /\
        r_input q = in_user 0 /\ r_caller q = None /\ r_backend q = Some b /\
        closes s b (r_queue_next q) l
  end.

Lemma closes_frame s s' b o l :
  (forall r, r ∈ l -> reqs s' !! r = reqs s !! r) -> closes s b o l -> closes s' b o l.
Proof.
  revert o; induction l as [|r l IH]; intros o Hf; cbn; [done|].
  intros (->&q&Hq&Ht&Hi&Hc&Hb&Hl). split; [done|]. exists q.
  rewrite Hf by (by left). split_and!; try done. apply IH; [|done].
  intros k Hk. apply Hf. by right.
Qed.

Definition orphaned (s : kstate) (b : ptr) (uses : Z) (q : option ptr) : Prop :=
  backends s !! b = Some (mkBackend uses 0 q (be_user None)).

(** Finishing one of them: one user less, and a panic with the last. *)
Lemma finish_close n s b uses r q :
  (exists r0, orphaned s b uses (Some r0)) -> 0 < uses ->
  reqs s !! r = Some q -> r_type q = VFSOP_CLOSE -> r_input q = in_user 0 ->
  r_caller q = None -> r_backend q = Some b ->
  @vfsreq_finish_short (kfwd (S (S n))) r (-1) s =
    if uses =? 1 then Fault Panic
    else Val () (s <| backends ::= alter (fun x => x <| b_usehcnt := uses - 1 |>) b |>
                   <| reqs ::= delete r |>).
Proof.
  intros [r0 Ho] Hu Hq Ht Hi Hc Hb. unfold orphaned in Ho.
  unfold vfsreq_finish_short. cbn [kfwd fwd_vfsreq_finish]. unfold vfsreq_finish.
  do 2 kaccess. rewrite Ht. cbn [bool_decide andb]. rewrite bool_decide_false by done. cbn [andb].
  do 6 kaccess. rewrite Ht, bool_decide_false by done. cbn [andb].
  do 4 kaccess. rewrite Hi. do 4 kaccess. rewrite Hb.
  cbn [fwd_vfs_backend_refdown]. unfold mbind at 1, st_bind at 1.
  set (s1 := s <| backends ::= <[b := mkBackend (uses - 1) 0 (Some r0) (be_user None)]> |>).
  assert (E : @vfs_backend_refdown (kfwd n) b true s =
    if uses =? 1 then Fault Panic else Val () s1).
  { unfold vfs_backend_refdown. apply bind_runs. do 2 kaccess.
    apply runs_bind. apply runs_assert; [by apply Z.ltb_lt|].
    eapply runs_wr; [exact Ho|]. change (set_store _ s) with s1.
    assert (Hs1 : backends s1 !! b = Some (mkBackend (uses - 1) 0 (Some r0) (be_user None)))
      by (unfold s1; cbn; by rewrite lookup_insert_eq).
    apply bind_runs. eapply runs_getf; [exact Hs1|]. cbn [b_provhcnt Z.eqb andb negb].
    do 2 kaccess. apply bind_runs. eapply runs_getf; [exact Hs1|]. cbn [b_usehcnt].
    rewrite andb_true_r. destruct (uses =? 1) eqn:E1.
    - apply Z.eqb_eq in E1. subst uses. cbn [Z.sub Z.eqb Z.add Z.pos_sub Z.opp].
      apply bind_runs. unfold release_users. apply runs_bind.
      eapply runs_getf; [exact Hs1|]. apply runs_ret.
      do 2 (apply bind_runs; eapply runs_getf; [exact Hs1|]).
      cbn [b_usehcnt b_provhcnt Z.eqb andb]. apply bind_runs.
      eapply runs_getf; [exact Hs1|]. done.
    - apply Z.eqb_neq in E1. rewrite (proj2 (Z.eqb_neq (uses - 1) 0)) by lia.
      do 2 kaccess. do 2 (apply bind_runs; eapply runs_getf; [exact Hs1|]).
      cbn [b_usehcnt b_provhcnt]. rewrite (proj2 (Z.eqb_neq (uses - 1) 0)) by lia. done. }
  rewrite E. destruct (uses =? 1); [done|].
  apply bind_runs. eapply runs_getf; [exact Hq|]. rewrite Hc.
  unfold del. apply bind_runs. eapply runs_rd; [exact Hq|]. unfold modify, s1.
  assert (Hm : <[b := mkBackend (uses - 1) 0 (Some r0) (be_user None)]> (backends s) =
    alter (fun x => x <| b_usehcnt := uses - 1 |>) b (backends s)).
  { apply map_eq. intros k. destruct (decide (b = k)) as [<-|].
    - by rewrite lookup_insert_eq, lookup_alter_eq, Ho.
    - by rewrite lookup_insert_ne, lookup_alter_ne. }
  unfold set; cbn. by rewrite Hm.
Qed.

Lemma drain_closes n b q0 l : forall s o m,
  closes s b o l -> NoDup l -> l <> [] -> (length l < m)%nat ->
  orphaned s b (Z.of_nat (length l)) (Some q0) ->
  iter m (fun q =>
    match q with
    | None => mret (inr ())
    | Some r =>
        q2 ← getf r_queue_next r;
        @vfsreq_finish_short (kfwd (S (S n))) r (-1);;
        mret (inl q2)
    end) o s = Fault Panic.
Proof.
  induction l as [|r l IH]; intros s o m Hc Hn Hl Hm Ho; [done|].
  destruct m as [|m]; [cbn in Hm; lia|]. cbn in Hc. destruct Hc as (->&q&Hq&Ht&Hi&Hca&Hb&Hc).
  cbn [iter]. apply NoDup_cons in Hn as [Hr Hn].
  unfold mbind at 1, st_bind at 1.
  assert (E : (q2 ← getf r_queue_next r;
    @vfsreq_finish_short (kfwd (S (S n))) r (-1);; mret (inl (B := ()) q2)) s =
    if Z.of_nat (length (r :: l)) =? 1 then Fault Panic
    else Val (inl (r_queue_next q)) (s <| backends ::=
      alter (fun x => x <| b_usehcnt := Z.of_nat (length (r :: l)) - 1 |>) b |>
      <| reqs ::= delete r |>)).
  { do 2 kaccess. unfold mbind at 1, st_bind at 1.
    rewrite (finish_close n s b (Z.of_nat (length (r :: l))) r q); [|by eauto|cbn; lia|done..].
    by destruct (_ =? 1). }
  rewrite E. destruct l as [|r' l]; [done|].
  replace (Z.of_nat (length (r :: r' :: l)) =? 1) with false
    by (symmetry; apply Z.eqb_neq; cbn [length]; lia).
  apply IH; [|done|done|cbn in *; lia|].
  - eapply closes_frame; [|exact Hc]. intros k Hk. cbn. rewrite lookup_delete_ne; [done|].
    by intros ->.
  - replace (Z.of_nat (length (r :: r' :: l)) - 1) with (Z.of_nat (length (r' :: l)))
      by (cbn [length]; lia).
    unfold orphaned in *. cbn [set backends]. by rewrite lookup_alter_eq, Ho.
Qed.

(** C34: a file system whose last provider goes while every remaining use of it is
    a close that still waits in its queue - nobody else has a file of it open or
    mounts it - panics the kernel.  [vfs_backend_refdown] fails the queued requests one by
    one, each drops a use of the backend, and with the last one the backend is
    freed by a nested call, whose assertion that the queue is empty fails: the
    queue is only reset after the loop. *)
Theorem provider_exit_panics n s b l q0 :
  backends s !! b = Some (mkBackend (Z.of_nat (length l)) 1 (Some q0) (be_user None)) ->
  closes s b (Some q0) l -> NoDup l ->
  @vfs_backend_refdown (kfwd (S (S n))) b false s = Fault Panic.
Proof.
  intros Hb Hc Hn. unfold vfs_backend_refdown.
  set (s1 := s <| backends ::= <[b := mkBackend (Z.of_nat (length l)) 0 (Some q0) (be_user None)]> |>).
  assert (Hs1 : backends s1 !! b =
    Some (mkBackend (Z.of_nat (length l)) 0 (Some q0) (be_user None)))
    by (unfold s1; cbn; by rewrite lookup_insert_eq).
  apply bind_runs. do 2 kaccess. apply runs_bind. apply runs_assert; [done|].
  eapply runs_wr; [exact Hb|]. change (set_store _ s) with s1.
  apply bind_runs. eapply runs_getf; [exact Hs1|]. cbn [b_provhcnt Z.eqb andb negb].
  unfold mbind at 1, st_bind at 1. unfold drain_queue.
  assert (E : (q ← getf b_queue b;
    n0 ← gets req_count;
    iter n0 (fun q => match q with
      | None => mret (inr ())
      | Some r => q2 ← getf r_queue_next r;
          @vfsreq_finish_short (kfwd (S (S n))) r (-1);; mret (inl q2)
      end) q;; setf b_queue b None) s1 = Fault Panic); [|by rewrite E].
  apply bind_runs. eapply runs_getf; [exact Hs1|]. do 2 kaccess. cbn [b_queue].
  unfold mbind at 1, st_bind at 1.
  rewrite (drain_closes n b q0 l); [done|by apply (closes_frame s)|done| | |done].
  - intros ->. cbn in Hc. congruence.
  - unfold req_count. apply Nat.lt_succ_r.
    rewrite <- (size_list_to_set (C := gset ptr) l Hn), <- (size_dom (D := gset ptr) (reqs s1)).
    apply subseteq_size. intros r Hr%elem_of_list_to_set. apply elem_of_dom.
    clear -Hc Hr. revert Hc. generalize (Some q0). induction l as [|k l IH]; intros o Hc;
      [by apply elem_of_nil in Hr|]. cbn in Hc. destruct Hc as (->&q&Hq&_&_&_&_&Hc).
    apply elem_of_cons in Hr as [->|Hr]; [eauto|by eapply IH].
Qed.
