(* ===== verification/Scenario.v ===== *)
(** * Scenario

    Boot ([kmain_early] of [src/src/kernel/arch/amd64/boot.c]) and scripts of
    events, to run the kernel on concrete inputs: the runs are runs of the
    machine of [Kernel].  The witnesses of the theorems about whole runs, and
    the demonstrations of what goes wrong, are scripts. *)

From Stdlib Require Import String.
From S2P Require Import Setup.
From S2P Require Import Prelude Monad Mem Malloc Paging KState Pcpy Proc Pipe Timer.
From S2P Require Import Handle Mount ProcLife Drivers Request Syscalls Fate Kernel.

(** What the boot loader and the hardware tell the kernel. *)
Record boot_info := mkBoot {
  mem_upper : Z;
  framebuffer : GfxInfo;
  fb_name : list Z;
  mod_start : Z;
  mod_len : Z;
  shared_len : Z;
  com1_exists : bool;
  eth_exists : bool;                   (* the PCI scan finds the network card *)
}.

(** What [kmain_early] makes of the tags of the boot loader; [shared_len] is the
    linker's, and the serial port and the network card were looked for. *)
Definition boot_info_of (t : boot_tags) (shared : Z) (com1 eth : bool) : res boot_info :=
  name ← video_name (t_width t) (t_height t) (t_bpp t);
  Ok {| mem_upper := t_mem_upper t;
        framebuffer := mkGfx (t_fb_addr t) (u32 (t_pitch t * t_height t));
        fb_name := name;
        mod_start := t_mod_start t; mod_len := u32 (t_mod_end t - t_mod_start t);
        shared_len := shared; com1_exists := com1; eth_exists := eth |}.

(** The drivers that are modelled register themselves in the order of
    [kmain_early]. *)
Definition kmain_early `{KFwd} (b : boot_info) : K () :=
  on_alloc (mem_init (u32 (mem_upper b * 1024)));;
  on_alloc (mem_reserve (fb_b (framebuffer b)) (fb_size (framebuffer b)));;
  on_alloc (mem_reserve (mod_start b) (mod_len b));;
  vfs_root_init;;
  vfs_root_register (str "/dev/ps2/") ps2_accept_fn;;
  when (com1_exists b) (vfs_root_register (str "/dev/com1") serial_accept_fn);;
  setp fb (framebuffer b);;
  setp namebuf (fb_name b);;
  vfs_root_register (str "/dev/video/") video_accept_fn;;
  when (eth_exists b) (vfs_root_register (str "/dev/eth") rtl8139_accept_fn);;
  _ ← proc_seed (shared_len b) (mod_start b) (mod_len b);
  proc_switch_any.

(** ** The timer's list at boot *)

Lemma fate_vfs_root_register path f : steps fate (vfs_root_register path f).
Proof. unfold vfs_root_register. steps_tac. Qed.
#[local] Hint Resolve fate_vfs_root_register : kernel.

(** The first process is set up as a running one. *)
Lemma fate_proc_seed shared data len : steps fate (proc_seed shared data len).
Proof.
  unfold proc_seed. do 2 (apply steps_bind; [exact _|auto with kernel|intros]). intros s.
  apply (steps_from_bind fate (fun _ => True) (fun p => lives p)); [auto with kernel| |intros p|exact I].
  { intros s0 c s1 _ E. cbn in E. injection E as <- <-.
    eapply lives_of_state; [cbn; by rewrite lookup_insert_eq|done]. }
  apply (steps_from_frame fate same_dead);
    [exact same_dead_fate|intros ? ?; apply lives_same_dead|auto with kernel|intros _].
  apply (steps_from_then fate); [by apply fate_set_state_live|intros _].
  unfold map_range, vfs_mount_seed. steps_tac.
Qed.

Lemma aging_kmain_early n b : steps aging (@kmain_early (kfwd n) b).
Proof.
  unfold kmain_early, vfs_root_init. assert (Hf : forall A (m : K A), steps fate m -> steps aging m)
    by (intros A m; apply steps_mono; exact fate_aging).
  do 10 (apply steps_bind; [exact _|solve [apply Hf; steps_tac]|intros _]).
  apply steps_bind; [exact _|apply Hf, fate_proc_seed|intros _]. apply aging_proc_switch_any.
Qed.

(** Nobody sleeps when the machine is switched on; the list is in order ever
    after. *)
Lemma boot_timer_ok n b s0 e s e' s' :
  procs s0 = ∅ -> scheduled s0 = None ->
  @kmain_early (kfwd n) b s0 = Exit e s -> rtc (kstep n) (e, s) (e', s') -> timer_ok s'.
Proof.
  intros Hp Hs E Hrun. pose proof (aging_kmain_early n b s0) as H. rewrite E in H.
  assert (Hok : timer_ok s0).
  { split; [exists []; by split; repeat constructor|]. intros p [x Hx].
    by rewrite Hp, lookup_empty in Hx. }
  apply run_aging in Hrun. by apply Hrun, H.
Qed.

(** ** Scripts *)

Inductive event :=
| Call (num a b c d e : Z)             (* a system call of the current process *)
| Store (virt : Z) (data : list Z)     (* a store of the current process *)
| Irq (i : irq)
| Tick (now : Z).

(** The registers of the current process. *)
Definition cur_regs : K CpuRegs := cur ← current; getf p_regs cur.

Definition call_regs (r : CpuRegs) (num a b c d e : Z) : CpuRegs :=
  r <| rdi := num |> <| rsi := a |> <| rdx := b |> <| r10 := c |> <| r8 := d |> <| r9 := e |>.

Definition leave (o : outcome kstate kexit ()) : res (kexit * kstate) :=
  match o with
  | Exit e s => Ok (e, s)
  | Val _ _ => Err Undefined
  | Fault x => Err x
  end.

(** A store goes through the page tables of the current process. *)
Definition user_store (virt : Z) (data : list Z) : K () :=
  cur ← current;
  pages ← getf p_pages cur;
  on_alloc (phys ← pagedir_virt2phys pages virt true true;
            (if phys =? 0 then fail Undefined
            else modify (fun a => set_heap (write_bytes (heap a) phys data) a)) : M ()).

Definition exec (n : nat) (ev : event) (c : kexit * kstate) : res (kexit * kstate) :=
  let s := c.2 in
  match ev, c.1 with
  | Tick now, e => Ok (e, s <| hpet_counter := Some now |>)
  | Store v l, Sysexit =>
      match user_store v l s with
      | Val _ s' => Ok (Sysexit, s <| k_alloc := k_alloc s' |>)
      | _ => Err Undefined
      end
  | Call num a b c d e, Sysexit =>
      match cur_regs s with
      | Val r _ => leave (@sysenter_stage2 (kfwd n) (call_regs r num a b c d e) s)
      | _ => Err Undefined
      end
  | Irq i, Idle => leave ((@irq_fn (kfwd n) i;; @proc_switch_loop (kfwd n) : K ()) s)
  | _, _ => Err Undefined
  end.

Definition exec_all (n : nat) (l : list event) (c : kexit * kstate) : res (kexit * kstate) :=
  foldl (fun r ev => c ← r; exec n ev c) (Ok c) l.

Lemma leave_ok o e s : leave o = Ok (e, s) -> o = Exit e s.
Proof. destruct o; cbn; [done|by intros [= -> ->]|done]. Qed.

Lemma exec_kstep n ev c c' : exec n ev c = Ok c' -> kstep n c c'.
Proof.
  destruct c as [e s], ev; unfold exec; cbn [fst snd]; intros H.
  - destruct e; try discriminate. destruct (cur_regs s); try discriminate.
    destruct c' as [e' s']. apply leave_ok in H. by eapply user_calls.
  - destruct e; try discriminate. destruct (user_store virt data s); try discriminate.
    injection H as <-. constructor.
  - destruct e; try discriminate. destruct c' as [e' s']. apply leave_ok in H.
    by eapply device_irq.
  - injection H as <-. constructor.
Qed.

Lemma foldl_err n l x :
  foldl (fun r ev => c ← r; exec n ev c) (Err x) l = Err (A := kexit * kstate) x.
Proof. by induction l. Qed.

Lemma exec_all_run n l c c' : exec_all n l c = Ok c' -> rtc (kstep n) c c'.
Proof.
  unfold exec_all. revert c; induction l as [|ev l IH]; intros c H; cbn in H.
  - injection H as ->. constructor.
  - destruct (exec n ev c) as [c1|x] eqn:E; cbn in H; [|by rewrite foldl_err in H].
    eapply rtc_l; [by eapply exec_kstep|by apply IH].
Qed.

(** ** A small machine *)

(** One megabyte above the first, the bitmap at its start; init is one page at
    [0x150000], mapped at [0x200000]. *)
Definition boot_small : boot_info :=
  mkBoot 2048 (mkGfx 0x1F0000 4096) (str "4x1x32") 0x150000 8192 4096 true false.

(** The tags it is booted with. *)
Lemma boot_small_tags :
  boot_info_of (mkBootTags 2048 0x1F0000 4096 4 1 32 0x150000 0x152000 0) 4096 true false = Ok boot_small.
Proof. vm_compute. done. Qed.

Definition alloc_small : alloc := mkAlloc 0x100000 [] 0 0 ∅.

(** How deep the kernel's functions may call back into each other. *)
Definition depth : nat := 12.

Definition switched_on : kstate :=
  kstate0 alloc_small <| hpet_counter := Some 1 |> <| hpet_period := 1000000 |>.

Definition booted : res (kexit * kstate) :=
  leave (@kmain_early (kfwd depth) boot_small switched_on).

Definition after (l : list event) : res (kexit * kstate) :=
  c ← booted; exec_all depth l c.

Definition buf_addr : Z := 0x200000.
Definition path_addr : Z := 0x200100.

(** [open(path)] *)
Definition open_file (path : string) : list event :=
  [Store path_addr (str path);
   Call _SYS_OPEN path_addr (Z.of_nat (List.length (str path))) 3 0 0].

(** What a script leads to, by evaluation. *)
Lemma booted_run e s : booted = Ok (e, s) -> @kmain_early (kfwd depth) boot_small switched_on = Exit e s.
Proof. apply leave_ok. Qed.

Lemma after_booted l e s :
  after l = Ok (e, s) -> exists e0 s0, booted = Ok (e0, s0) /\ exec_all depth l (e0, s0) = Ok (e, s).
Proof.
  unfold after. generalize booted. intros [[e0 s0]|x]; [|discriminate]. by exists e0, s0.
Qed.

Lemma after_timer_ok l e s : after l = Ok (e, s) -> timer_ok s.
Proof.
  intros (e0&s1&E%booted_run&Hr%exec_all_run)%after_booted.
  exact (boot_timer_ok depth boot_small switched_on e0 s1 e s eq_refl eq_refl E Hr).
Qed.

Lemma after_obs {A} (l : list event) (f : kstate -> A) v :
  match after l with Ok (_, s) => Some (f s) | Err _ => None end = Some v ->
  exists e s, after l = Ok (e, s) /\ f s = v.
Proof. destruct (after l) as [[e s]|]; [|done]. intros [= <-]. eauto. Qed.

Lemma after_run l1 l2 e1 s1 e2 s2 :
  after l1 = Ok (e1, s1) -> exec_all depth l2 (e1, s1) = Ok (e2, s2) ->
  rtc (kstep depth) (e1, s1) (e2, s2).
Proof. intros _. apply exec_all_run. Qed.

(** ** The scripts *)

Definition fork : event := Call _SYS_FORK 0 0 0 0 0.
Definition fork_fs : event := Call _SYS_FORK FORK_NEWFS 0 0 0 0.
Definition wait : event := Call _SYS_WAIT2 (-1) 0 0 0 0.
Definition exit : event := Call _SYS_EXIT 0 0 0 0 0.
Definition put_path (p : string) : event := Store path_addr (str p).
Definition mount (hid : Z) : event := Call _SYS_MOUNT hid path_addr 2 0 0.
Definition open (len : Z) : event := Call _SYS_OPEN path_addr len 0 0 0.
Definition fs_wait : event := Call _SYS_FS_WAIT buf_addr 100 0x200800 0 0.
Definition respond (hid ret : Z) : event := Call _SYS_FS_RESPOND hid buf_addr ret 0 0.
Definition read (hid : Z) : event := Call _SYS_READ hid buf_addr 10 0 0.
Definition key : event := Irq (IRQ_COM1 65).

(** A child exits while its parent waits for the serial port. *)
Definition child_exits : list event := open_file "/dev/com1" ++ [fork; read 1; exit].

Lemma no_return_from_death_witness :
  exists e s e' s' x, after child_exits = Ok (e, s) /\
    procs s !! 19%positive = Some x /\ p_state x = PS_TOREAP /\
    rtc (kstep depth) (e, s) (e', s') /\ e' = Sysexit /\
    match procs s' !! 19%positive with Some x' => dead x' = true | None => True end.
Proof.
  destruct (after_obs child_exits (fun s =>
    (procs s !! 19%positive ≫= (fun x => Some (p_state x)),
     match exec_all depth [Irq IRQ_HPET; Irq (IRQ_RTL8139 1); key; Call _SYS_GETPID 0 0 0 0 0] (Idle, s) with
     | Ok (Sysexit, _) => true | _ => false end))
    (Some PS_TOREAP, true)) as (e&s&E&H); [vm_compute; reflexivity|].
  injection H as H1 H3. apply bind_Some in H1 as (x&Hx&Hst). injection Hst as Hst.
  pose proof (after_timer_ok _ _ _ E) as Hok.
  assert (He : e = Idle).
  { enough (Some e = Some Idle) as [= ->] by done.
    transitivity (match after child_exits with Ok (e, _) => Some e | _ => None end);
      [by rewrite E|vm_compute; reflexivity]. }
  subst e. destruct (exec_all depth _ (Idle, s)) as [[e' s']|] eqn:E2; [|discriminate H3].
  destruct e'; try discriminate H3.
  exists Idle, s, Sysexit, s', x. split; [exact E|]. split; [exact Hx|]. split; [exact Hst|].
  assert (Hrun : rtc (kstep depth) (Idle, s) (Sysexit, s')) by (by eapply exec_all_run).
  split; [exact Hrun|]. split; [reflexivity|].
  apply (no_return_from_death depth Idle s Sysexit s' 19 x Hok Hrun Hx).
  unfold dead. by rewrite Hst.
Defined.

(** A worker mounts a file system its child provides, opens a file and exits.
    The close of the file stays in the queue, and is the only use left. *)
Definition orphan_provider : list event :=
  open_file "/dev/com1" ++ [fork; wait; fork_fs; put_path "/m/x"; mount 2; open 4]
  ++ [fs_wait; respond 2 0; read 1] ++ [exit].

Lemma provider_exit_panics_witness :
  exists e s, after orphan_provider = Ok (e, s) /\
    @vfs_backend_refdown (kfwd depth) 24 false s = Fault Panic.
Proof.
  destruct (after_obs orphan_provider (fun s => (backends s !! 24%positive, reqs s !! 32%positive))
    (Some (mkBackend 1 1 (Some 32%positive) (be_user None)),
     Some (req0 VFSOP_CLOSE <| r_id := buf_addr |> <| r_backend := Some 24%positive |>)))
    as (e&s&E&H); [vm_compute; reflexivity|].
  injection H as H1 H2. exists e, s. split; [exact E|].
  apply (provider_exit_panics (pred (pred depth)) s 24 [32%positive] 32).
  - exact H1.
  - cbn. split; [done|]. eexists. split; [exact H2|]. by repeat split.
  - apply NoDup_singleton.
Defined.

(** A provider, and a reader that its own parent kills. *)
Definition kill_reader : list event :=
  open_file "/dev/com1" ++ [fork_fs; put_path "/m/x"; mount 2; fork; wait]
  ++ [fork; read 1] ++ [open 4] ++ [fs_wait; respond 2 0; fs_wait] ++ [read 3]
  ++ [read 1; key; read 1] ++ [put_path "kill"; Call _SYS_INTR path_addr 4 0 0 0]
  ++ [read 1; key; read 1].

Lemma respond_to_killed_reader_panics_witness :
  exists e s, after kill_reader = Ok (e, s) /\
    @_sys_fs_respond (kfwd depth) 2 buf_addr 4 0 s = Fault Panic.
Proof.
  destruct (after_obs kill_reader (fun s =>
    (proc_cur s, slot_of s 19 2, handles s !! 34%positive, reqs s !! 31%positive))
    (Some 19%positive, Some (Some 34%positive),
     Some (handle0 <| h_type := HANDLE_FS_REQ |> <| h_req := Some 31%positive |>
             <| h_refcount := 1 |>),
     Some (req0 VFSOP_READ <| r_output := buf_addr |> <| r_output_len := 10 |>
             <| r_id := buf_addr |> <| r_backend := Some 22%positive |>)))
    as (e&s&E&H); [vm_compute; reflexivity|].
  injection H as H1 H2 H3 H4. exists e, s. split; [exact E|].
  eapply (@respond_to_killed_reader_panics (kfwd depth) s 19 2 34 _ 31).
  - exact H1.
  - unfold HANDLE_MAX; lia.
  - exact H2.
  - exact H3.
  - reflexivity.
  - reflexivity.
  - exact H4.
  - reflexivity.
  - reflexivity.
  - lia.
Defined.

(** Opening a path of length -1 right after boot. *)
Lemma open_negative_length_overflows_witness :
  exists e s, after [] = Ok (e, s) /\
    @_sys_open (kfwd depth) path_addr (-1) 0 s = Fault Undefined.
Proof.
  destruct (after_obs [] (fun s =>
    (proc_cur s, match pcpy_from 14 path_addr (u64 (-1)) s with
                 | Val (n, _) _ => Some n | _ => None end)) (Some 14%positive, Some 7936))
    as (e&s&E&H); [vm_compute; reflexivity|].
  apply pair_equal_spec in H as [H1 H2]. exists e, s. split; [exact E|].
  destruct (pcpy_from 14 path_addr (u64 (-1)) s) as [[n data] s'|?|?] eqn:Ec;
    [|discriminate H2|discriminate H2].
  injection H2 as H2.
  refine (@open_negative_length_overflows (kfwd depth) s 14 path_addr (-1) 0 n data s' H1
    eq_refl _ Ec _); [unfold HDR_SIZE; lia|rewrite H2; lia].
Defined.
