(* ===== verification/Fuel.v ===== *)
(** * Fuel

    The nesting bound of [Kernel.kfwd] does not matter: a run of the kernel that
    does not exhaust it is the same with every larger bound.  [approx] relates
    a computation to one that goes further where the first gives up; every
    operation that calls back into the kernel is monotone in what it calls. *)

From Stdlib Require Import String.
From S2P Require Import Prelude Monad Mem Malloc Paging KState Pcpy Proc Pipe Timer.
From S2P Require Import Handle Mount ProcLife Drivers Request Syscalls Fate Kernel Scenario.

Definition approx {A} (m m' : K A) : Prop :=
  forall s, m s = Fault OutOfFuel \/ m s = m' s.

Lemma approx_refl {A} (m : K A) : approx m m.
Proof. intros s. by right. Qed.

Lemma approx_trans {A} (m1 m2 m3 : K A) : approx m1 m2 -> approx m2 m3 -> approx m1 m3.
Proof.
  intros H1 H2 s. destruct (H1 s) as [?|E1]; [by left|]. destruct (H2 s) as [E2|E2].
  - left. congruence.
  - right. congruence.
Qed.

Lemma approx_fail {A} (m : K A) : approx (fail OutOfFuel) m.
Proof. intros s. by left. Qed.

Lemma approx_bind {A B} (m m' : K A) (f f' : A -> K B) :
  approx m m' -> (forall a, approx (f a) (f' a)) -> approx (m ≫= f) (m' ≫= f').
Proof.
  intros Hm Hf s. unfold mbind, st_bind. destruct (Hm s) as [->| <-]; [by left|].
  destruct (m s) as [a s'|e s'|x]; [apply Hf|by right|by right].
Qed.

Lemma approx_when b (m m' : K ()) : approx m m' -> approx (when b m) (when b m').
Proof. destruct b; [done|intros; apply approx_refl]. Qed.

Lemma approx_forM {A} (l : list A) (f f' : A -> K ()) :
  (forall a, approx (f a) (f' a)) -> approx (forM l f) (forM l f').
Proof.
  intros Hf. induction l; cbn; [apply approx_refl|]. by apply approx_bind; [|intros _].
Qed.

Lemma approx_iter {A B} n (f f' : A -> K (A + B)) a :
  (forall a, approx (f a) (f' a)) -> approx (iter n f a) (iter n f' a).
Proof.
  intros Hf. revert a; induction n as [|n IH]; intros a; cbn; [apply approx_refl|].
  apply approx_bind; [done|]. intros [a'|b]; [done|apply approx_refl].
Qed.

Lemma approx_iterp {A B} n (f f' : A -> K (A + B)) a :
  (forall a, approx (f a) (f' a)) -> approx (iterp n f a) (iterp n f' a).
Proof.
  intros Hf. revert a; induction n as [n IH|n IH|]; intros a; cbn; [..|apply Hf];
    repeat (apply approx_bind; [done|]; intros [?|?]; try apply approx_refl); done.
Qed.

Lemma approx_while {A B} n (f f' : A -> K (A + B)) a :
  (forall a, approx (f a) (f' a)) -> approx (while_ n f a) (while_ n f' a).
Proof.
  intros Hf. apply approx_bind; [by apply approx_iterp|intros; apply approx_refl].
Qed.

Lemma approx_each_sibling first (f f' : ptr -> K ()) :
  (forall p, approx (f p) (f' p)) -> approx (each_sibling first f) (each_sibling first f').
Proof.
  intros Hf. unfold each_sibling. apply approx_bind; [apply approx_refl|intros n].
  apply approx_iter. intros [p|]; [|apply approx_refl].
  apply approx_bind; [apply Hf|intros; apply approx_refl].
Qed.

Create HintDb fuel.
#[export] Hint Extern 0 (approx ?m ?m') => constr_eq m m'; exact (approx_refl m) : fuel.

Ltac approx_step :=
  match goal with
  | |- forall _, _ => intro
  | |- approx (match ?x with _ => _ end) (match ?x with _ => _ end) => destruct x
  | |- approx (mbind _ _) (mbind _ _) => apply approx_bind
  | |- approx (when _ _) (when _ _) => apply approx_when
  | |- approx (forM _ _) (forM _ _) => apply approx_forM
  | |- approx (iter _ _ _) (iter _ _ _) => apply approx_iter
  | |- approx (while_ _ _ _) (while_ _ _ _) => apply approx_while
  end.
Ltac approx_tac := repeat first [ solve [eauto 2 with fuel] | progress cbv zeta | approx_step ].

(** What the kernel calls back, compared. *)
Class FwdApprox (F F' : KFwd) : Prop := {
  approx_create req : approx (@fwd_vfsreq_create F req) (@fwd_vfsreq_create F' req);
  approx_finish req a b c d :
    approx (@fwd_vfsreq_finish F req a b c d) (@fwd_vfsreq_finish F' req a b c d);
  approx_refdown b use :
    approx (@fwd_vfs_backend_refdown F b use) (@fwd_vfs_backend_refdown F' b use);
  approx_execbuf p : approx (@fwd_execbuf_run F p) (@fwd_execbuf_run F' p);
}.
#[export] Hint Resolve approx_create approx_finish approx_refdown approx_execbuf : fuel.

Section monotone.
Context (F F' : KFwd) `{!FwdApprox F F'}.

Ltac mono f := unfold f; approx_tac.

Lemma mono_finish_short r ret :
  approx (@vfsreq_finish_short F r ret) (@vfsreq_finish_short F' r ret).
Proof. mono @vfsreq_finish_short. Qed.
Hint Resolve mono_finish_short : fuel.
Lemma mono_handle_close h : approx (@handle_close F h) (@handle_close F' h).
Proof. mono @handle_close. Qed.
Hint Resolve mono_handle_close : fuel.
Lemma mono_dup_to p a b : approx (@dup_to F p a b) (@dup_to F' p a b).
Proof. mono @dup_to. Qed.
Hint Resolve mono_dup_to : fuel.
Lemma mono_handle_dup p a b c : approx (@proc_handle_dup F p a b c) (@proc_handle_dup F' p a b c).
Proof. mono @proc_handle_dup. Qed.
Hint Resolve mono_handle_dup : fuel.
Lemma mono_proc_handle_close p h : approx (@proc_handle_close F p h) (@proc_handle_close F' p h).
Proof. mono @proc_handle_close. Qed.
Lemma mono_proc_handle_put p h : approx (@proc_handle_put F p h) (@proc_handle_put F' p h).
Proof. mono @proc_handle_put. Qed.
Lemma mono_mount_remref m : approx (@vfs_mount_remref F m) (@vfs_mount_remref F' m).
Proof. mono @vfs_mount_remref. Qed.
Hint Resolve mono_proc_handle_close mono_proc_handle_put mono_mount_remref : fuel.
Lemma mono_kill_controlled p : approx (@kill_controlled F p) (@kill_controlled F' p).
Proof. mono @kill_controlled. Qed.
Lemma mono_kill_handles p : approx (@kill_handles F p) (@kill_handles F' p).
Proof. mono @kill_handles. Qed.
Hint Resolve mono_kill_controlled mono_kill_handles : fuel.
Lemma mono_kill_alive p r : approx (@kill_alive F p r) (@kill_alive F' p r).
Proof. mono @kill_alive. Qed.
Hint Resolve mono_kill_alive : fuel.
Lemma mono_proc_kill p r : approx (@proc_kill F p r) (@proc_kill F' p r).
Proof. mono @proc_kill. Qed.
Hint Resolve mono_proc_kill : fuel.
Lemma mono_proc_intr p b : approx (@proc_intr F p b) (@proc_intr F' p b).
Proof. mono @proc_intr. Qed.
Lemma mono_switch_loop : approx (@proc_switch_loop F) (@proc_switch_loop F').
Proof. mono @proc_switch_loop. Qed.
Hint Resolve mono_proc_intr mono_switch_loop : fuel.
Lemma mono_switch_any : approx (@proc_switch_any F) (@proc_switch_any F').
Proof. mono @proc_switch_any. Qed.
Hint Resolve mono_switch_any : fuel.

Lemma mono_ringread_one t m r : approx (@ringread_one F t m r) (@ringread_one F' t m r).
Proof. mono @ringread_one. Qed.
Hint Resolve mono_ringread_one : fuel.
Lemma mono_ringreadall q : approx (@postqueue_ringreadall F q) (@postqueue_ringreadall F' q).
Proof. unfold postqueue_ringreadall, each_posted. approx_tac. Qed.
Hint Resolve mono_ringreadall : fuel.
Lemma mono_ps2_irq l : approx (@ps2_irq F l) (@ps2_irq F' l).
Proof. induction l as [|[a b] l IH]; cbn [ps2_irq]; approx_tac. Qed.
Lemma mono_serial_irq d : approx (@serial_irq F d) (@serial_irq F' d).
Proof. mono @serial_irq. Qed.
Hint Resolve mono_ps2_irq mono_serial_irq : fuel.
Lemma mono_list_processes r root :
  approx (@list_processes F r root) (@list_processes F' r root).
Proof. mono @list_processes. Qed.
Hint Resolve mono_list_processes : fuel.
Lemma mono_procfs_readdir r root t :
  approx (@procfs_readdir F r root t) (@procfs_readdir F' r root t).
Proof. mono @procfs_readdir. Qed.
Lemma mono_procfs_readmem r p x : approx (@procfs_readmem F r p x) (@procfs_readmem F' r p x).
Proof. mono @procfs_readmem. Qed.
Lemma mono_procfs_writeintr r p t x :
  approx (@procfs_writeintr F r p t x) (@procfs_writeintr F' r p t x).
Proof. unfold procfs_writeintr, each_next. approx_tac. Qed.
Hint Resolve mono_procfs_readdir mono_procfs_readmem mono_procfs_writeintr : fuel.
Lemma mono_call_accept f r : approx (@call_accept F f r) (@call_accept F' f r).
Proof.
  destruct f; cbn; unfold procfs_accept, fsroot_accept, ps2_accept, serial_accept, video_accept,
    rtl8139_accept;
    approx_tac.
Qed.
Hint Resolve mono_call_accept : fuel.

Lemma mono_finish_open r a b c d : approx (@finish_open F r a b c d) (@finish_open F' r a b c d).
Proof. mono @finish_open. Qed.
Hint Resolve mono_finish_open : fuel.
Lemma mono_vfsreq_finish r a b c d :
  approx (@vfsreq_finish F r a b c d) (@vfsreq_finish F' r a b c d).
Proof. mono @vfsreq_finish. Qed.
Lemma mono_tryaccept b : approx (@vfs_backend_tryaccept F b) (@vfs_backend_tryaccept F' b).
Proof. mono @vfs_backend_tryaccept. Qed.
Hint Resolve mono_tryaccept : fuel.
Lemma mono_vfsreq_create r : approx (@vfsreq_create F r) (@vfsreq_create F' r).
Proof. mono @vfsreq_create. Qed.
Lemma mono_drain_queue b : approx (@drain_queue F b) (@drain_queue F' b).
Proof. mono @drain_queue. Qed.
Hint Resolve mono_drain_queue : fuel.
Lemma mono_refdown b use : approx (@vfs_backend_refdown F b use) (@vfs_backend_refdown F' b use).
Proof. mono @vfs_backend_refdown. Qed.

Lemma mono_simple_vfsop a b c d e f :
  approx (@simple_vfsop F a b c d e f) (@simple_vfsop F' a b c d e f).
Proof. mono @simple_vfsop. Qed.
Lemma mono_intr_all c b : approx (@intr_all F c b) (@intr_all F' c b).
Proof. mono @intr_all. Qed.
Hint Resolve mono_simple_vfsop mono_intr_all : fuel.
Lemma mono__syscall num a b c d e :
  approx (@_syscall F num a b c d e) (@_syscall F' num a b c d e).
Proof.
  unfold _syscall, _sys_exit, _sys_fork, _sys_open, _sys_mount, _sys_dup, _sys_read, _sys_write,
    _sys_getsize, _sys_remove, _sys_close, _sys_fs_wait, _sys_fs_respond, _sys_intr,
    _sys_pipe.
  approx_tac.
Qed.
Hint Resolve mono__syscall : fuel.
Lemma mono_execbuf_run p : approx (@execbuf_run F p) (@execbuf_run F' p).
Proof. unfold execbuf_run, execbuf_turn, halt. approx_tac. Qed.
Lemma mono_sysenter_stage2 r : approx (@sysenter_stage2 F r) (@sysenter_stage2 F' r).
Proof. mono @sysenter_stage2. Qed.
End monotone.

#[export] Instance kfwd_approx n : FwdApprox (kfwd n) (kfwd (S n)).
Proof.
  induction n as [|n IH].
  - split; intros; apply approx_fail.
  - split; intros; cbn [kfwd fwd_vfsreq_create fwd_vfsreq_finish fwd_vfs_backend_refdown
      fwd_execbuf_run].
    + by apply mono_vfsreq_create.
    + by apply mono_vfsreq_finish.
    + by apply mono_refdown.
    + by apply mono_execbuf_run.
Qed.

(** The nesting bound is no part of what the kernel does.  A system call
    that ends within a bound - back in user mode, idle, shut down, or in a
    panic - ends in the same way and in the same state with every larger one. *)
Theorem fuel_irrelevant n m regs s :
  (n <= m)%nat -> @sysenter_stage2 (kfwd n) regs s <> Fault OutOfFuel ->
  @sysenter_stage2 (kfwd m) regs s = @sysenter_stage2 (kfwd n) regs s.
Proof.
  intros Hle Hn. induction Hle as [|m Hle IH]; [done|]. rewrite <- IH in Hn |- *.
  destruct (mono_sysenter_stage2 (kfwd m) (kfwd (S m)) regs s) as [E|E]; congruence.
Qed.

(** Opening [/dev/com1] takes a few nested calls; a bound of a hundred gives what
    a bound of four gives. *)
Lemma fuel_irrelevant_witness :
  let regs := call_regs regs0 _SYS_OPEN path_addr 9 3 0 0 in
  exists e s s', after [put_path "/dev/com1"] = Ok (e, s) /\
    @sysenter_stage2 (kfwd 4) regs s = Exit Sysexit s' /\
    @sysenter_stage2 (kfwd 100) regs s = Exit Sysexit s'.
Proof.
  intros regs.
  destruct (after_obs [put_path "/dev/com1"] (fun s =>
    match @sysenter_stage2 (kfwd 4) regs s with Exit Sysexit _ => true | _ => false end) true)
    as (e&s&E&H); [vm_compute; reflexivity|].
  destruct (@sysenter_stage2 (kfwd 4) regs s) as [?|[] s'|?] eqn:E4; try discriminate H.
  exists e, s, s'. split; [exact E|]. split; [exact E4|].
  rewrite (fuel_irrelevant 4 100 regs s); [exact E4|lia|]. rewrite E4. discriminate.
Defined.
